(* ===== verification/_CoqProject ===== *)
-Q . S2P
Prelude.v
Errors.v
Dict.v
PyVal.v
PyInt.v
PyText.v
Paths.v
Encoding.v
Json.v
JsonText.v
Artifacts.v
RuntimeTokens.v
Records.v
RecordCodec.v
Store.v
Leases.v
Idempotency.v
Interactions.v
SessionStore.v
EventStore.v
Sqlite.v
SqliteInv.v
SqliteRestart.v
SqliteFaults.v
Worker.v
Admission.v
Identity.v
Redact.v
Events.v
Policy.v
Sandbox.v
Mcp.v
Registry.v
Docker.v
Relay.v
Containers.v
DelegatedRun.v
DelegatedApi.v
Evidence.v
ModelRoute.v
Normalizer.v
CodexRpc.v
CodexTurn.v
Async.v
ToolBridge.v
ModelProxy.v
Profiles.v
SessionPolicy.v
Sessions.v
ProxyRuntime.v
Driver.v
Adapter.v
Api.v
ControlApi.v
RunProtocol.v
DelegatedHttp.v
RunApi.v
SessionInv.v
System.v
Scenarios.v
Terminals.v
Admit.v
