(* ===== verification/Prelude.v ===== *)
(** * HaaS sidecar: a verification development

    The program is the Python sidecar under src/haas: it runs harness turns (a coding agent
    behind an adapter) for many accounts and users over one shared store.  This library
    translates its core into Rocq functions and proves what makes them correct.

    ** Parts of the program and where they are

    The store (haas/stores/memory.py) holds every record; the other parts call it.
    - [Records]: the dataclasses, one record type each, with their serializations.
    - [Store]: the tables of [MemoryStore].  Dictionaries keep their insertion order ([Dict]).  The
      code shares session, invocation and turn objects between tables and running tasks and
      mutates them in place, so these tables hold locations in an object heap; [put_session] stores a
      copy, [put_invocation] and [put_turn] store the caller's object, as in the code.
    - [Leases]: session leases with fencing tokens, workspace locks.
    - [Idempotency]: reserve, accept, complete, replay, release, sweep.
    - [Interactions]: approvals and input requests.
    - [SessionStore]: harness, profile, session, invocation, turn and delegated-session tables.
    - [EventStore]: event ids, the append-only event lists and the two reads.
    The durable store (haas/stores/sqlite.py) writes the same tables through to SQL rows.
    - [Json], [RecordCodec]: JSON texts with sorted keys, and each record's [asdict] and its reading back.
    - [Sqlite]: the operations, transactions and loading.  [SqliteInv]: the rows mirror the memory and every
      operation keeps it so.  [SqliteRestart]: what a restart recovers.  [SqliteFaults]: failing statements.
    - [JsonText]: one concrete JSON codec, for the witnesses.
    Around the store:
    - [Admission] (haas/admission.py), [Identity] (haas/identity.py), [Redact]
      (haas/security/redact.py), [Events] (haas/events.py), [Policy] (haas/policy), [Registry]
      (haas/registry.py), [Profiles] (haas/profiles.py).
    - [Paths], [Artifacts] (haas/artifacts): path admission, versioned files, the content store.
    - [RuntimeTokens], [Encoding], [ModelRoute], [ToolBridge], [ModelProxy], [ProxyRuntime] (haas/model_proxy): the
      tokens a harness uses, provider routes, tool name translation, the request relay, and
      the capabilities that tie a session to a token.
    - [Sandbox] (haas/runtime/compiler.py, models.py, codex_app_server/sandbox.py): the sandbox of a turn, compiled from
      policy and declaration, and its projection to Codex.  [Mcp] (haas/mcp): tool servers and skill files.
    - [Evidence] (haas/execution_evidence.py): the expiring record of a command and its output, and the route that reads it.
    The Codex harness (haas/harnesses/codex_app_server):
    - [CodexRpc] (rpc.py): the JSON-RPC client of a harness process.
    - [Normalizer] (normalizer.py): native notifications as harness events.
    - [CodexTurn], [Adapter] (adapter.py): a turn's context with the correlation of its events to model calls, and the
      adapter: connecting, threads, starting, streaming, cancelling and finalizing a turn, command evidence, native
      prompts and their answers, probes.  [Async]: the coroutines the adapter is written in, as resumptions.
    Delegated sessions run in containers (haas/runtime):
    - [Docker] (delegation.py): the container commands, image, network and mounts of a session.  [Relay]
      (delegation.py): relaying and cancelling a container's run.  [Containers]: the runtime interface, a class with
      laws, and its three implementations.
    - [Worker] (worker.py, broker.py): the process in the container, with its signed receipts, cut at its file operations.
      [DelegatedRun]: relay and worker put together.
    - [DelegatedApi] (haas/api.py, reconciler.py): creating, restoring and re-configuring a delegated session, against
      the interface.
    The HTTP layer (haas/api.py), its handlers as coroutines of [Async] over the services they call:
    - [Api]: the services, errors, idempotency keys and cached answers, with the protocol of a key.
    - [ControlApi]: reading, patching and deleting a session, cancel, pause, continue, policy, approvals and answers.
    - [RunProtocol]: what the kinds of runs share, and the protocol of a run.  [DelegatedHttp]: [_run_delegated].
      [RunApi]: [_run], waiting and streaming.
    - [SessionPolicy], [Sessions], [Driver] (haas/sessions.py): policy revisions, terminal
      commits, readback, pause, cancel, continue, and the async generator [_drive].
    Composition and proofs about it:
    - [SessionInv]: the invariant of the store and runtime and that every operation keeps it.
    - [System]: runs, control calls, renewal ticks and store calls as steps of one transition
      system, in every order; theorems on all reachable states.
    - [Scenarios]: an executable player of scripts, whose plays are sequences of system steps.
    - [Terminals]: at most one terminal per run.
    - [Admit]: which runs are admitted.
    Shared: this file (record update, lists, tactics, the hint database [haas]), [Errors] (exceptions,
    the [result] and state-error monads, preservation of invariants), [Dict], [PyVal] (Python values,
    [==], truthiness, strings), [PyInt] (text of and from integers), [PyText] (splitting, joining and [shlex]).

    ** How code becomes definitions

    - A function that may raise returns [result]; a method is a function from the state to the new
      state and a result (monad [M]), so what was written before an exception stays written.
      Python exceptions are the constructors of [exn].
    - An [async] function is cut at its awaits and yields.  Each piece is one definition, run
      without interruption as the event loop does; what an await returns or raises is an argument.
      [_drive] is the machine [drive_step] over the suspension points [drive_pc], with its
      [except] and [finally] clauses; [stream_events] is [stream_step] over [stream_pc].  The adapter's other
      coroutines are terms of [Async]: a run to the next await, or the result; whatever happens to the state while one
      waits, and whatever the awaited call answers, is quantified over ([play], [task_obeys]).  A protocol says which calls
      are allowed after which answers, as a partial step function ([task_follows]); the handlers of [ControlApi], [RunApi]
      and [DelegatedHttp] are proved to follow theirs whatever the services answer.
    - The clock is an argument; a piece reads it once unless the code's two readings can differ in
      effect, then there are two arguments ([renew_lease], [reserve]).  Fresh identifiers are arguments.
    - Integers are unbounded, as in Python; floats are IEEE doubles ([spec_float]) where timeouts
      and timestamps use them.  Text is a list of UTF-8 bytes, code points are
      counted where the code counts them, [strip] and [lower] are those of ASCII.
    - SQL statements succeed or fail as a list in the state says; a table is an insertion-ordered dictionary.
    - Recursion is structural on the data, so every call returns.  Some loops have a bound: the eviction loop of the
      artifact store (each round drops a snapshot, so the number of snapshots suffices), the retry loop of the model
      proxy (the code's own bound of three attempts), the polls of [wait_for_idempotency] (thirty seconds of ten
      milliseconds each: [wait_for_idempotency_ends] proves the bound is not met), and the loops over the events of a run and
      over the frames of its stream, which may be endless: their bounds are arguments and the theorems hold for all of them.

    ** Interfaces to code that is not in the repository

    Type classes, arguments of every definition that uses them: [PyRepr] ([str] of a non-string),
    [RegexEngine] (compiled patterns of [re]), [PathResolver] ([Path.resolve]), [NetLib] ([urlparse], which may raise its [ValueError], and
    [ipaddress]), [Hashing] (JSON and SHA-256), [UrlSplit], [UrlExtras], [Sha256], [SortedJson] (a request body's sorted JSON), [JsonLib] and [CanonicalJson]
    ([json]), [FloatText] ([float]), [BytesText] ([bytes.decode]), [MimeTypes], [ScopeDigest], [EvidenceLib] (the
    patterns and URL parsing of execution evidence).  [Hmac] and [HexDigests]
    (digests are hexadecimal words), [JsonSpace] (a line end after a JSON text), [CommandRunner] (what a Docker command
    answers, given the commands before), [WorkerStream] (what a container's process writes).  The adapter, the model proxy's
    provider and the artifact store of a run are replies given to the driver's suspension points, so the theorems hold for any behaviour of theirs.

    ** What the theorems show

    Sessions: at most one terminal per run, consistent records in every reachable state, fencing of
    superseded leases, one writer per session, admission of runs, policy revisions.  Store: exclusive
    leases, one execution per idempotency key and refinement of a slot machine, prompts answered once,
    cascading deletion, exact replay of the event log, append all or nothing.
    Harness: every normalized notification is accepted by the event log, a turn's stream ends with exactly one
    terminal, which finalization reports, a turn starts whole or not at all, its events are filed under consistent model
    calls, command output accumulates within its bound, an answer goes to the connection that asked; command evidence is
    scoped, safe to show and gone after its expiry.  A compiled sandbox stays within what the policy layers list.
    HTTP: a run gives back what it takes (key, admission lease, session lease) on every path that answers, a delegated turn
    closes, a mutation acts at most once per key and answers what is stored for it, a wait for another request's key ends, prompts
    are answered only after their checks.
    Durability: after operations and restarts in which no statement fails (the conditions are in [op_ok]; what happens without
    them is shown in SqliteFaults) the database gives back what the memory held, an expired
    idempotency key stays refused, a failed write is undone.  Harness channel: a request settles once, a subscriber
    gets every message once and in order or is told that it cannot.  Delegation: policy revisions stay consistent and a request
    replaces its domains or waits, accepted manifests mount what they say, a restore starts at most one confined worker with
    a pinned image, a relay yields its worker's lines and a cancellation stops it, the workers of one generation execute a request at most
    once and one at a time, and its receipt, which another request or a changed receipt does not pass for, answers for it.
    Model proxy: an active token serves, a rotated one does not, a revoked one does not either, whatever follows, the string values
    of answers hide the credential, tool names round-trip.  Artifacts: paths stay inside the roots, the
    index is consistent, publication replaces a version.  Boundaries: layered policies only
    narrow and what they authorize is confined, registry reads and writes stay in the account, skill paths stay in
    their bundle, profiles have one active revision, redaction replaces what the patterns find at any depth, quotas and rate windows.
    Several theorems state what the code does where that differs from its intent or its
    specification: a policy mutation during a run, a refused pause, a rejected first run, an expired
    idempotency key, deletion across users, empty allow lists, commas in mount paths, overlapping updates of a delegated
    session, workers that race.

    ** Not modelled

    Of the HTTP layer (haas/api.py): routing, the texts of event streams, listings, files and artifacts, the catalog and
    profile routes around [Registry] and [Profiles], status and administration; of the delegated handlers the idempotency
    keys around them and the policy event.  A handler that is cancelled at an await (the client of a waiting run
    disconnects) is not modelled, nor is the abandoned generator of a stream.  The subprocess and socket transport of the Codex client and
    its schema files, the walk over workspace files of [list_artifacts], the OpenSandbox client (a thin HTTP client), the
    processes and pipes of containers, configuration and observability, the model proxy's secret
    files and listening socket, and the desktop manager under src/manager.  Of the modelled files: SSE framing
    (JSON text), [validate_url] and [validate_artifact_path], the wrappers [run] and [continue_invocation] that drain
    a generator, and the renewal task that an invalid timeout leaves running after [_drive] has raised.  Ids of native
    requests are texts or integers; another JSON value counts as none. *)

From Stdlib Require Export ZArith Lia.
From stdpp Require Export base tactics option list strings pretty numbers sets sorting relations.

(** ** Record update

    Python dataclasses are updated in place ([session.status = v]) or copied
    with [dataclasses.replace].  [r <| f := v |>] is the record [r] with field
    [f] set to [v].  Each record type gives its eta-expansion once ([Eta]); the
    setter of a field is then computed by abstracting that field's projection
    out of the expansion. *)

Class Eta (R : Type) := eta_expand : R → R.

Class Upd {R T : Type} (f : R → T) := upd : (T → T) → R → R.

Ltac derive_upd :=
  lazymatch goal with
  | |- @Upd ?R ?T ?f =>
      let e := constr:(_ : Eta R) in
      let b := eval hnf in e in
      lazymatch (eval pattern f in b) with
      | ?body _ =>
          let s := constr:(fun (u : T → T) (r : R) => body (fun x : R => u (f x)) r) in
          let s' := eval cbv beta in s in
          exact s'
      end
  end.

#[export] Hint Extern 1 (Upd _) => derive_upd : typeclass_instances.

Declare Scope py_scope.
Delimit Scope py_scope with py.
Open Scope py_scope.

Notation "r <| f := v |>" := (@upd _ _ f _ (λ _, v) r)
  (at level 1, f at next level, left associativity, format "r  <| f  :=  v |>") : py_scope.

(** ** Tactics

    [case_if] splits on the first [if] or [match] of the goal or of a
    hypothesis, keeping the equation; [bsimp] turns boolean tests into
    propositions. *)

Ltac bsimp :=
  repeat match goal with
  | H : negb _ = true |- _ => apply negb_true_iff in H
  | H : negb _ = false |- _ => apply negb_false_iff in H
  | H : (_ && _)%bool = true |- _ => apply andb_true_iff in H; destruct H
  | H : (_ || _)%bool = false |- _ => apply orb_false_iff in H; destruct H
  | H : bool_decide _ = true |- _ => apply bool_decide_eq_true in H
  | H : bool_decide _ = false |- _ => apply bool_decide_eq_false in H
  | H : (_ <? _)%Z = true |- _ => apply Z.ltb_lt in H
  | H : (_ <? _)%Z = false |- _ => apply Z.ltb_ge in H
  | H : (_ <=? _)%Z = true |- _ => apply Z.leb_le in H
  | H : (_ <=? _)%Z = false |- _ => apply Z.leb_gt in H
  | H : (_ =? _)%Z = true |- _ => apply Z.eqb_eq in H
  | H : (_ =? _)%Z = false |- _ => apply Z.eqb_neq in H
  end.

Ltac case_if :=
  match goal with
  | |- context [if ?b then _ else _] => let E := fresh "E" in destruct b eqn:E
  | |- context [match ?b with _ => _ end] => let E := fresh "E" in destruct b eqn:E
  | H : context [if ?b then _ else _] |- _ => let E := fresh "E" in destruct b eqn:E
  | H : context [match ?b with _ => _ end] |- _ => let E := fresh "E" in destruct b eqn:E
  end; bsimp; simplify_eq/=.

Create HintDb haas.

(** ** Option helpers: Python's [x or y] on an optional non-empty string *)

Definition is_some {A} (o : option A) : bool :=
  match o with Some _ => true | None => false end.

(** ** Lists *)

Section lists.
Context {A : Type}.

(** [next((i for i, e in enumerate(l) if p(e)), None)] *)
Fixpoint find_index (p : A → bool) (l : list A) : option nat :=
  match l with
  | [] => None
  | x :: l' => if p x then Some 0%nat else S <$> find_index p l'
  end.

Lemma find_index_Some p l i :
  find_index p l = Some i →
  ∃ x, l !! i = Some x ∧ p x = true ∧
       (∀ j y, (j < i)%nat → l !! j = Some y → p y = false).
Proof.
  revert i; induction l as [|a l IH]; intros i; simpl; [done|].
  destruct (p a) eqn:Ep; [intros [= <-]; exists a; split_and!; [done|done|lia]|].
  destruct (find_index p l) as [k|]; intros [= <-].
  destruct (IH k eq_refl) as (x & ? & ? & Hlt). exists x. split_and!; [done..|].
  intros [|j] y Hj; simpl; [by intros [= <-]|]. intros; eapply Hlt; [|done]; lia.
Qed.

Lemma find_index_None p l :
  find_index p l = None ↔ Forall (λ x, p x = false) l.
Proof.
  induction l as [|a l IH]; simpl; [by split; constructor|].
  destruct (p a) eqn:Ep.
  - split; [done|]. intros H; inversion H; congruence.
  - rewrite fmap_None, IH, Forall_cons. naive_solver.
Qed.

(** Boolean filter (stdpp's [filter] takes a decidable proposition). *)
Fixpoint keep (p : A → bool) (l : list A) : list A :=
  match l with
  | [] => []
  | x :: l' => if p x then x :: keep p l' else keep p l'
  end.

Lemma elem_of_keep p l x : x ∈ keep p l ↔ p x = true ∧ x ∈ l.
Proof.
  induction l as [|a l IH]; simpl; [set_solver|].
  destruct (p a) eqn:Ep; rewrite ?elem_of_cons, ?IH; naive_solver congruence.
Qed.

Lemma keep_app p l1 l2 : keep p (l1 ++ l2) = keep p l1 ++ keep p l2.
Proof. induction l1 as [|a l1 IH]; simpl; [done|]. by destruct (p a); rewrite IH. Qed.

Lemma keep_all p l : (∀ x, x ∈ l → p x = true) → keep p l = l.
Proof.
  induction l as [|a l IH]; intros H; simpl; [done|].
  rewrite (H a) by constructor. f_equal. apply IH. intros; apply H; by constructor.
Qed.

Lemma keep_none p l : (∀ x, x ∈ l → p x = false) → keep p l = [].
Proof.
  induction l as [|a l IH]; intros H; simpl; [done|].
  rewrite (H a) by constructor. apply IH. intros; apply H; by constructor.
Qed.

Lemma keep_NoDup_fmap {B} (f : A → B) p l : NoDup (f <$> l) → NoDup (f <$> keep p l).
Proof.
  induction l as [|a l IH]; simpl; [done|].
  intros [Ha Hn]%NoDup_cons. destruct (p a); simpl; [|by apply IH].
  apply NoDup_cons; split; [|by apply IH].
  intros (x & Hax & Hx)%list_elem_of_fmap. apply Ha, list_elem_of_fmap.
  apply elem_of_keep in Hx. exists x. naive_solver.
Qed.

Lemma keep_keep p q l : keep p (keep q l) = keep (λ x, q x && p x) l.
Proof.
  induction l as [|a l IH]; simpl; [done|].
  destruct (q a); simpl; [destruct (p a); by rewrite IH|done].
Qed.

Lemma keep_ext p q l : (∀ x, x ∈ l → p x = q x) → keep p l = keep q l.
Proof.
  induction l as [|a l IH]; intros H; simpl; [done|].
  rewrite (H a) by constructor. rewrite IH; [done|]. intros; apply H; by constructor.
Qed.

Lemma length_keep_le p l : (length (keep p l) ≤ length l)%nat.
Proof. induction l as [|a l IH]; simpl; [lia|]. destruct (p a); simpl; lia. Qed.

(** ** Stable sorting: Python's [sorted] *)

Fixpoint ins (le : A → A → bool) (x : A) (l : list A) : list A :=
  match l with
  | [] => [x]
  | y :: l' => if le x y then x :: y :: l' else y :: ins le x l'
  end.

Definition py_sorted (le : A → A → bool) (l : list A) : list A := foldr (ins le) [] l.

Lemma ins_perm le x l : ins le x l ≡ₚ x :: l.
Proof.
  induction l as [|y l IH]; simpl; [done|].
  destruct (le x y); [done|]. rewrite IH. constructor.
Qed.

Lemma py_sorted_perm le l : py_sorted le l ≡ₚ l.
Proof. induction l as [|x l IH]; simpl; [done|]. by rewrite ins_perm, IH. Qed.

Lemma elem_of_py_sorted le l x : x ∈ py_sorted le l ↔ x ∈ l.
Proof. by rewrite (py_sorted_perm le l). Qed.

Section order.
Variable le : A → A → bool.
Hypothesis le_total : ∀ x y, le x y = false → le y x = true.
Hypothesis le_trans : ∀ x y z, le x y = true → le y z = true → le x z = true.

Lemma ins_sorted x l :
  StronglySorted (λ a b, le a b = true) l →
  StronglySorted (λ a b, le a b = true) (ins le x l).
Proof.
  induction 1 as [|y l Hl IH Hy]; simpl; [by repeat constructor|].
  destruct (le x y) eqn:E.
  - constructor; [by constructor|]. constructor; [done|].
    eapply Forall_impl; [exact Hy|]. simpl. eauto.
  - constructor; [done|]. rewrite (ins_perm le x l). constructor; [by apply le_total|done].
Qed.

Lemma py_sorted_sorted l : StronglySorted (λ a b, le a b = true) (py_sorted le l).
Proof. induction l as [|x l IH]; simpl; [constructor|]. by apply ins_sorted. Qed.

(** A list already in order is left as it is: no reordering of equal keys. *)
Lemma py_sorted_id l : StronglySorted (λ a b, le a b = true) l → py_sorted le l = l.
Proof.
  induction 1 as [|x l Hl IH Hx]; simpl; [done|]. rewrite IH.
  destruct l as [|y l]; simpl; [done|]. inversion Hx as [|? ? Hxy]; subst. by rewrite Hxy.
Qed.

End order.
End lists.

#[export] Hint Resolve elem_of_keep : haas.
