(* ===== verification/Errors.v ===== *)
(** * Exceptions, results and the state/exception monad

    Python code that raises is modelled by a value of [result]; code that reads
    and writes shared state and may raise is a function of the state that
    returns the final state together with a [result].  The state survives an
    exception, as Python's does. *)

From S2P Require Import Prelude.

(** One constructor per exception class of the sidecar (with the payload the
    class carries) and per builtin exception the modelled code can raise. *)
Inductive exn : Type :=
  (* builtins *)
  | ValueError (msg : string)
  | KeyError (key : string)
  | RuntimeError (msg : string)
  | AttributeError
  | TypeError
  | TimeoutError
  (* haas/stores/memory.py *)
  | IdempotencyConflictError (key_hash : string)
  | IdempotencyExpiredError (key_hash : string) (invocation_id : option string) (expires_at_ms : Z)
  | CursorNotFoundError (cursor : string)
  | DelegatedSessionNotFoundError (id : string)
  | ApprovalNotFoundError (id : string)
  | ApprovalStateConflictError (id : string)
  | InputRequestNotFoundError (id : string)
  | InputRequestStateConflictError (id : string)
  | LeaseConflictError (holder : string) (expires_at_ms : Z)
  | LeaseFencingError
  (* haas/identity.py *)
  | MissingCredentialError
  | InvalidCredentialError
  (* haas/registry.py *)
  | AppNotFoundError (app : string)
  | HarnessNotFoundError (id : string)
  | UnsupportedBaseError (base : string)
  | ImmutableFieldError (field : string)
  | SkillBundleInvalidError (msg : string)
  (* haas/profiles.py *)
  | ProfileNotFoundError (id : string)
  | ProfileConflictError (id : string)
  (* haas/policy/controller.py *)
  | PolicyWideningRejected (msg : string)
  | PolicyInvalid (msg : string)
  (* haas/sessions.py *)
  | SessionNotFoundError (id : string)
  | SessionBusyError (id : string)
  | InvocationNotFoundError (id : string)
  | InvocationNotRunningError (id : string)
  | InvocationNotResumableError (id : string)
  | ResumeRequiredError (id : string)
  | PolicyRevisionConflictError (id : string)
  | PolicyUpdateInvalidError (id : string)
  | AdapterTurnError (invocation_id : string)
  | AdapterTurnTimeoutError (invocation_id : string)
  (* haas/harnesses/base.py *)
  | AdapterTurnStartError (code : string) (retryable : bool) (detail : option string)
  (* haas/artifacts *)
  | ArtifactPathRejected (msg : string)
  | ArtifactNotFoundError (id : string)
  | ArtifactQuotaExceeded (limit : string)
  (* haas/model_proxy *)
  | RuntimeTokenError (msg : string)
  | SecretResolutionError (msg : string)
  | ModelRouteError (msg : string) (code : option string)
  | ModelProxyError (msg : string)
  (* haas/mcp *)
  | McpValidationError (msg : string)
  | SkillMaterializationError (msg : string)
  (* haas/runtime *)
  | SandboxWideningRejected (msg : string)
  | PrivateWorkerError (msg : string)
  | BrokerUnavailable (msg : string)
  | DelegatedContainerUnavailable (msg : string)
  (* haas/harnesses/codex_app_server *)
  | SandboxPolicyError (msg : string)
  | HaaSTurnInputInvalid (msg : string)
  (* any other exception: its class name and its [code] attribute, if a string *)
  | OtherError (cls : string) (code : option string)
  (* a reference that the store does not hold; excluded by the store invariant *)
  | DanglingReference.

Inductive result (A : Type) : Type :=
  | Ok (a : A)
  | Raise (e : exn).
Arguments Ok {A} _.
Arguments Raise {A} _.

#[export] Instance result_ret : MRet result := @Ok.
#[export] Instance result_bind : MBind result := λ A B f m,
  match m with Ok a => f a | Raise e => Raise e end.
#[export] Instance result_fmap : FMap result := λ A B f m,
  match m with Ok a => Ok (f a) | Raise e => Raise e end.

Definition is_ok {A} (r : result A) : bool :=
  match r with Ok _ => true | Raise _ => false end.

(** [raise e] unless the condition holds. *)
Definition ensure (b : bool) (e : exn) : result unit :=
  if b then Ok tt else Raise e.

Lemma ensure_Ok b e u : ensure b e = Ok u ↔ b = true.
Proof. destruct b, u; simpl; naive_solver. Qed.

Lemma bind_Ok {A B} (f : A → result B) m b :
  (m ≫= f) = Ok b ↔ ∃ a, m = Ok a ∧ f a = Ok b.
Proof. destruct m; unfold mbind, result_bind; naive_solver. Qed.

(** Run a check over a list, stopping at the first exception. *)
Fixpoint iter_result {A} (f : A → result unit) (l : list A) : result unit :=
  match l with
  | [] => Ok tt
  | x :: l' => f x ≫= λ _, iter_result f l'
  end.

Lemma iter_result_Ok {A} (f : A → result unit) l :
  iter_result f l = Ok tt ↔ ∀ x, x ∈ l → f x = Ok tt.
Proof.
  induction l as [|a l IH]; simpl; [split; [set_solver|done]|].
  rewrite bind_Ok. setoid_rewrite elem_of_cons. split.
  - intros ([] & Ha & Hl). rewrite IH in Hl. naive_solver.
  - intros H. exists tt. rewrite IH. naive_solver.
Qed.

(** The state/exception monad. *)
Definition M (S A : Type) : Type := S → S * result A.

#[export] Instance M_ret S : MRet (M S) := λ A a s, (s, Ok a).
#[export] Instance M_bind S : MBind (M S) := λ A B f m s,
  match m s with
  | (s', Ok a) => f a s'
  | (s', Raise e) => (s', Raise e)
  end.

Section state_monad.
Context {S : Type}.

Definition raise {A} (e : exn) : M S A := λ s, (s, Raise e).
Definition gets {A} (f : S → A) : M S A := λ s, (s, Ok (f s)).
Definition modify (f : S → S) : M S unit := λ s, (f s, Ok tt).
Definition lift {A} (r : result A) : M S A := λ s, (s, r).
Definition guard_or (b : bool) (e : exn) : M S unit := λ s, (s, ensure b e).

(** [try: m  except e: h e] *)
Definition catch {A} (m : M S A) (h : exn → M S A) : M S A := λ s,
  match m s with
  | (s', Ok a) => (s', Ok a)
  | (s', Raise e) => h e s'
  end.

(** [try: m  finally: f]: the finaliser's own exception replaces the result. *)
Definition finally {A} (m : M S A) (f : M S unit) : M S A := λ s,
  match m s with
  | (s', r) =>
      match f s' with
      | (s'', Ok _) => (s'', r)
      | (s'', Raise e) => (s'', Raise e)
      end
  end.

Lemma M_bind_Ok {A B} (m : M S A) (f : A → M S B) s s' b :
  (m ≫= f) s = (s', Ok b) ↔ ∃ a s1, m s = (s1, Ok a) ∧ f a s1 = (s', Ok b).
Proof.
  unfold mbind, M_bind. destruct (m s) as [s1 [a|e]]; split.
  - intros H; eauto.
  - intros (? & ? & [= <- <-] & H); done.
  - intros [=].
  - intros (? & ? & [=] & H).
Qed.

(** A computation that keeps [I] whatever its outcome. *)
Definition preserves (I : S → Prop) {A} (m : M S A) : Prop := ∀ s, I s → I (m s).1.

Lemma preserves_ret I {A} (a : A) : preserves I (mret a).
Proof. by intros s. Qed.

Lemma preserves_raise I {A} e : preserves I (raise (A:=A) e).
Proof. by intros s. Qed.

Lemma preserves_lift I {A} (r : result A) : preserves I (lift r).
Proof. by intros s. Qed.

Lemma preserves_gets I {A} (f : S → A) : preserves I (gets f).
Proof. by intros s. Qed.

Lemma preserves_guard I b e : preserves I (guard_or b e).
Proof. by intros s. Qed.

Lemma preserves_bind I {A B} (m : M S A) (f : A → M S B) :
  preserves I m → (∀ a, preserves I (f a)) → preserves I (m ≫= f).
Proof.
  intros Hm Hf s Hs. unfold mbind, M_bind. specialize (Hm s Hs).
  destruct (m s) as [s1 [a|e]]; [by apply Hf|done].
Qed.

(** The same at one state. *)
Lemma bind_at (I : S → Prop) {A B} (m : M S A) (f : A → M S B) s :
  I (m s).1 → (∀ a, preserves I (f a)) → I ((m ≫= f) s).1.
Proof. intros Hm Hf. unfold mbind, M_bind. destruct (m s) as [s1 [a|e]]; [by apply Hf|done]. Qed.

Lemma preserves_catch I {A} (m : M S A) h :
  preserves I m → (∀ e, preserves I (h e)) → preserves I (catch m h).
Proof.
  intros Hm Hh s Hs. unfold catch. specialize (Hm s Hs).
  destruct (m s) as [s1 [a|e]]; [done|by apply Hh].
Qed.

Lemma preserves_finally I {A} (m : M S A) f :
  preserves I m → preserves I f → preserves I (finally m f).
Proof.
  intros Hm Hf s Hs. unfold finally. specialize (Hm s Hs).
  destruct (m s) as [s1 r]. specialize (Hf s1 Hm). by destruct (f s1) as [s2 []].
Qed.

End state_monad.

#[export] Hint Resolve preserves_ret preserves_raise preserves_lift preserves_gets
  preserves_guard preserves_bind preserves_catch preserves_finally : haas.
