(* ===== verification/Dict.v ===== *)
(** * Python dictionaries

    A Python [dict] keeps its keys in insertion order: assigning to an existing
    key keeps its position, a new key goes to the end.  It is modelled by the
    association list of its items in that order.  [dict_wf] (no key twice)
    holds of every dictionary built by these operations. *)

From S2P Require Import Prelude.

Notation dict K V := (list (K * V)).

Section dict.
Context {K V : Type} `{EqDecision K}.
Implicit Types (d : dict K V) (k : K) (v : V).

(** [d.get(k)] *)
Fixpoint dget (k : K) (d : dict K V) : option V :=
  match d with
  | [] => None
  | (k', v) :: d' => if decide (k = k') then Some v else dget k d'
  end.

(** [d[k] = v] *)
Fixpoint dset (k : K) (v : V) (d : dict K V) : dict K V :=
  match d with
  | [] => [(k, v)]
  | (k', v') :: d' => if decide (k = k') then (k', v) :: d' else (k', v') :: dset k v d'
  end.

(** [d.pop(k, None)] *)
Fixpoint ddel (k : K) (d : dict K V) : dict K V :=
  match d with
  | [] => []
  | (k', v) :: d' => if decide (k = k') then ddel k d' else (k', v) :: ddel k d'
  end.

Definition dkeys (d : dict K V) : list K := d.*1.
Definition dvalues (d : dict K V) : list V := d.*2.
Definition dmem (k : K) (d : dict K V) : bool := is_some (dget k d).

(** Delete a list of keys. *)
Definition ddel_all (ks : list K) (d : dict K V) : dict K V := foldr ddel d ks.

(** Apply [f] to the value of every key satisfying [p], in place. *)
Definition dupdate (p : K → V → bool) (f : V → V) (d : dict K V) : dict K V :=
  (λ kv : K * V, if p kv.1 kv.2 then (kv.1, f kv.2) else kv) <$> d.

Definition dict_wf (d : dict K V) : Prop := NoDup (dkeys d).

(** Same contents, whatever the order. *)
Definition dict_eq (d1 d2 : dict K V) : Prop := ∀ k, dget k d1 = dget k d2.

#[export] Instance dict_eq_equiv : Equivalence dict_eq.
Proof.
  split; [by intros ? ?|by intros ? ? H k; rewrite H|intros ? ? ? H1 H2 k; by rewrite H1].
Qed.

Lemma dget_dset k k' v d :
  dget k (dset k' v d) = if decide (k = k') then Some v else dget k d.
Proof. induction d as [|[k1 v1] d IH]; simpl; repeat case_decide; simplify_eq/=; repeat case_decide; naive_solver. Qed.

Lemma dget_dset_eq k v d : dget k (dset k v d) = Some v.
Proof. rewrite dget_dset. by case_decide. Qed.

Lemma dget_dset_ne k k' v d : k ≠ k' → dget k (dset k' v d) = dget k d.
Proof. rewrite dget_dset. by case_decide. Qed.

Lemma dget_ddel k k' d :
  dget k (ddel k' d) = if decide (k = k') then None else dget k d.
Proof. induction d as [|[k1 v1] d IH]; simpl; repeat case_decide; simplify_eq/=; repeat case_decide; naive_solver. Qed.

Lemma dget_ddel_eq k d : dget k (ddel k d) = None.
Proof. rewrite dget_ddel. by case_decide. Qed.

Lemma dget_ddel_ne k k' d : k ≠ k' → dget k (ddel k' d) = dget k d.
Proof. rewrite dget_ddel. by case_decide. Qed.

Lemma dget_ddel_all k ks d :
  dget k (ddel_all ks d) = if decide (k ∈ ks) then None else dget k d.
Proof.
  induction ks as [|k' ks IH]; simpl; [done|].
  rewrite dget_ddel, IH. repeat case_decide; set_solver.
Qed.

Lemma dget_Some_elem k v d : dget k d = Some v → (k, v) ∈ d.
Proof.
  induction d as [|[k1 v1] d IH]; simpl; [done|]. case_decide; [|set_solver].
  intros [= ->]; subst. constructor.
Qed.

Lemma elem_dget k v d : dict_wf d → (k, v) ∈ d → dget k d = Some v.
Proof.
  unfold dict_wf, dkeys. induction d as [|[k1 v1] d IH]; [set_solver|]; simpl.
  intros [Hk Hd]%NoDup_cons [?|Hin]%elem_of_cons; simplify_eq; case_decide; simplify_eq; [done..| |by auto].
  destruct Hk. apply list_elem_of_fmap. by exists (k1, v).
Qed.

Lemma elem_dget_iff k v d : dict_wf d → (k, v) ∈ d ↔ dget k d = Some v.
Proof. split; [by apply elem_dget|apply dget_Some_elem]. Qed.

Lemma dget_None k d : dget k d = None ↔ k ∉ dkeys d.
Proof.
  unfold dkeys. induction d as [|[k1 v1] d IH]; simpl; [set_solver|].
  rewrite not_elem_of_cons. case_decide; [naive_solver|]. rewrite IH. naive_solver.
Qed.

Lemma elem_dkeys k d : k ∈ dkeys d ↔ is_Some (dget k d).
Proof. rewrite <-not_eq_None_Some, dget_None. split; [tauto|apply dec_stable]. Qed.

Lemma dkeys_dset k v d :
  dkeys (dset k v d) = if decide (k ∈ dkeys d) then dkeys d else dkeys d ++ [k].
Proof.
  unfold dkeys. induction d as [|[k1 v1] d IH]; csimpl; [done|].
  destruct (decide (k = k1)) as [->|Hne]; csimpl.
  - rewrite decide_True by constructor. done.
  - rewrite IH. destruct (decide (k ∈ d.*1)) as [Hin|Hin].
    + by rewrite decide_True by by constructor.
    + rewrite decide_False; [done|]. by intros [?|?]%elem_of_cons.
Qed.

Lemma dict_wf_nil : dict_wf [].
Proof. constructor. Qed.

Lemma dict_wf_dset k v d : dict_wf d → dict_wf (dset k v d).
Proof.
  unfold dict_wf. rewrite dkeys_dset. case_decide; [done|].
  intros. apply NoDup_app. split_and!; [done|set_solver|apply NoDup_singleton].
Qed.

Lemma ddel_sublist k d : ddel k d `sublist_of` d.
Proof. induction d as [|[k1 v1] d IH]; simpl; [done|]. case_decide; by constructor. Qed.

Lemma dict_wf_sublist d1 d2 : d1 `sublist_of` d2 → dict_wf d2 → dict_wf d1.
Proof. intros Hs Hw. eapply sublist_NoDup; [apply Hw|]. by apply fmap_sublist. Qed.

Lemma dict_wf_ddel k d : dict_wf d → dict_wf (ddel k d).
Proof. apply dict_wf_sublist, ddel_sublist. Qed.

Lemma dict_wf_ddel_all ks d : dict_wf d → dict_wf (ddel_all ks d).
Proof. induction ks; simpl; [done|]. intros. by apply dict_wf_ddel, IHks. Qed.

Lemma ddel_all_elem ks d kv : kv ∈ ddel_all ks d → kv ∈ d ∧ kv.1 ∉ ks.
Proof.
  revert kv. induction ks as [|k ks IH]; simpl; [set_solver|].
  intros [k1 v1] Hin.
  assert ((k1, v1) ∈ ddel_all ks d ∧ k1 ≠ k) as [Hd Hne].
  { clear IH. induction (ddel_all ks d) as [|[k2 v2] e IHe]; simpl in *; [set_solver|].
    case_decide; set_solver. }
  apply IH in Hd. set_solver.
Qed.

Lemma elem_dvalues v d : v ∈ dvalues d ↔ ∃ k, (k, v) ∈ d.
Proof.
  unfold dvalues. rewrite list_elem_of_fmap. split; [intros ([k v'] & -> & ?); eauto|].
  intros [k Hk]. by exists (k, v).
Qed.

Lemma elem_dvalues_dget v d : dict_wf d → v ∈ dvalues d ↔ ∃ k, dget k d = Some v.
Proof. intros. rewrite elem_dvalues. setoid_rewrite elem_dget_iff; done. Qed.

Lemma dkeys_dupdate p f d : dkeys (dupdate p f d) = dkeys d.
Proof.
  unfold dkeys, dupdate. rewrite <-list_fmap_compose. apply list_fmap_ext.
  intros i [k v] _. simpl. by destruct (p k v).
Qed.

Lemma dict_wf_dupdate p f d : dict_wf d → dict_wf (dupdate p f d).
Proof. unfold dict_wf. by rewrite dkeys_dupdate. Qed.

Lemma dget_dupdate p f k d :
  dget k (dupdate p f d) = (λ v, if p k v then f v else v) <$> dget k d.
Proof.
  induction d as [|[k1 v1] d IH]; simpl; [done|].
  destruct (p k1 v1) eqn:E; simpl; case_decide; subst; simpl; rewrite ?E; auto.
Qed.

Lemma dset_same k v d : dget k d = Some v → dset k v d = d.
Proof.
  induction d as [|[k1 v1] d IH]; simpl; [done|].
  case_decide; [intros [= ->]; by subst|intros; f_equal; auto].
Qed.

Lemma dset_dset k v v' d : dset k v (dset k v' d) = dset k v d.
Proof. induction d as [|[k1 v1] d IH]; simpl; repeat case_decide; simpl; repeat case_decide; naive_solver congruence. Qed.

Lemma dset_new k v d : dget k d = None → dset k v d = d ++ [(k, v)].
Proof. induction d as [|[k1 v1] d IH]; simpl; [done|]. case_decide; [done|]. intros; f_equal; auto. Qed.

Lemma dget_app k d1 d2 : dget k (d1 ++ d2) = match dget k d1 with Some v => Some v | None => dget k d2 end.
Proof. induction d1 as [|[k1 v1] d1 IH]; simpl; [done|]. by case_decide. Qed.

Lemma elem_dset kv k v d : kv ∈ dset k v d → kv = (k, v) ∨ kv ∈ d.
Proof. induction d as [|[k1 v1] d IH]; simpl; [set_solver|]. case_decide; set_solver. Qed.

Lemma elem_ddel kv k d : kv ∈ ddel k d ↔ kv ∈ d ∧ kv.1 ≠ k.
Proof.
  induction d as [|[k1 v1] d IH]; simpl; [set_solver|].
  case_decide; rewrite ?elem_of_cons, IH; destruct kv; set_solver.
Qed.

Lemma ddel_not_in k d : dget k d = None → ddel k d = d.
Proof. induction d as [|[k1 v1] d IH]; simpl; [done|]. case_decide; [done|]. intros; f_equal; auto. Qed.

#[export] Instance dset_proper k v : Proper (dict_eq ==> dict_eq) (dset k v).
Proof. intros d1 d2 H k'. by rewrite !dget_dset, H. Qed.

#[export] Instance ddel_proper k : Proper (dict_eq ==> dict_eq) (ddel k).
Proof. intros d1 d2 H k'. by rewrite !dget_ddel, H. Qed.

End dict.

Arguments dict_wf {K V} d : simpl never.
Arguments dvalues {K V} d : simpl never.
Arguments dkeys {K V} d : simpl never.
Arguments dupdate {K V} p f d : simpl never.
Arguments ddel_all {K V _} ks d : simpl never.

#[export] Hint Resolve dict_wf_nil dict_wf_dset dict_wf_ddel dict_wf_ddel_all dict_wf_dupdate : haas.

(** Simplify lookups in updated dictionaries, using available (in)equalities. *)
Ltac dict_simp :=
  repeat first
    [ rewrite dget_dset_eq in *
    | rewrite dget_ddel_eq in *
    | rewrite dget_dset_ne in * by first [assumption | congruence | naive_solver]
    | rewrite dget_ddel_ne in * by first [assumption | congruence | naive_solver] ];
  simplify_eq/=.
