(* ===== verification/PyVal.v ===== *)
(** * Dynamic Python values and strings

    The values that travel in [dict[str, Any]] payloads (request bodies, event
    content, policies, metadata), with Python's truthiness, equality and
    attribute errors.  Strings are their UTF-8 byte sequences. *)

From Stdlib Require Export Floats.SpecFloat.
From S2P Require Import Prelude Errors Dict.

#[local] Open Scope string_scope.

(** ** Values *)

Inductive pyval : Type :=
  | PNone
  | PBool (b : bool)
  | PInt (z : Z)
  | PFloat (f : spec_float)
  | PStr (s : string)
  | PList (l : list pyval)
  | PDict (d : dict string pyval).

Notation pydict := (dict string pyval).

(** Induction principle that reaches list items and dictionary values. *)
Section pyval_ind.
Variable P : pyval → Prop.
Hypothesis HNone : P PNone.
Hypothesis HBool : ∀ b, P (PBool b).
Hypothesis HInt : ∀ z, P (PInt z).
Hypothesis HFloat : ∀ f, P (PFloat f).
Hypothesis HStr : ∀ s, P (PStr s).
Hypothesis HList : ∀ l, Forall P l → P (PList l).
Hypothesis HDict : ∀ d, Forall (λ kv, P kv.2) d → P (PDict d).

Fixpoint pyval_nested_ind (v : pyval) : P v :=
  match v with
  | PNone => HNone
  | PBool b => HBool b
  | PInt z => HInt z
  | PFloat f => HFloat f
  | PStr s => HStr s
  | PList l => HList l ((fix go (l : list pyval) : Forall P l :=
      match l with
      | [] => Forall_nil_2 _
      | x :: l' => Forall_cons_2 _ x l' (pyval_nested_ind x) (go l')
      end) l)
  | PDict d => HDict d ((fix go (d : pydict) : Forall (λ kv, P kv.2) d :=
      match d with
      | [] => Forall_nil_2 _
      | kv :: d' => Forall_cons_2 _ kv d' (pyval_nested_ind kv.2) (go d')
      end) d)
  end.
End pyval_ind.

(** [bool(v)] *)
Definition truthy (v : pyval) : bool :=
  match v with
  | PNone => false
  | PBool b => b
  | PInt z => negb (z =? 0)%Z
  | PFloat f => match f with S754_zero _ => false | _ => true end
  | PStr s => match s with EmptyString => false | _ => true end
  | PList l => match l with [] => false | _ => true end
  | PDict d => match d with [] => false | _ => true end
  end.

(** [a or b] *)
Definition py_or (a b : pyval) : pyval := if truthy a then a else b.

Definition is_dict (v : pyval) : bool := match v with PDict _ => true | _ => false end.
Definition is_list (v : pyval) : bool := match v with PList _ => true | _ => false end.
Definition is_str (v : pyval) : bool := match v with PStr _ => true | _ => false end.
Definition is_none (v : pyval) : bool := match v with PNone => true | _ => false end.

(** [isinstance(v, int)]: [bool] is a subclass of [int]. *)
Definition is_int (v : pyval) : bool :=
  match v with PInt _ | PBool _ => true | _ => false end.
Definition is_bool (v : pyval) : bool := match v with PBool _ => true | _ => false end.

(** The integer value of an [int] (a [bool] counts as 0 or 1). *)
Definition int_of (v : pyval) : Z :=
  match v with PInt z => z | PBool true => 1 | _ => 0 end%Z.

(** [d.get(k)] on a dictionary. *)
Definition pget (k : string) (d : pydict) : pyval := default PNone (dget k d).

(** [v.get(k)] on a value: an attribute error unless it is a dictionary. *)
Definition vget (k : string) (v : pyval) : result pyval :=
  match v with PDict d => Ok (pget k d) | _ => Raise AttributeError end.

(** [(v or {}).get(k)] *)
Definition or_empty_get (k : string) (v : pyval) : result pyval :=
  vget k (py_or v (PDict [])).

Definition as_dict (v : pyval) : pydict := match v with PDict d => d | _ => [] end.

(** ** Equality: numbers compare by value, dictionaries up to order *)

Definition float_eq_Z (f : spec_float) (z : Z) : bool :=
  match f with
  | S754_zero _ => (z =? 0)%Z
  | S754_finite s m e =>
      let sm := (if s then Zneg m else Zpos m) in
      if (0 <=? e)%Z then (z =? sm * 2 ^ e)%Z else (z * 2 ^ (- e) =? sm)%Z
  | _ => false
  end.

Definition num_eqb (a b : pyval) : bool :=
  match a, b with
  | PFloat f, PFloat g => SFeqb f g
  | PFloat f, _ => float_eq_Z f (int_of b)
  | _, PFloat g => float_eq_Z g (int_of a)
  | _, _ => (int_of a =? int_of b)%Z
  end.

Definition is_num (v : pyval) : bool :=
  match v with PInt _ | PBool _ | PFloat _ => true | _ => false end.

Fixpoint py_eqb (a b : pyval) {struct a} : bool :=
  match a, b with
  | PNone, PNone => true
  | PStr s, PStr t => bool_decide (s = t)
  | PList l, PList m =>
      (fix go (l m : list pyval) : bool :=
         match l, m with
         | [], [] => true
         | x :: l', y :: m' => py_eqb x y && go l' m'
         | _, _ => false
         end) l m
  | PDict d, PDict e =>
      bool_decide (length d = length e) &&
      (fix go (d : pydict) : bool :=
         match d with
         | [] => true
         | (k, x) :: d' =>
             match dget k e with Some y => py_eqb x y | None => false end && go d'
         end) d
  | (PBool _ | PInt _ | PFloat _), _ => is_num b && num_eqb a b
  | _, _ => false
  end.

(** Equality of optional dictionaries ([dict | None] fields). *)
Definition opt_dict_val (o : option pydict) : pyval :=
  match o with Some d => PDict d | None => PNone end.
Definition opt_str_val (o : option string) : pyval :=
  match o with Some s => PStr s | None => PNone end.
Definition opt_int_val (o : option Z) : pyval :=
  match o with Some z => PInt z | None => PNone end.

(** [v in {"a", "b", ...}] for a set of strings: unhashable values raise. *)
Definition in_str_set (v : pyval) (l : list string) : result bool :=
  match v with
  | PStr s => Ok (bool_decide (s ∈ l))
  | PList _ | PDict _ => Raise TypeError
  | _ => Ok false
  end.

(** [set(d) == {...}] *)
Definition keys_are (d : pydict) (l : list string) : bool :=
  forallb (λ k, bool_decide (k ∈ l)) (dkeys d) && forallb (λ k, dmem k d) l.

(** [{...} - d.keys()] is empty *)
Definition has_keys (d : pydict) (l : list string) : bool :=
  forallb (λ k, dmem k d) l.

(** [str(v)].  The text of floats and containers is left to the interpreter's
    [repr]. *)
Class PyRepr := py_repr : pyval → string.

Definition py_str `{PyRepr} (v : pyval) : string :=
  match v with
  | PStr s => s
  | PNone => "None"
  | PBool true => "True"
  | PBool false => "False"
  | PInt z => pretty z
  | _ => py_repr v
  end.

(** [str(v or default)] *)
Definition str_or `{PyRepr} (v : pyval) (dflt : string) : string :=
  py_str (py_or v (PStr dflt)).

(** Integer to float and float division, as IEEE binary64. *)
Definition float_of_Z (z : Z) : spec_float := binary_normalize 53 1024 z 0 false.
Definition float_div (a b : spec_float) : spec_float := SFdiv 53 1024 a b.

(** ** Strings *)

Fixpoint str_forall (p : Ascii.ascii → bool) (s : string) : bool :=
  match s with
  | EmptyString => true
  | String a s' => p a && str_forall p s'
  end.

Definition str_exists (p : Ascii.ascii → bool) (s : string) : bool :=
  negb (str_forall (λ a, negb (p a)) s).

Definition starts_with (p s : string) : bool := String.prefix p s.

Fixpoint drop_str (n : nat) (s : string) : string :=
  match n, s with
  | S n', String _ s' => drop_str n' s'
  | _, _ => s
  end.

(** [s.removeprefix(p)] *)
Definition removeprefix (p s : string) : string :=
  if starts_with p s then drop_str (String.length p) s else s.

Definition ends_with (suf s : string) : bool :=
  (String.length suf <=? String.length s)%nat &&
  bool_decide (drop_str (String.length s - String.length suf) s = suf).

(** [s.split(c)] *)
Fixpoint split_on (c : Ascii.ascii) (s : string) : list string :=
  match s with
  | EmptyString => [""]
  | String a s' =>
      if Ascii.eqb a c then "" :: split_on c s'
      else match split_on c s' with
           | h :: t => String a h :: t
           | [] => [String a ""]
           end
  end.

Lemma starts_with_app p s : starts_with p (p ++ s) = true.
Proof.
  unfold starts_with. induction p as [|a p IH]; simpl; [by destruct s|].
  by destruct (Ascii.ascii_dec a a).
Qed.

Lemma drop_str_app p s : drop_str (String.length p) (p ++ s) = s.
Proof. induction p as [|a p IH]; simpl; [by destruct s|]. apply IH. Qed.

Lemma starts_with_inv p s : starts_with p s = true → ∃ t, s = p ++ t.
Proof.
  unfold starts_with. revert s. induction p as [|a p IH]; intros s; simpl; [by exists s|].
  destruct s as [|b s]; simpl; [done|]. destruct (Ascii.ascii_dec a b) as [->|]; [|intros [=]].
  intros [t ->]%IH. by exists t.
Qed.

Lemma removeprefix_app p s : removeprefix p (p ++ s) = s.
Proof. unfold removeprefix. by rewrite starts_with_app, drop_str_app. Qed.

Lemma split_on_nonempty c s : split_on c s ≠ [].
Proof.
  destruct s as [|a s]; simpl; [done|]. destruct (Ascii.eqb a c); [done|].
  by destruct (split_on c s).
Qed.

(** The pieces of [split] hold no separator, and joining them gives the string back. *)
Fixpoint join_with (sep : string) (l : list string) : string :=
  match l with
  | [] => ""
  | [x] => x
  | x :: l' => x ++ sep ++ join_with sep l'
  end.

Lemma join_split c s : join_with (String c "") (split_on c s) = s.
Proof.
  induction s as [|a s IH]; simpl; [done|].
  destruct (Ascii.eqb_spec a c) as [->|Hne].
  - pose proof (split_on_nonempty c s). destruct (split_on c s) eqn:E; [done|].
    by rewrite <-IH.
  - destruct (split_on c s) as [|h t] eqn:E; [by destruct (split_on_nonempty c s)|].
    rewrite <-IH. simpl. by destruct t.
Qed.

(** ** The sort key [(createdAtMs, id)]: integer first, then string by code units *)

Definition key_leb (a b : Z * string) : bool :=
  (a.1 <? b.1)%Z || ((a.1 =? b.1)%Z && String.leb a.2 b.2).

Lemma key_leb_total a b : key_leb a b = false → key_leb b a = true.
Proof.
  unfold key_leb. destruct a as [x s], b as [y t]; simpl.
  destruct (Z.ltb_spec x y), (Z.ltb_spec y x); simpl; try done; try lia.
  assert (x = y) as -> by lia. rewrite !Z.eqb_refl; simpl.
  destruct (String.leb_total s t) as [->| ->]; done.
Qed.

Lemma key_leb_trans a b c : key_leb a b = true → key_leb b c = true → key_leb a c = true.
Proof.
  unfold key_leb. destruct a as [x s], b as [y t], c as [z u]; simpl.
  rewrite !orb_true_iff, !andb_true_iff, !Z.ltb_lt, !Z.eqb_eq.
  intros [?|[-> H1]] [?|[-> H2]]; [left; lia..|]. right. split; [done|].
  apply Is_true_true. apply Is_true_true in H1, H2.
  exact (transitivity (R:=String.le) H1 H2).
Qed.

Lemma key_leb_antisym a b : key_leb a b = true → key_leb b a = true → a = b.
Proof.
  unfold key_leb. destruct a as [x s], b as [y t]; simpl.
  rewrite !orb_true_iff, !andb_true_iff, !Z.ltb_lt, !Z.eqb_eq.
  intros [?|[-> H1]] [?|[? H2]]; try lia. f_equal. by apply String.leb_antisym.
Qed.

(** ** Case and white space (ASCII) *)

Definition ascii_lower (a : Ascii.ascii) : Ascii.ascii :=
  let n := Ascii.nat_of_ascii a in
  if (65 <=? n)%nat && (n <=? 90)%nat then Ascii.ascii_of_nat (n + 32) else a.

Fixpoint lower (s : string) : string :=
  match s with EmptyString => "" | String a s' => String (ascii_lower a) (lower s') end.

(** ASCII white space as [str.strip] sees it: tab to carriage return, the four
    separators and the space. *)
Definition is_space (a : Ascii.ascii) : bool :=
  let n := Ascii.nat_of_ascii a in
  ((9 <=? n)%nat && (n <=? 13)%nat) || ((28 <=? n)%nat && (n <=? 32)%nat).

Fixpoint lstrip (s : string) : string :=
  match s with
  | EmptyString => ""
  | String a s' => if is_space a then lstrip s' else s
  end.

Fixpoint rstrip (s : string) : string :=
  match s with
  | EmptyString => ""
  | String a s' =>
      match rstrip s' with
      | EmptyString => if is_space a then "" else String a ""
      | t => String a t
      end
  end.

(** [s.strip()] *)
Definition strip (s : string) : string := rstrip (lstrip s).

(** ** Slash-separated text *)

Definition slash : Ascii.ascii := Ascii.ascii_of_nat 47.

(** A path component: not empty, no slash. *)
Definition plain (c : string) : Prop := c ≠ "" ∧ str_forall (λ a, negb (Ascii.eqb a slash)) c = true.

#[local] Open Scope list_scope.

Lemma str_app_assoc (a b c : string) : a +:+ (b +:+ c) = (a +:+ b) +:+ c.
Proof.
  induction a as [|x a IH]; [done|].
  change (String x (a +:+ (b +:+ c)) = String x ((a +:+ b) +:+ c)). by rewrite IH.
Qed.

Lemma split_on_app c a b : split_on c (a +:+ String c b) = split_on c a ++ split_on c b.
Proof.
  induction a as [|x a IH].
  { change ("" +:+ String c b) with (String c b). cbn [split_on app]. by rewrite Ascii.eqb_refl. }
  change (String x a +:+ String c b) with (String x (a +:+ String c b)). cbn [split_on].
  rewrite IH. destruct (Ascii.eqb x c); [done|].
  pose proof (split_on_nonempty c a). by destruct (split_on c a).
Qed.

Lemma split_on_plain s : str_forall (λ a, negb (Ascii.eqb a slash)) s = true → split_on slash s = [s].
Proof.
  induction s as [|x s IH]; cbn [split_on str_forall]; [done|]. intros [Hx Hs]%andb_true_iff.
  apply negb_true_iff in Hx as ->. by rewrite (IH Hs).
Qed.

Lemma split_on_join l : l ≠ [] → Forall plain l → split_on slash (join_with "/" l) = l.
Proof.
  intros Hne Hl. induction Hl as [|c l [_ Hc] Hl IH]; [done|].
  destruct l as [|d l]; [by apply split_on_plain|].
  change (join_with "/" (c :: d :: l)) with (c +:+ String slash (join_with "/" (d :: l))).
  rewrite split_on_app, split_on_plain, IH by done. done.
Qed.

Lemma join_with_app l1 l2 :
  l1 ≠ [] → l2 ≠ [] → join_with "/" (l1 ++ l2) = join_with "/" l1 +:+ String slash (join_with "/" l2).
Proof.
  intros H1 H2. induction l1 as [|x l1 IH]; [done|]. destruct l1 as [|y l1].
  - cbn [app join_with]. by destruct l2.
  - change ((x :: y :: l1) ++ l2) with (x :: y :: (l1 ++ l2)).
    change (join_with "/" (x :: y :: l1 ++ l2)) with (x +:+ String slash (join_with "/" ((y :: l1) ++ l2))).
    rewrite IH by done. change (join_with "/" (x :: y :: l1)) with (x +:+ String slash (join_with "/" (y :: l1))).
    exact (str_app_assoc x (String slash (join_with "/" (y :: l1))) (String slash (join_with "/" l2))).
Qed.

Lemma split_on_clean s c : c ∈ split_on slash s → str_forall (λ a, negb (Ascii.eqb a slash)) c = true.
Proof.
  revert c. induction s as [|x s IH]; intros c; cbn [split_on]; [intros ->%list_elem_of_singleton; done|].
  destruct (Ascii.eqb x slash) eqn:E; [intros [->|?]%elem_of_cons; [done|by apply IH]|].
  destruct (split_on slash s) as [|y l] eqn:Es; [by apply split_on_nonempty in Es|].
  intros [->|Hc]%elem_of_cons; [|by apply IH, elem_of_cons; right].
  cbn [str_forall]. rewrite E, IH; [done|]. apply elem_of_cons. by left.
Qed.
