(* ===== verification/PyInt.v ===== *)
(** * [int(v)]

    What Python's [int] makes of a dynamic value: numbers are truncated, text is read as
    decimal digits with single underscores between them (ASCII), anything else is an error. *)

From S2P Require Import Prelude Errors PyVal.
From Stdlib Require Import Ascii.

#[local] Open Scope string_scope.
#[local] Open Scope Z_scope.

Definition digit_value (a : Ascii.ascii) : option Z :=
  let n := Ascii.nat_of_ascii a in if (48 <=? n)%nat && (n <=? 57)%nat then Some (Z.of_nat (n - 48)) else None.

(** Decimal digits, with single underscores between them. *)
Fixpoint digits_value (acc : Z) (after_digit : bool) (s : string) : option Z :=
  match s with
  | "" => if after_digit then Some acc else None
  | String a s' =>
      match digit_value a with
      | Some d => digits_value (10 * acc + d) true s'
      | None => if after_digit && Ascii.eqb a "_"%char then digits_value acc false s' else None
      end
  end.

(** The interpreter refuses a text of more than 4300 digits. *)
Definition MAX_STR_DIGITS : nat := 4300.
Fixpoint count_digits (s : string) : nat :=
  match s with
  | "" => O
  | String a s' => if is_some (digit_value a) then S (count_digits s') else count_digits s'
  end.

(** [int(s)] of a text: [None] is the [ValueError]. *)
Definition int_of_text (s : string) : option Z :=
  if (MAX_STR_DIGITS <? count_digits s)%nat then None
  else match strip s with
       | String "-"%char s' => Z.opp <$> digits_value 0 false s'
       | String "+"%char s' => digits_value 0 false s'
       | s' => digits_value 0 false s'
       end.


Definition py_int (v : pyval) : result Z :=
  match v with
  | PInt _ | PBool _ => Ok (int_of v)
  | PFloat (S754_zero _) => Ok 0
  | PFloat (S754_finite s m e) =>
      let n := if 0 <=? e then Zpos m * 2 ^ e else Zpos m / 2 ^ (- e) in Ok (if s then - n else n)
  | PFloat (S754_infinity _) => Raise (OtherError "OverflowError" None)
  | PFloat S754_nan => Raise (ValueError "cannot convert float NaN to integer")
  | PStr s => match int_of_text s with Some z => Ok z | None => Raise (ValueError "invalid literal for int()") end
  | _ => Raise TypeError
  end.

Example int_of_texts : int_of_text " -1_0 " = Some (-10) /\ int_of_text "" = None /\ int_of_text "1__0" = None.
Proof. by vm_compute. Qed.
