(* ===== verification/PyText.v ===== *)
(** * Text operations of the standard library: [replace], [in], [shlex]

    Strings are UTF-8 bytes; the operations here look only at ASCII characters, so working on
    bytes gives what Python gives on code points. *)

From S2P Require Import Prelude Errors PyVal.
From Stdlib Require Import Ascii.

#[local] Open Scope string_scope.
#[local] Open Scope list_scope.

(** ** [s.replace] and [in] *)

(** [s.replace(a, b)] for two characters. *)
Fixpoint replace_char (a b : Ascii.ascii) (s : string) : string :=
  match s with
  | EmptyString => EmptyString
  | String c s' => String (if Ascii.eqb c a then b else c) (replace_char a b s')
  end.

(** [s.replace(pat, rep)] for a pattern that is not empty. *)
Fixpoint replace_go (skip : nat) (pat rep s : string) : string :=
  match s with
  | EmptyString => EmptyString
  | String a s' =>
      match skip with
      | S k => replace_go k pat rep s'
      | O => if starts_with pat s then rep +:+ replace_go (String.length pat - 1) pat rep s'
             else String a (replace_go 0 pat rep s')
      end
  end.
Definition replace_str (pat rep s : string) : string := replace_go 0 pat rep s.

(** [word in s] *)
Definition str_in (word s : string) : bool := is_some (String.index 0 word s).

(** ** [shlex] *)

Definition quote_char : Ascii.ascii := Ascii.ascii_of_nat 39.
Definition dquote_char : Ascii.ascii := Ascii.ascii_of_nat 34.
Definition escape_char : Ascii.ascii := Ascii.ascii_of_nat 92.
Definition shlex_space (a : Ascii.ascii) : bool :=
  let n := Ascii.nat_of_ascii a in (n =? 32)%nat || (n =? 9)%nat || (n =? 13)%nat || (n =? 10)%nat.
Definition is_quote (a : Ascii.ascii) : bool := Ascii.eqb a quote_char || Ascii.eqb a dquote_char.

(** The state of [shlex.read_token] in POSIX mode with [whitespace_split] and no comments:
    between tokens, inside a word, inside quotes, after a backslash (in a word or in double
    quotes). *)
Inductive lex_state := LSpace | LWord | LQuote (q : Ascii.ascii) | LEscape (in_quotes : bool).

Definition snoc_char (token : string) (a : Ascii.ascii) : string := token +:+ String a "".

(** The tokens of the rest of the text; [token] is what the current one holds and [quoted] whether
    a quote was seen in it.  [None] is the [ValueError] of an open quote or a trailing backslash. *)
Fixpoint lex_go (st : lex_state) (token : string) (quoted : bool) (s : string) : option (list string) :=
  match s with
  | EmptyString =>
      match st with
      | LSpace => Some []
      | LWord => Some (if negb (bool_decide (token = "")) || quoted then [token] else [])
      | LQuote _ | LEscape _ => None
      end
  | String a s' =>
      match st with
      | LSpace =>
          if shlex_space a then lex_go LSpace "" false s'
          else if Ascii.eqb a escape_char then lex_go (LEscape false) "" false s'
          else if is_quote a then lex_go (LQuote a) "" true s'
          else lex_go LWord (String a "") false s'
      | LWord =>
          if shlex_space a then
            if negb (bool_decide (token = "")) || quoted then cons token <$> lex_go LSpace "" false s'
            else lex_go LSpace "" false s'
          else if is_quote a then lex_go (LQuote a) token true s'
          else if Ascii.eqb a escape_char then lex_go (LEscape false) token quoted s'
          else lex_go LWord (snoc_char token a) quoted s'
      | LQuote q =>
          if Ascii.eqb a q then lex_go LWord token true s'
          else if Ascii.eqb a escape_char && Ascii.eqb q dquote_char then lex_go (LEscape true) token true s'
          else lex_go (LQuote q) (snoc_char token a) true s'
      | LEscape false => lex_go LWord (snoc_char token a) quoted s'
      | LEscape true =>
          let token := if negb (Ascii.eqb a escape_char) && negb (Ascii.eqb a dquote_char) then snoc_char token escape_char else token in
          lex_go (LQuote dquote_char) (snoc_char token a) quoted s'
      end
  end.

(** [shlex.split] *)
Definition shlex_split (s : string) : option (list string) := lex_go LSpace "" false s.

(** A character outside [\w@%+=:,./-] makes [shlex.quote] quote. *)
Definition safe_char (a : Ascii.ascii) : bool :=
  let n := Ascii.nat_of_ascii a in
  ((48 <=? n)%nat && (n <=? 57)%nat) || ((65 <=? n)%nat && (n <=? 90)%nat) || ((97 <=? n)%nat && (n <=? 122)%nat) ||
  bool_decide (a ∈ ["_"; "@"; "%"; "+"; "="; ":"; ","; "."; "/"; "-"]%char).

(** The body of a quoted text: [s.replace("'", "'\"'\"'")]. *)
Fixpoint quote_body (s : string) : string :=
  match s with
  | EmptyString => EmptyString
  | String a s' =>
      if Ascii.eqb a quote_char
      then String quote_char (String dquote_char (String quote_char (String dquote_char (String quote_char (quote_body s')))))
      else String a (quote_body s')
  end.

(** [shlex.quote] *)
Definition shlex_quote (s : string) : string :=
  if bool_decide (s = "") then String quote_char (String quote_char "")
  else if str_forall safe_char s then s
  else String quote_char (quote_body s +:+ String quote_char "").

(** [shlex.join] *)
Definition shlex_join (l : list string) : string := join_with " " (shlex_quote <$> l).

(** ** Splitting a joined argument vector gives it back *)

Lemma str_app_nil_r s : s +:+ "" = s.
Proof. induction s as [|a s IH]; [done|]. change (String a (s +:+ "") = String a s). by rewrite IH. Qed.

Lemma snoc_app token a s : snoc_char token a +:+ s = token +:+ String a s.
Proof. unfold snoc_char. by rewrite <-str_app_assoc. Qed.

Lemma safe_char_plain a : safe_char a = true → shlex_space a = false ∧ is_quote a = false ∧ Ascii.eqb a escape_char = false.
Proof. destruct a as [[] [] [] [] [] [] [] []]; vm_compute; intros H; first [discriminate H|by split_and!]. Qed.

Lemma lex_safe_word token quoted w rest :
  str_forall safe_char w = true → lex_go LWord token quoted (w +:+ rest) = lex_go LWord (token +:+ w) quoted rest.
Proof.
  revert token. induction w as [|a w IH]; intros token; [by rewrite str_app_nil_r|].
  cbn [str_forall]. intros [Ha Hw]%andb_true_iff. destruct (safe_char_plain a Ha) as (H1 & H2 & H3).
  change (String a w +:+ rest) with (String a (w +:+ rest)). cbn [lex_go]. rewrite H1, H2, H3, IH by done.
  f_equal. apply snoc_app.
Qed.

Lemma lex_quote_body token s rest :
  lex_go (LQuote quote_char) token true (quote_body s +:+ String quote_char rest) = lex_go LWord (token +:+ s) true rest.
Proof.
  revert token. induction s as [|a s IH]; intros token; cbn [quote_body]; [by rewrite str_app_nil_r|].
  destruct (Ascii.eqb_spec a quote_char) as [->|Hne].
  - change (lex_go (LQuote quote_char) (snoc_char token quote_char) true (quote_body s +:+ String quote_char rest) =
            lex_go LWord (token +:+ String quote_char s) true rest).
    rewrite IH. f_equal. apply snoc_app.
  - change (String a (quote_body s) +:+ String quote_char rest) with (String a (quote_body s +:+ String quote_char rest)).
    cbn [lex_go]. destruct (Ascii.eqb_spec a quote_char) as [|_]; [done|].
    rewrite andb_false_r, IH. f_equal. apply snoc_app.
Qed.

(** Reading a quoted word leaves the lexer in the middle of it. *)
Lemma lex_quoted_word w rest :
  ∃ quoted, lex_go LSpace "" false (shlex_quote w +:+ rest) = lex_go LWord w quoted rest ∧ (w = "" → quoted = true).
Proof.
  unfold shlex_quote. case_bool_decide as Hw; [subst; by exists true|].
  destruct (str_forall safe_char w) eqn:Hs.
  - exists false. split; [|done]. destruct w as [|a w]; [done|]. cbn [str_forall] in Hs. apply andb_true_iff in Hs as [Ha Hs].
    destruct (safe_char_plain a Ha) as (H1 & H2 & H3). change (String a w +:+ rest) with (String a (w +:+ rest)).
    cbn [lex_go]. rewrite H1, H3, H2. by rewrite lex_safe_word.
  - exists true. split; [|done].
    change (lex_go (LQuote quote_char) "" true ((quote_body w +:+ String quote_char "") +:+ rest) = lex_go LWord w true rest).
    rewrite <-str_app_assoc. apply (lex_quote_body "" w rest).
Qed.

Theorem shlex_split_join l : shlex_split (shlex_join l) = Some l.
Proof.
  unfold shlex_split, shlex_join. induction l as [|w l IH]; [done|].
  assert (∀ quoted, (w = "" → quoted = true) → negb (bool_decide (w = "")) || quoted = true) as Hq.
  { intros quoted Hw. case_bool_decide; [by rewrite Hw|done]. }
  destruct l as [|w' l].
  - change (join_with " " (shlex_quote <$> [w])) with (shlex_quote w). rewrite <-(str_app_nil_r (shlex_quote w)).
    destruct (lex_quoted_word w "") as (q & -> & Hw). cbn. by rewrite Hq.
  - change (join_with " " (shlex_quote <$> (w :: w' :: l))) with (shlex_quote w +:+ String " " (join_with " " (shlex_quote <$> (w' :: l)))).
    destruct (lex_quoted_word w (String " " (join_with " " (shlex_quote <$> (w' :: l))))) as (q & -> & Hw).
    cbn [lex_go]. change (shlex_space " ") with true. cbv iota. rewrite Hq by done. by rewrite IH.
Qed.
