(* ===== verification/Paths.v ===== *)
(** * Slash-separated paths: [os.path.normpath], [os.path.basename] and [Path.parts]

    The functions of Python's posixpath and pathlib that the sidecar uses to decide whether a
    caller's path stays below a root, and what their results look like. *)

From S2P Require Import Prelude PyVal.
From Stdlib Require Import Ascii.

#[local] Open Scope string_scope.
#[local] Open Scope list_scope.

Definition ord (a : Ascii.ascii) : nat := Ascii.nat_of_ascii a.

(** [posixpath.normpath]: the loop over the components; [acc] is [new_comps] reversed. *)
Fixpoint normpath_comps (rooted : bool) (acc : list string) (comps : list string) : list string :=
  match comps with
  | [] => rev acc
  | comp :: comps' =>
      if bool_decide (comp = "") || bool_decide (comp = ".") then normpath_comps rooted acc comps'
      else if negb (bool_decide (comp = "..")) ||
              (negb rooted && bool_decide (acc = [])) ||
              bool_decide (head acc = Some "..")
      then normpath_comps rooted (comp :: acc) comps'
      else normpath_comps rooted (tail acc) comps'
  end.

(** [posixpath.splitroot]: exactly two leading slashes are kept, one or three and more
    count as one. *)
Definition splitroot (path : string) : string * string :=
  if starts_with "///" path then ("/", drop_str 1 path)
  else if starts_with "//" path then ("//", drop_str 2 path)
  else if starts_with "/" path then ("/", drop_str 1 path)
  else ("", path).

Definition normpath (path : string) : string :=
  match path with
  | EmptyString => "."
  | _ =>
      let (root, rest) := splitroot path in
      let comps := normpath_comps (negb (bool_decide (root = ""))) [] (split_on slash rest) in
      match root +:+ join_with "/" comps with EmptyString => "." | p => p end
  end.


Definition real_segment (c : string) : bool := negb (bool_decide (c = "")) && negb (bool_decide (c = ".")).
(** [Path(path).parts] of a relative path: empty and [.] segments are dropped. *)
Definition path_parts (path : string) : list string := keep real_segment (split_on slash path).

Lemma normpath_comps_no_dotdot rooted acc comps :
  ".." ∉ comps → normpath_comps rooted acc comps = rev acc ++ keep real_segment comps.
Proof.
  revert acc. induction comps as [|c comps IH]; intros acc Hdd; cbn [normpath_comps keep]; [by rewrite app_nil_r|].
  apply not_elem_of_cons in Hdd as [Hc Hdd]. unfold real_segment at 1.
  rewrite (bool_decide_eq_false_2 (c = "..")) by congruence.
  destruct (bool_decide (c = "")), (bool_decide (c = ".")); cbn [orb andb negb]; try by apply IH.
  rewrite IH by done. cbn [rev]. by rewrite <-(assoc_L (++)).
Qed.

Lemma path_parts_plain path : Forall plain (path_parts path).
Proof.
  apply Forall_forall. intros c [Hr Hc]%elem_of_keep. unfold real_segment in Hr. bsimp.
  split; [done|by apply (split_on_clean path)].
Qed.

Lemma splitroot_relative path : starts_with "/" path = false → splitroot path = ("", path).
Proof.
  intros Hs. assert (∀ t, starts_with ("/" +:+ t) path = false) as Hno.
  { intros t. apply not_true_iff_false. intros [u ->]%starts_with_inv.
    rewrite <-str_app_assoc in Hs. by rewrite starts_with_app in Hs. }
  unfold splitroot. change "///" with ("/" +:+ "//"). rewrite Hno. change "//" with ("/" +:+ "/") at 1.
  by rewrite Hno, Hs.
Qed.

Lemma normpath_relative path :
  starts_with "/" path = false → ".." ∉ split_on slash path → path_parts path ≠ [] →
  normpath path = join_with "/" (path_parts path).
Proof.
  intros Hs Hdd Hne. unfold normpath. destruct path as [|a p]; [done|].
  rewrite (splitroot_relative (String a p) Hs).
  rewrite normpath_comps_no_dotdot by done. fold (path_parts (String a p)). cbn [rev app].
  change ("" +:+ ?x) with x.
  pose proof (path_parts_plain (String a p)) as Hpl.
  destruct (join_with "/" (path_parts (String a p))) as [|b t] eqn:E; [|done].
  exfalso. pose proof (split_on_join _ Hne Hpl) as Hj. rewrite E in Hj.
  change (split_on slash "") with [""] in Hj. rewrite <-Hj in Hpl. by apply Forall_singleton in Hpl as [[] _].
Qed.

Lemma normpath_nothing path :
  starts_with "/" path = false → ".." ∉ split_on slash path → path_parts path = [] → normpath path = ".".
Proof.
  intros Hs Hdd Hnil. unfold normpath. destruct path as [|a p]; [done|].
  rewrite (splitroot_relative (String a p) Hs).
  rewrite normpath_comps_no_dotdot by done. fold (path_parts (String a p)). by rewrite Hnil.
Qed.

Lemma join_not_escaping l :
  l ≠ [] → Forall plain l → ".." ∉ l → "." ∉ l →
  starts_with "../" (join_with "/" l) = false ∧ join_with "/" l ≠ ".." ∧ join_with "/" l ≠ ".".
Proof.
  intros Hne Hpl Hdd Hd. pose proof (split_on_join _ Hne Hpl) as Hj. split_and!.
  - apply not_true_iff_false. intros [t Heq]%starts_with_inv. rewrite Heq in Hj.
    change ("../" +:+ t) with (".." +:+ String slash t) in Hj. rewrite split_on_app in Hj. rewrite <-Hj in Hdd.
    apply Hdd. by left.
  - intros Heq. rewrite Heq in Hj. rewrite <-Hj in Hdd. apply Hdd. by left.
  - intros Heq. rewrite Heq in Hj. rewrite <-Hj in Hd. apply Hd. by left.
Qed.

(** ** The general shape of a normalised relative path *)

Lemma path_parts_plain_real path c : c ∈ path_parts path → plain c ∧ c ≠ ".".
Proof.
  intros Hc. split; [by eapply Forall_forall, Hc; apply path_parts_plain|].
  apply elem_of_keep in Hc as [Hr _]. unfold real_segment in Hr. by bsimp.
Qed.

(** A name: a component that is neither [.] nor [..]. *)
Definition name_comp (c : string) : Prop := plain c ∧ c ≠ "." ∧ c ≠ "..".

(** Parents first, then names. *)
Inductive normal_comps : list string → Prop :=
  | normal_names l : Forall name_comp l → normal_comps l
  | normal_up l : normal_comps l → normal_comps (".." :: l).

Lemma normal_comps_snoc_name l c : normal_comps l → name_comp c → normal_comps (l ++ [c]).
Proof.
  induction 1 as [l Hl|l Hl IH]; intros Hc; [|by apply normal_up, IH].
  apply normal_names, Forall_app. auto.
Qed.

Lemma normal_comps_snoc_up l : normal_comps l → (l = [] ∨ last l = Some "..") → normal_comps (l ++ [".."]).
Proof.
  induction 1 as [l Hl|l Hl IH]; intros Hlast.
  - destruct Hlast as [->|(l' & ->)%last_Some]; [by apply normal_up, normal_names|].
    apply Forall_app in Hl as [_ [(_ & _ & []) _]%Forall_cons]. done.
  - apply (normal_up (l ++ [".."])), IH. destruct l as [|a l]; [by left|right]. destruct Hlast as [?|Hlast]; [done|]. exact Hlast.
Qed.

Lemma normal_comps_init l c : normal_comps (l ++ [c]) → normal_comps l.
Proof.
  revert c. induction l as [|a l IH]; intros c; cbn [app]; [by intros _; apply normal_names|].
  inversion 1 as [m Hm|m Hm]; subst; [|by apply normal_up, (IH c)].
  apply normal_names. rewrite app_comm_cons in Hm. by apply Forall_app in Hm as [? _].
Qed.

Lemma normpath_comps_normal acc comps :
  normal_comps (rev acc) → Forall (λ c, str_forall (λ a, negb (Ascii.eqb a slash)) c = true) comps →
  normal_comps (normpath_comps false acc comps).
Proof.
  intros Hacc Hc. revert acc Hacc. induction Hc as [|c comps Hc Hcs IH]; intros acc Hacc; cbn [normpath_comps]; [done|].
  destruct (bool_decide (c = "") || bool_decide (c = ".")) eqn:E1; [by apply IH|].
  apply orb_false_iff in E1 as [E1 E2]. bsimp.
  destruct (negb (bool_decide (c = "..")) || (negb false && bool_decide (acc = [])) || bool_decide (head acc = Some ".."))
    eqn:E3; apply IH; [cbn [rev]|].
  - destruct (decide (c = "..")) as [->|Hne]; [|by apply normal_comps_snoc_name].
    apply normal_comps_snoc_up; [done|]. rewrite (bool_decide_eq_true_2 (".." = "..")) in E3 by done.
    cbn [negb orb andb] in E3. apply orb_true_iff in E3 as [E3|E3]; bsimp; [left; by subst|right].
    destruct acc as [|a acc]; simpl in E3; simplify_eq. cbn [rev]. by rewrite last_snoc.
  - destruct acc as [|a acc]; [done|]. cbn [rev tail] in *. by eapply normal_comps_init.
Qed.

(** A relative path whose normal form does not begin with [..] and is not [.] normalises to
    names joined by slashes. *)
Lemma normpath_names path :
  starts_with "/" path = false → normpath path ∉ ["."; ".."] → starts_with "../" (normpath path) = false →
  ∃ l, l ≠ [] ∧ Forall name_comp l ∧ normpath path = join_with "/" l.
Proof.
  intros Hs. unfold normpath. destruct path as [|a p]; [set_solver|].
  rewrite (splitroot_relative (String a p) Hs). cbn [negb].
  change ("" +:+ ?x) with x.
  pose proof (normpath_comps_normal [] (split_on slash (String a p)) (normal_names [] (Forall_nil_2 _))) as Hn.
  rewrite (bool_decide_eq_true_2 ("" = "")) by done. cbn [negb].
  set (l := normpath_comps false [] (split_on slash (String a p))) in *.
  assert (normal_comps l) as Hl.
  { apply Hn, Forall_forall. intros c. apply split_on_clean. }
  clearbody l. clear Hn. intros Hdot Hup.
  destruct (join_with "/" l) as [|b t] eqn:E; [set_solver|]. rewrite <-E in *.
  inversion Hl as [l' Hl'|l' Hl']; subst; [exists l; split_and!; try done; by intros ->|].
  exfalso. destruct l' as [|c l']; [apply Hdot; set_solver|].
  change (starts_with "../" ("../" +:+ join_with "/" (c :: l')) = false) in Hup.
  by rewrite starts_with_app in Hup.
Qed.

(** ** Joined names *)

Section names.
Context (l : list string) (l_ne : l ≠ []) (l_names : Forall name_comp l).

Lemma names_plain : Forall plain l.
Proof. eapply Forall_impl; [apply l_names|]. by intros ? [? _]. Qed.

Lemma split_names : split_on slash (join_with "/" l) = l.
Proof. apply split_on_join; [done|apply names_plain]. Qed.

Lemma names_no_dots : ".." ∉ l ∧ "." ∉ l.
Proof. split; intros (_ & H1 & H2)%(proj1 (Forall_forall _ _) l_names); done. Qed.

Lemma path_parts_names : path_parts (join_with "/" l) = l.
Proof.
  unfold path_parts. rewrite split_names. apply keep_all. intros c Hc.
  pose proof (proj1 (Forall_forall _ _) l_names c Hc) as ([? _] & ? & _).
  unfold real_segment. by rewrite !bool_decide_eq_false_2.
Qed.

Lemma names_relative : starts_with "/" (join_with "/" l) = false.
Proof.
  apply not_true_iff_false. intros [t Heq]%starts_with_inv. pose proof split_names as Hs. rewrite Heq in Hs.
  change ("/" +:+ t) with ("" +:+ String slash t) in Hs. rewrite split_on_app in Hs.
  pose proof names_plain as Hpl. rewrite <-Hs in Hpl. apply Forall_cons in Hpl as [[Hne _] _]. by apply Hne.
Qed.

Lemma normpath_names_id : normpath (join_with "/" l) = join_with "/" l.
Proof.
  rewrite normpath_relative; rewrite ?path_parts_names; [done|apply names_relative| |done].
  rewrite split_names. apply names_no_dots.
Qed.

Lemma names_not_escaping :
  starts_with "../" (join_with "/" l) = false ∧ join_with "/" l ≠ ".." ∧ join_with "/" l ≠ ".".
Proof. apply join_not_escaping; [done|apply names_plain|apply names_no_dots|apply names_no_dots]. Qed.

End names.

(** Textual containment of joined names is containment of the name lists. *)
Lemma starts_with_root l r :
  l ≠ [] → r ≠ [] → Forall name_comp l → Forall name_comp r →
  (join_with "/" l = join_with "/" r ∨ starts_with (join_with "/" r +:+ "/") (join_with "/" l) = true) ↔
  r `prefix_of` l.
Proof.
  intros Hl Hr Nl Nr. split.
  - intros [Heq|[t Heq]%starts_with_inv].
    + rewrite <-(split_names l Hl Nl), Heq, split_names by done. done.
    + exists (split_on slash t). rewrite <-(split_names l Hl Nl) at 1. rewrite Heq, <-str_app_assoc.
      change ("/" +:+ t) with (String slash t). by rewrite split_on_app, split_names.
  - intros [k ->]. destruct k as [|c k]; [left; by rewrite app_nil_r|right].
    rewrite join_with_app by done. change (String slash ?x) with ("/" +:+ x).
    rewrite str_app_assoc. apply starts_with_app.
Qed.

(** ** Characters of a normalised path *)

Lemma str_forall_app p s t : str_forall p (s +:+ t) = str_forall p s && str_forall p t.
Proof.
  induction s as [|a s IH]; [done|].
  change (p a && str_forall p (s +:+ t) = p a && str_forall p s && str_forall p t). by rewrite IH, andb_assoc.
Qed.

Lemma str_forall_split p c s : str_forall p s = true → Forall (λ t, str_forall p t = true) (split_on c s).
Proof.
  induction s as [|a s IH]; cbn [split_on str_forall]; [by repeat constructor|].
  intros [Ha Hs]%andb_true_iff. specialize (IH Hs). destruct (Ascii.eqb a c); [by constructor|].
  destruct (split_on c s) as [|h t]; [by repeat constructor; cbn [str_forall]; rewrite ?Ha|].
  apply Forall_cons in IH as [Hh Ht]. constructor; [|done]. cbn [str_forall]. by rewrite Ha, Hh.
Qed.

Lemma str_forall_join p l :
  p slash = true → Forall (λ t, str_forall p t = true) l → str_forall p (join_with "/" l) = true.
Proof.
  intros Hp. induction 1 as [|c l Hc Hl IH]; [done|]. destruct l as [|d l]; [done|].
  change (str_forall p (c +:+ String slash (join_with "/" (d :: l))) = true).
  rewrite str_forall_app, Hc. cbn [str_forall andb]. rewrite Hp. apply IH.
Qed.

Lemma normpath_comps_incl rooted acc comps c : c ∈ normpath_comps rooted acc comps → c ∈ acc ∨ c ∈ comps.
Proof.
  revert acc. induction comps as [|d comps IH]; intros acc; cbn [normpath_comps];
    [rewrite list_elem_of_In, <-in_rev, <-list_elem_of_In; auto|].
  repeat case_if; intros Hc%IH; destruct acc; set_solver.
Qed.

Lemma normpath_chars p path :
  starts_with "/" path = false → p slash = true → p "."%char = true →
  str_forall p path = true → str_forall p (normpath path) = true.
Proof.
  intros Hs Hsl Hdot Hp. unfold normpath. destruct path as [|a s]; [by cbn; rewrite Hdot|].
  rewrite (splitroot_relative _ Hs). change ("" +:+ ?x) with x.
  assert (str_forall p (join_with "/" (normpath_comps (negb (bool_decide ("" = ""))) [] (split_on slash (String a s)))) = true) as Hj.
  { apply str_forall_join; [done|]. apply Forall_forall. intros c [Hc|Hc]%normpath_comps_incl; [set_solver|].
    exact (proj1 (Forall_forall _ _) (str_forall_split p slash _ Hp) c Hc). }
  destruct (join_with "/" _); [by cbn; rewrite Hdot|done].
Qed.
