(* ===== verification/Encoding.v ===== *)
(** * Text encodings: URL-safe base64 and UTF-8, and the digest interface

    [base64.urlsafe_b64encode], [base64.b64decode(..., altchars=b"-_", validate=True)] and
    [bytes.decode()] as the model proxy's tokens use them.  Text is a string of UTF-8 bytes. *)

From Stdlib Require Import Ascii.
From S2P Require Import Prelude Errors PyVal.

#[local] Open Scope string_scope.
#[local] Open Scope list_scope.

(** [hashlib.sha256(data).hexdigest()] *)
Class Sha256 := sha256_hex : string → string.

(** [json.loads] (a [ValueError] on malformed text) and [json.dumps(v, separators=(",", ":"))]. *)
Class JsonLib := { json_loads : string → option pyval; json_compact : pyval → string }.

(** [float(text)]; [None] for a [ValueError]. *)
Class FloatText := float_of_text : string → option spec_float.

(** [bytes.decode("utf-8", errors="replace")] *)
Class BytesText := decode_replace : string → string.

(** ** Base64 *)

(** Six bits, most significant first. *)
Notation sextet := (bool * bool * bool * bool * bool * bool)%type.

Definition alphabet : string := "ABCDEFGHIJKLMNOPQRSTUVWXYZabcdefghijklmnopqrstuvwxyz0123456789-_".

Definition b2n (b : bool) : nat := if b then 1%nat else 0%nat.
Definition sextet_nat (x : sextet) : nat :=
  match x with (b5, b4, b3, b2, b1, b0) => (32 * b2n b5 + 16 * b2n b4 + 8 * b2n b3 + 4 * b2n b2 + 2 * b2n b1 + b2n b0)%nat end.
Definition nat_sextet (n : nat) : sextet :=
  (Nat.testbit n 5, Nat.testbit n 4, Nat.testbit n 3, Nat.testbit n 2, Nat.testbit n 1, Nat.testbit n 0).

Definition b64_char (x : sextet) : ascii := default "="%char (String.get (sextet_nat x) alphabet).

(** The decoding table after [altchars] has been translated: [+] and [/] stay valid. *)
Definition b64_value (c : ascii) : option sextet :=
  let n := nat_of_ascii c in
  if ((65 <=? n) && (n <=? 90))%nat then Some (nat_sextet (n - 65))
  else if ((97 <=? n) && (n <=? 122))%nat then Some (nat_sextet (n - 71))
  else if ((48 <=? n) && (n <=? 57))%nat then Some (nat_sextet (n + 4))
  else if Ascii.eqb c "-" || Ascii.eqb c "+" then Some (nat_sextet 62)
  else if Ascii.eqb c "_" || Ascii.eqb c "/" then Some (nat_sextet 63)
  else None.

(** [base64.urlsafe_b64encode]: padded groups of four. *)
Fixpoint urlsafe_b64encode (s : string) : string :=
  match s with
  | EmptyString => ""
  | String (Ascii a0 a1 a2 a3 a4 a5 a6 a7) EmptyString =>
      String (b64_char (a7, a6, a5, a4, a3, a2)) (String (b64_char (a1, a0, false, false, false, false)) "==")
  | String (Ascii a0 a1 a2 a3 a4 a5 a6 a7) (String (Ascii b0 b1 b2 b3 b4 b5 b6 b7) EmptyString) =>
      String (b64_char (a7, a6, a5, a4, a3, a2)) (String (b64_char (a1, a0, b7, b6, b5, b4))
        (String (b64_char (b3, b2, b1, b0, false, false)) "="))
  | String (Ascii a0 a1 a2 a3 a4 a5 a6 a7) (String (Ascii b0 b1 b2 b3 b4 b5 b6 b7)
      (String (Ascii c0 c1 c2 c3 c4 c5 c6 c7) s')) =>
      String (b64_char (a7, a6, a5, a4, a3, a2)) (String (b64_char (a1, a0, b7, b6, b5, b4))
        (String (b64_char (b3, b2, b1, b0, c7, c6)) (String (b64_char (c5, c4, c3, c2, c1, c0))
          (urlsafe_b64encode s'))))
  end.

(** [s.rstrip("=")] *)
Fixpoint rstrip_pad (s : string) : string :=
  match s with
  | EmptyString => ""
  | String a s' =>
      match rstrip_pad s' with
      | EmptyString => if Ascii.eqb a "=" then "" else String a ""
      | t => String a t
      end
  end.

(** The decoder's position in a group of four and the bits not yet written. *)
Inductive quad :=
  | Q0
  | Q1 (x : sextet)
  | Q2 (x : bool * bool * bool * bool)
  | Q3 (x : bool * bool).

Definition quad_pos (q : quad) : nat := match q with Q0 => 0 | Q1 _ => 1 | Q2 _ => 2 | Q3 _ => 3 end.

(** [binascii.a2b_base64] in strict mode: the loop over the characters. *)
Fixpoint a2b_loop (s : string) (q : quad) (pads : nat) (started : bool) : option string :=
  match s with
  | EmptyString => match q with Q0 => Some "" | _ => None end
  | String ch s' =>
      if Ascii.eqb ch "=" then
        if (2 <=? quad_pos q)%nat then
          if (4 <=? quad_pos q + S pads)%nat then match s' with EmptyString => Some "" | _ => None end
          else a2b_loop s' q (S pads) true
        else a2b_loop s' q pads true
      else
        match b64_value ch with
        | None => None
        | Some ((x5, x4, x3, x2, x1, x0) as x) =>
            if started then None
            else match q with
                 | Q0 => a2b_loop s' (Q1 x) 0 false
                 | Q1 (y5, y4, y3, y2, y1, y0) =>
                     String (Ascii x4 x5 y0 y1 y2 y3 y4 y5) <$> a2b_loop s' (Q2 (x3, x2, x1, x0)) 0 false
                 | Q2 (y3, y2, y1, y0) =>
                     String (Ascii x2 x3 x4 x5 y0 y1 y2 y3) <$> a2b_loop s' (Q3 (x1, x0)) 0 false
                 | Q3 (y1, y0) =>
                     String (Ascii x0 x1 x2 x3 x4 x5 y0 y1) <$> a2b_loop s' Q0 0 false
                 end
        end
  end.

Definition is_ascii (s : string) : bool := str_forall (λ a, (nat_of_ascii a <? 128)%nat) s.

(** [base64.b64decode(s, altchars=b"-_", validate=True)] of a [str]: a non-ASCII character is a
    [ValueError]; every other malformed input is a [binascii.Error]. *)
Definition b64decode (s : string) : result string :=
  if negb (is_ascii s) then Raise (ValueError "string argument should contain only ASCII characters")
  else match s with
       | String "="%char _ => Raise (OtherError "binascii.Error" None)
       | _ => match a2b_loop s Q0 0 false with
              | Some t => Ok t
              | None => Raise (OtherError "binascii.Error" None)
              end
       end.

Fixpoint pad_of (n : nat) : string := match n with O => "" | S n' => String "=" (pad_of n') end.

(** ["=" * (-len(s) % 4)] *)
Definition b64_padding (s : string) : string := pad_of ((4 - String.length s mod 4) mod 4).

(** ** UTF-8 *)

Definition byte_in (lo hi : nat) (a : ascii) : bool := (lo <=? nat_of_ascii a)%nat && (nat_of_ascii a <=? hi)%nat.
Definition cont (a : ascii) : bool := byte_in 128 191 a.

(** [bytes.decode()]: the code points, or nothing for a [UnicodeDecodeError]. *)
Fixpoint utf8_decode (s : string) : option (list nat) :=
  let n a := nat_of_ascii a in
  match s with
  | EmptyString => Some []
  | String a s1 =>
      if byte_in 0 127 a then cons (n a) <$> utf8_decode s1
      else match s1 with
      | EmptyString => None
      | String b s2 =>
          if byte_in 194 223 a && cont b
          then cons ((n a - 192) * 64 + (n b - 128))%nat <$> utf8_decode s2
          else match s2 with
          | EmptyString => None
          | String c s3 =>
              if cont c && ((byte_in 224 224 a && byte_in 160 191 b) || (byte_in 225 236 a && cont b) ||
                            (byte_in 237 237 a && byte_in 128 159 b) || (byte_in 238 239 a && cont b))
              then cons ((n a - 224) * 4096 + (n b - 128) * 64 + (n c - 128))%nat <$> utf8_decode s3
              else match s3 with
              | EmptyString => None
              | String d s4 =>
                  if cont c && cont d && ((byte_in 240 240 a && byte_in 144 191 b) || (byte_in 241 243 a && cont b) ||
                                          (byte_in 244 244 a && byte_in 128 143 b))
                  then cons ((n a - 240) * 262144 + (n b - 128) * 4096 + (n c - 128) * 64 + (n d - 128))%nat <$> utf8_decode s4
                  else None
              end
          end
      end
  end.

(** [char.isspace()] *)
Definition isspace (cp : nat) : bool :=
  ((9 <=? cp) && (cp <=? 13) || (28 <=? cp) && (cp <=? 32) || (8192 <=? cp) && (cp <=? 8202))%nat ||
  bool_decide (cp ∈ [133; 160; 5760; 8232; 8233; 8239; 8287; 12288]%nat).

(** [any(char.isspace() for char in s)] *)
Definition has_space (s : string) : bool :=
  match utf8_decode s with Some cps => existsb isspace cps | None => false end.

(** [s.partition(c)]: what precedes the first [c] and what follows it, if there is one. *)
Fixpoint partition (c : ascii) (s : string) : string * option string :=
  match s with
  | EmptyString => ("", None)
  | String a s' =>
      if Ascii.eqb a c then ("", Some s')
      else let (h, t) := partition c s' in (String a h, t)
  end.

(** ** Decoding gives the encoded text back *)

Lemma b64_value_char x : b64_value (b64_char x) = Some x.
Proof. by destruct x as [[[[[[] []] []] []] []] []]. Qed.

Lemma b64_char_not_pad x : Ascii.eqb (b64_char x) "=" = false.
Proof. by destruct x as [[[[[[] []] []] []] []] []]. Qed.

Lemma b64_char_not_dot x : Ascii.eqb (b64_char x) "." = false.
Proof. by destruct x as [[[[[[] []] []] []] []] []]. Qed.

Lemma b64_char_ascii x : (nat_of_ascii (b64_char x) <? 128)%nat = true.
Proof. by destruct x as [[[[[[] []] []] []] []] []]. Qed.

(** The unpadded encoding. *)
Fixpoint b64raw (s : string) : string :=
  match s with
  | EmptyString => ""
  | String (Ascii a0 a1 a2 a3 a4 a5 a6 a7) EmptyString =>
      String (b64_char (a7, a6, a5, a4, a3, a2)) (String (b64_char (a1, a0, false, false, false, false)) "")
  | String (Ascii a0 a1 a2 a3 a4 a5 a6 a7) (String (Ascii b0 b1 b2 b3 b4 b5 b6 b7) EmptyString) =>
      String (b64_char (a7, a6, a5, a4, a3, a2)) (String (b64_char (a1, a0, b7, b6, b5, b4))
        (String (b64_char (b3, b2, b1, b0, false, false)) ""))
  | String (Ascii a0 a1 a2 a3 a4 a5 a6 a7) (String (Ascii b0 b1 b2 b3 b4 b5 b6 b7)
      (String (Ascii c0 c1 c2 c3 c4 c5 c6 c7) s')) =>
      String (b64_char (a7, a6, a5, a4, a3, a2)) (String (b64_char (a1, a0, b7, b6, b5, b4))
        (String (b64_char (b3, b2, b1, b0, c7, c6)) (String (b64_char (c5, c4, c3, c2, c1, c0)) (b64raw s'))))
  end.

(** Induction by groups of three bytes. *)
Lemma string_ind3 (P : string → Prop) :
  P "" → (∀ a, P (String a "")) → (∀ a b, P (String a (String b ""))) →
  (∀ a b c s, P s → P (String a (String b (String c s)))) → ∀ s, P s.
Proof.
  intros H0 H1 H2 H3. fix IH 1. intros [|a [|b [|c s]]]; [exact H0|apply H1|apply H2|apply H3, IH].
Qed.

Lemma rstrip_pad_cons a s : Ascii.eqb a "=" = false → rstrip_pad (String a s) = String a (rstrip_pad s).
Proof. intros Ha. cbn [rstrip_pad]. rewrite Ha. by destruct (rstrip_pad s). Qed.

Lemma rstrip_b64encode s : rstrip_pad (urlsafe_b64encode s) = b64raw s.
Proof.
  induction s as [| |a b|a b c s IH] using string_ind3; [done| | |];
    repeat match goal with x : ascii |- _ => destruct x end;
    cbn [urlsafe_b64encode b64raw]; rewrite !rstrip_pad_cons by apply b64_char_not_pad; [done..|]. by rewrite IH.
Qed.

Lemma b64raw_forall (p : ascii → bool) s : (∀ x, p (b64_char x) = true) → str_forall p (b64raw s) = true.
Proof.
  intros Hp. induction s as [| |a b|a b c s IH] using string_ind3; [done| | |];
    repeat match goal with x : ascii |- _ => destruct x end; cbn [b64raw str_forall]; rewrite !Hp; done.
Qed.

Lemma a2b_step x s q : a2b_loop (String (b64_char x) s) q 0 false =
  match q, x with
  | Q0, _ => a2b_loop s (Q1 x) 0 false
  | Q1 (y5, y4, y3, y2, y1, y0), (x5, x4, x3, x2, x1, x0) =>
      String (Ascii x4 x5 y0 y1 y2 y3 y4 y5) <$> a2b_loop s (Q2 (x3, x2, x1, x0)) 0 false
  | Q2 (y3, y2, y1, y0), (x5, x4, x3, x2, x1, x0) =>
      String (Ascii x2 x3 x4 x5 y0 y1 y2 y3) <$> a2b_loop s (Q3 (x1, x0)) 0 false
  | Q3 (y1, y0), (x5, x4, x3, x2, x1, x0) =>
      String (Ascii x0 x1 x2 x3 x4 x5 y0 y1) <$> a2b_loop s Q0 0 false
  end.
Proof.
  cbn [a2b_loop]. rewrite b64_char_not_pad, b64_value_char. destruct x as [[[[[x5 x4] x3] x2] x1] x0]. by destruct q.
Qed.

Lemma b64raw_mod s :
  (String.length (b64raw s) mod 4 = match String.length s mod 3 with 0 => 0 | 1 => 2 | _ => 3 end)%nat.
Proof.
  induction s as [| |a b|a b c s IH] using string_ind3; [done| | |];
    repeat match goal with x : ascii |- _ => destruct x end; [done..|].
  cbn [b64raw String.length]. replace (S (S (S (S (String.length (b64raw s))))))%nat with (String.length (b64raw s) + 1 * 4)%nat by lia.
  replace (S (S (S (String.length s))))%nat with (String.length s + 1 * 3)%nat by lia.
  by rewrite !Nat.Div0.mod_add.
Qed.

Lemma b64_padding_raw a b c s :
  b64_padding (b64raw (String a (String b (String c s)))) = b64_padding (b64raw s).
Proof. unfold b64_padding. rewrite !b64raw_mod. cbn [String.length].
  replace (S (S (S (String.length s))))%nat with (String.length s + 1 * 3)%nat by lia. by rewrite Nat.Div0.mod_add.
Qed.

Lemma a2b_roundtrip s : a2b_loop (b64raw s +:+ b64_padding (b64raw s)) Q0 0 false = Some s.
Proof.
  induction s as [|a|a b|a b c s IH] using string_ind3; [done| | |].
  - destruct a. cbn [b64raw]. unfold b64_padding. cbn [String.length].
    repeat change (String ?x ?y +:+ ?z) with (String x (y +:+ z)). by rewrite !a2b_step.
  - destruct a, b. cbn [b64raw]. unfold b64_padding. cbn [String.length].
    repeat change (String ?x ?y +:+ ?z) with (String x (y +:+ z)). by rewrite !a2b_step.
  - rewrite b64_padding_raw. destruct a, b, c. cbn [b64raw].
    repeat change (String ?x ?y +:+ ?z) with (String x (y +:+ z)). rewrite !a2b_step. by rewrite IH.
Qed.

Lemma str_forall_pad p n : p "="%char = true → str_forall p (pad_of n) = true.
Proof. intros Hp. induction n as [|n IH]; [done|]. cbn. by rewrite Hp. Qed.

Lemma is_ascii_app s t : is_ascii (s +:+ t) = is_ascii s && is_ascii t.
Proof.
  unfold is_ascii. induction s as [|a s IH]; [done|]. change (String a s +:+ t) with (String a (s +:+ t)).
  cbn [str_forall]. by rewrite IH, andb_assoc.
Qed.

Lemma b64decode_roundtrip s : s ≠ "" → b64decode (b64raw s +:+ b64_padding (b64raw s)) = Ok s.
Proof.
  intros Hne. unfold b64decode.
  assert (is_ascii (b64raw s +:+ b64_padding (b64raw s)) = true) as ->.
  { rewrite is_ascii_app. apply andb_true_iff. split.
    - apply b64raw_forall, b64_char_ascii.
    - by apply str_forall_pad. }
  cbn [negb]. rewrite a2b_roundtrip. destruct s as [|a s]; [done|].
  assert (∃ x t, b64raw (String a s) = String (b64_char x) t) as (x & t & ->).
  { destruct a, s as [|[] [|[] s]]; cbn [b64raw]; eauto. }
  change (String (b64_char x) t +:+ ?y) with (String (b64_char x) (t +:+ y)).
  pose proof (b64_char_not_pad x) as Hx. destruct (b64_char x) as [[] [] [] [] [] [] [] []]; done.
Qed.

Lemma utf8_ascii s : str_forall (λ a, (nat_of_ascii a <? 128)%nat) s = true →
  utf8_decode s = Some (nat_of_ascii <$> String.list_ascii_of_string s).
Proof.
  induction s as [|a s IH]; [done|]. cbn [str_forall]. intros [Ha Hs]%andb_true_iff.
  cbn [utf8_decode String.list_ascii_of_string]. unfold byte_in.
  apply Nat.ltb_lt in Ha. rewrite (proj2 (Nat.leb_le 0 _)), (proj2 (Nat.leb_le _ 127)) by lia. cbn. by rewrite IH.
Qed.

Lemma has_space_ascii s :
  str_forall (λ a, (nat_of_ascii a <? 128)%nat && negb (isspace (nat_of_ascii a))) s = true → has_space s = false.
Proof.
  intros Hs. unfold has_space. rewrite utf8_ascii.
  - induction s as [|a s IH]; [done|]. cbn [str_forall] in Hs. bsimp. cbn. rewrite IH by done. by rewrite orb_false_r.
  - induction s as [|a s IH]; [done|]. cbn [str_forall] in *. bsimp. apply andb_true_iff. auto.
Qed.

Lemma partition_at c h t : str_forall (λ a, negb (Ascii.eqb a c)) h = true → partition c (h +:+ String c t) = (h, Some t).
Proof.
  induction h as [|a h IH]; [intros _; change ("" +:+ String c t) with (String c t); cbn; by rewrite Ascii.eqb_refl|].
  cbn [str_forall]. intros [Ha Hh]%andb_true_iff. change (String a h +:+ ?y) with (String a (h +:+ y)). cbn [partition].
  apply negb_true_iff in Ha as ->. by rewrite IH.
Qed.

Lemma b64_char_no_space x : (nat_of_ascii (b64_char x) <? 128)%nat && negb (isspace (nat_of_ascii (b64_char x))) = true.
Proof. by destruct x as [[[[[[] []] []] []] []] []]. Qed.

Lemma b64raw_nonempty s : s ≠ "" → b64raw s ≠ "".
Proof. destruct s as [|[] [|[] [|[] s]]]; done. Qed.
