(* ===== verification/Json.v ===== *)
(** * JSON texts with sorted keys, and typed record fields

    The durable store and the private worker write [json.dumps(v, sort_keys=True,
    separators=(",", ":"))] and read it back with [json.loads]: what comes back is the value with the keys of every
    dictionary sorted ([canon]).  [Field] says how a field of a record becomes a JSON value and back. *)

From S2P Require Import Prelude Errors Dict PyVal Encoding.

#[local] Open Scope string_scope.
#[local] Open Scope list_scope.

(** ** Sorted values *)

Definition str_leb (a b : string) : bool := match String.compare a b with Gt => false | _ => true end.
Definition key_le (x y : string * pyval) : bool := str_leb x.1 y.1.

Fixpoint canon (v : pyval) : pyval :=
  match v with
  | PList l => PList (canon <$> l)
  | PDict d =>
      PDict (py_sorted key_le
        ((fix go (d : pydict) : pydict :=
            match d with [] => [] | (k, x) :: d' => (k, canon x) :: go d' end) d))
  | _ => v
  end.

Definition canon_dict (d : pydict) : pydict := py_sorted key_le ((λ kv, (kv.1, canon kv.2)) <$> d).

Lemma canon_PDict d : canon (PDict d) = PDict (canon_dict d).
Proof. simpl. do 2 f_equal. induction d as [|[k x] d IH]; simpl; [done|by rewrite IH]. Qed.

(** Sorting is idempotent. *)
Lemma str_leb_total a b : str_leb a b = false → str_leb b a = true.
Proof. unfold str_leb. rewrite (String.compare_antisym b a). by destruct (String.compare a b). Qed.

Lemma string_compare_lt_trans a b c :
  String.compare a b ≠ Gt → String.compare b c ≠ Gt → String.compare a c ≠ Gt.
Proof.
  revert b c. induction a as [|x a IH]; intros [|y b] [|z c]; simpl; try done.
  unfold Ascii.compare. destruct (N.compare_spec (Ascii.N_of_ascii x) (Ascii.N_of_ascii y)) as [E|E|E]; try done;
    destruct (N.compare_spec (Ascii.N_of_ascii y) (Ascii.N_of_ascii z)) as [F|F|F]; try done;
    destruct (N.compare_spec (Ascii.N_of_ascii x) (Ascii.N_of_ascii z)) as [G|G|G]; try done; try lia.
  apply IH.
Qed.

Lemma str_leb_trans a b c : str_leb a b = true → str_leb b c = true → str_leb a c = true.
Proof.
  unfold str_leb. intros H1 H2.
  assert (H : String.compare a c ≠ Gt).
  { apply (string_compare_lt_trans a b c); [by destruct (String.compare a b)|by destruct (String.compare b c)]. }
  by destruct (String.compare a c).
Qed.

Definition canon_pair (kv : string * pyval) : string * pyval := (kv.1, canon kv.2).

Lemma ins_canon x l : ins key_le (canon_pair x) (canon_pair <$> l) = canon_pair <$> ins key_le x l.
Proof.
  induction l as [|y l IH]; [done|]. rewrite fmap_cons. cbn [ins].
  change (key_le (canon_pair x) (canon_pair y)) with (key_le x y).
  destruct (key_le x y); [done|]. by rewrite fmap_cons, IH.
Qed.

Lemma sorted_canon l : py_sorted key_le (canon_pair <$> l) = canon_pair <$> py_sorted key_le l.
Proof. induction l as [|x l IH]; [done|]. rewrite fmap_cons. unfold py_sorted in *. cbn [foldr]. by rewrite IH, ins_canon. Qed.

Lemma canon_dict_sorted d : py_sorted key_le (canon_dict d) = canon_dict d.
Proof.
  apply py_sorted_id, py_sorted_sorted.
  - intros x y. apply str_leb_total.
  - intros x y z. apply str_leb_trans.
Qed.

Lemma canon_idem v : canon (canon v) = canon v.
Proof.
  induction v as [| | | | |l IH|d IH] using pyval_nested_ind; try done.
  - change (PList (canon <$> (canon <$> l)) = PList (canon <$> l)). f_equal. rewrite <-list_fmap_compose.
    apply list_fmap_ext. intros i x Hx. rewrite Forall_lookup in IH. by apply (IH i).
  - rewrite !canon_PDict. f_equal.
    assert (E : canon_pair <$> canon_dict d = canon_dict d); [|transitivity (py_sorted key_le (canon_dict d));
      [by rewrite <-E at 2|apply canon_dict_sorted]].
    unfold canon_dict. change (λ kv : string * pyval, (kv.1, canon kv.2)) with canon_pair.
    rewrite <-sorted_canon, <-list_fmap_compose. f_equal. apply list_fmap_ext. intros i x Hx. unfold canon_pair. simpl.
    f_equal. rewrite Forall_lookup in IH. by apply (IH i).
Qed.

(** [json.dumps] with sorted keys and compact separators.  The hypotheses are its documented behaviour:
    it reads back as the sorted value, key order does not change the text, and control characters
    are escaped, so the text has no line break.  Without sorting, a text reads back as the value itself. *)
Definition no_newline (s : string) : Prop :=
  str_forall (λ a, negb (Ascii.eqb a (Ascii.ascii_of_nat 10)) && negb (Ascii.eqb a (Ascii.ascii_of_nat 13))) s = true.

Class CanonicalJson `{JsonLib} := {
  json_canonical : pyval → string;
  loads_canonical : ∀ v, json_loads (json_canonical v) = Some (canon v);
  canonical_canon : ∀ v, json_canonical (canon v) = json_canonical v;
  canonical_lines : ∀ v, no_newline (json_canonical v);
  loads_compact : ∀ v, json_loads (json_compact v) = Some v;
}.

(** A line end after a text changes nothing. *)
Class JsonSpace `{JsonLib} := loads_newline : ∀ s, json_loads (s +:+ String (Ascii.ascii_of_nat 10) "") = json_loads s.

(** ** Looking up in a sorted dictionary *)

Lemma dget_perm {V} (d1 d2 : dict string V) k : d1 ≡ₚ d2 → dict_wf d1 → dget k d1 = dget k d2.
Proof.
  intros P W. assert (dict_wf d2) by (unfold dict_wf, dkeys; by rewrite <-P).
  destruct (dget k d1) as [v|] eqn:E.
  - symmetry. apply elem_dget; [done|]. rewrite <-P. by apply dget_Some_elem.
  - destruct (dget k d2) as [v|] eqn:E2; [|done]. apply dget_Some_elem in E2. rewrite <-P in E2.
    apply elem_dget in E2; [congruence|done].
Qed.

Lemma dget_fmap {V W} (f : V → W) (d : dict string V) k :
  dget k ((λ kv, (kv.1, f kv.2)) <$> d) = f <$> dget k d.
Proof. induction d as [|[k' v] d IH]; simpl; [done|]. by repeat case_match. Qed.

Lemma dkeys_fmap {V W} (f : V → W) (d : dict string V) : dkeys ((λ kv, (kv.1, f kv.2)) <$> d) = dkeys d.
Proof. unfold dkeys. by rewrite <-list_fmap_compose. Qed.

Lemma dget_canon d k : dict_wf d → dget k (canon_dict d) = canon <$> dget k d.
Proof.
  intros W. unfold canon_dict. rewrite <-dget_fmap. symmetry. apply dget_perm.
  - by rewrite py_sorted_perm.
  - unfold dict_wf. by rewrite dkeys_fmap.
Qed.

(** ** Typed fields *)

Class Field (A : Type) := {
  enc : A → pyval;
  dec : pyval → option A;
  fcanon : A → A;
  dec_enc : ∀ a, dec (canon (enc a)) = Some (fcanon a);
  canon_enc : ∀ a, canon (enc (fcanon a)) = canon (enc a);
}.

(** A value that is not [None], so that an optional field can tell. *)
Class NotNone (A : Type) `{Field A} := enc_not_none : ∀ a, is_none (canon (enc a)) = false.

#[export] Instance field_str : Field string := {|
  enc := PStr; dec v := match v with PStr s => Some s | _ => None end; fcanon a := a;
  dec_enc _ := eq_refl; canon_enc _ := eq_refl |}.
#[export] Instance field_int : Field Z := {|
  enc := PInt; dec v := match v with PInt z => Some z | _ => None end; fcanon a := a;
  dec_enc _ := eq_refl; canon_enc _ := eq_refl |}.
#[export] Instance field_bool : Field bool := {|
  enc := PBool; dec v := match v with PBool b => Some b | _ => None end; fcanon a := a;
  dec_enc _ := eq_refl; canon_enc _ := eq_refl |}.
#[export] Instance field_float : Field spec_float := {|
  enc := PFloat; dec v := match v with PFloat f => Some f | _ => None end; fcanon a := a;
  dec_enc _ := eq_refl; canon_enc _ := eq_refl |}.

Definition dec_dict (v : pyval) : option pydict := match v with PDict d => Some d | _ => None end.
Lemma dec_dict_canon d : dec_dict (canon (PDict d)) = Some (canon_dict d).
Proof. by rewrite canon_PDict. Qed.
Lemma canon_PDict_canon d : canon (PDict (canon_dict d)) = canon (PDict d).
Proof. by rewrite <-canon_PDict, canon_idem. Qed.
#[export] Instance field_dict : Field pydict := {|
  enc := PDict; dec := dec_dict; fcanon := canon_dict;
  dec_enc := dec_dict_canon; canon_enc := canon_PDict_canon |}.

#[export] Instance not_none_str : NotNone string := λ _, eq_refl.
#[export] Instance not_none_int : NotNone Z := λ _, eq_refl.
#[export] Instance not_none_float : NotNone spec_float := λ _, eq_refl.
#[export] Instance not_none_dict : NotNone pydict := λ _, eq_refl.

Section containers.
Context {A : Type} `{FA : Field A}.

Definition enc_option (o : option A) : pyval := match o with Some a => enc a | None => PNone end.
Definition dec_option (v : pyval) : option (option A) := if is_none v then Some None else Some <$> dec v.

Lemma dec_enc_option `{!NotNone A} o : dec_option (canon (enc_option o)) = Some (fcanon <$> o).
Proof. destruct o as [a|]; [|done]. unfold dec_option. simpl. by rewrite enc_not_none, dec_enc. Qed.
Lemma canon_enc_option o : canon (enc_option (fcanon <$> o)) = canon (enc_option o).
Proof. destruct o; [apply canon_enc|done]. Qed.

Definition enc_list (l : list A) : pyval := PList (enc <$> l).
Definition dec_list (v : pyval) : option (list A) := match v with PList l => mapM dec l | _ => None end.

Lemma dec_enc_list l : dec_list (canon (enc_list l)) = Some (fcanon <$> l).
Proof.
  change (mapM dec (canon <$> (enc <$> l)) = Some (fcanon <$> l)).
  induction l as [|a l IH]; [done|]. cbn. rewrite dec_enc. cbn in IH. cbn. by rewrite IH.
Qed.
Lemma canon_enc_list l : canon (enc_list (fcanon <$> l)) = canon (enc_list l).
Proof.
  unfold enc_list. cbn. f_equal. rewrite <-!list_fmap_compose. apply list_fmap_ext. intros i a _. apply canon_enc.
Qed.
End containers.

#[export] Instance field_option `{NotNone A} : Field (option A) := {|
  enc := enc_option; dec := dec_option; fcanon := fmap fcanon;
  dec_enc := dec_enc_option; canon_enc := canon_enc_option |}.
#[export] Instance field_list `{Field A} : Field (list A) := {|
  enc := enc_list; dec := dec_list; fcanon := fmap fcanon;
  dec_enc := dec_enc_list; canon_enc := canon_enc_list |}.

(** The exception of a payload whose value has another type than its field declares: Python keeps such a
    value as it is, the typed records here cannot. *)
Definition ILL_TYPED : exn := OtherError "IllTyped" None.

(** Read field [k] of a payload; [dflt] is the dataclass default, [None] for a required field. *)
Definition field {A} `{Field A} (d : pydict) (k : string) (dflt : option A) : result A :=
  match dget k d with
  | Some v => match dec v with Some a => Ok a | None => Raise ILL_TYPED end
  | None =>
      match dflt with
      | Some a => Ok a
      | None => Raise (ValueError ("record payload missing required field: " +:+ k))
      end
  end.

Lemma field_ok {A} `{Field A} d k dflt (a : A) :
  dict_wf d → dget k d = Some (enc a) → field (canon_dict d) k dflt = Ok (fcanon a).
Proof. intros W E. unfold field. rewrite dget_canon, E by done. simpl. by rewrite dec_enc. Qed.
