(* ===== verification/JsonText.v ===== *)
(** * A concrete JSON codec

    The development leaves the JSON library a parameter with its documented laws ([CanonicalJson]).  This file gives
    one function that has them, so that theorems which assume the laws can be applied: a value is
    written as its code number in binary digits.  It is not the text [json.dumps] writes. *)

From stdpp Require Import countable.
From S2P Require Import Prelude Errors Dict PyVal Encoding Json.

#[local] Open Scope string_scope.
#[local] Open Scope list_scope.

(** ** Values as trees *)

Inductive leaf := LNone | LBool (b : bool) | LInt (z : Z) | LStr (s : string) | LFloat (f : spec_float).

#[export] Instance spec_float_eq_dec : EqDecision spec_float.
Proof. solve_decision. Defined.

Definition float_code (f : spec_float) : bool + bool + (unit + bool * positive * Z) :=
  match f with
  | S754_zero b => inl (inl b)
  | S754_infinity b => inl (inr b)
  | S754_nan => inr (inl tt)
  | S754_finite b m e => inr (inr (b, m, e))
  end.
Definition float_decode (c : bool + bool + (unit + bool * positive * Z)) : spec_float :=
  match c with
  | inl (inl b) => S754_zero b
  | inl (inr b) => S754_infinity b
  | inr (inl _) => S754_nan
  | inr (inr (b, m, e)) => S754_finite b m e
  end.
#[export] Instance spec_float_countable : Countable spec_float.
Proof. apply (inj_countable' float_code float_decode). by intros []. Defined.

#[export] Instance leaf_eq_dec : EqDecision leaf.
Proof. solve_decision. Defined.

Definition leaf_code (l : leaf) : unit + bool + (Z + string + spec_float) :=
  match l with
  | LNone => inl (inl tt) | LBool b => inl (inr b)
  | LInt z => inr (inl (inl z)) | LStr s => inr (inl (inr s)) | LFloat f => inr (inr f)
  end.
Definition leaf_decode (c : unit + bool + (Z + string + spec_float)) : leaf :=
  match c with
  | inl (inl _) => LNone | inl (inr b) => LBool b
  | inr (inl (inl z)) => LInt z | inr (inl (inr s)) => LStr s | inr (inr f) => LFloat f
  end.
#[export] Instance leaf_countable : Countable leaf.
Proof. apply (inj_countable' leaf_code leaf_decode). by intros []. Defined.

Fixpoint to_tree (v : pyval) : gen_tree leaf :=
  match v with
  | PNone => GenLeaf LNone
  | PBool b => GenLeaf (LBool b)
  | PInt z => GenLeaf (LInt z)
  | PFloat f => GenLeaf (LFloat f)
  | PStr s => GenLeaf (LStr s)
  | PList l => GenNode 0 (to_tree <$> l)
  | PDict d =>
      GenNode 1 ((fix go (d : pydict) : list (gen_tree leaf) :=
        match d with [] => [] | (k, x) :: d' => GenNode 2 [GenLeaf (LStr k); to_tree x] :: go d' end) d)
  end.

Fixpoint of_tree (t : gen_tree leaf) : pyval :=
  match t with
  | GenLeaf LNone => PNone
  | GenLeaf (LBool b) => PBool b
  | GenLeaf (LInt z) => PInt z
  | GenLeaf (LFloat f) => PFloat f
  | GenLeaf (LStr s) => PStr s
  | GenNode 0 l => PList (of_tree <$> l)
  | GenNode _ l =>
      PDict ((fix go (l : list (gen_tree leaf)) : pydict :=
        match l with
        | GenNode _ [GenLeaf (LStr k); x] :: l' => (k, of_tree x) :: go l'
        | _ => []
        end) l)
  end.

Lemma of_to_tree v : of_tree (to_tree v) = v.
Proof.
  induction v as [| | | | |l IH|d IH] using pyval_nested_ind; try done.
  - cbn. f_equal. induction IH as [|x l Hx _ IHl]; [done|]. cbn. by rewrite Hx, IHl.
  - cbn. f_equal. induction IH as [|[k x] d Hx _ IHd]; [done|]. cbn in *. by rewrite Hx, IHd.
Qed.

(** ** Numbers as digits *)

Fixpoint digits (p : positive) : string :=
  match p with
  | xH => ""
  | xO p' => String (Ascii.ascii_of_nat 48) (digits p')
  | xI p' => String (Ascii.ascii_of_nat 49) (digits p')
  end.

Fixpoint of_digits (s : string) : option positive :=
  match s with
  | "" => Some xH
  | String a s' =>
      if Ascii.eqb a (Ascii.ascii_of_nat 48) then xO <$> of_digits s'
      else if Ascii.eqb a (Ascii.ascii_of_nat 49) then xI <$> of_digits s'
      else if Ascii.eqb a (Ascii.ascii_of_nat 10) then of_digits s' else None
  end.

Lemma of_digits_digits p : of_digits (digits p) = Some p.
Proof. induction p as [p IH|p IH|]; cbn; by rewrite ?IH. Qed.

(** White space is skipped. *)
Lemma of_digits_newline s : of_digits (s +:+ String (Ascii.ascii_of_nat 10) "") = of_digits s.
Proof.
  induction s as [|a s IH]; [done|]. change (String a s +:+ String (Ascii.ascii_of_nat 10) "") with (String a (s +:+ String (Ascii.ascii_of_nat 10) "")).
  cbn [of_digits]. by rewrite IH.
Qed.

Lemma digits_lines p : no_newline (digits p).
Proof. unfold no_newline. by induction p. Qed.

(** ** The codec *)

Definition dumps (v : pyval) : string := digits (encode (to_tree v)).
Definition loads (s : string) : option pyval := p ← of_digits s; of_tree <$> decode p.

Lemma loads_dumps v : loads (dumps v) = Some v.
Proof. unfold loads, dumps. rewrite of_digits_digits. cbn. rewrite decode_encode. cbn. by rewrite of_to_tree. Qed.

Definition text_json : JsonLib := {| json_loads := loads; json_compact := dumps |}.

#[refine] Definition text_codec : @CanonicalJson text_json := {| json_canonical v := dumps (canon v) |}.
Proof.
  - intros v. apply loads_dumps.
  - intros v. by rewrite canon_idem.
  - intros v. apply digits_lines.
  - apply loads_dumps.
Defined.

Definition text_space : @JsonSpace text_json.
Proof. intros s. cbn. unfold loads. by rewrite of_digits_newline. Qed.
