(* ===== verification/Artifacts.v ===== *)
(** * Artifact store (haas/artifacts/models.py, paths.py, store.py)

    Which relative paths may be published, the index of current and superseded file versions
    per session, and the in-process content store with its eviction loop.  Identifiers and
    clock readings are arguments; the digest and the media-type table are interfaces. *)

From S2P Require Import Prelude Errors Dict PyVal Paths Encoding.

#[local] Open Scope string_scope.
#[local] Open Scope list_scope.
#[local] Open Scope Z_scope.

(** ** Models *)

Record FileRecord := mkFileRecord {
  f_id : string; f_sessionId : string; f_filename : string; f_relativePath : string;
  f_appName : string; f_userId : string; f_bytes : Z; f_mediaType : string; f_sha256 : string;
  f_invocationId : string; f_createdAtMs : Z; f_ownerPrincipalId : string;
  f_previewStatus : string; f_downloadStatus : string;
}.

Definition file_to_dict (f : FileRecord) : pydict :=
  [("id", PStr (f_id f)); ("object", PStr "file"); ("sessionId", PStr (f_sessionId f));
   ("invocationId", PStr (f_invocationId f)); ("filename", PStr (f_filename f));
   ("relativePath", PStr (f_relativePath f)); ("bytes", PInt (f_bytes f));
   ("mediaType", PStr (f_mediaType f)); ("sha256", PStr (f_sha256 f));
   ("createdAtMs", PInt (f_createdAtMs f)); ("previewStatus", PStr (f_previewStatus f));
   ("downloadStatus", PStr (f_downloadStatus f))].

Record ArtifactPolicy := mkArtifactPolicy {
  ap_includeRoots : list string; ap_excludePrefixes : list string; ap_maxFiles : Z;
  ap_maxPublishFiles : Z; ap_maxFileBytes : Z; ap_maxContentBytes : Z; ap_allowHidden : bool;
}.

Definition default_artifact_policy : ArtifactPolicy :=
  mkArtifactPolicy ["output"] [".git"; ".haas"; ".codex"; ".cache"; "node_modules"]
    1000 20 104857600 (512 * 1024 * 1024) false.

(** ** Path safety *)

Definition has_nul (s : string) : bool := str_exists (Ascii.eqb (Ascii.ascii_of_nat 0)) s.
Definition backslash : string := String (Ascii.ascii_of_nat 92) "".

(** The two normalizations differ in their messages only. *)
Definition normalize_candidate_path (path : string) : result string :=
  _ ← ensure (negb (bool_decide (path = "")) && negb (has_nul path)) (ArtifactPathRejected "empty_or_nul_path");
  _ ← ensure (negb (starts_with "/" path || starts_with backslash path)) (ArtifactPathRejected "absolute_path_rejected");
  let normalized := normpath path in
  _ ← ensure (negb (bool_decide (normalized ∈ ["."; ".."]) || starts_with "../" normalized))
        (ArtifactPathRejected "path_traversal_rejected");
  Ok normalized.

Definition normalize_policy_root (root : string) : result string :=
  _ ← ensure (negb (bool_decide (root = "")) && negb (has_nul root)) (ArtifactPathRejected "invalid_policy_root");
  _ ← ensure (negb (starts_with "/" root || starts_with backslash root)) (ArtifactPathRejected "invalid_policy_root");
  let normalized := normpath root in
  _ ← ensure (negb (bool_decide (normalized ∈ ["."; ".."]) || starts_with "../" normalized))
        (ArtifactPathRejected "invalid_policy_root");
  Ok normalized.

Fixpoint normalized_policy_roots (roots : list string) : result (list string) :=
  match roots with
  | [] => Ok []
  | root :: roots' => n ← normalize_policy_root root; ns ← normalized_policy_roots roots'; Ok (n :: ns)
  end.

Definition path_matches_root (path root : string) : bool :=
  bool_decide (path = root) || starts_with (root +:+ "/") path.

Definition is_under_any_root (path : string) (roots : list string) : bool :=
  existsb (path_matches_root path) roots.

Definition safe_relative_path (relative_path : string) (policy : ArtifactPolicy) : result string :=
  normalized ← normalize_candidate_path relative_path;
  roots ← normalized_policy_roots (ap_includeRoots policy);
  _ ← ensure (is_under_any_root normalized roots) (ArtifactPathRejected "outside_include_roots");
  _ ← ensure (ap_allowHidden policy || negb (existsb (starts_with ".") (path_parts normalized)))
        (ArtifactPathRejected "hidden_path_rejected");
  excluded ← normalized_policy_roots (ap_excludePrefixes policy);
  _ ← iter_result (λ prefix, ensure (negb (path_matches_root normalized prefix))
        (ArtifactPathRejected ("excluded_prefix: " +:+ prefix))) excluded;
  Ok normalized.

(** ** The store *)

(** [mimetypes.guess_type(path)[0]]: the table depends on the host. *)
Class MimeTypes := guess_type : string → option string.

Definition basename (path : string) : string := default "" (last (split_on slash path)).

Definition infer_media_type `{MimeTypes} (path : string) : string :=
  match guess_type path with
  | Some t => if bool_decide (t = "") then "application/octet-stream" else t
  | None => "application/octet-stream"
  end.

Definition media_type_or `{MimeTypes} (media_type : option string) (path : string) : string :=
  match media_type with
  | Some t => if bool_decide (t = "") then infer_media_type path else t
  | None => infer_media_type path
  end.

Notation scope := (string * string * string)%type.

Record ArtifactStore := mkArtifactStore {
  as_files : dict string FileRecord;
  as_by_session : dict scope (list string);
  as_content : dict string string;
  as_access : dict string spec_float;
}.
#[export] Instance eta_artifact_store : Eta ArtifactStore := λ s,
  mkArtifactStore (as_files s) (as_by_session s) (as_content s) (as_access s).

Definition ArtifactStore_init : ArtifactStore := mkArtifactStore [] [] [] [].

Notation artifact_m := (M ArtifactStore).

Definition blen (content : string) : Z := Z.of_nat (String.length content).

Definition session_ids (sc : scope) (s : ArtifactStore) : list string := default [] (dget sc (as_by_session s)).

(** [sum(len(chunk) for chunk in self._content.values())] *)
Definition total_bytes (content : dict string string) : Z := foldr (λ c n, blen c + n) 0 (dvalues content).

(** The ids reachable through the session listings. *)
Definition current_ids (s : ArtifactStore) : list string := concat (dvalues (as_by_session s)).

Definition victims (s : ArtifactStore) : list string :=
  keep (λ fid, negb (bool_decide (fid ∈ current_ids s))) (dkeys (as_content s)).

Definition last_access (s : ArtifactStore) (fid : string) : spec_float :=
  default (S754_zero false) (dget fid (as_access s)).

(** [list.sort] compares keys with [<] only. *)
Definition access_le (s : ArtifactStore) (a b : string) : bool := negb (SFltb (last_access s b) (last_access s a)).

Definition drop_content (fid : string) (s : ArtifactStore) : ArtifactStore :=
  s <| as_content := ddel fid (as_content s) |> <| as_access := ddel fid (as_access s) |>.

(** [_evict_if_needed]: each round drops one held snapshot, so as many rounds as there are
    snapshots reach the loop's exit. *)
Fixpoint evict_loop (policy : ArtifactPolicy) (fuel : nat) (s : ArtifactStore) : ArtifactStore :=
  if total_bytes (as_content s) <=? ap_maxContentBytes policy then s
  else match py_sorted (access_le s) (victims s) with
       | [] => s
       | oldest :: _ =>
           match fuel with
           | O => s
           | S fuel' => evict_loop policy fuel' (drop_content oldest s)
           end
       end.

Definition evict_if_needed (policy : ArtifactPolicy) (s : ArtifactStore) : ArtifactStore :=
  evict_loop policy (length (as_content s)) s.

(** What a registration is about. *)
Record file_request := mkFileRequest {
  q_session_id : string; q_relative_path : string; q_content : string; q_invocation_id : string;
  q_owner_principal_id : string; q_media_type : option string; q_app_name : string; q_user_id : string;
}.
#[export] Instance eta_file_request : Eta file_request := λ q,
  mkFileRequest (q_session_id q) (q_relative_path q) (q_content q) (q_invocation_id q)
    (q_owner_principal_id q) (q_media_type q) (q_app_name q) (q_user_id q).
Definition q_scope (q : file_request) : scope := (q_app_name q, q_user_id q, q_session_id q).

(** The random identifier and the readings of the two clocks. *)
Record fresh := mkFresh { fr_hex : string; fr_now : Z; fr_mono : spec_float }.
Definition new_file_id (e : fresh) : string := "file_" +:+ String.substring 0 16 (fr_hex e).

Section store.
Context `{Sha256} `{MimeTypes} (policy : ArtifactPolicy).

Definition new_record (e : fresh) (q : file_request) (store_content : bool) (normalized : string) : FileRecord :=
  let status := if store_content then "available" else "unavailable" in
  {| f_id := new_file_id e; f_sessionId := q_session_id q; f_filename := basename normalized;
     f_relativePath := normalized; f_appName := q_app_name q; f_userId := q_user_id q;
     f_bytes := blen (q_content q); f_mediaType := media_type_or (q_media_type q) normalized;
     f_sha256 := sha256_hex (q_content q); f_invocationId := q_invocation_id q;
     f_createdAtMs := fr_now e; f_ownerPrincipalId := q_owner_principal_id q;
     f_previewStatus := status; f_downloadStatus := status |}.

(** The three (with content: five) writes of [register]. *)
Definition store_record (e : fresh) (q : file_request) (store_content : bool) (record : FileRecord)
    (s : ArtifactStore) : ArtifactStore :=
  let s := s <| as_files := dset (f_id record) record (as_files s) |> in
  let s := s <| as_by_session := dset (q_scope q) (session_ids (q_scope q) s ++ [f_id record]) (as_by_session s) |> in
  if store_content then
    evict_if_needed policy
      (s <| as_content := dset (f_id record) (q_content q) (as_content s) |>
         <| as_access := dset (f_id record) (fr_mono e) (as_access s) |>)
  else s.

Definition register (e : fresh) (q : file_request) (store_content publish : bool) : artifact_m FileRecord :=
  normalized ← lift (safe_relative_path (q_relative_path q) policy);
  _ ← guard_or (blen (q_content q) <=? ap_maxFileBytes policy) (ArtifactPathRejected "file_too_large");
  ids ← gets (session_ids (q_scope q));
  _ ← guard_or (publish || (Z.of_nat (length ids) <? ap_maxFiles policy)) (ArtifactQuotaExceeded "maxFiles");
  let record := new_record e q store_content normalized in
  _ ← modify (store_record e q store_content record);
  mret record.

(** [self._files[fid]] *)
Definition file_at (fid : string) (s : ArtifactStore) : result FileRecord :=
  match dget fid (as_files s) with Some r => Ok r | None => Raise (KeyError fid) end.

Fixpoint files_at (fids : list string) (s : ArtifactStore) : result (list FileRecord) :=
  match fids with
  | [] => Ok []
  | fid :: fids' => r ← file_at fid s; rs ← files_at fids' s; Ok (r :: rs)
  end.

(** The listed versions of one path and owner. *)
Fixpoint matching_ids (normalized owner : string) (fids : list string) (s : ArtifactStore) : result (list string) :=
  match fids with
  | [] => Ok []
  | fid :: fids' =>
      r ← file_at fid s;
      rest ← matching_ids normalized owner fids' s;
      Ok (if bool_decide (f_relativePath r = normalized) && bool_decide (f_ownerPrincipalId r = owner)
          then fid :: rest else rest)
  end.

(** Drop the superseded versions from the listing and free their bytes. *)
Definition supersede (sc : scope) (hidden : list string) (s : ArtifactStore) : ArtifactStore :=
  s <| as_by_session := dset sc (keep (λ fid, negb (bool_decide (fid ∈ hidden))) (session_ids sc s)) (as_by_session s) |>
    <| as_content := ddel_all hidden (as_content s) |>
    <| as_access := ddel_all hidden (as_access s) |>.

Definition unchanged (q : file_request) (normalized : string) (current : FileRecord) : bool :=
  bool_decide (f_sha256 current = sha256_hex (q_content q)) &&
  bool_decide (f_mediaType current = media_type_or (q_media_type q) normalized).

Definition register_produced (e : fresh) (q : file_request) : artifact_m (FileRecord * bool) :=
  normalized ← lift (safe_relative_path (q_relative_path q) policy);
  current_ids ← gets (session_ids (q_scope q));
  matching ← (λ s, (s, matching_ids normalized (q_owner_principal_id q) current_ids s));
  kept ← (λ s, (s, match last matching with
                   | None => Ok None
                   | Some fid => current ← file_at fid s;
                                 Ok (if unchanged q normalized current then Some current else None)
                   end));
  match kept with
  | Some current => mret (current, false)
  | None =>
      _ ← guard_or (Z.of_nat (length current_ids) - Z.of_nat (length matching) + 1 <=? ap_maxPublishFiles policy)
            (ArtifactQuotaExceeded "maxPublishFiles");
      record ← register e (q <| q_relative_path := normalized |>) true true;
      _ ← modify (λ s, match matching with [] => s | _ => supersede (q_scope q) matching s end);
      mret (record, true)
  end.

Definition list_files (sc : scope) (owner : option string) (s : ArtifactStore) : result (list FileRecord) :=
  records ← files_at (session_ids sc s) s;
  Ok (match owner with
      | None => records
      | Some o => keep (λ r, bool_decide (f_ownerPrincipalId r = o)) records
      end).

Definition f_scope (r : FileRecord) : scope := (f_appName r, f_userId r, f_sessionId r).

Definition scope_files (sc : scope) (s : ArtifactStore) : list string :=
  (keep (λ kv, bool_decide (f_scope kv.2 = sc)) (as_files s)).*1.

Definition delete_session (sc : scope) (s : ArtifactStore) : ArtifactStore :=
  let fids := scope_files sc s in
  {| as_files := ddel_all fids (as_files s); as_by_session := ddel sc (as_by_session s);
     as_content := ddel_all fids (as_content s); as_access := ddel_all fids (as_access s) |}.

Definition touch (mono : spec_float) (fid : string) (s : ArtifactStore) : ArtifactStore :=
  if dmem fid (as_content s) then s <| as_access := dset fid mono (as_access s) |> else s.

Definition get (mono : spec_float) (fid : string) (owner : option string) : artifact_m FileRecord := λ s,
  match dget fid (as_files s) with
  | None => (s, Raise (ArtifactNotFoundError fid))
  | Some r =>
      if match owner with Some o => negb (bool_decide (f_ownerPrincipalId r = o)) | None => false end
      then (s, Raise (ArtifactNotFoundError fid))
      else (touch mono fid s, Ok r)
  end.

Definition read_content (mono : spec_float) (fid : string) (owner : option string) : artifact_m string :=
  record ← get mono fid owner;
  content ← gets (λ s, dget (f_id record) (as_content s));
  match content with Some c => mret c | None => raise (ArtifactNotFoundError fid) end.

End store.

(** ** Which paths are accepted *)

Definition valid_rel (p : string) : Prop :=
  p ≠ "" ∧ has_nul p = false ∧ starts_with "/" p = false ∧ starts_with backslash p = false ∧
  normpath p ∉ ["."; ".."] ∧ starts_with "../" (normpath p) = false.

Lemma normalize_candidate_path_Ok p n : normalize_candidate_path p = Ok n ↔ valid_rel p ∧ n = normpath p.
Proof.
  unfold normalize_candidate_path, valid_rel. rewrite bind_Ok. setoid_rewrite bind_Ok.
  setoid_rewrite ensure_Ok. setoid_rewrite bind_Ok. setoid_rewrite ensure_Ok. split.
  - intros (_ & H1 & _ & H2 & _ & H3 & [= <-]). by bsimp.
  - intros ((H1 & H2 & H3 & H4 & H5 & H6) & ->). exists tt. rewrite H2, H3, H4, H6.
    rewrite (bool_decide_eq_false_2 _ H1), (bool_decide_eq_false_2 _ H5). split; [done|]. exists tt. split; [done|].
    by exists tt.
Qed.

Lemma normalize_policy_root_Ok p n : normalize_policy_root p = Ok n ↔ valid_rel p ∧ n = normpath p.
Proof.
  rewrite <-normalize_candidate_path_Ok. unfold normalize_policy_root, normalize_candidate_path.
  destruct (negb (bool_decide (p = "")) && negb (has_nul p)); [|done].
  destruct (negb (starts_with "/" p || starts_with backslash p)); [|done]. cbn.
  by destruct (negb (bool_decide (normpath p ∈ ["."; ".."]) || starts_with "../" (normpath p))).
Qed.

Lemma normalized_policy_roots_Ok roots ns :
  normalized_policy_roots roots = Ok ns ↔ Forall valid_rel roots ∧ ns = normpath <$> roots.
Proof.
  revert ns. induction roots as [|r roots IH]; intros ns; cbn [normalized_policy_roots].
  { split; [intros [= <-]; by split|by intros [_ ->]]. }
  rewrite Forall_cons. split.
  - intros (n & [Hr ->]%normalize_policy_root_Ok & (? & [Hrs ->]%IH & [= <-])%bind_Ok)%bind_Ok. done.
  - intros [[Hr Hrs] ->]. rewrite (proj2 (normalize_policy_root_Ok r _) (conj Hr eq_refl)).
    cbn. by rewrite (proj2 (IH _) (conj Hrs eq_refl)).
Qed.

Lemma valid_rel_names p : valid_rel p →
  path_parts (normpath p) ≠ [] ∧ Forall name_comp (path_parts (normpath p)) ∧
  normpath p = join_with "/" (path_parts (normpath p)).
Proof.
  intros (_ & _ & Hs & _ & Hd & Hu). destruct (normpath_names p Hs Hd Hu) as (l & Hne & Hl & Heq).
  rewrite Heq, path_parts_names by done. done.
Qed.

(** The prefix test on text is the prefix test on path segments. *)
Lemma path_matches_root_parts p r : valid_rel p → valid_rel r →
  path_matches_root (normpath p) (normpath r) = true ↔ path_parts (normpath r) `prefix_of` path_parts (normpath p).
Proof.
  intros (Hp & Np & Ep)%valid_rel_names (Hr & Nr & Er)%valid_rel_names.
  rewrite <-starts_with_root by done. rewrite <-Ep, <-Er.
  unfold path_matches_root. rewrite orb_true_iff, bool_decide_eq_true. done.
Qed.

Lemma normpath_valid p : valid_rel p → starts_with backslash (normpath p) = false → valid_rel (normpath p) ∧
  normpath (normpath p) = normpath p.
Proof.
  intros Hv Hb. pose proof (valid_rel_names p Hv) as (Hne & Hn & Heq).
  destruct Hv as (_ & Hnul & Hs & _ & Hd & Hu). set (l := path_parts (normpath p)) in *.
  assert (normpath (normpath p) = normpath p) as Hid by (rewrite Heq; by apply normpath_names_id).
  split; [|done]. unfold valid_rel. rewrite Hid. split_and!; try done.
  - intros E. rewrite Heq in E. apply (f_equal (split_on slash)) in E. rewrite split_names in E by done.
    rewrite E in Hn. change (split_on slash "") with [""] in Hn. by apply Forall_singleton in Hn as [[Hx _] _].
  - unfold has_nul, str_exists in *. apply negb_false_iff in Hnul. apply negb_false_iff. by apply normpath_chars.
  - rewrite Heq. by apply names_relative.
Qed.

(** What publishing [n] for the caller's [path] needs, on path segments. *)
Definition path_admitted (policy : ArtifactPolicy) (path n : string) : Prop :=
  valid_rel path ∧ Forall valid_rel (ap_includeRoots policy) ∧ Forall valid_rel (ap_excludePrefixes policy) ∧
  n = normpath path ∧
  (∃ r, r ∈ ap_includeRoots policy ∧ path_parts (normpath r) `prefix_of` path_parts n) ∧
  (ap_allowHidden policy = true ∨ ∀ c, c ∈ path_parts n → starts_with "." c = false) ∧
  (∀ r, r ∈ ap_excludePrefixes policy → ¬ path_parts (normpath r) `prefix_of` path_parts n).

Lemma is_under_any_root_parts p roots : valid_rel p → Forall valid_rel roots →
  is_under_any_root (normpath p) (normpath <$> roots) = true ↔
  ∃ r, r ∈ roots ∧ path_parts (normpath r) `prefix_of` path_parts (normpath p).
Proof.
  intros Hp Hr. unfold is_under_any_root. rewrite existsb_exists. setoid_rewrite <-list_elem_of_In. split.
  - intros (n & (r & -> & Hin)%list_elem_of_fmap & Hm). exists r. split; [done|].
    apply path_matches_root_parts; [done| |done]. by eapply Forall_forall.
  - intros (r & Hin & Hpre). exists (normpath r). split; [by apply list_elem_of_fmap_2|].
    apply path_matches_root_parts; [done| |done]. by eapply Forall_forall.
Qed.

Lemma excluded_parts p roots : valid_rel p → Forall valid_rel roots →
  iter_result (λ prefix, ensure (negb (path_matches_root (normpath p) prefix))
    (ArtifactPathRejected ("excluded_prefix: " +:+ prefix))) (normpath <$> roots) = Ok tt ↔
  ∀ r, r ∈ roots → ¬ path_parts (normpath r) `prefix_of` path_parts (normpath p).
Proof.
  intros Hp Hr. rewrite iter_result_Ok. setoid_rewrite ensure_Ok. setoid_rewrite negb_true_iff.
  setoid_rewrite <-not_true_iff_false. split.
  - intros H r Hin Hpre. apply (H (normpath r)); [by apply list_elem_of_fmap_2|].
    apply path_matches_root_parts; [done| |done]. by eapply Forall_forall.
  - intros H n (r & -> & Hin)%list_elem_of_fmap Hm. apply (H r Hin).
    apply path_matches_root_parts; [done| |done]. by eapply Forall_forall.
Qed.

Lemma safe_relative_path_Ok policy path n : safe_relative_path path policy = Ok n ↔ path_admitted policy path n.
Proof.
  unfold safe_relative_path, path_admitted. rewrite bind_Ok. setoid_rewrite normalize_candidate_path_Ok.
  setoid_rewrite bind_Ok. setoid_rewrite normalized_policy_roots_Ok. setoid_rewrite bind_Ok.
  setoid_rewrite ensure_Ok. setoid_rewrite bind_Ok. setoid_rewrite ensure_Ok. setoid_rewrite bind_Ok.
  setoid_rewrite normalized_policy_roots_Ok. setoid_rewrite bind_Ok.
  assert (∀ m, ap_allowHidden policy || negb (existsb (starts_with ".") (path_parts m)) = true ↔
    (ap_allowHidden policy = true ∨ ∀ c, c ∈ path_parts m → starts_with "." c = false)) as Hhid.
  { intros m. rewrite orb_true_iff, negb_true_iff, <-not_true_iff_false, existsb_exists.
    setoid_rewrite <-list_elem_of_In. setoid_rewrite <-not_true_iff_false. naive_solver. }
  split.
  - intros (m & [Hp ->] & _ & [Hi ->] & _ & Hu & _ & Hh & _ & [He ->] & [] & Hx & [= <-]).
    rewrite is_under_any_root_parts in Hu by done. rewrite excluded_parts in Hx by done. apply Hhid in Hh. done.
  - intros (Hp & Hi & He & -> & Hu & Hh & Hx). exists (normpath path). split; [done|].
    exists (normpath <$> ap_includeRoots policy). split; [done|]. exists tt. rewrite is_under_any_root_parts by done.
    split; [done|]. exists tt. split; [by apply Hhid|]. exists (normpath <$> ap_excludePrefixes policy).
    split; [done|]. exists tt. by rewrite excluded_parts.
Qed.

(** A path is accepted for publication exactly when it is a relative path without NUL that does
    not leave the container, the policy's roots are such paths too, its normal form lies segment by
    segment under an include root and under no excluded prefix, and no segment is hidden unless
    the policy allows it.  An accepted path is then a list of names joined by slashes, and
    accepting it again changes nothing unless it begins with a backslash. *)
Theorem artifact_path_confined policy path n :
  (safe_relative_path path policy = Ok n ↔ path_admitted policy path n) ∧
  (safe_relative_path path policy = Ok n →
   path_parts n ≠ [] ∧ Forall name_comp (path_parts n) ∧ n = join_with "/" (path_parts n) ∧
   (starts_with backslash n = false → safe_relative_path n policy = Ok n)).
Proof.
  split; [apply safe_relative_path_Ok|]. rewrite !safe_relative_path_Ok.
  intros (Hp & Hi & He & -> & Hu & Hh & Hx). destruct (valid_rel_names _ Hp) as (H1 & H2 & H3). split_and!; [done..|].
  intros Hb. destruct (normpath_valid _ Hp Hb) as [Hv Hid]. split_and!; by rewrite ?Hid.
Qed.

(** ** Eviction *)

Section eviction.
Context (policy : ArtifactPolicy).

Lemma victims_spec fid s : fid ∈ victims s ↔ is_Some (dget fid (as_content s)) ∧ fid ∉ current_ids s.
Proof.
  unfold victims. rewrite elem_of_keep, negb_true_iff, bool_decide_eq_false, elem_dkeys. naive_solver.
Qed.

Lemma evict_loop_frame fuel s :
  as_files (evict_loop policy fuel s) = as_files s ∧
  as_by_session (evict_loop policy fuel s) = as_by_session s ∧
  (∀ fid, dget fid (as_content (evict_loop policy fuel s)) = dget fid (as_content s) ∨
          fid ∉ current_ids s ∧ dget fid (as_content (evict_loop policy fuel s)) = None).
Proof.
  revert s. induction fuel as [|fuel IH]; intros s; cbn [evict_loop];
    (destruct (total_bytes (as_content s) <=? ap_maxContentBytes policy); [by auto|]);
    (destruct (py_sorted (access_le s) (victims s)) as [|v vs] eqn:E; [by auto|]); [by auto|].
  destruct (IH (drop_content v s)) as (IH1 & IH2 & IH3). split_and!; [done..|].
  assert (v ∉ current_ids s) as Hv.
  { apply victims_spec. rewrite <-(elem_of_py_sorted (access_le s)), E. by left. }
  change (current_ids (drop_content v s)) with (current_ids s) in IH3. cbn [drop_content as_content] in IH3.
  intros fid. specialize (IH3 fid). unfold drop_content in IH3 at 2. cbn in IH3. rewrite dget_ddel in IH3.
  case_decide; subst; [|exact IH3]. right. destruct IH3 as [->|[_ ->]]; done.
Qed.

Lemma length_ddel_lt {V} k (d : dict string V) : is_Some (dget k d) → (length (ddel k d) < length d)%nat.
Proof.
  induction d as [|[k1 v1] d IH]; intros [v Hv]; simpl in *; [done|]. case_decide.
  - pose proof (sublist_length _ _ (ddel_sublist k d)). lia.
  - specialize (IH (ex_intro _ v Hv)). simpl. lia.
Qed.

(** The loop stops at its own exits: under the ceiling, or with nothing left to evict. *)
Lemma evict_loop_exit fuel s :
  (length (as_content s) ≤ fuel)%nat →
  total_bytes (as_content (evict_loop policy fuel s)) ≤ ap_maxContentBytes policy ∨
  victims (evict_loop policy fuel s) = [].
Proof.
  revert s. induction fuel as [|fuel IH]; intros s Hf; cbn [evict_loop];
    (destruct (Z.leb_spec (total_bytes (as_content s)) (ap_maxContentBytes policy)); [by left|]);
    (destruct (py_sorted (access_le s) (victims s)) as [|v vs] eqn:E;
      [right; apply Permutation_nil; by rewrite <-E, py_sorted_perm|]).
  - exfalso. assert (v ∈ victims s) as [[c Hc] _]%victims_spec by (rewrite <-(elem_of_py_sorted (access_le s)), E; by left).
    destruct (as_content s); simpl in *; [done|lia].
  - apply IH. unfold drop_content. cbn.
    assert (v ∈ victims s) as [Hc _]%victims_spec by (rewrite <-(elem_of_py_sorted (access_le s)), E; by left).
    pose proof (length_ddel_lt v _ Hc). lia.
Qed.

Lemma total_bytes_ddel k d : total_bytes (ddel k d) ≤ total_bytes d.
Proof.
  assert (∀ k' v d', total_bytes ((k', v) :: d') = blen v + total_bytes d') as Hcons by done.
  induction d as [|[k1 v1] d IH]; cbn [ddel]; [done|].
  assert (0 ≤ blen v1) by (unfold blen; lia). case_decide; rewrite !Hcons; lia.
Qed.

Lemma evict_loop_total fuel s : total_bytes (as_content (evict_loop policy fuel s)) ≤ total_bytes (as_content s).
Proof.
  revert s. induction fuel as [|fuel IH]; intros s; cbn [evict_loop]; repeat (case_match; [lia|]); try (case_match; lia).
  repeat case_match; try lia. etrans; [apply IH|]. apply total_bytes_ddel.
Qed.

Lemma evict_nothing s : victims s = [] → evict_if_needed policy s = s.
Proof.
  unfold evict_if_needed. intros Hv. destruct (length (as_content s)); cbn [evict_loop]; rewrite Hv; simpl; by case_match.
Qed.

End eviction.

(** Whatever the store holds, the eviction loop ends, either within the content ceiling or with
    nothing but current versions left; it never touches the index, never drops a current
    version's bytes and never adds any. *)
Theorem eviction_spares_current policy s :
  let s' := evict_if_needed policy s in
  (total_bytes (as_content s') ≤ ap_maxContentBytes policy ∨
   ∀ fid, is_Some (dget fid (as_content s')) → fid ∈ current_ids s) ∧
  as_files s' = as_files s ∧ as_by_session s' = as_by_session s ∧
  (∀ fid, fid ∈ current_ids s → dget fid (as_content s') = dget fid (as_content s)) ∧
  (∀ fid c, dget fid (as_content s') = Some c → dget fid (as_content s) = Some c) ∧
  total_bytes (as_content s') ≤ total_bytes (as_content s).
Proof.
  unfold evict_if_needed. destruct (evict_loop_frame policy (length (as_content s)) s) as (Hf & Hb & Hc).
  cbn. split_and!; [|done|done| | |apply evict_loop_total].
  - destruct (evict_loop_exit policy (length (as_content s)) s (Nat.le_refl _)) as [?|Hv]; [by left|right].
    intros fid Hs. apply dec_stable. intros Hn.
    assert (fid ∈ victims (evict_loop policy (length (as_content s)) s)) as Hin; [|rewrite Hv in Hin; set_solver].
    apply victims_spec. split; [done|]. unfold current_ids. by rewrite Hb.
  - intros fid Hin. destruct (Hc fid) as [?|[? _]]; done.
  - intros fid c Hs. destruct (Hc fid) as [<-|[_ Hn]]; [done|]. by rewrite Hn in Hs.
Qed.

(** ** The index invariant *)

Section invariant.
Context `{Sha256} `{MimeTypes} (policy : ArtifactPolicy).

Record index_inv (s : ArtifactStore) : Prop := {
  ix_files_wf : dict_wf (as_files s);
  ix_sessions_wf : dict_wf (as_by_session s);
  ix_content_wf : dict_wf (as_content s);
  ix_keyed : ∀ fid r, dget fid (as_files s) = Some r →
    f_id r = fid ∧ ∃ p, safe_relative_path p policy = Ok (f_relativePath r);
  ix_nodup : ∀ sc, NoDup (session_ids sc s);
  ix_listed : ∀ sc fid, fid ∈ session_ids sc s → ∃ r, dget fid (as_files s) = Some r ∧ f_scope r = sc;
  ix_current : ∀ fid c, dget fid (as_content s) = Some c →
    ∃ r, dget fid (as_files s) = Some r ∧ fid ∈ session_ids (f_scope r) s ∧
         f_bytes r = blen c ∧ blen c ≤ ap_maxFileBytes policy;
  ix_access : ∀ fid, is_Some (dget fid (as_access s)) ↔ is_Some (dget fid (as_content s));
}.

Definition quota_inv (s : ArtifactStore) : Prop :=
  ∀ sc, Z.of_nat (length (session_ids sc s)) ≤ Z.max 0 (Z.max (ap_maxFiles policy) (ap_maxPublishFiles policy)).

Definition artifact_inv (s : ArtifactStore) : Prop := index_inv s ∧ quota_inv s.

Lemma session_ids_current sc fid s : fid ∈ session_ids sc s → fid ∈ current_ids s.
Proof.
  unfold session_ids, current_ids. destruct (dget sc (as_by_session s)) as [ids|] eqn:E; [|set_solver].
  intros Hin. apply list_elem_of_In, in_concat. exists ids. split; apply list_elem_of_In; [|done].
  apply elem_dvalues. exists sc. by apply dget_Some_elem.
Qed.

(** Every held snapshot is a current version: there is never anything to evict. *)
Lemma index_no_victims s : index_inv s → victims s = [].
Proof.
  intros Hi. destruct (victims s) as [|v vs] eqn:E; [done|exfalso].
  assert (v ∈ victims s) as [[c Hc] Hn]%victims_spec by (rewrite E; by left).
  destruct (ix_current s Hi v c Hc) as (r & _ & Hin & _). by apply Hn, (session_ids_current _ _ _ Hin).
Qed.

Lemma session_ids_set sc sc' ids f c a d :
  session_ids sc (mkArtifactStore f (dset sc' ids d) c a) = if decide (sc = sc') then ids else session_ids sc (mkArtifactStore f d c a).
Proof. unfold session_ids. cbn. rewrite dget_dset. by case_decide. Qed.

Definition fresh_id (e : fresh) (s : ArtifactStore) : Prop := dget (new_file_id e) (as_files s) = None.

Lemma fresh_not_listed e s sc : index_inv s → fresh_id e s → new_file_id e ∉ session_ids sc s.
Proof. intros Hi He Hin. destruct (ix_listed s Hi _ _ Hin) as (r & Hr & _). unfold fresh_id in He. congruence. Qed.

(** The writes of a registration before the eviction call. *)
Definition store_record_raw (e : fresh) (q : file_request) (store_content : bool) (record : FileRecord)
    (s : ArtifactStore) : ArtifactStore :=
  mkArtifactStore (dset (f_id record) record (as_files s))
    (dset (q_scope q) (session_ids (q_scope q) s ++ [f_id record]) (as_by_session s))
    (if store_content then dset (f_id record) (q_content q) (as_content s) else as_content s)
    (if store_content then dset (f_id record) (fr_mono e) (as_access s) else as_access s).

Lemma store_record_raw_inv e q sc n p s :
  index_inv s → fresh_id e s → safe_relative_path p policy = Ok n → blen (q_content q) ≤ ap_maxFileBytes policy →
  index_inv (store_record_raw e q sc (new_record e q sc n) s).
Proof.
  intros Hi He Hp Hb. pose proof (fresh_not_listed e s) as Hnl. unfold fresh_id in He.
  set (fid := new_file_id e) in *. set (r := new_record e q sc n).
  assert (f_id r = fid) as Hid by done. assert (f_scope r = q_scope q) as Hsc by done.
  assert (∀ x rx, dget x (as_files s) = Some rx → x ≠ fid) as Hne by (intros x rx Hx ->; congruence).
  unfold store_record_raw. rewrite Hid. split; cbn [as_files as_by_session as_content as_access].
  - apply dict_wf_dset, Hi.
  - apply dict_wf_dset, Hi.
  - destruct sc; [apply dict_wf_dset|]; apply Hi.
  - intros x rx. rewrite dget_dset. case_decide; [intros [= <-]; subst; split; [done|by exists p]|by apply Hi].
  - intros sc'. rewrite session_ids_set. case_decide; [|apply Hi].
    apply NoDup_app. split_and!; [apply Hi| |apply NoDup_singleton].
    intros x Hx ->%list_elem_of_singleton. by eapply Hnl.
  - intros sc' x. rewrite session_ids_set, dget_dset. intros Hx. case_decide as Hs.
    + apply elem_of_app in Hx as [Hx| ->%list_elem_of_singleton].
      * destruct (ix_listed s Hi _ _ Hx) as (rx & Hrx & Hsx). rewrite decide_False by eauto. exists rx. by subst.
      * rewrite decide_True by done. exists r. by subst.
    + destruct (ix_listed s Hi _ _ Hx) as (rx & Hrx & Hsx). rewrite decide_False by eauto. by exists rx.
  - intros x c Hx. rewrite dget_dset. destruct (decide (x = fid)) as [->|Hxf].
    + destruct sc; [|exfalso; destruct (ix_current s Hi _ _ Hx) as (? & ? & _); congruence].
      rewrite dget_dset_eq in Hx. simplify_eq. exists r. rewrite session_ids_set, Hsc, decide_True by done.
      split_and!; [done|set_solver|done|done].
    + assert (dget x (as_content s) = Some c) as Hx' by (destruct sc; [by rewrite dget_dset_ne in Hx|done]).
      destruct (ix_current s Hi _ _ Hx') as (rx & ? & Hin & ? & ?). exists rx. rewrite session_ids_set.
      split_and!; [done| |done|done]. case_decide as Hsx; [|exact Hin]. rewrite <-Hsx. set_solver.
  - intros x. destruct sc; rewrite ?dget_dset; [|apply Hi]. case_decide; [|apply Hi]. split; eauto.
Qed.

Lemma store_record_is_raw e q sc n p s :
  index_inv s → fresh_id e s → safe_relative_path p policy = Ok n → blen (q_content q) ≤ ap_maxFileBytes policy →
  store_record policy e q sc (new_record e q sc n) s = store_record_raw e q sc (new_record e q sc n) s.
Proof.
  intros Hi He Hp Hb. pose proof (store_record_raw_inv e q sc n p s Hi He Hp Hb) as Hr.
  unfold store_record. destruct sc; [|done]. rewrite evict_nothing; [done|]. exact (index_no_victims _ Hr).
Qed.

(** The outcomes of [register]. *)
Lemma register_outcome e q sc pub s :
  index_inv s → fresh_id e s →
  (∃ n, safe_relative_path (q_relative_path q) policy = Ok n ∧ blen (q_content q) ≤ ap_maxFileBytes policy ∧
    (pub = true ∨ Z.of_nat (length (session_ids (q_scope q) s)) < ap_maxFiles policy) ∧
    register policy e q sc pub s =
      (store_record_raw e q sc (new_record e q sc n) s, Ok (new_record e q sc n))) ∨
  (∃ x, register policy e q sc pub s = (s, Raise x) ∧
    ((safe_relative_path (q_relative_path q) policy = Raise x) ∨
     (x = ArtifactPathRejected "file_too_large" ∧ ap_maxFileBytes policy < blen (q_content q)) ∨
     (x = ArtifactQuotaExceeded "maxFiles" ∧ pub = false ∧
      ap_maxFiles policy ≤ Z.of_nat (length (session_ids (q_scope q) s))))).
Proof.
  intros Hi He. unfold register, mbind, M_bind, lift, guard_or, gets, modify, mret, M_ret.
  destruct (safe_relative_path (q_relative_path q) policy) as [n|x] eqn:Ep; [|right; exists x; auto].
  destruct (Z.leb_spec (blen (q_content q)) (ap_maxFileBytes policy)) as [Hb|Hb]; cbn [ensure]; [|right; eauto 6].
  destruct pub; cbn [orb ensure].
  - left. exists n. split_and!; [done|done|by left|]. by erewrite store_record_is_raw.
  - destruct (Z.ltb_spec (Z.of_nat (length (session_ids (q_scope q) s))) (ap_maxFiles policy)) as [Hq|Hq];
      cbn [ensure]; [|right; eexists; split; [done|]; auto].
    left. exists n. split_and!; [done|done|by right|]. by erewrite store_record_is_raw.
Qed.

(** The listed version of a path and owner, as a test on ids. *)
Definition version_of (s : ArtifactStore) (n owner fid : string) : bool :=
  match dget fid (as_files s) with
  | Some r => bool_decide (f_relativePath r = n) && bool_decide (f_ownerPrincipalId r = owner)
  | None => false
  end.

Definition versions (s : ArtifactStore) (q : file_request) (n : string) : list string :=
  keep (version_of s n (q_owner_principal_id q)) (session_ids (q_scope q) s).

Lemma matching_ids_versions n o ids s :
  (∀ fid, fid ∈ ids → is_Some (dget fid (as_files s))) →
  matching_ids n o ids s = Ok (keep (version_of s n o) ids).
Proof.
  induction ids as [|fid ids IH]; intros Hin; cbn [matching_ids keep]; [done|].
  destruct (Hin fid) as [r Hr]; [by left|]. unfold file_at, version_of at 1. rewrite Hr. cbn.
  rewrite IH; [|by intros; apply Hin; right]. cbn. by case_match.
Qed.

Lemma files_at_Ok ids s :
  (∀ fid, fid ∈ ids → is_Some (dget fid (as_files s))) →
  ∃ rs, files_at ids s = Ok rs ∧ Forall2 (λ fid r, dget fid (as_files s) = Some r) ids rs.
Proof.
  induction ids as [|fid ids IH]; intros Hin; cbn [files_at]; [by exists []|].
  destruct (Hin fid) as [r Hr]; [by left|]. destruct IH as (rs & Hrs & Hall); [by intros; apply Hin; right|].
  exists (r :: rs). unfold file_at. rewrite Hr. cbn. rewrite Hrs. cbn. split; [done|by constructor].
Qed.

Lemma index_listed_some s sc fid : index_inv s → fid ∈ session_ids sc s → is_Some (dget fid (as_files s)).
Proof. intros Hi Hin. destruct (ix_listed s Hi _ _ Hin) as (r & Hr & _). eauto. Qed.

Lemma supersede_eq sc m s :
  supersede sc m s =
  mkArtifactStore (as_files s)
    (dset sc (keep (λ fid, negb (bool_decide (fid ∈ m))) (session_ids sc s)) (as_by_session s))
    (ddel_all m (as_content s)) (ddel_all m (as_access s)).
Proof. done. Qed.

Lemma supersede_inv sc m s : index_inv s → (∀ fid, fid ∈ m → fid ∈ session_ids sc s) → index_inv (supersede sc m s).
Proof.
  intros Hi Hm. rewrite supersede_eq. split; cbn [as_files as_by_session as_content as_access].
  - apply Hi.
  - apply dict_wf_dset, Hi.
  - apply dict_wf_ddel_all, Hi.
  - apply Hi.
  - intros sc'. rewrite session_ids_set. case_decide; [|apply Hi]. rewrite <-(list_fmap_id (keep _ _)).
    apply keep_NoDup_fmap. rewrite list_fmap_id. apply Hi.
  - intros sc' fid. rewrite session_ids_set. case_decide; [|apply Hi]. intros [_ Hin]%elem_of_keep. subst. by apply Hi.
  - intros fid c. rewrite dget_ddel_all. case_decide as Hnm; [done|]. intros Hc.
    destruct (ix_current s Hi _ _ Hc) as (r & ? & Hin & ? & ?). exists r. rewrite session_ids_set. split_and!; [done| |done|done].
    case_decide as Hs; [|exact Hin]. apply elem_of_keep. rewrite bool_decide_eq_false_2 by done. rewrite <-Hs. done.
  - intros fid. rewrite !dget_ddel_all. case_decide; [|apply Hi]. split; intros []; done.
Qed.

Lemma supersede_nil e q r s : supersede (q_scope q) [] (store_record_raw e q true r s) = store_record_raw e q true r s.
Proof.
  rewrite supersede_eq. unfold store_record_raw. cbn [as_files as_by_session as_content as_access]. rewrite keep_all by (intros; by rewrite bool_decide_eq_false_2 by set_solver).
  unfold session_ids at 1. cbn. rewrite dget_dset_eq. cbn [default]. by rewrite dset_dset.
Qed.

Definition published (e : fresh) (q : file_request) (n : string) (s : ArtifactStore) : ArtifactStore :=
  supersede (q_scope q) (versions s q n) (store_record_raw e q true (new_record e q true n) s).

(** The outcomes of [register_produced]. *)
Inductive produced_outcome (e : fresh) (q : file_request) (s : ArtifactStore) : ArtifactStore → result (FileRecord * bool) → Prop :=
  | produced_unchanged n fid r :
      safe_relative_path (q_relative_path q) policy = Ok n → last (versions s q n) = Some fid →
      dget fid (as_files s) = Some r → unchanged q n r = true →
      produced_outcome e q s s (Ok (r, false))
  | produced_new n :
      safe_relative_path (q_relative_path q) policy = Ok n → blen (q_content q) ≤ ap_maxFileBytes policy →
      Z.of_nat (length (session_ids (q_scope q) s)) - Z.of_nat (length (versions s q n)) + 1 ≤ ap_maxPublishFiles policy →
      (∀ fid r, last (versions s q n) = Some fid → dget fid (as_files s) = Some r → unchanged q n r = false) →
      produced_outcome e q s (published e q n s) (Ok (new_record e q true n, true))
  | produced_full n :
      safe_relative_path (q_relative_path q) policy = Ok n →
      ap_maxPublishFiles policy < Z.of_nat (length (session_ids (q_scope q) s)) - Z.of_nat (length (versions s q n)) + 1 →
      produced_outcome e q s s (Raise (ArtifactQuotaExceeded "maxPublishFiles"))
  | produced_rejected msg : produced_outcome e q s s (Raise (ArtifactPathRejected msg)).

Lemma ensure_rejected {A} (b : bool) msg (k : result A) :
  (∀ x, k = Raise x → ∃ m, x = ArtifactPathRejected m) →
  ∀ x, (ensure b (ArtifactPathRejected msg) ≫= λ _, k) = Raise x → ∃ m, x = ArtifactPathRejected m.
Proof. intros Hk x. destruct b; cbn; [apply Hk|]. intros [= <-]. eauto. Qed.

Lemma normalize_policy_root_rejected p x : normalize_policy_root p = Raise x → ∃ msg, x = ArtifactPathRejected msg.
Proof. revert x. unfold normalize_policy_root. do 3 (apply ensure_rejected). done. Qed.

Lemma normalized_policy_roots_rejected roots x :
  normalized_policy_roots roots = Raise x → ∃ msg, x = ArtifactPathRejected msg.
Proof.
  induction roots as [|r roots IH]; cbn; [done|].
  destruct (normalize_policy_root r) as [n|y] eqn:E; cbn; [|intros [= <-]; by eapply normalize_policy_root_rejected].
  destruct (normalized_policy_roots roots) as [ns|y] eqn:E2; cbn; [done|]. intros [= <-]. by apply IH.
Qed.

Lemma excluded_rejected n l x :
  iter_result (λ prefix, ensure (negb (path_matches_root n prefix))
    (ArtifactPathRejected ("excluded_prefix: " +:+ prefix))) l = Raise x → ∃ msg, x = ArtifactPathRejected msg.
Proof.
  revert x. induction l as [|p l IH]; [done|]. cbn [iter_result]. by apply ensure_rejected.
Qed.

Lemma safe_relative_path_rejected p x : safe_relative_path p policy = Raise x → ∃ msg, x = ArtifactPathRejected msg.
Proof.
  unfold safe_relative_path. destruct (normalize_candidate_path p) as [n|y] eqn:E1; cbn [mbind result_bind].
  2: { intros [= <-]. revert y E1. unfold normalize_candidate_path. do 3 (apply ensure_rejected). done. }
  destruct (normalized_policy_roots (ap_includeRoots policy)) as [ns|y] eqn:E2; cbn [mbind result_bind];
    [|intros [= <-]; by eapply normalized_policy_roots_rejected].
  revert x. do 2 (apply ensure_rejected). intros x.
  destruct (normalized_policy_roots (ap_excludePrefixes policy)) as [xs|y] eqn:E3; cbn [mbind result_bind];
    [|intros [= <-]; by eapply normalized_policy_roots_rejected].
  destruct (iter_result _ xs) as [u|y] eqn:E4; cbn; [done|]. intros [= <-]. by eapply excluded_rejected.
Qed.

Lemma register_produced_outcome e q s s' res :
  index_inv s → fresh_id e s → register_produced policy e q s = (s', res) → produced_outcome e q s s' res.
Proof.
  intros Hi He. unfold register_produced, mbind at 1, M_bind, lift.
  destruct (safe_relative_path (q_relative_path q) policy) as [n|x] eqn:Ep;
    [|destruct (safe_relative_path_rejected _ _ Ep) as [msg ->]; intros [= <- <-]; constructor].
  unfold mbind at 1, M_bind, gets. unfold mbind at 1, M_bind.
  rewrite matching_ids_versions by (intros; by eapply index_listed_some). fold (versions s q n).
  assert (∀ fid, fid ∈ versions s q n → fid ∈ session_ids (q_scope q) s) as Hvs by (by intros fid [_ ?]%elem_of_keep).
  assert ((∃ fid r, last (versions s q n) = Some fid ∧ dget fid (as_files s) = Some r ∧ unchanged q n r = true) ∨
          (∀ fid r, last (versions s q n) = Some fid → dget fid (as_files s) = Some r → unchanged q n r = false)) as Hu.
  { destruct (last (versions s q n)) as [fid|] eqn:El; [|right; by intros].
    destruct (dget fid (as_files s)) as [r|] eqn:Er; [|right; intros; congruence].
    destruct (unchanged q n r) eqn:Eu; [left; eauto|right; intros; congruence]. }
  unfold mbind at 1, M_bind. destruct Hu as [(fid & r & El & Er & Eu)|Hu].
  { rewrite El. unfold file_at. rewrite Er. cbn. rewrite Eu. intros [= <- <-]. by eapply produced_unchanged. }
  assert ((match last (versions s q n) with
    | Some fid => current ← file_at fid s; Ok (if unchanged q n current then Some current else None)
    | None => Ok None end) = Ok None) as ->.
  { destruct (last (versions s q n)) as [fid|] eqn:El; [|done].
    assert (fid ∈ versions s q n) as Hin by (apply last_Some in El as [l ->]; set_solver).
    destruct (index_listed_some s _ fid Hi (Hvs _ Hin)) as [r Hr]. unfold file_at. rewrite Hr. cbn. by rewrite (Hu fid r). }
  unfold mbind at 1, M_bind, guard_or.
  destruct (Z.leb_spec (Z.of_nat (length (session_ids (q_scope q) s)) - Z.of_nat (length (versions s q n)) + 1)
    (ap_maxPublishFiles policy)) as [Hq|Hq]; cbn [ensure]; [|intros [= <- <-]; by eapply produced_full].
  unfold mbind at 1, M_bind.
  destruct (register_outcome e (q <| q_relative_path := n |>) true true s Hi He)
    as [(m & Hm & Hb & _ & ->)|(x & -> & Hx)].
  - apply safe_relative_path_Ok in Ep as Hadm. apply safe_relative_path_Ok in Hm as Hadm2.
    assert (m = n) as ->.
    { destruct Hadm as (Hv & _ & _ & -> & _). destruct Hadm2 as (Hv2 & _ & _ & -> & _). cbn.
      apply (normpath_valid _ Hv), Hv2. }
    unfold mbind, M_bind, modify, mret, M_ret. intros [= <- <-].
    match goal with |- produced_outcome _ _ _ ?t _ => replace t with (published e q n s) end;
      [exact (produced_new e q s n Ep Hb Hq Hu)|].
    unfold published. destruct (versions s q n); [by rewrite supersede_nil|done].
  - intros [= <- <-]. destruct Hx as [Hx|[[-> _]|[_ [? _]]]]; [|constructor|done].
    destruct (safe_relative_path_rejected _ _ Hx) as [msg ->]. constructor.
Qed.

Lemma published_eq e q n s :
  published e q n s =
  mkArtifactStore (dset (new_file_id e) (new_record e q true n) (as_files s))
    (dset (q_scope q) (keep (λ fid, negb (bool_decide (fid ∈ versions s q n))) (session_ids (q_scope q) s ++ [new_file_id e]))
       (as_by_session s))
    (ddel_all (versions s q n) (dset (new_file_id e) (q_content q) (as_content s)))
    (ddel_all (versions s q n) (dset (new_file_id e) (fr_mono e) (as_access s))).
Proof.
  unfold published. rewrite supersede_eq. unfold store_record_raw.
  cbn [as_files as_by_session as_content as_access]. unfold session_ids at 1. cbn [as_by_session].
  by rewrite dget_dset_eq, dset_dset.
Qed.

(** The listing after a publication: the other entries in order, then the new version. *)
Lemma published_ids e q n s : index_inv s → fresh_id e s →
  session_ids (q_scope q) (published e q n s) =
  keep (λ fid, negb (version_of s n (q_owner_principal_id q) fid)) (session_ids (q_scope q) s) ++ [new_file_id e].
Proof.
  intros Hi He. rewrite published_eq, session_ids_set, decide_True by done. rewrite keep_app. f_equal.
  - apply keep_ext. intros fid Hin. f_equal. apply eq_bool_prop_intro. rewrite bool_decide_spec.
    unfold versions. rewrite elem_of_keep. rewrite Is_true_true. naive_solver.
  - apply keep_all. intros x ->%list_elem_of_singleton. rewrite bool_decide_eq_false_2; [done|].
    intros [_ Hin]%elem_of_keep. by eapply fresh_not_listed.
Qed.

Lemma length_keep_split {A} (p : A → bool) l : (length (keep p l) + length (keep (λ x, negb (p x)) l) = length l)%nat.
Proof. induction l as [|x l IH]; simpl; [done|]. destruct (p x); simpl; lia. Qed.

Lemma published_inv e q n s :
  artifact_inv s → fresh_id e s → safe_relative_path (q_relative_path q) policy = Ok n →
  blen (q_content q) ≤ ap_maxFileBytes policy →
  Z.of_nat (length (session_ids (q_scope q) s)) - Z.of_nat (length (versions s q n)) + 1 ≤ ap_maxPublishFiles policy →
  artifact_inv (published e q n s).
Proof.
  intros [Hi Hq] He Hp Hb Hc. split.
  - unfold published. apply supersede_inv; [by eapply store_record_raw_inv|].
    intros fid [_ Hin]%elem_of_keep. unfold store_record_raw. rewrite session_ids_set, decide_True by done. set_solver.
  - intros sc. destruct (decide (sc = q_scope q)) as [->|Hne].
    + rewrite published_ids by done. rewrite length_app. simpl.
      pose proof (length_keep_split (version_of s n (q_owner_principal_id q)) (session_ids (q_scope q) s)).
      unfold versions in Hc. lia.
    + rewrite published_eq, session_ids_set, decide_False by done. apply Hq.
Qed.

Lemma register_inv e q sc s : artifact_inv s → fresh_id e s → artifact_inv (register policy e q sc false s).1.
Proof.
  intros [Hi Hq] He.
  destruct (register_outcome e q sc false s Hi He) as [(n & Hp & Hb & [?|Hm] & ->)|(x & -> & _)]; [done| |done].
  split; [by eapply store_record_raw_inv|]. intros sc'. cbn [fst]. unfold store_record_raw. rewrite session_ids_set.
  case_decide; [rewrite length_app; simpl; lia|]. apply Hq.
Qed.

Lemma register_produced_inv e q s : artifact_inv s → fresh_id e s → artifact_inv (register_produced policy e q s).1.
Proof.
  intros Ha He. destruct (register_produced policy e q s) as [s' r] eqn:E.
  apply register_produced_outcome in E; [|apply Ha|done]. destruct E; try done. by apply published_inv.
Qed.

Lemma elem_scope_files sc fid s : dict_wf (as_files s) →
  fid ∈ scope_files sc s ↔ ∃ r, dget fid (as_files s) = Some r ∧ f_scope r = sc.
Proof.
  intros Hw. unfold scope_files. rewrite list_elem_of_fmap. split.
  - intros ([k r] & -> & [Hs Hin]%elem_of_keep). bsimp. exists r. split; [by apply elem_dget|done].
  - intros (r & Hr & Hs). exists (fid, r). split; [done|]. apply elem_of_keep. split; [by apply bool_decide_eq_true|].
    by apply dget_Some_elem.
Qed.

Lemma session_ids_delete sc sc' s :
  session_ids sc' (delete_session sc s) = if decide (sc' = sc) then [] else session_ids sc' s.
Proof. unfold session_ids, delete_session. cbn. rewrite dget_ddel. by case_decide. Qed.

Lemma delete_session_inv sc s : artifact_inv s → artifact_inv (delete_session sc s).
Proof.
  intros [Hi Hq]. pose proof (elem_scope_files sc) as Hsf. split.
  - split.
    + apply dict_wf_ddel_all, Hi.
    + apply dict_wf_ddel, Hi.
    + apply dict_wf_ddel_all, Hi.
    + cbn. intros fid r. rewrite dget_ddel_all. case_decide; [done|apply Hi].
    + intros sc'. rewrite session_ids_delete. case_decide; [constructor|apply Hi].
    + intros sc' fid. rewrite session_ids_delete. case_decide as Hs; [set_solver|]. intros Hin. cbn.
      destruct (ix_listed s Hi _ _ Hin) as (r & Hr & Hsr). exists r. rewrite dget_ddel_all, decide_False; [done|].
      rewrite Hsf by apply Hi. intros (r' & ? & ?). congruence.
    + intros fid c. unfold delete_session at 1 2. cbn [as_content as_files]. rewrite !dget_ddel_all.
      case_decide as Hn; [done|]. intros Hc.
      destruct (ix_current s Hi _ _ Hc) as (r & Hr & Hin & ?). exists r. rewrite session_ids_delete, decide_False; [done|].
      intros Hs. apply Hn, Hsf; [apply Hi|]. eauto.
    + cbn. intros fid. rewrite !dget_ddel_all. case_decide; [|apply Hi]. split; intros []; done.
  - intros sc'. rewrite session_ids_delete. case_decide; [simpl; lia|apply Hq].
Qed.

Lemma touch_inv mono fid s : artifact_inv s → artifact_inv (touch mono fid s).
Proof.
  intros [Hi Hq]. unfold touch. destruct (dmem fid (as_content s)) eqn:E; [|done]. split; [|done].
  destruct Hi. split; try done. cbn. intros x. rewrite dget_dset. case_decide; [|done]. subst.
  unfold dmem in E. destruct (dget fid (as_content s)); [|done]. split; eauto.
Qed.

Lemma get_inv mono fid owner s : artifact_inv s → artifact_inv (get mono fid owner s).1.
Proof.
  intros Ha. unfold get. destruct (dget fid (as_files s)) as [r|]; [|done].
  destruct (match owner with Some o => _ | None => _ end); [done|]. by apply touch_inv.
Qed.

Lemma read_content_state mono fid owner s : (read_content mono fid owner s).1 = (get mono fid owner s).1.
Proof.
  unfold read_content, mbind, M_bind, gets, mret, M_ret, raise. destruct (get mono fid owner s) as [s' [r|x]]; [|done].
  by destruct (dget (f_id r) (as_content s')).
Qed.

(** ** Histories of the store *)

Inductive artifact_call :=
  | Upload (e : fresh) (q : file_request) (store_content : bool)
  | Publish (e : fresh) (q : file_request)
  | DeleteSession (sc : scope)
  | Get (mono : spec_float) (fid : string) (owner : option string)
  | ReadContent (mono : spec_float) (fid : string) (owner : option string).

Definition run_call (c : artifact_call) (s : ArtifactStore) : ArtifactStore :=
  match c with
  | Upload e q sc => (register policy e q sc false s).1
  | Publish e q => (register_produced policy e q s).1
  | DeleteSession sc => delete_session sc s
  | Get mono fid owner => (get mono fid owner s).1
  | ReadContent mono fid owner => (read_content mono fid owner s).1
  end.

(** The random identifiers do not repeat. *)
Definition call_fresh (c : artifact_call) (s : ArtifactStore) : Prop :=
  match c with Upload e _ _ | Publish e _ => fresh_id e s | _ => True end.

Inductive artifact_reachable : ArtifactStore → Prop :=
  | reach_init : artifact_reachable ArtifactStore_init
  | reach_call c s : artifact_reachable s → call_fresh c s → artifact_reachable (run_call c s).

Lemma artifact_init_inv : artifact_inv ArtifactStore_init.
Proof.
  split; [split|]; try apply dict_wf_nil; try by intros.
  - intros sc. constructor.
  - intros sc fid. unfold session_ids. cbn. set_solver.
  - intros fid. split; intros []; done.
  - intros sc. unfold session_ids. cbn. lia.
Qed.

Lemma reachable_inv s : artifact_reachable s → artifact_inv s.
Proof.
  induction 1 as [|c s Hs IH Hf]; [apply artifact_init_inv|]. destruct c; cbn in *.
  - by apply register_inv.
  - by apply register_produced_inv.
  - by apply delete_session_inv.
  - by apply get_inv.
  - rewrite read_content_state. by apply get_inv.
Qed.
End invariant.

Section claims.
Context `{Sha256} `{MimeTypes} (policy : ArtifactPolicy).

(** C38: After any sequence of uploads, publications, deletions and reads, every listing resolves
    (no missing record) to records of its own session, each with an accepted path; no listing exceeds the larger of
    the two file quotas; and every held snapshot belongs to a listed version and has the
    recorded size within the limit. *)
Theorem artifact_index_consistent s :
  artifact_reachable policy s →
  (∀ sc, ∃ rs, list_files sc None s = Ok rs ∧ f_id <$> rs = session_ids sc s ∧ NoDup (session_ids sc s) ∧
    Forall (λ r, f_scope r = sc ∧ ∃ p, path_admitted policy p (f_relativePath r)) rs) ∧
  (∀ sc, Z.of_nat (length (session_ids sc s)) ≤ Z.max 0 (Z.max (ap_maxFiles policy) (ap_maxPublishFiles policy))) ∧
  (∀ fid c, dget fid (as_content s) = Some c →
    ∃ r, dget fid (as_files s) = Some r ∧ fid ∈ session_ids (f_scope r) s ∧ f_bytes r = blen c ∧
         blen c ≤ ap_maxFileBytes policy).
Proof.
  intros [Hi Hq]%reachable_inv. split_and!; [|apply Hq|apply Hi].
  intros sc. destruct (files_at_Ok (session_ids sc s) s) as (rs & Hrs & Hall); [by intros; eapply index_listed_some|].
  exists rs. unfold list_files. rewrite Hrs. split_and!; [done| |apply Hi|].
  - clear Hrs. induction Hall as [|fid r fids rs Hr Hall IH]; [done|]. cbn. rewrite IH. f_equal.
    by apply (ix_keyed policy s Hi) in Hr as [? _].
  - apply Forall_forall. intros r (i & Hin)%list_elem_of_lookup.
    destruct (Forall2_lookup_r _ _ _ _ _ Hall Hin) as (fid & Hfid & Hr).
    apply list_elem_of_lookup_2 in Hfid. destruct (ix_listed policy s Hi _ _ Hfid) as (r' & Hr' & Hs).
    destruct (ix_keyed policy s Hi _ _ Hr) as (_ & p & Hp%safe_relative_path_Ok). split; [congruence|eauto].
Qed.

(** Publishing a produced file either raises and changes nothing, or finds the latest version of that
    path and owner with the same digest and media type and changes nothing, or replaces it: the
    listing keeps every other entry in order and ends with the new version, whose bytes its
    owner can read; the replaced versions stay readable as metadata but their bytes are
    gone; other sessions and other snapshots are as before. *)
Theorem publish_replaces_version e q s s' res mono :
  artifact_reachable policy s → fresh_id e s → register_produced policy e q s = (s', res) →
  match res with
  | Raise _ => s' = s
  | Ok (r, false) =>
      s' = s ∧ f_id r ∈ session_ids (q_scope q) s ∧ dget (f_id r) (as_files s) = Some r ∧
      f_ownerPrincipalId r = q_owner_principal_id q ∧ f_sha256 r = sha256_hex (q_content q)
  | Ok (r, true) =>
      ∃ n, safe_relative_path (q_relative_path q) policy = Ok n ∧ r = new_record e q true n ∧
      session_ids (q_scope q) s' =
        keep (λ fid, negb (version_of s n (q_owner_principal_id q) fid)) (session_ids (q_scope q) s) ++ [f_id r] ∧
      (read_content mono (f_id r) (Some (q_owner_principal_id q)) s').2 = Ok (q_content q) ∧
      (∀ fid, fid ∈ versions s q n →
        (get mono fid None s').2 = (get mono fid None s).2 ∧
        (read_content mono fid None s').2 = Raise (ArtifactNotFoundError fid)) ∧
      (∀ sc, sc ≠ q_scope q → session_ids sc s' = session_ids sc s) ∧
      (∀ fid, fid ∉ f_id r :: versions s q n →
        dget fid (as_content s') = dget fid (as_content s) ∧ dget fid (as_files s') = dget fid (as_files s))
  end.
Proof.
  intros [Hi _]%reachable_inv He Hr. apply (register_produced_outcome policy) in Hr; [|done|done].
  destruct Hr as [n fid r Hp Hl Hf Hu|n Hp Hb Hq Hu| |]; [| |done|done].
  - assert (fid ∈ versions s q n) as [Hv Hin]%elem_of_keep by (apply last_Some in Hl as [l ->]; set_solver).
    destruct (ix_keyed policy s Hi _ _ Hf) as [-> _]. unfold version_of in Hv. rewrite Hf in Hv. unfold unchanged in Hu.
    by bsimp.
  - exists n. rewrite (published_ids policy e q n s Hi He). change (f_id (new_record e q true n)) with (new_file_id e).
    assert (new_file_id e ∉ versions s q n) as Hnv.
    { intros [_ Hin]%elem_of_keep. by eapply fresh_not_listed. }
    rewrite published_eq. split_and!; [done|done|done| | | |].
    + unfold read_content, get, touch, dmem, mbind, M_bind, gets. cbn. rewrite dget_dset_eq. cbn.
      rewrite bool_decide_eq_true_2 by done. cbn. rewrite dget_ddel_all, decide_False, dget_dset_eq by done. cbn.
      by rewrite dget_ddel_all, decide_False, dget_dset_eq.
    + intros fid Hv. assert (fid ≠ new_file_id e) as Hne by congruence.
      apply elem_of_keep in Hv as Hin. destruct (index_listed_some policy s _ fid Hi (proj2 Hin)) as [r Hr].
      unfold read_content, get, touch, dmem, mbind, M_bind, gets. cbn. rewrite dget_dset_ne, Hr by done. cbn.
      rewrite dget_ddel_all, decide_True by done. cbn. destruct (ix_keyed policy s Hi _ _ Hr) as [-> _].
      by rewrite dget_ddel_all, decide_True.
    + intros sc Hsc. by rewrite session_ids_set, decide_False.
    + intros fid [Hne Hnm]%not_elem_of_cons. cbn. by rewrite dget_ddel_all, decide_False, !dget_dset_ne.
Qed.

(** Deleting a session's artifacts empties its listing and makes each of its records, current or
    superseded, indistinguishable from a missing one, bytes included; records, bytes and
    listings of every other session (another app or user with the same session id included)
    are as before. *)
Theorem delete_session_artifacts_scoped sc s :
  artifact_reachable policy s →
  let s' := delete_session sc s in
  session_ids sc s' = [] ∧
  (∀ fid r, dget fid (as_files s) = Some r → f_scope r = sc →
    (∀ mono owner, get mono fid owner s' = (s', Raise (ArtifactNotFoundError fid))) ∧ dget fid (as_content s') = None) ∧
  (∀ fid r, dget fid (as_files s) = Some r → f_scope r ≠ sc →
    dget fid (as_files s') = Some r ∧ dget fid (as_content s') = dget fid (as_content s)) ∧
  (∀ sc', sc' ≠ sc → session_ids sc' s' = session_ids sc' s).
Proof.
  intros [Hi _]%reachable_inv. pose proof (λ fid, elem_scope_files sc fid s (ix_files_wf policy s Hi)) as Hsf.
  cbv zeta. split_and!.
  - by rewrite session_ids_delete, decide_True.
  - intros fid r Hr Hs. assert (fid ∈ scope_files sc s) as Hin by (apply Hsf; eauto).
    unfold get, delete_session. cbn. by rewrite !dget_ddel_all, !decide_True.
  - intros fid r Hr Hs. assert (fid ∉ scope_files sc s) as Hin by (rewrite Hsf; intros (? & ? & ?); congruence).
    unfold delete_session. cbn. by rewrite !dget_ddel_all, !decide_False.
  - intros sc' Hne. by rewrite session_ids_delete, decide_False.
Qed.

(** In every store the calls can build, no held snapshot is evictable, so the eviction call after
    a registration returns the store as it is, whatever the number of bytes held: the content
    ceiling never limits what the store holds. *)
Theorem content_ceiling_never_evicts s :
  artifact_reachable policy s → victims s = [] ∧ evict_if_needed policy s = s.
Proof.
  intros [Hi _]%reachable_inv. split; [by eapply index_no_victims|]. by eapply evict_nothing, index_no_victims.
Qed.
End claims.

(** ** A concrete history *)

Module ArtifactExamples.

#[local] Instance toy_sha : Sha256 := λ c, c.
#[local] Instance toy_mime : MimeTypes := λ _, None.

(** Four bytes of content at most, two files per session. *)
Definition tiny : ArtifactPolicy := mkArtifactPolicy ["output"] [".git"] 2 2 100 4 false.

Definition req (path content : string) : file_request := mkFileRequest "s1" path content "inv" "alice" None "app" "u1".
Definition fr (hex : string) (t : Z) : fresh := mkFresh hex t (float_of_Z t).

Definition one_file : ArtifactStore := run_call tiny (Upload (fr "a" 1) (req "output/in.txt" "abc") true) ArtifactStore_init.
Definition two_files : ArtifactStore := run_call tiny (Publish (fr "b" 2) (req "output/out.txt" "defg")) one_file.

Lemma two_files_reachable : artifact_reachable tiny two_files.
Proof. repeat (apply reach_call; [|vm_compute; reflexivity]). apply reach_init. Qed.

Lemma artifact_path_confined_witness :
  safe_relative_path "output/./a/../b.txt" tiny = Ok "output/b.txt" ∧
  safe_relative_path "output/b.txt" tiny = Ok "output/b.txt" ∧
  safe_relative_path "output_secret/b.txt" tiny = Raise (ArtifactPathRejected "outside_include_roots").
Proof.
  assert (safe_relative_path "output/./a/../b.txt" tiny = Ok "output/b.txt") as Hs by (vm_compute; reflexivity).
  split; [exact Hs|]. split; [|vm_compute; reflexivity].
  apply (proj2 (artifact_path_confined tiny "output/./a/../b.txt" "output/b.txt") Hs). vm_compute; reflexivity.
Defined.

Lemma artifact_index_consistent_witness : ∃ rs, list_files ("app", "u1", "s1") None two_files = Ok rs ∧ length rs = 2%nat.
Proof.
  destruct (artifact_index_consistent tiny two_files two_files_reachable) as [Hl _].
  destruct (Hl ("app", "u1", "s1")) as (rs & Hrs & Hid & _). exists rs. split; [exact Hrs|].
  apply (f_equal length) in Hid. rewrite length_fmap in Hid. exact Hid.
Defined.

Lemma publish_replaces_version_witness :
  let e := fr "c" 3 in let q := req "output/out.txt" "hi" in
  let s' := (register_produced tiny e q two_files).1 in
  session_ids ("app", "u1", "s1") s' = ["file_a"; "file_c"] ∧
  (read_content (float_of_Z 9) "file_b" None s').2 = Raise (ArtifactNotFoundError "file_b").
Proof.
  intros e q s'. assert (fresh_id e two_files) as He by (vm_compute; reflexivity).
  destruct (publish_replaces_version tiny e q two_files s' (Ok (new_record e q true "output/out.txt", true)) (float_of_Z 9)
    two_files_reachable He) as (n & Hn & _ & Hids & _ & Hold & _); [vm_compute; reflexivity|].
  assert (n = "output/out.txt") as -> by (vm_compute in Hn; congruence).
  split; [etransitivity; [exact Hids|vm_compute; reflexivity]|]. apply Hold. vm_compute. left.
Defined.

Lemma delete_session_artifacts_scoped_witness :
  get (float_of_Z 5) "file_b" None (delete_session ("app", "u1", "s1") two_files) =
    (delete_session ("app", "u1", "s1") two_files, Raise (ArtifactNotFoundError "file_b")) ∧
  dget "file_b" (as_files (delete_session ("app", "u2", "s1") two_files)) = dget "file_b" (as_files two_files).
Proof.
  destruct (dget "file_b" (as_files two_files)) as [r|] eqn:Hr; [|vm_compute in Hr; discriminate].
  assert (f_scope r = ("app", "u1", "s1")) as Hs by (vm_compute in Hr; injection Hr as <-; reflexivity).
  split.
  - apply (delete_session_artifacts_scoped tiny ("app", "u1", "s1") two_files two_files_reachable) with r; assumption.
  - apply (delete_session_artifacts_scoped tiny ("app", "u2", "s1") two_files two_files_reachable); [assumption|].
    rewrite Hs. congruence.
Defined.

(** Seven bytes are held under a ceiling of four, and nothing is evictable. *)
Lemma content_ceiling_never_evicts_witness :
  evict_if_needed tiny two_files = two_files ∧ total_bytes (as_content two_files) = 7 ∧ ap_maxContentBytes tiny = 4.
Proof.
  split; [apply (content_ceiling_never_evicts tiny two_files two_files_reachable)|]. split; vm_compute; reflexivity.
Defined.

End ArtifactExamples.
