(* ===== verification/RuntimeTokens.v ===== *)
(** * Runtime tokens of the model proxy (haas/model_proxy/token.py)

    Short-lived bearer tokens that name the session they were issued for.  The manager keeps
    one scope object per token; only its own methods assign to those objects, so the table
    holds their values.  Clock readings and nonces are arguments. *)

From Stdlib Require Import Ascii.
From S2P Require Import Prelude Errors Dict PyVal Encoding.

#[local] Open Scope string_scope.
#[local] Open Scope list_scope.
#[local] Open Scope Z_scope.

Record RuntimeTokenScope := mkScope {
  ts_audience : string; ts_sessionId : string; ts_invocationId : string; ts_harnessId : string;
  ts_providerScopeKey : string; ts_generation : Z; ts_issuedAtMs : Z; ts_allowedModels : list string;
  ts_expiresAtMs : Z;
}.
#[export] Instance eta_token_scope : Eta RuntimeTokenScope := λ r,
  mkScope (ts_audience r) (ts_sessionId r) (ts_invocationId r) (ts_harnessId r) (ts_providerScopeKey r)
    (ts_generation r) (ts_issuedAtMs r) (ts_allowedModels r) (ts_expiresAtMs r).

Record RuntimeTokenManager := mkTokens { tm_ttl_seconds : Z; tm_tokens : dict string RuntimeTokenScope }.
#[export] Instance eta_token_manager : Eta RuntimeTokenManager := λ r, mkTokens (tm_ttl_seconds r) (tm_tokens r).

Notation tokens_m := (M RuntimeTokenManager).

Definition MODEL_PROXY_TOKEN_PREFIX : string := "haas_mp_".

Definition ttl_ms (m : RuntimeTokenManager) : Z := tm_ttl_seconds m * 1000.

(** [_token_for] *)
Definition token_for (nonce : string) (sc : RuntimeTokenScope) : string :=
  let session := rstrip_pad (urlsafe_b64encode (ts_sessionId sc)) in
  let generation := if ts_generation sc =? 0 then 1 else ts_generation sc in
  MODEL_PROXY_TOKEN_PREFIX +:+ session +:+ "." +:+ pretty generation +:+ "." +:+ nonce.

Definition stamp_issued (now : Z) (sc : RuntimeTokenScope) : RuntimeTokenScope :=
  if ts_issuedAtMs sc =? 0 then sc <| ts_issuedAtMs := now |> else sc.

Definition set_token (token : string) (sc : RuntimeTokenScope) : tokens_m unit :=
  modify (λ m, m <| tm_tokens := dset token sc (tm_tokens m) |>).

(** [expires_at_ms if expires_at_ms is not None else now + ttl] *)
Definition expiry (now : Z) (expires_at_ms : option Z) (m : RuntimeTokenManager) : Z :=
  match expires_at_ms with Some t => t | None => now + tm_ttl_seconds m * 1000 end.

Definition issue (now now' : Z) (nonce : string) (sc : RuntimeTokenScope) (expires_at_ms : option Z) : tokens_m string :=
  let sc := stamp_issued now sc in
  let token := token_for nonce sc in
  exp ← gets (expiry now' expires_at_ms);
  _ ← set_token token (sc <| ts_expiresAtMs := exp |>);
  mret token.

Definition fingerprint `{Sha256} (token : string) : string := "sha256:" +:+ sha256_hex token.

Definition expired (now : Z) (sc : RuntimeTokenScope) : bool :=
  negb (ts_expiresAtMs sc =? 0) && (ts_expiresAtMs sc <? now).

Definition token_scope (now : Z) (token : string) (allow_expired : bool) : tokens_m RuntimeTokenScope := λ m,
  match dget token (tm_tokens m) with
  | None => (m, Raise (RuntimeTokenError "invalid_token"))
  | Some sc =>
      if negb allow_expired && expired now sc then (m, Raise (RuntimeTokenError "token_expired")) else (m, Ok sc)
  end.

Definition validate (now : Z) (token : string) : tokens_m RuntimeTokenScope :=
  sc ← token_scope now token true;
  _ ← guard_or (negb (expired now sc)) (RuntimeTokenError "token_expired");
  mret sc.

Definition refresh (now now' : Z) (nonce : string) (token : string) (expires_at_ms : option Z) : tokens_m string :=
  sc ← token_scope now token true;
  issue now now' nonce sc expires_at_ms.

Definition renew (now : Z) (token : string) (expires_at_ms : option Z) : tokens_m RuntimeTokenScope :=
  sc ← token_scope now token true;
  exp ← gets (expiry now expires_at_ms);
  let sc := sc <| ts_expiresAtMs := exp |> in
  _ ← set_token token sc;
  mret sc.

(** [token_session_id]: the session a token names.  The decoder's [binascii.Error] and
    [UnicodeDecodeError] are caught, its [ValueError] is not. *)
Definition token_session_id (token : string) : result (option string) :=
  if negb (starts_with MODEL_PROXY_TOKEN_PREFIX token) then Ok None
  else
    match partition "."%char (removeprefix MODEL_PROXY_TOKEN_PREFIX token) with
    | (_, None) => Ok None
    | (encoded_session_id, Some _) =>
        if bool_decide (encoded_session_id = "") || has_space encoded_session_id then Ok None
        else match b64decode (encoded_session_id +:+ b64_padding encoded_session_id) with
             | Ok decoded =>
                 match utf8_decode decoded with
                 | None => Ok None
                 | Some cps => if bool_decide (decoded = "") || existsb isspace cps then Ok None else Ok (Some decoded)
                 end
             | Raise (OtherError _ _) => Ok None
             | Raise e => Raise e
             end
    end.

Definition adopt (now now' : Z) (token : string) (sc : RuntimeTokenScope) (expires_at_ms : option Z) : tokens_m unit :=
  _ ← guard_or (starts_with MODEL_PROXY_TOKEN_PREFIX token) (RuntimeTokenError "invalid_token");
  session_id ← lift (token_session_id token);
  _ ← guard_or (bool_decide (session_id = Some (ts_sessionId sc))) (RuntimeTokenError "invalid_token");
  exp ← gets (expiry now' expires_at_ms);
  set_token token ((stamp_issued now sc) <| ts_expiresAtMs := exp |>).

Definition revoke (token : string) : tokens_m unit := modify (λ m, m <| tm_tokens := ddel token (tm_tokens m) |>).

(** The tokens whose scope satisfies a test. *)
Definition tokens_where (p : RuntimeTokenScope → bool) (m : RuntimeTokenManager) : list string :=
  (keep (λ kv, p kv.2) (tm_tokens m)).*1.

Definition revoke_where (p : RuntimeTokenScope → bool) : tokens_m unit :=
  modify (λ m, m <| tm_tokens := ddel_all (tokens_where p m) (tm_tokens m) |>).

Definition revoke_invocation (session_id invocation_id : string) : tokens_m unit :=
  revoke_where (λ sc, bool_decide ((ts_sessionId sc, ts_invocationId sc) = (session_id, invocation_id))).

Definition revoke_session (session_id : string) : tokens_m unit :=
  revoke_where (λ sc, bool_decide (ts_sessionId sc = session_id)).

Definition revoke_all : tokens_m unit := modify (λ m, m <| tm_tokens := [] |>).

(** ** The session a token names *)

(** A session id that a token can carry: non-empty text without white space. *)
Definition nameable (sid : string) : Prop :=
  sid ≠ "" ∧ ∃ cps, utf8_decode sid = Some cps ∧ existsb isspace cps = false.

Lemma token_for_session nonce sc :
  nameable (ts_sessionId sc) → token_session_id (token_for nonce sc) = Ok (Some (ts_sessionId sc)).
Proof.
  intros (Hne & cps & Hcps & Hsp). unfold token_session_id, token_for. rewrite rstrip_b64encode.
  rewrite starts_with_app, removeprefix_app. cbn [negb].
  set (raw := b64raw (ts_sessionId sc)). change ("." +:+ ?x) with (String "."%char x).
  rewrite partition_at.
  2: { apply b64raw_forall. intros x. by rewrite b64_char_not_dot. }
  rewrite bool_decide_eq_false_2 by by apply b64raw_nonempty.
  rewrite has_space_ascii by (apply b64raw_forall, b64_char_no_space). cbn [orb].
  unfold raw. rewrite b64decode_roundtrip by done. rewrite Hcps, bool_decide_eq_false_2 by done. cbn. by rewrite Hsp.
Qed.

Lemma dget_tokens_where p m token : dict_wf (tm_tokens m) →
  dget token (ddel_all (tokens_where p m) (tm_tokens m)) =
  match dget token (tm_tokens m) with Some sc => if p sc then None else Some sc | None => None end.
Proof.
  intros Hw. rewrite dget_ddel_all. unfold tokens_where.
  destruct (dget token (tm_tokens m)) as [sc|] eqn:E.
  - destruct (p sc) eqn:Ep.
    + rewrite decide_True; [done|]. apply list_elem_of_fmap. exists (token, sc). split; [done|].
      apply elem_of_keep. split; [done|]. by apply dget_Some_elem.
    + rewrite decide_False; [done|]. intros ([k v] & -> & [Hp Hin]%elem_of_keep)%list_elem_of_fmap.
      apply elem_dget in Hin; [|done]. cbn in *. congruence.
  - by case_decide.
Qed.

(** The session id a token was issued for can be read back from the token, for every session id that
    is non-empty text without white space; so two tokens of different sessions differ whatever
    their nonces, and a token never adopts into another session. *)
Theorem token_names_its_session nonce sc :
  nameable (ts_sessionId sc) →
  token_session_id (token_for nonce sc) = Ok (Some (ts_sessionId sc)) ∧
  (∀ nonce' sc', nameable (ts_sessionId sc') → token_for nonce sc = token_for nonce' sc' →
     ts_sessionId sc = ts_sessionId sc') ∧
  (∀ now now' sc' exp m, ts_sessionId sc' ≠ ts_sessionId sc →
     adopt now now' (token_for nonce sc) sc' exp m = (m, Raise (RuntimeTokenError "invalid_token"))).
Proof.
  intros Hn. pose proof (token_for_session nonce sc Hn) as Hs. split_and!; [done| |].
  - intros nonce' sc' Hn' Heq. pose proof (token_for_session nonce' sc' Hn') as Hs'. rewrite Heq in Hs. congruence.
  - intros now now' sc' exp m Hne. unfold adopt, mbind, M_bind, guard_or, lift. rewrite Hs.
    unfold token_for. rewrite starts_with_app. cbn [ensure]. rewrite bool_decide_eq_false_2 by congruence. done.
Qed.

Lemma token_names_its_session_witness :
  let sc := mkScope "model_proxy" "s-1" "" "h" "" 1 5 [] 0 in
  token_for "n0" sc = "haas_mp_cy0x.1.n0" ∧ token_session_id "haas_mp_cy0x.1.n0" = Ok (Some "s-1").
Proof.
  intros sc. assert (token_for "n0" sc = "haas_mp_cy0x.1.n0") as <- by (vm_compute; reflexivity). split; [reflexivity|].
  apply (token_names_its_session "n0" sc). split; [discriminate|]. eexists. split; vm_compute; reflexivity.
Defined.
