(* ===== verification/Records.v ===== *)
(** * Store records (haas/stores/memory.py)

    One [Record] per dataclass of the store, field for field.  Field names carry
    a short prefix because Rocq projections share one name space.  Timestamps are
    [Z] milliseconds; [dict[str, Any]] fields are [pydict]. *)

From S2P Require Import Prelude Errors Dict PyVal.

#[local] Open Scope string_scope.
#[local] Open Scope list_scope.

(** (appName, userId, sessionId) *)
Notation SessionKey := (string * string * string)%type.
(** (appName, userId, sessionId, invocationId) *)
Notation InvocationEventKey := (string * string * string * string)%type.
(** (tenantId, workspaceId) *)
Notation AccountKey := (option string * option string)%type.

(** [KNOWN_CONTROL_STATES] *)
Definition KNOWN_CONTROL_STATES : list string :=
  ["idle"; "running"; "pausing"; "paused"; "resuming"; "cancelling"; "cancelled";
   "control_degraded"].

Definition known_control_state (s : string) : bool := bool_decide (s ∈ KNOWN_CONTROL_STATES).

Definition default_session_policy : pydict :=
  [("workspace", PDict [("mode", PStr "workspace-write"); ("root", PStr "/workspace");
                        ("writableRoots", PList [PStr "/workspace"])]);
   ("network", PDict [("defaultAction", PStr "allow"); ("allow", PList [])]);
   ("tools", PDict [("disabled", PList []); ("approvalMode", PStr "on-request")])].

(** A JSON-RPC request id: [str | int]. *)
Inductive request_id := RidStr (s : string) | RidInt (z : Z).
#[export] Instance request_id_eq_dec : EqDecision request_id.
Proof. solve_decision. Defined.

(** [ProviderConfig]: model provider route configuration. *)
Record ProviderConfig := mkProvider {
  pc_providerId : string;
  pc_name : string;
  pc_baseUrl : string;
  pc_wireApi : string;
  pc_apiType : string;
  pc_credentialRef : string;
  pc_credentialFingerprint : string;
  pc_allowlistRuleId : string;
}.
#[export] Instance eta_ProviderConfig : Eta ProviderConfig := λ r, mkProvider
   (pc_providerId r) (pc_name r) (pc_baseUrl r) (pc_wireApi r) (pc_apiType r)
   (pc_credentialRef r) (pc_credentialFingerprint r) (pc_allowlistRuleId r).

(** [HarnessRecord] *)
Record HarnessRecord := mkHarness {
  h_id : string;
  h_name : string;
  h_base : string;
  h_status : string;
  h_defaultModel : option string;
  h_systemPrompt : string;
  h_provider : option ProviderConfig;
  h_tenantId : option string;
  h_workspaceId : option string;
  h_mcpServers : list pydict;
  h_skills : list pydict;
  h_disabledTools : list string;
  h_maxStep : option Z;
  h_timeoutSeconds : option Z;
  h_schemaVersion : Z;
  h_createdAtMs : Z;
  h_updatedAtMs : Z;
}.
#[export] Instance eta_HarnessRecord : Eta HarnessRecord := λ r, mkHarness
   (h_id r) (h_name r) (h_base r) (h_status r) (h_defaultModel r) (h_systemPrompt r)
   (h_provider r) (h_tenantId r) (h_workspaceId r) (h_mcpServers r) (h_skills r)
   (h_disabledTools r) (h_maxStep r) (h_timeoutSeconds r) (h_schemaVersion r) (h_createdAtMs r)
   (h_updatedAtMs r).

Definition harness_account_key (h : HarnessRecord) : AccountKey := (h_tenantId h, h_workspaceId h).

(** [ProfileRecord]: one immutable-or-draft harness profile revision. *)
Record ProfileRecord := mkProfile {
  p_id : string;
  p_harnessId : string;
  p_base : string;
  p_version : Z;
  p_content : pydict;
  p_profileFingerprint : string;
  p_status : string;
  p_validation : option pydict;
  p_tenantId : option string;
  p_workspaceId : option string;
  p_object : string;
  p_schemaVersion : Z;
  p_createdAtMs : Z;
  p_updatedAtMs : Z;
  p_activatedAtMs : option Z;
}.
#[export] Instance eta_ProfileRecord : Eta ProfileRecord := λ r, mkProfile
   (p_id r) (p_harnessId r) (p_base r) (p_version r) (p_content r) (p_profileFingerprint r)
   (p_status r) (p_validation r) (p_tenantId r) (p_workspaceId r) (p_object r)
   (p_schemaVersion r) (p_createdAtMs r) (p_updatedAtMs r) (p_activatedAtMs r).

Definition profile_account_key (p : ProfileRecord) : AccountKey := (p_tenantId p, p_workspaceId p).

(** [SessionRecord] *)
Record SessionRecord := mkSession {
  s_id : string;
  s_appName : string;
  s_userId : string;
  s_status : string;
  s_state : pydict;
  s_nativeSessionRef : option pydict;
  s_delegatedSessionRef : option pydict;
  s_effectiveProfile : option pydict;
  s_desiredPolicy : pydict;
  s_appliedPolicy : pydict;
  s_desiredRevision : Z;
  s_appliedRevision : Z;
  s_policyStatus : string;
  s_pendingPolicyUpdate : option pydict;
  s_lastPolicyUpdateResult : option pydict;
  s_controlState : string;
  s_supportsResume : bool;
  s_resumableInvocationId : option string;
  s_schemaVersion : Z;
  s_createdAtMs : Z;
  s_updatedAtMs : Z;
  s_expiresAtMs : option Z;
}.
#[export] Instance eta_SessionRecord : Eta SessionRecord := λ r, mkSession
   (s_id r) (s_appName r) (s_userId r) (s_status r) (s_state r) (s_nativeSessionRef r)
   (s_delegatedSessionRef r) (s_effectiveProfile r) (s_desiredPolicy r) (s_appliedPolicy r)
   (s_desiredRevision r) (s_appliedRevision r) (s_policyStatus r) (s_pendingPolicyUpdate r)
   (s_lastPolicyUpdateResult r) (s_controlState r) (s_supportsResume r)
   (s_resumableInvocationId r) (s_schemaVersion r) (s_createdAtMs r) (s_updatedAtMs r)
   (s_expiresAtMs r).

(** [SessionRecord(id=..., appName=..., userId=...)]: every other field takes its
    default; both timestamps are read at the same instant. *)
Definition new_session (id app user : string) (now : Z) : SessionRecord :=
  mkSession id app user "active" [] None None None default_session_policy
    default_session_policy 1 1 "applied" None None "idle" false None 1 now now None.

Definition session_key (s : SessionRecord) : SessionKey := (s_appName s, s_userId s, s_id s).

(** [SessionRecord.__post_init__], run by the constructor and by [replace]. *)
Definition session_post_init (s : SessionRecord) : result SessionRecord :=
  if known_control_state (s_controlState s) then Ok s
  else Raise (ValueError "invalid session controlState").

(** [InvocationRecord] *)
Record InvocationRecord := mkInvocation {
  i_id : string;
  i_sessionId : string;
  i_appName : string;
  i_turnId : string;
  i_userId : string;
  i_status : string;
  i_acceptedAtMs : option Z;
  i_idempotencyKeyHash : option string;
  i_idempotencyExpiresAtMs : option Z;
  i_schemaVersion : Z;
  i_startedAtMs : Z;
  i_completedAtMs : option Z;
  i_timeoutSeconds : option spec_float;
  i_deadlineAtMs : option Z;
  i_continuedFromInvocationId : option string;
  i_continuedFromTurnId : option string;
  i_executionContext : pydict;
  i_nativeTurnRef : option pydict;
}.
#[export] Instance eta_InvocationRecord : Eta InvocationRecord := λ r, mkInvocation
   (i_id r) (i_sessionId r) (i_appName r) (i_turnId r) (i_userId r) (i_status r)
   (i_acceptedAtMs r) (i_idempotencyKeyHash r) (i_idempotencyExpiresAtMs r) (i_schemaVersion r)
   (i_startedAtMs r) (i_completedAtMs r) (i_timeoutSeconds r) (i_deadlineAtMs r)
   (i_continuedFromInvocationId r) (i_continuedFromTurnId r) (i_executionContext r)
   (i_nativeTurnRef r).

(** [TurnRecord] *)
Record TurnRecord := mkTurn {
  t_id : string;
  t_invocationId : string;
  t_sessionId : string;
  t_status : string;
  t_schemaVersion : Z;
  t_startedAtMs : Z;
  t_completedAtMs : option Z;
  t_continuedFromInvocationId : option string;
  t_continuedFromTurnId : option string;
  t_nativeTurnRef : option pydict;
}.
#[export] Instance eta_TurnRecord : Eta TurnRecord := λ r, mkTurn
   (t_id r) (t_invocationId r) (t_sessionId r) (t_status r) (t_schemaVersion r)
   (t_startedAtMs r) (t_completedAtMs r) (t_continuedFromInvocationId r)
   (t_continuedFromTurnId r) (t_nativeTurnRef r).

(** [DelegatedRuntimeRecord] *)
Record DelegatedRuntimeRecord := mkDelegatedRuntime {
  dr_status : string;
  dr_containerId : option string;
  dr_containerGeneration : Z;
  dr_lastStartedAtMs : option Z;
  dr_lastActiveAtMs : option Z;
}.
#[export] Instance eta_DelegatedRuntimeRecord : Eta DelegatedRuntimeRecord := λ r, mkDelegatedRuntime
   (dr_status r) (dr_containerId r) (dr_containerGeneration r) (dr_lastStartedAtMs r)
   (dr_lastActiveAtMs r).

(** [DelegatedSessionRecord] *)
Record DelegatedSessionRecord := mkDelegatedSession {
  ds_id : string;
  ds_managerSessionId : string;
  ds_haasSessionId : string;
  ds_haasUserId : string;
  ds_harnessId : string;
  ds_image : pydict;
  ds_provider : pydict;
  ds_mountManifest : pydict;
  ds_delegationPolicySnapshot : pydict;
  ds_harnessBase : string;
  ds_binding : string;
  ds_profileRef : pydict;
  ds_workspaceMode : string;
  ds_acceptedInvocationId : option string;
  ds_bindingAcceptedAtMs : option Z;
  ds_bindingFailureSafeReason : option string;
  ds_desiredRevision : Z;
  ds_appliedRevision : Z;
  ds_pendingPolicyUpdate : option pydict;
  ds_pendingPolicyTarget : option pydict;
  ds_lastPolicyUpdateResult : option pydict;
  ds_runtime : DelegatedRuntimeRecord;
  ds_object : string;
  ds_schemaVersion : Z;
  ds_createdAtMs : Z;
  ds_updatedAtMs : Z;
}.
#[export] Instance eta_DelegatedSessionRecord : Eta DelegatedSessionRecord := λ r, mkDelegatedSession
   (ds_id r) (ds_managerSessionId r) (ds_haasSessionId r) (ds_haasUserId r) (ds_harnessId r)
   (ds_image r) (ds_provider r) (ds_mountManifest r) (ds_delegationPolicySnapshot r)
   (ds_harnessBase r) (ds_binding r) (ds_profileRef r) (ds_workspaceMode r)
   (ds_acceptedInvocationId r) (ds_bindingAcceptedAtMs r) (ds_bindingFailureSafeReason r)
   (ds_desiredRevision r) (ds_appliedRevision r) (ds_pendingPolicyUpdate r)
   (ds_pendingPolicyTarget r) (ds_lastPolicyUpdateResult r) (ds_runtime r) (ds_object r)
   (ds_schemaVersion r) (ds_createdAtMs r) (ds_updatedAtMs r).

(** [DelegatedRuntimeRecord.to_dict] *)
Definition runtime_to_dict (r : DelegatedRuntimeRecord) : pydict :=
  [("status", PStr (dr_status r)); ("containerId", opt_str_val (dr_containerId r));
   ("containerGeneration", PInt (dr_containerGeneration r));
   ("lastStartedAtMs", opt_int_val (dr_lastStartedAtMs r));
   ("lastActiveAtMs", opt_int_val (dr_lastActiveAtMs r))].

(** [DelegatedSessionRecord.to_dict]: the public projection.  The resolved
    [pendingPolicyTarget] and the [schemaVersion] are left out. *)
Definition delegated_to_dict (r : DelegatedSessionRecord) : pydict :=
  [("id", PStr (ds_id r)); ("object", PStr (ds_object r));
   ("managerSessionId", PStr (ds_managerSessionId r));
   ("haasSessionId", PStr (ds_haasSessionId r)); ("haasUserId", PStr (ds_haasUserId r));
   ("harnessId", PStr (ds_harnessId r)); ("harnessBase", PStr (ds_harnessBase r));
   ("binding", PStr (ds_binding r)); ("image", PDict (ds_image r));
   ("profileRef", PDict (ds_profileRef r)); ("provider", PDict (ds_provider r));
   ("workspaceMode", PStr (ds_workspaceMode r)); ("mountManifest", PDict (ds_mountManifest r));
   ("delegationPolicySnapshot", PDict (ds_delegationPolicySnapshot r));
   ("runtime", PDict (runtime_to_dict (ds_runtime r)));
   ("acceptedInvocationId", opt_str_val (ds_acceptedInvocationId r));
   ("bindingAcceptedAtMs", opt_int_val (ds_bindingAcceptedAtMs r));
   ("bindingFailureSafeReason", opt_str_val (ds_bindingFailureSafeReason r));
   ("desiredRevision", PInt (ds_desiredRevision r));
   ("appliedRevision", PInt (ds_appliedRevision r));
   ("pendingPolicyUpdate", opt_dict_val (ds_pendingPolicyUpdate r));
   ("lastPolicyUpdateResult", opt_dict_val (ds_lastPolicyUpdateResult r));
   ("createdAtMs", PInt (ds_createdAtMs r)); ("updatedAtMs", PInt (ds_updatedAtMs r))].

(** [ApprovalRecord] *)
Record ApprovalRecord := mkApproval {
  a_id : string;
  a_sessionId : string;
  a_invocationId : string;
  a_turnId : string;
  a_status : string;
  a_request : pydict;
  a_decision : option pydict;
  a_nativeRequestId : option request_id;
  a_adapterGeneration : option Z;
  a_expiresAtMs : option Z;
  a_schemaVersion : Z;
  a_createdAtMs : Z;
  a_resolvedAtMs : option Z;
}.
#[export] Instance eta_ApprovalRecord : Eta ApprovalRecord := λ r, mkApproval
   (a_id r) (a_sessionId r) (a_invocationId r) (a_turnId r) (a_status r) (a_request r)
   (a_decision r) (a_nativeRequestId r) (a_adapterGeneration r) (a_expiresAtMs r)
   (a_schemaVersion r) (a_createdAtMs r) (a_resolvedAtMs r).

(** [ApprovalRecord.to_dict] *)
Definition approval_to_dict (r : ApprovalRecord) : pydict :=
  [("approvalId", PStr (a_id r)); ("sessionId", PStr (a_sessionId r));
   ("invocationId", PStr (a_invocationId r)); ("turnId", PStr (a_turnId r));
   ("status", PStr (a_status r)); ("request", PDict (a_request r));
   ("decision", opt_dict_val (a_decision r)); ("expiresAtMs", opt_int_val (a_expiresAtMs r));
   ("createdAtMs", PInt (a_createdAtMs r)); ("resolvedAtMs", opt_int_val (a_resolvedAtMs r))].

(** [InputRequestRecord] *)
Record InputRequestRecord := mkInputRequest {
  q_id : string;
  q_sessionId : string;
  q_invocationId : string;
  q_turnId : string;
  q_questions : list pydict;
  q_nativeRequestId : request_id;
  q_adapterGeneration : Z;
  q_status : string;
  q_blocking : bool;
  q_answers : option pydict;
  q_expiresAtMs : option Z;
  q_schemaVersion : Z;
  q_createdAtMs : Z;
  q_resolvedAtMs : option Z;
}.
#[export] Instance eta_InputRequestRecord : Eta InputRequestRecord := λ r, mkInputRequest
   (q_id r) (q_sessionId r) (q_invocationId r) (q_turnId r) (q_questions r)
   (q_nativeRequestId r) (q_adapterGeneration r) (q_status r) (q_blocking r) (q_answers r)
   (q_expiresAtMs r) (q_schemaVersion r) (q_createdAtMs r) (q_resolvedAtMs r).

(** [InputRequestRecord.to_dict] *)
Definition input_to_dict (r : InputRequestRecord) : pydict :=
  [("inputRequestId", PStr (q_id r)); ("sessionId", PStr (q_sessionId r));
   ("invocationId", PStr (q_invocationId r)); ("turnId", PStr (q_turnId r));
   ("status", PStr (q_status r)); ("questions", PList (PDict <$> q_questions r));
   ("blocking", PBool (q_blocking r)); ("expiresAtMs", opt_int_val (q_expiresAtMs r));
   ("createdAtMs", PInt (q_createdAtMs r)); ("resolvedAtMs", opt_int_val (q_resolvedAtMs r))].

(** [==] between two input requests: field by field, as dataclasses compare. *)
Definition input_eqb (x y : InputRequestRecord) : bool :=
  bool_decide (q_id x = q_id y) && bool_decide (q_sessionId x = q_sessionId y) &&
  bool_decide (q_invocationId x = q_invocationId y) && bool_decide (q_turnId x = q_turnId y) &&
  py_eqb (PList (PDict <$> q_questions x)) (PList (PDict <$> q_questions y)) &&
  bool_decide (q_nativeRequestId x = q_nativeRequestId y) &&
  bool_decide (q_adapterGeneration x = q_adapterGeneration y) &&
  bool_decide (q_status x = q_status y) && bool_decide (q_blocking x = q_blocking y) &&
  py_eqb (opt_dict_val (q_answers x)) (opt_dict_val (q_answers y)) &&
  bool_decide (q_expiresAtMs x = q_expiresAtMs y) &&
  bool_decide (q_schemaVersion x = q_schemaVersion y) &&
  bool_decide (q_createdAtMs x = q_createdAtMs y) &&
  bool_decide (q_resolvedAtMs x = q_resolvedAtMs y).

(** [CanonicalEventRecord] *)
Record CanonicalEventRecord := mkEvent {
  e_eventId : string;
  e_invocationId : option string;
  e_sessionId : string;
  e_turnId : option string;
  e_author : string;
  e_sequenceNumber : Z;
  e_content : pydict;
  e_actions : pydict;
  e_type : string;
  e_haas : pydict;
  e_schemaVersion : Z;
  e_observedAtMs : Z;
  e_redactionApplied : bool;
  e_harnessId : string;
  e_adapterId : string;
  e_appName : string;
  e_userId : string;
}.
#[export] Instance eta_CanonicalEventRecord : Eta CanonicalEventRecord := λ r, mkEvent
   (e_eventId r) (e_invocationId r) (e_sessionId r) (e_turnId r) (e_author r)
   (e_sequenceNumber r) (e_content r) (e_actions r) (e_type r) (e_haas r) (e_schemaVersion r)
   (e_observedAtMs r) (e_redactionApplied r) (e_harnessId r) (e_adapterId r) (e_appName r)
   (e_userId r).

Definition event_session_key (e : CanonicalEventRecord) : SessionKey :=
  (e_appName e, e_userId e, e_sessionId e).

(** [IdempotencyRecord] *)
Record IdempotencyRecord := mkIdempotency {
  k_keyHash : string;
  k_requestHash : string;
  k_result : option pyval;
  k_released : bool;
  k_accepted : bool;
  k_invocationId : option string;
  k_acceptedAtMs : option Z;
  k_completedAtMs : option Z;
  k_expiresAtMs : option Z;
  k_tombstone : bool;
  k_schemaVersion : Z;
  k_createdAtMs : Z;
}.
#[export] Instance eta_IdempotencyRecord : Eta IdempotencyRecord := λ r, mkIdempotency
   (k_keyHash r) (k_requestHash r) (k_result r) (k_released r) (k_accepted r)
   (k_invocationId r) (k_acceptedAtMs r) (k_completedAtMs r) (k_expiresAtMs r) (k_tombstone r)
   (k_schemaVersion r) (k_createdAtMs r).

(** [IdempotencyReservation] *)
Record IdempotencyReservation := mkReservation {
  kr_keyHash : string;
  kr_replay : bool;
  kr_result : option pyval;
}.
#[export] Instance eta_IdempotencyReservation : Eta IdempotencyReservation := λ r, mkReservation
   (kr_keyHash r) (kr_replay r) (kr_result r).

(** [Lease] *)
Record Lease := mkLease {
  l_holder : string;
  l_expiresAtMs : Z;
  l_token : Z;
}.
#[export] Instance eta_Lease : Eta Lease := λ r, mkLease
   (l_holder r) (l_expiresAtMs r) (l_token r).

(** [WorkspaceLockResult] *)
Record WorkspaceLockResult := mkLockResult {
  w_acquired : bool;
  w_holder : option string;
  w_expiresAtMs : option Z;
}.
#[export] Instance eta_WorkspaceLockResult : Eta WorkspaceLockResult := λ r, mkLockResult
   (w_acquired r) (w_holder r) (w_expiresAtMs r).
