(* ===== verification/RecordCodec.v ===== *)
(** * Durable form of the store records (haas/stores/sqlite.py)

    [_put_record] writes [asdict(record)] as JSON; [_load] reads it back through [_construct_record], which
    drops unknown keys, refuses a payload without a required field and lets the dataclass fill in
    defaults.  For each record type: its dictionary, its construction, and what a record looks like after the round trip. *)

From S2P Require Import Prelude Errors Dict PyVal Encoding Json Records.

#[local] Open Scope string_scope.
#[local] Open Scope list_scope.

(** ** Shared lemmas and tactics *)

Definition ok_value {A} (r : result A) : option A := match r with Ok a => Some a | Raise _ => None end.

Lemma field_bind {A B} `{Field A} d k dflt (a : A) (f : A → result B) :
  dict_wf d → dget k d = Some (enc a) → (field (canon_dict d) k dflt ≫= f) = f (fcanon a).
Proof. intros W E. by rewrite (field_ok d k dflt a W E). Qed.

Lemma result_bind_ok {A B} (m : result A) (a : A) (f : A → result B) : m = Ok a → (m ≫= f) = f a.
Proof. by intros ->. Qed.

Lemma dec_enc_record {T} (asdict : T → pydict) (construct : pydict → result T) (canonical : T → T) :
  (∀ r, dict_wf (asdict r)) → (∀ r, construct (canon_dict (asdict r)) = Ok (canonical r)) →
  ∀ r, (dec_dict (canon (PDict (asdict r))) ≫= λ d, ok_value (construct d)) = Some (canonical r).
Proof. intros _ H r. rewrite dec_dict_canon. simpl. by rewrite H. Qed.

Lemma canon_enc_record {T} (asdict : T → pydict) (canonical : T → T) :
  (∀ r, canon_dict (asdict (canonical r)) = canon_dict (asdict r)) →
  ∀ r, canon (PDict (asdict (canonical r))) = canon (PDict (asdict r)).
Proof. intros H r. by rewrite !canon_PDict, H. Qed.

(** Keys are distinct. *)
Ltac wf_asdict := apply (bool_decide_unpack _); vm_compute; exact I.

(** Sorting the fields of a record sorts its dictionary. *)
Lemma sorted_field {A} `{Field A} k (a : A) (l l' : pydict) :
  canon_pair <$> l = canon_pair <$> l' → canon_pair <$> (k, enc (fcanon a)) :: l = canon_pair <$> (k, enc a) :: l'.
Proof. intros E. rewrite !fmap_cons, E. f_equal. unfold canon_pair. simpl. by rewrite canon_enc. Qed.

Ltac sorted_fields :=
  unfold canon_dict; f_equal;
  match goal with |- _ <$> ?d _ = _ => unfold d end;
  repeat apply sorted_field; done.

#[export] Instance field_request_id : Field request_id := {|
  enc i := match i with RidStr s => PStr s | RidInt z => PInt z end;
  dec v := match v with PStr s => Some (RidStr s) | PInt z => Some (RidInt z) | _ => None end; fcanon i := i;
  dec_enc i := match i with RidStr _ => eq_refl | RidInt _ => eq_refl end; canon_enc _ := eq_refl |}.
#[export] Instance not_none_request_id : NotNone request_id := λ i, match i with RidStr _ => eq_refl | RidInt _ => eq_refl end.

(** Read the fields of a dictionary one after the other; [nested_field] reads the two nested records. *)
Ltac nested_field wf := fail.
Ltac read_fields wf :=
  lazymatch goal with |- ?c _ _ = _ => unfold c | |- ?c _ = _ => unfold c end;
  repeat (erewrite field_bind; [|exact wf|reflexivity] || nested_field wf).

(** ** [ProviderConfig] *)

Definition provider_asdict (r : ProviderConfig) : pydict :=
  [("providerId", enc (pc_providerId r)); ("name", enc (pc_name r)); ("baseUrl", enc (pc_baseUrl r));
   ("wireApi", enc (pc_wireApi r)); ("apiType", enc (pc_apiType r));
   ("credentialRef", enc (pc_credentialRef r)); ("credentialFingerprint", enc (pc_credentialFingerprint r));
   ("allowlistRuleId", enc (pc_allowlistRuleId r))].

Definition construct_provider (d : pydict) : result ProviderConfig :=
  providerId' ← field d "providerId" (Some "openai"); name' ← field d "name" (Some "openai-compatible");
  baseUrl' ← field d "baseUrl" (Some ""); wireApi' ← field d "wireApi" (Some "responses");
  apiType' ← field d "apiType" (Some "responses"); credentialRef' ← field d "credentialRef" (Some "");
  credentialFingerprint' ← field d "credentialFingerprint" (Some "");
  allowlistRuleId' ← field d "allowlistRuleId" (Some "");
  mret (mkProvider providerId' name' baseUrl' wireApi' apiType' credentialRef' credentialFingerprint'
      allowlistRuleId').

Definition canon_provider (r : ProviderConfig) : ProviderConfig :=
  mkProvider (fcanon (pc_providerId r)) (fcanon (pc_name r)) (fcanon (pc_baseUrl r)) (fcanon (pc_wireApi r))
    (fcanon (pc_apiType r)) (fcanon (pc_credentialRef r)) (fcanon (pc_credentialFingerprint r))
    (fcanon (pc_allowlistRuleId r)).

Lemma provider_asdict_wf r : dict_wf (provider_asdict r).
Proof. wf_asdict. Qed.

Lemma construct_provider_asdict r :
  construct_provider (canon_dict (provider_asdict r)) = Ok (canon_provider r).
Proof. read_fields (provider_asdict_wf r). done. Qed.

Lemma provider_asdict_canon r : canon_dict (provider_asdict (canon_provider r)) = canon_dict (provider_asdict r).
Proof. sorted_fields. Qed.

#[export] Instance field_provider : Field ProviderConfig := {|
  enc r := PDict (provider_asdict r); dec v := dec_dict v ≫= λ d, ok_value (construct_provider d); fcanon := canon_provider;
  dec_enc := dec_enc_record _ _ _ provider_asdict_wf construct_provider_asdict;
  canon_enc := canon_enc_record _ _ provider_asdict_canon |}.
#[export] Instance not_none_provider : NotNone ProviderConfig := λ _, eq_refl.

(** The provider of a harness payload, as [_load] reads it. *)
Definition provider_field (d : pydict) : result (option ProviderConfig) :=
  match dget "provider" d with
  | None | Some PNone => Ok None
  | Some (PDict p) => r ← construct_provider p; mret (Some r)
  | Some _ => Raise (ValueError "record payload must be an object")
  end.

Lemma provider_field_ok d p : dict_wf d → dget "provider" d = Some (enc p) → provider_field (canon_dict d) = Ok (fcanon p).
Proof.
  intros W E. unfold provider_field. rewrite dget_canon, E by done. destruct p as [p|]; [|done].
  cbn [fmap option_fmap option_map enc field_option enc_option field_provider]. rewrite canon_PDict, construct_provider_asdict. done.
Qed.

Ltac nested_field wf ::= erewrite result_bind_ok; [|apply provider_field_ok; [exact wf|reflexivity]].

(** ** [HarnessRecord] *)

Definition harness_asdict (r : HarnessRecord) : pydict :=
  [("id", enc (h_id r)); ("name", enc (h_name r)); ("base", enc (h_base r)); ("status", enc (h_status r));
   ("defaultModel", enc (h_defaultModel r)); ("systemPrompt", enc (h_systemPrompt r));
   ("provider", enc (h_provider r)); ("tenantId", enc (h_tenantId r)); ("workspaceId", enc (h_workspaceId r));
   ("mcpServers", enc (h_mcpServers r)); ("skills", enc (h_skills r));
   ("disabledTools", enc (h_disabledTools r)); ("maxStep", enc (h_maxStep r));
   ("timeoutSeconds", enc (h_timeoutSeconds r)); ("schemaVersion", enc (h_schemaVersion r));
   ("createdAtMs", enc (h_createdAtMs r)); ("updatedAtMs", enc (h_updatedAtMs r))].

Definition construct_harness (now : Z) (d : pydict) : result HarnessRecord :=
  id' ← field d "id" None; name' ← field d "name" None; base' ← field d "base" None;
  status' ← field d "status" (Some "active"); defaultModel' ← field d "defaultModel" (Some None);
  systemPrompt' ← field d "systemPrompt" (Some ""); provider' ← provider_field d;
  tenantId' ← field d "tenantId" (Some None); workspaceId' ← field d "workspaceId" (Some None);
  mcpServers' ← field d "mcpServers" (Some []); skills' ← field d "skills" (Some []);
  disabledTools' ← field d "disabledTools" (Some []); maxStep' ← field d "maxStep" (Some None);
  timeoutSeconds' ← field d "timeoutSeconds" (Some None); schemaVersion' ← field d "schemaVersion" (Some 1%Z);
  createdAtMs' ← field d "createdAtMs" (Some now); updatedAtMs' ← field d "updatedAtMs" (Some now);
  mret (mkHarness id' name' base' status' defaultModel' systemPrompt' provider' tenantId' workspaceId'
      mcpServers' skills' disabledTools' maxStep' timeoutSeconds' schemaVersion' createdAtMs' updatedAtMs').

Definition canon_harness (r : HarnessRecord) : HarnessRecord :=
  mkHarness (fcanon (h_id r)) (fcanon (h_name r)) (fcanon (h_base r)) (fcanon (h_status r))
    (fcanon (h_defaultModel r)) (fcanon (h_systemPrompt r)) (fcanon (h_provider r)) (fcanon (h_tenantId r))
    (fcanon (h_workspaceId r)) (fcanon (h_mcpServers r)) (fcanon (h_skills r)) (fcanon (h_disabledTools r))
    (fcanon (h_maxStep r)) (fcanon (h_timeoutSeconds r)) (fcanon (h_schemaVersion r))
    (fcanon (h_createdAtMs r)) (fcanon (h_updatedAtMs r)).

Lemma harness_asdict_wf r : dict_wf (harness_asdict r).
Proof. wf_asdict. Qed.

Lemma construct_harness_asdict now r :
  construct_harness now (canon_dict (harness_asdict r)) = Ok (canon_harness r).
Proof. read_fields (harness_asdict_wf r). done. Qed.

Lemma harness_asdict_canon r : canon_dict (harness_asdict (canon_harness r)) = canon_dict (harness_asdict r).
Proof. sorted_fields. Qed.

(** ** [ProfileRecord] *)

Definition profile_asdict (r : ProfileRecord) : pydict :=
  [("id", enc (p_id r)); ("harnessId", enc (p_harnessId r)); ("base", enc (p_base r));
   ("version", enc (p_version r)); ("content", enc (p_content r));
   ("profileFingerprint", enc (p_profileFingerprint r)); ("status", enc (p_status r));
   ("validation", enc (p_validation r)); ("tenantId", enc (p_tenantId r));
   ("workspaceId", enc (p_workspaceId r)); ("object", enc (p_object r));
   ("schemaVersion", enc (p_schemaVersion r)); ("createdAtMs", enc (p_createdAtMs r));
   ("updatedAtMs", enc (p_updatedAtMs r)); ("activatedAtMs", enc (p_activatedAtMs r))].

Definition construct_profile (now : Z) (d : pydict) : result ProfileRecord :=
  id' ← field d "id" None; harnessId' ← field d "harnessId" None; base' ← field d "base" None;
  version' ← field d "version" None; content' ← field d "content" None;
  profileFingerprint' ← field d "profileFingerprint" None; status' ← field d "status" (Some "draft");
  validation' ← field d "validation" (Some None); tenantId' ← field d "tenantId" (Some None);
  workspaceId' ← field d "workspaceId" (Some None); object' ← field d "object" (Some "harness_profile");
  schemaVersion' ← field d "schemaVersion" (Some 1%Z); createdAtMs' ← field d "createdAtMs" (Some now);
  updatedAtMs' ← field d "updatedAtMs" (Some now); activatedAtMs' ← field d "activatedAtMs" (Some None);
  mret (mkProfile id' harnessId' base' version' content' profileFingerprint' status' validation' tenantId'
      workspaceId' object' schemaVersion' createdAtMs' updatedAtMs' activatedAtMs').

Definition canon_profile (r : ProfileRecord) : ProfileRecord :=
  mkProfile (fcanon (p_id r)) (fcanon (p_harnessId r)) (fcanon (p_base r)) (fcanon (p_version r))
    (fcanon (p_content r)) (fcanon (p_profileFingerprint r)) (fcanon (p_status r)) (fcanon (p_validation r))
    (fcanon (p_tenantId r)) (fcanon (p_workspaceId r)) (fcanon (p_object r)) (fcanon (p_schemaVersion r))
    (fcanon (p_createdAtMs r)) (fcanon (p_updatedAtMs r)) (fcanon (p_activatedAtMs r)).

Lemma profile_asdict_wf r : dict_wf (profile_asdict r).
Proof. wf_asdict. Qed.

Lemma construct_profile_asdict now r :
  construct_profile now (canon_dict (profile_asdict r)) = Ok (canon_profile r).
Proof. read_fields (profile_asdict_wf r). done. Qed.

Lemma profile_asdict_canon r : canon_dict (profile_asdict (canon_profile r)) = canon_dict (profile_asdict r).
Proof. sorted_fields. Qed.

(** ** [SessionRecord] *)

Definition session_asdict (r : SessionRecord) : pydict :=
  [("id", enc (s_id r)); ("appName", enc (s_appName r)); ("userId", enc (s_userId r));
   ("status", enc (s_status r)); ("state", enc (s_state r)); ("nativeSessionRef", enc (s_nativeSessionRef r));
   ("delegatedSessionRef", enc (s_delegatedSessionRef r)); ("effectiveProfile", enc (s_effectiveProfile r));
   ("desiredPolicy", enc (s_desiredPolicy r)); ("appliedPolicy", enc (s_appliedPolicy r));
   ("desiredRevision", enc (s_desiredRevision r)); ("appliedRevision", enc (s_appliedRevision r));
   ("policyStatus", enc (s_policyStatus r)); ("pendingPolicyUpdate", enc (s_pendingPolicyUpdate r));
   ("lastPolicyUpdateResult", enc (s_lastPolicyUpdateResult r)); ("controlState", enc (s_controlState r));
   ("supportsResume", enc (s_supportsResume r)); ("resumableInvocationId", enc (s_resumableInvocationId r));
   ("schemaVersion", enc (s_schemaVersion r)); ("createdAtMs", enc (s_createdAtMs r));
   ("updatedAtMs", enc (s_updatedAtMs r)); ("expiresAtMs", enc (s_expiresAtMs r))].

Definition construct_session (now : Z) (d : pydict) : result SessionRecord :=
  id' ← field d "id" None; appName' ← field d "appName" None; userId' ← field d "userId" None;
  status' ← field d "status" (Some "active"); state' ← field d "state" (Some []);
  nativeSessionRef' ← field d "nativeSessionRef" (Some None);
  delegatedSessionRef' ← field d "delegatedSessionRef" (Some None);
  effectiveProfile' ← field d "effectiveProfile" (Some None);
  desiredPolicy' ← field d "desiredPolicy" (Some default_session_policy);
  appliedPolicy' ← field d "appliedPolicy" (Some default_session_policy);
  desiredRevision' ← field d "desiredRevision" (Some 1%Z);
  appliedRevision' ← field d "appliedRevision" (Some 1%Z);
  policyStatus' ← field d "policyStatus" (Some "applied");
  pendingPolicyUpdate' ← field d "pendingPolicyUpdate" (Some None);
  lastPolicyUpdateResult' ← field d "lastPolicyUpdateResult" (Some None);
  controlState' ← field d "controlState" (Some "idle");
  supportsResume' ← field d "supportsResume" (Some false);
  resumableInvocationId' ← field d "resumableInvocationId" (Some None);
  schemaVersion' ← field d "schemaVersion" (Some 1%Z); createdAtMs' ← field d "createdAtMs" (Some now);
  updatedAtMs' ← field d "updatedAtMs" (Some now); expiresAtMs' ← field d "expiresAtMs" (Some None);
  session_post_init (mkSession id' appName' userId' status' state' nativeSessionRef' delegatedSessionRef' effectiveProfile'
      desiredPolicy' appliedPolicy' desiredRevision' appliedRevision' policyStatus' pendingPolicyUpdate'
      lastPolicyUpdateResult' controlState' supportsResume' resumableInvocationId' schemaVersion' createdAtMs'
      updatedAtMs' expiresAtMs').

Definition canon_session (r : SessionRecord) : SessionRecord :=
  mkSession (fcanon (s_id r)) (fcanon (s_appName r)) (fcanon (s_userId r)) (fcanon (s_status r))
    (fcanon (s_state r)) (fcanon (s_nativeSessionRef r)) (fcanon (s_delegatedSessionRef r))
    (fcanon (s_effectiveProfile r)) (fcanon (s_desiredPolicy r)) (fcanon (s_appliedPolicy r))
    (fcanon (s_desiredRevision r)) (fcanon (s_appliedRevision r)) (fcanon (s_policyStatus r))
    (fcanon (s_pendingPolicyUpdate r)) (fcanon (s_lastPolicyUpdateResult r)) (fcanon (s_controlState r))
    (fcanon (s_supportsResume r)) (fcanon (s_resumableInvocationId r)) (fcanon (s_schemaVersion r))
    (fcanon (s_createdAtMs r)) (fcanon (s_updatedAtMs r)) (fcanon (s_expiresAtMs r)).

Lemma session_asdict_wf r : dict_wf (session_asdict r).
Proof. wf_asdict. Qed.

Lemma construct_session_asdict now r : known_control_state (s_controlState r) = true → 
  construct_session now (canon_dict (session_asdict r)) = Ok (canon_session r).
Proof. intros Hc. read_fields (session_asdict_wf r). unfold session_post_init. simpl. by rewrite Hc. Qed.

Lemma session_asdict_canon r : canon_dict (session_asdict (canon_session r)) = canon_dict (session_asdict r).
Proof. sorted_fields. Qed.

(** ** [InvocationRecord] *)

Definition invocation_asdict (r : InvocationRecord) : pydict :=
  [("id", enc (i_id r)); ("sessionId", enc (i_sessionId r)); ("appName", enc (i_appName r));
   ("turnId", enc (i_turnId r)); ("userId", enc (i_userId r)); ("status", enc (i_status r));
   ("acceptedAtMs", enc (i_acceptedAtMs r)); ("idempotencyKeyHash", enc (i_idempotencyKeyHash r));
   ("idempotencyExpiresAtMs", enc (i_idempotencyExpiresAtMs r)); ("schemaVersion", enc (i_schemaVersion r));
   ("startedAtMs", enc (i_startedAtMs r)); ("completedAtMs", enc (i_completedAtMs r));
   ("timeoutSeconds", enc (i_timeoutSeconds r)); ("deadlineAtMs", enc (i_deadlineAtMs r));
   ("continuedFromInvocationId", enc (i_continuedFromInvocationId r));
   ("continuedFromTurnId", enc (i_continuedFromTurnId r)); ("executionContext", enc (i_executionContext r));
   ("nativeTurnRef", enc (i_nativeTurnRef r))].

Definition construct_invocation (now : Z) (d : pydict) : result InvocationRecord :=
  id' ← field d "id" None; sessionId' ← field d "sessionId" None; appName' ← field d "appName" None;
  turnId' ← field d "turnId" None; userId' ← field d "userId" (Some "");
  status' ← field d "status" (Some "running"); acceptedAtMs' ← field d "acceptedAtMs" (Some None);
  idempotencyKeyHash' ← field d "idempotencyKeyHash" (Some None);
  idempotencyExpiresAtMs' ← field d "idempotencyExpiresAtMs" (Some None);
  schemaVersion' ← field d "schemaVersion" (Some 1%Z); startedAtMs' ← field d "startedAtMs" (Some now);
  completedAtMs' ← field d "completedAtMs" (Some None); timeoutSeconds' ← field d "timeoutSeconds" (Some None);
  deadlineAtMs' ← field d "deadlineAtMs" (Some None);
  continuedFromInvocationId' ← field d "continuedFromInvocationId" (Some None);
  continuedFromTurnId' ← field d "continuedFromTurnId" (Some None);
  executionContext' ← field d "executionContext" (Some []);
  nativeTurnRef' ← field d "nativeTurnRef" (Some None);
  mret (mkInvocation id' sessionId' appName' turnId' userId' status' acceptedAtMs' idempotencyKeyHash'
      idempotencyExpiresAtMs' schemaVersion' startedAtMs' completedAtMs' timeoutSeconds' deadlineAtMs'
      continuedFromInvocationId' continuedFromTurnId' executionContext' nativeTurnRef').

Definition canon_invocation (r : InvocationRecord) : InvocationRecord :=
  mkInvocation (fcanon (i_id r)) (fcanon (i_sessionId r)) (fcanon (i_appName r)) (fcanon (i_turnId r))
    (fcanon (i_userId r)) (fcanon (i_status r)) (fcanon (i_acceptedAtMs r)) (fcanon (i_idempotencyKeyHash r))
    (fcanon (i_idempotencyExpiresAtMs r)) (fcanon (i_schemaVersion r)) (fcanon (i_startedAtMs r))
    (fcanon (i_completedAtMs r)) (fcanon (i_timeoutSeconds r)) (fcanon (i_deadlineAtMs r))
    (fcanon (i_continuedFromInvocationId r)) (fcanon (i_continuedFromTurnId r)) (fcanon (i_executionContext r))
    (fcanon (i_nativeTurnRef r)).

Lemma invocation_asdict_wf r : dict_wf (invocation_asdict r).
Proof. wf_asdict. Qed.

Lemma construct_invocation_asdict now r :
  construct_invocation now (canon_dict (invocation_asdict r)) = Ok (canon_invocation r).
Proof. read_fields (invocation_asdict_wf r). done. Qed.

Lemma invocation_asdict_canon r : canon_dict (invocation_asdict (canon_invocation r)) = canon_dict (invocation_asdict r).
Proof. sorted_fields. Qed.

(** ** [TurnRecord] *)

Definition turn_asdict (r : TurnRecord) : pydict :=
  [("id", enc (t_id r)); ("invocationId", enc (t_invocationId r)); ("sessionId", enc (t_sessionId r));
   ("status", enc (t_status r)); ("schemaVersion", enc (t_schemaVersion r));
   ("startedAtMs", enc (t_startedAtMs r)); ("completedAtMs", enc (t_completedAtMs r));
   ("continuedFromInvocationId", enc (t_continuedFromInvocationId r));
   ("continuedFromTurnId", enc (t_continuedFromTurnId r)); ("nativeTurnRef", enc (t_nativeTurnRef r))].

Definition construct_turn (now : Z) (d : pydict) : result TurnRecord :=
  id' ← field d "id" None; invocationId' ← field d "invocationId" None; sessionId' ← field d "sessionId" None;
  status' ← field d "status" (Some "running"); schemaVersion' ← field d "schemaVersion" (Some 1%Z);
  startedAtMs' ← field d "startedAtMs" (Some now); completedAtMs' ← field d "completedAtMs" (Some None);
  continuedFromInvocationId' ← field d "continuedFromInvocationId" (Some None);
  continuedFromTurnId' ← field d "continuedFromTurnId" (Some None);
  nativeTurnRef' ← field d "nativeTurnRef" (Some None);
  mret (mkTurn id' invocationId' sessionId' status' schemaVersion' startedAtMs' completedAtMs'
      continuedFromInvocationId' continuedFromTurnId' nativeTurnRef').

Definition canon_turn (r : TurnRecord) : TurnRecord :=
  mkTurn (fcanon (t_id r)) (fcanon (t_invocationId r)) (fcanon (t_sessionId r)) (fcanon (t_status r))
    (fcanon (t_schemaVersion r)) (fcanon (t_startedAtMs r)) (fcanon (t_completedAtMs r))
    (fcanon (t_continuedFromInvocationId r)) (fcanon (t_continuedFromTurnId r)) (fcanon (t_nativeTurnRef r)).

Lemma turn_asdict_wf r : dict_wf (turn_asdict r).
Proof. wf_asdict. Qed.

Lemma construct_turn_asdict now r :
  construct_turn now (canon_dict (turn_asdict r)) = Ok (canon_turn r).
Proof. read_fields (turn_asdict_wf r). done. Qed.

Lemma turn_asdict_canon r : canon_dict (turn_asdict (canon_turn r)) = canon_dict (turn_asdict r).
Proof. sorted_fields. Qed.

(** ** [DelegatedRuntimeRecord] *)

Definition runtime_asdict (r : DelegatedRuntimeRecord) : pydict :=
  [("status", enc (dr_status r)); ("containerId", enc (dr_containerId r));
   ("containerGeneration", enc (dr_containerGeneration r)); ("lastStartedAtMs", enc (dr_lastStartedAtMs r));
   ("lastActiveAtMs", enc (dr_lastActiveAtMs r))].

Definition construct_runtime (d : pydict) : result DelegatedRuntimeRecord :=
  status' ← field d "status" (Some "no_runtime"); containerId' ← field d "containerId" (Some None);
  containerGeneration' ← field d "containerGeneration" (Some 0%Z);
  lastStartedAtMs' ← field d "lastStartedAtMs" (Some None);
  lastActiveAtMs' ← field d "lastActiveAtMs" (Some None);
  mret (mkDelegatedRuntime status' containerId' containerGeneration' lastStartedAtMs' lastActiveAtMs').

Definition canon_runtime (r : DelegatedRuntimeRecord) : DelegatedRuntimeRecord :=
  mkDelegatedRuntime (fcanon (dr_status r)) (fcanon (dr_containerId r)) (fcanon (dr_containerGeneration r))
    (fcanon (dr_lastStartedAtMs r)) (fcanon (dr_lastActiveAtMs r)).

Lemma runtime_asdict_wf r : dict_wf (runtime_asdict r).
Proof. wf_asdict. Qed.

Lemma construct_runtime_asdict r :
  construct_runtime (canon_dict (runtime_asdict r)) = Ok (canon_runtime r).
Proof. read_fields (runtime_asdict_wf r). done. Qed.

Lemma runtime_asdict_canon r : canon_dict (runtime_asdict (canon_runtime r)) = canon_dict (runtime_asdict r).
Proof. sorted_fields. Qed.

#[export] Instance field_runtime : Field DelegatedRuntimeRecord := {|
  enc r := PDict (runtime_asdict r); dec v := dec_dict v ≫= λ d, ok_value (construct_runtime d); fcanon := canon_runtime;
  dec_enc := dec_enc_record _ _ _ runtime_asdict_wf construct_runtime_asdict;
  canon_enc := canon_enc_record _ _ runtime_asdict_canon |}.
#[export] Instance not_none_runtime : NotNone DelegatedRuntimeRecord := λ _, eq_refl.

(** The runtime of a delegated session payload: [data.get("runtime") or {}]. *)
Definition runtime_field (d : pydict) : result DelegatedRuntimeRecord :=
  match dget "runtime" d with
  | None => construct_runtime []
  | Some (PDict p) => construct_runtime p
  | Some v => if truthy v then Raise (ValueError "record payload must be an object") else construct_runtime []
  end.

Lemma runtime_field_ok d r : dict_wf d → dget "runtime" d = Some (enc r) → runtime_field (canon_dict d) = Ok (fcanon r).
Proof.
  intros W E. unfold runtime_field. rewrite dget_canon, E by done.
  cbn [fmap option_fmap option_map enc field_runtime]. by rewrite canon_PDict, construct_runtime_asdict.
Qed.

Ltac nested_field wf ::= erewrite result_bind_ok; [|apply runtime_field_ok; [exact wf|reflexivity]].

(** ** [DelegatedSessionRecord] *)

Definition delegated_asdict (r : DelegatedSessionRecord) : pydict :=
  [("id", enc (ds_id r)); ("managerSessionId", enc (ds_managerSessionId r));
   ("haasSessionId", enc (ds_haasSessionId r)); ("haasUserId", enc (ds_haasUserId r));
   ("harnessId", enc (ds_harnessId r)); ("image", enc (ds_image r)); ("provider", enc (ds_provider r));
   ("mountManifest", enc (ds_mountManifest r));
   ("delegationPolicySnapshot", enc (ds_delegationPolicySnapshot r)); ("harnessBase", enc (ds_harnessBase r));
   ("binding", enc (ds_binding r)); ("profileRef", enc (ds_profileRef r));
   ("workspaceMode", enc (ds_workspaceMode r)); ("acceptedInvocationId", enc (ds_acceptedInvocationId r));
   ("bindingAcceptedAtMs", enc (ds_bindingAcceptedAtMs r));
   ("bindingFailureSafeReason", enc (ds_bindingFailureSafeReason r));
   ("desiredRevision", enc (ds_desiredRevision r)); ("appliedRevision", enc (ds_appliedRevision r));
   ("pendingPolicyUpdate", enc (ds_pendingPolicyUpdate r));
   ("pendingPolicyTarget", enc (ds_pendingPolicyTarget r));
   ("lastPolicyUpdateResult", enc (ds_lastPolicyUpdateResult r)); ("runtime", enc (ds_runtime r));
   ("object", enc (ds_object r)); ("schemaVersion", enc (ds_schemaVersion r));
   ("createdAtMs", enc (ds_createdAtMs r)); ("updatedAtMs", enc (ds_updatedAtMs r))].

Definition construct_delegated (now : Z) (d : pydict) : result DelegatedSessionRecord :=
  id' ← field d "id" None; managerSessionId' ← field d "managerSessionId" None;
  haasSessionId' ← field d "haasSessionId" None; haasUserId' ← field d "haasUserId" None;
  harnessId' ← field d "harnessId" None; image' ← field d "image" None; provider' ← field d "provider" None;
  mountManifest' ← field d "mountManifest" None;
  delegationPolicySnapshot' ← field d "delegationPolicySnapshot" None;
  harnessBase' ← field d "harnessBase" (Some "codex"); binding' ← field d "binding" (Some "haas_bound");
  profileRef' ← field d "profileRef" (Some []); workspaceMode' ← field d "workspaceMode" (Some "bind_mount");
  acceptedInvocationId' ← field d "acceptedInvocationId" (Some None);
  bindingAcceptedAtMs' ← field d "bindingAcceptedAtMs" (Some None);
  bindingFailureSafeReason' ← field d "bindingFailureSafeReason" (Some None);
  desiredRevision' ← field d "desiredRevision" (Some 1%Z);
  appliedRevision' ← field d "appliedRevision" (Some 1%Z);
  pendingPolicyUpdate' ← field d "pendingPolicyUpdate" (Some None);
  pendingPolicyTarget' ← field d "pendingPolicyTarget" (Some None);
  lastPolicyUpdateResult' ← field d "lastPolicyUpdateResult" (Some None); runtime' ← runtime_field d;
  object' ← field d "object" (Some "delegated_session"); schemaVersion' ← field d "schemaVersion" (Some 1%Z);
  createdAtMs' ← field d "createdAtMs" (Some now); updatedAtMs' ← field d "updatedAtMs" (Some now);
  mret (mkDelegatedSession id' managerSessionId' haasSessionId' haasUserId' harnessId' image' provider'
      mountManifest' delegationPolicySnapshot' harnessBase' binding' profileRef' workspaceMode'
      acceptedInvocationId' bindingAcceptedAtMs' bindingFailureSafeReason' desiredRevision' appliedRevision'
      pendingPolicyUpdate' pendingPolicyTarget' lastPolicyUpdateResult' runtime' object' schemaVersion'
      createdAtMs' updatedAtMs').

Definition canon_delegated (r : DelegatedSessionRecord) : DelegatedSessionRecord :=
  mkDelegatedSession (fcanon (ds_id r)) (fcanon (ds_managerSessionId r)) (fcanon (ds_haasSessionId r))
    (fcanon (ds_haasUserId r)) (fcanon (ds_harnessId r)) (fcanon (ds_image r)) (fcanon (ds_provider r))
    (fcanon (ds_mountManifest r)) (fcanon (ds_delegationPolicySnapshot r)) (fcanon (ds_harnessBase r))
    (fcanon (ds_binding r)) (fcanon (ds_profileRef r)) (fcanon (ds_workspaceMode r))
    (fcanon (ds_acceptedInvocationId r)) (fcanon (ds_bindingAcceptedAtMs r))
    (fcanon (ds_bindingFailureSafeReason r)) (fcanon (ds_desiredRevision r)) (fcanon (ds_appliedRevision r))
    (fcanon (ds_pendingPolicyUpdate r)) (fcanon (ds_pendingPolicyTarget r))
    (fcanon (ds_lastPolicyUpdateResult r)) (fcanon (ds_runtime r)) (fcanon (ds_object r))
    (fcanon (ds_schemaVersion r)) (fcanon (ds_createdAtMs r)) (fcanon (ds_updatedAtMs r)).

Lemma delegated_asdict_wf r : dict_wf (delegated_asdict r).
Proof. wf_asdict. Qed.

Lemma construct_delegated_asdict now r :
  construct_delegated now (canon_dict (delegated_asdict r)) = Ok (canon_delegated r).
Proof. read_fields (delegated_asdict_wf r). done. Qed.

Lemma delegated_asdict_canon r : canon_dict (delegated_asdict (canon_delegated r)) = canon_dict (delegated_asdict r).
Proof. sorted_fields. Qed.

(** ** [ApprovalRecord] *)

Definition approval_asdict (r : ApprovalRecord) : pydict :=
  [("id", enc (a_id r)); ("sessionId", enc (a_sessionId r)); ("invocationId", enc (a_invocationId r));
   ("turnId", enc (a_turnId r)); ("status", enc (a_status r)); ("request", enc (a_request r));
   ("decision", enc (a_decision r)); ("nativeRequestId", enc (a_nativeRequestId r));
   ("adapterGeneration", enc (a_adapterGeneration r)); ("expiresAtMs", enc (a_expiresAtMs r));
   ("schemaVersion", enc (a_schemaVersion r)); ("createdAtMs", enc (a_createdAtMs r));
   ("resolvedAtMs", enc (a_resolvedAtMs r))].

Definition construct_approval (now : Z) (d : pydict) : result ApprovalRecord :=
  id' ← field d "id" None; sessionId' ← field d "sessionId" None; invocationId' ← field d "invocationId" None;
  turnId' ← field d "turnId" None; status' ← field d "status" (Some "waiting");
  request' ← field d "request" (Some []); decision' ← field d "decision" (Some None);
  nativeRequestId' ← field d "nativeRequestId" (Some None);
  adapterGeneration' ← field d "adapterGeneration" (Some None);
  expiresAtMs' ← field d "expiresAtMs" (Some None); schemaVersion' ← field d "schemaVersion" (Some 1%Z);
  createdAtMs' ← field d "createdAtMs" (Some now); resolvedAtMs' ← field d "resolvedAtMs" (Some None);
  mret (mkApproval id' sessionId' invocationId' turnId' status' request' decision' nativeRequestId'
      adapterGeneration' expiresAtMs' schemaVersion' createdAtMs' resolvedAtMs').

Definition canon_approval (r : ApprovalRecord) : ApprovalRecord :=
  mkApproval (fcanon (a_id r)) (fcanon (a_sessionId r)) (fcanon (a_invocationId r)) (fcanon (a_turnId r))
    (fcanon (a_status r)) (fcanon (a_request r)) (fcanon (a_decision r)) (fcanon (a_nativeRequestId r))
    (fcanon (a_adapterGeneration r)) (fcanon (a_expiresAtMs r)) (fcanon (a_schemaVersion r))
    (fcanon (a_createdAtMs r)) (fcanon (a_resolvedAtMs r)).

Lemma approval_asdict_wf r : dict_wf (approval_asdict r).
Proof. wf_asdict. Qed.

Lemma construct_approval_asdict now r :
  construct_approval now (canon_dict (approval_asdict r)) = Ok (canon_approval r).
Proof. read_fields (approval_asdict_wf r). done. Qed.

Lemma approval_asdict_canon r : canon_dict (approval_asdict (canon_approval r)) = canon_dict (approval_asdict r).
Proof. sorted_fields. Qed.

(** ** [InputRequestRecord] *)

Definition input_asdict (r : InputRequestRecord) : pydict :=
  [("id", enc (q_id r)); ("sessionId", enc (q_sessionId r)); ("invocationId", enc (q_invocationId r));
   ("turnId", enc (q_turnId r)); ("questions", enc (q_questions r));
   ("nativeRequestId", enc (q_nativeRequestId r)); ("adapterGeneration", enc (q_adapterGeneration r));
   ("status", enc (q_status r)); ("blocking", enc (q_blocking r)); ("answers", enc (q_answers r));
   ("expiresAtMs", enc (q_expiresAtMs r)); ("schemaVersion", enc (q_schemaVersion r));
   ("createdAtMs", enc (q_createdAtMs r)); ("resolvedAtMs", enc (q_resolvedAtMs r))].

Definition construct_input (now : Z) (d : pydict) : result InputRequestRecord :=
  id' ← field d "id" None; sessionId' ← field d "sessionId" None; invocationId' ← field d "invocationId" None;
  turnId' ← field d "turnId" None; questions' ← field d "questions" None;
  nativeRequestId' ← field d "nativeRequestId" None; adapterGeneration' ← field d "adapterGeneration" None;
  status' ← field d "status" (Some "waiting"); blocking' ← field d "blocking" (Some true);
  answers' ← field d "answers" (Some None); expiresAtMs' ← field d "expiresAtMs" (Some None);
  schemaVersion' ← field d "schemaVersion" (Some 1%Z); createdAtMs' ← field d "createdAtMs" (Some now);
  resolvedAtMs' ← field d "resolvedAtMs" (Some None);
  mret (mkInputRequest id' sessionId' invocationId' turnId' questions' nativeRequestId' adapterGeneration'
      status' blocking' answers' expiresAtMs' schemaVersion' createdAtMs' resolvedAtMs').

Definition canon_input (r : InputRequestRecord) : InputRequestRecord :=
  mkInputRequest (fcanon (q_id r)) (fcanon (q_sessionId r)) (fcanon (q_invocationId r)) (fcanon (q_turnId r))
    (fcanon (q_questions r)) (fcanon (q_nativeRequestId r)) (fcanon (q_adapterGeneration r))
    (fcanon (q_status r)) (fcanon (q_blocking r)) (fcanon (q_answers r)) (fcanon (q_expiresAtMs r))
    (fcanon (q_schemaVersion r)) (fcanon (q_createdAtMs r)) (fcanon (q_resolvedAtMs r)).

Lemma input_asdict_wf r : dict_wf (input_asdict r).
Proof. wf_asdict. Qed.

Lemma construct_input_asdict now r :
  construct_input now (canon_dict (input_asdict r)) = Ok (canon_input r).
Proof. read_fields (input_asdict_wf r). done. Qed.

Lemma input_asdict_canon r : canon_dict (input_asdict (canon_input r)) = canon_dict (input_asdict r).
Proof. sorted_fields. Qed.

(** ** [CanonicalEventRecord] *)

Definition event_asdict (r : CanonicalEventRecord) : pydict :=
  [("eventId", enc (e_eventId r)); ("invocationId", enc (e_invocationId r));
   ("sessionId", enc (e_sessionId r)); ("turnId", enc (e_turnId r)); ("author", enc (e_author r));
   ("sequenceNumber", enc (e_sequenceNumber r)); ("content", enc (e_content r));
   ("actions", enc (e_actions r)); ("type", enc (e_type r)); ("haas", enc (e_haas r));
   ("schemaVersion", enc (e_schemaVersion r)); ("observedAtMs", enc (e_observedAtMs r));
   ("redactionApplied", enc (e_redactionApplied r)); ("harnessId", enc (e_harnessId r));
   ("adapterId", enc (e_adapterId r)); ("appName", enc (e_appName r)); ("userId", enc (e_userId r))].

Definition construct_event (now : Z) (d : pydict) : result CanonicalEventRecord :=
  eventId' ← field d "eventId" None; invocationId' ← field d "invocationId" None;
  sessionId' ← field d "sessionId" None; turnId' ← field d "turnId" None; author' ← field d "author" None;
  sequenceNumber' ← field d "sequenceNumber" None; content' ← field d "content" None;
  actions' ← field d "actions" None; type' ← field d "type" (Some "haas.adapter.event_unparsed");
  haas' ← field d "haas" (Some []); schemaVersion' ← field d "schemaVersion" (Some 2%Z);
  observedAtMs' ← field d "observedAtMs" (Some now);
  redactionApplied' ← field d "redactionApplied" (Some true); harnessId' ← field d "harnessId" (Some "");
  adapterId' ← field d "adapterId" (Some ""); appName' ← field d "appName" (Some "");
  userId' ← field d "userId" (Some "");
  mret (mkEvent eventId' invocationId' sessionId' turnId' author' sequenceNumber' content' actions' type' haas'
      schemaVersion' observedAtMs' redactionApplied' harnessId' adapterId' appName' userId').

Definition canon_event (r : CanonicalEventRecord) : CanonicalEventRecord :=
  mkEvent (fcanon (e_eventId r)) (fcanon (e_invocationId r)) (fcanon (e_sessionId r)) (fcanon (e_turnId r))
    (fcanon (e_author r)) (fcanon (e_sequenceNumber r)) (fcanon (e_content r)) (fcanon (e_actions r))
    (fcanon (e_type r)) (fcanon (e_haas r)) (fcanon (e_schemaVersion r)) (fcanon (e_observedAtMs r))
    (fcanon (e_redactionApplied r)) (fcanon (e_harnessId r)) (fcanon (e_adapterId r)) (fcanon (e_appName r))
    (fcanon (e_userId r)).

Lemma event_asdict_wf r : dict_wf (event_asdict r).
Proof. wf_asdict. Qed.

Lemma construct_event_asdict now r :
  construct_event now (canon_dict (event_asdict r)) = Ok (canon_event r).
Proof. read_fields (event_asdict_wf r). done. Qed.

Lemma event_asdict_canon r : canon_dict (event_asdict (canon_event r)) = canon_dict (event_asdict r).
Proof. sorted_fields. Qed.

(** ** [Lease] *)

Definition lease_asdict (r : Lease) : pydict :=
  [("holder", enc (l_holder r)); ("expiresAtMs", enc (l_expiresAtMs r)); ("token", enc (l_token r))].

Definition construct_lease (d : pydict) : result Lease :=
  holder' ← field d "holder" None; expiresAtMs' ← field d "expiresAtMs" None; token' ← field d "token" None;
  mret (mkLease holder' expiresAtMs' token').

Definition canon_lease (r : Lease) : Lease :=
  mkLease (fcanon (l_holder r)) (fcanon (l_expiresAtMs r)) (fcanon (l_token r)).

Lemma lease_asdict_wf r : dict_wf (lease_asdict r).
Proof. wf_asdict. Qed.

Lemma construct_lease_asdict r :
  construct_lease (canon_dict (lease_asdict r)) = Ok (canon_lease r).
Proof. read_fields (lease_asdict_wf r). done. Qed.

Lemma lease_asdict_canon r : canon_dict (lease_asdict (canon_lease r)) = canon_dict (lease_asdict r).
Proof. sorted_fields. Qed.
