(* ===== verification/Store.v ===== *)
(** * The in-memory store: state and object references (haas/stores/memory.py)

    [MemoryStore] keeps session, invocation and turn _objects_: callers hold the
    object the store returned and assign to its fields, and the store sees the
    assignment.  Those three tables therefore map keys to references into an object
    table; every other table holds values, because no caller mutates the records it
    gets from them.  [dataclasses.replace] allocates a new object. *)

From S2P Require Import Prelude Errors Dict PyVal Records.

#[local] Open Scope string_scope.
#[local] Open Scope list_scope.

(** A reference to an object: its position in the object table. *)
Notation loc := nat (only parsing).

(** The attributes of [MemoryStore], in the order [__init__] sets them; the three
    object tables are the heap behind the session, invocation and turn tables. *)
Record MemoryStore := mkStore {
  st_idempotency_ttl_ms : Z;
  st_harnesses : dict string HarnessRecord;
  st_profiles : dict string ProfileRecord;
  st_session_objs : list SessionRecord;
  st_sessions : dict SessionKey loc;
  st_invocation_objs : list InvocationRecord;
  st_invocations : dict string loc;
  st_turn_objs : list TurnRecord;
  st_turns : dict string loc;
  st_events_by_invocation : dict InvocationEventKey (list CanonicalEventRecord);
  st_events_by_session : dict SessionKey (list CanonicalEventRecord);
  st_next_event_number : N;
  st_idempotency : dict string IdempotencyRecord;
  st_leases : dict SessionKey Lease;
  st_lease_tokens : dict SessionKey Z;
  st_workspace_locks : dict string Lease;
  st_windows : dict string (list Z);
  st_quotas : dict string Z;
  st_delegated_sessions : dict string DelegatedSessionRecord;
  st_delegated_by_manager_session : dict string string;
  st_delegated_by_haas_session : dict string string;
  st_approvals : dict string ApprovalRecord;
  st_input_requests : dict string InputRequestRecord;
}.
#[export] Instance eta_MemoryStore : Eta MemoryStore := λ r, mkStore
   (st_idempotency_ttl_ms r) (st_harnesses r) (st_profiles r) (st_session_objs r)
   (st_sessions r) (st_invocation_objs r) (st_invocations r) (st_turn_objs r) (st_turns r)
   (st_events_by_invocation r) (st_events_by_session r) (st_next_event_number r)
   (st_idempotency r) (st_leases r) (st_lease_tokens r) (st_workspace_locks r) (st_windows r)
   (st_quotas r) (st_delegated_sessions r) (st_delegated_by_manager_session r)
   (st_delegated_by_haas_session r) (st_approvals r) (st_input_requests r).

(** [MemoryStore.__init__]; the clock is an argument of the operations that read it. *)
Definition MemoryStore_init (ttl : Z) : MemoryStore :=
  mkStore ttl [] [] [] [] [] [] [] [] [] [] 0 [] [] [] [] [] [] [] [] [] [] [].

(** A store operation: reads and writes the store, may raise. *)
Notation store_m A := (M MemoryStore A).

(** ** Object access *)

Definition load_session (l : loc) : store_m SessionRecord := λ s,
  match st_session_objs s !! l with Some r => (s, Ok r) | None => (s, Raise DanglingReference) end.

(** Assign to fields of a session object: [f] gives the object after the assignments. *)
Definition assign_session (l : loc) (f : SessionRecord → SessionRecord) : store_m unit :=
  modify (λ s, s <| st_session_objs := alter f l (st_session_objs s) |>).

Definition alloc_session (r : SessionRecord) : store_m loc := λ s,
  (s <| st_session_objs := st_session_objs s ++ [r] |>, Ok (length (st_session_objs s))).

Definition load_invocation (l : loc) : store_m InvocationRecord := λ s,
  match st_invocation_objs s !! l with Some r => (s, Ok r) | None => (s, Raise DanglingReference) end.

Definition assign_invocation (l : loc) (f : InvocationRecord → InvocationRecord) : store_m unit :=
  modify (λ s, s <| st_invocation_objs := alter f l (st_invocation_objs s) |>).

Definition alloc_invocation (r : InvocationRecord) : store_m loc := λ s,
  (s <| st_invocation_objs := st_invocation_objs s ++ [r] |>, Ok (length (st_invocation_objs s))).

Definition load_turn (l : loc) : store_m TurnRecord := λ s,
  match st_turn_objs s !! l with Some r => (s, Ok r) | None => (s, Raise DanglingReference) end.

Definition assign_turn (l : loc) (f : TurnRecord → TurnRecord) : store_m unit :=
  modify (λ s, s <| st_turn_objs := alter f l (st_turn_objs s) |>).

Definition alloc_turn (r : TurnRecord) : store_m loc := λ s,
  (s <| st_turn_objs := st_turn_objs s ++ [r] |>, Ok (length (st_turn_objs s))).

(** The objects a table currently refers to, in table order. *)
Definition deref_all {A} (objs : list A) (ls : list loc) : list A := omap (λ l, objs !! l) ls.

Definition session_values (s : MemoryStore) : list SessionRecord :=
  deref_all (st_session_objs s) (dvalues (st_sessions s)).
Definition invocation_values (s : MemoryStore) : list InvocationRecord :=
  deref_all (st_invocation_objs s) (dvalues (st_invocations s)).
Definition turn_values (s : MemoryStore) : list TurnRecord :=
  deref_all (st_turn_objs s) (dvalues (st_turns s)).

(** The record a key currently resolves to. *)
Definition session_at (key : SessionKey) (s : MemoryStore) : option SessionRecord :=
  dget key (st_sessions s) ≫= λ l, st_session_objs s !! l.
Definition invocation_at (id : string) (s : MemoryStore) : option InvocationRecord :=
  dget id (st_invocations s) ≫= λ l, st_invocation_objs s !! l.
Definition turn_at (id : string) (s : MemoryStore) : option TurnRecord :=
  dget id (st_turns s) ≫= λ l, st_turn_objs s !! l.
