(* ===== verification/Leases.v ===== *)
(** * Session leases and workspace locks (haas/stores/memory.py)

    A session lease names its holder, its expiry and a fencing token.  Tokens
    come from a per-session counter that only grows, so a holder that lost its
    lease can be told from the current one.  Workspace locks are leases without
    a token: re-entrant for one delegated session, exclusive against others. *)

From S2P Require Import Prelude Errors Dict PyVal Records Store.

#[local] Open Scope string_scope.
#[local] Open Scope list_scope.
#[local] Open Scope Z_scope.

(** ** Operations *)

(** [acquire_workspace_lock] *)
Definition acquire_workspace_lock (now : Z) (canonical_workspace delegated_session_id access : string)
    (ttl_ms : Z) : store_m WorkspaceLockResult := λ s,
  if bool_decide (access = "ro") then (s, Ok (mkLockResult true (Some delegated_session_id) None))
  else
    let grant :=
      let lease := mkLease delegated_session_id (now + ttl_ms) 0 in
      (s <| st_workspace_locks := dset canonical_workspace lease (st_workspace_locks s) |>,
       Ok (mkLockResult true (Some delegated_session_id) (Some (l_expiresAtMs lease)))) in
    match dget canonical_workspace (st_workspace_locks s) with
    | Some existing =>
        if (now <? l_expiresAtMs existing) && negb (bool_decide (l_holder existing = delegated_session_id))
        then (s, Ok (mkLockResult false (Some (l_holder existing)) (Some (l_expiresAtMs existing))))
        else grant
    | None => grant
    end.

(** [release_workspace_lock] *)
Definition release_workspace_lock (canonical_workspace delegated_session_id : string) : store_m unit := λ s,
  match dget canonical_workspace (st_workspace_locks s) with
  | Some existing =>
      if bool_decide (l_holder existing = delegated_session_id)
      then (s <| st_workspace_locks := ddel canonical_workspace (st_workspace_locks s) |>, Ok tt)
      else (s, Ok tt)
  | None => (s, Ok tt)
  end.

(** [acquire_lease] *)
Definition acquire_lease (now : Z) (key : SessionKey) (holder : string) (ttl_ms : Z) : store_m Lease := λ s,
  let grant :=
    let token := default 0 (dget key (st_lease_tokens s)) + 1 in
    let lease := mkLease holder (now + ttl_ms) token in
    (s <| st_lease_tokens := dset key token (st_lease_tokens s) |>
       <| st_leases := dset key lease (st_leases s) |>, Ok lease) in
  match dget key (st_leases s) with
  | Some existing =>
      if (now <? l_expiresAtMs existing) && negb (bool_decide (l_holder existing = holder))
      then (s, Raise (LeaseConflictError (l_holder existing) (l_expiresAtMs existing)))
      else grant
  | None => grant
  end.

(** The condition under which [assert_lease] returns. *)
Definition lease_valid (now : Z) (key : SessionKey) (holder : string) (token : Z) (s : MemoryStore) : bool :=
  match dget key (st_leases s) with
  | Some existing =>
      negb (l_expiresAtMs existing <=? now) && bool_decide (l_holder existing = holder) &&
      (l_token existing =? token)
  | None => false
  end.

(** [assert_lease] *)
Definition assert_lease (now : Z) (key : SessionKey) (holder : string) (token : Z) : store_m unit := λ s,
  (s, ensure (lease_valid now key holder token s) LeaseFencingError).

(** [renew_lease]: the clock is read once by the check and once for the new expiry. *)
Definition renew_lease (now1 now2 : Z) (key : SessionKey) (holder : string) (token ttl_ms : Z) : store_m Lease :=
  _ ← assert_lease now1 key holder token;
  let lease := mkLease holder (now2 + ttl_ms) token in
  _ ← modify (λ s, s <| st_leases := dset key lease (st_leases s) |>);
  mret lease.

(** [release_lease] *)
Definition release_lease (key : SessionKey) (holder : string) (token : option Z) : store_m unit := λ s,
  match dget key (st_leases s) with
  | Some existing =>
      if bool_decide (l_holder existing = holder) &&
         match token with None => true | Some t => l_token existing =? t end
      then (s <| st_leases := ddel key (st_leases s) |>, Ok tt)
      else (s, Ok tt)
  | None => (s, Ok tt)
  end.

(** ** Invariant: a lease in the table carries the latest token of its session *)

Definition lease_inv (s : MemoryStore) : Prop :=
  ∀ key l, dget key (st_leases s) = Some l → dget key (st_lease_tokens s) = Some (l_token l).

(** The latest token handed out for a session, 0 before the first. *)
Definition last_token (key : SessionKey) (s : MemoryStore) : Z :=
  default 0 (dget key (st_lease_tokens s)).

(** A step of the store as seen by the leases: the invariant is kept and no
    session's token counter goes back. *)
Definition lease_progress (s s' : MemoryStore) : Prop :=
  (lease_inv s → lease_inv s') ∧ ∀ key, last_token key s <= last_token key s'.

#[export] Instance lease_progress_preorder : PreOrder lease_progress.
Proof.
  split; [split; [done|intros; lia]|].
  intros s1 s2 s3 [H1 H1'] [H2 H2']. split; [auto|]. intros key. specialize (H1' key); specialize (H2' key). lia.
Qed.

(** Operations on other tables do not touch the leases. *)
Definition same_leases (s s' : MemoryStore) : Prop :=
  st_leases s' = st_leases s ∧ st_lease_tokens s' = st_lease_tokens s.

Lemma same_leases_progress s s' : same_leases s s' → lease_progress s s'.
Proof.
  intros [Hl Ht]. unfold lease_progress, lease_inv, last_token. rewrite Hl, Ht.
  split; [done|intros; lia].
Qed.

Lemma lease_inv_init ttl : lease_inv (MemoryStore_init ttl).
Proof. intros key l; done. Qed.

Lemma acquire_lease_Ok now key holder ttl s s' l :
  acquire_lease now key holder ttl s = (s', Ok l) →
  l = mkLease holder (now + ttl) (last_token key s + 1) ∧
  s' = s <| st_lease_tokens := dset key (last_token key s + 1) (st_lease_tokens s) |>
         <| st_leases := dset key l (st_leases s) |> ∧
  (∀ e, dget key (st_leases s) = Some e → l_expiresAtMs e <= now ∨ l_holder e = holder).
Proof.
  unfold acquire_lease, last_token. destruct (dget key (st_leases s)) as [e|] eqn:E.
  - case_if; intros; simplify_eq/=; split_and!; try done. intros e' [= <-].
    apply andb_false_iff in E0 as [?|?]; bsimp; [left; lia|by right].
  - intros; simplify_eq/=. done.
Qed.

Lemma acquire_lease_Raise now key holder ttl s s' e :
  acquire_lease now key holder ttl s = (s', Raise e) →
  s' = s ∧ ∃ l, dget key (st_leases s) = Some l ∧ now < l_expiresAtMs l ∧ l_holder l ≠ holder ∧
    e = LeaseConflictError (l_holder l) (l_expiresAtMs l).
Proof.
  unfold acquire_lease. destruct (dget key (st_leases s)) as [l|] eqn:E; [|done].
  case_if; intros; simplify_eq/=. split; [done|]. by exists l.
Qed.

Lemma acquire_lease_progress now key holder ttl s :
  lease_progress s (acquire_lease now key holder ttl s).1.
Proof.
  destruct (acquire_lease now key holder ttl s) as [s' [l|e]] eqn:E; simpl.
  - apply acquire_lease_Ok in E as (-> & -> & _). split.
    + intros Hinv k l; cbn. rewrite !dget_dset. case_decide; [by intros [= <-]|apply Hinv].
    + intros k; unfold last_token; cbn. rewrite dget_dset. case_decide; subst; simpl; lia.
  - by apply acquire_lease_Raise in E as [-> _].
Qed.

Lemma lease_valid_token now key holder token s :
  lease_inv s → lease_valid now key holder token s = true → last_token key s = token.
Proof.
  unfold lease_valid, last_token. intros Hinv. destruct (dget key (st_leases s)) as [l|] eqn:E; [|done].
  intros; bsimp. rewrite (Hinv _ _ E). done.
Qed.

Lemma renew_lease_progress now1 now2 key holder token ttl s :
  lease_progress s (renew_lease now1 now2 key holder token ttl s).1.
Proof.
  unfold renew_lease, mbind, M_bind, assert_lease, ensure.
  destruct (lease_valid now1 key holder token s) eqn:E; simpl; [|done].
  split; [|done]. intros Hinv k l; cbn. rewrite dget_dset.
  case_decide; [intros [= <-]; subst|apply Hinv]. simpl.
  unfold lease_valid in E. destruct (dget key (st_leases s)) as [e|] eqn:Ee; [|done]. bsimp.
  rewrite (Hinv _ _ Ee). by subst.
Qed.

Lemma release_lease_progress key holder token s :
  lease_progress s (release_lease key holder token s).1.
Proof.
  unfold release_lease. destruct (dget key (st_leases s)) as [e|] eqn:E; [|done].
  case_if; [|done]. split; [|done]. intros Hinv k l; cbn. rewrite dget_ddel.
  case_decide; [done|apply Hinv].
Qed.

(** Once a session's counter has passed a token, nobody can use that token. *)
Lemma stale_token_rejected now key holder token s :
  lease_inv s → token < last_token key s → lease_valid now key holder token s = false.
Proof.
  intros Hinv Hlt. destruct (lease_valid now key holder token s) eqn:E; [|done].
  apply lease_valid_token in E; [lia|done].
Qed.

#[export] Hint Resolve acquire_lease_progress renew_lease_progress release_lease_progress
  same_leases_progress lease_inv_init : haas.

(** ** Behaviour of one call *)

(** A grant is usable by its holder until it expires, and by nobody else. *)
Lemma acquire_then_valid now key holder ttl s s' l t h tok :
  acquire_lease now key holder ttl s = (s', Ok l) →
  lease_valid t key h tok s' = true ↔ t < now + ttl ∧ h = holder ∧ tok = l_token l.
Proof.
  intros (-> & -> & _)%acquire_lease_Ok. unfold lease_valid; cbn. rewrite dget_dset_eq; cbn.
  rewrite !andb_true_iff, negb_true_iff, bool_decide_eq_true, Z.leb_gt, Z.eqb_eq. naive_solver lia.
Qed.

Lemma release_lease_frees key holder token s t h tok :
  lease_valid t key holder token s = true →
  lease_valid t key h tok (release_lease key holder (Some token) s).1 = false.
Proof.
  unfold lease_valid at 1, release_lease. destruct (dget key (st_leases s)) as [e|] eqn:E; [|done].
  intros; bsimp; subst. rewrite bool_decide_eq_true_2 by done. rewrite Z.eqb_refl. simpl.
  unfold lease_valid; cbn. by rewrite dget_ddel_eq.
Qed.

(** Releasing with a token that is no longer current leaves the store as it was. *)
Lemma release_lease_stale key holder token s :
  lease_inv s → token < last_token key s → release_lease key holder (Some token) s = (s, Ok tt).
Proof.
  intros Hinv Hlt. unfold release_lease. destruct (dget key (st_leases s)) as [e|] eqn:E; [|done].
  pose proof (Hinv _ _ E) as Ht. unfold last_token in Hlt. rewrite Ht in Hlt; simpl in Hlt.
  destruct (Z.eqb_spec (l_token e) token); [lia|]. by rewrite andb_false_r.
Qed.

(** ** Workspace locks *)

(** A read-write grant excludes every other delegated session until it expires. *)
Lemma workspace_lock_exclusive now ws a ttl s s' r :
  acquire_workspace_lock now ws a "rw" ttl s = (s', Ok r) → w_acquired r = true →
  ∀ t b ttl', t < now + ttl → b ≠ a →
    acquire_workspace_lock t ws b "rw" ttl' s' =
      (s', Ok (mkLockResult false (Some a) (Some (now + ttl)))).
Proof.
  intros H Hacq t b ttl' Ht Hne.
  assert (s' = s <| st_workspace_locks := dset ws (mkLease a (now + ttl) 0) (st_workspace_locks s) |>) as ->.
  { unfold acquire_workspace_lock in H. rewrite bool_decide_eq_false_2 in H by done.
    destruct (dget ws (st_workspace_locks s)); [case_if|]; simplify_eq/=; done. }
  unfold acquire_workspace_lock. rewrite bool_decide_eq_false_2 by done. cbn. rewrite dget_dset_eq; cbn.
  apply Z.ltb_lt in Ht as ->. rewrite bool_decide_eq_false_2 by done. done.
Qed.

(** Read-only access is always granted and takes no lock. *)
Lemma workspace_lock_ro now ws a ttl s :
  acquire_workspace_lock now ws a "ro" ttl s = (s, Ok (mkLockResult true (Some a) None)).
Proof. reflexivity. Qed.

(** ** Claims *)

(** Leases exclude and fence.  A granted lease is accepted until it expires, for its holder and
    token and for nobody else; it was granted only because no other holder's lease was alive, with a token
    above all earlier ones; while it lasts any other holder is refused without a change, and a release
    under a superseded token changes nothing. *)
Theorem lease_grant_is_exclusive now key holder ttl s s' l :
  lease_inv s → acquire_lease now key holder ttl s = (s', Ok l) →
  (∀ e, dget key (st_leases s) = Some e → l_expiresAtMs e <= now ∨ l_holder e = holder) ∧
  last_token key s < l_token l ∧ last_token key s' = l_token l ∧
  (∀ t h tok, lease_valid t key h tok s' = true ↔ t < now + ttl ∧ h = holder ∧ tok = l_token l) ∧
  (∀ t h ttl', t < now + ttl → h ≠ holder →
     acquire_lease t key h ttl' s' = (s', Raise (LeaseConflictError holder (now + ttl)))) ∧
  (∀ h tok, tok < l_token l → release_lease key h (Some tok) s' = (s', Ok tt)).
Proof.
  intros Hi E. pose proof (acquire_lease_Ok _ _ _ _ _ _ _ E) as (Hl & Hs & Hfree).
  assert (last_token key s' = l_token l) as Ht by (subst; unfold last_token; cbn; by rewrite dget_dset_eq).
  assert (lease_inv s') as Hi'. { pose proof (acquire_lease_progress now key holder ttl s) as [Hp _]. rewrite E in Hp. auto. }
  split_and!; [done|subst l; cbn; lia|done|intros; by eapply acquire_then_valid| |].
  - intros t h ttl' Hlt Hne. unfold acquire_lease. subst s' l. cbn. rewrite dget_dset_eq. cbn.
    apply Z.ltb_lt in Hlt as ->. by rewrite bool_decide_eq_false_2 by done.
  - intros h tok Hlt. apply release_lease_stale; [done|lia].
Qed.

(** A read-write workspace lock is exclusive.  Until it expires, every other delegated session that asks for
    the same canonical workspace is told who holds it and until when, and nothing changes; read-only
    access takes no lock. *)
Theorem workspace_lock_excludes now ws a ttl s s' r :
  acquire_workspace_lock now ws a "rw" ttl s = (s', Ok r) → w_acquired r = true →
  (∀ t b ttl', t < now + ttl → b ≠ a →
     acquire_workspace_lock t ws b "rw" ttl' s' = (s', Ok (mkLockResult false (Some a) (Some (now + ttl)))) ∧
     release_workspace_lock ws b s' = (s', Ok tt)) ∧
  (∀ t b ttl', acquire_workspace_lock t ws b "ro" ttl' s' = (s', Ok (mkLockResult true (Some b) None))).
Proof.
  intros H Hacq. split; [|done]. intros t b ttl' Ht Hne. split; [by eapply workspace_lock_exclusive|].
  pose proof (workspace_lock_exclusive _ _ _ _ _ _ _ H Hacq t b ttl' Ht Hne) as Hb.
  unfold acquire_workspace_lock in Hb. rewrite bool_decide_eq_false_2 in Hb by done. unfold release_workspace_lock.
  destruct (dget ws (st_workspace_locks s')) as [e|]; [|done].
  destruct (_ && _); [|done]. injection Hb as Hh _. by rewrite bool_decide_eq_false_2 by congruence.
Qed.

Module LeaseExamples.

Definition key : SessionKey := ("app", "u", "s").
Definition granted : MemoryStore := (acquire_lease 0 key "run_1" 100 (MemoryStore_init 0)).1.

Lemma lease_grant_is_exclusive_witness :
  lease_valid 99 key "run_1" 1 granted = true ∧
  acquire_lease 99 key "run_2" 100 granted = (granted, Raise (LeaseConflictError "run_1" 100)).
Proof.
  destruct (lease_grant_is_exclusive 0 key "run_1" 100 (MemoryStore_init 0) granted (mkLease "run_1" 100 1)
    (lease_inv_init 0) eq_refl) as (_ & _ & _ & Hv & Hb & _).
  split; [apply Hv; split_and!; [lia|reflexivity|reflexivity]|]. apply (Hb 99 "run_2" 100); [lia|discriminate].
Defined.

Definition locked : MemoryStore := (acquire_workspace_lock 0 "/w" "d1" "rw" 100 (MemoryStore_init 0)).1.

Lemma workspace_lock_excludes_witness :
  acquire_workspace_lock 50 "/w" "d2" "rw" 10 locked = (locked, Ok (mkLockResult false (Some "d1") (Some 100))).
Proof.
  refine (proj1 (proj1 (workspace_lock_excludes 0 "/w" "d1" 100 (MemoryStore_init 0) locked
    (mkLockResult true (Some "d1") (Some 100)) eq_refl eq_refl) 50 "d2" 10 _ _)); [lia|discriminate].
Defined.

End LeaseExamples.
