(* ===== verification/Idempotency.v ===== *)
(** * The idempotency table (haas/stores/memory.py, IdempotencyStore)

    A request with an [Idempotency-Key] reserves a slot before it runs.  A retry
    with the same key and the same request replays the stored result, a retry
    with another request is refused, and a result older than its time to live
    becomes a tombstone.  The specification is the four-state view [slot_state];
    the theorems say that every operation is a transition of that view. *)

From S2P Require Import Prelude Errors Dict PyVal Records Store.

#[local] Open Scope string_scope.
#[local] Open Scope list_scope.
#[local] Open Scope Z_scope.

(** ** Operations *)

(** The condition of [_expire_idempotency_result]. *)
Definition result_expired (now : Z) (r : IdempotencyRecord) : bool :=
  k_accepted r && is_some (k_result r) &&
  match k_expiresAtMs r with Some e => e <=? now | None => false end.

(** [_expire_idempotency_result] *)
Definition expire_idempotency_result (now : Z) (r : IdempotencyRecord) : IdempotencyRecord :=
  if result_expired now r then r <| k_result := None |> <| k_tombstone := true |> else r.

(** The condition under which [sweep_expired] removes a record. *)
Definition sweepable (now : Z) (r : IdempotencyRecord) : bool :=
  k_tombstone r && match k_expiresAtMs r with Some e => e <=? now | None => false end.

(** The keys [sweep_expired] removes. *)
Definition sweep_keys (now : Z) (d : dict string IdempotencyRecord) : list string :=
  (keep (λ kv, sweepable now kv.2) d).*1.

(** [sweep_expired] *)
Definition sweep_expired (now : Z) : store_m Z := λ s,
  let ks := sweep_keys now (st_idempotency s) in
  (s <| st_idempotency := ddel_all ks (st_idempotency s) |>, Ok (Z.of_nat (length ks))).

(** [IdempotencyRecord(keyHash=..., requestHash=..., createdAtMs=...)] *)
Definition fresh_idempotency (key_hash request_hash : string) (now : Z) : IdempotencyRecord :=
  mkIdempotency key_hash request_hash None false false None None None None false 1 now.

(** [reserve]: [now] is the clock read by the expiry check of an existing slot,
    [now_sweep] and [now_created] those of a fresh one. *)
Definition reserve (now now_sweep now_created : Z) (key_hash request_hash : string)
    : store_m IdempotencyReservation :=
  let fresh : store_m IdempotencyReservation :=
    _ ← sweep_expired now_sweep;
    _ ← modify (λ s, s <| st_idempotency :=
          dset key_hash (fresh_idempotency key_hash request_hash now_created) (st_idempotency s) |>);
    mret (mkReservation key_hash false None) in
  existing ← gets (λ s, dget key_hash (st_idempotency s));
  match existing with
  | Some r0 =>
      if k_released r0 then fresh
      else
        let r := expire_idempotency_result now r0 in
        _ ← modify (λ s, s <| st_idempotency := dset key_hash r (st_idempotency s) |>);
        if k_tombstone r then
          match k_expiresAtMs r with
          | Some e => raise (IdempotencyExpiredError key_hash (k_invocationId r) e)
          | None => raise (OtherError "AssertionError" None)
          end
        else if negb (bool_decide (k_requestHash r = request_hash))
        then raise (IdempotencyConflictError key_hash)
        else mret (mkReservation key_hash true (k_result r))
  | None => fresh
  end.

(** [accept]; [accepted_at_ms] is the argument, or the clock when it is omitted. *)
Definition accept (accepted_at : Z) (key_hash invocation_id : string) : store_m IdempotencyRecord := λ s,
  match dget key_hash (st_idempotency s) with
  | Some r =>
      if k_released r then (s, Raise (KeyError key_hash))
      else
        let r' := r <| k_accepted := true |> <| k_invocationId := Some invocation_id |>
                    <| k_acceptedAtMs := Some accepted_at |>
                    <| k_expiresAtMs := Some (accepted_at + st_idempotency_ttl_ms s) |> in
        (s <| st_idempotency := dset key_hash r' (st_idempotency s) |>, Ok r')
  | None => (s, Raise (KeyError key_hash))
  end.

(** [complete]; [PNone] as a result leaves the slot pending, as [None] does. *)
Definition complete (completed_at : Z) (key_hash : string) (res : option pyval) : store_m unit := λ s,
  match dget key_hash (st_idempotency s) with
  | Some r => (s <| st_idempotency := dset key_hash
      (r <| k_result := res |> <| k_completedAtMs := Some completed_at |>) (st_idempotency s) |>, Ok tt)
  | None => (s, Ok tt)
  end.

(** [replay] *)
Definition replay (now : Z) (key_hash : string) : store_m (option pyval) := λ s,
  match dget key_hash (st_idempotency s) with
  | Some r0 =>
      if k_released r0 then (s, Ok None)
      else
        let r := expire_idempotency_result now r0 in
        (s <| st_idempotency := dset key_hash r (st_idempotency s) |>,
         Ok (if k_tombstone r then None else k_result r))
  | None => (s, Ok None)
  end.

(** [is_pending] *)
Definition is_pending (key_hash : string) (s : MemoryStore) : bool :=
  match dget key_hash (st_idempotency s) with
  | Some r => negb (k_released r) && negb (k_tombstone r) && negb (is_some (k_result r))
  | None => false
  end.

(** [release] *)
Definition release (key_hash : string) : store_m unit := λ s,
  match dget key_hash (st_idempotency s) with
  | Some r => (s <| st_idempotency := dset key_hash (r <| k_released := true |>) (st_idempotency s) |>, Ok tt)
  | None => (s, Ok tt)
  end.

(** ** Specification: what a key stands for at a given time *)

Inductive slot_state :=
  | Free
  | InFlight (request_hash : string)
  | Completed (request_hash : string) (res : pyval)
  | Expired.

Definition record_state (now : Z) (r : IdempotencyRecord) : slot_state :=
  if k_released r then Free
  else if k_tombstone r || result_expired now r then Expired
  else match k_result r with
       | Some v => Completed (k_requestHash r) v
       | None => InFlight (k_requestHash r)
       end.

Definition slot (now : Z) (key_hash : string) (s : MemoryStore) : slot_state :=
  match dget key_hash (st_idempotency s) with
  | Some r => record_state now r
  | None => Free
  end.

(** What a reservation must answer in each state. *)
Definition reserve_spec (st : slot_state) (key_hash request_hash : string)
    : option (result IdempotencyReservation) :=
  match st with
  | Free => Some (Ok (mkReservation key_hash false None))
  | InFlight h =>
      Some (if bool_decide (h = request_hash) then Ok (mkReservation key_hash true None)
            else Raise (IdempotencyConflictError key_hash))
  | Completed h v =>
      Some (if bool_decide (h = request_hash) then Ok (mkReservation key_hash true (Some v))
            else Raise (IdempotencyConflictError key_hash))
  | Expired => None
  end.

(** Well-formed table: keys are unique and a tombstone has an expiry and no result. *)
Definition idem_record_wf (r : IdempotencyRecord) : Prop :=
  k_tombstone r = true → k_accepted r = true ∧ is_some (k_expiresAtMs r) = true.

Definition idem_inv (s : MemoryStore) : Prop :=
  dict_wf (st_idempotency s) ∧ ∀ k r, dget k (st_idempotency s) = Some r → idem_record_wf r.

Lemma idem_inv_init ttl : idem_inv (MemoryStore_init ttl).
Proof. split; [apply dict_wf_nil|done]. Qed.

Lemma expire_wf now r : idem_record_wf r → idem_record_wf (expire_idempotency_result now r).
Proof.
  unfold expire_idempotency_result, idem_record_wf. destruct (result_expired now r) eqn:E; [|done].
  intros _ _; cbn. unfold result_expired in E. bsimp. by destruct (k_expiresAtMs r).
Qed.

Lemma idem_inv_dset s k r :
  idem_inv s → idem_record_wf r → idem_inv (s <| st_idempotency := dset k r (st_idempotency s) |>).
Proof.
  intros [Hw Hr] Hnew. split; cbn; [by apply dict_wf_dset|].
  intros k' r'. rewrite dget_dset. case_decide; [by intros [= <-]|apply Hr].
Qed.

Lemma idem_inv_ddel_all s ks :
  idem_inv s → idem_inv (s <| st_idempotency := ddel_all ks (st_idempotency s) |>).
Proof.
  intros [Hw Hr]. split; cbn; [by apply dict_wf_ddel_all|].
  intros k' r'. rewrite dget_ddel_all. case_decide; [done|apply Hr].
Qed.

#[export] Hint Resolve idem_inv_init idem_inv_dset idem_inv_ddel_all expire_wf : haas.

Lemma sweep_keys_elem now k d :
  dict_wf d → k ∈ sweep_keys now d ↔ ∃ r, dget k d = Some r ∧ sweepable now r = true.
Proof.
  intros Hw. unfold sweep_keys. rewrite list_elem_of_fmap. split.
  - intros ([k' r] & -> & [Hs Hin]%elem_of_keep). exists r. split; [by apply elem_dget|done].
  - intros (r & Hd & Hs). exists (k, r). rewrite elem_of_keep. split; [done|]. split; [done|by apply dget_Some_elem].
Qed.

(** [sweep_expired] removes exactly the tombstones past their expiry. *)
Lemma sweep_expired_get now s k :
  idem_inv s →
  dget k (st_idempotency (sweep_expired now s).1) =
    match dget k (st_idempotency s) with
    | Some r => if sweepable now r then None else Some r
    | None => None
    end.
Proof.
  intros [Hw _]. cbn. rewrite dget_ddel_all. case_decide as H.
  - apply sweep_keys_elem in H as (r & -> & ->); done.
  - destruct (dget k (st_idempotency s)) as [r|] eqn:E; [|done].
    destruct (sweepable now r) eqn:Es; [|done]. destruct H. apply sweep_keys_elem; eauto.
Qed.

Lemma sweepable_state now now' r :
  sweepable now r = true → record_state now' r = if k_released r then Free else Expired.
Proof. unfold sweepable, record_state. intros; bsimp. destruct (k_released r); [done|]. rewrite H. done. Qed.

Lemma is_some_record_state_expire now r :
  k_released r = false →
  record_state now r = Expired ↔ k_tombstone (expire_idempotency_result now r) = true.
Proof.
  intros Hr. unfold record_state, expire_idempotency_result. rewrite Hr.
  destruct (result_expired now r); cbn; [rewrite orb_true_r; naive_solver|rewrite orb_false_r].
  destruct (k_tombstone r); [naive_solver|]. destruct (k_result r); naive_solver.
Qed.

(** ** Every operation keeps the table well formed *)

Lemma sweep_expired_inv now : preserves idem_inv (sweep_expired now).
Proof. intros s Hs. cbn. by apply idem_inv_ddel_all. Qed.

(** [reserve] as a function of the record it finds. *)
Lemma reserve_eq now ns nc k h s :
  reserve now ns nc k h s =
  match dget k (st_idempotency s) with
  | Some r0 =>
      if k_released r0 then
        ((sweep_expired ns s).1 <| st_idempotency :=
           dset k (fresh_idempotency k h nc) (st_idempotency (sweep_expired ns s).1) |>,
         Ok (mkReservation k false None))
      else
        let r := expire_idempotency_result now r0 in
        (s <| st_idempotency := dset k r (st_idempotency s) |>,
         if k_tombstone r then
           match k_expiresAtMs r with
           | Some e => Raise (IdempotencyExpiredError k (k_invocationId r) e)
           | None => Raise (OtherError "AssertionError" None)
           end
         else if negb (bool_decide (k_requestHash r = h)) then Raise (IdempotencyConflictError k)
         else Ok (mkReservation k true (k_result r)))
  | None =>
      ((sweep_expired ns s).1 <| st_idempotency :=
         dset k (fresh_idempotency k h nc) (st_idempotency (sweep_expired ns s).1) |>,
       Ok (mkReservation k false None))
  end.
Proof.
  unfold reserve, mbind, M_bind, gets, modify, mret, M_ret, raise.
  destruct (dget k (st_idempotency s)) as [r0|]; [|reflexivity].
  destruct (k_released r0); [reflexivity|]. cbn.
  destruct (k_tombstone _); [by destruct (k_expiresAtMs _)|]. by destruct (bool_decide _).
Qed.

Lemma fresh_wf k h now : idem_record_wf (fresh_idempotency k h now).
Proof. done. Qed.

Lemma reserve_inv now ns nc k h : preserves idem_inv (reserve now ns nc k h).
Proof.
  intros s Hs. rewrite reserve_eq.
  pose proof (sweep_expired_inv ns s Hs) as Hsw.
  destruct (dget k (st_idempotency s)) as [r0|] eqn:E; [destruct (k_released r0)|];
    cbn [fst]; apply idem_inv_dset; auto using fresh_wf.
  destruct Hs as [_ Hr]. by apply expire_wf, (Hr k).
Qed.

Lemma accept_inv now k i : preserves idem_inv (accept now k i).
Proof.
  intros s Hs. unfold accept. destruct (dget k _) as [r|] eqn:E; [|done].
  case_if; [done|]. apply idem_inv_dset; [done|]. done.
Qed.

Lemma complete_inv now k v : preserves idem_inv (complete now k v).
Proof.
  intros s Hs. unfold complete. destruct (dget k _) as [r|] eqn:E; [|done].
  apply idem_inv_dset; [done|]. destruct Hs as [_ Hr]. intros Ht. exact (Hr k r E Ht).
Qed.

Lemma replay_inv now k : preserves idem_inv (replay now k).
Proof.
  intros s Hs. unfold replay. destruct (dget k _) as [r|] eqn:E; [|done].
  case_if; [done|]. apply idem_inv_dset; [done|]. destruct Hs as [_ Hr]. by apply expire_wf, (Hr k).
Qed.

Lemma release_inv k : preserves idem_inv (release k).
Proof.
  intros s Hs. unfold release. destruct (dget k _) as [r|] eqn:E; [|done].
  apply idem_inv_dset; [done|]. destruct Hs as [_ Hr]. intros Ht. exact (Hr k r E Ht).
Qed.

#[export] Hint Resolve sweep_expired_inv reserve_inv accept_inv complete_inv replay_inv release_inv : haas.

(** ** Refinement: [reserve] answers as the slot's state demands *)

Lemma expire_hash now r : k_requestHash (expire_idempotency_result now r) = k_requestHash r.
Proof. unfold expire_idempotency_result. by destruct (result_expired now r). Qed.

Lemma record_state_live now r :
  k_released r = false → k_tombstone (expire_idempotency_result now r) = false →
  expire_idempotency_result now r = r ∧
  record_state now r =
    match k_result r with Some v => Completed (k_requestHash r) v | None => InFlight (k_requestHash r) end.
Proof.
  unfold expire_idempotency_result, record_state. intros ->.
  destruct (result_expired now r); cbn; [done|]. intros ->. done.
Qed.

(** The answer to a reservation is a function of the slot's state alone. *)
Lemma reserve_answers now ns nc k h s :
  idem_inv s →
  match reserve_spec (slot now k s) k h with
  | Some a => (reserve now ns nc k h s).2 = a
  | None => ∃ i e, (reserve now ns nc k h s).2 = Raise (IdempotencyExpiredError k i e)
  end.
Proof.
  intros [Hw Hr]. rewrite reserve_eq. unfold slot.
  destruct (dget k (st_idempotency s)) as [r|] eqn:E; [|done].
  destruct (k_released r) eqn:Erel; [unfold record_state; rewrite Erel; done|]. cbn.
  destruct (k_tombstone (expire_idempotency_result now r)) eqn:Et.
  - apply is_some_record_state_expire in Et as Hst; [|done]. rewrite Hst; cbn.
    destruct (expire_wf now r (Hr _ _ E) Et) as [_ He].
    destruct (k_expiresAtMs _); [eauto|done].
  - destruct (record_state_live now r Erel Et) as [Heq ->]. rewrite Heq.
    destruct (k_result r); cbn; by destruct (bool_decide _).
Qed.

(** After a granted reservation the slot is in flight for that request. *)
Lemma reserve_fresh_slot now ns nc k h s s' t :
  reserve now ns nc k h s = (s', Ok (mkReservation k false None)) →
  slot t k s' = InFlight h.
Proof.
  rewrite reserve_eq. unfold slot.
  destruct (dget k (st_idempotency s)) as [r|]; [destruct (k_released r)|];
    [|cbn; destruct (k_tombstone _); [destruct (k_expiresAtMs _); intros [=]|];
      destruct (bool_decide _); intros [=]|];
    intros [= <-]; cbn; by rewrite dget_dset_eq.
Qed.

(** A reservation changes no other slot, except that it may free an expired one. *)
Lemma reserve_other now ns nc k h s k' t :
  idem_inv s → k' ≠ k →
  slot t k' (reserve now ns nc k h s).1 = slot t k' s ∨
  (slot t k' s = Expired ∧ slot t k' (reserve now ns nc k h s).1 = Free).
Proof.
  intros Hinv Hne. rewrite reserve_eq.
  assert (∀ r, slot t k' ((sweep_expired ns s).1 <| st_idempotency :=
     dset k r (st_idempotency (sweep_expired ns s).1) |>) = slot t k' (sweep_expired ns s).1) as Hd.
  { intros r. unfold slot; cbn. by rewrite dget_dset_ne. }
  assert (slot t k' (sweep_expired ns s).1 = slot t k' s ∨
    (slot t k' s = Expired ∧ slot t k' (sweep_expired ns s).1 = Free)) as Hsw.
  { unfold slot. rewrite sweep_expired_get by done.
    destruct (dget k' (st_idempotency s)) as [r|]; [|by left].
    destruct (sweepable ns r) eqn:Es; [|by left]. rewrite (sweepable_state _ t _ Es).
    destruct (k_released r); [by left|by right]. }
  destruct (dget k (st_idempotency s)) as [r|]; [destruct (k_released r)|]; cbn [fst]; rewrite ?Hd; try done.
  left. unfold slot; cbn. by rewrite dget_dset_ne.
Qed.

(** ** Sequences of operations *)

Inductive idem_op :=
  | IReserve (now now_sweep now_created : Z) (key_hash request_hash : string)
  | IAccept (accepted_at : Z) (key_hash invocation_id : string)
  | IComplete (completed_at : Z) (key_hash : string) (res : option pyval)
  | IReplay (now : Z) (key_hash : string)
  | IRelease (key_hash : string)
  | ISweep (now : Z).

Definition exec_idem (op : idem_op) (s : MemoryStore) : MemoryStore :=
  match op with
  | IReserve now ns nc k h => (reserve now ns nc k h s).1
  | IAccept a k i => (accept a k i s).1
  | IComplete c k v => (complete c k v s).1
  | IReplay now k => (replay now k s).1
  | IRelease k => (release k s).1
  | ISweep now => (sweep_expired now s).1
  end.

Definition run_idem (ops : list idem_op) (s : MemoryStore) : MemoryStore :=
  foldl (λ s op, exec_idem op s) s ops.

Lemma exec_idem_inv op s : idem_inv s → idem_inv (exec_idem op s).
Proof.
  destruct op; cbn [exec_idem]; [apply reserve_inv|apply accept_inv|apply complete_inv
    |apply replay_inv|apply release_inv|apply sweep_expired_inv].
Qed.

Lemma run_idem_inv ops s : idem_inv s → idem_inv (run_idem ops s).
Proof. revert s. induction ops as [|op ops IH]; intros s Hs; simpl; [done|]. by apply IH, exec_idem_inv. Qed.

(** The slot of [k] belongs to the request [h] and its result, if any, lives until [T]. *)
Definition held (k h : string) (T : Z) (s : MemoryStore) : Prop :=
  ∃ r, dget k (st_idempotency s) = Some r ∧ k_released r = false ∧ k_tombstone r = false ∧
       k_requestHash r = h ∧ ∀ e, k_expiresAtMs r = Some e → T <= e.

(** Operations before [T] that do not release the slot and, when they accept it,
    let it live until [T]. *)
Definition op_before (k : string) (T ttl : Z) (op : idem_op) : Prop :=
  match op with
  | IReserve now _ _ _ _ | IReplay now _ => now < T
  | IAccept a k' _ => k' = k → T <= a + ttl
  | IRelease k' => k' ≠ k
  | IComplete _ _ _ | ISweep _ => True
  end.

Lemma expire_before now r T :
  now < T → (∀ e, k_expiresAtMs r = Some e → T <= e) → expire_idempotency_result now r = r.
Proof.
  intros Hlt He. unfold expire_idempotency_result, result_expired.
  destruct (k_expiresAtMs r) as [e|]; [|by rewrite andb_false_r].
  specialize (He e eq_refl). destruct (Z.leb_spec e now); [lia|]. by rewrite andb_false_r.
Qed.

Lemma held_dset_other k h T k' r s :
  k ≠ k' → held k h T s → held k h T (s <| st_idempotency := dset k' r (st_idempotency s) |>).
Proof. intros Hne (r0 & Hd & H). exists r0. split; [|done]. cbn. by rewrite dget_dset_ne. Qed.

Lemma held_dset k h T r s :
  k_released r = false → k_tombstone r = false → k_requestHash r = h →
  (∀ e, k_expiresAtMs r = Some e → T <= e) →
  held k h T (s <| st_idempotency := dset k r (st_idempotency s) |>).
Proof. intros ????. exists r. split_and!; try done. cbn. apply dget_dset_eq. Qed.

Lemma held_sweep k h T now s :
  idem_inv s → held k h T s → held k h T (sweep_expired now s).1.
Proof.
  intros Hinv (r & Hd & Hr & Ht & H). exists r. split_and!; try done; [|apply H..].
  rewrite sweep_expired_get by done. rewrite Hd. unfold sweepable. by rewrite Ht.
Qed.

Lemma held_reserve k h T now ns nc k' h' s :
  idem_inv s → now < T → held k h T s → held k h T (reserve now ns nc k' h' s).1.
Proof.
  intros Hinv Hlt Hh. rewrite reserve_eq. destruct (decide (k' = k)) as [->|Hne].
  - destruct Hh as (r & -> & Hrel & Ht & Hh & He). rewrite Hrel. cbn [fst].
    rewrite (expire_before _ _ _ Hlt He). by apply held_dset.
  - destruct (dget k' _) as [r|]; [destruct (k_released r)|]; cbn [fst]; apply held_dset_other;
      try done; by apply held_sweep.
Qed.

Lemma held_exec k h T op s :
  idem_inv s → op_before k T (st_idempotency_ttl_ms s) op → held k h T s → held k h T (exec_idem op s).
Proof.
  intros Hinv Hop Hh. destruct op as [now ns nc k' h'|a k' i|c k' v|now k'|k'|now]; cbn [exec_idem op_before] in *.
  - by apply held_reserve.
  - unfold accept. destruct (decide (k' = k)) as [->|Hne].
    + destruct Hh as (r & Hd & Hrel & Ht & Hh & He). rewrite Hd, Hrel. cbn [fst].
      apply held_dset; try done. intros e; cbn. intros [= <-]. auto.
    + destruct (dget k' _) as [r|]; [|done]. case_if; [done|]. by apply held_dset_other.
  - unfold complete. destruct (decide (k' = k)) as [->|Hne].
    + destruct Hh as (r & Hd & Hrel & Ht & Hh & He). rewrite Hd. cbn [fst]. by apply held_dset.
    + destruct (dget k' _) as [r|]; [|done]. by apply held_dset_other.
  - unfold replay. destruct (decide (k' = k)) as [->|Hne].
    + destruct Hh as (r & Hd & Hrel & Ht & Hh & He). rewrite Hd, Hrel. cbn [fst].
      rewrite (expire_before _ _ _ Hop He). by apply held_dset.
    + destruct (dget k' _) as [r|]; [|done]. case_if; [done|]. by apply held_dset_other.
  - unfold release. destruct (dget k' _) as [r|]; [|done]. by apply held_dset_other.
  - by apply held_sweep.
Qed.

Lemma exec_idem_ttl op s : st_idempotency_ttl_ms (exec_idem op s) = st_idempotency_ttl_ms s.
Proof.
  destruct op; cbn [exec_idem]; rewrite ?reserve_eq;
    unfold accept, complete, replay, release, sweep_expired; repeat case_if; done.
Qed.

Lemma held_run k h T ops s :
  idem_inv s → Forall (op_before k T (st_idempotency_ttl_ms s)) ops → held k h T s →
  held k h T (run_idem ops s).
Proof.
  revert s. induction ops as [|op ops IH]; intros s Hinv Hops Hh; simpl; [done|].
  inversion Hops; subst. apply IH; [by apply exec_idem_inv|by rewrite exec_idem_ttl|by apply held_exec].
Qed.

(** While the slot is held a reservation never starts a second execution. *)
Lemma held_reserve_answer k h T now ns nc h' s :
  now < T → held k h T s →
  (reserve now ns nc k h' s).2 =
    if bool_decide (h = h') then Ok (mkReservation k true (dget k (st_idempotency s) ≫= k_result))
    else Raise (IdempotencyConflictError k).
Proof.
  intros Hlt (r & Hd & Hrel & Ht & <- & He). rewrite reserve_eq, Hd, Hrel; cbn.
  rewrite (expire_before _ _ _ Hlt He), Ht. by destruct (bool_decide _).
Qed.

Lemma fresh_held k h T nc s : held k h T (s <| st_idempotency := dset k (fresh_idempotency k h nc) (st_idempotency s) |>).
Proof. by apply held_dset. Qed.

Lemma reserve_fresh_inv now ns nc k h s s' :
  reserve now ns nc k h s = (s', Ok (mkReservation k false None)) → ∀ T, held k h T s'.
Proof.
  rewrite reserve_eq.
  destruct (dget k (st_idempotency s)) as [r|]; [destruct (k_released r)|];
    [|cbn; destruct (k_tombstone _); [destruct (k_expiresAtMs _); intros [=]|];
      destruct (bool_decide _); intros [=]|];
    intros [= <-] T; apply fresh_held.
Qed.

(** ** Claims *)

(** C5: One execution per idempotency key.  Once a reservation of a key was granted, then until the
    time [T] its result may expire, through any interleaving of reservations, acceptances,
    completions, replays and sweeps (other keys may be released), no reservation of the key is
    granted again: the same request gets the current result back as a replay, a different
    request is a conflict. *)
Theorem request_runs_once now ns nc k h s s' ops T :
  idem_inv s → reserve now ns nc k h s = (s', Ok (mkReservation k false None)) →
  Forall (op_before k T (st_idempotency_ttl_ms s')) ops →
  ∀ now' ns' nc' h', now' < T →
    (reserve now' ns' nc' k h' (run_idem ops s')).2 =
      if bool_decide (h = h') then Ok (mkReservation k true (dget k (st_idempotency (run_idem ops s')) ≫= k_result))
      else Raise (IdempotencyConflictError k).
Proof.
  intros Hi Hr Hops now' ns' nc' h' Hlt. eapply held_reserve_answer; [exact Hlt|].
  apply held_run; [|done|by eapply reserve_fresh_inv].
  pose proof (reserve_inv now ns nc k h s Hi) as Hi'. by rewrite Hr in Hi'.
Qed.

(** Reservation implements the slot machine.  The answer is a function of the abstract slot
    (free, in flight, completed, expired) and the request hash alone: a free slot is granted
    and becomes in flight for this request, a matching request gets the pending or completed
    result, another request conflicts, an expired slot is refused; no other key's slot changes,
    except that an expired one may be freed. *)
Theorem reserve_implements_slots now ns nc k h s :
  idem_inv s →
  match reserve_spec (slot now k s) k h with
  | Some a => (reserve now ns nc k h s).2 = a ∧
      (a = Ok (mkReservation k false None) → ∀ t, slot t k (reserve now ns nc k h s).1 = InFlight h)
  | None => ∃ i e, (reserve now ns nc k h s).2 = Raise (IdempotencyExpiredError k i e)
  end ∧
  ∀ k' t, k' ≠ k →
    slot t k' (reserve now ns nc k h s).1 = slot t k' s ∨
    (slot t k' s = Expired ∧ slot t k' (reserve now ns nc k h s).1 = Free).
Proof.
  intros Hi. split; [|intros; by apply reserve_other].
  pose proof (reserve_answers now ns nc k h s Hi) as Ha.
  destruct (reserve_spec (slot now k s) k h) as [a|]; [|exact Ha]. split; [exact Ha|].
  intros -> t. destruct (reserve now ns nc k h s) as [s' r] eqn:E. cbn in *. subst r.
  by eapply reserve_fresh_slot.
Qed.

Module IdempotencyExamples.

Definition ttl : Z := 1000.
Definition reserved : MemoryStore := (reserve 0 0 0 "k" "req" (MemoryStore_init ttl)).1.
Definition finish : list idem_op := [IAccept 10 "k" "inv_1"; IComplete 20 "k" (Some (PStr "done")); ISweep 30].

Lemma request_runs_once_witness :
  (reserve 500 500 500 "k" "req" (run_idem finish reserved)).2 = Ok (mkReservation "k" true (Some (PStr "done"))) ∧
  (reserve 500 500 500 "k" "other" (run_idem finish reserved)).2 = Raise (IdempotencyConflictError "k").
Proof.
  assert (Forall (op_before "k" 1000 (st_idempotency_ttl_ms reserved)) finish) as Hops.
  { repeat constructor. intros _. vm_compute. discriminate. }
  split.
  - rewrite (request_runs_once 0 0 0 "k" "req" (MemoryStore_init ttl) reserved finish 1000
               (idem_inv_init ttl) eq_refl Hops 500 500 500 "req" eq_refl). vm_compute. reflexivity.
  - rewrite (request_runs_once 0 0 0 "k" "req" (MemoryStore_init ttl) reserved finish 1000
               (idem_inv_init ttl) eq_refl Hops 500 500 500 "other" eq_refl). vm_compute. reflexivity.
Defined.

Lemma reserve_implements_slots_witness :
  (reserve 0 0 0 "k" "req" (MemoryStore_init ttl)).2 = Ok (mkReservation "k" false None) ∧
  slot 5 "k" (reserve 0 0 0 "k" "req" (MemoryStore_init ttl)).1 = InFlight "req".
Proof.
  destruct (reserve_implements_slots 0 0 0 "k" "req" (MemoryStore_init ttl) (idem_inv_init ttl)) as [[Ha Hs] _].
  split; [exact Ha|]. exact (Hs eq_refl 5).
Defined.

(** A run that ended at 20 and expired at 1010, then somebody else's reservation. *)
Definition lapse : list idem_op := finish ++ [IReserve 2000 2000 2000 "k" "req"; IReserve 2001 2001 2001 "j" "other"].

(** An expired key runs again.  Reusing a key after its result expired is refused at first, and
    leaves a tombstone; but the next fresh reservation of any other key sweeps the tombstone,
    and from then on the same key is granted as new and the request runs a second time. *)
Theorem expired_key_runs_again :
  (∃ i e, (reserve 2000 2000 2000 "k" "req" (run_idem finish reserved)).2 = Raise (IdempotencyExpiredError "k" i e)) ∧
  slot 2000 "k" (run_idem lapse reserved) = Free ∧
  (reserve 2002 2002 2002 "k" "req" (run_idem lapse reserved)).2 = Ok (mkReservation "k" false None).
Proof. split_and!; [do 2 eexists|..]; vm_compute; reflexivity. Qed.

End IdempotencyExamples.
