(* ===== verification/Interactions.v ===== *)
(** * Approvals and input requests (haas/stores/memory.py)

    Native harness prompts are stored until a client answers them.  A prompt is
    answered at most once, a replay of the same native request or of the same
    answer is accepted, and prompts of an invocation that ended without an answer
    are closed. *)

From S2P Require Import Prelude Errors Dict PyVal Records Store.

#[local] Open Scope string_scope.
#[local] Open Scope list_scope.
#[local] Open Scope Z_scope.

(** ** Approvals *)

Section approvals.
Context `{PyRepr}.

(** [put_approval] *)
Definition put_approval (approval : ApprovalRecord) : store_m ApprovalRecord := λ s,
  let save (created_at : Z) :=
    let record := approval <| a_createdAtMs := created_at |> in
    (s <| st_approvals := dset (a_id record) record (st_approvals s) |>, Ok record) in
  match dget (a_id approval) (st_approvals s) with
  | Some existing =>
      match a_nativeRequestId existing with
      | Some rid =>
          if bool_decide (Some rid = a_nativeRequestId approval) &&
             bool_decide (a_adapterGeneration existing = a_adapterGeneration approval) &&
             bool_decide (a_invocationId existing = a_invocationId approval)
          then (s, Ok existing)
          else (s, Raise (ApprovalStateConflictError (a_id approval)))
      | None => save (a_createdAtMs existing)
      end
  | None => save (a_createdAtMs approval)
  end.

(** [get_approval] *)
Definition get_approval (approval_id : string) (s : MemoryStore) : option ApprovalRecord :=
  dget approval_id (st_approvals s).

Definition approval_le (x y : ApprovalRecord) : bool :=
  key_leb (a_createdAtMs x, a_id x) (a_createdAtMs y, a_id y).

(** [list_approvals] *)
Definition list_approvals (session_id : string) (status : option string) (s : MemoryStore) : list ApprovalRecord :=
  let records := keep (λ r, bool_decide (a_sessionId r = session_id)) (dvalues (st_approvals s)) in
  let records := match status with
                 | Some st => keep (λ r, bool_decide (a_status r = st)) records
                 | None => records
                 end in
  py_sorted approval_le records.

(** [resolve_approval] *)
Definition resolve_approval (now : Z) (approval_id : string) (decision : pydict) : store_m ApprovalRecord := λ s,
  match get_approval approval_id s with
  | None => (s, Raise (ApprovalNotFoundError approval_id))
  | Some record =>
      if negb (bool_decide (a_status record = "waiting")) then
        if py_eqb (PStr (a_status record)) (pget "decision" decision) &&
           py_eqb (opt_dict_val (a_decision record)) (PDict decision)
        then (s, Ok record)
        else (s, Raise (ApprovalStateConflictError approval_id))
      else
        let resolved := record <| a_status := str_or (pget "decision" decision) "" |>
                               <| a_decision := Some decision |> <| a_resolvedAtMs := Some now |> in
        (s <| st_approvals := dset approval_id resolved (st_approvals s) |>, Ok resolved)
  end.

End approvals.

(** ** Input requests *)

(** [put_input_request] *)
Definition put_input_request (request : InputRequestRecord) : store_m InputRequestRecord := λ s,
  match dget (q_id request) (st_input_requests s) with
  | Some existing =>
      if input_eqb existing request then (s, Ok existing)
      else (s, Raise (InputRequestStateConflictError (q_id request)))
  | None => (s <| st_input_requests := dset (q_id request) request (st_input_requests s) |>, Ok request)
  end.

(** [get_input_request] *)
Definition get_input_request (request_id : string) (s : MemoryStore) : option InputRequestRecord :=
  dget request_id (st_input_requests s).

Definition input_le (x y : InputRequestRecord) : bool :=
  key_leb (q_createdAtMs x, q_id x) (q_createdAtMs y, q_id y).

(** [list_input_requests] *)
Definition list_input_requests (session_id : string) (status : option string) (s : MemoryStore)
    : list InputRequestRecord :=
  let records := keep (λ r, bool_decide (q_sessionId r = session_id)) (dvalues (st_input_requests s)) in
  let records := match status with
                 | Some st => keep (λ r, bool_decide (q_status r = st)) records
                 | None => records
                 end in
  py_sorted input_le records.

(** [resolve_input_request] *)
Definition resolve_input_request (now : Z) (request_id : string) (answers : pydict) : store_m InputRequestRecord := λ s,
  match get_input_request request_id s with
  | None => (s, Raise (InputRequestNotFoundError request_id))
  | Some record =>
      if negb (bool_decide (q_status record = "waiting")) then
        if bool_decide (q_status record = "answered") &&
           py_eqb (opt_dict_val (q_answers record)) (PDict answers)
        then (s, Ok record)
        else (s, Raise (InputRequestStateConflictError request_id))
      else
        let resolved := record <| q_status := "answered" |> <| q_answers := Some answers |>
                               <| q_resolvedAtMs := Some now |> in
        (s <| st_input_requests := dset request_id resolved (st_input_requests s) |>, Ok resolved)
  end.

(** ** Closing prompts of an ended invocation *)

Definition approval_open (invocation_id : string) (r : ApprovalRecord) : bool :=
  bool_decide (a_invocationId r = invocation_id) && bool_decide (a_status r = "waiting").
Definition close_approval (at_ms : Z) (r : ApprovalRecord) : ApprovalRecord :=
  r <| a_status := "cancelled" |> <| a_resolvedAtMs := Some at_ms |>.

Definition input_open (invocation_id : string) (r : InputRequestRecord) : bool :=
  bool_decide (q_invocationId r = invocation_id) && bool_decide (q_status r = "waiting").
Definition close_input (at_ms : Z) (r : InputRequestRecord) : InputRequestRecord :=
  r <| q_status := "cancelled" |> <| q_resolvedAtMs := Some at_ms |>.

(** [_close_pending_interactions_in_memory] *)
Definition close_pending_interactions (invocation_id : string) (resolved_at_ms : Z)
    : store_m (list ApprovalRecord * list InputRequestRecord) := λ s,
  let approvals := close_approval resolved_at_ms <$> keep (approval_open invocation_id) (dvalues (st_approvals s)) in
  let inputs := close_input resolved_at_ms <$> keep (input_open invocation_id) (dvalues (st_input_requests s)) in
  (s <| st_approvals := dupdate (λ _, approval_open invocation_id) (close_approval resolved_at_ms) (st_approvals s) |>
     <| st_input_requests := dupdate (λ _, input_open invocation_id) (close_input resolved_at_ms) (st_input_requests s) |>,
   Ok (approvals, inputs)).

(** Statuses that end an invocation without an answer. *)
Definition UNANSWERED_STATUSES : list string := ["failed"; "incomplete"; "interrupted"; "cancelled"].
Definition unanswered_status (st : string) : bool := bool_decide (st ∈ UNANSWERED_STATUSES).

(** [completedAtMs or self._clock_ms()] *)
Definition completed_or (o : option Z) (clock : Z) : Z :=
  match o with Some z => if z =? 0 then clock else z | None => clock end.

(** The invocations with a waiting prompt in the session. *)
Definition waiting_invocations (session_id : string) (s : MemoryStore) : list string :=
  remove_dups
    ((a_invocationId <$> keep (λ r, bool_decide (a_sessionId r = session_id) &&
                                    bool_decide (a_status r = "waiting")) (dvalues (st_approvals s))) ++
     (q_invocationId <$> keep (λ r, bool_decide (q_sessionId r = session_id) &&
                                    bool_decide (q_status r = "waiting")) (dvalues (st_input_requests s)))).

(** [reconcile_pending_interactions] *)
Fixpoint reconcile_loop (clock : Z) (ids : list string) (s : MemoryStore) : MemoryStore :=
  match ids with
  | [] => s
  | id :: ids' =>
      reconcile_loop clock ids'
        (match invocation_at id s with
         | Some inv =>
             if unanswered_status (i_status inv)
             then (close_pending_interactions id (completed_or (i_completedAtMs inv) clock) s).1
             else s
         | None => s
         end)
  end.
Definition reconcile_pending_interactions (clock : Z) (session_id : string) : store_m unit := λ s,
  (reconcile_loop clock (waiting_invocations session_id s) s, Ok tt).

(** ** Invariant: keys are the record ids and are unique *)

Definition interactions_inv (s : MemoryStore) : Prop :=
  dict_wf (st_approvals s) ∧ (∀ k r, dget k (st_approvals s) = Some r → a_id r = k) ∧
  dict_wf (st_input_requests s) ∧ (∀ k r, dget k (st_input_requests s) = Some r → q_id r = k).

Lemma interactions_inv_init ttl : interactions_inv (MemoryStore_init ttl).
Proof. split_and!; try done; apply dict_wf_nil. Qed.

Lemma interactions_inv_approval s k r :
  interactions_inv s → a_id r = k → interactions_inv (s <| st_approvals := dset k r (st_approvals s) |>).
Proof.
  intros (H1 & H2 & H3 & H4) Hk. split_and!; try done; cbn; [by apply dict_wf_dset|].
  intros k' r'. rewrite dget_dset. case_decide; [intros [= <-]; by subst|apply H2].
Qed.

Lemma interactions_inv_input s k r :
  interactions_inv s → q_id r = k → interactions_inv (s <| st_input_requests := dset k r (st_input_requests s) |>).
Proof.
  intros (H1 & H2 & H3 & H4) Hk. split_and!; try done; cbn; [by apply dict_wf_dset|].
  intros k' r'. rewrite dget_dset. case_decide; [intros [= <-]; by subst|apply H4].
Qed.

Lemma put_approval_inv a : preserves interactions_inv (put_approval a).
Proof.
  intros s Hs. unfold put_approval. destruct (dget _ _) as [e|]; [destruct (a_nativeRequestId e)|];
    [by case_if|by apply interactions_inv_approval..].
Qed.

Lemma resolve_approval_inv `{PyRepr} now id d : preserves interactions_inv (resolve_approval now id d).
Proof.
  intros s Hs. unfold resolve_approval. destruct (get_approval id s) as [r|] eqn:E; [|done].
  case_if; [by case_if|]. apply interactions_inv_approval; [done|].
  destruct Hs as (_ & Hid & _). exact (Hid _ _ E).
Qed.

Lemma put_input_request_inv q : preserves interactions_inv (put_input_request q).
Proof.
  intros s Hs. unfold put_input_request. destruct (dget _ _) as [e|]; [by case_if|].
  by apply interactions_inv_input.
Qed.

Lemma resolve_input_request_inv now id d : preserves interactions_inv (resolve_input_request now id d).
Proof.
  intros s Hs. unfold resolve_input_request. destruct (get_input_request id s) as [r|] eqn:E; [|done].
  case_if; [by case_if|]. apply interactions_inv_input; [done|].
  destruct Hs as (_ & _ & _ & Hid). exact (Hid _ _ E).
Qed.

Lemma close_pending_inv id t : preserves interactions_inv (close_pending_interactions id t).
Proof.
  intros s (H1 & H2 & H3 & H4). split_and!; cbn; try by apply dict_wf_dupdate.
  - intros k r. rewrite dget_dupdate. destruct (dget k _) as [r0|] eqn:E; [|done].
    intros [= <-]. specialize (H2 _ _ E). by destruct (approval_open id r0).
  - intros k r. rewrite dget_dupdate. destruct (dget k _) as [r0|] eqn:E; [|done].
    intros [= <-]. specialize (H4 _ _ E). by destruct (input_open id r0).
Qed.

#[export] Hint Resolve interactions_inv_init put_approval_inv resolve_approval_inv put_input_request_inv
  resolve_input_request_inv close_pending_inv : haas.

(** ** Claims *)

#[local] Arguments py_eqb : simpl never.

(** A prompt is answered once.  After a waiting approval is resolved (with a decision other than
    the word [waiting] itself), or a waiting input request is answered, every later call leaves the store as it is: the
    same answer gets the recorded one back, any other answer is a conflict. *)
Theorem prompt_answered_once `{PyRepr} now id decision answers s :
  (∀ a, get_approval id s = Some a → a_status a = "waiting" → str_or (pget "decision" decision) "" ≠ "waiting" →
     ∃ s1 r, resolve_approval now id decision s = (s1, Ok r) ∧ a_decision r = Some decision ∧
       a_resolvedAtMs r = Some now ∧ a_nativeRequestId r = a_nativeRequestId a ∧
       ∀ now' d, resolve_approval now' id d s1 =
         (s1, if py_eqb (PStr (a_status r)) (pget "decision" d) && py_eqb (PDict decision) (PDict d)
              then Ok r else Raise (ApprovalStateConflictError id))) ∧
  (∀ q, get_input_request id s = Some q → q_status q = "waiting" →
     ∃ s1 r, resolve_input_request now id answers s = (s1, Ok r) ∧ q_answers r = Some answers ∧
       ∀ now' d, resolve_input_request now' id d s1 =
         (s1, if py_eqb (PDict answers) (PDict d) then Ok r else Raise (InputRequestStateConflictError id))).
Proof.
  split.
  - intros a Ha Hw Hd. unfold resolve_approval at 1. rewrite Ha, bool_decide_eq_true_2 by done.
    eexists _, _. split_and!; try reflexivity. intros now' d. unfold resolve_approval, get_approval. cbn.
    rewrite dget_dset_eq. cbn. rewrite bool_decide_eq_false_2 by done. cbn. by destruct (_ && _).
  - intros q Hq Hw. unfold resolve_input_request at 1. rewrite Hq, bool_decide_eq_true_2 by done.
    eexists _, _. split_and!; try reflexivity. intros now' d. unfold resolve_input_request, get_input_request. cbn.
    rewrite dget_dset_eq. cbn. by destruct (py_eqb _ _).
Qed.

Module PromptExamples.

#[local] Instance no_repr : PyRepr := λ _, "".

Definition approval : ApprovalRecord :=
  mkApproval "appr_1" "s1" "inv_1" "turn_1" "waiting" [] None None None None 1 0 None.
Definition question : InputRequestRecord :=
  mkInputRequest "appr_1" "s1" "inv_1" "turn_1" [] (RidStr "n1") 1 "waiting" true None None 1 0 None.
Definition waiting_store : MemoryStore :=
  (put_input_request question (put_approval approval (MemoryStore_init 1000)).1).1.
Definition approve : pydict := [("decision", PStr "approved")].

Lemma prompt_answered_once_witness :
  (∃ s1 r, resolve_approval 5 "appr_1" approve waiting_store = (s1, Ok r) ∧
     resolve_approval 6 "appr_1" [("decision", PStr "denied")] s1 = (s1, Raise (ApprovalStateConflictError "appr_1"))) ∧
  (∃ s1 r, resolve_input_request 5 "appr_1" approve waiting_store = (s1, Ok r) ∧
     resolve_input_request 6 "appr_1" approve s1 = (s1, Ok r)).
Proof.
  destruct (prompt_answered_once 5 "appr_1" approve approve waiting_store) as [Ha Hq]. split.
  - destruct (Ha approval eq_refl eq_refl) as (s1 & r & E & Hd & _ & _ & Hall); [discriminate|].
    exists s1, r. split; [exact E|]. rewrite Hall. replace (py_eqb (PDict approve) _) with false by (vm_compute; reflexivity).
    by rewrite andb_false_r.
  - destruct (Hq question eq_refl eq_refl) as (s1 & r & E & _ & Hall). exists s1, r. split; [exact E|]. rewrite Hall.
    by replace (py_eqb (PDict approve) (PDict approve)) with true by (vm_compute; reflexivity).
Defined.

End PromptExamples.
