(* ===== verification/SessionStore.v ===== *)
(** * Registry, profile, session, invocation and delegation tables
      (haas/stores/memory.py) *)

From S2P Require Import Prelude Errors Dict PyVal Records Store Interactions.

#[local] Open Scope string_scope.
#[local] Open Scope list_scope.
#[local] Open Scope Z_scope.

(** ** RegistryStore *)

(** [save_harness] *)
Definition save_harness (now : Z) (harness : HarnessRecord) : store_m HarnessRecord := λ s,
  let record := harness <| h_updatedAtMs := now |> in
  (s <| st_harnesses := dset (h_id record) record (st_harnesses s) |>, Ok record).

(** [get_harness] *)
Definition get_harness (harness_id : string) (s : MemoryStore) : option HarnessRecord :=
  dget harness_id (st_harnesses s).

(** [list_harnesses] *)
Definition list_harnesses (account : option AccountKey) (s : MemoryStore) : list HarnessRecord :=
  let records := dvalues (st_harnesses s) in
  match account with
  | None => records
  | Some a => keep (λ r, bool_decide (harness_account_key r = a)) records
  end.

(** [delete_harness] *)
Definition delete_harness (harness_id : string) : store_m unit :=
  modify (λ s, s <| st_harnesses := ddel harness_id (st_harnesses s) |>).

(** ** ProfileStore *)

(** [save_profile] *)
Definition save_profile (clock : Z) (profile : ProfileRecord) : store_m ProfileRecord := λ s,
  let created_at := match dget (p_id profile) (st_profiles s) with
                    | Some existing => p_createdAtMs existing
                    | None => p_createdAtMs profile
                    end in
  let record := profile <| p_createdAtMs := created_at |> <| p_updatedAtMs := clock |> in
  (s <| st_profiles := dset (p_id record) record (st_profiles s) |>, Ok record).

(** [get_profile] *)
Definition get_profile (profile_id : string) (s : MemoryStore) : option ProfileRecord :=
  dget profile_id (st_profiles s).

(** [sort(key=(harnessId, version), reverse=True)]: descending, ties in place. *)
Definition profile_ge (x y : ProfileRecord) : bool :=
  match String.compare (p_harnessId x) (p_harnessId y) with
  | Gt => true
  | Eq => p_version y <=? p_version x
  | Lt => false
  end.

(** [list_profiles] *)
Definition list_profiles (account : option AccountKey) (harness_id status : option string) (s : MemoryStore)
    : list ProfileRecord :=
  let records := dvalues (st_profiles s) in
  let records := match account with
                 | Some a => keep (λ r, bool_decide (profile_account_key r = a)) records
                 | None => records end in
  let records := match harness_id with
                 | Some h => keep (λ r, bool_decide (p_harnessId r = h)) records
                 | None => records end in
  let records := match status with
                 | Some st => keep (λ r, bool_decide (p_status r = st)) records
                 | None => records end in
  py_sorted profile_ge records.

(** ** SessionStore *)

(** [get_session]: the stored object, by reference. *)
Definition get_session (key : SessionKey) : store_m (option loc) := gets (λ s, dget key (st_sessions s)).

(** [put_session]: [replace] makes a new object (running [__post_init__] again) and the
    table points to it. *)
Definition put_session (now : Z) (session : loc) : store_m loc :=
  r ← load_session session;
  record ← lift (session_post_init (r <| s_updatedAtMs := now |>));
  l ← alloc_session record;
  _ ← modify (λ s, s <| st_sessions := dset (session_key record) l (st_sessions s) |>);
  mret l.

(** [put_invocation]: the table points to the caller's object. *)
Definition put_invocation (clock : Z) (invocation : loc) : store_m loc :=
  r ← load_invocation invocation;
  _ ← modify (λ s, s <| st_invocations := dset (i_id r) invocation (st_invocations s) |>);
  if unanswered_status (i_status r) then
    _ ← close_pending_interactions (i_id r) (completed_or (i_completedAtMs r) clock);
    mret invocation
  else mret invocation.

(** [put_turn] *)
Definition put_turn (turn : loc) : store_m loc :=
  r ← load_turn turn;
  _ ← modify (λ s, s <| st_turns := dset (t_id r) turn (st_turns s) |>);
  mret turn.

(** [get_invocation], [get_turn] *)
Definition get_invocation (invocation_id : string) : store_m (option loc) :=
  gets (λ s, dget invocation_id (st_invocations s)).
Definition get_turn (turn_id : string) : store_m (option loc) :=
  gets (λ s, dget turn_id (st_turns s)).

(** Ids of the invocations and turns that [delete_session] takes down. *)
Definition owned_invocations (session_id : string) (s : MemoryStore) : list string :=
  i_id <$> keep (λ i, bool_decide (i_sessionId i = session_id)) (invocation_values s).
Definition owned_turns (session_id : string) (s : MemoryStore) : list string :=
  t_id <$> keep (λ t, bool_decide (t_sessionId t = session_id)) (turn_values s).
Definition owned_approvals (session_id : string) (s : MemoryStore) : list string :=
  a_id <$> keep (λ r, bool_decide (a_sessionId r = session_id)) (dvalues (st_approvals s)).
Definition owned_inputs (session_id : string) (s : MemoryStore) : list string :=
  q_id <$> keep (λ r, bool_decide (q_sessionId r = session_id)) (dvalues (st_input_requests s)).
Definition owned_idempotency (invocation_ids : list string) (s : MemoryStore) : list string :=
  (keep (λ kv : string * IdempotencyRecord,
     match k_invocationId kv.2 with Some i => bool_decide (i ∈ invocation_ids) | None => false end)
     (st_idempotency s)).*1.

(** [delete_session] *)
Definition delete_session (key : SessionKey) : store_m unit := λ s,
  match dget key (st_sessions s) with
  | None => (s, Ok tt)
  | Some _ =>
      let session_id := key.2 in
      let invocation_ids := owned_invocations session_id s in
      let turn_ids := owned_turns session_id s in
      (s <| st_sessions := ddel key (st_sessions s) |>
         <| st_events_by_session := ddel key (st_events_by_session s) |>
         <| st_events_by_invocation :=
              ddel_all ((λ i, (key, i)) <$> invocation_ids) (st_events_by_invocation s) |>
         <| st_invocations := ddel_all invocation_ids (st_invocations s) |>
         <| st_turns := ddel_all turn_ids (st_turns s) |>
         <| st_approvals := ddel_all (owned_approvals session_id s) (st_approvals s) |>
         <| st_input_requests := ddel_all (owned_inputs session_id s) (st_input_requests s) |>
         <| st_idempotency := ddel_all (owned_idempotency invocation_ids s) (st_idempotency s) |>,
       Ok tt)
  end.

(** [count_sessions] *)
Definition count_sessions (s : MemoryStore) : Z := Z.of_nat (length (st_sessions s)).

(** [sort(key=(createdAtMs, id), reverse=True)] *)
Definition session_ge (x y : SessionRecord) : bool :=
  key_leb (s_createdAtMs y, s_id y) (s_createdAtMs x, s_id x).

(** [list_sessions] *)
Definition list_sessions (app_name : option string) (user_ids : option (list string)) (s : MemoryStore)
    : list SessionRecord :=
  let records := session_values s in
  let records := match app_name with
                 | Some a => keep (λ r, bool_decide (s_appName r = a)) records
                 | None => records end in
  let records := match user_ids with
                 | Some us => keep (λ r, bool_decide (s_userId r ∈ us)) records
                 | None => records end in
  py_sorted session_ge records.

(** ** DelegationStore *)

(** [put_delegated_session] *)
Definition put_delegated_session (now : Z) (record : DelegatedSessionRecord) : store_m DelegatedSessionRecord := λ s,
  let created_at := match dget (ds_id record) (st_delegated_sessions s) with
                    | Some existing => ds_createdAtMs existing
                    | None => ds_createdAtMs record
                    end in
  let saved := record <| ds_createdAtMs := created_at |> <| ds_updatedAtMs := now |> in
  (s <| st_delegated_sessions := dset (ds_id saved) saved (st_delegated_sessions s) |>
     <| st_delegated_by_manager_session :=
          dset (ds_managerSessionId saved) (ds_id saved) (st_delegated_by_manager_session s) |>
     <| st_delegated_by_haas_session :=
          dset (ds_haasSessionId saved) (ds_id saved) (st_delegated_by_haas_session s) |>,
   Ok saved).

(** [get_delegated_session] *)
Definition get_delegated_session (id : string) (s : MemoryStore) : option DelegatedSessionRecord :=
  dget id (st_delegated_sessions s).

(** [get_delegated_session_by_manager] *)
Definition get_delegated_session_by_manager (manager_session_id : string) (s : MemoryStore)
    : option DelegatedSessionRecord :=
  dget manager_session_id (st_delegated_by_manager_session s) ≫= λ id, get_delegated_session id s.

(** [get_delegated_session_by_haas_session] *)
Definition get_delegated_session_by_haas_session (haas_session_id : string) (s : MemoryStore)
    : option DelegatedSessionRecord :=
  dget haas_session_id (st_delegated_by_haas_session s) ≫= λ id, get_delegated_session id s.

(** [update_delegated_runtime] *)
Definition update_delegated_runtime (now : Z) (id : string) (runtime : DelegatedRuntimeRecord)
    : store_m DelegatedSessionRecord := λ s,
  match get_delegated_session id s with
  | None => (s, Raise (DelegatedSessionNotFoundError id))
  | Some record => put_delegated_session now (record <| ds_runtime := runtime |>) s
  end.

(** ** Invariants *)

(** Session, invocation and turn tables: keys unique, references live, and each
    key is the identity of the object it refers to. *)
Definition objects_inv (s : MemoryStore) : Prop :=
  dict_wf (st_sessions s) ∧
  (∀ k l, dget k (st_sessions s) = Some l →
     ∃ r, st_session_objs s !! l = Some r ∧ session_key r = k) ∧
  dict_wf (st_invocations s) ∧
  (∀ k l, dget k (st_invocations s) = Some l →
     ∃ r, st_invocation_objs s !! l = Some r ∧ i_id r = k) ∧
  dict_wf (st_turns s) ∧
  (∀ k l, dget k (st_turns s) = Some l → ∃ r, st_turn_objs s !! l = Some r ∧ t_id r = k).

Definition delegation_inv (s : MemoryStore) : Prop :=
  (∀ k r, dget k (st_delegated_sessions s) = Some r → ds_id r = k) ∧
  (∀ m i, dget m (st_delegated_by_manager_session s) = Some i → is_Some (dget i (st_delegated_sessions s))) ∧
  (∀ h i, dget h (st_delegated_by_haas_session s) = Some i → is_Some (dget i (st_delegated_sessions s))).

Lemma objects_inv_init ttl : objects_inv (MemoryStore_init ttl).
Proof. split_and!; try done; apply dict_wf_nil. Qed.

Lemma delegation_inv_init ttl : delegation_inv (MemoryStore_init ttl).
Proof. by split_and!. Qed.

(** Under the invariant the values of a table are the records its keys resolve to. *)
Lemma elem_deref_all {A} (objs : list A) ls x : x ∈ deref_all objs ls ↔ ∃ l, l ∈ ls ∧ objs !! l = Some x.
Proof. unfold deref_all. rewrite list_elem_of_omap. naive_solver. Qed.

Lemma elem_invocation_values s i :
  objects_inv s → i ∈ invocation_values s ↔ invocation_at (i_id i) s = Some i.
Proof.
  intros (_ & _ & Hw & Hi & _). unfold invocation_values, invocation_at.
  rewrite elem_deref_all. setoid_rewrite (elem_dvalues_dget _ _ Hw). split.
  - intros (l & [k Hk] & Hl). destruct (Hi _ _ Hk) as (r & Hr & Hid). simplify_eq. by rewrite Hk.
  - intros (l & Hk & Hl)%bind_Some. exists l. eauto.
Qed.

Lemma elem_turn_values s t :
  objects_inv s → t ∈ turn_values s ↔ turn_at (t_id t) s = Some t.
Proof.
  intros (_ & _ & _ & _ & Hw & Hi). unfold turn_values, turn_at.
  rewrite elem_deref_all. setoid_rewrite (elem_dvalues_dget _ _ Hw). split.
  - intros (l & [k Hk] & Hl). destruct (Hi _ _ Hk) as (r & Hr & Hid). simplify_eq. by rewrite Hk.
  - intros (l & Hk & Hl)%bind_Some. exists l. eauto.
Qed.

Lemma elem_session_values s r :
  objects_inv s → r ∈ session_values s ↔ session_at (session_key r) s = Some r.
Proof.
  intros (Hw & Hi & _). unfold session_values, session_at.
  rewrite elem_deref_all. setoid_rewrite (elem_dvalues_dget _ _ Hw). split.
  - intros (l & [k Hk] & Hl). destruct (Hi _ _ Hk) as (r' & Hr & Hid). simplify_eq. by rewrite Hk.
  - intros (l & Hk & Hl)%bind_Some. exists l. eauto.
Qed.

(** ** Preservation *)

Lemma alter_lookup_Some {A} (f : A → A) (l : list A) i j x :
  l !! j = Some x → ∃ y, alter f i l !! j = Some y ∧ (y = x ∨ y = f x).
Proof.
  intros Hx. destruct (decide (i = j)) as [->|Hne].
  - rewrite list_lookup_alter_eq, Hx. simpl. eauto.
  - rewrite list_lookup_alter_ne by done. eauto.
Qed.

Lemma objects_inv_assign_session l f :
  (∀ r, session_key (f r) = session_key r) → preserves objects_inv (assign_session l f).
Proof.
  intros Hf s (H1 & H2 & H3). split_and!; try done; cbn; [|apply H3..].
  intros k l' Hk. destruct (H2 _ _ Hk) as (r & Hr & Hkey).
  destruct (alter_lookup_Some f _ l _ _ Hr) as (y & Hy & [->| ->]); eexists; (split; [done|]); [done|by rewrite Hf].
Qed.

Lemma objects_inv_assign_invocation l f :
  (∀ r, i_id (f r) = i_id r) → preserves objects_inv (assign_invocation l f).
Proof.
  intros Hf s (H1 & H2 & H3 & H4 & H5 & H6). split_and!; try done; cbn.
  intros k l' Hk. destruct (H4 _ _ Hk) as (r & Hr & Hkey).
  destruct (alter_lookup_Some f _ l _ _ Hr) as (y & Hy & [->| ->]); eexists; (split; [done|]); [done|by rewrite Hf].
Qed.

Lemma objects_inv_assign_turn l f :
  (∀ r, t_id (f r) = t_id r) → preserves objects_inv (assign_turn l f).
Proof.
  intros Hf s (H1 & H2 & H3 & H4 & H5 & H6). split_and!; try done; cbn.
  intros k l' Hk. destruct (H6 _ _ Hk) as (r & Hr & Hkey).
  destruct (alter_lookup_Some f _ l _ _ Hr) as (y & Hy & [->| ->]); eexists; (split; [done|]); [done|by rewrite Hf].
Qed.

Lemma objects_inv_alloc_invocation r : preserves objects_inv (alloc_invocation r).
Proof.
  intros s (H1 & H2 & H3 & H4 & H5 & H6). split_and!; try done; cbn.
  intros k l' Hk. destruct (H4 _ _ Hk) as (r' & Hr & Hkey). exists r'. split; [|done].
  by apply lookup_app_l_Some.
Qed.

Lemma objects_inv_alloc_turn r : preserves objects_inv (alloc_turn r).
Proof.
  intros s (H1 & H2 & H3 & H4 & H5 & H6). split_and!; try done; cbn.
  intros k l' Hk. destruct (H6 _ _ Hk) as (r' & Hr & Hkey). exists r'. split; [|done].
  by apply lookup_app_l_Some.
Qed.

Lemma objects_inv_alloc_session r : preserves objects_inv (alloc_session r).
Proof.
  intros s (H1 & H2 & H3 & H4 & H5 & H6). split_and!; try done; cbn.
  intros k l' Hk. destruct (H2 _ _ Hk) as (r' & Hr & Hkey). exists r'. split; [|done].
  by apply lookup_app_l_Some.
Qed.

(** [put_session] in one step. *)
Lemma put_session_eq now l s :
  put_session now l s =
  match st_session_objs s !! l with
  | None => (s, Raise DanglingReference)
  | Some r =>
      if known_control_state (s_controlState r) then
        (s <| st_session_objs := st_session_objs s ++ [r <| s_updatedAtMs := now |>] |>
           <| st_sessions := dset (session_key r) (length (st_session_objs s)) (st_sessions s) |>,
         Ok (length (st_session_objs s)))
      else (s, Raise (ValueError "invalid session controlState"))
  end.
Proof.
  unfold put_session, mbind, M_bind, load_session, lift, session_post_init, alloc_session, modify, mret, M_ret.
  destruct (st_session_objs s !! l) as [r|]; [|done]. cbn.
  by destruct (known_control_state (s_controlState r)).
Qed.

Lemma put_session_objects_inv now l : preserves objects_inv (put_session now l).
Proof.
  intros s Hs. rewrite put_session_eq. destruct (st_session_objs s !! l) as [r|] eqn:E; [|done].
  case_if; [|done]. destruct Hs as (H1 & H2 & H3 & H4 & H5 & H6). split_and!; try done; cbn.
  - by apply dict_wf_dset.
  - intros k l'. rewrite dget_dset. case_decide as Hk.
    + intros [= <-]. subst. exists (r <| s_updatedAtMs := now |>).
      rewrite lookup_app_r, Nat.sub_diag by done. done.
    + intros Hl. destruct (H2 _ _ Hl) as (r' & Hr & Hkey). exists r'. split; [|done]. by apply lookup_app_l_Some.
Qed.

(** [put_session] stores what it was given: a later [get_session] of the same key
    sees the record (with the new timestamp), other keys are untouched. *)
Lemma put_session_session_at now l s s' l' :
  objects_inv s → put_session now l s = (s', Ok l') →
  ∃ r, st_session_objs s !! l = Some r ∧ st_session_objs s' !! l' = Some (r <| s_updatedAtMs := now |>) ∧
       dget (session_key r) (st_sessions s') = Some l' ∧
       ∀ k, session_at k s' = if decide (k = session_key r) then Some (r <| s_updatedAtMs := now |>) else session_at k s.
Proof.
  intros (H1 & H2 & _). rewrite put_session_eq. destruct (st_session_objs s !! l) as [r|] eqn:E; [|done].
  destruct (known_control_state _); [|done]. intros [= <- <-]. exists r. split; [done|].
  assert ((st_session_objs s ++ [r <| s_updatedAtMs := now |>]) !! length (st_session_objs s)
    = Some (r <| s_updatedAtMs := now |>)) as Hnew by (by rewrite lookup_app_r, Nat.sub_diag by done).
  split_and!; [done|cbn; apply dget_dset_eq|].
  intros k. unfold session_at; cbn. rewrite dget_dset. case_decide; simpl; [done|].
  destruct (dget k (st_sessions s)) as [l0|] eqn:Ek; [|done]. simpl.
  destruct (H2 _ _ Ek) as (r0 & Hr0 & _). rewrite Hr0. by apply lookup_app_l_Some.
Qed.

Lemma put_invocation_eq clock l s :
  put_invocation clock l s =
  match st_invocation_objs s !! l with
  | None => (s, Raise DanglingReference)
  | Some r =>
      let s1 := s <| st_invocations := dset (i_id r) l (st_invocations s) |> in
      (if unanswered_status (i_status r)
       then (close_pending_interactions (i_id r) (completed_or (i_completedAtMs r) clock) s1).1 else s1, Ok l)
  end.
Proof.
  unfold put_invocation, mbind, M_bind, load_invocation, modify, mret, M_ret.
  destruct (st_invocation_objs s !! l) as [r|]; [|done]. cbn. by destruct (unanswered_status _).
Qed.

Lemma put_invocation_objects_inv clock l : preserves objects_inv (put_invocation clock l).
Proof.
  intros s Hs. rewrite put_invocation_eq. destruct (st_invocation_objs s !! l) as [r|] eqn:E; [|done].
  destruct Hs as (H1 & H2 & H3 & H4 & H5 & H6).
  assert (objects_inv (s <| st_invocations := dset (i_id r) l (st_invocations s) |>)) as Hs1.
  { split_and!; try done; cbn; [by apply dict_wf_dset|]. intros k l'. rewrite dget_dset.
    case_decide; [intros [= <-]; subst; eauto|apply H4]. }
  cbn. by destruct (unanswered_status _).
Qed.

Lemma put_turn_objects_inv l : preserves objects_inv (put_turn l).
Proof.
  intros s Hs. unfold put_turn, mbind, M_bind, load_turn, modify, mret, M_ret.
  destruct (st_turn_objs s !! l) as [r|] eqn:E; [|done]. cbn.
  destruct Hs as (H1 & H2 & H3 & H4 & H5 & H6). split_and!; try done; cbn; [by apply dict_wf_dset|].
  intros k l'. rewrite dget_dset. case_decide; [intros [= <-]; subst; eauto|apply H6].
Qed.

Lemma delete_session_objects_inv key : preserves objects_inv (delete_session key).
Proof.
  intros s Hs. unfold delete_session. destruct (dget key (st_sessions s)) as [l|]; [|done].
  destruct Hs as (H1 & H2 & H3 & H4 & H5 & H6). split_and!; cbn; auto with haas.
  - intros k l'. rewrite dget_ddel. case_decide; [done|apply H2].
  - intros k l'. rewrite dget_ddel_all. case_decide; [done|apply H4].
  - intros k l'. rewrite dget_ddel_all. case_decide; [done|apply H6].
Qed.

Lemma put_delegated_session_inv now r : preserves delegation_inv (put_delegated_session now r).
Proof.
  intros s (H1 & H2 & H3). split_and!; cbn; intros k x; rewrite (dget_dset k); case_decide.
  - intros [= <-]. by subst.
  - apply H1.
  - intros [= <-]. subst. rewrite dget_dset_eq. done.
  - intros Hx. rewrite dget_dset. case_decide; [done|]. by apply (H2 k).
  - intros [= <-]. subst. rewrite dget_dset_eq. done.
  - intros Hx. rewrite dget_dset. case_decide; [done|]. by apply (H3 k).
Qed.

#[export] Hint Resolve objects_inv_init delegation_inv_init objects_inv_assign_session
  objects_inv_assign_invocation objects_inv_assign_turn objects_inv_alloc_invocation
  objects_inv_alloc_turn objects_inv_alloc_session put_session_objects_inv put_invocation_objects_inv
  put_turn_objects_inv delete_session_objects_inv put_delegated_session_inv : haas.

(** ** What [delete_session] takes down *)

Lemma owned_invocations_elem s sid i r :
  objects_inv s → invocation_at i s = Some r → i ∈ owned_invocations sid s ↔ i_sessionId r = sid.
Proof.
  intros Hinv Hi. unfold owned_invocations. rewrite list_elem_of_fmap.
  setoid_rewrite elem_of_keep. setoid_rewrite bool_decide_eq_true.
  assert (i_id r = i) as Hid.
  { unfold invocation_at in Hi. apply bind_Some in Hi as (l & Hk & Hl).
    destruct Hinv as (_ & _ & _ & H4 & _). destruct (H4 _ _ Hk) as (r' & ? & ?). by simplify_eq. }
  split.
  - intros (r' & -> & Hsid & Hin). apply elem_invocation_values in Hin; [|done]. by simplify_eq.
  - intros Hsid. exists r. split_and!; [done..|]. apply elem_invocation_values; [done|]. by rewrite Hid.
Qed.

Lemma owned_turns_elem s sid t r :
  objects_inv s → turn_at t s = Some r → t ∈ owned_turns sid s ↔ t_sessionId r = sid.
Proof.
  intros Hinv Hi. unfold owned_turns. rewrite list_elem_of_fmap.
  setoid_rewrite elem_of_keep. setoid_rewrite bool_decide_eq_true.
  assert (t_id r = t) as Hid.
  { unfold turn_at in Hi. apply bind_Some in Hi as (l & Hk & Hl).
    destruct Hinv as (_ & _ & _ & _ & _ & H6). destruct (H6 _ _ Hk) as (r' & ? & ?). by simplify_eq. }
  split.
  - intros (r' & -> & Hsid & Hin). apply elem_turn_values in Hin; [|done]. by simplify_eq.
  - intros Hsid. exists r. split_and!; [done..|]. apply elem_turn_values; [done|]. by rewrite Hid.
Qed.

Lemma owned_approvals_elem s sid k r :
  interactions_inv s → dget k (st_approvals s) = Some r → k ∈ owned_approvals sid s ↔ a_sessionId r = sid.
Proof.
  intros (Hw & Hid & _) Hk. unfold owned_approvals. rewrite list_elem_of_fmap.
  setoid_rewrite elem_of_keep. setoid_rewrite bool_decide_eq_true.
  setoid_rewrite (elem_dvalues_dget _ _ Hw). split.
  - intros (r' & -> & Hsid & k' & Hk'). pose proof (Hid _ _ Hk') as <-. by simplify_eq.
  - intros Hsid. exists r. rewrite (Hid _ _ Hk). eauto.
Qed.

Lemma owned_inputs_elem s sid k r :
  interactions_inv s → dget k (st_input_requests s) = Some r → k ∈ owned_inputs sid s ↔ q_sessionId r = sid.
Proof.
  intros (_ & _ & Hw & Hid) Hk. unfold owned_inputs. rewrite list_elem_of_fmap.
  setoid_rewrite elem_of_keep. setoid_rewrite bool_decide_eq_true.
  setoid_rewrite (elem_dvalues_dget _ _ Hw). split.
  - intros (r' & -> & Hsid & k' & Hk'). pose proof (Hid _ _ Hk') as <-. by simplify_eq.
  - intros Hsid. exists r. rewrite (Hid _ _ Hk). eauto.
Qed.

Lemma owned_idempotency_elem ids s k r i :
  dget k (st_idempotency s) = Some r → k_invocationId r = Some i → i ∈ ids → k ∈ owned_idempotency ids s.
Proof.
  intros Hk Hi Hin. unfold owned_idempotency. apply list_elem_of_fmap. exists (k, r). split; [done|].
  apply elem_of_keep. cbn. rewrite Hi. split; [by apply bool_decide_eq_true|by apply dget_Some_elem].
Qed.

Section delete_session.
Context (s : MemoryStore) (key : SessionKey) (l : loc).
Hypothesis Hkey : dget key (st_sessions s) = Some l.
Notation s' := (delete_session key s).1.

Lemma delete_session_at : session_at key s' = None.
Proof. unfold delete_session. rewrite Hkey. unfold session_at; cbn. by rewrite dget_ddel_eq. Qed.

Lemma delete_session_other k : k ≠ key → session_at k s' = session_at k s.
Proof. intros. unfold delete_session. rewrite Hkey. unfold session_at; cbn. by rewrite dget_ddel_ne. Qed.

Lemma delete_session_events k :
  dget k (st_events_by_session s') = if decide (k = key) then None else dget k (st_events_by_session s).
Proof. unfold delete_session. rewrite Hkey; cbn. by rewrite dget_ddel. Qed.

Lemma delete_session_invocation i :
  invocation_at i s' = if decide (i ∈ owned_invocations key.2 s) then None else invocation_at i s.
Proof.
  unfold delete_session. rewrite Hkey. unfold invocation_at; cbn. rewrite dget_ddel_all. by case_decide.
Qed.

Lemma delete_session_turn t :
  turn_at t s' = if decide (t ∈ owned_turns key.2 s) then None else turn_at t s.
Proof. unfold delete_session. rewrite Hkey. unfold turn_at; cbn. rewrite dget_ddel_all. by case_decide. Qed.

Lemma delete_session_invocation_events k i :
  dget (k, i) (st_events_by_invocation s') =
    if decide (k = key ∧ i ∈ owned_invocations key.2 s) then None
    else dget (k, i) (st_events_by_invocation s).
Proof.
  unfold delete_session. rewrite Hkey; cbn. rewrite dget_ddel_all.
  assert ((k, i) ∈ (λ i, (key, i)) <$> owned_invocations key.2 s ↔ k = key ∧ i ∈ owned_invocations key.2 s) as Hiff.
  { rewrite list_elem_of_fmap. split; [intros (? & [= -> ->] & ?); done|intros [-> ?]; eauto]. }
  repeat case_decide; naive_solver.
Qed.

Lemma delete_session_approval k :
  dget k (st_approvals s') = if decide (k ∈ owned_approvals key.2 s) then None else dget k (st_approvals s).
Proof. unfold delete_session. rewrite Hkey; cbn. by rewrite dget_ddel_all. Qed.

Lemma delete_session_input k :
  dget k (st_input_requests s') = if decide (k ∈ owned_inputs key.2 s) then None else dget k (st_input_requests s).
Proof. unfold delete_session. rewrite Hkey; cbn. by rewrite dget_ddel_all. Qed.

Lemma delete_session_idempotency k :
  dget k (st_idempotency s') =
    if decide (k ∈ owned_idempotency (owned_invocations key.2 s) s) then None else dget k (st_idempotency s).
Proof. unfold delete_session. rewrite Hkey; cbn. by rewrite dget_ddel_all. Qed.

End delete_session.

(** Deleting a session leaves nothing of it behind: the session, its event lists, and every
    invocation, turn, approval, input request and idempotency row that carries its id are gone. *)
Theorem delete_session_leaves_no_orphans s key l :
  objects_inv s → interactions_inv s → dget key (st_sessions s) = Some l →
  let s' := (delete_session key s).1 in
  session_at key s' = None ∧
  dget key (st_events_by_session s') = None ∧
  (∀ i r, invocation_at i s = Some r → i_sessionId r = key.2 →
     invocation_at i s' = None ∧ dget (key, i) (st_events_by_invocation s') = None ∧
     ∀ k row, dget k (st_idempotency s') = Some row → k_invocationId row ≠ Some i) ∧
  (∀ t r, turn_at t s' = Some r → t_sessionId r ≠ key.2) ∧
  (∀ k r, dget k (st_approvals s') = Some r → a_sessionId r ≠ key.2) ∧
  (∀ k r, dget k (st_input_requests s') = Some r → q_sessionId r ≠ key.2).
Proof.
  intros Ho Hi Hl s'. split_and!.
  - by eapply delete_session_at.
  - unfold s'. erewrite delete_session_events by done. by case_decide.
  - intros i r Hr Hsid. assert (i ∈ owned_invocations key.2 s) as Hin by (by eapply owned_invocations_elem).
    unfold s'. erewrite delete_session_invocation, delete_session_invocation_events by done.
    split_and!; [by case_decide|by case_decide; naive_solver|].
    intros k row. erewrite delete_session_idempotency by done. case_decide as Hd; [done|].
    intros Hk Hrow. by apply Hd; eapply owned_idempotency_elem.
  - intros t r. unfold s'. erewrite delete_session_turn by done. case_decide as Hd; [done|].
    intros Ht Hsid. by apply Hd; eapply owned_turns_elem.
  - intros k r. unfold s'. erewrite delete_session_approval by done. case_decide as Hd; [done|].
    intros Hk Hsid. by apply Hd; eapply owned_approvals_elem.
  - intros k r. unfold s'. erewrite delete_session_input by done. case_decide as Hd; [done|].
    intros Hk Hsid. by apply Hd; eapply owned_inputs_elem.
Qed.

(** An invocation that ends without an answer closes its prompts.  Storing an invocation as
    failed, incomplete, interrupted or cancelled turns each of its waiting approvals and input
    requests to cancelled, dated by the completion; prompts of other invocations and prompts that were
    already answered are untouched. *)
Theorem ended_invocation_closes_prompts clock l s r :
  st_invocation_objs s !! l = Some r → unanswered_status (i_status r) = true →
  let s' := (put_invocation clock l s).1 in
  invocation_at (i_id r) s' = Some r ∧
  (∀ k a, dget k (st_approvals s) = Some a →
     dget k (st_approvals s') =
       Some (if decide (a_invocationId a = i_id r ∧ a_status a = "waiting")
             then close_approval (completed_or (i_completedAtMs r) clock) a else a)) ∧
  (∀ k q, dget k (st_input_requests s) = Some q →
     dget k (st_input_requests s') =
       Some (if decide (q_invocationId q = i_id r ∧ q_status q = "waiting")
             then close_input (completed_or (i_completedAtMs r) clock) q else q)).
Proof.
  intros Hl Hu s'. unfold s'. rewrite put_invocation_eq, Hl. cbv zeta. rewrite Hu. split_and!.
  - unfold invocation_at. cbn. by rewrite dget_dset_eq.
  - intros k a Ha. cbn. rewrite dget_dupdate, Ha. cbn. f_equal. unfold approval_open.
    repeat case_bool_decide; case_decide; naive_solver.
  - intros k q Hq. cbn. rewrite dget_dupdate, Hq. cbn. f_equal. unfold input_open.
    repeat case_bool_decide; case_decide; naive_solver.
Qed.

Module SessionExamples.

Definition session (user : string) : SessionRecord := new_session "s1" "app" user 0.
Definition invocation (id user status : string) : InvocationRecord :=
  mkInvocation id "s1" "app" "turn_1" user status None None None 1 0 (Some 7) None None None None [] None.

(** Two users' sessions with the same session id, each with an invocation. *)
Definition fill : store_m ApprovalRecord :=
  ls1 ← alloc_session (session "u1"); _ ← put_session 0 ls1;
  ls2 ← alloc_session (session "u2"); _ ← put_session 0 ls2;
  l1 ← alloc_invocation (invocation "inv_1" "u1" "running"); _ ← put_invocation 0 l1;
  l2 ← alloc_invocation (invocation "inv_2" "u2" "running"); _ ← put_invocation 0 l2;
  put_approval PromptExamples.approval.
Definition two_users : MemoryStore := (fill (MemoryStore_init 1000)).1.

Lemma two_users_objects : objects_inv two_users.
Proof.
  unfold two_users. assert (preserves objects_inv fill) as H; [|apply H, objects_inv_init]. unfold fill.
  repeat (apply preserves_bind; [eauto with haas|intros ?]). intros s Hs. unfold put_approval.
  destruct (dget _ _) as [e|]; [destruct (a_nativeRequestId e)|]; cbn; repeat case_if; done.
Qed.

Lemma two_users_interactions : interactions_inv two_users.
Proof.
  assert (st_approvals two_users = [("appr_1", PromptExamples.approval)]) as Ha by (vm_compute; reflexivity).
  assert (st_input_requests two_users = []) as Hq by (vm_compute; reflexivity).
  unfold interactions_inv. rewrite Ha, Hq. split_and!; [apply NoDup_singleton| |apply dict_wf_nil|done].
  intros k r. cbn. case_decide; [|done]. intros [= <-]. by subst.
Qed.

Lemma delete_session_leaves_no_orphans_witness :
  session_at ("app", "u1", "s1") (delete_session ("app", "u1", "s1") two_users).1 = None ∧
  ∀ k r, dget k (st_approvals (delete_session ("app", "u1", "s1") two_users).1) = Some r → a_sessionId r ≠ "s1".
Proof.
  destruct (dget ("app", "u1", "s1") (st_sessions two_users)) as [l|] eqn:E; [|vm_compute in E; discriminate E].
  destruct (delete_session_leaves_no_orphans two_users ("app", "u1", "s1") l two_users_objects two_users_interactions E)
    as (H1 & _ & _ & _ & H5 & _). by split.
Defined.

(** The first invocation, about to be stored as failed. *)
Definition failing : MemoryStore := (assign_invocation 0 (λ i, i <| i_status := "failed" |>) two_users).1.

Lemma ended_invocation_closes_prompts_witness :
  a_status <$> dget "appr_1" (st_approvals failing) = Some "waiting" ∧
  (λ a, (a_status a, a_resolvedAtMs a)) <$> dget "appr_1" (st_approvals (put_invocation 9 0%nat failing).1) =
    Some ("cancelled", Some 7).
Proof.
  split; [vm_compute; reflexivity|].
  destruct (ended_invocation_closes_prompts 9 0%nat failing (invocation "inv_1" "u1" "failed")) as (_ & Ha & _);
    [vm_compute; reflexivity|reflexivity|].
  rewrite (Ha "appr_1" PromptExamples.approval) by (vm_compute; reflexivity). reflexivity.
Defined.

(** Deleting a session deletes another user's records.  Invocations, turns and prompts are
    selected by the bare session id: when two users chose the same one, deleting the first
    user's session removes the second user's invocation while the second user's session stays. *)
Theorem delete_session_crosses_users :
  (i_userId <$> invocation_at "inv_2" two_users = Some "u2") ∧
  let s' := (delete_session ("app", "u1", "s1") two_users).1 in
  invocation_at "inv_2" s' = None ∧ is_some (session_at ("app", "u2", "s1") s') = true.
Proof. cbv zeta. split_and!; vm_compute; reflexivity. Qed.

End SessionExamples.
