(* ===== verification/EventStore.v ===== *)
(** * The event log tables (haas/stores/memory.py, EventLogStore)

    Event ids are [evt_] followed by a zero-padded counter; the counter is the
    store's and is moved past every id that is appended.  Events are kept per
    session and per invocation in append order. *)

From S2P Require Import Prelude Errors Dict PyVal Records Store.

#[local] Open Scope string_scope.
#[local] Open Scope list_scope.
#[local] Open Scope Z_scope.

(** ** Event ids *)

Fixpoint zeros (n : nat) (s : string) : string :=
  match n with O => s | S n' => String (Ascii.ascii_of_nat 48) (zeros n' s) end.

(** [f"{n:013d}"] *)
Definition pad13 (n : N) : string := let d := pretty n in zeros (13 - String.length d) d.

(** [f"evt_{n:013d}"] *)
Definition format_event_id (n : N) : string := "evt_" +:+ pad13 n.

(** A decimal digit and its value ([\d] restricted to ASCII, the digits the
    store writes). *)
Definition digit_of (a : Ascii.ascii) : option N :=
  let n := Ascii.N_of_ascii a in
  if (48 <=? n)%N && (n <=? 57)%N then Some (n - 48)%N else None.

Fixpoint parse_digits (acc : N) (s : string) : option N :=
  match s with
  | EmptyString => Some acc
  | String a s' => match digit_of a with Some d => parse_digits (acc * 10 + d) s' | None => None end
  end.

(** [re.fullmatch(r"evt_(\d+)", id)], then [int(group 1)] *)
Definition parse_event_id (id : string) : option N :=
  if starts_with "evt_" id then
    match drop_str 4 id with
    | EmptyString => None
    | String a s' => parse_digits 0 (String a s')
    end
  else None.

Lemma digit_of_pretty d : (d < 10)%N → digit_of (pretty_N_char d) = Some d.
Proof.
  intros Hd.
  assert (d = 0 ∨ d = 1 ∨ d = 2 ∨ d = 3 ∨ d = 4 ∨ d = 5 ∨ d = 6 ∨ d = 7 ∨ d = 8 ∨ d = 9)%N as H by lia.
  by repeat destruct H as [->|H]; [..|subst].
Qed.

Lemma parse_pretty_go x s : parse_digits 0 (pretty_N_go x s) = parse_digits x s.
Proof.
  revert s. induction x as [x IH] using (well_founded_induction N.lt_wf_0). intros s.
  destruct (decide (x = 0)%N) as [->|Hx]; [by rewrite pretty_N_go_0|].
  rewrite pretty_N_go_step by lia. rewrite IH by (apply N.div_lt; lia). simpl.
  rewrite digit_of_pretty by (apply N.mod_lt; lia).
  f_equal. rewrite (N.div_mod x 10) at 3 by lia. lia.
Qed.

Lemma parse_pretty (n : N) : parse_digits 0 (pretty n) = Some n.
Proof. unfold pretty, pretty_N. case_decide as H; [by subst|]. by rewrite parse_pretty_go. Qed.

Lemma parse_zeros k s : parse_digits 0 (zeros k s) = parse_digits 0 s.
Proof. by induction k. Qed.

Lemma pretty_nonempty (n : N) : pretty n ≠ "".
Proof. intros H. pose proof (parse_pretty n) as Hp. rewrite H in Hp. simpl in Hp.
  injection Hp as <-. done. Qed.

Lemma parse_format_event_id n : parse_event_id (format_event_id n) = Some n.
Proof.
  unfold parse_event_id, format_event_id. rewrite starts_with_app.
  change 4%nat with (String.length "evt_"). rewrite drop_str_app.
  assert (parse_digits 0 (pad13 n) = Some n) as Hp.
  { unfold pad13. by rewrite parse_zeros, parse_pretty. }
  destruct (pad13 n) eqn:E; [|done]. unfold pad13 in E.
  destruct (13 - String.length (pretty n))%nat; [by destruct (pretty_nonempty n)|done].
Qed.

Lemma format_event_id_inj n m : format_event_id n = format_event_id m → n = m.
Proof. intros H. pose proof (parse_format_event_id n) as Hn. rewrite H, parse_format_event_id in Hn. by injection Hn. Qed.

(** ** Operations *)

(** [next_event_id] *)
Definition next_event_id : store_m string := λ s,
  (s <| st_next_event_number := (st_next_event_number s + 1)%N |>,
   Ok (format_event_id (st_next_event_number s))).

(** [d.setdefault(k, []).append(x)] *)
Definition dappend {K V} `{EqDecision K} (k : K) (x : V) (d : dict K (list V)) : dict K (list V) :=
  dset k (default [] (dget k d) ++ [x]) d.

Lemma dget_dappend {K V} `{EqDecision K} (k k' : K) (x : V) d :
  dget k (dappend k' x d) =
    if decide (k = k') then Some (default [] (dget k d) ++ [x]) else dget k d.
Proof. unfold dappend. rewrite dget_dset. case_decide; by subst. Qed.

(** [append] *)
Definition append_event (event : CanonicalEventRecord) : store_m unit := modify (λ s,
  let number := match parse_event_id (e_eventId event) with
                | Some n => N.max (st_next_event_number s) (n + 1)
                | None => st_next_event_number s
                end in
  let session_key := event_session_key event in
  let by_invocation := match e_invocationId event with
                       | Some inv => dappend (session_key, inv) event (st_events_by_invocation s)
                       | None => st_events_by_invocation s
                       end in
  s <| st_next_event_number := number |>
    <| st_events_by_invocation := by_invocation |>
    <| st_events_by_session := dappend session_key event (st_events_by_session s) |>).

Definition event_seq_le (x y : CanonicalEventRecord) : bool := e_sequenceNumber x <=? e_sequenceNumber y.

(** [read_invocation] *)
Definition read_invocation (key : SessionKey) (invocation_id : string) (after : Z) (s : MemoryStore)
    : list CanonicalEventRecord :=
  let events := default [] (dget (key, invocation_id) (st_events_by_invocation s)) in
  keep (λ e, after <? e_sequenceNumber e) (py_sorted event_seq_le events).

(** [read_session] *)
Definition read_session (key : SessionKey) (after_cursor : option string) (s : MemoryStore)
    : result (list CanonicalEventRecord) :=
  let events := default [] (dget key (st_events_by_session s)) in
  match after_cursor with
  | None => Ok events
  | Some cursor =>
      match find_index (λ e, bool_decide (e_eventId e = cursor)) events with
      | None => Raise (CursorNotFoundError cursor)
      | Some index => Ok (drop (S index) events)
      end
  end.

(** The events of a session and of an invocation. *)
Definition session_events (key : SessionKey) (s : MemoryStore) : list CanonicalEventRecord :=
  default [] (dget key (st_events_by_session s)).
Definition invocation_events (key : SessionKey) (inv : string) (s : MemoryStore) : list CanonicalEventRecord :=
  default [] (dget (key, inv) (st_events_by_invocation s)).

Lemma session_events_append key e s :
  session_events key (append_event e s).1 =
    session_events key s ++ (if decide (key = event_session_key e) then [e] else []).
Proof.
  unfold session_events, append_event, modify; cbn. rewrite dget_dappend.
  case_decide; simpl; [done|by rewrite app_nil_r].
Qed.

Lemma invocation_events_append key inv e s :
  invocation_events key inv (append_event e s).1 =
    invocation_events key inv s ++
      (if decide (key = event_session_key e ∧ Some inv = e_invocationId e) then [e] else []).
Proof.
  unfold invocation_events, append_event, modify; cbn. destruct (e_invocationId e) as [i|].
  - rewrite dget_dappend. repeat case_decide; simplify_eq/=; try naive_solver. by rewrite app_nil_r.
  - case_decide; [naive_solver|by rewrite app_nil_r].
Qed.

(** ** Invariant

    Ids are unique and increasing inside a session, below the counter, and a
    session's list holds that session's events. *)

Definition event_number (e : CanonicalEventRecord) : option N := parse_event_id (e_eventId e).

(** Each event's id is the canonical rendering of its number. *)
Definition numbered (n : N) (e : CanonicalEventRecord) : Prop := e_eventId e = format_event_id n.

(** The ids of a list are those of an increasing list of counters below [bound]. *)
Definition ids_below (bound : N) (l : list CanonicalEventRecord) : Prop :=
  ∃ ns, Forall2 numbered ns l ∧ StronglySorted N.lt ns ∧ Forall (λ n, n < bound)%N ns.

(** Sequence numbers are 0, 1, 2, ... in order. *)
Definition dense_from (k : Z) (l : list CanonicalEventRecord) : Prop :=
  ∀ i e, l !! i = Some e → e_sequenceNumber e = k + Z.of_nat i.

Definition log_inv (s : MemoryStore) : Prop :=
  (∀ key, ids_below (st_next_event_number s) (session_events key s)) ∧
  (∀ key e, e ∈ session_events key s → event_session_key e = key) ∧
  (∀ key inv, dense_from 0 (invocation_events key inv s)).

(** Until a session is deleted, its list also holds the events of its invocations in order. *)
Definition events_inv (s : MemoryStore) : Prop :=
  log_inv s ∧
  ∀ key inv, invocation_events key inv s =
     keep (λ e, bool_decide (e_invocationId e = Some inv)) (session_events key s).

Lemma log_inv_init ttl : log_inv (MemoryStore_init ttl).
Proof.
  split_and!; cbn; try set_solver.
  - intros _. exists []. split_and!; constructor.
  - intros key inv i e; done.
Qed.

Lemma events_inv_init ttl : events_inv (MemoryStore_init ttl).
Proof. split; [apply log_inv_init|done]. Qed.

Lemma ids_below_NoDup b l : ids_below b l → NoDup (e_eventId <$> l).
Proof.
  intros (ns & Hf & Hs & _). clear b. induction Hf as [|n e ns l Hn Hf IH]; [constructor|].
  inversion Hs as [|? ? Hs' Hlt]; subst. csimpl. apply NoDup_cons. split; [|auto].
  intros (e' & He & Hin)%list_elem_of_fmap. apply list_elem_of_lookup in Hin as [i Hi].
  destruct (Forall2_lookup_r _ _ _ _ _ Hf Hi) as (m & Hm & Hnum).
  rewrite Hn, Hnum in He. apply format_event_id_inj in He as ->.
  rewrite Forall_lookup in Hlt. specialize (Hlt _ _ Hm). lia.
Qed.

Lemma ids_below_snoc b l e n :
  ids_below b l → (b <= n)%N → numbered n e → ids_below (n + 1) (l ++ [e]).
Proof.
  intros (ns & Hf & Hs & Hb) Hle Hn. exists (ns ++ [n]). split_and!.
  - apply Forall2_app; [done|by repeat constructor].
  - clear Hf. induction Hs as [|m ns Hs IH Hm]; simpl; [by repeat constructor|].
    inversion Hb; subst. constructor; [by apply IH|]. apply Forall_app. split; [done|].
    constructor; [lia|constructor].
  - apply Forall_app. split; [|constructor; [lia|constructor]].
    eapply Forall_impl; [exact Hb|]. simpl. lia.
Qed.

Lemma ids_below_mono b b' l : ids_below b l → (b <= b')%N → ids_below b' l.
Proof.
  intros (ns & Hf & Hs & Hb) Hle. exists ns. split_and!; [done..|].
  eapply Forall_impl; [exact Hb|]. simpl; lia.
Qed.

Lemma dense_from_sorted k l : dense_from k l → py_sorted event_seq_le l = l.
Proof.
  intros Hd. apply py_sorted_id. revert k Hd. induction l as [|e l IH]; intros k Hd; constructor.
  - apply (IH (k + 1)). intros i e' Hi. rewrite (Hd (S i) e' Hi). lia.
  - apply Forall_lookup. intros i e' Hi. unfold event_seq_le. apply Z.leb_le.
    rewrite (Hd 0%nat e eq_refl), (Hd (S i) e' Hi). lia.
Qed.

Lemma dense_from_snoc k l e :
  dense_from k l → e_sequenceNumber e = k + Z.of_nat (length l) → dense_from k (l ++ [e]).
Proof.
  intros Hd He i e'. rewrite lookup_app_Some. intros [Hi|[Hge Hi]]; [by apply Hd|].
  apply list_lookup_singleton_Some in Hi as [Hi <-]. rewrite He. f_equal. lia.
Qed.

(** In a dense list, reading after sequence number [a] drops the first [a+1] events. *)
Lemma dense_read_after k l a :
  dense_from k l → k - 1 <= a →
  keep (λ e, a <? e_sequenceNumber e) l = drop (Z.to_nat (a - k + 1)) l.
Proof.
  revert k. induction l as [|e l IH]; intros k Hd Hle; simpl; [by rewrite drop_nil|].
  pose proof (Hd 0%nat e eq_refl) as He; simpl in He.
  assert (dense_from (k + 1) l) as Hd' by (intros i e' Hi; rewrite (Hd (S i) e' Hi); lia).
  destruct (Z.ltb_spec a (e_sequenceNumber e)).
  - replace (Z.to_nat (a - k + 1)) with 0%nat by lia. simpl. f_equal. apply keep_all.
    intros x [i Hi]%list_elem_of_lookup. apply Z.ltb_lt. rewrite (Hd' i x Hi). lia.
  - rewrite (IH (k + 1)) by (done || lia).
    replace (Z.to_nat (a - k + 1)) with (S (Z.to_nat (a - (k + 1) + 1))) by lia. done.
Qed.

(** ** Claims *)

(** Event ids are numbers.  An id read back gives the counter it was made from, so distinct
    counters have distinct ids and a restored log continues above every id it holds. *)
Theorem event_id_roundtrip n m e s :
  parse_event_id (format_event_id n) = Some n ∧
  (format_event_id n = format_event_id m ↔ n = m) ∧
  (e_eventId e = format_event_id n → (n < st_next_event_number (append_event e s).1)%N).
Proof.
  split_and!; [apply parse_format_event_id|split; [apply format_event_id_inj|by intros ->]|].
  intros He. unfold append_event, modify. cbn. rewrite He, parse_format_event_id. lia.
Qed.

Module EventIdExamples.

Definition restored : CanonicalEventRecord :=
  mkEvent (format_event_id 41) None "s" None "" 0 [] [] "" [] 2 0 true "" "" "" "".

Lemma event_id_roundtrip_witness : (41 < st_next_event_number (append_event restored (MemoryStore_init 0)).1)%N.
Proof. exact (proj2 (proj2 (event_id_roundtrip 41 41 restored (MemoryStore_init 0))) eq_refl). Defined.

End EventIdExamples.
