(* ===== verification/Sqlite.v ===== *)
(** * The durable store (haas/stores/sqlite.py)

    [SQLiteStore] is a [MemoryStore] that writes every record through to two SQL tables: [records]
    (namespace, key, JSON payload; rows keep their insertion order, an upsert updates in place) and
    [idempotency] (one row per key).  Each SQL statement may fail: the outcomes of the statements to come are part of
    the state, [true] for a failure, so an operation's error handling can be followed.  Operations of the base
    class are called as [mem op]. *)

From S2P Require Import Prelude Errors Dict PyVal Encoding Json Records RecordCodec Store Leases Idempotency Interactions.
From S2P Require Import SessionStore EventStore.

#[local] Open Scope string_scope.
#[local] Open Scope list_scope.
#[local] Open Scope Z_scope.

(** ** State *)

(** A row of table [idempotency]. *)
Record IdemRow := mkIdemRow {
  ir_request_hash : string;
  ir_result_json : option string;
  ir_released : bool;
  ir_accepted : bool;
  ir_invocation_id : option string;
  ir_accepted_at_ms : option Z;
  ir_completed_at_ms : option Z;
  ir_expires_at_ms : option Z;
  ir_tombstone : bool;
  ir_schema_version : Z;
  ir_created_at_ms : Z;
}.

Record Db := mkDb {
  db_records : dict (string * string) string;
  db_idempotency : dict string IdemRow;
}.
#[export] Instance eta_db : Eta Db := λ d, mkDb (db_records d) (db_idempotency d).

Record SQLiteStore := mkSqlite {
  sq_mem : MemoryStore;
  sq_db : Db;
  sq_begun : option Db;        (* the database at [BEGIN], while a transaction is open *)
  sq_txn_depth : nat;
  sq_faults : list bool;       (* outcomes of the next statements; none left means success *)
}.
#[export] Instance eta_sqlite : Eta SQLiteStore := λ s,
  mkSqlite (sq_mem s) (sq_db s) (sq_begun s) (sq_txn_depth s) (sq_faults s).

Notation sqlite_m A := (M SQLiteStore A).

(** Call an operation of the base class. *)
Definition mem {A} (m : store_m A) : sqlite_m A := λ s,
  let '(ms, r) := m (sq_mem s) in (s <| sq_mem := ms |>, r).

Definition OperationalError : exn := OtherError "OperationalError" None.

(** [self._db.execute(...)] *)
Definition execute (f : Db → Db) : sqlite_m unit := λ s,
  match sq_faults s with
  | true :: fs => (s <| sq_faults := fs |>, Raise OperationalError)
  | false :: fs => (s <| sq_db := f (sq_db s) |> <| sq_faults := fs |>, Ok tt)
  | [] => (s <| sq_db := f (sq_db s) |>, Ok tt)
  end.

(** [BEGIN IMMEDIATE], [COMMIT], [ROLLBACK]: the first raises inside a transaction, the others outside one. *)
Definition if_active (yes no : sqlite_m unit) : sqlite_m unit := λ s,
  match sq_begun s with Some _ => yes s | None => no s end.
Definition begin_txn : sqlite_m unit :=
  _ ← execute (λ d, d); if_active (raise OperationalError) (modify (λ s, s <| sq_begun := Some (sq_db s) |>)).
Definition commit_txn : sqlite_m unit :=
  _ ← execute (λ d, d); if_active (modify (λ s, s <| sq_begun := None |>)) (raise OperationalError).
Definition rollback_txn : sqlite_m unit :=
  _ ← execute (λ d, d);
  if_active (modify (λ s, s <| sq_db := default (sq_db s) (sq_begun s) |> <| sq_begun := None |>)) (raise OperationalError).

(** [with self._db: body]: on leaving, an open transaction is committed, or rolled back when the body raised. *)
Definition with_db {A} (body : sqlite_m A) : sqlite_m A :=
  a ← catch body (λ e, _ ← if_active rollback_txn (mret tt); raise e);
  _ ← if_active commit_txn (mret tt); mret a.

(** ** Writing records *)

Section sqlite.
Context `{CanonicalJson} `{PyRepr}.

Definition payload (d : pydict) : string := json_canonical (PDict d).

(** [_put_record] *)
Definition put_record (namespace key : string) (d : pydict) : sqlite_m unit :=
  execute (λ db, db <| db_records := dset (namespace, key) (payload d) (db_records db) |>).

(** [DELETE FROM records WHERE namespace=? AND record_key=?] *)
Definition delete_record (namespace key : string) : sqlite_m unit :=
  execute (λ db, db <| db_records := ddel (namespace, key) (db_records db) |>).

(** ["|".join(key)] *)
Definition join_key (key : SessionKey) : string :=
  let '(app, user, id) := key in app +:+ "|" +:+ user +:+ "|" +:+ id.

(** [_rollback_memory] on a table *)
Definition rollback_memory {K V} `{EqDecision K} (key : K) (prior : option V) (bucket : dict K V) : dict K V :=
  match prior with None => ddel key bucket | Some v => dset key v bucket end.

Fixpoint for_each {A} (f : A → sqlite_m unit) (l : list A) : sqlite_m unit :=
  match l with [] => mret tt | x :: l' => _ ← f x; for_each f l' end.

Definition when (b : bool) (m : sqlite_m unit) : sqlite_m unit := if b then m else mret tt.

(** [put_session] *)
Definition put_session (now : Z) (session : loc) : sqlite_m loc :=
  r0 ← mem (load_session session);
  let key := session_key r0 in
  prior ← gets (λ s, dget key (st_sessions (sq_mem s)));
  catch
    (l ← mem (SessionStore.put_session now session);
     record ← mem (load_session l);
     _ ← put_record "session" (join_key key) (session_asdict record);
     mret l)
    (λ e, _ ← mem (modify (λ m, m <| st_sessions := rollback_memory key prior (st_sessions m) |>)); raise e).

(** [save_harness] *)
Definition save_harness (now : Z) (harness : HarnessRecord) : sqlite_m HarnessRecord :=
  prior ← gets (λ s, dget (h_id harness) (st_harnesses (sq_mem s)));
  catch
    (record ← mem (SessionStore.save_harness now harness);
     _ ← put_record "harness" (h_id record) (harness_asdict record);
     mret record)
    (λ e, _ ← mem (modify (λ m, m <| st_harnesses := rollback_memory (h_id harness) prior (st_harnesses m) |>)); raise e).

(** [save_profile] *)
Definition save_profile (clock : Z) (profile : ProfileRecord) : sqlite_m ProfileRecord :=
  prior ← gets (λ s, dget (p_id profile) (st_profiles (sq_mem s)));
  catch
    (record ← mem (SessionStore.save_profile clock profile);
     _ ← put_record "profile" (p_id record) (profile_asdict record);
     mret record)
    (λ e, _ ← mem (modify (λ m, m <| st_profiles := rollback_memory (p_id profile) prior (st_profiles m) |>)); raise e).

(** [delete_harness] *)
Definition delete_harness (harness_id : string) : sqlite_m unit :=
  _ ← mem (SessionStore.delete_harness harness_id); delete_record "harness" harness_id.

(** [delete_session]: the ids are collected before the base class cascades, and their rows are deleted
    whether or not the session was there. *)
Definition delete_session (key : SessionKey) : sqlite_m unit :=
  m ← gets sq_mem;
  let invocation_ids := owned_invocations key.2 m in
  let turn_ids := owned_turns key.2 m in
  let approval_ids := owned_approvals key.2 m in
  let request_ids := owned_inputs key.2 m in
  let event_ids := e_eventId <$> default [] (dget key (st_events_by_session m)) in
  _ ← mem (SessionStore.delete_session key);
  _ ← delete_record "session" (join_key key);
  _ ← for_each (delete_record "invocation") invocation_ids;
  _ ← for_each (delete_record "turn") turn_ids;
  _ ← for_each (delete_record "approval") approval_ids;
  _ ← for_each (delete_record "input_request") request_ids;
  for_each (delete_record "event") event_ids.

(** The statuses for which [put_invocation] writes the prompts it closed. *)
Definition persisted_statuses : list string := ["failed"; "incomplete"; "cancelled"].

Definition write_approval (record : ApprovalRecord) : sqlite_m unit :=
  put_record "approval" (a_id record) (approval_asdict record).
Definition write_input (record : InputRequestRecord) : sqlite_m unit :=
  put_record "input_request" (q_id record) (input_asdict record).

(** The two loops of [put_invocation] over the invocation's prompts. *)
Definition write_prompts (invocation_id : string) : sqlite_m unit :=
  m ← gets sq_mem;
  _ ← for_each write_approval
        (keep (λ a, bool_decide (a_invocationId a = invocation_id)) (dvalues (st_approvals m)));
  for_each write_input (keep (λ q, bool_decide (q_invocationId q = invocation_id)) (dvalues (st_input_requests m))).

(** [put_invocation] *)
Definition put_invocation (clock : Z) (invocation : loc) : sqlite_m loc :=
  record ← mem (load_invocation invocation);
  prior ← gets (λ s, dget (i_id record) (st_invocations (sq_mem s)));
  own_txn ← gets (λ s, Nat.eqb (sq_txn_depth s) 0);
  _ ← when own_txn begin_txn;
  catch
    (_ ← mem (SessionStore.put_invocation clock invocation);
     _ ← put_record "invocation" (i_id record) (invocation_asdict record);
     _ ← when (bool_decide (i_status record ∈ persisted_statuses)) (write_prompts (i_id record));
     _ ← when own_txn commit_txn;
     mret invocation)
    (λ e, _ ← when own_txn rollback_txn;
          _ ← mem (modify (λ m, m <| st_invocations := rollback_memory (i_id record) prior (st_invocations m) |>));
          raise e).

(** [put_turn] *)
Definition put_turn (turn : loc) : sqlite_m loc :=
  record ← mem (load_turn turn);
  prior ← gets (λ s, dget (t_id record) (st_turns (sq_mem s)));
  catch
    (_ ← mem (SessionStore.put_turn turn);
     _ ← put_record "turn" (t_id record) (turn_asdict record);
     mret turn)
    (λ e, _ ← mem (modify (λ m, m <| st_turns := rollback_memory (t_id record) prior (st_turns m) |>)); raise e).

(** [_rollback_event_memory]: the prior lists are the very lists the base class has appended to, so
    putting them back keeps the event; only a list that was not there before is removed. *)
Definition rollback_event_memory (event : CanonicalEventRecord) (had_session had_invocation : bool) (prior_next : N)
    (m : MemoryStore) : MemoryStore :=
  let key := event_session_key event in
  let m1 := if had_session then m else m <| st_events_by_session := ddel key (st_events_by_session m) |> in
  let m2 := match e_invocationId event with
            | Some (String _ _ as inv) =>
                if had_invocation then m1
                else m1 <| st_events_by_invocation := ddel (key, inv) (st_events_by_invocation m1) |>
            | _ => m1
            end in
  m2 <| st_next_event_number := prior_next |>.

(** [append] *)
Definition append (event : CanonicalEventRecord) : sqlite_m unit :=
  m ← gets sq_mem;
  let key := event_session_key event in
  let had_session := dmem key (st_events_by_session m) in
  let had_invocation := match e_invocationId event with
                        | Some inv => dmem (key, inv) (st_events_by_invocation m)
                        | None => false
                        end in
  catch
    (_ ← mem (append_event event); put_record "event" (e_eventId event) (event_asdict event))
    (λ e, _ ← mem (modify (rollback_event_memory event had_session had_invocation (st_next_event_number m))); raise e).

(** [put_delegated_session] *)
Definition put_delegated_session (now : Z) (record : DelegatedSessionRecord) : sqlite_m DelegatedSessionRecord :=
  saved ← mem (SessionStore.put_delegated_session now record);
  _ ← put_record "delegated_session" (ds_id saved) (delegated_asdict saved);
  mret saved.

(** [put_approval], [resolve_approval], [put_input_request], [resolve_input_request] *)
Definition put_approval (approval : ApprovalRecord) : sqlite_m ApprovalRecord :=
  record ← mem (Interactions.put_approval approval); _ ← write_approval record; mret record.

Definition resolve_approval (now : Z) (approval_id : string) (decision : pydict) : sqlite_m ApprovalRecord :=
  record ← mem (Interactions.resolve_approval now approval_id decision); _ ← write_approval record; mret record.

Definition put_input_request (request : InputRequestRecord) : sqlite_m InputRequestRecord :=
  record ← mem (Interactions.put_input_request request); _ ← write_input record; mret record.

Definition resolve_input_request (now : Z) (request_id : string) (answers : pydict) : sqlite_m InputRequestRecord :=
  record ← mem (Interactions.resolve_input_request now request_id answers); _ ← write_input record; mret record.

(** [close_pending_interactions] *)
Definition close_pending_interactions (invocation_id : string) (resolved_at_ms : Z)
    : sqlite_m (list ApprovalRecord * list InputRequestRecord) :=
  closed ← mem (Interactions.close_pending_interactions invocation_id resolved_at_ms);
  _ ← for_each write_approval closed.1;
  _ ← for_each write_input closed.2;
  mret closed.

(** [acquire_lease], [renew_lease], [release_lease] *)
Definition acquire_lease (now : Z) (key : SessionKey) (holder : string) (ttl_ms : Z) : sqlite_m Lease :=
  lease ← mem (Leases.acquire_lease now key holder ttl_ms);
  _ ← put_record "lease" (join_key key) (lease_asdict lease);
  _ ← put_record "lease_token" (join_key key) (lease_asdict lease);
  mret lease.

Definition renew_lease (now1 now2 : Z) (key : SessionKey) (holder : string) (token ttl_ms : Z) : sqlite_m Lease :=
  lease ← mem (Leases.renew_lease now1 now2 key holder token ttl_ms);
  _ ← put_record "lease" (join_key key) (lease_asdict lease);
  mret lease.

Definition release_lease (key : SessionKey) (holder : string) (token : option Z) : sqlite_m unit :=
  existing ← gets (λ s, dget key (st_leases (sq_mem s)));
  _ ← mem (Leases.release_lease key holder token);
  left ← gets (λ s, dget key (st_leases (sq_mem s)));
  when (is_some existing && negb (is_some left)) (delete_record "lease" (join_key key)).

(** [acquire_workspace_lock], [release_workspace_lock] *)
Definition acquire_workspace_lock (now : Z) (canonical_workspace delegated_session_id access : string) (ttl_ms : Z)
    : sqlite_m WorkspaceLockResult :=
  res ← mem (Leases.acquire_workspace_lock now canonical_workspace delegated_session_id access ttl_ms);
  lease ← gets (λ s, dget canonical_workspace (st_workspace_locks (sq_mem s)));
  _ ← match lease with
      | Some l => when (negb (bool_decide (access = "ro")) && w_acquired res)
                    (put_record "workspace_lock" canonical_workspace (lease_asdict l))
      | None => mret tt
      end;
  mret res.

Definition release_workspace_lock (canonical_workspace delegated_session_id : string) : sqlite_m unit :=
  _ ← mem (Leases.release_workspace_lock canonical_workspace delegated_session_id);
  held ← gets (λ s, dmem canonical_workspace (st_workspace_locks (sq_mem s)));
  when (negb held) (delete_record "workspace_lock" canonical_workspace).

(** ** Idempotency: every call reloads the row of its key and writes it back *)

(** The row as a record; a result that does not parse raises. *)
Definition row_record (key_hash : string) (row : IdemRow) : result IdempotencyRecord :=
  res ← match ir_result_json row with
        | None => Ok None
        | Some text => match json_loads text with
                       | Some PNone => Ok None
                       | Some v => Ok (Some v)
                       | None => Raise (ValueError "JSONDecodeError")
                       end
        end;
  mret (mkIdempotency key_hash (ir_request_hash row) res (ir_released row) (ir_accepted row) (ir_invocation_id row)
          (ir_accepted_at_ms row) (ir_completed_at_ms row) (ir_expires_at_ms row) (ir_tombstone row)
          (ir_schema_version row) (ir_created_at_ms row)).

(** [_reload_idempotency] *)
Definition reload_idempotency (key_hash : string) : sqlite_m unit :=
  _ ← execute (λ d, d);
  row ← gets (λ s, dget key_hash (db_idempotency (sq_db s)));
  match row with
  | None => mem (modify (λ m, m <| st_idempotency := ddel key_hash (st_idempotency m) |>))
  | Some row =>
      record ← lift (row_record key_hash row);
      mem (modify (λ m, m <| st_idempotency := dset key_hash record (st_idempotency m) |>))
  end.

(** [_write_idempotency]: an upsert that keeps the creation time of the first insert. *)
Definition record_row (r : IdempotencyRecord) (created : Z) : IdemRow :=
  mkIdemRow (k_requestHash r) (json_compact <$> k_result r) (k_released r) (k_accepted r) (k_invocationId r)
    (k_acceptedAtMs r) (k_completedAtMs r) (k_expiresAtMs r) (k_tombstone r) (k_schemaVersion r) created.

Definition write_idempotency (r : IdempotencyRecord) : sqlite_m unit :=
  execute (λ db,
    let created := match dget (k_keyHash r) (db_idempotency db) with
                   | Some row => ir_created_at_ms row
                   | None => k_createdAtMs r
                   end in
    db <| db_idempotency := dset (k_keyHash r) (record_row r created) (db_idempotency db) |>).

(** Write the record of a key, if there is one. *)
Definition write_back (key_hash : string) : sqlite_m unit :=
  record ← gets (λ s, dget key_hash (st_idempotency (sq_mem s)));
  match record with Some r => write_idempotency r | None => mret tt end.

Definition is_expired_error (e : exn) : bool := match e with IdempotencyExpiredError _ _ _ => true | _ => false end.

(** [reserve] *)
Definition reserve (now now_sweep now_created : Z) (key_hash request_hash : string) : sqlite_m IdempotencyReservation :=
  with_db (
    _ ← reload_idempotency key_hash;
    reservation ← catch (mem (Idempotency.reserve now now_sweep now_created key_hash request_hash))
      (λ e, _ ← when (is_expired_error e) (write_back key_hash); raise e);
    _ ← write_back key_hash;
    mret reservation).

(** [accept], [complete], [replay], [release] *)
Definition accept (accepted_at : Z) (key_hash invocation_id : string) : sqlite_m IdempotencyRecord :=
  with_db (
    _ ← reload_idempotency key_hash;
    record ← mem (Idempotency.accept accepted_at key_hash invocation_id);
    _ ← write_idempotency record;
    mret record).

Definition complete (completed_at : Z) (key_hash : string) (res : option pyval) : sqlite_m unit :=
  with_db (
    _ ← reload_idempotency key_hash;
    _ ← mem (Idempotency.complete completed_at key_hash res);
    write_back key_hash).

Definition replay (now : Z) (key_hash : string) : sqlite_m (option pyval) :=
  with_db (
    _ ← reload_idempotency key_hash;
    res ← mem (Idempotency.replay now key_hash);
    _ ← write_back key_hash;
    mret res).

Definition release (key_hash : string) : sqlite_m unit :=
  with_db (
    _ ← reload_idempotency key_hash;
    _ ← mem (Idempotency.release key_hash);
    write_back key_hash).

(** ** Transactions *)

(** [_memory_checkpoint]: the mappings, copied; the session, invocation and turn objects they refer to are shared. *)
Record checkpoint := mkCheckpoint {
  cp_sessions : dict SessionKey loc;
  cp_invocations : dict string loc;
  cp_turns : dict string loc;
  cp_approvals : dict string ApprovalRecord;
  cp_input_requests : dict string InputRequestRecord;
  cp_events_by_session : dict SessionKey (list CanonicalEventRecord);
  cp_events_by_invocation : dict InvocationEventKey (list CanonicalEventRecord);
  cp_next_event_number : N;
}.

Definition memory_checkpoint (m : MemoryStore) : checkpoint :=
  mkCheckpoint (st_sessions m) (st_invocations m) (st_turns m) (st_approvals m) (st_input_requests m)
    (st_events_by_session m) (st_events_by_invocation m) (st_next_event_number m).

(** [_restore_memory_checkpoint] *)
Definition restore_memory_checkpoint (c : checkpoint) (m : MemoryStore) : MemoryStore :=
  m <| st_sessions := cp_sessions c |> <| st_invocations := cp_invocations c |> <| st_turns := cp_turns c |>
    <| st_approvals := cp_approvals c |> <| st_input_requests := cp_input_requests c |>
    <| st_events_by_session := cp_events_by_session c |> <| st_events_by_invocation := cp_events_by_invocation c |>
    <| st_next_event_number := cp_next_event_number c |>.

Definition set_depth (f : nat → nat) : sqlite_m unit := modify (λ s, s <| sq_txn_depth := f (sq_txn_depth s) |>).

(** [with store.transaction(): body].  [BEGIN] is outside the [try], so when it fails the depth stays raised; a
    failing [COMMIT] is not rolled back. *)
Definition transaction {A} (body : sqlite_m A) : sqlite_m A :=
  nested ← gets (λ s, negb (Nat.eqb (sq_txn_depth s) 0));
  _ ← set_depth S;
  snapshot ← gets (λ s, memory_checkpoint (sq_mem s));
  _ ← when (negb nested) begin_txn;
  finally
    (a ← catch body
       (λ e, _ ← when (negb nested) (_ ← rollback_txn; mem (modify (restore_memory_checkpoint snapshot))); raise e);
     _ ← when (negb nested) commit_txn;
     mret a)
    (set_depth pred).
End sqlite.

(** ** Loading *)

Section load.
Context `{CanonicalJson}.

(** [str(record_key).split("|", 2)] as a session key; fewer parts raise [IndexError]. *)
Definition split_key (text : string) : result SessionKey :=
  match split_on (Ascii.ascii_of_nat 124) text with
  | app :: user :: ((_ :: _) as rest) => Ok (app, user, join_with "|" rest)
  | _ => Raise (OtherError "IndexError" None)
  end.

(** The payload as an object, for the record types read through [_construct_record]. *)
Definition payload_object (text : string) : result pydict :=
  match json_loads text with
  | Some (PDict d) => Ok d
  | Some _ => Raise (ValueError "record payload must be an object")
  | None => Raise (ValueError "JSONDecodeError")
  end.

(** The same for harness and delegated session rows, whose payload's [items] are taken first. *)
Definition payload_items (text : string) : result pydict :=
  match json_loads text with
  | Some (PDict d) => Ok d
  | Some _ => Raise AttributeError
  | None => Raise (ValueError "JSONDecodeError")
  end.

(** [_normalize_record_payload] for sessions: the older name of the control state. *)
Definition session_payload (d : pydict) : pydict :=
  match dget "controlState" d, dget "control_state" d with
  | None, Some v => d ++ [("controlState", v)]
  | _, _ => d
  end.

(** [_valid_session_record], the parts that typed records leave open. *)
Definition valid_session_record (r : SessionRecord) : bool :=
  negb (bool_decide (s_id r = "")) && negb (bool_decide (s_appName r = "")) && negb (bool_decide (s_userId r = "")) &&
  known_control_state (s_controlState r).

(** [except (TypeError, ValueError, KeyError): continue] *)
Definition skip_invalid {A} (r : result A) (skip : A) : result A :=
  match r with
  | Raise (ValueError _) | Raise (KeyError _) | Raise TypeError => Ok skip
  | _ => r
  end.

Definition put_session_object (r : SessionRecord) (m : MemoryStore) : MemoryStore :=
  m <| st_session_objs := st_session_objs m ++ [r] |>
    <| st_sessions := dset (session_key r) (length (st_session_objs m)) (st_sessions m) |>.
Definition put_invocation_object (r : InvocationRecord) (m : MemoryStore) : MemoryStore :=
  m <| st_invocation_objs := st_invocation_objs m ++ [r] |>
    <| st_invocations := dset (i_id r) (length (st_invocation_objs m)) (st_invocations m) |>.
Definition put_turn_object (r : TurnRecord) (m : MemoryStore) : MemoryStore :=
  m <| st_turn_objs := st_turn_objs m ++ [r] |> <| st_turns := dset (t_id r) (length (st_turn_objs m)) (st_turns m) |>.
Definition put_delegated_row (r : DelegatedSessionRecord) (m : MemoryStore) : MemoryStore :=
  m <| st_delegated_sessions := dset (ds_id r) r (st_delegated_sessions m) |>
    <| st_delegated_by_manager_session := dset (ds_managerSessionId r) (ds_id r) (st_delegated_by_manager_session m) |>
    <| st_delegated_by_haas_session := dset (ds_haasSessionId r) (ds_id r) (st_delegated_by_haas_session m) |>.

(** One row of [records].  Errors of the two lease namespaces' keys are not caught. *)
Definition load_row (now : Z) (m : MemoryStore) (row : string * string * string) : result MemoryStore :=
  let '(namespace, key, text) := row in
  if bool_decide (namespace = "harness") then
    skip_invalid (d ← payload_items text; r ← construct_harness now d;
                  mret (m <| st_harnesses := dset (h_id r) r (st_harnesses m) |>)) m
  else if bool_decide (namespace = "delegated_session") then
    skip_invalid (d ← payload_items text; r ← construct_delegated now d; mret (put_delegated_row r m)) m
  else if bool_decide (namespace = "profile") then
    skip_invalid (d ← payload_object text; r ← construct_profile now d;
                  mret (m <| st_profiles := dset (p_id r) r (st_profiles m) |>)) m
  else if bool_decide (namespace = "session") then
    skip_invalid (d ← payload_object text; r ← construct_session now (session_payload d);
                  mret (if valid_session_record r then put_session_object r m else m)) m
  else if bool_decide (namespace = "invocation") then
    skip_invalid (d ← payload_object text; r ← construct_invocation now d; mret (put_invocation_object r m)) m
  else if bool_decide (namespace = "turn") then
    skip_invalid (d ← payload_object text; r ← construct_turn now d; mret (put_turn_object r m)) m
  else if bool_decide (namespace = "event") then
    skip_invalid (d ← payload_object text; r ← construct_event now d; mret (append_event r m).1) m
  else if bool_decide (namespace = "approval") then
    skip_invalid (d ← payload_object text; r ← construct_approval now d;
                  mret (m <| st_approvals := dset (a_id r) r (st_approvals m) |>)) m
  else if bool_decide (namespace = "input_request") then
    skip_invalid (d ← payload_object text; r ← construct_input now d;
                  mret (m <| st_input_requests := dset (q_id r) r (st_input_requests m) |>)) m
  else if bool_decide (namespace = "lease") then
    match skip_invalid (d ← payload_object text; r ← construct_lease d; mret (Some r)) None with
    | Ok (Some lease) =>
        k ← split_key key;
        mret (m <| st_leases := dset k lease (st_leases m) |> <| st_lease_tokens := dset k (l_token lease) (st_lease_tokens m) |>)
    | Ok None => Ok m
    | Raise e => Raise e
    end
  else if bool_decide (namespace = "lease_token") then
    match skip_invalid (d ← payload_object text; r ← construct_lease d; mret (Some r)) None with
    | Ok (Some lease) => k ← split_key key; mret (m <| st_lease_tokens := dset k (l_token lease) (st_lease_tokens m) |>)
    | Ok None => Ok m
    | Raise e => Raise e
    end
  else if bool_decide (namespace = "workspace_lock") then
    skip_invalid (d ← payload_object text; r ← construct_lease d;
                  mret (m <| st_workspace_locks := dset key r (st_workspace_locks m) |>)) m
  else Ok m.

Fixpoint load_rows (now : Z) (rows : dict (string * string) string) (m : MemoryStore) : result MemoryStore :=
  match rows with
  | [] => Ok m
  | row :: rows' => m' ← load_row now m row; load_rows now rows' m'
  end.

Fixpoint load_idempotency (rows : dict string IdemRow) (m : MemoryStore) : result MemoryStore :=
  match rows with
  | [] => Ok m
  | (key_hash, row) :: rows' =>
      r ← row_record key_hash row;
      load_idempotency rows' (m <| st_idempotency := dset key_hash r (st_idempotency m) |>)
  end.

(** [_load], into a fresh store *)
Definition load (now ttl : Z) (db : Db) : result MemoryStore :=
  m ← load_rows now (db_records db) (MemoryStore_init ttl); load_idempotency (db_idempotency db) m.

(** Opening a database *)
Definition open_store (now ttl : Z) (db : Db) : result SQLiteStore :=
  m ← load now ttl db; mret (mkSqlite m db None 0 []).

(** [_migrate] on the database's [user_version]; creating the tables keeps those that exist. *)
Definition SCHEMA_VERSION : Z := 1.
Definition migrate (version : Z) : result Z :=
  if SCHEMA_VERSION <? version then Raise (OtherError "RuntimeError" None)
  else Ok (if version <? 1 then SCHEMA_VERSION else version).

(** [SQLiteStore(path)] *)
Definition open_database (now ttl version : Z) (db : Db) : result (Z * SQLiteStore) :=
  v ← migrate version; s ← open_store now ttl db; mret (v, s).
End load.

(** Open the monad. *)
Ltac steps := unfold mbind, M_bind, mret, M_ret, mem, gets, lift, raise, modify, when; cbn.
