(* ===== verification/SqliteInv.v ===== *)
(** * Durability of the SQLite store (haas/stores/sqlite.py)

    What a restart reads from the database is what the running store holds.  [durable m ns key] is the
    dictionary that row ([ns], [key]) should hold when the memory is [m]; a store is [synced] when its rows hold
    exactly those.  Operations keep a store synced and loading a database gives a memory with the same durable content. *)

From S2P Require Import Prelude Errors Dict PyVal Encoding Json Records RecordCodec Store Leases Idempotency Interactions.
From S2P Require Import SessionStore EventStore Sqlite.

#[local] Open Scope string_scope.
#[local] Open Scope list_scope.
#[local] Open Scope Z_scope.

(** ** Row keys *)

Definition bar : Ascii.ascii := Ascii.ascii_of_nat 124.

(** Application and user names without the separator; the session id may contain it. *)
Definition no_bar (s : string) : bool := str_forall (λ a, negb (Ascii.eqb a bar)) s.
Definition clean_key (key : SessionKey) : Prop := no_bar key.1.1 = true ∧ no_bar key.1.2 = true.

Lemma split_on_no_bar s : no_bar s = true → split_on bar s = [s].
Proof.
  unfold no_bar. induction s as [|a s IH]; intros Hs; [done|]. cbn [str_forall] in Hs. bsimp.
  cbn [split_on]. rewrite (IH H0). destruct (Ascii.eqb a bar) eqn:E; [done|].
  by destruct (Ascii.eqb_spec a bar).
Qed.

Lemma split_join_key key : clean_key key → split_key (join_key key) = Ok key.
Proof.
  destruct key as [[app user] id]. intros [Ha Hu]. simpl in *. unfold split_key, join_key. fold bar.
  change (app +:+ "|" +:+ user +:+ "|" +:+ id) with (app +:+ String bar (user +:+ String bar id)).
  rewrite !split_on_app, (split_on_no_bar app Ha), (split_on_no_bar user Hu). simpl.
  destruct (split_on bar id) as [|x l] eqn:E; [by apply split_on_nonempty in E|].
  f_equal. f_equal. rewrite <-E. apply (join_split bar).
Qed.

Lemma join_key_inj k1 k2 : clean_key k1 → clean_key k2 → join_key k1 = join_key k2 → k1 = k2.
Proof. intros H1 H2 E. apply split_join_key in H1, H2. rewrite E, H2 in H1. by simplify_eq. Qed.

(** ** Payloads *)

Section codec.
Context `{CanonicalJson}.

Lemma payload_object_ok d : payload_object (payload d) = Ok (canon_dict d).
Proof. unfold payload_object, payload. by rewrite loads_canonical, canon_PDict. Qed.
Lemma payload_items_ok d : payload_items (payload d) = Ok (canon_dict d).
Proof. unfold payload_items, payload. by rewrite loads_canonical, canon_PDict. Qed.

(** A dictionary and its sorted form have the same text. *)
Lemma payload_canon d1 d2 : canon_dict d1 = canon_dict d2 → payload d1 = payload d2.
Proof.
  intros E. unfold payload. rewrite <-(canonical_canon (PDict d1)), <-(canonical_canon (PDict d2)).
  by rewrite !canon_PDict, E.
Qed.

Lemma payload_inj d1 d2 : payload d1 = payload d2 → canon_dict d1 = canon_dict d2.
Proof.
  unfold payload. intros E. apply (f_equal json_loads) in E. rewrite !loads_canonical, !canon_PDict in E. by simplify_eq.
Qed.

(** ** What a memory asks of each row *)

Definition of_key {A} (f : SessionKey → option A) (key : string) : option A :=
  match split_key key with Ok k => f k | Raise _ => None end.

(** Tables by namespace, each row's dictionary.  Events and lease tokens are treated apart. *)
Definition durable (m : MemoryStore) (ns key : string) : option pydict :=
  if bool_decide (ns = "harness") then harness_asdict <$> dget key (st_harnesses m)
  else if bool_decide (ns = "profile") then profile_asdict <$> dget key (st_profiles m)
  else if bool_decide (ns = "session") then session_asdict <$> of_key (λ k, session_at k m) key
  else if bool_decide (ns = "invocation") then invocation_asdict <$> invocation_at key m
  else if bool_decide (ns = "turn") then turn_asdict <$> turn_at key m
  else if bool_decide (ns = "approval") then approval_asdict <$> dget key (st_approvals m)
  else if bool_decide (ns = "input_request") then input_asdict <$> dget key (st_input_requests m)
  else if bool_decide (ns = "delegated_session") then delegated_asdict <$> dget key (st_delegated_sessions m)
  else if bool_decide (ns = "lease") then lease_asdict <$> of_key (λ k, dget k (st_leases m)) key
  else if bool_decide (ns = "workspace_lock") then lease_asdict <$> dget key (st_workspace_locks m)
  else None.

Definition row_table (ns : string) : Prop := ns ≠ "event" ∧ ns ≠ "lease_token".

(** The memory changed at one row. *)
Definition changed_at (m m' : MemoryStore) (ns key : string) (o : option string) : Prop :=
  ∀ ns' key', row_table ns' →
    payload <$> durable m' ns' key' = if decide (ns' = ns ∧ key' = key) then o else payload <$> durable m ns' key'.

(** ** Records and their rows *)

Inductive record :=
  | RHarness (r : HarnessRecord) | RProfile (r : ProfileRecord) | RSession (r : SessionRecord)
  | RInvocation (r : InvocationRecord) | RTurn (r : TurnRecord) | RApproval (r : ApprovalRecord)
  | RInput (r : InputRequestRecord) | RDelegated (r : DelegatedSessionRecord) | REvent (r : CanonicalEventRecord)
  | RLease (k : SessionKey) (r : Lease) | RToken (k : SessionKey) (r : Lease) | RLock (w : string) (r : Lease).

Definition ns_of (x : record) : string :=
  match x with
  | RHarness _ => "harness" | RProfile _ => "profile" | RSession _ => "session" | RInvocation _ => "invocation"
  | RTurn _ => "turn" | RApproval _ => "approval" | RInput _ => "input_request" | RDelegated _ => "delegated_session"
  | REvent _ => "event" | RLease _ _ => "lease" | RToken _ _ => "lease_token" | RLock _ _ => "workspace_lock"
  end.

Definition key_of (x : record) : string :=
  match x with
  | RHarness r => h_id r | RProfile r => p_id r | RSession r => join_key (session_key r) | RInvocation r => i_id r
  | RTurn r => t_id r | RApproval r => a_id r | RInput r => q_id r | RDelegated r => ds_id r
  | REvent r => e_eventId r | RLease k _ | RToken k _ => join_key k | RLock w _ => w
  end.

Definition dict_of (x : record) : pydict :=
  match x with
  | RHarness r => harness_asdict r | RProfile r => profile_asdict r | RSession r => session_asdict r
  | RInvocation r => invocation_asdict r | RTurn r => turn_asdict r | RApproval r => approval_asdict r
  | RInput r => input_asdict r | RDelegated r => delegated_asdict r | REvent r => event_asdict r
  | RLease _ r | RToken _ r | RLock _ r => lease_asdict r
  end.

Definition row_of (x : record) : string * string * string := (ns_of x, key_of x, payload (dict_of x)).

(** What loading a row does to the memory. *)
Definition restore (m : MemoryStore) (x : record) : MemoryStore :=
  match x with
  | RHarness r => m <| st_harnesses := dset (h_id r) (canon_harness r) (st_harnesses m) |>
  | RProfile r => m <| st_profiles := dset (p_id r) (canon_profile r) (st_profiles m) |>
  | RSession r => put_session_object (canon_session r) m
  | RInvocation r => put_invocation_object (canon_invocation r) m
  | RTurn r => put_turn_object (canon_turn r) m
  | RApproval r => m <| st_approvals := dset (a_id r) (canon_approval r) (st_approvals m) |>
  | RInput r => m <| st_input_requests := dset (q_id r) (canon_input r) (st_input_requests m) |>
  | RDelegated r => put_delegated_row (canon_delegated r) m
  | REvent r => (append_event (canon_event r) m).1
  | RLease k r =>
      m <| st_leases := dset k (canon_lease r) (st_leases m) |> <| st_lease_tokens := dset k (l_token r) (st_lease_tokens m) |>
  | RToken k r => m <| st_lease_tokens := dset k (l_token r) (st_lease_tokens m) |>
  | RLock w r => m <| st_workspace_locks := dset w (canon_lease r) (st_workspace_locks m) |>
  end.

(** The records the store writes. *)
Definition record_ok (x : record) : Prop :=
  match x with
  | RSession r => clean_key (session_key r) ∧ valid_session_record r = true
  | RLease k _ | RToken k _ => clean_key k
  | _ => True
  end.

(** A session written by this version has its control state under the current name. *)
Lemma session_payload_asdict r : session_payload (canon_dict (session_asdict r)) = canon_dict (session_asdict r).
Proof. unfold session_payload. by rewrite dget_canon by apply session_asdict_wf. Qed.

Lemma load_row_of now m x : record_ok x → load_row now m (row_of x) = Ok (restore m x).
Proof.
  destruct x; intros Hok; unfold load_row, row_of; cbn [ns_of key_of dict_of];
    repeat (rewrite bool_decide_false by done); rewrite bool_decide_true by done;
    rewrite ?payload_object_ok, ?payload_items_ok; cbn [mbind result_bind].
  - by rewrite construct_harness_asdict.
  - by rewrite construct_profile_asdict.
  - destruct Hok as [_ Hv]. pose proof Hv as Hv'. unfold valid_session_record in Hv'. bsimp.
    rewrite session_payload_asdict, construct_session_asdict by done. cbn.
    change (valid_session_record (canon_session r)) with (valid_session_record r). by rewrite Hv.
  - by rewrite construct_invocation_asdict.
  - by rewrite construct_turn_asdict.
  - by rewrite construct_approval_asdict.
  - by rewrite construct_input_asdict.
  - by rewrite construct_delegated_asdict.
  - by rewrite construct_event_asdict.
  - rewrite construct_lease_asdict. cbn. by rewrite split_join_key.
  - rewrite construct_lease_asdict. cbn. by rewrite split_join_key.
  - by rewrite construct_lease_asdict.
Qed.

Lemma load_rows_of now xs m : Forall record_ok xs → load_rows now (row_of <$> xs) m = Ok (foldl restore m xs).
Proof.
  intros Hx. revert m. induction Hx as [|x xs Hx _ IH]; intros m; [done|].
  cbn [fmap list_fmap load_rows]. rewrite load_row_of by done. apply IH.
Qed.

(** References of the three object tables are live. *)
Definition refs_ok (m : MemoryStore) : Prop :=
  (∀ k l, dget k (st_sessions m) = Some l → (l < length (st_session_objs m))%nat) ∧
  (∀ k l, dget k (st_invocations m) = Some l → (l < length (st_invocation_objs m))%nat) ∧
  (∀ k l, dget k (st_turns m) = Some l → (l < length (st_turn_objs m))%nat).

Lemma deref_put {K A} `{EqDecision K} (tbl : dict K nat) (objs : list A) k k' r :
  (∀ k l, dget k tbl = Some l → (l < length objs)%nat) →
  (dget k' (dset k (length objs) tbl) ≫= λ l, (objs ++ [r]) !! l) =
  if decide (k' = k) then Some r else dget k' tbl ≫= λ l, objs !! l.
Proof.
  intros Ht. rewrite dget_dset. case_decide; simpl; [by apply list_lookup_middle|].
  destruct (dget k' tbl) as [l|] eqn:E; [|done]. simpl. by apply lookup_app_l, (Ht k').
Qed.

Lemma refs_put {K A} `{EqDecision K} (tbl : dict K nat) (objs : list A) k r :
  (∀ k l, dget k tbl = Some l → (l < length objs)%nat) →
  ∀ k' l, dget k' (dset k (length objs) tbl) = Some l → (l < length (objs ++ [r]))%nat.
Proof.
  intros Ht k' l. rewrite dget_dset, length_app. simpl. case_decide; intros E; [simplify_eq; lia|].
  apply Ht in E. lia.
Qed.

(** The row of a session key: other clean keys have other rows. *)
Lemma of_key_put {A} (f g : SessionKey → option A) k key v :
  clean_key k → (∀ k', g k' = if decide (k' = k) then Some v else f k') →
  of_key g key = if decide (key = join_key k) then Some v else of_key f key.
Proof.
  intros Hk Hg. unfold of_key. case_decide as D; [subst; rewrite split_join_key by done; rewrite Hg; by rewrite decide_True|].
  destruct (split_key key) as [k'|] eqn:E; [|done]. rewrite Hg. rewrite decide_False; [done|]. intros ->.
  apply D. clear -E. unfold split_key in E. fold bar in E.
  destruct (split_on bar key) as [|a [|b [|c rest]]] eqn:S; simplify_eq.
  pose proof (join_split bar key) as J. rewrite S in J. rewrite <-J. done.
Qed.

(** Writing an entry of a table changes its row. *)
Lemma table_put {T} (asdict : T → pydict) (d : dict string T) k v t key :
  payload (asdict v) = t →
  payload <$> (asdict <$> dget key (dset k v d)) = if decide (key = k) then Some t else payload <$> (asdict <$> dget key d).
Proof. intros <-. rewrite dget_dset. by case_decide. Qed.

Lemma object_put {T} (asdict : T → pydict) (d : dict string nat) (objs : list T) k v t key :
  payload (asdict v) = t → (∀ k l, dget k d = Some l → (l < length objs)%nat) →
  payload <$> (asdict <$> (dget key (dset k (length objs) d) ≫= λ l, (objs ++ [v]) !! l)) =
  if decide (key = k) then Some t else payload <$> (asdict <$> (dget key d ≫= λ l, objs !! l)).
Proof. intros <- Hd. rewrite deref_put by done. by case_decide. Qed.

Lemma session_key_put {T} (asdict : T → pydict) (f g : SessionKey → option T) k v t key :
  clean_key k → (∀ k', g k' = if decide (k' = k) then Some v else f k') → payload (asdict v) = t →
  payload <$> (asdict <$> of_key g key) = if decide (key = join_key k) then Some t else payload <$> (asdict <$> of_key f key).
Proof. intros Hk Hg <-. rewrite (of_key_put f g k key v) by done. by case_decide. Qed.

(** A change at a row of one namespace, the others untouched. *)
Lemma changed_in m m' ns key o :
  (∀ ns' key', ns' ≠ ns → durable m' ns' key' = durable m ns' key') →
  (∀ key', payload <$> durable m' ns key' = if decide (key' = key) then o else payload <$> durable m ns key') →
  changed_at m m' ns key o.
Proof.
  intros Ho Ht ns' key' _. destruct (decide (ns' = ns)) as [->|Hn].
  - rewrite Ht. repeat case_decide; naive_solver.
  - rewrite decide_False by naive_solver. by rewrite Ho.
Qed.

Lemma changed_none m m' ns key o :
  (∀ ns' key', durable m' ns' key' = durable m ns' key') → ¬ row_table ns → changed_at m m' ns key o.
Proof. intros Ho Ht ns' key' Hn. rewrite decide_False by (by intros [-> _]). by rewrite Ho. Qed.

Ltac same_tables :=
  let Hn := fresh in intros ? ? Hn; unfold durable; rewrite ?(bool_decide_false _ Hn); reflexivity.

Lemma restore_durable m x : record_ok x → refs_ok m →
  refs_ok (restore m x) ∧ changed_at m (restore m x) (ns_of x) (key_of x) (Some (payload (dict_of x))).
Proof.
  intros Hx (R1 & R2 & R3). split; [destruct x; split_and!; try done; cbn; by apply refs_put|].
  destruct x; cbn [restore ns_of key_of dict_of];
    try (apply changed_none; [done|by intros [? ?]]); (apply changed_in; [same_tables|intros key]).
  - apply (table_put harness_asdict), payload_canon, harness_asdict_canon.
  - apply (table_put profile_asdict), payload_canon, profile_asdict_canon.
  - destruct Hx as [Hc _]. apply (session_key_put session_asdict (λ k, session_at k m) _ (session_key r) (canon_session r)); [done| |apply payload_canon, session_asdict_canon].
    intros k'. apply (deref_put (st_sessions m) (st_session_objs m) (session_key r) k' (canon_session r)), R1.
  - apply (object_put invocation_asdict); [apply payload_canon, invocation_asdict_canon|done].
  - apply (object_put turn_asdict); [apply payload_canon, turn_asdict_canon|done].
  - apply (table_put approval_asdict), payload_canon, approval_asdict_canon.
  - apply (table_put input_asdict), payload_canon, input_asdict_canon.
  - apply (table_put delegated_asdict), payload_canon, delegated_asdict_canon.
  - apply (session_key_put lease_asdict (λ k, dget k (st_leases m)) _ k (canon_lease r)); [done|intros k'; apply dget_dset|apply payload_canon, lease_asdict_canon].
  - apply (table_put lease_asdict), payload_canon, lease_asdict_canon.
Qed.

(** ** Tables as lists of records *)

Definition rid (x : record) : string * string := (ns_of x, key_of x).

Definition rows (xs : list record) : dict (string * string) string := row_of <$> xs.

Fixpoint put_rec (x : record) (xs : list record) : list record :=
  match xs with
  | [] => [x]
  | y :: xs' => if decide (rid y = rid x) then x :: xs' else y :: put_rec x xs'
  end.

Fixpoint del_rec (k : string * string) (xs : list record) : list record :=
  match xs with
  | [] => []
  | y :: xs' => if decide (rid y = k) then del_rec k xs' else y :: del_rec k xs'
  end.

Lemma dset_rows x xs : dset (rid x) (payload (dict_of x)) (rows xs) = rows (put_rec x xs).
Proof.
  induction xs as [|y xs IH]; [done|]. unfold rows in *. cbn [fmap list_fmap put_rec].
  unfold row_of at 1. cbn [dset]. change (ns_of y, key_of y) with (rid y).
  destruct (decide (rid y = rid x)) as [E|E]; cbn [fmap list_fmap].
  - rewrite decide_True by done. by rewrite E.
  - rewrite decide_False by done. by rewrite <-IH.
Qed.

Lemma ddel_rows k xs : ddel k (rows xs) = rows (del_rec k xs).
Proof.
  induction xs as [|y xs IH]; [done|]. unfold rows in *. cbn [fmap list_fmap del_rec].
  unfold row_of at 1. cbn [ddel]. change (ns_of y, key_of y) with (rid y).
  destruct (decide (rid y = k)) as [E|E]; cbn [fmap list_fmap].
  - rewrite decide_True by done. done.
  - rewrite decide_False by done. by rewrite <-IH.
Qed.

Lemma dkeys_rows xs : dkeys (rows xs) = rid <$> xs.
Proof. unfold dkeys, rows. by rewrite <-list_fmap_compose. Qed.

Lemma put_rec_elem x xs y : NoDup (rid <$> xs) → y ∈ put_rec x xs ↔ y = x ∨ (y ∈ xs ∧ rid y ≠ rid x).
Proof.
  induction xs as [|z xs IH]; intros ND; cbn [put_rec]; [set_solver|].
  rewrite fmap_cons in ND. apply NoDup_cons in ND as [Hz ND].
  destruct (decide (rid z = rid x)) as [E|E]; rewrite !elem_of_cons, ?IH by done; [|naive_solver].
  split; [|intros [->|[[->|Hy] Hn]]; [by left|done|by right]].
  intros [->|Hy]; [by left|]. right. split; [by right|]. intros E'.
  apply Hz. rewrite E, <-E'. by apply list_elem_of_fmap_2.
Qed.

Lemma del_rec_elem k xs y : y ∈ del_rec k xs ↔ y ∈ xs ∧ rid y ≠ k.
Proof.
  induction xs as [|z xs IH]; cbn [del_rec]; [set_solver|].
  destruct (decide (rid z = k)); rewrite ?elem_of_cons, IH; naive_solver.
Qed.

Lemma put_rec_ids x xs :
  rid <$> put_rec x xs = rid <$> xs ∨ (rid x ∉ rid <$> xs ∧ rid <$> put_rec x xs = (rid <$> xs) ++ [rid x]).
Proof.
  induction xs as [|y xs IH]; [right; split; [apply not_elem_of_nil|done]|]. cbn [put_rec].
  case_decide as E; [left; cbn; by rewrite E|]. rewrite !fmap_cons.
  destruct IH as [->|[Hn ->]]; [by left|right]. split; [|done]. rewrite not_elem_of_cons. naive_solver.
Qed.

Lemma put_rec_NoDup x xs : NoDup (rid <$> xs) → NoDup (rid <$> put_rec x xs).
Proof.
  intros ND. destruct (put_rec_ids x xs) as [->|[Hn ->]]; [done|].
  apply NoDup_app. split_and!; [done| |apply NoDup_singleton]. intros y Hy ->%list_elem_of_singleton. done.
Qed.

Lemma del_rec_NoDup k xs : NoDup (rid <$> xs) → NoDup (rid <$> del_rec k xs).
Proof.
  induction xs as [|y xs IH]; [done|]. rewrite fmap_cons. intros [Hy ND]%NoDup_cons. cbn [del_rec].
  case_decide; [auto|]. rewrite fmap_cons. apply NoDup_cons. split; [|auto].
  intros (z & Ez & Hz)%list_elem_of_fmap. apply del_rec_elem in Hz as [Hz _]. apply Hy. rewrite Ez. by apply list_elem_of_fmap_2.
Qed.

(** The events of a session, in row order. *)
Fixpoint events_of (key : SessionKey) (xs : list record) : list CanonicalEventRecord :=
  match xs with
  | [] => []
  | REvent e :: xs' => if decide (key = event_session_key e) then e :: events_of key xs' else events_of key xs'
  | _ :: xs' => events_of key xs'
  end.

Lemma events_of_put key x xs : ns_of x ≠ "event" → events_of key (put_rec x xs) = events_of key xs.
Proof.
  intros Hx. induction xs as [|y xs IH]; cbn [put_rec]; [by destruct x|].
  case_decide as E.
  - apply (f_equal fst) in E. cbn in E. destruct x, y; cbn in *; congruence.
  - destruct y; cbn; rewrite ?IH; done.
Qed.

Lemma put_rec_fresh x xs : rid x ∉ rid <$> xs → put_rec x xs = xs ++ [x].
Proof.
  induction xs as [|y xs IH]; [done|]. rewrite fmap_cons, not_elem_of_cons. intros [Hy Hx]. cbn [put_rec].
  rewrite decide_False by congruence. by rewrite IH.
Qed.

Lemma events_of_app key xs ys : events_of key (xs ++ ys) = events_of key xs ++ events_of key ys.
Proof. induction xs as [|x xs IH]; [done|]. destruct x; cbn; rewrite ?IH; try done. by case_decide. Qed.

Lemma events_of_del key ns k xs : ns ≠ "event" → events_of key (del_rec (ns, k) xs) = events_of key xs.
Proof.
  intros Hn. induction xs as [|y xs IH]; [done|]. cbn [del_rec]. case_decide as E.
  - apply (f_equal fst) in E. cbn in E. destruct y; cbn in *; congruence.
  - destruct y; cbn; rewrite ?IH; done.
Qed.

(** ** Loading all rows *)

Lemma dget_rows_cons k x xs : dget k (rows (x :: xs)) = if decide (k = rid x) then Some (payload (dict_of x)) else dget k (rows xs).
Proof. done. Qed.

Lemma dget_rows_None k xs : k ∉ rid <$> xs → dget k (rows xs) = None.
Proof. intros Hk. apply dget_None. by rewrite dkeys_rows. Qed.

Lemma restore_all_durable xs m ns key :
  Forall record_ok xs → NoDup (rid <$> xs) → refs_ok m → row_table ns →
  payload <$> durable (foldl restore m xs) ns key =
  match dget (ns, key) (rows xs) with Some t => Some t | None => payload <$> durable m ns key end.
Proof.
  intros Hx. revert m. induction Hx as [|x xs Hx _ IH]; intros m ND Hm Hns; [done|].
  rewrite fmap_cons in ND. apply NoDup_cons in ND as [Hn ND].
  destruct (restore_durable m x Hx Hm) as [Hm' Hc]. cbn [foldl]. rewrite (IH _ ND Hm' Hns), dget_rows_cons.
  rewrite (Hc ns key Hns). destruct (decide ((ns, key) = rid x)) as [E|E].
  - rewrite E, (dget_rows_None _ _ Hn), decide_True by (by injection E). done.
  - destruct (dget (ns, key) (rows xs)); [done|]. rewrite decide_False; [done|]. intros [-> ->]. by apply E.
Qed.

Lemma restore_all_log xs m key :
  session_events key (foldl restore m xs) = session_events key m ++ (canon_event <$> events_of key xs).
Proof.
  revert m. induction xs as [|x xs IH]; intros m; cbn [foldl events_of]; [by rewrite app_nil_r|].
  rewrite IH. destruct x; try done. cbn [restore].
  rewrite session_events_append. change (event_session_key (canon_event r)) with (event_session_key r).
  case_decide; cbn; by rewrite <-?app_assoc, ?app_nil_r.
Qed.

(** The token a list of records leaves for a key. *)
Definition token_record (k : SessionKey) (x : record) : option Z :=
  match x with
  | RLease k' l | RToken k' l => if decide (k' = k) then Some (l_token l) else None
  | _ => None
  end.

Lemma restore_token m x k : dget k (st_lease_tokens (restore m x)) =
  match token_record k x with Some t => Some t | None => dget k (st_lease_tokens m) end.
Proof. destruct x; try done; cbn; rewrite dget_dset; repeat case_decide; congruence. Qed.

Lemma restore_all_token xs m k t :
  (∀ x t', x ∈ xs → token_record k x = Some t' → t' = t) →
  dget k (st_lease_tokens (foldl restore m xs)) =
  if decide (Exists (λ x, is_Some (token_record k x)) xs) then Some t else dget k (st_lease_tokens m).
Proof.
  revert m. induction xs as [|x xs IH]; intros m Ht; cbn [foldl].
  { rewrite decide_False; [done|]. by intros ?%Exists_nil. }
  rewrite IH by (intros y t' Hy; apply Ht; by right). rewrite restore_token.
  destruct (token_record k x) as [t'|] eqn:E.
  - assert (t' = t) as -> by (apply (Ht x); [by left|done]). case_decide; [by rewrite decide_True by (by right)|].
    rewrite decide_True; [done|]. left. by rewrite E.
  - assert (H' : Exists (λ x, is_Some (token_record k x)) xs ↔ Exists (λ x, is_Some (token_record k x)) (x :: xs)).
    { rewrite Exists_cons, E. split; [by right|]. intros [[? [=]]|?]; done. }
    destruct (decide (Exists _ xs)) as [D|D]; [rewrite decide_True by (by apply H')|rewrite decide_False by (by rewrite <-H')]; done.
Qed.

(** ** Stores whose rows mirror the memory *)

Record mirrors (xs : list record) (m : MemoryStore) : Prop := mkMirrors {
  mi_ok : Forall record_ok xs;
  mi_ids : NoDup (rid <$> xs);
  mi_rows : ∀ ns key, row_table ns → dget (ns, key) (rows xs) = payload <$> durable m ns key;
  mi_events : ∀ key, session_events key m = events_of key xs;
  mi_tokens : ∀ k t, dget k (st_lease_tokens m) = Some t ↔ ∃ l, RToken k l ∈ xs ∧ l_token l = t;
  mi_leases : ∀ k l, RLease k l ∈ xs → dget k (st_lease_tokens m) = Some (l_token l);
  mi_objects : objects_inv m;
  mi_prompts : interactions_inv m;
}.

Lemma objects_refs m : objects_inv m → refs_ok m.
Proof. intros (_ & H1 & _ & H2 & _ & H3). split_and!; intros k l Hk; [apply H1 in Hk|apply H2 in Hk|apply H3 in Hk]; naive_solver eauto using lookup_lt_Some. Qed.

(** A memory with the same events and lease tokens. *)
Definition same_logs (m m' : MemoryStore) : Prop :=
  st_events_by_session m' = st_events_by_session m ∧ st_lease_tokens m' = st_lease_tokens m.

Definition is_lease (x : record) : bool := match x with RLease _ _ | RToken _ _ => true | _ => false end.

Lemma rid_lease x k l : rid x = rid (RLease k l) → is_lease x = true.
Proof. intros E. apply (f_equal fst) in E. destruct x; cbn in *; congruence. Qed.
Lemma rid_token x k l : rid x = rid (RToken k l) → is_lease x = true.
Proof. intros E. apply (f_equal fst) in E. destruct x; cbn in *; congruence. Qed.

(** One record written. *)
Lemma mirrors_put xs m m' x :
  mirrors xs m → record_ok x → row_table (ns_of x) → is_lease x = false →
  changed_at m m' (ns_of x) (key_of x) (Some (payload (dict_of x))) → same_logs m m' →
  objects_inv m' → interactions_inv m' → mirrors (put_rec x xs) m'.
Proof.
  intros [A B C D E F _ _] Hx Ht Hl Hc [L1 L2] O P.
  assert (Elem : ∀ y, is_lease y = true → y ∈ put_rec x xs ↔ y ∈ xs).
  { intros y Hy. rewrite put_rec_elem by done. split; [|intros Hin; right; split; [done|]].
    - intros [->|[? _]]; congruence.
    - intros Er. destruct y; try done; symmetry in Er; [apply rid_lease in Er|apply rid_token in Er]; congruence. }
  split.
  - apply Forall_forall. intros y Hy. apply put_rec_elem in Hy as [->|[Hy _]]; [done| |done]. rewrite Forall_forall in A. auto.
  - by apply put_rec_NoDup.
  - intros ns key Hns. rewrite (Hc ns key Hns), <-dset_rows, dget_dset. unfold rid.
    repeat case_decide; naive_solver.
  - intros key. rewrite events_of_put by apply Ht. rewrite <-D. unfold session_events. by rewrite L1.
  - intros k t. rewrite L2, E. by setoid_rewrite Elem.
  - intros k l. rewrite L2, Elem by done. apply F.
  - done.
  - done.
Qed.

(** One record deleted. *)
Lemma mirrors_del xs m m' ns key :
  mirrors xs m → row_table ns → ns ≠ "lease" → changed_at m m' ns key None → same_logs m m' →
  objects_inv m' → interactions_inv m' → mirrors (del_rec (ns, key) xs) m'.
Proof.
  intros [A B C D E F _ _] Ht Hl Hc [L1 L2] O P.
  assert (Elem : ∀ y, is_lease y = true → y ∈ del_rec (ns, key) xs ↔ y ∈ xs).
  { intros y Hy. rewrite del_rec_elem. split; [naive_solver|]. intros Hin. split; [done|]. intros Er.
    apply (f_equal fst) in Er. destruct Ht. destruct y; cbn in *; congruence. }
  split.
  - apply Forall_forall. intros y Hy. apply del_rec_elem in Hy as [Hy _]. rewrite Forall_forall in A. auto.
  - by apply del_rec_NoDup.
  - intros ns' key' Hns. rewrite (Hc ns' key' Hns), <-ddel_rows, dget_ddel.
    repeat case_decide; naive_solver.
  - intros k. rewrite events_of_del by apply Ht. rewrite <-D. unfold session_events. by rewrite L1.
  - intros k t. rewrite L2, E. by setoid_rewrite Elem.
  - intros k l. rewrite L2, Elem by done. apply F.
  - done.
  - done.
Qed.

(** Nothing durable changed. *)
Lemma mirrors_same xs m m' :
  mirrors xs m → (∀ ns key, durable m' ns key = durable m ns key) → same_logs m m' →
  objects_inv m' → interactions_inv m' → mirrors xs m'.
Proof.
  intros [A B C D E F _ _] Hd [L1 L2] O P. split; try done.
  - intros ns key Hns. rewrite Hd. auto.
  - intros k. rewrite <-D. unfold session_events. by rewrite L1.
  - intros k t. by rewrite L2.
  - intros k l. rewrite L2. apply F.
Qed.

(** ** Operations *)

(** A store between operations: no statement fails, no transaction is open, the rows mirror the memory. *)
Definition sq_ok (s : SQLiteStore) : Prop :=
  sq_faults s = [] ∧ sq_txn_depth s = 0%nat ∧ sq_begun s = None ∧
  ∃ xs, db_records (sq_db s) = rows xs ∧ mirrors xs (sq_mem s).

(** The store after a memory operation and the statements that follow it. *)
Definition with_mem (m : MemoryStore) (s : SQLiteStore) : SQLiteStore := s <| sq_mem := m |>.
Definition with_records (f : dict (string * string) string → dict (string * string) string) (s : SQLiteStore) : SQLiteStore :=
  s <| sq_db := (sq_db s) <| db_records := f (db_records (sq_db s)) |> |>.

Lemma put_record_eq ns key d s : sq_faults s = [] →
  put_record ns key d s = (with_records (dset (ns, key) (payload d)) s, Ok tt).
Proof. intros E. unfold put_record, execute. by rewrite E. Qed.

Lemma delete_record_eq ns key s : sq_faults s = [] →
  delete_record ns key s = (with_records (ddel (ns, key)) s, Ok tt).
Proof. intros E. unfold delete_record, execute. by rewrite E. Qed.

Lemma sq_write s m' x xs :
  sq_ok s → db_records (sq_db s) = rows xs → mirrors (put_rec x xs) m' →
  sq_ok (with_records (dset (rid x) (payload (dict_of x))) (with_mem m' s)).
Proof.
  intros (F & D & B & _) E M. split_and!; [done..|]. exists (put_rec x xs). split; [|done].
  cbn. by rewrite E, dset_rows.
Qed.

Lemma sq_delete s m' k xs :
  sq_ok s → db_records (sq_db s) = rows xs → mirrors (del_rec k xs) m' →
  sq_ok (with_records (ddel k) (with_mem m' s)).
Proof.
  intros (F & D & B & _) E M. split_and!; [done..|]. exists (del_rec k xs). split; [|done].
  cbn. by rewrite E, ddel_rows.
Qed.

Lemma sq_same s m' xs : sq_ok s → db_records (sq_db s) = rows xs → mirrors xs m' → sq_ok (with_mem m' s).
Proof. intros (F & D & B & _) E M. split_and!; [done..|]. by exists xs. Qed.

(** The goal state as a write, a deletion or a change of the memory alone. *)
Ltac as_write x xs :=
  lazymatch goal with
  | Hs : sq_ok ?s, E : db_records (sq_db ?s) = rows xs |- sq_ok (with_records _ ?s1) =>
      refine (sq_write s (sq_mem s1) x xs Hs E _); cbn [sq_mem]
  end.
Ltac as_delete k xs :=
  lazymatch goal with
  | Hs : sq_ok ?s, E : db_records (sq_db ?s) = rows xs |- sq_ok (with_records _ ?s1) =>
      refine (sq_delete s (sq_mem s1) k xs Hs E _); cbn [sq_mem]
  end.

(** *** Harnesses and profiles *)

Lemma save_harness_ok now r s : sq_ok s → sq_ok (save_harness now r s).1.
Proof.
  intros Hs. pose proof Hs as (F & _ & _ & xs & E & M). unfold save_harness, catch, SessionStore.save_harness.
  steps. rewrite put_record_eq by done. cbn.
  as_write (RHarness (r <| h_updatedAtMs := now |>)) xs.
  apply (mirrors_put xs (sq_mem s)); try done; [|by destruct M..].
  apply changed_in; [same_tables|]. intros key. by apply (table_put harness_asdict).
Qed.

Lemma save_profile_ok clock r s : sq_ok s → sq_ok (save_profile clock r s).1.
Proof.
  intros Hs. pose proof Hs as (F & _ & _ & xs & E & M). unfold save_profile, catch, SessionStore.save_profile.
  steps. rewrite put_record_eq by done. cbn. set (created := match _ with Some _ => _ | None => _ end).
  as_write (RProfile (r <| p_createdAtMs := created |> <| p_updatedAtMs := clock |>)) xs.
  apply (mirrors_put xs (sq_mem s)); try done; [|by destruct M..].
  apply changed_in; [same_tables|]. intros key. by apply (table_put profile_asdict).
Qed.

Lemma table_del {T} (asdict : T → pydict) (d : dict string T) k key :
  payload <$> (asdict <$> dget key (ddel k d)) = if decide (key = k) then None else payload <$> (asdict <$> dget key d).
Proof. rewrite dget_ddel. by case_decide. Qed.

Lemma delete_harness_ok id s : sq_ok s → sq_ok (delete_harness id s).1.
Proof.
  intros Hs. pose proof Hs as (F & _ & _ & xs & E & M). unfold delete_harness, SessionStore.delete_harness.
  steps. rewrite delete_record_eq by done. cbn. as_delete ("harness", id) xs.
  apply (mirrors_del xs (sq_mem s)); try done; [|by destruct M..].
  apply changed_in; [same_tables|]. intros key. apply (table_del harness_asdict).
Qed.

(** *** Sessions, invocations, turns *)

Definition put_new_session (now : Z) (r : SessionRecord) : sqlite_m loc :=
  l ← mem (alloc_session r); put_session now l.
Definition put_new_invocation (clock : Z) (r : InvocationRecord) : sqlite_m loc :=
  l ← mem (alloc_invocation r); put_invocation clock l.
Definition put_new_turn (r : TurnRecord) : sqlite_m loc := l ← mem (alloc_turn r); put_turn l.

Lemma rollback_same {K V} `{EqDecision K} (k : K) (d : dict K V) : rollback_memory k (dget k d) d = d.
Proof. unfold rollback_memory. destruct (dget k d) eqn:E; [by apply dset_same|by apply ddel_not_in]. Qed.

Definition savable (r : SessionRecord) : Prop :=
  clean_key (session_key r) ∧ s_id r ≠ "" ∧ s_appName r ≠ "" ∧ s_userId r ≠ "".

Lemma alloc_session_mirrors xs m r : mirrors xs m → mirrors xs (m <| st_session_objs := st_session_objs m ++ [r] |>).
Proof.
  intros M. apply (mirrors_same xs m); try done; [|apply (objects_inv_alloc_session r), M|by destruct M].
  intros ns key. unfold durable. repeat case_bool_decide; try done. f_equal. unfold of_key. destruct (split_key key) as [k|]; [|done].
  unfold session_at. cbn. destruct (dget k (st_sessions m)) as [l|] eqn:El; [|done]. cbn.
  apply lookup_app_l. destruct (objects_refs m (mi_objects _ _ M)) as [R _]. eauto.
Qed.

Lemma put_new_session_ok now r s : savable r → sq_ok s → sq_ok (put_new_session now r s).1.
Proof.
  intros (Hc & N1 & N2 & N3) Hs. pose proof Hs as (F & _ & _ & xs & E & M).
  pose proof (alloc_session_mirrors xs _ r M) as M1. set (m1 := upd _ _) in M1.
  assert (Hl : st_session_objs m1 !! length (st_session_objs (sq_mem s)) = Some r) by (by apply list_lookup_middle).
  unfold put_new_session, put_session, catch. steps. fold m1. unfold load_session at 1. rewrite Hl. cbn.
  fold m1. rewrite put_session_eq, Hl.
  destruct (known_control_state (s_controlState r)) eqn:K; cbn.
  - unfold load_session. cbn. rewrite list_lookup_middle by done. cbn. rewrite put_record_eq by done. cbn.
    as_write (RSession (r <| s_updatedAtMs := now |>)) xs.
    pose proof (put_session_objects_inv now (length (st_session_objs (sq_mem s))) m1 (mi_objects _ _ M1)) as O.
    rewrite put_session_eq, Hl, K in O.
    apply (mirrors_put xs m1); try done; [| |by destruct M1].
    + split; [done|]. unfold valid_session_record. cbn. rewrite !bool_decide_false by done. done.
    + apply changed_in; [same_tables|]. intros key.
      apply (session_key_put session_asdict (λ k, session_at k m1) _ (session_key r) (r <| s_updatedAtMs := now |>)); [done| |done].
      intros k'. apply (deref_put (st_sessions m1) (st_session_objs m1) (session_key r) k'). apply (objects_refs m1), M1.
  - fold m1. rewrite rollback_same. exact (sq_same s m1 xs Hs E M1).
Qed.

Lemma alloc_turn_mirrors xs m r : mirrors xs m → mirrors xs (m <| st_turn_objs := st_turn_objs m ++ [r] |>).
Proof.
  intros M. apply (mirrors_same xs m); try done; [|apply (objects_inv_alloc_turn r), M|by destruct M].
  intros ns key. unfold durable. repeat case_bool_decide; try done. f_equal.
  unfold turn_at. cbn. destruct (dget key (st_turns m)) as [l|] eqn:El; [|done]. cbn.
  apply lookup_app_l. destruct (objects_refs m (mi_objects _ _ M)) as (_ & _ & R). eauto.
Qed.

Lemma alloc_invocation_mirrors xs m r : mirrors xs m → mirrors xs (m <| st_invocation_objs := st_invocation_objs m ++ [r] |>).
Proof.
  intros M. apply (mirrors_same xs m); try done; [|apply (objects_inv_alloc_invocation r), M|by destruct M].
  intros ns key. unfold durable. repeat case_bool_decide; try done. f_equal.
  unfold invocation_at. cbn. destruct (dget key (st_invocations m)) as [l|] eqn:El; [|done]. cbn.
  apply lookup_app_l. destruct (objects_refs m (mi_objects _ _ M)) as (_ & R & _). eauto.
Qed.

(** The row of an object whose reference is written. *)
Lemma object_set {T} (asdict : T → pydict) (d : dict string nat) (objs : list T) k l r key :
  objs !! l = Some r →
  payload <$> (asdict <$> (dget key (dset k l d) ≫= λ l, objs !! l)) =
  if decide (key = k) then Some (payload (asdict r)) else payload <$> (asdict <$> (dget key d ≫= λ l, objs !! l)).
Proof. intros Hl. rewrite dget_dset. case_decide; [|done]. cbn. by rewrite Hl. Qed.

Lemma put_new_turn_ok r s : sq_ok s → sq_ok (put_new_turn r s).1.
Proof.
  intros Hs. pose proof Hs as (F & _ & _ & xs & E & M). unfold put_new_turn, alloc_turn. steps.
  pose proof (alloc_turn_mirrors xs _ r M) as M1. set (l := length (st_turn_objs (sq_mem s))).
  set (m1 := (sq_mem s) <| st_turn_objs := _ |>) in *.
  assert (Hl : st_turn_objs m1 !! l = Some r) by (by apply list_lookup_middle). clearbody m1 l.
  unfold put_turn, SessionStore.put_turn, load_turn, catch. steps. rewrite Hl. cbn. rewrite Hl. cbn.
  rewrite put_record_eq by done. cbn. as_write (RTurn r) xs.
  pose proof (put_turn_objects_inv l m1 (mi_objects _ _ M1)) as O. revert O.
  unfold SessionStore.put_turn, load_turn. steps. rewrite Hl. cbn. intros O.
  apply (mirrors_put xs m1); try done; [|by destruct M1].
  apply changed_in; [same_tables|]. intros key. by apply (object_set turn_asdict).
Qed.

(** *** Several records written *)

Definition put_recs (ys xs : list record) : list record := foldl (λ xs y, put_rec y xs) xs ys.
Definition write_rows (ys : list record) (d : dict (string * string) string) : dict (string * string) string :=
  foldl (λ d y, dset (rid y) (payload (dict_of y)) d) d ys.

Lemma write_rows_eq ys xs : write_rows ys (rows xs) = rows (put_recs ys xs).
Proof. unfold write_rows, put_recs. revert xs. induction ys as [|y ys IH]; intros xs; [done|]. cbn [foldl]. by rewrite dset_rows, IH. Qed.

Lemma dget_write_rows k ys d :
  (k ∉ rid <$> ys → dget k (write_rows ys d) = dget k d) ∧
  (k ∈ rid <$> ys → ∃ y, y ∈ ys ∧ rid y = k ∧ dget k (write_rows ys d) = Some (payload (dict_of y))).
Proof.
  revert d. induction ys as [|y ys IH]; intros d; [split; [done|by intros ?%elem_of_nil]|]. rewrite fmap_cons.
  destruct (IH (dset (rid y) (payload (dict_of y)) d)) as [IH1 IH2].
  change (write_rows (y :: ys) d) with (write_rows ys (dset (rid y) (payload (dict_of y)) d)). split.
  - intros [Hk Hn]%not_elem_of_cons. rewrite IH1 by done. by apply dget_dset_ne.
  - intros Hk. destruct (decide (k ∈ rid <$> ys)) as [Hin|Hout].
    + destruct (IH2 Hin) as (z & ? & ? & ?). exists z. split; [by right|done].
    + apply elem_of_cons in Hk as [->|?]; [|done]. exists y. split_and!; [by left|done|]. rewrite IH1 by done. apply dget_dset_eq.
Qed.

Definition plain_record (x : record) : Prop := record_ok x ∧ row_table (ns_of x) ∧ is_lease x = false.

Lemma put_recs_spec ys xs :
  Forall plain_record ys → Forall record_ok xs → NoDup (rid <$> xs) →
  Forall record_ok (put_recs ys xs) ∧ NoDup (rid <$> put_recs ys xs) ∧
  (∀ key, events_of key (put_recs ys xs) = events_of key xs) ∧
  (∀ x, is_lease x = true → x ∈ put_recs ys xs ↔ x ∈ xs).
Proof.
  intros Hy. revert xs. induction Hy as [|y ys (Y1 & Y2 & Y3) _ IH]; intros xs Hx ND; [done|].
  change (put_recs (y :: ys) xs) with (put_recs ys (put_rec y xs)).
  destruct (IH (put_rec y xs)) as (A & B & C & D).
  - apply Forall_forall. intros z Hz. apply put_rec_elem in Hz as [->|[Hz _]]; [done| |done]. rewrite Forall_forall in Hx. auto.
  - by apply put_rec_NoDup.
  - split_and!; [done|done| |].
    + intros key. rewrite C. apply events_of_put, Y2.
    + intros x Hl. rewrite D by done. rewrite put_rec_elem by done.
      split; [intros [->|[? _]]; congruence|]. intros Hin. right. split; [done|]. intros Er.
      destruct x; try done; symmetry in Er; [apply rid_lease in Er|apply rid_token in Er]; congruence.
Qed.

Lemma mirrors_puts xs m m' ys :
  mirrors xs m → Forall plain_record ys →
  (∀ y, y ∈ ys → payload <$> durable m' (ns_of y) (key_of y) = Some (payload (dict_of y))) →
  (∀ ns key, row_table ns → (ns, key) ∉ rid <$> ys → payload <$> durable m' ns key = payload <$> durable m ns key) →
  same_logs m m' → objects_inv m' → interactions_inv m' → mirrors (put_recs ys xs) m'.
Proof.
  intros [A B C D E F _ _] Hy Hin Hout [L1 L2] O P.
  destruct (put_recs_spec ys xs Hy A B) as (A' & B' & Ev & El). split; try done.
  - intros ns key Hns. rewrite <-write_rows_eq. destruct (dget_write_rows (ns, key) ys (rows xs)) as [W1 W2].
    destruct (decide ((ns, key) ∈ rid <$> ys)) as [Hk|Hk].
    + destruct (W2 Hk) as (y & Hy' & Er & ->). symmetry. injection Er as <- <-. by apply Hin.
    + rewrite W1, C, Hout by done. done.
  - intros k. rewrite Ev, <-D. unfold session_events. by rewrite L1.
  - intros k t. rewrite L2, E. by setoid_rewrite El.
  - intros k l. rewrite L2, El by done. apply F.
Qed.

Lemma sq_writes s ys xs s' :
  sq_ok s → db_records (sq_db s) = rows xs → sq_faults s' = [] → sq_txn_depth s' = 0%nat → sq_begun s' = None →
  db_records (sq_db s') = write_rows ys (db_records (sq_db s)) → mirrors (put_recs ys xs) (sq_mem s') → sq_ok s'.
Proof. intros Hs E F D B Er M. split_and!; [done..|]. exists (put_recs ys xs). by rewrite Er, E, write_rows_eq. Qed.

Lemma for_each_writes {A} (f : A → sqlite_m unit) (g : A → record) l s :
  (∀ a s, sq_faults s = [] → f a s = (with_records (dset (rid (g a)) (payload (dict_of (g a)))) s, Ok tt)) →
  sq_faults s = [] → for_each f l s = (with_records (write_rows (g <$> l)) s, Ok tt).
Proof.
  intros Hf. revert s. induction l as [|a l IH]; intros s Hs; cbn [for_each].
  - by destruct s as [? [] ? ? ?].
  - unfold mbind, M_bind. rewrite Hf by done. rewrite IH by done. done.
Qed.

Lemma write_approval_eq a s : sq_faults s = [] →
  write_approval a s = (with_records (dset (rid (RApproval a)) (payload (dict_of (RApproval a)))) s, Ok tt).
Proof. apply put_record_eq. Qed.
Lemma write_input_eq q s : sq_faults s = [] →
  write_input q s = (with_records (dset (rid (RInput q)) (payload (dict_of (RInput q)))) s, Ok tt).
Proof. apply put_record_eq. Qed.

(** *** Approvals and input requests *)

Definition approval_written (m m' : MemoryStore) (r : ApprovalRecord) : Prop :=
  m' = m <| st_approvals := st_approvals m' |> ∧
  ∀ key, dget key (st_approvals m') = if decide (key = a_id r) then Some r else dget key (st_approvals m).
Definition input_written (m m' : MemoryStore) (r : InputRequestRecord) : Prop :=
  m' = m <| st_input_requests := st_input_requests m' |> ∧
  ∀ key, dget key (st_input_requests m') = if decide (key = q_id r) then Some r else dget key (st_input_requests m).

Lemma approval_here m k r : interactions_inv m → dget k (st_approvals m) = Some r → approval_written m m r.
Proof.
  intros (_ & Hid & _) Hk. split; [by destruct m|]. intros key. case_decide as D; [|done]. subst.
  by rewrite (Hid _ _ Hk).
Qed.
Lemma input_here m k r : interactions_inv m → dget k (st_input_requests m) = Some r → input_written m m r.
Proof.
  intros (_ & _ & _ & Hid) Hk. split; [by destruct m|]. intros key. case_decide as D; [|done]. subst.
  by rewrite (Hid _ _ Hk).
Qed.

Lemma approval_mirrors xs m m' r :
  mirrors xs m → approval_written m m' r → interactions_inv m' → mirrors (put_rec (RApproval r) xs) m'.
Proof.
  intros M [E Hd] P. apply (mirrors_put xs m); try done; rewrite E; try done; [|by destruct M].
  apply changed_in; [same_tables|]. intros key.
  change (payload <$> (approval_asdict <$> dget key (st_approvals m')) =
    if decide (key = a_id r) then Some (payload (approval_asdict r)) else payload <$> (approval_asdict <$> dget key (st_approvals m))).
  rewrite Hd. by case_decide.
Qed.

Lemma input_mirrors xs m m' r :
  mirrors xs m → input_written m m' r → interactions_inv m' → mirrors (put_rec (RInput r) xs) m'.
Proof.
  intros M [E Hd] P. apply (mirrors_put xs m); try done; rewrite E; try done; [|by destruct M].
  apply changed_in; [same_tables|]. intros key.
  change (payload <$> (input_asdict <$> dget key (st_input_requests m')) =
    if decide (key = q_id r) then Some (payload (input_asdict r)) else payload <$> (input_asdict <$> dget key (st_input_requests m))).
  rewrite Hd. by case_decide.
Qed.

(** A base operation that writes one approval, or raises and changes nothing, followed by the row. *)
Lemma approval_op_ok (op : store_m ApprovalRecord) s :
  (∀ m, interactions_inv m → interactions_inv (op m).1 ∧
     match op m with (m', Ok r) => approval_written m m' r | (m', Raise _) => m' = m end) →
  sq_ok s → sq_ok ((record ← mem op; _ ← write_approval record; mret record) s).1.
Proof.
  intros Hop Hs. pose proof Hs as (F & _ & _ & xs & E & M). steps.
  destruct (Hop (sq_mem s) (mi_prompts _ _ M)) as [P W]. destruct (op (sq_mem s)) as [m' [r|e]]; cbn in *.
  - rewrite write_approval_eq by done. cbn. as_write (RApproval r) xs. by apply (approval_mirrors xs (sq_mem s)).
  - subst. exact (sq_same s (sq_mem s) xs Hs E M).
Qed.

Lemma input_op_ok (op : store_m InputRequestRecord) s :
  (∀ m, interactions_inv m → interactions_inv (op m).1 ∧
     match op m with (m', Ok r) => input_written m m' r | (m', Raise _) => m' = m end) →
  sq_ok s → sq_ok ((record ← mem op; _ ← write_input record; mret record) s).1.
Proof.
  intros Hop Hs. pose proof Hs as (F & _ & _ & xs & E & M). steps.
  destruct (Hop (sq_mem s) (mi_prompts _ _ M)) as [P W]. destruct (op (sq_mem s)) as [m' [r|e]]; cbn in *.
  - rewrite write_input_eq by done. cbn. as_write (RInput r) xs. by apply (input_mirrors xs (sq_mem s)).
  - subst. exact (sq_same s (sq_mem s) xs Hs E M).
Qed.

Lemma put_approval_ok r s : sq_ok s → sq_ok (put_approval r s).1.
Proof.
  apply approval_op_ok. intros m Hm. split; [by apply put_approval_inv|]. unfold Interactions.put_approval.
  destruct (dget (a_id r) (st_approvals m)) as [x|] eqn:Ex; [destruct (a_nativeRequestId x)|]; cbn;
    repeat case_if; try done; try (by apply (approval_here m (a_id r))); split; try done; intros key; apply dget_dset.
Qed.

Lemma resolve_approval_ok `{PyRepr} now id d s : sq_ok s → sq_ok (resolve_approval now id d s).1.
Proof.
  apply approval_op_ok. intros m Hm. split; [by apply resolve_approval_inv|]. unfold Interactions.resolve_approval, get_approval.
  destruct (dget id (st_approvals m)) as [x|] eqn:Ex; [|done]. pose proof Hm as (_ & Hid & _). specialize (Hid _ _ Ex).
  repeat case_if; try done; [by apply (approval_here m (a_id x))|]. split; [done|]. intros key. cbn. apply dget_dset.
Qed.

Lemma put_input_request_ok r s : sq_ok s → sq_ok (put_input_request r s).1.
Proof.
  apply input_op_ok. intros m Hm. split; [by apply put_input_request_inv|]. unfold Interactions.put_input_request.
  destruct (dget (q_id r) (st_input_requests m)) as [x|] eqn:Ex; repeat case_if; try done;
    [by apply (input_here m (q_id r))|]. split; [done|]. intros key. apply dget_dset.
Qed.

Lemma resolve_input_request_ok now id d s : sq_ok s → sq_ok (resolve_input_request now id d s).1.
Proof.
  apply input_op_ok. intros m Hm. split; [by apply resolve_input_request_inv|]. unfold Interactions.resolve_input_request, get_input_request.
  destruct (dget id (st_input_requests m)) as [x|] eqn:Ex; [|done]. pose proof Hm as (_ & _ & _ & Hid). specialize (Hid _ _ Ex).
  repeat case_if; try done; [by apply (input_here m (q_id x))|]. split; [done|]. intros key. cbn. apply dget_dset.
Qed.

(** *** Closing the prompts of an invocation *)

Lemma approval_row m k : payload <$> durable m "approval" k = payload <$> (approval_asdict <$> dget k (st_approvals m)).
Proof. done. Qed.
Lemma input_row m k : payload <$> durable m "input_request" k = payload <$> (input_asdict <$> dget k (st_input_requests m)).
Proof. done. Qed.

Section closing.
Context (m : MemoryStore) (inv : string) (at_ms : Z).
Notation m' := (Interactions.close_pending_interactions inv at_ms m).1.

Lemma close_approval_get k :
  dget k (st_approvals m') = (λ a, if approval_open inv a then close_approval at_ms a else a) <$> dget k (st_approvals m).
Proof. unfold Interactions.close_pending_interactions. cbn. rewrite dget_dupdate. by destruct (dget k (st_approvals m)). Qed.
Lemma close_input_get k :
  dget k (st_input_requests m') = (λ a, if input_open inv a then close_input at_ms a else a) <$> dget k (st_input_requests m).
Proof. unfold Interactions.close_pending_interactions. cbn. rewrite dget_dupdate. by destruct (dget k (st_input_requests m)). Qed.

(** Only approvals and input requests of the invocation change. *)
Lemma close_durable ns k (ys : list record) :
  (∀ a, dget k (st_approvals m) = Some a → approval_open inv a = true → (ns, k) ∉ rid <$> ys → ns ≠ "approval") →
  (∀ q, dget k (st_input_requests m) = Some q → input_open inv q = true → (ns, k) ∉ rid <$> ys → ns ≠ "input_request") →
  (ns, k) ∉ rid <$> ys → durable m' ns k = durable m ns k.
Proof.
  intros Ha Hq Hn. destruct (decide (ns = "approval")) as [->|Na]; [|destruct (decide (ns = "input_request")) as [->|Nq]].
  - change (approval_asdict <$> dget k (st_approvals m') = approval_asdict <$> dget k (st_approvals m)).
    rewrite close_approval_get. destruct (dget k (st_approvals m)) as [a|] eqn:Ea; [|done]. cbn.
    destruct (approval_open inv a) eqn:Eo; [|done]. by destruct (Ha a eq_refl Eo Hn).
  - change (input_asdict <$> dget k (st_input_requests m') = input_asdict <$> dget k (st_input_requests m)).
    rewrite close_input_get. destruct (dget k (st_input_requests m)) as [a|] eqn:Ea; [|done]. cbn.
    destruct (input_open inv a) eqn:Eo; [|done]. by destruct (Hq a eq_refl Eo Hn).
  - unfold durable. rewrite !(bool_decide_false _ Na), !(bool_decide_false _ Nq). done.
Qed.
End closing.

Lemma close_pending_interactions_ok inv at_ms s : sq_ok s → sq_ok (close_pending_interactions inv at_ms s).1.
Proof.
  intros Hs. pose proof Hs as (F & D & B & xs & E & M). pose proof (mi_prompts _ _ M) as (W1 & I1 & W2 & I2).
  unfold close_pending_interactions. steps. set (m := sq_mem s) in *.
  set (ca := close_approval at_ms <$> _). set (cq := close_input at_ms <$> _).
  rewrite (for_each_writes _ RApproval) by (done || apply write_approval_eq). cbn.
  rewrite (for_each_writes _ RInput) by (done || apply write_input_eq). cbn.
  eapply (sq_writes s ((RApproval <$> ca) ++ (RInput <$> cq)) xs); try done.
  { cbn. unfold write_rows. by rewrite foldl_app. }
  cbn. change (mirrors (put_recs ((RApproval <$> ca) ++ (RInput <$> cq)) xs) (Interactions.close_pending_interactions inv at_ms m).1).
  assert (Ca : ∀ a, a ∈ ca ↔ ∃ a0, a = close_approval at_ms a0 ∧ approval_open inv a0 = true ∧ dget (a_id a0) (st_approvals m) = Some a0).
  { intros a. subst ca. rewrite list_elem_of_fmap. setoid_rewrite elem_of_keep. setoid_rewrite (elem_dvalues_dget _ _ W1).
    split; [intros (a0 & -> & Ho & k & Hk)|naive_solver]. exists a0. split_and!; try done. by rewrite (I1 _ _ Hk). }
  assert (Cq : ∀ q, q ∈ cq ↔ ∃ q0, q = close_input at_ms q0 ∧ input_open inv q0 = true ∧ dget (q_id q0) (st_input_requests m) = Some q0).
  { intros q. subst cq. rewrite list_elem_of_fmap. setoid_rewrite elem_of_keep. setoid_rewrite (elem_dvalues_dget _ _ W2).
    split; [intros (q0 & -> & Ho & k & Hk)|naive_solver]. exists q0. split_and!; try done. by rewrite (I2 _ _ Hk). }
  apply (mirrors_puts xs m); [done|..|done|by destruct M|by apply close_pending_inv, M].
  - apply Forall_app. split; apply Forall_fmap, Forall_true; done.
  - intros y [(a & -> & Ha)%list_elem_of_fmap|(q & -> & Hq)%list_elem_of_fmap]%elem_of_app.
    + apply Ca in Ha as (a0 & -> & Ho & Hk). cbn [ns_of key_of dict_of]. rewrite approval_row, close_approval_get.
      change (a_id (close_approval at_ms a0)) with (a_id a0). rewrite Hk. cbn. by rewrite Ho.
    + apply Cq in Hq as (q0 & -> & Ho & Hk). cbn [ns_of key_of dict_of]. rewrite input_row, close_input_get.
      change (q_id (close_input at_ms q0)) with (q_id q0). rewrite Hk. cbn. by rewrite Ho.
  - intros ns k _ Hn. f_equal. eapply close_durable; [..|exact Hn].
    + intros a Ha Ho _ ->. apply Hn. rewrite fmap_app, elem_of_app. left. rewrite <-list_fmap_compose.
      apply list_elem_of_fmap. exists (close_approval at_ms a). split; [by rewrite <-(I1 _ _ Ha)|].
      apply Ca. exists a. by rewrite (I1 _ _ Ha).
    + intros q Hq Ho _ ->. apply Hn. rewrite fmap_app, elem_of_app. right. rewrite <-list_fmap_compose.
      apply list_elem_of_fmap. exists (close_input at_ms q). split; [by rewrite <-(I2 _ _ Hq)|].
      apply Cq. exists q. by rewrite (I2 _ _ Hq).
Qed.
(** *** Invocations: the record and, when it ended without an answer, its prompts *)

(** The prompts of an invocation as rows. *)
Definition prompt_records (id : string) (m : MemoryStore) : list record :=
  (RApproval <$> keep (λ a, bool_decide (a_invocationId a = id)) (dvalues (st_approvals m))) ++
  (RInput <$> keep (λ q, bool_decide (q_invocationId q = id)) (dvalues (st_input_requests m))).

Lemma write_prompts_eq id s : sq_faults s = [] →
  write_prompts id s = (with_records (write_rows (prompt_records id (sq_mem s))) s, Ok tt).
Proof.
  intros F. unfold write_prompts. steps.
  rewrite (for_each_writes _ RApproval) by (done || apply write_approval_eq). cbn.
  rewrite (for_each_writes _ RInput) by (done || apply write_input_eq).
  unfold prompt_records, write_rows, with_records. cbn. by rewrite foldl_app.
Qed.

Lemma prompt_records_plain id m : Forall plain_record (prompt_records id m).
Proof. apply Forall_app. split; apply Forall_fmap, Forall_true; done. Qed.

Lemma prompt_records_durable id m y : interactions_inv m → y ∈ prompt_records id m →
  payload <$> durable m (ns_of y) (key_of y) = Some (payload (dict_of y)).
Proof.
  intros (W1 & I1 & W2 & I2) [(a & -> & Ha)%list_elem_of_fmap|(q & -> & Hq)%list_elem_of_fmap]%elem_of_app.
  - apply elem_of_keep in Ha as [_ (k & Hk)%(elem_dvalues_dget _ _ W1)]. cbn. rewrite approval_row, (I1 _ _ Hk), Hk. done.
  - apply elem_of_keep in Hq as [_ (k & Hk)%(elem_dvalues_dget _ _ W2)]. cbn. rewrite input_row, (I2 _ _ Hk), Hk. done.
Qed.

Lemma prompt_records_approval id m k a : interactions_inv m → dget k (st_approvals m) = Some a → a_invocationId a = id →
  ("approval", k) ∈ rid <$> prompt_records id m.
Proof.
  intros (W1 & I1 & _) Hk Hi. apply list_elem_of_fmap. exists (RApproval a). split; [by rewrite <-(I1 _ _ Hk)|].
  apply elem_of_app. left. apply list_elem_of_fmap_2, elem_of_keep.
  rewrite (bool_decide_true _ Hi). split; [done|]. apply (elem_dvalues_dget _ _ W1). eauto.
Qed.

Lemma prompt_records_input id m k q : interactions_inv m → dget k (st_input_requests m) = Some q → q_invocationId q = id →
  ("input_request", k) ∈ rid <$> prompt_records id m.
Proof.
  intros (_ & _ & W2 & I2) Hk Hi. apply list_elem_of_fmap. exists (RInput q). split; [by rewrite <-(I2 _ _ Hk)|].
  apply elem_of_app. right. apply list_elem_of_fmap_2, elem_of_keep.
  rewrite (bool_decide_true _ Hi). split; [done|]. apply (elem_dvalues_dget _ _ W2). eauto.
Qed.

(** Closing the prompts of an invocation changes no other row. *)
Lemma close_outside m id at_ms ns k : interactions_inv m →
  (ns, k) ∉ rid <$> prompt_records id (Interactions.close_pending_interactions id at_ms m).1 →
  durable (Interactions.close_pending_interactions id at_ms m).1 ns k = durable m ns k.
Proof.
  intros P Hn. assert (P' := close_pending_inv id at_ms m P). eapply close_durable; [..|exact Hn].
  - intros a Ha Ho _ ->. apply Hn. eapply prompt_records_approval; [done|by rewrite close_approval_get, Ha; cbn; rewrite Ho|].
    unfold approval_open in Ho. bsimp. done.
  - intros q Hq Ho _ ->. apply Hn. eapply prompt_records_input; [done|by rewrite close_input_get, Hq; cbn; rewrite Ho|].
    unfold input_open in Ho. bsimp. done.
Qed.
(** The one status for which the base class closes prompts and the override does not write them. *)
Definition rows_follow (r : InvocationRecord) : Prop := i_status r ≠ "interrupted".

Lemma unanswered_persisted r : rows_follow r → unanswered_status (i_status r) = bool_decide (i_status r ∈ persisted_statuses).
Proof.
  intros Hr. unfold unanswered_status, rows_follow in *. apply bool_decide_ext. unfold UNANSWERED_STATUSES, persisted_statuses.
  rewrite !elem_of_cons, !elem_of_nil. naive_solver.
Qed.

Lemma put_new_invocation_ok clock r s : rows_follow r → sq_ok s → sq_ok (put_new_invocation clock r s).1.
Proof.
  intros Hr Hs. pose proof Hs as (F & D & B & xs & E & M). unfold put_new_invocation, alloc_invocation. steps.
  pose proof (alloc_invocation_mirrors xs _ r M) as M1. set (l := length (st_invocation_objs (sq_mem s))).
  set (m1 := (sq_mem s) <| st_invocation_objs := _ |>) in *.
  assert (Hl : st_invocation_objs m1 !! l = Some r) by (by apply list_lookup_middle). clearbody m1 l.
  pose proof (put_invocation_objects_inv clock l m1 (mi_objects _ _ M1)) as O.
  unfold put_invocation, load_invocation, catch, begin_txn, commit_txn, execute, if_active. steps. rewrite Hl. cbn. rewrite D. cbn. rewrite F. cbn. rewrite B. cbn.
  rewrite put_invocation_eq, Hl in *. cbn in O |- *. rewrite put_record_eq by done. cbn.
  rewrite (unanswered_persisted r Hr) in *.
  set (m2 := m1 <| st_invocations := _ |>) in *.
  assert (Ch : changed_at m1 m2 "invocation" (i_id r) (Some (payload (invocation_asdict r)))).
  { apply changed_in; [same_tables|]. intros key. by apply (object_set invocation_asdict). }
  destruct (bool_decide (i_status r ∈ persisted_statuses)) eqn:Ep; cbn in O |- *.
  - assert (P2 : interactions_inv m2) by (by destruct M1).
    set (at_ms := completed_or _ _) in *. set (m3 := (Interactions.close_pending_interactions (i_id r) at_ms m2).1) in *.
    pose proof (close_pending_inv (i_id r) at_ms m2 P2) as P3. fold m3 in P3.
    rewrite write_prompts_eq by done. cbn. rewrite F. cbn.
    eapply (sq_writes s (RInvocation r :: prompt_records (i_id r) m3) xs); try done.
    apply (mirrors_puts xs m1); try done.
    + constructor; [done|apply prompt_records_plain].
    + intros y [->|Hy]%elem_of_cons; [|by apply (prompt_records_durable (i_id r))].
      specialize (Ch "invocation" (i_id r)). rewrite decide_True in Ch by done. cbn. rewrite <-Ch by done. done.
    + intros ns k Hns Hn. rewrite fmap_cons, not_elem_of_cons in Hn. destruct Hn as [N1 N2].
      transitivity (payload <$> durable m2 ns k); [exact (f_equal (fmap payload) (close_outside m2 (i_id r) at_ms ns k P2 N2))|].
      rewrite (Ch ns k Hns), decide_False; [done|]. intros [-> ->]. by apply N1.
  - rewrite F. cbn. eapply (sq_writes s [RInvocation r] xs); try done.
    apply (mirrors_put xs m1); try done. by destruct M1.
Qed.
(** *** Delegated sessions *)

Lemma put_delegated_session_ok now r s : sq_ok s → sq_ok (put_delegated_session now r s).1.
Proof.
  intros Hs. pose proof Hs as (F & _ & _ & xs & E & M). unfold put_delegated_session, SessionStore.put_delegated_session.
  steps. rewrite put_record_eq by done. cbn. set (created := match _ with Some _ => _ | None => _ end).
  as_write (RDelegated (r <| ds_createdAtMs := created |> <| ds_updatedAtMs := now |>)) xs.
  apply (mirrors_put xs (sq_mem s)); try done; [|by destruct M..].
  apply changed_in; [same_tables|]. intros key. by apply (table_put delegated_asdict).
Qed.

(** *** Events *)

(** No event of the log has this id. *)
Definition fresh_event (m : MemoryStore) (e : CanonicalEventRecord) : Prop :=
  ∀ key e', e' ∈ session_events key m → e_eventId e' ≠ e_eventId e.

Lemma elem_events_of key xs e : e ∈ events_of key xs ↔ REvent e ∈ xs ∧ key = event_session_key e.
Proof.
  induction xs as [|x xs IH]; [set_solver|]. rewrite elem_of_cons.
  destruct x; cbn; rewrite ?IH; try naive_solver. case_decide; rewrite ?elem_of_cons, ?IH; split; [intros [->|?]|intros [[[= ->]|?] ?]| |intros [[[= ->]|?] ?]]; try done; tauto.
Qed.

Lemma rid_event x e : rid x = rid (REvent e) → ∃ e', x = REvent e' ∧ e_eventId e' = e_eventId e.
Proof. intros E. injection E as E1 E2. destruct x; cbn in *; try congruence. eauto. Qed.

Lemma fresh_event_row xs m e : mirrors xs m → fresh_event m e → rid (REvent e) ∉ rid <$> xs.
Proof.
  intros M Hf (x & (e' & -> & He)%eq_sym%rid_event & Hx)%list_elem_of_fmap.
  apply (Hf (event_session_key e') e'); [|done]. rewrite (mi_events _ _ M). by apply elem_events_of.
Qed.

Lemma append_mirrors xs m e : mirrors xs m → fresh_event m e → mirrors (put_rec (REvent e) xs) (append_event e m).1.
Proof.
  intros M Hf. pose proof (fresh_event_row _ _ _ M Hf) as Hx. rewrite put_rec_fresh by done.
  destruct M as [A B C D E F O P]. split; try done.
  - by apply Forall_app; repeat constructor.
  - rewrite fmap_app. apply NoDup_app. split_and!; [done| |apply NoDup_singleton].
    intros x H1 ->%list_elem_of_singleton. done.
  - intros ns key Hns. rewrite <-(put_rec_fresh _ _ Hx), <-dset_rows, dget_dset_ne by (intros [=]; subst; by destruct Hns). by apply C.
  - intros key. rewrite session_events_append, events_of_app, D. cbn. by case_decide.
  - intros k t. rewrite E. split; intros (l & Hl & <-); exists l; (split; [|done]); [by apply elem_of_app; left|].
    by apply elem_of_app in Hl as [?|[=]%list_elem_of_singleton].
  - intros k l [?|[=]%list_elem_of_singleton]%elem_of_app. by apply F.
Qed.

Lemma append_ok e s : fresh_event (sq_mem s) e → sq_ok s → sq_ok (append e s).1.
Proof.
  intros Hf Hs. pose proof Hs as (F & _ & _ & xs & E & M). unfold append, catch. steps.
  rewrite put_record_eq by done. cbn. as_write (REvent e) xs. by apply append_mirrors.
Qed.

(** *** Leases *)

Lemma split_key_join text k : split_key text = Ok k → text = join_key k.
Proof.
  unfold split_key. fold bar. intros E. destruct (split_on bar text) as [|a [|b [|c rest]]] eqn:S; simplify_eq.
  pose proof (join_split bar text) as J. rewrite S in J. by rewrite <-J.
Qed.

Lemma record_elem_ok xs m x : mirrors xs m → x ∈ xs → record_ok x.
Proof. intros M. pose proof (mi_ok _ _ M) as H1. rewrite Forall_forall in H1. apply H1. Qed.

Lemma rid_lease_eq k1 l1 k2 l2 : clean_key k1 → clean_key k2 → rid (RLease k1 l1) = rid (RLease k2 l2) → k1 = k2.
Proof. intros H1 H2 [=]. by apply join_key_inj. Qed.
Lemma rid_token_eq k1 l1 k2 l2 : clean_key k1 → clean_key k2 → rid (RToken k1 l1) = rid (RToken k2 l2) → k1 = k2.
Proof. intros H1 H2 [=]. by apply join_key_inj. Qed.

(** A lease row written, with the token its session has. *)
Lemma lease_mirrors xs m m' k l :
  mirrors xs m → clean_key k → m' = m <| st_leases := dset k l (st_leases m) |> →
  dget k (st_lease_tokens m) = Some (l_token l) → mirrors (put_rec (RLease k l) xs) m'.
Proof.
  intros M Hk -> Ht. pose proof M as [A B C D E F O P]. split; try done.
  - apply Forall_forall. intros y Hy. apply put_rec_elem in Hy as [->|[Hy _]]; [done| |done]. by apply (record_elem_ok xs m).
  - by apply put_rec_NoDup.
  - assert (Ch : changed_at m (m <| st_leases := dset k l (st_leases m) |>) "lease" (join_key k) (Some (payload (lease_asdict l)))).
    { apply changed_in; [same_tables|]. intros key.
      by apply (session_key_put lease_asdict (λ k, dget k (st_leases m)) _ k l); [|intros k'; apply dget_dset|]. }
    intros ns key Hns. rewrite (Ch ns key Hns), <-dset_rows, dget_dset. unfold rid. cbn [ns_of key_of dict_of].
    repeat case_decide; naive_solver.
  - intros key. rewrite events_of_put by done. apply D.
  - intros k' t. cbn. rewrite E. setoid_rewrite put_rec_elem; [|done]. naive_solver.
  - intros k' l'. rewrite put_rec_elem by done. intros [[= -> ->]|[Hin _]]; [done|]. by apply F.
Qed.

(** A lease granted: its row, then the row of its token. *)
Lemma grant_mirrors xs m k l :
  mirrors xs m → clean_key k →
  mirrors (put_rec (RToken k l) (put_rec (RLease k l) xs))
    (m <| st_lease_tokens := dset k (l_token l) (st_lease_tokens m) |> <| st_leases := dset k l (st_leases m) |>).
Proof.
  intros M Hk. set (xs1 := put_rec (RLease k l) xs). set (m' := upd _ _). pose proof M as [A B C D E F O P].
  assert (B1 : NoDup (rid <$> xs1)) by (by apply put_rec_NoDup).
  assert (Elem : ∀ x, x ∈ put_rec (RToken k l) xs1 ↔
    x = RToken k l ∨ x = RLease k l ∨ x ∈ xs ∧ rid x ≠ rid (RLease k l) ∧ rid x ≠ rid (RToken k l)).
  { intros x. rewrite put_rec_elem by done. unfold xs1. rewrite put_rec_elem by done. naive_solver. }
  split; try done.
  - apply Forall_forall. intros x [->|[->|(Hx & _)]]%Elem; [done..|]. by apply (record_elem_ok xs m).
  - by apply put_rec_NoDup.
  - assert (Ch : changed_at m m' "lease" (join_key k) (Some (payload (lease_asdict l)))).
    { apply changed_in; [same_tables|]. intros key.
      by apply (session_key_put lease_asdict (λ k, dget k (st_leases m)) _ k l); [|intros k'; apply dget_dset|]. }
    intros ns key Hns. rewrite (Ch ns key Hns), <-dset_rows, dget_dset_ne by (intros [=]; subst; by destruct Hns).
    unfold xs1. rewrite <-dset_rows, dget_dset. unfold rid. cbn [ns_of key_of dict_of]. repeat case_decide; naive_solver.
  - intros key. unfold xs1. rewrite !events_of_put by done. apply D.
  - intros k' t. cbn. rewrite dget_dset. setoid_rewrite Elem. case_decide as Dk.
    + subst. split; [naive_solver|]. intros (l' & [[= <-]|[[=]|(_ & _ & Hr)]] & <-); done.
    + rewrite E. split; [intros (l' & Hin & <-)|naive_solver]. exists l'. split; [|done]. right; right. split_and!; [done..|].
      intros Hr. apply Dk. eapply rid_token_eq; [..|exact Hr]; [|done]. apply (record_elem_ok xs m _ M Hin).
  - intros k' l'. cbn. intros [[=]|[[= -> ->]|(Hin & Hr & _)]]%Elem; [by rewrite dget_dset_eq|].
    rewrite dget_dset_ne; [by apply F|]. intros ->. by apply Hr.
Qed.
(** The lease in memory is the one its row carries, so it has the session's latest token. *)
Lemma mirrors_lease_inv xs m : mirrors xs m → ∀ k l, clean_key k → dget k (st_leases m) = Some l →
  dget k (st_lease_tokens m) = Some (l_token l).
Proof.
  intros M k l Hk Hl. pose proof (mi_rows _ _ M "lease" (join_key k)) as Hr.
  assert (Ed : durable m "lease" (join_key k) = Some (lease_asdict l)).
  { change (lease_asdict <$> of_key (λ k, dget k (st_leases m)) (join_key k) = Some (lease_asdict l)).
    unfold of_key. by rewrite split_join_key, Hl. }
  rewrite Ed in Hr. specialize (Hr ltac:(done)). cbn in Hr. apply dget_Some_elem, list_elem_of_fmap in Hr as (x & Ex & Hx).
  destruct x as [| | | | | | | | |k' l'| |]; try discriminate. injection Ex as Ek Ep. 
  pose proof (record_elem_ok _ _ _ M Hx) as Hk'. apply join_key_inj in Ek as <-; [|done..].
  rewrite (mi_leases _ _ M _ _ Hx). f_equal. apply payload_inj in Ep.
  pose proof (construct_lease_asdict l) as E1. rewrite Ep, construct_lease_asdict in E1. injection E1. congruence.
Qed.

(** A lease row deleted; its token stays. *)
Lemma release_mirrors xs m k :
  mirrors xs m → clean_key k →
  mirrors (del_rec ("lease", join_key k) xs) (m <| st_leases := ddel k (st_leases m) |>).
Proof.
  intros M Hk. set (m' := upd _ _). pose proof M as [A B C D E F O P]. split; try done.
  - apply Forall_forall. intros x [Hx _]%del_rec_elem. by apply (record_elem_ok xs m).
  - by apply del_rec_NoDup.
  - assert (Ch : changed_at m m' "lease" (join_key k) None).
    { apply changed_in; [same_tables|]. intros key.
      change (payload <$> (lease_asdict <$> of_key (λ k', dget k' (ddel k (st_leases m))) key) =
        if decide (key = join_key k) then None else payload <$> (lease_asdict <$> of_key (λ k', dget k' (st_leases m)) key)).
      unfold of_key. case_decide as Dk; [subst; by rewrite split_join_key, dget_ddel_eq|].
      destruct (split_key key) as [k'|] eqn:Ek; [|done]. apply split_key_join in Ek. by rewrite dget_ddel_ne by congruence. }
    intros ns key Hns. rewrite (Ch ns key Hns), <-ddel_rows, dget_ddel. repeat case_decide; naive_solver.
  - intros key. rewrite events_of_del by done. apply D.
  - intros k' t. cbn. rewrite E. setoid_rewrite del_rec_elem. naive_solver.
  - intros k' l' [Hin _]%del_rec_elem. by apply F.
Qed.

Lemma acquire_lease_ok now k h ttl s : clean_key k → sq_ok s → sq_ok (acquire_lease now k h ttl s).1.
Proof.
  intros Hk Hs. pose proof Hs as (F & D & B & xs & E & M). unfold acquire_lease. steps.
  destruct (Leases.acquire_lease now k h ttl (sq_mem s)) as [m' [l|e]] eqn:El; cbn.
  - apply acquire_lease_Ok in El as (El & -> & _). rewrite put_record_eq by done. cbn. rewrite put_record_eq by done. cbn.
    assert (Et : last_token k (sq_mem s) + 1 = l_token l) by (by rewrite El).
    split_and!; [done..|]. exists (put_rec (RToken k l) (put_rec (RLease k l) xs)). split; [cbn; by rewrite E, <-!dset_rows|].
    cbn [sq_mem]. rewrite Et. by apply grant_mirrors.
  - apply acquire_lease_Raise in El as [-> _]. by apply (sq_same s (sq_mem s) xs).
Qed.

Lemma renew_lease_ok now1 now2 k h t ttl s : clean_key k → sq_ok s → sq_ok (renew_lease now1 now2 k h t ttl s).1.
Proof.
  intros Hk Hs. pose proof Hs as (F & D & B & xs & E & M). unfold renew_lease, Leases.renew_lease, assert_lease, ensure. steps.
  destruct (lease_valid now1 k h t (sq_mem s)) eqn:Ev; cbn; [|by apply (sq_same s (sq_mem s) xs)].
  rewrite put_record_eq by done. cbn. as_write (RLease k (mkLease h (now2 + ttl) t)) xs.
  apply (lease_mirrors xs (sq_mem s)); try done. cbn. unfold lease_valid in Ev.
  destruct (dget k (st_leases (sq_mem s))) as [l|] eqn:El; [|done]. bsimp.
  rewrite (mirrors_lease_inv xs _ M k l Hk El). by f_equal.
Qed.

Lemma release_lease_ok k h t s : clean_key k → sq_ok s → sq_ok (release_lease k h t s).1.
Proof.
  intros Hk Hs. pose proof Hs as (F & D & B & xs & E & M). unfold release_lease, Leases.release_lease. steps.
  destruct (dget k (st_leases (sq_mem s))) as [l|] eqn:El; [|by cbn; rewrite ?El; apply (sq_same s (sq_mem s) xs)].
  destruct (_ && _); cbn; [|rewrite ?El; by apply (sq_same s (sq_mem s) xs)].
  rewrite dget_ddel_eq. cbn. rewrite delete_record_eq by done. cbn. as_delete ("lease", join_key k) xs. by apply release_mirrors.
Qed.

Lemma lock_mirrors xs m w l : mirrors xs m →
  mirrors (put_rec (RLock w l) xs) (m <| st_workspace_locks := dset w l (st_workspace_locks m) |>).
Proof.
  intros M. apply (mirrors_put xs m); try done; [|by destruct M..].
  apply changed_in; [same_tables|]. intros key. by apply (table_put lease_asdict).
Qed.

Lemma unlock_mirrors xs m w : mirrors xs m →
  mirrors (del_rec ("workspace_lock", w) xs) (m <| st_workspace_locks := ddel w (st_workspace_locks m) |>).
Proof.
  intros M. apply (mirrors_del xs m); try done; [|by destruct M..].
  apply changed_in; [same_tables|]. intros key. apply (table_del lease_asdict).
Qed.

Lemma acquire_workspace_lock_ok now w id access ttl s : sq_ok s → sq_ok (acquire_workspace_lock now w id access ttl s).1.
Proof.
  intros Hs. pose proof Hs as (F & D & B & xs & E & M). unfold acquire_workspace_lock, Leases.acquire_workspace_lock. steps.
  destruct (bool_decide (access = "ro")) eqn:Ea; cbn; [destruct (dget w _); by apply (sq_same s (sq_mem s) xs)|].
  destruct (dget w (st_workspace_locks (sq_mem s))) as [l|] eqn:El; [destruct (_ && _)|]; cbn;
    [rewrite ?El; by apply (sq_same s (sq_mem s) xs)| |];
    (rewrite dget_dset_eq, put_record_eq by done; cbn; as_write (RLock w (mkLease id (now + ttl) 0)) xs; by apply lock_mirrors).
Qed.

Lemma release_workspace_lock_ok w id s : sq_ok s → sq_ok (release_workspace_lock w id s).1.
Proof.
  intros Hs. pose proof Hs as (F & D & B & xs & E & M). unfold release_workspace_lock, Leases.release_workspace_lock, dmem. steps.
  destruct (dget w (st_workspace_locks (sq_mem s))) as [l|] eqn:El; [destruct (bool_decide _)|]; cbn.
  - rewrite dget_ddel_eq. cbn. rewrite delete_record_eq by done. cbn. as_delete ("workspace_lock", w) xs. by apply unlock_mirrors.
  - rewrite ?El. by apply (sq_same s (sq_mem s) xs).
  - rewrite ?El. cbn. rewrite delete_record_eq by done. cbn. as_delete ("workspace_lock", w) xs.
    pose proof (unlock_mirrors xs _ w M) as G. rewrite ddel_not_in in G by done. by destruct (sq_mem s).
Qed.
(** *** Several rows deleted *)

Definition del_recs (ids : list (string * string)) (xs : list record) : list record := foldl (λ xs k, del_rec k xs) xs ids.
Definition delete_rows (ids : list (string * string)) (d : dict (string * string) string) : dict (string * string) string :=
  foldl (λ d k, ddel k d) d ids.

Lemma delete_rows_eq ids xs : delete_rows ids (rows xs) = rows (del_recs ids xs).
Proof. unfold delete_rows, del_recs. revert xs. induction ids as [|k ids IH]; intros xs; [done|]. cbn [foldl]. by rewrite ddel_rows, IH. Qed.

Lemma del_recs_elem ids xs y : y ∈ del_recs ids xs ↔ y ∈ xs ∧ rid y ∉ ids.
Proof.
  unfold del_recs. revert xs. induction ids as [|k ids IH]; intros xs; cbn [foldl]; [set_solver|].
  rewrite IH, del_rec_elem, not_elem_of_cons. naive_solver.
Qed.

Lemma del_recs_NoDup ids xs : NoDup (rid <$> xs) → NoDup (rid <$> del_recs ids xs).
Proof. unfold del_recs. revert xs. induction ids as [|k ids IH]; intros xs ND; [done|]. by apply IH, del_rec_NoDup. Qed.

Lemma dget_delete_rows k ids d : dget k (delete_rows ids d) = if decide (k ∈ ids) then None else dget k d.
Proof.
  unfold delete_rows. revert d. induction ids as [|k' ids IH]; intros d; cbn [foldl]; [by rewrite decide_False by set_solver|].
  rewrite IH, dget_ddel. repeat case_decide; set_solver.
Qed.

(** Deleting rows keeps the events whose rows stay. *)
Lemma events_of_dels key ids xs :
  events_of key (del_recs ids xs) = keep (λ e, negb (bool_decide (rid (REvent e) ∈ ids))) (events_of key xs).
Proof.
  revert xs. induction ids as [|k ids IH]; intros xs.
  - cbn. induction (events_of key xs) as [|e es IH]; [done|]. cbn. by rewrite <-IH.
  - change (del_recs (k :: ids) xs) with (del_recs ids (del_rec k xs)). rewrite IH. clear IH.
    induction xs as [|x xs IH]; [done|]. cbn [del_rec]. case_decide as E.
    + rewrite IH. destruct x; try done. cbn [events_of]. case_decide; [|done]. cbn [keep].
      rewrite (bool_decide_true (_ ∈ k :: ids)) by (rewrite E; by left). done.
    + destruct x; try exact IH. cbn [events_of]. case_decide; [|exact IH]. cbn [keep].
      rewrite IH. rewrite (bool_decide_ext (rid (REvent r) ∈ k :: ids) (rid (REvent r) ∈ ids)); [done|].
      rewrite elem_of_cons. naive_solver.
Qed.

Lemma mirrors_dels xs m m' ids :
  mirrors xs m → (∀ ns key, (ns, key) ∈ ids → ns ≠ "lease" ∧ ns ≠ "lease_token") →
  (∀ ns key, row_table ns → payload <$> durable m' ns key = if decide ((ns, key) ∈ ids) then None else payload <$> durable m ns key) →
  (∀ key, session_events key m' = keep (λ e, negb (bool_decide (rid (REvent e) ∈ ids))) (session_events key m)) →
  st_lease_tokens m' = st_lease_tokens m → objects_inv m' → interactions_inv m' → mirrors (del_recs ids xs) m'.
Proof.
  intros M Hl Hd He Ht O P. pose proof M as [A B C D E F _ _].
  assert (Elem : ∀ y, is_lease y = true → y ∈ del_recs ids xs ↔ y ∈ xs).
  { intros y Hy. rewrite del_recs_elem. split; [naive_solver|]. intros Hin. split; [done|]. intros [? ?]%Hl. by destruct y. }
  split; try done.
  - apply Forall_forall. intros x [Hx _]%del_recs_elem. by apply (record_elem_ok xs m).
  - by apply del_recs_NoDup.
  - intros ns key Hns. rewrite <-delete_rows_eq, dget_delete_rows, Hd by done. case_decide; auto.
  - intros key. by rewrite He, events_of_dels, D.
  - intros k t. rewrite Ht, E. by setoid_rewrite Elem.
  - intros k l. rewrite Ht, Elem by done. apply F.
Qed.

Lemma for_each_deletes ns ks s : sq_faults s = [] →
  for_each (delete_record ns) ks s = (with_records (delete_rows (pair ns <$> ks)) s, Ok tt).
Proof.
  revert s. induction ks as [|k ks IH]; intros s Hs; cbn [for_each].
  - by destruct s as [? [] ? ? ?].
  - unfold mbind, M_bind. rewrite delete_record_eq by done. rewrite IH by done. done.
Qed.
Lemma NoDup_fmap_elem {A B} (f : A → B) (xs : list A) x y : NoDup (f <$> xs) → x ∈ xs → y ∈ xs → f x = f y → x = y.
Proof.
  induction xs as [|z xs IH]; [by intros _ ?%elem_of_nil|]. rewrite fmap_cons, NoDup_cons, !elem_of_cons.
  intros [Hz ND] [->|Hx] [->|Hy] E; [done| | |auto]; destruct Hz; [rewrite E|rewrite <-E]; by apply list_elem_of_fmap_2.
Qed.

(** *** Deleting a session *)

Section delete_session.
Context (m : MemoryStore) (key : SessionKey) (l : loc).
Hypothesis Hkey : dget key (st_sessions m) = Some l.
Hypothesis Hclean : clean_key key.
Notation m' := (SessionStore.delete_session key m).1.

Definition session_event_ids : list string := e_eventId <$> default [] (dget key (st_events_by_session m)).

(** The rows the deletion names. *)
Definition session_rows : list (string * string) :=
  ("session", join_key key) :: (pair "invocation" <$> owned_invocations key.2 m) ++ (pair "turn" <$> owned_turns key.2 m) ++
  (pair "approval" <$> owned_approvals key.2 m) ++ (pair "input_request" <$> owned_inputs key.2 m) ++
  (pair "event" <$> session_event_ids).

Lemma elem_pair (ns ns' k : string) (ks : list string) : (ns, k) ∈ pair ns' <$> ks ↔ ns = ns' ∧ k ∈ ks.
Proof. rewrite list_elem_of_fmap. split; [intros (? & [= -> ->] & ?); done|intros [-> ?]; eauto]. Qed.

Lemma elem_session_rows ns k : (ns, k) ∈ session_rows ↔
  (ns = "session" ∧ k = join_key key) ∨ (ns = "invocation" ∧ k ∈ owned_invocations key.2 m) ∨
  (ns = "turn" ∧ k ∈ owned_turns key.2 m) ∨ (ns = "approval" ∧ k ∈ owned_approvals key.2 m) ∨
  (ns = "input_request" ∧ k ∈ owned_inputs key.2 m) ∨ (ns = "event" ∧ k ∈ session_event_ids).
Proof. unfold session_rows. rewrite elem_of_cons, !elem_of_app, !elem_pair. naive_solver. Qed.

(** A row of a table from which the ids [ids] are deleted. *)
Lemma rows_deleted {A} (asdict : A → pydict) ns k (ids : list string) (o' o : option A) :
  ((ns, k) ∈ session_rows ↔ k ∈ ids) → o' = (if decide (k ∈ ids) then None else o) →
  payload <$> (asdict <$> o') = if decide ((ns, k) ∈ session_rows) then None else payload <$> (asdict <$> o).
Proof. intros Hi ->. repeat case_decide; naive_solver. Qed.

Lemma rows_stay {A} (asdict : A → pydict) ns k (o' o : option A) :
  (ns, k) ∉ session_rows → o' = o →
  payload <$> (asdict <$> o') = if decide ((ns, k) ∈ session_rows) then None else payload <$> (asdict <$> o).
Proof. intros Hn ->. by rewrite decide_False. Qed.

Lemma other_tables : st_harnesses m' = st_harnesses m ∧ st_profiles m' = st_profiles m ∧
  st_delegated_sessions m' = st_delegated_sessions m ∧ st_leases m' = st_leases m ∧
  st_workspace_locks m' = st_workspace_locks m ∧ st_lease_tokens m' = st_lease_tokens m.
Proof. unfold SessionStore.delete_session. rewrite Hkey. done. Qed.

Lemma of_key_deleted text :
  of_key (λ k, session_at k m') text = if decide (text ∈ [join_key key]) then None else of_key (λ k, session_at k m) text.
Proof.
  unfold of_key. case_decide as D; rewrite list_elem_of_singleton in D.
  - subst. rewrite split_join_key by done. by apply (delete_session_at m key l).
  - destruct (split_key text) as [k|] eqn:E; [|done]. apply split_key_join in E.
    apply (delete_session_other m key l); [done|congruence].
Qed.

Lemma session_rows_durable ns k : row_table ns →
  payload <$> durable m' ns k = if decide ((ns, k) ∈ session_rows) then None else payload <$> durable m ns k.
Proof.
  intros Hns. destruct other_tables as (E1 & E2 & E3 & E4 & E5 & _). pose proof (elem_session_rows ns k) as Hi.
  unfold durable. repeat case_bool_decide; subst.
  - apply rows_stay; [naive_solver|by rewrite E1].
  - apply rows_stay; [naive_solver|by rewrite E2].
  - apply (rows_deleted _ _ _ [join_key key]); [rewrite list_elem_of_singleton; naive_solver|apply of_key_deleted].
  - apply (rows_deleted _ _ _ (owned_invocations key.2 m)); [naive_solver|by apply (delete_session_invocation m key l)].
  - apply (rows_deleted _ _ _ (owned_turns key.2 m)); [naive_solver|by apply (delete_session_turn m key l)].
  - apply (rows_deleted _ _ _ (owned_approvals key.2 m)); [naive_solver|by apply (delete_session_approval m key l)].
  - apply (rows_deleted _ _ _ (owned_inputs key.2 m)); [naive_solver|by apply (delete_session_input m key l)].
  - apply rows_stay; [naive_solver|by rewrite E3].
  - apply rows_stay; [naive_solver|by rewrite E4].
  - apply rows_stay; [naive_solver|by rewrite E5].
  - by case_decide.
Qed.

(** Event ids are unique among the rows, so only the session's own events go. *)
Lemma session_rows_events xs k : mirrors xs m →
  session_events k m' = keep (λ e, negb (bool_decide (rid (REvent e) ∈ session_rows))) (session_events k m).
Proof.
  intros M. unfold session_events at 1. rewrite (delete_session_events m key l Hkey). symmetry.
  assert (Hin : ∀ e, rid (REvent e) ∈ session_rows ↔ e_eventId e ∈ session_event_ids).
  { intros e. change (("event", e_eventId e) ∈ session_rows ↔ e_eventId e ∈ session_event_ids).
    rewrite elem_session_rows. naive_solver. }
  case_decide as D; [subst; apply keep_none|apply keep_all]; intros e He.
  - rewrite bool_decide_true; [done|]. apply Hin, list_elem_of_fmap_2, He.
  - rewrite bool_decide_false; [done|]. rewrite Hin. intros (e' & Ee & He')%list_elem_of_fmap. 
    change (e' ∈ session_events key m) in He'. change (e ∈ session_events k m) in He. rewrite (mi_events _ _ M) in He, He'. apply elem_events_of in He as [Hx ->], He' as [Hx' Ek].
    apply D. rewrite Ek. f_equal.
    assert (REvent e = REvent e') as [= ->]; [|done].
    apply (NoDup_fmap_elem rid xs); [apply M|done..|]. unfold rid. cbn. by rewrite Ee.
Qed.
End delete_session.
Lemma delete_session_interactions key m : interactions_inv m → interactions_inv (SessionStore.delete_session key m).1.
Proof.
  intros (W1 & I1 & W2 & I2). unfold SessionStore.delete_session. destruct (dget key (st_sessions m)); [|done].
  split_and!; cbn; auto with haas; intros k r; rewrite dget_ddel_all; case_decide; try done; auto.
Qed.

Lemma delete_session_ok key s : clean_key key → is_Some (dget key (st_sessions (sq_mem s))) →
  sq_ok s → sq_ok (delete_session key s).1.
Proof.
  intros Hc [l Hl] Hs. pose proof Hs as (F & D & B & xs & E & M).
  unfold delete_session. steps. destruct (SessionStore.delete_session key (sq_mem s)) as [m' r] eqn:Ed.
  assert (r = Ok tt) as -> by (unfold SessionStore.delete_session in Ed; rewrite Hl in Ed; by injection Ed).
  rewrite delete_record_eq by done. cbn. repeat (rewrite for_each_deletes by done; cbn).
  split_and!; [done..|]. exists (del_recs (session_rows (sq_mem s) key) xs). split.
  { rewrite <-delete_rows_eq, <-E. unfold session_rows, delete_rows. cbn [foldl]. by rewrite !foldl_app. }
  cbn [sq_mem]. replace m' with (SessionStore.delete_session key (sq_mem s)).1 by (by rewrite Ed).
  apply (mirrors_dels xs (sq_mem s)); [done| | | | | |].
  - intros ns k. rewrite elem_session_rows. naive_solver.
  - intros ns k Hns. by apply (session_rows_durable (sq_mem s) key l).
  - intros k. by apply (session_rows_events (sq_mem s) key l Hl xs).
  - by apply (other_tables (sq_mem s) key l).
  - apply delete_session_objects_inv, M.
  - apply delete_session_interactions, M.
Qed.
End codec.
