(* ===== verification/SqliteRestart.v ===== *)
(** * Restarting from the durable store (haas/stores/sqlite.py)

    After any sequence of store operations, loading the database gives a memory that holds the same records,
    events and fencing tokens as the running one, up to the key order of JSON objects.  A reserved idempotency key
    answers after a restart as before, since every call reads its row. *)

From S2P Require Import Prelude Errors Dict PyVal Encoding Json JsonText Records RecordCodec Store Leases Idempotency Interactions.
From S2P Require Import SessionStore EventStore Sqlite SqliteInv.

#[local] Open Scope string_scope.
#[local] Open Scope list_scope.
#[local] Open Scope Z_scope.

Section codec.
Context `{CanonicalJson} `{PyRepr}.

(** ** Operations on the store *)

Inductive sq_op :=
  | QSaveHarness (now : Z) (r : HarnessRecord)
  | QDeleteHarness (id : string)
  | QSaveProfile (clock : Z) (r : ProfileRecord)
  | QPutSession (now : Z) (r : SessionRecord)
  | QDeleteSession (key : SessionKey)
  | QPutInvocation (clock : Z) (r : InvocationRecord)
  | QPutTurn (r : TurnRecord)
  | QAppend (e : CanonicalEventRecord)
  | QPutDelegated (now : Z) (r : DelegatedSessionRecord)
  | QPutApproval (r : ApprovalRecord)
  | QResolveApproval (now : Z) (id : string) (decision : pydict)
  | QPutInput (r : InputRequestRecord)
  | QResolveInput (now : Z) (id : string) (answers : pydict)
  | QClosePrompts (invocation_id : string) (at_ms : Z)
  | QAcquireLease (now : Z) (key : SessionKey) (holder : string) (ttl_ms : Z)
  | QRenewLease (now1 now2 : Z) (key : SessionKey) (holder : string) (token ttl_ms : Z)
  | QReleaseLease (key : SessionKey) (holder : string) (token : option Z)
  | QAcquireLock (now : Z) (workspace id access : string) (ttl_ms : Z)
  | QReleaseLock (workspace id : string)
  | QReserve (now now_sweep now_created : Z) (key_hash request_hash : string)
  | QAccept (accepted_at : Z) (key_hash invocation_id : string)
  | QComplete (completed_at : Z) (key_hash : string) (res : option pyval)
  | QReplay (now : Z) (key_hash : string)
  | QRelease (key_hash : string)
  | QRestart (now : Z).

Definition exec_sq (op : sq_op) (s : SQLiteStore) : SQLiteStore :=
  match op with
  | QSaveHarness now r => (save_harness now r s).1
  | QDeleteHarness id => (delete_harness id s).1
  | QSaveProfile clock r => (save_profile clock r s).1
  | QPutSession now r => (put_new_session now r s).1
  | QDeleteSession key => (delete_session key s).1
  | QPutInvocation clock r => (put_new_invocation clock r s).1
  | QPutTurn r => (put_new_turn r s).1
  | QAppend e => (append e s).1
  | QPutDelegated now r => (put_delegated_session now r s).1
  | QPutApproval r => (put_approval r s).1
  | QResolveApproval now id d => (resolve_approval now id d s).1
  | QPutInput r => (put_input_request r s).1
  | QResolveInput now id d => (resolve_input_request now id d s).1
  | QClosePrompts id at_ms => (close_pending_interactions id at_ms s).1
  | QAcquireLease now k h ttl => (acquire_lease now k h ttl s).1
  | QRenewLease now1 now2 k h t ttl => (renew_lease now1 now2 k h t ttl s).1
  | QReleaseLease k h t => (release_lease k h t s).1
  | QAcquireLock now w id access ttl => (acquire_workspace_lock now w id access ttl s).1
  | QReleaseLock w id => (release_workspace_lock w id s).1
  | QReserve now n2 n3 k h => (reserve now n2 n3 k h s).1
  | QAccept at_ms k i => (accept at_ms k i s).1
  | QComplete at_ms k r => (complete at_ms k r s).1
  | QReplay now k => (replay now k s).1
  | QRelease k => (release k s).1
  | QRestart now => match open_store now (st_idempotency_ttl_ms (sq_mem s)) (sq_db s) with Ok s' => s' | Raise _ => s end
  end.

(** What the callers see to: names without the separator, a fresh event id, an existing session to
    delete.  The status [interrupted] is left out, see [interrupted_prompts_reopen]. *)
Definition op_ok (op : sq_op) (s : SQLiteStore) : Prop :=
  match op with
  | QPutSession _ r => savable r
  | QDeleteSession key => clean_key key ∧ is_Some (dget key (st_sessions (sq_mem s)))
  | QPutInvocation _ r => rows_follow r
  | QAppend e => fresh_event (sq_mem s) e
  | QAcquireLease _ k _ _ | QRenewLease _ _ k _ _ _ | QReleaseLease k _ _ => clean_key k
  | _ => True
  end.

Fixpoint run_sq (ops : list sq_op) (s : SQLiteStore) : SQLiteStore :=
  match ops with [] => s | op :: ops' => run_sq ops' (exec_sq op s) end.
Fixpoint ops_ok (ops : list sq_op) (s : SQLiteStore) : Prop :=
  match ops with [] => True | op :: ops' => op_ok op s ∧ ops_ok ops' (exec_sq op s) end.

(** A store opened on an empty database. *)
Definition fresh_store (ttl : Z) : SQLiteStore := mkSqlite (MemoryStore_init ttl) (mkDb [] []) None 0 [].

(** ** Idempotency rows *)

(** Every row parses. *)
Definition idem_rows_ok (db : Db) : Prop :=
  Forall (λ kv : string * IdemRow, ∃ r, row_record kv.1 kv.2 = Ok r) (db_idempotency db).

Lemma record_row_parses k r created : ∃ r', row_record k (record_row r created) = Ok r'.
Proof.
  unfold row_record, record_row. cbn. destruct (k_result r) as [v|]; cbn; [|by eexists].
  rewrite loads_compact. destruct v; by eexists.
Qed.

Lemma Forall_dset {V} (P : string * V → Prop) k v (d : dict string V) : P (k, v) → Forall P d → Forall P (dset k v d).
Proof.
  intros Hv Hd. induction Hd as [|[k' v'] d Hk' Hd IH]; cbn [dset]; [by repeat constructor|].
  case_decide; constructor; subst; done.
Qed.

(** Only the idempotency tables change. *)
Definition idem_only (s s' : SQLiteStore) : Prop :=
  sq_faults s' = sq_faults s ∧ sq_txn_depth s' = sq_txn_depth s ∧ sq_begun s' = sq_begun s ∧
  db_records (sq_db s') = db_records (sq_db s) ∧
  ∃ d, sq_mem s' = (sq_mem s) <| st_idempotency := d |>.

#[local] Instance idem_only_pre : PreOrder idem_only.
Proof.
  split.
  - intros s. split_and!; try done. exists (st_idempotency (sq_mem s)). by destruct (sq_mem s).
  - intros s1 s2 s3 (A1 & A2 & A3 & A4 & d1 & A5) (B1 & B2 & B3 & B4 & d2 & B5).
    split_and!; [congruence..|]. exists d2. rewrite B5, A5. done.
Qed.

Lemma idem_only_ok s s' : idem_only s s' → sq_ok s → sq_ok s'.
Proof.
  intros (A1 & A2 & A3 & A4 & d & A5) (F & D & B & xs & E & M). split_and!; [congruence..|]. exists xs.
  split; [congruence|]. rewrite A5. apply (mirrors_same xs (sq_mem s)); try done; by destruct M.
Qed.

(** A step of the idempotency table: it touches nothing else and its rows still parse. *)
Definition idem_step (s s' : SQLiteStore) : Prop :=
  sq_faults s = [] → sq_begun s = None → idem_only s s' ∧ (idem_rows_ok (sq_db s) → idem_rows_ok (sq_db s')).

#[local] Instance idem_step_pre : PreOrder idem_step.
Proof.
  split; [by intros s _ _|]. intros s1 s2 s3 S1 S2 F B. destruct (S1 F B) as [A1 A2]. destruct S2 as [B1 B2]; [by destruct A1 as [-> _]|by destruct A1 as (_ & _ & -> & _)|].
  split; [by transitivity s2|auto].
Qed.

(** Computations all of whose steps are of that kind. *)
Definition stepwise {A} (m : sqlite_m A) : Prop := ∀ s, idem_step s (m s).1.
Definition writes_idem {A} (m : store_m A) : Prop := ∀ m0, ∃ d, (m m0).1 = m0 <| st_idempotency := d |>.

Lemma stepwise_mem {A} (m : store_m A) : writes_idem m → stepwise (mem m).
Proof.
  intros Hm s _ _. unfold mem. destruct (Hm (sq_mem s)) as [d Hd]. destruct (m (sq_mem s)) as [m' r]. cbn in *. subst.
  split; [|done]. split_and!; try done. by exists d.
Qed.

Lemma stepwise_bind {A B} (m : sqlite_m A) (f : A → sqlite_m B) : stepwise m → (∀ a, stepwise (f a)) → stepwise (x ← m; f x).
Proof.
  intros Hm Hf s. unfold mbind, M_bind. pose proof (Hm s) as Hs. destruct (m s) as [s1 [a|e]]; [|done].
  transitivity s1; [done|apply Hf].
Qed.

Lemma stepwise_mret {A} (a : A) : stepwise (mret a). Proof. by intros s. Qed.
Lemma stepwise_raise {A} e : stepwise (raise (A := A) e). Proof. by intros s. Qed.
Lemma stepwise_lift {A} (r : result A) : stepwise (lift r). Proof. by intros s. Qed.
Lemma stepwise_gets {A} (f : SQLiteStore → A) : stepwise (gets f). Proof. by intros s. Qed.
Lemma stepwise_when b (m : sqlite_m unit) : stepwise m → stepwise (when b m). Proof. by destruct b. Qed.
Lemma stepwise_catch {A} (m : sqlite_m A) h : stepwise m → (∀ e, stepwise (h e)) → stepwise (catch m h).
Proof.
  intros Hm Hh s. unfold catch. pose proof (Hm s) as Hs. destruct (m s) as [s1 [a|e]]; [done|]. transitivity s1; [done|apply Hh].
Qed.
Lemma stepwise_query : stepwise (execute (λ d, d)).
Proof.
  intros s F _. unfold execute. rewrite F. cbn. split; [|done]. split_and!; try done. exists (st_idempotency (sq_mem s)).
  cbn. by destruct (sq_mem s).
Qed.

Lemma stepwise_write r : stepwise (write_idempotency r).
Proof.
  intros s F _. unfold write_idempotency, execute. rewrite F. cbn. split.
  - split_and!; try done. exists (st_idempotency (sq_mem s)). cbn. by destruct (sq_mem s).
  - intros Hr. apply Forall_dset; [apply record_row_parses|done].
Qed.

#[local] Hint Resolve stepwise_mem stepwise_mret stepwise_raise stepwise_lift stepwise_gets stepwise_when stepwise_catch
  stepwise_query stepwise_write : steps.

Lemma stepwise_write_back k : stepwise (write_back k).
Proof. unfold write_back. apply stepwise_bind; [auto with steps|intros [r|]; auto with steps]. Qed.

Lemma stepwise_reload k : stepwise (reload_idempotency k).
Proof.
  unfold reload_idempotency. apply stepwise_bind; [auto with steps|intros _].
  apply stepwise_bind; [auto with steps|intros [row|]].
  - apply stepwise_bind; [auto with steps|]. intros r. apply stepwise_mem. intros m. by eexists.
  - apply stepwise_mem. intros m. by eexists.
Qed.
#[local] Hint Resolve stepwise_write_back stepwise_reload : steps.

(** Outside a transaction leaving [with self._db] does nothing. *)
Lemma with_db_eq {A} (m : sqlite_m A) s : sq_begun (m s).1 = None → with_db m s = m s.
Proof. intros B. unfold with_db, catch, if_active. steps. destruct (m s) as [s' [a|e]]; cbn in *; rewrite B; cbn; by rewrite ?B. Qed.

Lemma stepwise_with_db {A} (m : sqlite_m A) : stepwise m → stepwise (with_db m).
Proof.
  intros Hm s F B. destruct (Hm s F B) as [Hs Hr]. rewrite with_db_eq; [done|]. destruct Hs as (_ & _ & -> & _). done.
Qed.

Lemma same_idem m : ∃ d, m = m <| st_idempotency := d |>.
Proof. exists (st_idempotency m). by destruct m. Qed.
#[local] Hint Resolve same_idem : steps.

Lemma reserve_writes n1 n2 n3 k h : writes_idem (Idempotency.reserve n1 n2 n3 k h).
Proof.
  intros m. unfold Idempotency.reserve, sweep_expired. cbn. unfold mbind, M_bind, gets, modify, mret, M_ret, raise. cbn.
  destruct (dget k _) as [r|]; [|by eexists]. repeat case_match; simplify_eq/=; eauto with steps.
Qed.

Lemma accept_writes n k i : writes_idem (Idempotency.accept n k i).
Proof. intros m. unfold Idempotency.accept. repeat case_match; simplify_eq/=; eauto with steps. Qed.
Lemma complete_writes n k i : writes_idem (Idempotency.complete n k i).
Proof. intros m. unfold Idempotency.complete. repeat case_match; simplify_eq/=; eauto with steps. Qed.
Lemma replay_writes n k : writes_idem (Idempotency.replay n k).
Proof. intros m. unfold Idempotency.replay. repeat case_match; simplify_eq/=; eauto with steps. Qed.
Lemma release_writes k : writes_idem (Idempotency.release k).
Proof. intros m. unfold Idempotency.release. repeat case_match; simplify_eq/=; eauto with steps. Qed.
#[local] Hint Resolve reserve_writes accept_writes complete_writes replay_writes release_writes : steps.

Lemma with_db_body {A} (m : sqlite_m A) s : stepwise m → sq_faults s = [] → sq_begun s = None → with_db m s = m s.
Proof. intros Hm F B. apply with_db_eq. destruct (Hm s F B) as [(_ & _ & -> & _) _]. done. Qed.

(** Bodies are built from the steps above. *)
Ltac body_steps :=
  repeat first [ solve [auto with steps] | apply stepwise_bind; [|intros ?] | apply stepwise_catch; [|intros ?] ].

Lemma stepwise_reserve n1 n2 n3 k h : stepwise (reserve n1 n2 n3 k h).
Proof. apply stepwise_with_db. body_steps. Qed.
Lemma stepwise_accept n k i : stepwise (accept n k i).
Proof. apply stepwise_with_db. body_steps. Qed.
Lemma stepwise_complete n k r : stepwise (complete n k r).
Proof. apply stepwise_with_db. body_steps. Qed.
Lemma stepwise_replay n k : stepwise (replay n k).
Proof. apply stepwise_with_db. body_steps. Qed.
Lemma stepwise_release k : stepwise (release k).
Proof. apply stepwise_with_db. body_steps. Qed.

(** ** Every operation keeps the rows in step with the memory *)

(** A property of the idempotency rows, of those to roll back to as well. *)
Definition held (P : dict string IdemRow → Prop) (s : SQLiteStore) : Prop :=
  P (db_idempotency (sq_db s)) ∧ ∀ d, sq_begun s = Some d → P (db_idempotency d).

Definition idem_op_on (op : sq_op) : option string :=
  match op with
  | QReserve _ _ _ k _ | QAccept _ k _ | QComplete _ k _ | QReplay _ k | QRelease k => Some k
  | _ => None
  end.
Definition is_restart (op : sq_op) : bool := match op with QRestart _ => true | _ => false end.

Section held.
Context (P : dict string IdemRow → Prop).

Lemma row_held_mem {A} (m : store_m A) : preserves (held P) (mem m).
Proof. intros s Hs. unfold mem. by destruct (m (sq_mem s)). Qed.
Lemma rows_held_execute f : (∀ d, db_idempotency (f d) = db_idempotency d) → preserves (held P) (execute f).
Proof.
  intros Hf s [H1' H2']. unfold execute. destruct (sq_faults s) as [|[] fs]; cbn; split; cbn; try done;
    by rewrite Hf.
Qed.
Lemma row_held_active m1 m2 : preserves (held P) m1 → preserves (held P) m2 → preserves (held P) (if_active m1 m2).
Proof. intros P1 P2 s Hs. unfold if_active. destruct (sq_begun s); auto. Qed.
Lemma row_held_begin : preserves (held P) begin_txn.
Proof.
  apply preserves_bind; [by apply rows_held_execute|]. intros _. apply row_held_active; [auto with haas|].
  intros s [H1' H2']. split; [done|]. by intros d [= <-].
Qed.
Lemma row_held_commit : preserves (held P) commit_txn.
Proof.
  apply preserves_bind; [by apply rows_held_execute|]. intros _. apply row_held_active; [|auto with haas]. intros s [H1' H2']. by split.
Qed.
Lemma row_held_rollback : preserves (held P) rollback_txn.
Proof.
  apply preserves_bind; [by apply rows_held_execute|]. intros _. apply row_held_active; [|auto with haas].
  intros s [H1' H2']. split; [|done]. cbn. destruct (sq_begun s) as [d|]; [by apply H2'|done].
Qed.
Lemma row_held_when b m : preserves (held P) m → preserves (held P) (when b m).
Proof. destruct b; [done|]. by intros _ s. Qed.
Lemma row_held_put ns k d : preserves (held P) (put_record ns k d).
Proof. by apply rows_held_execute. Qed.
Lemma row_held_delete ns k : preserves (held P) (delete_record ns k).
Proof. by apply rows_held_execute. Qed.
Lemma row_held_for_each {A} (f : A → sqlite_m unit) l : (∀ a, preserves (held P) (f a)) → preserves (held P) (for_each f l).
Proof. intros Hf. induction l as [|a l IH]; cbn [for_each]; auto with haas. Qed.
#[local] Hint Resolve row_held_mem row_held_begin row_held_commit row_held_rollback row_held_when row_held_put row_held_delete
  row_held_for_each : haas.

Lemma row_held_write_prompts id : preserves (held P) (write_prompts id).
Proof. unfold write_prompts, write_approval, write_input. auto 10 with haas. Qed.
#[local] Hint Resolve row_held_write_prompts : haas.
#[local] Hint Unfold save_harness delete_harness save_profile put_new_session put_session delete_session put_new_invocation
  put_invocation put_new_turn put_turn append put_delegated_session put_approval resolve_approval put_input_request
  resolve_input_request close_pending_interactions write_approval write_input acquire_lease renew_lease release_lease
  release_workspace_lock : ops.

Lemma row_held_lock now w id access ttl : preserves (held P) (acquire_workspace_lock now w id access ttl).
Proof.
  unfold acquire_workspace_lock. apply preserves_bind; [auto with haas|intros res].
  apply preserves_bind; [auto with haas|intros [l|]]; auto 10 with haas.
Qed.
#[local] Hint Resolve row_held_lock : haas.

(** Operations on records keep any property of the idempotency rows. *)
Lemma rows_held_exec op s : idem_op_on op = None → is_restart op = false → held P s → held P (exec_sq op s).
Proof.
  destruct op; intros E1 E2; try discriminate E1; try discriminate E2; cbn [exec_sq]; clear E1 E2;
    (lazymatch goal with |- _ → held P (?m s).1 => enough (preserves (held P) m) by auto end;
     autounfold with ops; auto 20 with haas).
Qed.
End held.

(** The idempotency rows parse. *)
Definition parses : SQLiteStore → Prop :=
  held (Forall (λ kv : string * IdemRow, ∃ r, row_record kv.1 kv.2 = Ok r)).

Lemma parses_stepwise {A} (m : sqlite_m A) s : stepwise m → sq_faults s = [] → sq_begun s = None → parses s → parses (m s).1.
Proof.
  intros Hm F B [P1 P2]. destruct (Hm s F B) as [(_ & _ & E & _) Hr]. unfold parses, held. rewrite E. by split; [apply Hr|].
Qed.

Lemma mirrors_init ttl : mirrors [] (MemoryStore_init ttl).
Proof.
  split; try done; [constructor|..].
  - intros ns k _. unfold durable, of_key. repeat case_bool_decide; try done; by destruct (split_key k).
  - intros k t. split; [done|]. by intros (l & ?%elem_of_nil & _).
  - by intros k l ?%elem_of_nil.
  - apply objects_inv_init.
  - apply interactions_inv_init.
Qed.

(** ** What a restart reads back *)

Definition canon_rec (x : record) : record :=
  match x with
  | RHarness r => RHarness (canon_harness r) | RProfile r => RProfile (canon_profile r)
  | RSession r => RSession (canon_session r) | RInvocation r => RInvocation (canon_invocation r)
  | RTurn r => RTurn (canon_turn r) | RApproval r => RApproval (canon_approval r) | RInput r => RInput (canon_input r)
  | RDelegated r => RDelegated (canon_delegated r) | REvent r => REvent (canon_event r)
  | RLease k r => RLease k (canon_lease r) | RToken k r => RToken k (canon_lease r) | RLock w r => RLock w (canon_lease r)
  end.

Lemma canon_rec_id x : rid (canon_rec x) = rid x.
Proof. by destruct x. Qed.

Lemma canon_rec_row x : row_of (canon_rec x) = row_of x.
Proof.
  unfold row_of. f_equal; [by destruct x|]. apply payload_canon.
  destruct x; cbn [canon_rec dict_of]; first [apply harness_asdict_canon|apply profile_asdict_canon|apply session_asdict_canon
    |apply invocation_asdict_canon|apply turn_asdict_canon|apply approval_asdict_canon|apply input_asdict_canon
    |apply delegated_asdict_canon|apply lease_asdict_canon|apply event_asdict_canon].
Qed.

Lemma canon_rec_rows xs : rows (canon_rec <$> xs) = rows xs.
Proof. unfold rows. rewrite <-list_fmap_compose. apply list_fmap_ext. intros. apply canon_rec_row. Qed.

Lemma canon_rec_events key xs : events_of key (canon_rec <$> xs) = canon_event <$> events_of key xs.
Proof.
  induction xs as [|x xs IH]; [done|]. rewrite fmap_cons. destruct x; try exact IH. cbn [canon_rec events_of].
  change (event_session_key (canon_event r)) with (event_session_key r). case_decide; [|done]. by rewrite IH.
Qed.

Lemma canon_rec_ok x : record_ok x → record_ok (canon_rec x).
Proof. by destruct x. Qed.

Lemma elem_canon_rec y (xs : list record) : y ∈ canon_rec <$> xs ↔ ∃ x, x ∈ xs ∧ y = canon_rec x.
Proof. rewrite list_elem_of_fmap. naive_solver. Qed.

(** Restoring a row keeps the tables' invariants. *)
Lemma restore_objects m x : objects_inv m → objects_inv (restore m x).
Proof.
  intros (W1 & R1 & W2 & R2 & W3 & R3). destruct x; try done; split_and!; try done; cbn; try (by apply dict_wf_dset);
    intros k l; rewrite dget_dset; case_decide; intros Hk;
    first [ injection Hk as <-; subst; eexists; split; [by apply list_lookup_middle|done]
          | (apply R1 in Hk || apply R2 in Hk || apply R3 in Hk); destruct Hk as (r0 & Hr0 & ?); exists r0; split; [|done];
            by apply lookup_app_l_Some ].
Qed.

Lemma restore_prompts m x : interactions_inv m → interactions_inv (restore m x).
Proof.
  intros (W1 & R1 & W2 & R2). destruct x; try done; split_and!; try done; cbn; try (by apply dict_wf_dset).
  all: intros k r0; rewrite dget_dset; case_decide; [by intros [= <-]|auto].
Qed.

Lemma restore_all_inv xs m : objects_inv m → interactions_inv m →
  objects_inv (foldl restore m xs) ∧ interactions_inv (foldl restore m xs).
Proof.
  revert m. induction xs as [|x xs IH]; intros m O P; [done|]. apply IH; [by apply restore_objects|by apply restore_prompts].
Qed.

(** The token of a session is the same in all rows that carry it. *)
Lemma mirrors_token_record xs m k x t t' : mirrors xs m → x ∈ xs → token_record k x = Some t' →
  dget k (st_lease_tokens m) = Some t → t' = t.
Proof.
  intros M Hx Ht Hm. destruct x; cbn in Ht; try done; case_decide; simplify_eq.
  - apply (mi_leases _ _ M) in Hx. congruence.
  - assert (dget k (st_lease_tokens m) = Some (l_token r)) by (apply (mi_tokens _ _ M); eauto). congruence.
Qed.

Lemma restored_tokens xs m m0 k : mirrors xs m → st_lease_tokens m0 = [] →
  dget k (st_lease_tokens (foldl restore m0 xs)) = dget k (st_lease_tokens m).
Proof.
  intros M E0. destruct (dget k (st_lease_tokens m)) as [t|] eqn:Et.
  - rewrite (restore_all_token xs m0 k t) by (intros; by eapply mirrors_token_record). rewrite decide_True; [done|].
    apply (mi_tokens _ _ M) in Et as (l & Hl & <-). apply Exists_exists. exists (RToken k l). split; [done|].
    cbn. by rewrite decide_True.
  - rewrite (restore_all_token xs m0 k 0).
    + rewrite decide_False; [by rewrite E0|]. intros (x & Hx & [t Ht])%Exists_exists.
      destruct x; cbn in Ht; try done; case_decide; simplify_eq.
      * apply (mi_leases _ _ M) in Hx. congruence.
      * assert (dget k (st_lease_tokens m) = Some (l_token r)) by (apply (mi_tokens _ _ M); eauto). congruence.
    + intros x t' Hx Ht. exfalso. destruct x; cbn in Ht; try done; case_decide; simplify_eq.
      * apply (mi_leases _ _ M) in Hx. congruence.
      * assert (dget k (st_lease_tokens m) = Some (l_token r)) by (apply (mi_tokens _ _ M); eauto). congruence.
Qed.

Lemma restored_mirrors xs m ttl : mirrors xs m → mirrors (canon_rec <$> xs) (foldl restore (MemoryStore_init ttl) xs).
Proof.
  intros M. destruct (restore_all_inv xs (MemoryStore_init ttl)) as [O P]; [apply objects_inv_init|apply interactions_inv_init|].
  assert (R : refs_ok (MemoryStore_init ttl)) by (apply objects_refs, objects_inv_init).
  split; try done.
  - apply Forall_fmap, Forall_forall. intros x Hx. apply canon_rec_ok. by apply (record_elem_ok xs m).
  - rewrite <-list_fmap_compose. erewrite list_fmap_ext; [apply M|]. intros. apply canon_rec_id.
  - intros ns k Hns. rewrite canon_rec_rows, restore_all_durable by (done || apply M).
    destruct (dget (ns, k) (rows xs)); [done|]. by rewrite <-(mi_rows _ _ (mirrors_init ttl)).
  - intros k. by rewrite restore_all_log, canon_rec_events.
  - intros k t. rewrite (restored_tokens xs m) by done. rewrite (mi_tokens _ _ M). setoid_rewrite elem_canon_rec. split.
    + intros (l & Hl & <-). exists (canon_lease l). split; [by exists (RToken k l)|done].
    + intros (l & (x & Hx & E) & <-). destruct x; try done. injection E as -> ->. eauto.
  - intros k l (x & Hx & E)%elem_canon_rec. destruct x; try done. injection E as -> ->.
    rewrite (restored_tokens xs m) by done. exact (mi_leases _ _ M _ _ Hx).
Qed.

Lemma load_idempotency_ok rs m : Forall (λ kv : string * IdemRow, ∃ r, row_record kv.1 kv.2 = Ok r) rs →
  ∃ d, load_idempotency rs m = Ok (m <| st_idempotency := d |>).
Proof.
  intros Hr. revert m. induction Hr as [|[k row] rs [r Hk] _ IH]; intros m; cbn [load_idempotency].
  - exists (st_idempotency m). by destruct m.
  - cbn in Hk. rewrite Hk. cbn. destruct (IH (m <| st_idempotency := dset k r (st_idempotency m) |>)) as [d ->]. by exists d.
Qed.

(** Loading succeeds and gives a store in step with the same rows. *)
Lemma load_ok now ttl db xs m : db_records db = rows xs → mirrors xs m → idem_rows_ok db →
  ∃ m', load now ttl db = Ok m' ∧ mirrors (canon_rec <$> xs) m' ∧ ∀ k, dget k (st_lease_tokens m') = dget k (st_lease_tokens m).
Proof.
  intros E M Hr. unfold load. rewrite E. unfold rows. rewrite load_rows_of by apply M. cbn [mbind result_bind].
  destruct (load_idempotency_ok (db_idempotency db) (foldl restore (MemoryStore_init ttl) xs) Hr) as [d ->].
  eexists. split; [done|]. split; [|intros k; by apply (restored_tokens xs m)]. pose proof (restored_mirrors xs m ttl M) as M'.
  apply (mirrors_same _ _ _ M'); try done; by destruct M'.
Qed.

Lemma open_ok now ttl s : sq_ok s → parses s → ∃ s', open_store now ttl (sq_db s) = Ok s' ∧ sq_ok s' ∧ parses s'.
Proof.
  intros (F & D & B & xs & E & M) [P _]. destruct (load_ok now ttl (sq_db s) xs (sq_mem s) E M P) as (m' & L & M' & _).
  exists (mkSqlite m' (sq_db s) None 0 []). unfold open_store. rewrite L.
  split; [done|]. split; [|by split]. split_and!; [done..|]. exists (canon_rec <$> xs). split; [by rewrite canon_rec_rows|done].
Qed.

Lemma restart_ok now s : sq_ok s → parses s → sq_ok (exec_sq (QRestart now) s) ∧ parses (exec_sq (QRestart now) s).
Proof. intros Hs Hp. cbn [exec_sq]. by destruct (open_ok now (st_idempotency_ttl_ms (sq_mem s)) s Hs Hp) as (s' & -> & ?). Qed.

Lemma parses_exec op s : sq_ok s → parses s → parses (exec_sq op s).
Proof.
  intros Hok Hs. destruct (is_restart op) eqn:Er; [destruct op; try done; by apply restart_ok|].
  destruct (idem_op_on op) as [k|] eqn:Ei; [|by apply rows_held_exec]. destruct Hok as (F & _ & B & _).
  destruct op; try discriminate; cbn [exec_sq];
    apply parses_stepwise; auto using stepwise_reserve, stepwise_accept, stepwise_complete, stepwise_replay, stepwise_release.
Qed.

Lemma stepwise_ok {A} (m : sqlite_m A) s : stepwise m → sq_ok s → sq_ok (m s).1.
Proof. intros Hm Hs. destruct (Hm s) as [Hs' _]; [apply Hs..|]. by apply (idem_only_ok s). Qed.

Lemma exec_ok op s : op_ok op s → sq_ok s → parses s → sq_ok (exec_sq op s).
Proof.
  intros Hop Hok Hp. destruct op; [..|by apply restart_ok]; clear Hp; revert Hop Hok; cbn [exec_sq op_ok]; intros Hop; try solve [destruct Hop; by apply delete_session_ok];
    auto using save_harness_ok, delete_harness_ok, save_profile_ok, put_new_session_ok, delete_session_ok, put_new_invocation_ok,
      put_new_turn_ok, append_ok, put_delegated_session_ok, put_approval_ok, resolve_approval_ok, put_input_request_ok,
      resolve_input_request_ok, close_pending_interactions_ok, acquire_lease_ok, renew_lease_ok, release_lease_ok,
      acquire_workspace_lock_ok, release_workspace_lock_ok, stepwise_ok, stepwise_reserve, stepwise_accept, stepwise_complete,
      stepwise_replay, stepwise_release.
Qed.

Lemma ops_ok_app ops1 ops2 s : ops_ok (ops1 ++ ops2) s → ops_ok ops1 s ∧ ops_ok ops2 (run_sq ops1 s).
Proof. revert s. induction ops1 as [|op ops1 IH]; intros s; [done|]. cbn. intros [? H2']. by apply IH in H2' as [? ?]. Qed.

Lemma run_sq_ok ops s : ops_ok ops s → sq_ok s → parses s → sq_ok (run_sq ops s) ∧ parses (run_sq ops s).
Proof.
  revert s. induction ops as [|op ops IH]; intros s; [done|]. cbn [ops_ok run_sq]. intros [Hop Hops] Hs Hp.
  apply IH; [done|by apply exec_ok|by apply parses_exec].
Qed.

Lemma fresh_ok ttl : sq_ok (fresh_store ttl) ∧ parses (fresh_store ttl).
Proof.
  split; [|split; [constructor|done]]. split_and!; [done..|]. exists []. split; [done|apply mirrors_init].
Qed.

(** ** The same content, up to the key order of JSON objects *)

Record recovered (m m' : MemoryStore) : Prop := mkRecovered {
  re_harnesses : ∀ k, canon_harness <$> dget k (st_harnesses m') = canon_harness <$> dget k (st_harnesses m);
  re_profiles : ∀ k, canon_profile <$> dget k (st_profiles m') = canon_profile <$> dget k (st_profiles m);
  re_sessions : ∀ k, clean_key k → canon_session <$> session_at k m' = canon_session <$> session_at k m;
  re_invocations : ∀ k, canon_invocation <$> invocation_at k m' = canon_invocation <$> invocation_at k m;
  re_turns : ∀ k, canon_turn <$> turn_at k m' = canon_turn <$> turn_at k m;
  re_approvals : ∀ k, canon_approval <$> dget k (st_approvals m') = canon_approval <$> dget k (st_approvals m);
  re_inputs : ∀ k, canon_input <$> dget k (st_input_requests m') = canon_input <$> dget k (st_input_requests m);
  re_delegated : ∀ k,
    canon_delegated <$> dget k (st_delegated_sessions m') = canon_delegated <$> dget k (st_delegated_sessions m);
  re_leases : ∀ k, clean_key k → dget k (st_leases m') = dget k (st_leases m);
  re_locks : ∀ w, dget w (st_workspace_locks m') = dget w (st_workspace_locks m);
  re_tokens : ∀ k, dget k (st_lease_tokens m') = dget k (st_lease_tokens m);
  re_events : ∀ k, session_events k m' = canon_event <$> session_events k m;
}.

(** Records with the same text are the same up to key order. *)
Lemma text_canon {A} (asdict : A → pydict) (canon_a : A → A) (read : pydict → result A) (o o' : option A) :
  (∀ a, read (canon_dict (asdict a)) = Ok (canon_a a)) →
  payload <$> (asdict <$> o') = payload <$> (asdict <$> o) → canon_a <$> o' = canon_a <$> o.
Proof.
  intros Hr. destruct o as [a|], o' as [a'|]; try done. intros [= E%payload_inj]. cbn. f_equal.
  pose proof (Hr a') as Ha. rewrite E, Hr in Ha. congruence.
Qed.

Lemma construct_session_text now r : construct_session now (canon_dict (session_asdict r)) = session_post_init (canon_session r).
Proof. read_fields (session_asdict_wf r). done. Qed.

(** A stored session has a known control state. *)
Lemma mirrors_session_known xs m k r : mirrors xs m → clean_key k → session_at k m = Some r →
  session_post_init (canon_session r) = Ok (canon_session r).
Proof.
  intros M Hk Hr. pose proof (mi_rows _ _ M "session" (join_key k)) as Hx. specialize (Hx ltac:(done)).
  assert (Ed : durable m "session" (join_key k) = Some (session_asdict r)).
  { change (session_asdict <$> of_key (λ k, session_at k m) (join_key k) = Some (session_asdict r)).
    unfold of_key. by rewrite split_join_key, Hr. }
  rewrite Ed in Hx. apply dget_Some_elem, list_elem_of_fmap in Hx as (x & Ex & Hx).
  destruct x as [| |r'| | | | | | | | |]; try discriminate. injection Ex as _ Ep%payload_inj.
  destruct (record_elem_ok _ _ _ M Hx) as [_ Hv]. unfold valid_session_record in Hv. bsimp.
  pose proof (construct_session_text 0 r) as E. rewrite Ep in E.
  rewrite construct_session_asdict in E by done. revert E.
  unfold session_post_init. by case_match.
Qed.

Lemma mirrors_recovered xs ys m m' :
  mirrors xs m → mirrors ys m' → rows ys = rows xs → (∀ k, events_of k ys = canon_event <$> events_of k xs) →
  (∀ k, dget k (st_lease_tokens m') = dget k (st_lease_tokens m)) → recovered m m'.
Proof.
  intros M M' E Ev Et.
  assert (Hd : ∀ ns k, row_table ns → payload <$> durable m' ns k = payload <$> durable m ns k).
  { intros ns k Hns. by rewrite <-(mi_rows _ _ M), <-(mi_rows _ _ M'), E. }
  assert (Hl : ∀ l : Lease, canon_lease l = l) by (by intros []).
  assert (Hf : ∀ o : option Lease, canon_lease <$> o = o) by (intros [l|]; cbn; by rewrite ?Hl).
  split; try done.
  - intros k. apply (text_canon harness_asdict _ (construct_harness 0)); [apply construct_harness_asdict|exact (Hd "harness" k ltac:(done))].
  - intros k. apply (text_canon profile_asdict _ (construct_profile 0)); [apply construct_profile_asdict|exact (Hd "profile" k ltac:(done))].
  - intros k Hk. pose proof (Hd "session" (join_key k) ltac:(done)) as Hs. revert Hs.
    change (payload <$> (session_asdict <$> of_key (λ k, session_at k m') (join_key k)) =
            payload <$> (session_asdict <$> of_key (λ k, session_at k m) (join_key k)) →
            canon_session <$> session_at k m' = canon_session <$> session_at k m).
    unfold of_key. rewrite split_join_key by done.
    destruct (session_at k m) as [r|] eqn:Er, (session_at k m') as [r'|] eqn:Er'; try done. intros [= Ep%payload_inj]. cbn. f_equal.
    pose proof (construct_session_text 0 r') as E1. rewrite Ep, construct_session_text in E1.
    rewrite (mirrors_session_known _ _ _ _ M Hk Er), (mirrors_session_known _ _ _ _ M' Hk Er') in E1. congruence.
  - intros k. apply (text_canon invocation_asdict _ (construct_invocation 0)); [apply construct_invocation_asdict|exact (Hd "invocation" k ltac:(done))].
  - intros k. apply (text_canon turn_asdict _ (construct_turn 0)); [apply construct_turn_asdict|exact (Hd "turn" k ltac:(done))].
  - intros k. apply (text_canon approval_asdict _ (construct_approval 0)); [apply construct_approval_asdict|exact (Hd "approval" k ltac:(done))].
  - intros k. apply (text_canon input_asdict _ (construct_input 0)); [apply construct_input_asdict|exact (Hd "input_request" k ltac:(done))].
  - intros k. apply (text_canon delegated_asdict _ (construct_delegated 0)); [apply construct_delegated_asdict|exact (Hd "delegated_session" k ltac:(done))].
  - intros k Hk. rewrite <-(Hf (dget k (st_leases m'))), <-(Hf (dget k (st_leases m))).
    apply (text_canon lease_asdict _ construct_lease); [apply construct_lease_asdict|].
    pose proof (Hd "lease" (join_key k) ltac:(done)) as Hs. revert Hs.
    change (payload <$> (lease_asdict <$> of_key (λ k, dget k (st_leases m')) (join_key k)) =
            payload <$> (lease_asdict <$> of_key (λ k, dget k (st_leases m)) (join_key k)) →
            payload <$> (lease_asdict <$> dget k (st_leases m')) = payload <$> (lease_asdict <$> dget k (st_leases m))).
    unfold of_key. by rewrite split_join_key.
  - intros w. rewrite <-(Hf (dget w (st_workspace_locks m'))), <-(Hf (dget w (st_workspace_locks m))).
    apply (text_canon lease_asdict _ construct_lease); [apply construct_lease_asdict|exact (Hd "workspace_lock" w ltac:(done))].
  - intros k. by rewrite (mi_events _ _ M'), (mi_events _ _ M).
Qed.

(** C10: After any sequence of store operations and restarts on a fresh database in which no statement fails, no invocation
    is stored as interrupted, appended events have new ids, sessions have nonempty names, only existing ones are
    deleted, and the application and user names in session keys have no separator ([|]), opening the database again
    succeeds, and the new store holds every harness, profile, session, invocation, turn, prompt, delegated session, lease, lock, fencing token and event
    of the running one, the dictionaries in them up to key order. *)
Theorem restart_recovers ttl ops now :
  ops_ok ops (fresh_store ttl) →
  let s := run_sq ops (fresh_store ttl) in
  ∃ s', open_store now ttl (sq_db s) = Ok s' ∧ sq_db s' = sq_db s ∧ recovered (sq_mem s) (sq_mem s').
Proof.
  intros Hops s. destruct (fresh_ok ttl) as [F1 F2]. destruct (run_sq_ok _ _ Hops F1 F2) as [(_ & _ & _ & xs & E & M) [P _]].
  fold s in E, M, P. destruct (load_ok now ttl (sq_db s) xs (sq_mem s) E M P) as (m' & L & M' & T').
  exists (mkSqlite m' (sq_db s) None 0 []). unfold open_store. rewrite L. split_and!; [done..|]. cbn [sq_mem].
  apply (mirrors_recovered xs (canon_rec <$> xs)); [done|done|apply canon_rec_rows|intros; apply canon_rec_events|done].
Qed.

(** ** An expired key stays refused *)

(** The row of key [k] holds a result that expires at [e], or the tombstone of one. *)
Definition lapsed (k : string) (e : Z) (d : dict string IdemRow) : Prop :=
  ∃ row r, dget k d = Some row ∧ row_record k row = Ok r ∧ k_released r = false ∧ k_expiresAtMs r = Some e ∧
    (k_tombstone r = true ∨ (k_accepted r = true ∧ is_Some (k_result r))).

(** Nobody accepts, completes or releases the key again; reservations and replays of it are allowed. *)
Definition leaves_key (k : string) (op : sq_op) : Prop :=
  match op with QAccept _ k' _ | QComplete _ k' _ | QRelease k' => k' ≠ k | _ => True end.

Lemma row_record_fields k row r : row_record k row = Ok r → k_keyHash r = k ∧ k_result r ≠ Some PNone.
Proof.
  unfold row_record. destruct (ir_result_json row) as [t|]; cbn; [|by intros [= <-]].
  destruct (json_loads t) as [[]|]; cbn; try done; by intros [= <-].
Qed.

(** Reading back a written row gives the record, but for its creation time. *)
Lemma row_record_row k r created : k_keyHash r = k → k_result r ≠ Some PNone →
  row_record k (record_row r created) = Ok (r <| k_createdAtMs := created |>).
Proof.
  intros <- Hn. unfold row_record, record_row. cbn. destruct r as [kh rq [v|] rl ac iv aa ca ex tb sv cr]; cbn in *; [|done].
  rewrite loads_compact. by destruct v.
Qed.

Lemma expire_lapsed now r :
  let r' := expire_idempotency_result now r in
  k_keyHash r' = k_keyHash r ∧ k_released r' = k_released r ∧ k_expiresAtMs r' = k_expiresAtMs r ∧
  (k_result r ≠ Some PNone → k_result r' ≠ Some PNone) ∧
  (k_tombstone r = true ∨ (k_accepted r = true ∧ is_Some (k_result r)) →
   k_tombstone r' = true ∨ (k_accepted r' = true ∧ is_Some (k_result r'))).
Proof. unfold expire_idempotency_result. destruct (result_expired now r); cbn; [|done]. split_and!; try done. by left. Qed.

(** The state after [reload_idempotency]. *)
Definition reloaded (k : string) (r : IdempotencyRecord) (s : SQLiteStore) : SQLiteStore :=
  s <| sq_mem := (sq_mem s) <| st_idempotency := dset k r (st_idempotency (sq_mem s)) |> |>.

Lemma reload_eq k row r s : sq_faults s = [] → dget k (db_idempotency (sq_db s)) = Some row → row_record k row = Ok r →
  reload_idempotency k s = (reloaded k r s, Ok tt).
Proof.
  intros F E Hr. unfold reload_idempotency, execute. steps. rewrite F. cbn. rewrite E. cbn. rewrite Hr. cbn.
  unfold reloaded. by destruct s.
Qed.

Lemma write_back_eq k r s : sq_faults s = [] → dget k (st_idempotency (sq_mem s)) = Some r → k_keyHash r = k →
  ∃ created, write_back k s = (s <| sq_db := (sq_db s) <| db_idempotency := dset k (record_row r created) (db_idempotency (sq_db s)) |> |>, Ok tt).
Proof. intros F E <-. unfold write_back. steps. rewrite E. unfold write_idempotency, execute. rewrite F. eexists. done. Qed.

(** The row written back is still lapsed. *)
Lemma lapsed_written k e now r created d :
  k_keyHash r = k → k_result r ≠ Some PNone → k_released r = false → k_expiresAtMs r = Some e →
  (k_tombstone r = true ∨ (k_accepted r = true ∧ is_Some (k_result r))) →
  lapsed k e (dset k (record_row (expire_idempotency_result now r) created) d).
Proof.
  intros H1' H2' H3 H4 H5. destruct (expire_lapsed now r) as (E1 & E2 & E3 & E4 & E5).
  exists (record_row (expire_idempotency_result now r) created). eexists. split; [apply dget_dset_eq|]. split; [apply row_record_row; [congruence|auto]|].
  cbn. rewrite E2, E3. auto.
Qed.

(** What a reservation of the key does: it writes the row back, or raises and leaves it. *)
Lemma reserve_lapsed now n2 n3 k h e s : sq_faults s = [] → sq_begun s = None → lapsed k e (db_idempotency (sq_db s)) →
  lapsed k e (db_idempotency (sq_db (reserve now n2 n3 k h s).1)) ∧
  (e <= now → ∃ i, (reserve now n2 n3 k h s).2 = Raise (IdempotencyExpiredError k i e)).
Proof.
  intros F B L. pose proof L as (row & r & Er & Hr & H1' & H2' & H3').
  destruct (row_record_fields _ _ _ Hr) as [K1 K2]. pose proof (lapsed_written k e now r) as Lw.
  unfold reserve. rewrite with_db_body by (done || body_steps). steps. rewrite (reload_eq k row r s F Er Hr). cbn. set (s1 := reloaded k r s).
  destruct (expire_lapsed now r) as (E1 & E2 & E3 & E4 & E5). set (r' := expire_idempotency_result now r) in *.
  unfold catch, Idempotency.reserve. steps. rewrite dget_dset_eq. cbn. rewrite H1'. cbn. fold r'.
  assert (Ht : e <= now → k_tombstone r' = true).
  { intros Hn. subst r'. unfold expire_idempotency_result, result_expired. destruct H3' as [Ht|[Ha Hs]].
    - by case_match.
    - rewrite Ha, H2'. destruct Hs as [v ->]. cbn. apply Z.leb_le in Hn. by rewrite Hn. }
  destruct (k_tombstone r') eqn:T; cbn.
  - rewrite E3, H2'. cbn. set (s2 := upd _ _).
    destruct (write_back_eq k r' s2) as [c ->]; [done|by apply dget_dset_eq|congruence|]. cbn. split; [by apply Lw|eauto].
  - assert (Hn : ¬ e <= now) by (intros Hn; by apply Ht in Hn).
    destruct (bool_decide (k_requestHash r' = h)); cbn; [|split; [done|by intros ?%Hn]].
    set (s2 := upd _ _). destruct (write_back_eq k r' s2) as [c ->]; [done|by apply dget_dset_eq|congruence|].
    cbn. split; [by apply Lw|by intros ?%Hn].
Qed.

Lemma replay_lapsed now k e s : sq_faults s = [] → sq_begun s = None → lapsed k e (db_idempotency (sq_db s)) →
  lapsed k e (db_idempotency (sq_db (replay now k s).1)).
Proof.
  intros F B L. pose proof L as (row & r & Er & Hr & H1' & H2' & H3').
  destruct (row_record_fields _ _ _ Hr) as [K1 K2]. pose proof (lapsed_written k e now r) as Lw.
  unfold replay. rewrite with_db_body by (done || body_steps). steps. rewrite (reload_eq k row r s F Er Hr). cbn.
  unfold Idempotency.replay. cbn. rewrite dget_dset_eq. cbn. rewrite H1'. cbn. set (r' := expire_idempotency_result now r) in *.
  set (s2 := upd _ _). destruct (write_back_eq k r' s2) as [c ->]; [done|by apply dget_dset_eq|etrans; [exact (proj1 (expire_lapsed now r))|exact K1]|].
  cbn. by apply Lw.
Qed.

(** Calls for another key leave the row alone. *)
Section other_key.
Context (k k' : string) (v : option IdemRow).
Hypothesis Hk : k' ≠ k.

(** The record in memory carries the key it is under. *)
Definition named (m : MemoryStore) : Prop := ∀ r, dget k' (st_idempotency m) = Some r → k_keyHash r = k'.
Definition row_is (s : SQLiteStore) : Prop := dget k (db_idempotency (sq_db s)) = v.
Definition named_row (s : SQLiteStore) : Prop := named (sq_mem s) ∧ row_is s.

Lemma named_mem {A} (m : store_m A) : preserves named m → preserves named_row (mem m).
Proof. intros Hm s [H1' H2']. unfold mem. specialize (Hm _ H1'). by destruct (m (sq_mem s)) as [m' r]. Qed.

Lemma named_query : preserves named_row (execute (λ d, d)).
Proof. intros s [H1' H2']. unfold execute. destruct (sq_faults s) as [|[] ?]; by split. Qed.

Lemma named_write r : k_keyHash r = k' → preserves named_row (write_idempotency r).
Proof.
  intros E s [H1' H2']. unfold write_idempotency, execute. rewrite E.
  destruct (sq_faults s) as [|[] ?]; split; cbn; try done; unfold row_is; cbn; by rewrite dget_dset_ne.
Qed.

Lemma named_write_back : preserves named_row (write_back k').
Proof.
  intros s Hs. unfold write_back. steps. destruct (dget k' _) as [r|] eqn:E; [|done].
  apply named_write; [by apply Hs|done].
Qed.

(** After the reload the record in memory is the row's. *)
Lemma named_reload s : row_is s → row_is (reload_idempotency k' s).1 ∧
  ((reload_idempotency k' s).2 = Ok tt → named_row (reload_idempotency k' s).1).
Proof.
  intros Hs. unfold reload_idempotency, execute. steps. destruct (sq_faults s) as [|[] fs]; cbn; try done.
  all: destruct (dget k' (db_idempotency (sq_db s))) as [row|] eqn:E; cbn;
    [destruct (row_record k' row) as [r|e] eqn:Er; cbn; [|done]|]; split; try done; intros _; split; try done; cbn.
  all: intros r0; cbn; rewrite ?dget_dset_eq, ?dget_ddel_eq; try done; intros [= <-]; by apply row_record_fields in Er as [? _].
Qed.

Lemma row_after_reload {A} (f : unit → sqlite_m A) s :
  preserves named_row (f tt) → row_is s → row_is ((x ← reload_idempotency k'; f x) s).1.
Proof.
  intros Hf Hs. destruct (named_reload s Hs) as [H1' H2']. unfold mbind, M_bind.
  destruct (reload_idempotency k' s) as [s1 [[]|e]]; [|done]. by apply Hf, H2'.
Qed.

Lemma named_reserve n1 n2 n3 h : preserves named (Idempotency.reserve n1 n2 n3 k' h).
Proof.
  intros m Hm. rewrite reserve_eq. destruct (dget k' (st_idempotency m)) as [r|] eqn:E; [case_match|]; intros r0; cbn;
    rewrite ?dget_dset_eq; intros [= <-]; try done. rewrite (proj1 (expire_lapsed n1 r)). by apply Hm.
Qed.
Lemma named_complete n r : preserves named (Idempotency.complete n k' r).
Proof.
  intros m Hm. unfold Idempotency.complete. destruct (dget k' _) as [r0|] eqn:E; [|done]. intros r1; cbn.
  rewrite dget_dset_eq. intros [= <-]. exact (Hm r0 E).
Qed.
Lemma named_replay n : preserves named (Idempotency.replay n k').
Proof.
  intros m Hm. unfold Idempotency.replay. destruct (dget k' _) as [r0|] eqn:E; [|done]. case_match; [done|]. intros r1; cbn.
  rewrite dget_dset_eq. intros [= <-]. rewrite (proj1 (expire_lapsed n r0)). by apply Hm.
Qed.
Lemma named_release : preserves named (Idempotency.release k').
Proof.
  intros m Hm. unfold Idempotency.release. destruct (dget k' _) as [r0|] eqn:E; [|done]. intros r1; cbn.
  rewrite dget_dset_eq. intros [= <-]. exact (Hm r0 E).
Qed.
Lemma named_accept n i : preserves named_row (record ← mem (Idempotency.accept n k' i); _ ← write_idempotency record; mret record).
Proof.
  intros s Hs. steps. unfold Idempotency.accept.
  destruct (dget k' (st_idempotency (sq_mem s))) as [r|] eqn:E; cbn; [|by destruct s]. 
  destruct (k_released r); cbn; [by destruct s|]. set (r' := upd _ _). set (s1 := upd _ _).
  assert (Kr : k_keyHash r' = k') by (by apply (proj1 Hs r)). assert (Hs1 : named_row s1).
  { split; [|apply Hs]. intros r0. cbn. rewrite dget_dset_eq. by intros [= <-]. }
  pose proof (named_write r' Kr s1 Hs1) as Hw. by destruct (write_idempotency r' s1) as [s2 []].
Qed.

Lemma named_when b (m : sqlite_m unit) : preserves named_row m → preserves named_row (when b m).
Proof. destruct b; [done|]. by intros _ s. Qed.
#[local] Hint Resolve named_mem named_query named_write_back named_reserve named_complete named_replay named_release named_accept
  named_when : haas.

#[local] Hint Unfold reserve accept complete replay release : ops.

Lemma other_key_row op s : sq_faults s = [] → sq_begun s = None → idem_op_on op = Some k' → row_is s → row_is (exec_sq op s).
Proof.
  intros F B. destruct op; intros [= ->]; cbn [exec_sq]; autounfold with ops;
    rewrite with_db_body by (done || body_steps); apply row_after_reload; auto 15 with haas.
Qed.
End other_key.

Lemma lapsed_row k e d d' : lapsed k e d → dget k d' = dget k d → lapsed k e d'.
Proof. intros (row & r & Hr & ?) E. exists row, r. by rewrite E. Qed.

Lemma lapsed_exec k e op s : leaves_key k op → sq_ok s → parses s →
  lapsed k e (db_idempotency (sq_db s)) → lapsed k e (db_idempotency (sq_db (exec_sq op s))).
Proof.
  intros Hq Hs Hp L. pose proof Hs as (F & _ & B & _).
  destruct (is_restart op) eqn:Er.
  { destruct op as [| | | | | | | | | | | | | | | | | | | | | | | |now]; try done. cbn [exec_sq]. unfold open_store.
    by destruct (load _ _ _). }
  destruct (idem_op_on op) as [k'|] eqn:Ei; [|apply (rows_held_exec (lapsed k e)); try done; split; [done|by rewrite B]].
  destruct (decide (k' = k)) as [->|Hk]; [|eapply lapsed_row; [done|by eapply other_key_row]].
  destruct op; cbn in Ei; simplify_eq; try (by destruct Hq); cbn [exec_sq]; [by apply reserve_lapsed|by apply replay_lapsed].
Qed.

(** Once a completed request's result has expired, its key is refused for good: after any operations
    that do not accept, complete or release the key, restarts of the store among them, a reservation raises the expired error
    and never grants a second run.  (The in-memory store forgets, see [expired_key_runs_again].) *)
Theorem expired_key_stays_refused ttl before after k e now n2 n3 h :
  ops_ok (before ++ after) (fresh_store ttl) →
  let s := run_sq before (fresh_store ttl) in
  lapsed k e (db_idempotency (sq_db s)) → Forall (leaves_key k) after → e <= now →
  ∃ i, (reserve now n2 n3 k h (run_sq after s)).2 = Raise (IdempotencyExpiredError k i e).
Proof.
  intros Hops s L Hq He. destruct (ops_ok_app before after (fresh_store ttl) Hops) as [H1' H2'].
  destruct (fresh_ok ttl) as [F1 F2]. destruct (run_sq_ok _ _ H1' F1 F2) as [Hs Hp]. fold s in H2', Hs, Hp.
  clearbody s. clear - Hs Hp L Hq He H2'. revert s Hs Hp L H2'. induction Hq as [|op after Hop Hq IH]; intros s Hs Hp L Hops.
  - destruct Hs as (F & _ & B & _). by apply (reserve_lapsed now n2 n3 k h e s F B L).
  - destruct Hops as [Hok Hops]. cbn [run_sq]. apply IH; [by apply exec_ok|by apply parses_exec|by apply lapsed_exec|done].
Qed.
End codec.

(** ** Examples *)

Module RestartExamples.
#[local] Existing Instance text_json.
#[local] Existing Instance text_codec.
#[local] Instance no_repr : PyRepr := λ _, "".

Definition ttl : Z := 1000.
Definition key : SessionKey := ("app", "u1", "s1").
Definition event : CanonicalEventRecord :=
  mkEvent "evt_0000000000000" (Some "inv_1") "s1" (Some "turn_1") "agent" 1 [("text", PStr "hi"); ("role", PStr "model")] []
    "message" [] 2 5 true "h" "a" "app" "u1".

(** A session with a running turn, a prompt, a lease and an event; then the process restarts, the turn
    fails and the lease is taken over. *)
Definition day : list sq_op :=
  [QPutSession 0 (SessionExamples.session "u1"); QPutInvocation 1 (SessionExamples.invocation "inv_1" "u1" "running");
   QPutApproval PromptExamples.approval; QAcquireLease 2 key "worker_a" 100; QAppend event; QRestart 3;
   QPutInvocation 4 (SessionExamples.invocation "inv_1" "u1" "failed"); QAcquireLease 200 key "worker_b" 100].

Lemma no_events m e : st_events_by_session m = [] → fresh_event m e.
Proof. intros E k e'. unfold session_events. rewrite E. by intros ?%elem_of_nil. Qed.

Lemma day_ok : ops_ok day (fresh_store ttl).
Proof.
  unfold day. cbn [ops_ok op_ok]. split_and!; try done; try (by split); try (apply no_events; vm_compute; reflexivity).
  all: unfold rows_follow, savable; cbn; split_and!; done.
Qed.

Lemma restart_recovers_witness :
  let s := run_sq day (fresh_store ttl) in
  ∃ s', open_store 300 ttl (sq_db s) = Ok s' ∧ sq_db s' = sq_db s ∧ recovered (sq_mem s) (sq_mem s').
Proof. apply (restart_recovers ttl day 300), day_ok. Defined.

(** After the restart the events are there, the failed turn's prompt is closed and the fencing token is the second. *)
Example day_recovered :
  (λ s', (length (session_events key (sq_mem s')), a_status <$> dget "appr_1" (st_approvals (sq_mem s')),
          dget key (st_lease_tokens (sq_mem s')))) <$>
    match open_store 300 ttl (sq_db (run_sq day (fresh_store ttl))) with Ok s' => Some s' | Raise _ => None end =
  Some (1%nat, Some "cancelled", Some 2).
Proof. vm_compute. reflexivity. Qed.

Definition request : list sq_op :=
  [QReserve 0 0 0 "k" "req"; QAccept 10 "k" "inv_1"; QComplete 20 "k" (Some (PStr "done"))].
Definition later : list sq_op :=
  [QReserve 2000 2000 2000 "k" "req"; QReserve 2001 2001 2001 "j" "other"; QRestart 2002; QReplay 2003 "k"].

Lemma expired_key_stays_refused_witness :
  ∃ i, (reserve 3000 3000 3000 "k" "req" (run_sq later (run_sq request (fresh_store ttl)))).2 =
    Raise (IdempotencyExpiredError "k" i 1010).
Proof.
  apply (expired_key_stays_refused ttl request later "k" 1010 3000 3000 3000 "req").
  - cbn [ops_ok op_ok app request later]. by split_and!.
  - eexists _, _. split; [vm_compute; reflexivity|]. split; [vm_compute; reflexivity|]. split; [reflexivity|].
    split; [reflexivity|]. right. split; [reflexivity|]. by eexists.
  - repeat constructor; cbn; by intros ?.
  - lia.
Defined.
End RestartExamples.
