(* ===== verification/SqliteFaults.v ===== *)
(** * Failing statements and the rows left behind (haas/stores/sqlite.py)

    A statement that fails makes the operation raise; what the store does to its memory then, and where the rows and
    the memory part. *)

From S2P Require Import Prelude Errors Dict PyVal Encoding Json JsonText Records RecordCodec Store Leases Idempotency.
From S2P Require Import Interactions SessionStore EventStore Sqlite SqliteInv SqliteRestart.

#[local] Open Scope string_scope.
#[local] Open Scope list_scope.
#[local] Open Scope Z_scope.

Section faults.
Context `{CanonicalJson} `{PyRepr}.

(** The next statement fails. *)
Definition failing (s : SQLiteStore) : Prop := ∃ fs, sq_faults s = true :: fs.

(** Putting the prior value back undoes an insertion. *)
Lemma rollback_dset {K V} `{EqDecision K} (k k' : K) (v : V) (d : dict K V) :
  dget k' (rollback_memory k (dget k d) (dset k v d)) = dget k' d.
Proof.
  unfold rollback_memory. destruct (dget k d) as [v0|] eqn:E; rewrite ?dget_dset, ?dget_ddel; case_decide; subst; try done.
  all: by rewrite dget_dset_ne.
Qed.

Lemma save_harness_undone now r s : failing s → let p := save_harness now r s in
  p.2 = Raise OperationalError ∧ sq_db p.1 = sq_db s ∧ ∀ k, dget k (st_harnesses (sq_mem p.1)) = dget k (st_harnesses (sq_mem s)).
Proof.
  intros [fs F]. unfold save_harness, catch, SessionStore.save_harness, put_record, execute. steps. rewrite F. cbn.
  split_and!; try done. intros k. apply rollback_dset.
Qed.

Lemma save_profile_undone clock r s : failing s → let p := save_profile clock r s in
  p.2 = Raise OperationalError ∧ sq_db p.1 = sq_db s ∧ ∀ k, dget k (st_profiles (sq_mem p.1)) = dget k (st_profiles (sq_mem s)).
Proof.
  intros [fs F]. unfold save_profile, catch, SessionStore.save_profile, put_record, execute. steps. rewrite F. cbn.
  split_and!; try done. intros k. apply rollback_dset.
Qed.

Lemma put_session_undone now l s : failing s → objects_inv (sq_mem s) → let p := put_session now l s in
  is_ok p.2 = false ∧ sq_db p.1 = sq_db s ∧ ∀ k, session_at k (sq_mem p.1) = session_at k (sq_mem s).
Proof.
  intros [fs F] O. destruct (objects_refs _ O) as [R _].
  assert (Hk : ∀ k x, (dget k (st_sessions (sq_mem s)) ≫= λ l, (st_session_objs (sq_mem s) ++ [x]) !! l) = session_at k (sq_mem s)).
  { intros k x. unfold session_at. destruct (dget k _) as [l'|] eqn:Ek; [|done]. apply lookup_app_l. by eapply R. }
  unfold put_session, catch. steps. unfold load_session. destruct (st_session_objs (sq_mem s) !! l) as [r|] eqn:El; cbn; [|done].
  rewrite put_session_eq, El. destruct (known_control_state _); cbn.
  - rewrite list_lookup_middle by done. cbn. unfold put_record, execute. cbn. rewrite F. cbn.
    split_and!; try done. intros k. rewrite <-(Hk k (r <| s_updatedAtMs := now |>)). unfold session_at. cbn. by rewrite rollback_dset.
  - split_and!; try done. intros k. unfold session_at. cbn. by rewrite rollback_same.
Qed.

Lemma put_turn_undone l s : failing s → let p := put_turn l s in
  is_ok p.2 = false ∧ sq_db p.1 = sq_db s ∧ ∀ k, turn_at k (sq_mem p.1) = turn_at k (sq_mem s).
Proof.
  intros [fs F]. unfold put_turn, SessionStore.put_turn, load_turn, catch. steps.
  destruct (st_turn_objs (sq_mem s) !! l) as [r|] eqn:El; cbn; [|done]. rewrite El. cbn.
  unfold put_record, execute. cbn. rewrite F. cbn. split_and!; try done. intros k. unfold turn_at. cbn. by rewrite rollback_dset.
Qed.

(** C22: When the write of a harness, profile, session or turn fails, the call raises, the database is as it was
    and every lookup in memory answers as before. *)
Theorem failed_write_is_undone s : failing s → objects_inv (sq_mem s) →
  (∀ now r, let p := save_harness now r s in
     p.2 = Raise OperationalError ∧ sq_db p.1 = sq_db s ∧
     ∀ k, dget k (st_harnesses (sq_mem p.1)) = dget k (st_harnesses (sq_mem s))) ∧
  (∀ clock r, let p := save_profile clock r s in
     p.2 = Raise OperationalError ∧ sq_db p.1 = sq_db s ∧
     ∀ k, dget k (st_profiles (sq_mem p.1)) = dget k (st_profiles (sq_mem s))) ∧
  (∀ now l, let p := put_session now l s in
     is_ok p.2 = false ∧ sq_db p.1 = sq_db s ∧ ∀ k, session_at k (sq_mem p.1) = session_at k (sq_mem s)) ∧
  (∀ l, let p := put_turn l s in
     is_ok p.2 = false ∧ sq_db p.1 = sq_db s ∧ ∀ k, turn_at k (sq_mem p.1) = turn_at k (sq_mem s)).
Proof.
  intros Hf O. split_and!; intros.
  - by apply save_harness_undone.
  - by apply save_profile_undone.
  - by apply put_session_undone.
  - by apply put_turn_undone.
Qed.
End faults.

(** ** Examples *)

Module FaultExamples.
Import RestartExamples.
#[local] Existing Instance text_json.
#[local] Existing Instance text_codec.
#[local] Existing Instance RestartExamples.no_repr.

Definition ready : SQLiteStore := run_sq (take 5 day) (fresh_store ttl).
Definition broken (s : SQLiteStore) : SQLiteStore := s <| sq_faults := [true] |>.

Lemma ready_objects : objects_inv (sq_mem ready).
Proof.
  destruct (ops_ok_app (take 5 day) (drop 5 day) (fresh_store ttl) day_ok) as [H _]. destruct (fresh_ok ttl) as [F1 F2].
  destruct (run_sq_ok _ _ H F1 F2) as [(_ & _ & _ & xs & _ & M) _]. apply (mi_objects _ _ M).
Qed.

Lemma failed_write_is_undone_witness :
  is_some (session_at key (sq_mem (broken ready))) = true ∧
  session_at key (sq_mem (put_session 50 0%nat (broken ready)).1) = session_at key (sq_mem (broken ready)).
Proof.
  split; [vm_compute; reflexivity|].
  destruct (failed_write_is_undone (broken ready)) as (_ & _ & Hp & _); [by exists []|apply ready_objects|].
  destruct (Hp 50 0%nat) as (_ & _ & Hk). exact (Hk key).
Defined.

Definition reopened (s : SQLiteStore) : option MemoryStore :=
  match open_store 300 ttl (sq_db s) with Ok s' => Some (sq_mem s') | Raise _ => None end.

(** A prompt of an interrupted turn comes back.  The base class closes the prompts of an invocation stored as
    [interrupted]; the override does not write them for that status, so after a restart the prompt waits again. *)
Theorem interrupted_prompts_reopen :
  let s := (put_new_invocation 4 (SessionExamples.invocation "inv_1" "u1" "interrupted") ready).1 in
  a_status <$> dget "appr_1" (st_approvals (sq_mem s)) = Some "cancelled" ∧
  (m ← reopened s; a_status <$> dget "appr_1" (st_approvals m)) = Some "waiting".
Proof. cbv zeta. split; vm_compute; reflexivity. Qed.

Definition next_event : CanonicalEventRecord := event <| e_eventId := "evt_0000000000001" |>.

(** A failed append leaves its event in memory: the list put back is the one the event was added to. *)
Theorem failed_append_keeps_event :
  let p := append next_event (broken ready) in
  p.2 = Raise OperationalError ∧ e_eventId <$> session_events key (sq_mem p.1) = ["evt_0000000000000"; "evt_0000000000001"] ∧
  (m ← reopened p.1; Some (e_eventId <$> session_events key m)) = Some ["evt_0000000000000"].
Proof. cbv zeta. split_and!; vm_compute; reflexivity. Qed.

(** A failed write of an ended invocation rolls the invocation back and leaves its prompts closed in memory,
    while the rows still have them waiting. *)
Theorem failed_invocation_write_closes_prompts :
  let p := put_new_invocation 4 (SessionExamples.invocation "inv_1" "u1" "failed") (ready <| sq_faults := [false; true] |>) in
  p.2 = Raise OperationalError ∧ i_status <$> invocation_at "inv_1" (sq_mem p.1) = Some "running" ∧
  a_status <$> dget "appr_1" (st_approvals (sq_mem p.1)) = Some "cancelled" ∧
  (m ← reopened p.1; a_status <$> dget "appr_1" (st_approvals m)) = Some "waiting".
Proof. cbv zeta. split_and!; vm_compute; reflexivity. Qed.

(** Deleting a session that does not exist deletes rows: memory keeps the records of another user's session with
    the same id, the database loses them. *)
Theorem deleting_absent_session_deletes_rows :
  let s := (delete_session ("app", "nobody", "s1") ready).1 in
  is_some (invocation_at "inv_1" (sq_mem s)) = true ∧ (m ← reopened s; invocation_at "inv_1" m) = None.
Proof. cbv zeta. split; vm_compute; reflexivity. Qed.

(** Row keys of different sessions can be the same text: the second session overwrites the first one's row. *)
Theorem row_keys_collide :
  join_key ("a|b", "c", "s") = join_key ("a", "b|c", "s") ∧
  let s := run_sq [QPutSession 0 (new_session "s" "a|b" "c" 0); QPutSession 0 (new_session "s" "a" "b|c" 0)] (fresh_store ttl) in
  length (st_sessions (sq_mem s)) = 2%nat ∧ (m ← reopened s; Some (length (st_sessions m))) = Some 1%nat.
Proof. cbv zeta. split_and!; vm_compute; reflexivity. Qed.

(** A transaction that raises does not undo a change made to a stored object in place: the
    snapshot holds the tables, not the objects. *)
Definition fail_in_place : sqlite_m unit :=
  _ ← mem (assign_invocation 0 (λ i, i <| i_status := "failed" |>)); raise (ValueError "later step").

Theorem transaction_keeps_object_changes :
  let p := transaction fail_in_place ready in
  p.2 = Raise (ValueError "later step") ∧ sq_db p.1 = sq_db ready ∧
  i_status <$> invocation_at "inv_1" (sq_mem p.1) = Some "failed".
Proof. cbv zeta. split_and!; vm_compute; reflexivity. Qed.

(** A [BEGIN] that fails leaves the nesting depth raised: the next transaction takes itself for a nested one, opens no
    SQL transaction, and when it raises its rows stay. *)
Theorem failed_begin_disables_transactions :
  let s := (transaction (mret tt) (broken ready)).1 in
  sq_txn_depth s = 1%nat ∧
  let body := _ ← put_turn 0; raise (A := unit) (ValueError "later step") in
  let s1 := (transaction body ((mem (alloc_turn (mkTurn "t1" "inv_1" "s1" "running" 1 0 None None None None)) s).1)).1 in
  is_some (turn_at "t1" (sq_mem s1)) = true ∧ (m ← reopened s1; t_id <$> turn_at "t1" m) = Some "t1".
Proof. cbv zeta. split_and!; vm_compute; reflexivity. Qed.

(** Deleting a session drops its idempotency records from memory and leaves their rows, which the next call
    for the key reads back: the key of a deleted session is still answered with the old result. *)
Theorem deleted_session_key_replays :
  let s := run_sq (take 5 day ++ request ++ [QDeleteSession key]) (fresh_store ttl) in
  dget "k" (st_idempotency (sq_mem s)) = None ∧
  (reserve 30 30 30 "k" "req" s).2 = Ok (mkReservation "k" true (Some (PStr "done"))).
Proof. cbv zeta. split; vm_compute; reflexivity. Qed.
End FaultExamples.
