(* ===== verification/Worker.v ===== *)
(** * The private worker of a delegated container (haas/runtime/worker.py, broker.py)

    A worker runs one execution and leaves a signed receipt; asked again, it replays the receipt instead of
    running.  Workers share the data directory, so a run is cut at its file operations: [worker_step] is one
    of them, a crash is a worker that takes no further step.  Temporary files of [_atomic_write] have fresh random names
    and nobody reads them, so a write is the appearance of the target. *)

From S2P Require Import Prelude Errors Dict PyVal Encoding Json JsonText.

#[local] Open Scope string_scope.
#[local] Open Scope list_scope.
#[local] Open Scope Z_scope.

(** [hmac.new(key, msg, sha256).hexdigest()] *)
Class Hmac := hmac_hex : string → string → string.

(** ** The broker *)

Inductive WorkerBroker := UnavailableWorkerBroker | FakeWorkerBroker.

Definition broker_model `{PyRepr} (b : WorkerBroker) (request : pydict) : result pydict :=
  match b with
  | UnavailableWorkerBroker => Raise (BrokerUnavailable "delegation_model_broker_unavailable")
  | FakeWorkerBroker => Ok [("text", PStr (str_or (pget "text" request) "offline"))]
  end.
Definition broker_mcp (b : WorkerBroker) (request : pydict) : result pydict :=
  match b with
  | UnavailableWorkerBroker => Raise (BrokerUnavailable "delegation_mcp_broker_unavailable")
  | FakeWorkerBroker => Ok [("tools", PList [])]
  end.

(** [PrivateWorker._execute] *)
Definition default_execute `{PyRepr} (b : WorkerBroker) (request : pydict) : result (list pydict) :=
  res ← broker_model b [("text", PStr "offline")];
  let text := str_or (pget "text" res) "offline" in
  mret [[("content", PDict [("role", PStr "model"); ("parts", PList [PDict [("text", PStr text)]])]);
         ("actions", PDict [("stateDelta", PDict [("last_text", PStr text)])])];
        [("content", PDict [("role", PStr "model"); ("parts", PList [])]);
         ("actions", PDict [("stateDelta", PDict [("status", PStr "completed")])])]].

(** ** Files *)

(** The generation's token file, as [stat] and [read_bytes] see it. *)
Record token_file := mkTokenFile { tf_private : bool; tf_regular : bool; tf_bytes : string }.

(** The receipts directory of the data root, by the path of an execution below it ([receipt_name]), and the native
    executions so far. *)
Record Disk := mkDisk {
  dk_receipts : dict string string;
  dk_signatures : dict string string;
  dk_running : dict string string;
  dk_executed : list (string * pydict);
}.
#[export] Instance eta_disk : Eta Disk := λ d, mkDisk (dk_receipts d) (dk_signatures d) (dk_running d) (dk_executed d).

Definition empty_disk : Disk := mkDisk [] [] [] [].

(** [receipts/<generation>/<execution id>], without the suffixes of the three files. *)
Definition receipt_name (generation : Z) (id : string) : string := pretty generation +:+ "/" +:+ id.

(** [bytes.splitlines]: line ends are LF, CR and CRLF. *)
Fixpoint byte_lines_go (cur : string) (pending : bool) (s : string) : list string :=
  match s with
  | EmptyString => if pending then [cur] else []
  | String a s' =>
      if Ascii.eqb a (Ascii.ascii_of_nat 10) then cur :: byte_lines_go "" false s'
      else if Ascii.eqb a (Ascii.ascii_of_nat 13) then
        match s' with
        | String b s'' =>
            if Ascii.eqb b (Ascii.ascii_of_nat 10) then cur :: byte_lines_go "" false s''
            else cur :: byte_lines_go "" false s'
        | EmptyString => [cur]
        end
      else byte_lines_go (cur +:+ String a "") true s'
  end.
Definition byte_lines (s : string) : list string := byte_lines_go "" false s.

(** [text.split()]: runs of white space separate. *)
Fixpoint words_go (cur : string) (s : string) : list string :=
  match s with
  | EmptyString => if bool_decide (cur = "") then [] else [cur]
  | String a s' =>
      if is_space a then (if bool_decide (cur = "") then words_go "" s' else cur :: words_go "" s')
      else words_go (cur +:+ String a "") s'
  end.
Definition words (s : string) : list string := words_go "" s.

Definition newline : string := String (Ascii.ascii_of_nat 10) "".

Section worker.
Context `{CanonicalJson} `{Sha256} `{Hmac}.

(** ** One run *)

(** [PrivateWorker]: its generation, the token file it finds, and what executing a request does. *)
Record PrivateWorker := mkWorker {
  pw_generation : Z;
  pw_token : option token_file;
  pw_execute : pydict → result (list pydict);
}.

(** [_read_generation_token] *)
Definition read_generation_token (w : PrivateWorker) : result string :=
  match pw_token w with
  | None => Raise (PrivateWorkerError "private_worker_token_unavailable")
  | Some f =>
      if negb (tf_private f) || negb (tf_regular f) then Raise (PrivateWorkerError "private_worker_token_permissions_invalid")
      else if (String.length (tf_bytes f) <? 32)%nat then Raise (PrivateWorkerError "private_worker_token_invalid")
      else Ok (tf_bytes f)
  end.

(** [_ID_CHARS] *)
Definition id_char (a : Ascii.ascii) : bool :=
  let n := Ascii.nat_of_ascii a in
  ((97 <=? n)%nat && (n <=? 122)%nat) || ((65 <=? n)%nat && (n <=? 90)%nat) || ((48 <=? n)%nat && (n <=? 57)%nat) ||
  (n =? 95)%nat || (n =? 45)%nat.
Definition valid_execution_id (s : string) : bool :=
  (1 <=? String.length s)%nat && (String.length s <=? 128)%nat && str_forall id_char s.

Definition canonical (v : pydict) : string := json_canonical (PDict v).
Definition encode_events (events : list pydict) : string :=
  foldr (λ e s, canonical e +:+ newline +:+ s) "" events.

(** The checked envelope: id, request, digest and the token. *)
Record Job := mkJob { j_id : string; j_request : pydict; j_digest : string; j_token : string }.

Definition receipt_path (w : PrivateWorker) (j : Job) : string := receipt_name (pw_generation w) (j_id j).

(** The checks of [run] before the first file operation on the receipt. *)
Definition prepare (w : PrivateWorker) (envelope : pydict) : result Job :=
  _ ← ensure (py_eqb (pget "version" envelope) (PInt 1)) (PrivateWorkerError "private_worker_version_unsupported");
  _ ← ensure (py_eqb (pget "generation" envelope) (PInt (pw_generation w)))
        (PrivateWorkerError "private_worker_generation_mismatch");
  id ← match pget "executionId" envelope with
       | PStr s => if valid_execution_id s then Ok s else Raise (PrivateWorkerError "private_worker_execution_id_invalid")
       | _ => Raise (PrivateWorkerError "private_worker_execution_id_invalid")
       end;
  request ← match pget "request" envelope with
            | PDict d => Ok d
            | _ => Raise (PrivateWorkerError "private_worker_request_invalid")
            end;
  token ← read_generation_token w;
  mret (mkJob id request (sha256_hex (canonical envelope)) token).

Definition nul : string := String Ascii.zero "".
Definition sign (token digest encoded : string) : string := hmac_hex token (digest +:+ nul +:+ encoded).

(** The events of a stored receipt, up to the first line that is not one. *)
Fixpoint replay_lines (lines : list string) : list pydict * option exn :=
  match lines with
  | [] => ([], None)
  | line :: lines' =>
      match json_loads line with
      | Some (PDict event) => let '(events, e) := replay_lines lines' in (event :: events, e)
      | _ => ([], Some (PrivateWorkerError "private_worker_receipt_invalid"))
      end
  end.

(** [_replay], once both files are read. *)
Definition check_receipt (j : Job) (encoded signature : string) : list pydict * option exn :=
  let fail msg := ([], Some (PrivateWorkerError msg)) in
  if negb (is_ascii signature) then fail "private_worker_receipt_incomplete"
  else
    match words signature with
    | [stored_request; stored_signature] =>
        if negb (bool_decide (stored_request = j_digest j)) then fail "private_worker_execution_conflict"
        else if negb (bool_decide (stored_signature = sign (j_token j) stored_request encoded))
        then fail "private_worker_receipt_invalid"
        else replay_lines (byte_lines encoded)
    | _ => fail "private_worker_receipt_incomplete"
    end.

(** Where a run is; [Finished] holds what was yielded and the exception that ended it. *)
Inductive worker_pc :=
  | AtReceiptCheck | AtSignatureCheck | AtOpen | AtMark | AtExecute
  | AtReceipt (events : list pydict) | AtSign (events : list pydict) | AtUnlink (events : list pydict)
  | AtReadReceipt | AtReadSignature (encoded : string)
  | Finished (events : list pydict) (error : option exn).

Definition finish (e : exn) : worker_pc := Finished [] (Some e).

(** One file operation, or the native execution. *)
Definition worker_step (w : PrivateWorker) (j : Job) (pc : worker_pc) (d : Disk) : Disk * worker_pc :=
  let path := receipt_path w j in
  match pc with
  | AtReceiptCheck => (d, if dmem path (dk_receipts d) then AtReadReceipt else AtSignatureCheck)
  | AtSignatureCheck => (d, if dmem path (dk_signatures d) then AtReadReceipt else AtOpen)
  | AtReadReceipt =>
      match dget path (dk_receipts d) with
      | Some encoded => (d, AtReadSignature encoded)
      | None => (d, finish (PrivateWorkerError "private_worker_receipt_incomplete"))
      end
  | AtReadSignature encoded =>
      match dget path (dk_signatures d) with
      | Some signature => (d, let '(events, e) := check_receipt j encoded signature in Finished events e)
      | None => (d, finish (PrivateWorkerError "private_worker_receipt_incomplete"))
      end
  | AtOpen =>
      if dmem path (dk_running d) then (d, finish (PrivateWorkerError "private_worker_execution_ambiguous"))
      else (d <| dk_running := dset path "" (dk_running d) |>, AtMark)
  | AtMark => (d <| dk_running := dset path (j_digest j) (dk_running d) |>, AtExecute)
  | AtExecute =>
      (d <| dk_executed := dk_executed d ++ [(path, j_request j)] |>,
       match pw_execute w (j_request j) with Ok events => AtReceipt events | Raise e => finish e end)
  | AtReceipt events => (d <| dk_receipts := dset path (encode_events events) (dk_receipts d) |>, AtSign events)
  | AtSign events =>
      (d <| dk_signatures := dset path (j_digest j +:+ " " +:+ sign (j_token j) (j_digest j) (encode_events events) +:+ newline)
                               (dk_signatures d) |>, AtUnlink events)
  | AtUnlink events =>
      if dmem path (dk_running d) then (d <| dk_running := ddel path (dk_running d) |>, Finished events None)
      else (d, finish (OtherError "FileNotFoundError" None))
  | Finished _ _ => (d, pc)
  end.

(** A worker on its own for [n] operations: fewer than it needs is a crash. *)
Fixpoint worker_steps (n : nat) (w : PrivateWorker) (j : Job) (pc : worker_pc) (d : Disk) : Disk * worker_pc :=
  match n with
  | O => (d, pc)
  | S n' => let '(d', pc') := worker_step w j pc d in worker_steps n' w j pc' d'
  end.

Definition is_finished (pc : worker_pc) : bool := match pc with Finished _ _ => true | _ => false end.

(** [PrivateWorker.run], uninterrupted. *)
Definition run_length : nat := 8.
Definition run (w : PrivateWorker) (envelope : pydict) (d : Disk) : Disk * (list pydict * option exn) :=
  match prepare w envelope with
  | Raise e => (d, ([], Some e))
  | Ok j =>
      match worker_steps run_length w j AtReceiptCheck d with
      | (d', Finished events e) => (d', (events, e))
      | (d', _) => (d', ([], None))
      end
  end.
End worker.

(** ** The command *)

Section main.
Context `{CanonicalJson} `{Sha256} `{Hmac} `{PyRepr}.

(** [main]: what it writes to the two streams, and the exit code.  The generation is the number in the environment, the
    token file that of the data root. *)
Definition worker_main (generation : result Z) (token : option token_file) (stdin : string) (d : Disk)
    : Disk * (list string * list string * Z) :=
  let fail lines e :=
    (lines, [match e with PrivateWorkerError msg | BrokerUnavailable msg => msg | _ => "private_worker_failed" end], 1) in
  match json_loads stdin with
  | Some (PDict envelope) =>
      match generation with
      | Raise e => (d, fail [] e)
      | Ok g =>
          let broker := if py_eqb (pget "harnessBase" envelope) (PStr "fake") then FakeWorkerBroker else UnavailableWorkerBroker in
          let '(d', (events, e)) := run (mkWorker g token (default_execute broker)) envelope d in
          let lines := canonical <$> events in
          (d', match e with None => (lines, [], 0) | Some e => fail lines e end)
      end
  | Some _ => (d, fail [] (PrivateWorkerError "private_worker_request_invalid"))
  | None => (d, fail [] (ValueError "JSONDecodeError"))
  end.
End main.

(** ** Termination *)

Section termination.
Context `{CanonicalJson} `{Sha256} `{Hmac}.

(** Operations left, at most. *)
Definition ops_left (pc : worker_pc) : nat :=
  match pc with
  | AtReceiptCheck => 8 | AtSignatureCheck => 7 | AtOpen => 6 | AtMark => 5 | AtExecute => 4
  | AtReceipt _ => 3 | AtSign _ => 2 | AtUnlink _ => 1 | AtReadReceipt => 2 | AtReadSignature _ => 1
  | Finished _ _ => 0
  end.

Lemma step_decreases w j pc d : is_finished pc = false → (ops_left (worker_step w j pc d).2 < ops_left pc)%nat.
Proof.
  destruct pc; cbn; intros Hf; try done; repeat case_match; simplify_eq/=; lia.
Qed.

Lemma steps_finish n w j pc d : (ops_left pc ≤ n)%nat → is_finished (worker_steps n w j pc d).2 = true.
Proof.
  revert pc d. induction n as [|n IH]; intros pc d Hn; cbn; [by destruct pc; cbn in *; try lia|].
  destruct (is_finished pc) eqn:Hf.
  - destruct pc; try done. cbn. apply IH. cbn. lia.
  - pose proof (step_decreases w j pc d Hf) as Hs. destruct (worker_step w j pc d) as [d' pc']. apply IH. cbn in Hs. lia.
Qed.

End termination.

(** ** At most one native execution *)

Section executions.
Context `{CanonicalJson} `{Sha256} `{Hmac}.

Definition executions (id : string) (d : Disk) : nat := length (keep (λ x, bool_decide (x.1 = id)) (dk_executed d)).

(** A run that stops after [n] operations, for any reason. *)
Definition attempt (x : PrivateWorker * pydict * nat) (d : Disk) : Disk :=
  let '(w, envelope, n) := x in
  match prepare w envelope with Ok j => (worker_steps n w j AtReceiptCheck d).1 | Raise _ => d end.
Definition attempts (l : list (PrivateWorker * pydict * nat)) (d : Disk) : Disk := foldl (λ d x, attempt x d) d l.

(** Between runs: an execution has left a marker or a receipt. *)
Definition settled (d : Disk) : Prop :=
  ∀ id, (executions id d ≤ 1)%nat ∧
    (executions id d ≠ 0%nat → dmem id (dk_running d) = true ∨ dmem id (dk_receipts d) = true).

(** During a run of [id]. *)
Definition settled_at (id : string) (pc : worker_pc) (d : Disk) : Prop :=
  settled d ∧
  match pc with
  | AtSignatureCheck => dmem id (dk_receipts d) = false
  | AtOpen => dmem id (dk_receipts d) = false
  | AtMark | AtExecute => dmem id (dk_running d) = true ∧ executions id d = 0%nat
  | AtReceipt _ => dmem id (dk_running d) = true
  | AtSign _ | AtUnlink _ => dmem id (dk_receipts d) = true
  | _ => True
  end.

Lemma executions_snoc id id' r d :
  executions id (d <| dk_executed := dk_executed d ++ [(id', r)] |>) = (executions id d + if bool_decide (id' = id) then 1 else 0)%nat.
Proof. unfold executions. cbn. rewrite keep_app, length_app. cbn. by destruct (bool_decide (id' = id)). Qed.

Lemma dmem_dset {V} (k k' : string) (v : V) d : dmem k (dset k' v d) = bool_decide (k = k') || dmem k d.
Proof. unfold dmem. rewrite dget_dset. case_decide; [by rewrite bool_decide_true|by rewrite bool_decide_false]. Qed.
Lemma dmem_ddel {V} (k k' : string) (d : dict string V) : dmem k (ddel k' d) = negb (bool_decide (k = k')) && dmem k d.
Proof. unfold dmem. rewrite dget_ddel. case_decide; [by rewrite bool_decide_true|by rewrite bool_decide_false]. Qed.

(** Files that appear keep a settled directory settled. *)
Lemma settled_grow d d' : dk_executed d' = dk_executed d →
  (∀ id, dmem id (dk_running d) = true ∨ dmem id (dk_receipts d) = true → dmem id (dk_running d') = true ∨ dmem id (dk_receipts d') = true) →
  settled d → settled d'.
Proof.
  intros E Hg Hs id. destruct (Hs id) as [N2 N3]. unfold executions in *. rewrite E. split; [done|]. intros Hn. by apply Hg, N3.
Qed.

Ltac settle := cbn; unfold settled_at; cbn; split.

Lemma step_settled w j pc d : settled_at (receipt_path w j) pc d →
  let '(d', pc') := worker_step w j pc d in settled_at (receipt_path w j) pc' d'.
Proof.
  intros [Hs Hp]. destruct pc; cbn in *.
  - destruct (dmem _ _) eqn:E; by settle.
  - destruct (dmem (receipt_path w j) (dk_signatures d)); by settle.
  - destruct (dmem (receipt_path w j) (dk_running d)) eqn:E; [by settle|]. settle; [|split].
    + apply (settled_grow d); [done| |done]. intros id. cbn. rewrite dmem_dset. intros [-> | ->]; [left; by rewrite orb_true_r|by right].
    + cbn. rewrite dmem_dset, bool_decide_true by done. done.
    + cbn. destruct (Hs (receipt_path w j)) as [_ Hn]. unfold executions in *. cbn. destruct (length _); [done|].
      destruct Hn as [?|?]; congruence.
  - destruct Hp as [Hr He]. settle; [|split; [|done]].
    + apply (settled_grow d); [done| |done]. intros id. cbn. rewrite dmem_dset. intros [-> | ->]; [left; by rewrite orb_true_r|by right].
    + cbn. by rewrite dmem_dset, bool_decide_true.
  - destruct Hp as [Hr He].
    assert (Hs' : settled (d <| dk_executed := dk_executed d ++ [(receipt_path w j, j_request j)] |>)).
    { intros id. rewrite executions_snoc. cbn. case_bool_decide as D; [subst; rewrite He; split; [lia|by left]|].
      rewrite Nat.add_0_r. apply Hs. }
    destruct (pw_execute w (j_request j)); by settle.
  - settle; [|cbn; by rewrite dmem_dset, bool_decide_true].
    apply (settled_grow d); [done| |done]. intros id. cbn. rewrite dmem_dset. intros [-> | ->]; [by left|right; by rewrite orb_true_r].
  - by settle.
  - destruct (dmem (receipt_path w j) (dk_running d)) eqn:E; [|by settle]. settle; [|done]. intros id. destruct (Hs id) as [N2 N3]. split; [done|].
    intros Hn. cbn. rewrite dmem_ddel. destruct (decide (id = receipt_path w j)) as [->|]; [by right|].
    rewrite bool_decide_false by done. by apply N3.
  - destruct (dget _ _); by settle.
  - destruct (dget _ _); [|by settle]. destruct (check_receipt _ _ _). by settle.
  - by settle.
Qed.

Lemma steps_settled n w j pc d : settled_at (receipt_path w j) pc d → settled (worker_steps n w j pc d).1.
Proof.
  revert pc d. induction n as [|n IH]; intros pc d Hs; cbn; [apply Hs|].
  pose proof (step_settled w j pc d Hs) as Hs'. destruct (worker_step w j pc d) as [d' pc']. by apply IH.
Qed.

(** Workers that run one after the other, each stopped anywhere by a crash or an error, execute the request of an
    execution id of a generation natively at most once, whatever the envelopes and executors: a run that may have started
    is never repeated. *)
Theorem executed_at_most_once l g id : (executions (receipt_name g id) (attempts l empty_disk) ≤ 1)%nat.
Proof.
  assert (Hs : settled empty_disk) by (intros i; split; [unfold executions; cbn; lia|done]).
  enough (settled (attempts l empty_disk)) as Hl by apply Hl. revert Hs. generalize empty_disk as d.
  induction l as [|[[w envelope] n] l IH]; intros d Hs; [done|]. cbn. apply IH. unfold attempt.
  destruct (prepare w envelope) as [j|]; [|done]. by apply steps_settled.
Qed.
End executions.

(** ** Receipts *)

Lemma ddel_dset_fresh {V} (k : string) (v v' : V) d : dmem k d = false → ddel k (dset k v' (dset k v d)) = d.
Proof.
  unfold dmem. induction d as [|[k1 v1] d IH]; cbn.
  - intros _. rewrite decide_True by done. cbn. by rewrite decide_True by done.
  - case_decide as D; [done|]. intros Hd. cbn. rewrite decide_False by done. cbn. rewrite decide_False by done. by rewrite IH.
Qed.

(** Hexadecimal digests, as [hexdigest] gives. *)
Definition hex_char (a : Ascii.ascii) : bool :=
  let n := Ascii.nat_of_ascii a in ((48 <=? n)%nat && (n <=? 57)%nat) || ((97 <=? n)%nat && (n <=? 102)%nat).
Definition hex_word (s : string) : Prop := s ≠ "" ∧ str_forall hex_char s = true.

Class HexDigests `{Sha256} `{Hmac} := {
  sha_is_hex : ∀ x, hex_word (sha256_hex x);
  hmac_is_hex : ∀ k x, hex_word (hmac_hex k x);
}.

Lemma append_empty (a : string) : a +:+ "" = a.
Proof. induction a as [|x a IH]; [done|]. change (String x (a +:+ "") = String x a). by rewrite IH. Qed.

Lemma app_inv_head_str (a b c : string) : a +:+ b = a +:+ c → b = c.
Proof. induction a as [|x a IH]; [done|]. intros [= E]. by apply IH. Qed.

Lemma hex_char_facts a : hex_char a = true → is_space a = false ∧ (Ascii.nat_of_ascii a <? 128)%nat = true.
Proof. destruct a as [[] [] [] [] [] [] [] []]; vm_compute; by intros. Qed.

Lemma words_hex s cur t : str_forall hex_char s = true → words_go cur (s +:+ t) = words_go (cur +:+ s) t.
Proof.
  revert cur. induction s as [|a s IH]; intros cur Hs; [by rewrite append_empty|].
  change (hex_char a && str_forall hex_char s = true) in Hs. apply andb_prop in Hs as [Ha Hs].
  destruct (hex_char_facts a Ha) as [Hsp _]. change (String a s +:+ t) with (String a (s +:+ t)).
  cbn [words_go]. rewrite Hsp, IH by done. by rewrite <-str_app_assoc.
Qed.

Lemma words_pair a b : hex_word a → hex_word b → words (a +:+ " " +:+ b +:+ newline) = [a; b].
Proof.
  intros [Na Ha] [Nb Hb]. unfold words. rewrite words_hex by done. change ("" +:+ a) with a.
  change (" " +:+ b +:+ newline) with (String (Ascii.ascii_of_nat 32) (b +:+ newline)). cbn [words_go].
  change (is_space (Ascii.ascii_of_nat 32)) with true. cbn match. rewrite bool_decide_false by done. f_equal.
  rewrite words_hex by done. change ("" +:+ b) with b. unfold newline. cbn [words_go].
  change (is_space (Ascii.ascii_of_nat 10)) with true. cbn match. by rewrite bool_decide_false by done.
Qed.

(** The lines of an encoding are the texts of its events. *)
Lemma byte_lines_line cur p s t : no_newline s →
  byte_lines_go cur p (s +:+ newline +:+ t) = (cur +:+ s) :: byte_lines_go "" false t.
Proof.
  unfold no_newline. revert cur p. induction s as [|a s IH]; intros cur p Hs.
  - rewrite append_empty. done.
  - change (str_forall (λ a, negb (Ascii.eqb a (Ascii.ascii_of_nat 10)) && negb (Ascii.eqb a (Ascii.ascii_of_nat 13))) (String a s))
      with ((negb (Ascii.eqb a (Ascii.ascii_of_nat 10)) && negb (Ascii.eqb a (Ascii.ascii_of_nat 13))) &&
            str_forall (λ a, negb (Ascii.eqb a (Ascii.ascii_of_nat 10)) && negb (Ascii.eqb a (Ascii.ascii_of_nat 13))) s) in Hs.
    apply andb_prop in Hs as [Ha Hs]. apply andb_prop in Ha as [A1 A2]. apply negb_true_iff in A1, A2.
    change (String a s +:+ newline +:+ t) with (String a (s +:+ newline +:+ t)). cbn [byte_lines_go]. rewrite A1, A2.
    rewrite IH by done. by rewrite <-str_app_assoc.
Qed.

Lemma hex_ascii s : hex_word s → is_ascii s = true.
Proof.
  intros [_ Hs]. unfold is_ascii. induction s as [|a s IH]; [done|]. cbn [str_forall] in *. apply andb_prop in Hs as [Ha Hs].
  destruct (hex_char_facts a Ha) as [_ ->]. by rewrite IH.
Qed.

Section receipts.
Context `{CanonicalJson} `{HexDigests}.

Lemma byte_lines_encode events : byte_lines (encode_events events) = canonical <$> events.
Proof.
  unfold byte_lines. induction events as [|e events IH]; [done|]. cbn [encode_events foldr].
  rewrite byte_lines_line by apply canonical_lines. fold (encode_events events). rewrite IH. done.
Qed.

Lemma replay_encoded events : replay_lines (canonical <$> events) = (canon_dict <$> events, None).
Proof.
  induction events as [|e events IH]; [done|]. cbn [fmap list_fmap replay_lines]. unfold canonical at 1.
  rewrite loads_canonical, canon_PDict. by rewrite IH.
Qed.

Lemma canonical_pair_ascii a b : hex_word a → hex_word b → is_ascii (a +:+ " " +:+ b +:+ newline) = true.
Proof. intros Ha Hb. by rewrite !is_ascii_app, (hex_ascii a Ha), (hex_ascii b Hb). Qed.

(** Reading a receipt with the signature that was written for the same or another request and content. *)
Lemma check_receipt_signed j digest token encoded0 encoded :
  hex_word digest → 
  check_receipt j encoded (digest +:+ " " +:+ sign token digest encoded0 +:+ newline) =
  if decide (digest = j_digest j) then
    if decide (sign token digest encoded0 = sign (j_token j) digest encoded) then replay_lines (byte_lines encoded)
    else ([], Some (PrivateWorkerError "private_worker_receipt_invalid"))
  else ([], Some (PrivateWorkerError "private_worker_execution_conflict")).
Proof.
  intros Hd. unfold check_receipt. rewrite canonical_pair_ascii by (done || apply hmac_is_hex). cbn [negb].
  rewrite words_pair by (done || apply hmac_is_hex). unfold bool_decide. by repeat case_decide.
Qed.

Lemma run_existing w envelope j d encoded signature :
  prepare w envelope = Ok j → dget (receipt_path w j) (dk_receipts d) = Some encoded → dget (receipt_path w j) (dk_signatures d) = Some signature →
  run w envelope d = (d, check_receipt j encoded signature).
Proof.
  intros Hp Hr Hs. unfold run. rewrite Hp. unfold run_length. cbn [worker_steps worker_step]. unfold dmem.
  do 3 (rewrite ?Hr, ?Hs; cbn [is_some worker_step worker_steps]). by destruct (check_receipt j encoded signature) as [es e].
Qed.

(** The signature file of a job's events. *)
Definition signature_text (j : Job) (events : list pydict) : string :=
  j_digest j +:+ " " +:+ sign (j_token j) (j_digest j) (encode_events events) +:+ newline.

Section fresh.
Context (w : PrivateWorker) (envelope : pydict) (j : Job) (d : Disk).
Hypotheses (Hp : prepare w envelope = Ok j)
  (Hr : dmem (receipt_path w j) (dk_receipts d) = false) (Hs : dmem (receipt_path w j) (dk_signatures d) = false).

(** A first run whose executor returns leaves a receipt and its signature. *)
Lemma run_fresh events : dmem (receipt_path w j) (dk_running d) = false → pw_execute w (j_request j) = Ok events →
  run w envelope d =
    (mkDisk (dset (receipt_path w j) (encode_events events) (dk_receipts d)) (dset (receipt_path w j) (signature_text j events) (dk_signatures d))
       (dk_running d) (dk_executed d ++ [(receipt_path w j, j_request j)]), (events, None)).
Proof.
  intros Hm He. unfold run. rewrite Hp. unfold run_length. cbn [worker_steps worker_step]. rewrite Hr. cbn [worker_step]. rewrite Hs.
  cbn [worker_step]. rewrite Hm. cbn. rewrite He. cbn. unfold dmem at 1. rewrite dget_dset_eq. cbn.
  rewrite !ddel_dset_fresh by done. by destruct d.
Qed.

(** One whose executor raises leaves its marker. *)
Lemma run_fails e : dmem (receipt_path w j) (dk_running d) = false → pw_execute w (j_request j) = Raise e →
  run w envelope d =
    (d <| dk_running := dset (receipt_path w j) (j_digest j) (dset (receipt_path w j) "" (dk_running d)) |> <| dk_executed := dk_executed d ++ [(receipt_path w j, j_request j)] |>,
     ([], Some e)).
Proof.
  intros Hm He. unfold run. rewrite Hp. unfold run_length. cbn [worker_steps worker_step]. rewrite Hr. cbn [worker_step]. rewrite Hs.
  cbn [worker_step]. rewrite Hm. cbn. by rewrite He.
Qed.

(** A marker without a receipt refuses. *)
Lemma run_ambiguous : dmem (receipt_path w j) (dk_running d) = true →
  run w envelope d = (d, ([], Some (PrivateWorkerError "private_worker_execution_ambiguous"))).
Proof.
  intros Hm. unfold run. rewrite Hp. unfold run_length. cbn [worker_steps worker_step]. rewrite Hr. cbn [worker_step]. rewrite Hs.
  cbn [worker_step]. by rewrite Hm.
Qed.
End fresh.

(** Every job's digest is a hash. *)
Lemma prepare_digest w envelope j : prepare w envelope = Ok j → hex_word (j_digest j).
Proof. unfold prepare. intros Hp. repeat (apply bind_Ok in Hp as (? & _ & Hp)). injection Hp as <-. apply sha_is_hex. Qed.

(** Reading a receipt back. *)
Lemma run_replays w envelope j d j0 events : prepare w envelope = Ok j → j_token j = j_token j0 → hex_word (j_digest j0) →
  dget (receipt_path w j) (dk_receipts d) = Some (encode_events events) → dget (receipt_path w j) (dk_signatures d) = Some (signature_text j0 events) →
  run w envelope d =
    (d, if decide (j_digest j0 = j_digest j) then (canon_dict <$> events, None)
        else ([], Some (PrivateWorkerError "private_worker_execution_conflict"))).
Proof.
  intros Hp Ht Hd Hr Hs. rewrite (run_existing w envelope j d (encode_events events) (signature_text j0 events)) by done.
  f_equal. unfold signature_text. rewrite check_receipt_signed by done. case_decide; [|done].
  rewrite decide_True by (by rewrite Ht). by rewrite byte_lines_encode, replay_encoded.
Qed.

(** Two texts with one hash. *)
Definition collision (h : string → string) (x y : string) : Prop := x ≠ y ∧ h x = h y.

(** What an envelope that passes the checks is. *)
Lemma prepare_job w envelope id request token :
  is_ok (prepare w envelope) = true → pget "executionId" envelope = PStr id → pget "request" envelope = PDict request →
  read_generation_token w = Ok token →
  prepare w envelope = Ok (mkJob id request (sha256_hex (json_canonical (PDict envelope))) token).
Proof.
  intros Hok Hi Hq Ht. destruct (prepare w envelope) as [j|e] eqn:Hp; [|done]. unfold prepare in Hp. rewrite Hi, Hq, Ht in Hp.
  repeat (apply bind_Ok in Hp as (? & ? & Hp)). repeat case_match; simplify_eq/=. done.
Qed.

(** The canonical text tells dictionaries apart up to the order of their keys. *)
Lemma canonical_eq a b : json_canonical (PDict a) = json_canonical (PDict b) ↔ canon_dict a = canon_dict b.
Proof.
  split; intros E.
  - pose proof (loads_canonical (PDict a)) as L. rewrite E, loads_canonical, !canon_PDict in L. by injection L.
  - by rewrite <-(canonical_canon (PDict a)), canon_PDict, E, <-canon_PDict, canonical_canon.
Qed.

(** C29: A receipt answers for its execution.  A first run of an execution id yields the executor's events and writes them
    down; afterwards any worker of that generation with that token, given the same envelope again (up to the order of its
    keys), yields those events (with sorted keys) and leaves the files and the execution log as they are.  Given a different
    envelope for the id it reports a conflict and executes nothing, unless the texts of the two envelopes are a collision of the
    hash; and with any other content in the receipt it reports an invalid receipt, unless that
    content and the written one, each behind the envelope's digest, are a collision of the keyed hash. *)
Theorem receipt_replays w envelope d id request token events :
  is_ok (prepare w envelope) = true → pget "executionId" envelope = PStr id → pget "request" envelope = PDict request →
  read_generation_token w = Ok token → pw_execute w request = Ok events →
  let path := pretty (pw_generation w) +:+ "/" +:+ id in
  dmem path (dk_receipts d) = false → dmem path (dk_signatures d) = false → dmem path (dk_running d) = false →
  let d' := (run w envelope d).1 in
  (run w envelope d).2 = (events, None) ∧
  ∃ stored, dget path (dk_receipts d') = Some stored ∧
  ∀ w' envelope' request', is_ok (prepare w' envelope') = true → pw_generation w' = pw_generation w →
    read_generation_token w' = Ok token → pget "executionId" envelope' = PStr id → pget "request" envelope' = PDict request' →
    (canon_dict envelope' = canon_dict envelope →
       run w' envelope' d' = (d', (canon_dict <$> events, None)) ∧
       ∀ altered, altered ≠ stored →
         (run w' envelope' (d' <| dk_receipts := dset path altered (dk_receipts d') |>)).2 =
           ([], Some (PrivateWorkerError "private_worker_receipt_invalid")) ∨
         collision (hmac_hex token) (sha256_hex (json_canonical (PDict envelope)) +:+ nul +:+ stored)
           (sha256_hex (json_canonical (PDict envelope)) +:+ nul +:+ altered)) ∧
    (canon_dict envelope' ≠ canon_dict envelope →
       run w' envelope' d' = (d', ([], Some (PrivateWorkerError "private_worker_execution_conflict"))) ∨
       collision sha256_hex (json_canonical (PDict envelope)) (json_canonical (PDict envelope'))).
Proof.
  intros Hok Hi Hq Ht He path Hr Hs Hm. pose proof (prepare_job _ _ _ _ _ Hok Hi Hq Ht) as Hp.
  pose proof (prepare_digest _ _ _ Hp) as Hd. set (j := mkJob id request _ token) in Hp, Hd. cbv zeta.
  rewrite (run_fresh w envelope j d Hp Hr Hs events Hm He). cbn [fst snd]. split; [done|].
  exists (encode_events events). split; [apply dget_dset_eq|]. intros w' envelope' request' Hok' Hg' Ht' Hi' Hq'.
  pose proof (prepare_job _ _ _ _ _ Hok' Hi' Hq' Ht') as Hp'. set (j' := mkJob id request' _ token) in Hp'.
  assert (Hpath : receipt_path w' j' = path) by (unfold receipt_path; by rewrite Hg').
  match goal with |- context [run w' envelope' ?x] => set (d1 := x) end.
  assert (Hrun : run w' envelope' d1 = (d1, if decide (j_digest j = j_digest j') then (canon_dict <$> events, None)
                   else ([], Some (PrivateWorkerError "private_worker_execution_conflict")))).
  { apply (run_replays w' envelope' j' d1 j events Hp'); try done; rewrite Hpath; apply dget_dset_eq. }
  rewrite Hrun. cbn [j_digest j j']. split.
  - intros Ec. apply canonical_eq in Ec. rewrite decide_True by (by rewrite Ec). split; [done|]. intros altered Hne.
    erewrite run_existing; [|exact Hp'|rewrite Hpath; apply dget_dset_eq|rewrite Hpath; apply dget_dset_eq].
    cbn [snd]. unfold signature_text. rewrite check_receipt_signed by done. cbn [j_digest j_token j j'].
    rewrite decide_True by (by rewrite Ec). match goal with |- context [decide ?P] => destruct (decide P) as [Hc|] end; [|by left]. right. split; [|exact Hc].
    intros Eq. apply Hne. symmetry. by do 2 apply app_inv_head_str in Eq.
  - intros Ne. destruct (decide _) as [Hc|]; [|by left]. right. split; [|exact Hc]. intros Eq. by apply Ne, canonical_eq.
Qed.
End receipts.

(** ** Workers at the same time *)

Section concurrency.
Context `{CanonicalJson} `{Sha256} `{Hmac}.

(** The running workers, each at an operation of its own. *)
Record Fleet := mkFleet { fl_workers : list (PrivateWorker * Job * worker_pc); fl_disk : Disk }.

(** The worker at index [i] does its next operation. *)
Definition fleet_step (i : nat) (f : Fleet) : Fleet :=
  match fl_workers f !! i with
  | Some (w, j, pc) => let '(d, pc') := worker_step w j pc (fl_disk f) in mkFleet (<[i := (w, j, pc')]> (fl_workers f)) d
  | None => f
  end.
Definition fleet_run (schedule : list nat) (f : Fleet) : Fleet := foldl (λ f i, fleet_step i f) f schedule.

(** Between the marker's creation and its removal. *)
Definition holds_marker (pc : worker_pc) : bool :=
  match pc with AtMark | AtExecute | AtReceipt _ | AtSign _ | AtUnlink _ => true | _ => false end.

Definition marker_kept (f : Fleet) : Prop :=
  (∀ i w j pc, fl_workers f !! i = Some (w, j, pc) → holds_marker pc = true → dmem (receipt_path w j) (dk_running (fl_disk f)) = true) ∧
  (∀ i i' w w' j j' pc pc', fl_workers f !! i = Some (w, j, pc) → fl_workers f !! i' = Some (w', j', pc') →
     holds_marker pc = true → holds_marker pc' = true → receipt_path w j = receipt_path w' j' → i = i').

(** What one operation does to the markers. *)
Lemma step_marker w j pc d :
  let '(d', pc') := worker_step w j pc d in
  (holds_marker pc' = true → dmem (receipt_path w j) (dk_running d') = true ∨ holds_marker pc = true) ∧
  (holds_marker pc = false → holds_marker pc' = true → dmem (receipt_path w j) (dk_running d) = false) ∧
  (∀ id, dmem id (dk_running d) = true → (id = receipt_path w j → holds_marker pc = true → holds_marker pc' = true) →
     dmem id (dk_running d') = true).
Proof.
  destruct pc; cbn; repeat case_match; simplify_eq/=; split_and!; try done; try (by auto); try tauto.
  all: try (by intros id Hid ?; rewrite dmem_dset, Hid, orb_true_r).
  - intros _. left. by rewrite dmem_dset, bool_decide_true.
  - intros id Hid Hk. rewrite dmem_ddel, Hid. destruct (decide (id = receipt_path w j)) as [->|]; [by specialize (Hk eq_refl eq_refl)|].
    by rewrite bool_decide_false.
Qed.

Lemma fleet_step_marker i f : marker_kept f → marker_kept (fleet_step i f).
Proof.
  intros [Hm Hx]. unfold fleet_step. destruct (fl_workers f !! i) as [[[w j] pc]|] eqn:Ei; [|done].
  pose proof (step_marker w j pc (fl_disk f)) as Hs. destruct (worker_step w j pc (fl_disk f)) as [d' pc'].
  destruct Hs as (S1 & S2 & S3). split; cbn [fl_workers fl_disk].
  - intros i1 w1 j1 pc1 [(-> & E1 & _)|[Hne E1]]%list_lookup_insert_Some Hh.
    + injection E1 as <- <- <-. destruct (S1 Hh) as [?|Hp]; [done|]. apply S3; [by eapply Hm|done].
    + destruct (holds_marker pc) eqn:Hp; [|apply S3; [by eapply Hm|done]].
      assert (receipt_path w1 j1 ≠ receipt_path w j) by (intros Eid; destruct Hne; by apply (Hx i i1 w w1 j j1 pc pc1)).
      apply S3; [by eapply Hm|done].
  - intros i1 i2 w1 w2 j1 j2 pc1 pc2 [(<- & E1 & _)|[N1 E1]]%list_lookup_insert_Some
      [(<- & E2 & _)|[N2 E2]]%list_lookup_insert_Some P1 P2 Hid; [done| | |by eapply Hx].
    + injection E1 as <- <- <-. destruct (holds_marker pc) eqn:Hp; [by eapply Hx|].
      specialize (S2 eq_refl P1). rewrite Hid in S2. rewrite (Hm i2 w2 j2 pc2) in S2 by done. done.
    + injection E2 as <- <- <-. destruct (holds_marker pc) eqn:Hp; [by eapply Hx|].
      specialize (S2 eq_refl P2). rewrite <-Hid in S2. rewrite (Hm i1 w1 j1 pc1) in S2 by done. done.
Qed.

(** C28: Natively executing is exclusive within a generation.  However the operations of any number of workers of any generations
    interleave and whichever of them crash, two workers of one generation are never both between creating and removing the marker of
    one execution id, so they never execute it at the same time nor write its receipt against each other.  (Each
    generation has a directory of its own: workers of two generations do not exclude each other.) *)
Theorem one_worker_executes workers d schedule :
  (∀ i x, workers !! i = Some x → x.2 = AtReceiptCheck) →
  ∀ i i' w w' j j' pc pc',
    let f := fleet_run schedule (mkFleet workers d) in
    fl_workers f !! i = Some (w, j, pc) → fl_workers f !! i' = Some (w', j', pc') →
    holds_marker pc = true → holds_marker pc' = true →
     pw_generation w = pw_generation w' → j_id j = j_id j' → i = i'.
Proof.
  intros Hw. cbv zeta. assert (Hk : marker_kept (mkFleet workers d)).
  { split; cbn; [intros i w j pc E|intros i i' w w' j j' pc pc' E _]; by rewrite (Hw i _ E : pc = AtReceiptCheck). }
  revert Hk. generalize (mkFleet workers d). induction schedule as [|k l IH]; intros f [Hm Hx].
  - intros i i' w w' j j' pc pc' E E' P P' Hg Hi. apply (Hx i i' w w' j j' pc pc'); try done. unfold receipt_path. by rewrite Hg, Hi.
  - apply IH, fleet_step_marker. by split.
Qed.
End concurrency.

(** ** Examples *)

Module WorkerExamples.
#[local] Existing Instance text_json.
#[local] Existing Instance text_codec.

(** Stand-ins for the two digests: the bytes in hexadecimal, after the key's. *)
Definition hex_digit (n : nat) : Ascii.ascii := Ascii.ascii_of_nat (if (n <? 10)%nat then 48 + n else 87 + n).
Fixpoint hex (s : string) : string :=
  match s with
  | "" => ""
  | String a s' => let n := Ascii.nat_of_ascii a in String (hex_digit (n / 16)) (String (hex_digit (n mod 16)) (hex s'))
  end.
#[local] Instance sha_toy : Sha256 := λ s, "0" +:+ hex s.
#[local] Instance hmac_toy : Hmac := λ k s, "1" +:+ hex k +:+ "0" +:+ hex s.

Lemma hex_byte a :
  hex_char (hex_digit (Ascii.nat_of_ascii a / 16)) && hex_char (hex_digit (Ascii.nat_of_ascii a mod 16)) = true.
Proof. by destruct a as [[] [] [] [] [] [] [] []]. Qed.
Lemma hex_chars s t : str_forall hex_char t = true → str_forall hex_char (hex s +:+ t) = true.
Proof.
  intros Ht. induction s as [|a s IH]; [done|]. cbn [hex].
  change (hex_char (hex_digit (Ascii.nat_of_ascii a / 16)) &&
    (hex_char (hex_digit (Ascii.nat_of_ascii a mod 16)) && str_forall hex_char (hex s +:+ t)) = true).
  by rewrite IH, andb_true_r, hex_byte.
Qed.
#[local] Instance toy_hex : HexDigests.
Proof.
  split; unfold hex_word.
  - intros x. split; [done|]. change (str_forall hex_char (hex x) = true). rewrite <-(append_empty (hex x)). by apply hex_chars.
  - intros k x. split; [done|]. change (str_forall hex_char (hex k +:+ ("0" +:+ hex x)) = true). apply hex_chars.
    change (str_forall hex_char (hex x) = true). rewrite <-(append_empty (hex x)). by apply hex_chars.
Qed.

Definition token : token_file := mkTokenFile true true "0123456789abcdef0123456789abcdef".
Definition events : list pydict := [[("text", PStr "hi"); ("author", PStr "agent")]].
Definition worker : PrivateWorker := mkWorker 3 (Some token) (λ _, Ok events).
Definition envelope (text : string) : pydict :=
  [("version", PInt 1); ("generation", PInt 3); ("executionId", PStr "exec_1"); ("request", PDict [("text", PStr text)])].
Definition job (text : string) : Job :=
  match prepare worker (envelope text) with Ok j => j | Raise _ => mkJob "" [] "" "" end.

(** Replayed for its envelope, a conflict for another one, refused when altered. *)
Lemma receipt_replays_witness :
  let d := (run worker (envelope "a") empty_disk).1 in
  run worker (envelope "a") d = (d, (canon_dict <$> events, None)) ∧
  (run worker (envelope "b") d = (d, ([], Some (PrivateWorkerError "private_worker_execution_conflict"))) ∨
   collision sha256_hex (json_canonical (PDict (envelope "a"))) (json_canonical (PDict (envelope "b")))) ∧
  ((run worker (envelope "a") (d <| dk_receipts := dset "3/exec_1" "{}" (dk_receipts d) |>)).2 =
     ([], Some (PrivateWorkerError "private_worker_receipt_invalid")) ∨ ∃ x y, collision (hmac_hex (tf_bytes token)) x y).
Proof.
  destruct (receipt_replays worker (envelope "a") empty_disk "exec_1" [("text", PStr "a")] (tf_bytes token) events)
    as [_ (stored & Hst & Hr)]; [vm_compute; reflexivity..|].
  destruct (Hr worker (envelope "a") [("text", PStr "a")]) as [Ha _]; [vm_compute; reflexivity..|].
  destruct (Hr worker (envelope "b") [("text", PStr "b")]) as [_ Hb]; [vm_compute; reflexivity..|].
  destruct (Ha eq_refl) as [Ea Er]. cbv zeta. split; [exact Ea|]. split; [apply Hb; vm_compute; discriminate|].
  assert (Hne : "{}" ≠ stored) .
  { intros E. clear -E Hst. assert (Hs : Some (encode_events events) = Some stored) by (rewrite <-Hst; vm_compute; reflexivity).
    rewrite <-E in Hs. vm_compute in Hs. discriminate. }
  destruct (Er "{}" Hne) as [E|E]; [left; exact E|right]. eexists _, _. exact E.
Defined.

(** With these stand-ins both alternatives are the refusals. *)
Example receipt_refusals :
  let d := (run worker (envelope "a") empty_disk).1 in
  (run worker (envelope "b") d).2 = ([], Some (PrivateWorkerError "private_worker_execution_conflict")) ∧
  (run worker (envelope "a") (d <| dk_receipts := dset "3/exec_1" "{}" (dk_receipts d) |>)).2 =
    ([], Some (PrivateWorkerError "private_worker_receipt_invalid")).
Proof. split; vm_compute; reflexivity. Qed.

Definition two : list (PrivateWorker * Job * worker_pc) := [(worker, job "a", AtReceiptCheck); (worker, job "a", AtReceiptCheck)].

Lemma one_worker_executes_witness :
  let f := fleet_run [0; 1; 0; 1; 0; 1; 0; 0; 0]%nat (mkFleet two empty_disk) in
  (∃ es, fl_workers f !! 0%nat = Some (worker, job "a", AtSign es)) ∧
  fl_workers f !! 1%nat = Some (worker, job "a", finish (PrivateWorkerError "private_worker_execution_ambiguous")) ∧
  (∀ i i' w w' j j' pc pc', fl_workers f !! i = Some (w, j, pc) → fl_workers f !! i' = Some (w', j', pc') →
     holds_marker pc = true → holds_marker pc' = true →
     pw_generation w = pw_generation w' → j_id j = j_id j' → i = i').
Proof.
  split; [eexists; vm_compute; reflexivity|]. split; [vm_compute; reflexivity|].
  apply one_worker_executes. intros i x Hi. repeat (destruct i as [|i]; [by injection Hi as <-|]). done.
Defined.

(** The receipt is looked for before the marker is taken, and not again afterwards: a worker that looked
    before another one finished takes the marker that one removed and executes the request a second time, over its receipt. *)
Theorem race_executes_twice :
  let f := fleet_run [0; 0; 1; 1; 1; 1; 1; 1; 1; 1; 0; 0; 0; 0; 0; 0]%nat (mkFleet two empty_disk) in
  executions (receipt_name 3 "exec_1") (fl_disk f) = 2%nat ∧ (fl_workers f).*2 = [Finished events None; Finished events None].
Proof. cbv zeta. split; vm_compute; reflexivity. Qed.
End WorkerExamples.
