(* ===== verification/Admission.v ===== *)
(** * Admission control (haas/admission.py and the AdmissionStore of haas/stores/memory.py)

    A run is admitted when its bucket (the tenant, or the principal without one)
    is under the request rate of the trailing window and under its quota of
    concurrent runs.  Each admitted run holds a lease until it is released. *)

From S2P Require Import Prelude Errors Dict PyVal Records Store.

#[local] Open Scope string_scope.
#[local] Open Scope list_scope.
#[local] Open Scope Z_scope.

(** ** AdmissionStore *)

(** [incr_window] *)
Definition incr_window (bucket : string) (now_ms window_ms : Z) : store_m Z := λ s,
  let cutoff := now_ms - window_ms in
  let times := keep (λ t, cutoff <=? t) (default [] (dget bucket (st_windows s))) ++ [now_ms] in
  (s <| st_windows := dset bucket times (st_windows s) |>, Ok (Z.of_nat (length times))).

(** [quota_count] *)
Definition quota_count (bucket : string) (s : MemoryStore) : Z := default 0 (dget bucket (st_quotas s)).

(** [acquire_quota] *)
Definition acquire_quota (bucket : string) (limit : Z) : store_m bool := λ s,
  let current := quota_count bucket s in
  if limit <=? current then (s, Ok false)
  else (s <| st_quotas := dset bucket (current + 1) (st_quotas s) |>, Ok true).

(** [release_quota] *)
Definition release_quota (bucket : string) : store_m unit :=
  modify (λ s, s <| st_quotas := dset bucket (Z.max 0 (quota_count bucket s - 1)) (st_quotas s) |>).

(** ** AdmissionControl *)

Record AdmissionInput := mkAdmissionInput {
  ai_principalHash : string;
  ai_appName : string;
  ai_tenantId : option string;
  ai_workspaceId : option string;
  ai_resource : string;
  ai_estimatedCost : Z;
}.

Record AdmissionDecision := mkAdmissionDecision {
  ad_allowed : bool;
  ad_queued : bool;
  ad_leaseId : option string;
  ad_limitName : option string;
  ad_remaining : option Z;
  ad_code : option string;
  ad_safeReason : option string;
  ad_retryAfterMs : option Z;
}.

(** The limits of an [AdmissionControl] instance. *)
Record AdmissionLimits := mkAdmissionLimits {
  run_quota : Z;
  rate_limit : Z;
  rate_window_ms : Z;
}.
Definition default_limits : AdmissionLimits := mkAdmissionLimits 20 100 60000.

(** The store it shares and its own lease table. *)
Record AdmissionControl := mkAdmissionControl {
  ac_store : MemoryStore;
  ac_leases : dict string string;
}.
#[export] Instance eta_AdmissionControl : Eta AdmissionControl :=
  λ r, mkAdmissionControl (ac_store r) (ac_leases r).

(** [_bucket] *)
Definition bucket_of (req : AdmissionInput) : string :=
  ai_resource req +:+ ":" +:+
  match ai_tenantId req with
  | Some EmptyString | None => ai_principalHash req
  | Some t => t
  end.

(** [admit_run]; [lease_id] is the fresh [adm_...] id. *)
Definition admit_run (lim : AdmissionLimits) (now : Z) (lease_id : string) (req : AdmissionInput)
    : M AdmissionControl AdmissionDecision := λ c,
  let bucket := bucket_of req in
  let (s1, r1) := incr_window bucket now (rate_window_ms lim) (ac_store c) in
  match r1 with
  | Raise e => (c <| ac_store := s1 |>, Raise e)
  | Ok count =>
      if rate_limit lim <? count then
        (c <| ac_store := s1 |>,
         Ok (mkAdmissionDecision false false None None None (Some "haas_rate_limited")
               (Some "rate_limit_exceeded") (Some (rate_window_ms lim))))
      else
        let (s2, r2) := acquire_quota bucket (run_quota lim) s1 in
        match r2 with
        | Raise e => (c <| ac_store := s2 |>, Raise e)
        | Ok false =>
            (c <| ac_store := s2 |>,
             Ok (mkAdmissionDecision false false None None None (Some "haas_quota_exceeded")
                   (Some "quota_exceeded") (Some 1000)))
        | Ok true =>
            (c <| ac_store := s2 |> <| ac_leases := dset lease_id bucket (ac_leases c) |>,
             Ok (mkAdmissionDecision true false (Some lease_id) (Some "runs_per_tenant")
                   (Some (Z.max 0 (run_quota lim - quota_count bucket s2))) None None None))
        end
  end.

(** [release_run] *)
Definition release_run (run_id : string) : M AdmissionControl unit := λ c,
  match dget run_id (ac_leases c) with
  | Some bucket =>
      (c <| ac_leases := ddel run_id (ac_leases c) |>
         <| ac_store := (release_quota bucket (ac_store c)).1 |>, Ok tt)
  | None => (c, Ok tt)
  end.

(** [snapshot_queues] *)
Definition snapshot_queues : pydict :=
  [("runQueueDepth", PInt 0); ("runQueueLimit", PInt 0); ("activeRuns", PInt 0)].

(** ** The rate window against its reference definition

    The reference counts, over the whole history of request times of a bucket,
    those not older than the window. *)

Definition in_window (now window : Z) (t : Z) : bool := now - window <=? t.
Definition window_count (history : list Z) (now window : Z) : Z :=
  Z.of_nat (length (keep (in_window now window) history)).

(** Serve a list of requests at the given times; the counts returned. *)
Fixpoint serve_window (bucket : string) (window : Z) (times : list Z) (s : MemoryStore) : MemoryStore * list Z :=
  match times with
  | [] => (s, [])
  | t :: ts =>
      match incr_window bucket t window s with
      | (s1, Ok c) => let (s2, cs) := serve_window bucket window ts s1 in (s2, c :: cs)
      | (s1, Raise _) => (s1, [])
      end
  end.

(** The counts the reference definition gives, [hist] being the times already seen. *)
Fixpoint reference_counts (window : Z) (hist times : list Z) : list Z :=
  match times with
  | [] => []
  | t :: ts => window_count (hist ++ [t]) t window :: reference_counts window (hist ++ [t]) ts
  end.

(** The stored list is the part of the history still inside the last window. *)
Definition window_rep (bucket : string) (window : Z) (hist : list Z) (last : Z) (s : MemoryStore) : Prop :=
  default [] (dget bucket (st_windows s)) = keep (in_window last window) hist.

Lemma keep_window_mono window hist a b :
  a <= b → keep (in_window b window) (keep (in_window a window) hist) = keep (in_window b window) hist.
Proof.
  intros Hab. rewrite keep_keep. apply keep_ext. intros t _. unfold in_window.
  destruct (Z.leb_spec (a - window) t), (Z.leb_spec (b - window) t); simpl; lia || done.
Qed.

Lemma incr_window_rep bucket window hist last t s :
  0 <= window → last <= t → window_rep bucket window hist last s →
  ∃ s', incr_window bucket t window s = (s', Ok (window_count (hist ++ [t]) t window)) ∧
        window_rep bucket window (hist ++ [t]) t s'.
Proof.
  intros Hw Hle Hrep. unfold incr_window. rewrite Hrep.
  change (λ t0, t - window <=? t0) with (in_window t window).
  assert (in_window t window t = true) as Ht by (apply Z.leb_le; lia).
  assert (keep (in_window t window) (keep (in_window last window) hist) ++ [t]
          = keep (in_window t window) (hist ++ [t])) as Hk.
  { rewrite keep_window_mono, keep_app by done. simpl. by rewrite Ht. }
  rewrite Hk. eexists. split; [reflexivity|]. unfold window_rep; cbn. by rewrite dget_dset_eq.
Qed.

Lemma serve_window_reference bucket window hist last times s :
  0 <= window → StronglySorted Z.le (last :: times) → window_rep bucket window hist last s →
  (serve_window bucket window times s).2 = reference_counts window hist times.
Proof.
  intros Hw. revert hist last s. induction times as [|t ts IH]; intros hist last s Hs Hrep; [done|].
  inversion Hs as [|? ? Hs' Hall]; subst. inversion Hall; subst.
  destruct (incr_window_rep bucket window hist last t s) as (s' & Hi & Hrep'); [done..|].
  cbn [serve_window]. rewrite Hi. specialize (IH (hist ++ [t]) t s' Hs' Hrep').
  destruct (serve_window bucket window ts s') as [s2 cs]; simpl in *. by f_equal.
Qed.

(** ** Quotas count the leases in use *)

Definition leases_in (bucket : string) (c : AdmissionControl) : Z :=
  Z.of_nat (length (keep (λ b, bool_decide (b = bucket)) (dvalues (ac_leases c)))).

Definition admission_inv (lim : AdmissionLimits) (c : AdmissionControl) : Prop :=
  dict_wf (ac_leases c) ∧
  ∀ b, quota_count b (ac_store c) = leases_in b c ∧ leases_in b c <= Z.max 0 (run_quota lim).

Definition AdmissionControl_init (ttl : Z) : AdmissionControl := mkAdmissionControl (MemoryStore_init ttl) [].

Lemma admission_inv_init lim ttl : admission_inv lim (AdmissionControl_init ttl).
Proof. split; [apply dict_wf_nil|]. intros b. unfold leases_in, dvalues; cbn. lia. Qed.

Lemma keep_dset_fresh {V} (p : V → bool) (k : string) (v : V) (d : dict string V) :
  dget k d = None → keep p (dvalues (dset k v d)) = keep p (dvalues d) ++ (if p v then [v] else []).
Proof.
  unfold dvalues. induction d as [|[k1 v1] d IH]; csimpl.
  - intros _. by destruct (p v).
  - case_decide; [done|]. intros Hn. csimpl. rewrite (IH Hn). by destruct (p v1).
Qed.

Lemma keep_ddel_length {V} (p : V → bool) (k : string) (v : V) (d : dict string V) :
  dict_wf d → dget k d = Some v →
  Z.of_nat (length (keep p (dvalues (ddel k d)))) =
    Z.of_nat (length (keep p (dvalues d))) - (if p v then 1 else 0).
Proof.
  unfold dvalues, dict_wf, dkeys. induction d as [|[k1 v1] d IH]; csimpl; [done|].
  intros [Hk Hd]%NoDup_cons. case_decide; subst.
  - intros [= ->]. rewrite ddel_not_in by (by apply dget_None). destruct (p v); csimpl; lia.
  - intros Hg. csimpl. specialize (IH Hd Hg). destruct (p v1); csimpl; lia.
Qed.

(** The three outcomes of [admit_run]. *)
Lemma admit_run_cases lim now lease req c c' d :
  admit_run lim now lease req c = (c', Ok d) →
  (ad_allowed d = false ∧ ac_leases c' = ac_leases c ∧ st_quotas (ac_store c') = st_quotas (ac_store c)) ∨
  (ad_allowed d = true ∧ ad_leaseId d = Some lease ∧
   quota_count (bucket_of req) (ac_store c) < run_quota lim ∧
   ac_leases c' = dset lease (bucket_of req) (ac_leases c) ∧
   st_quotas (ac_store c') =
     dset (bucket_of req) (quota_count (bucket_of req) (ac_store c) + 1) (st_quotas (ac_store c))).
Proof.
  unfold admit_run. destruct (incr_window _ now _ (ac_store c)) as [s1 r1] eqn:E.
  assert (st_quotas s1 = st_quotas (ac_store c)) as Hq by (by inversion E).
  destruct r1 as [n|e]; [|done]. destruct (rate_limit lim <? n); [intros [= <- <-]; by left|].
  unfold acquire_quota, quota_count. rewrite Hq.
  destruct (run_quota lim <=? _) eqn:El; intros [= <- <-]; bsimp; [by left|right]. by split_and!.
Qed.

Lemma admit_run_total lim now lease req c : ∃ c' d, admit_run lim now lease req c = (c', Ok d).
Proof.
  unfold admit_run, incr_window, acquire_quota. cbn. repeat case_if; eauto.
Qed.

Lemma admit_run_inv lim now lease req c :
  dget lease (ac_leases c) = None → admission_inv lim c →
  admission_inv lim (admit_run lim now lease req c).1.
Proof.
  intros Hfresh [Hw Hq]. destruct (admit_run_total lim now lease req c) as (c' & d & E). rewrite E; simpl.
  apply admit_run_cases in E as [(_ & Hl & Hst)|(_ & _ & Hlt & Hl & Hst)].
  - unfold admission_inv, leases_in, quota_count in *. by rewrite Hl, Hst.
  - split; [rewrite Hl; by apply dict_wf_dset|]. intros b. specialize (Hq b) as [Hqb Hmax].
    unfold leases_in, quota_count in *. rewrite Hl, Hst, dget_dset, keep_dset_fresh, length_app by done.
    destruct (decide (b = bucket_of req)) as [->|Hne].
    + rewrite bool_decide_true by done. simpl. lia.
    + rewrite bool_decide_false by done. simpl. lia.
Qed.

Lemma release_run_inv lim id c : admission_inv lim c → admission_inv lim (release_run id c).1.
Proof.
  intros [Hw Hq]. unfold release_run. destruct (dget id (ac_leases c)) as [bk|] eqn:E; [|done].
  split; cbn; [by apply dict_wf_ddel|]. intros b. specialize (Hq b) as [Hqb Hmax].
  unfold leases_in, quota_count in *; cbn in *.
  pose proof (keep_ddel_length (λ b', bool_decide (b' = b)) id bk _ Hw E) as Hd.
  rewrite Hd, dget_dset. destruct (decide (b = bk)) as [->|Hne].
  - rewrite bool_decide_true in * by done. simpl. lia.
  - rewrite bool_decide_false in * by done. simpl. lia.
Qed.

(** ** Traces *)

(** A step of the controller; an admission uses an id that is not in use. *)
Inductive admission_step (lim : AdmissionLimits) : AdmissionControl → AdmissionControl → Prop :=
  | admission_admit now lease req c :
      dget lease (ac_leases c) = None → admission_step lim c (admit_run lim now lease req c).1
  | admission_release id c : admission_step lim c (release_run id c).1.

Lemma admission_steps_inv lim c c' :
  rtc (admission_step lim) c c' → admission_inv lim c → admission_inv lim c'.
Proof.
  induction 1 as [|c1 c2 c3 Hstep _ IH]; [done|]. intros Hc. apply IH.
  destruct Hstep; [by apply admit_run_inv|by apply release_run_inv].
Qed.

(** ** Claims *)

(** C37: The rate window counts like its reference.  Serving requests at non-decreasing times, the pruned
    list the store keeps gives at each request exactly the number of all requests so far (this
    one included) that are not older than the window. *)
Theorem rate_window_matches_reference bucket window times ttl :
  0 <= window → StronglySorted Z.le times →
  (serve_window bucket window times (MemoryStore_init ttl)).2 = reference_counts window [] times.
Proof.
  intros Hw Hs. destruct times as [|t ts]; [done|].
  apply (serve_window_reference bucket window [] t); [done| |done].
  constructor; [done|]. inversion Hs as [|? ? _ Hall]; subst. constructor; [lia|done].
Qed.

(** C36: The run quota holds.  Along every sequence of admissions (with unused lease ids) and releases,
    each bucket's counter is the number of leases it has outstanding, and that number never
    exceeds the quota; an admission is granted only below it. *)
Theorem quota_never_exceeded lim ttl c :
  rtc (admission_step lim) (AdmissionControl_init ttl) c →
  (∀ b, quota_count b (ac_store c) = leases_in b c ∧ leases_in b c <= Z.max 0 (run_quota lim)) ∧
  ∀ now lease req, ∃ c' d, admit_run lim now lease req c = (c', Ok d) ∧
    (ad_allowed d = true → leases_in (bucket_of req) c < run_quota lim ∧ ad_leaseId d = Some lease).
Proof.
  intros Hs. pose proof (admission_steps_inv lim _ _ Hs (admission_inv_init lim ttl)) as [_ Hq]. split; [exact Hq|].
  intros now lease req. destruct (admit_run_total lim now lease req c) as (c' & d & E). exists c', d. split; [done|].
  intros Ha. apply admit_run_cases in E as [[Hno _]|(_ & Hl & Hlt & _)]; [congruence|].
  destruct (Hq (bucket_of req)) as [Hc _]. split; [lia|done].
Qed.

Module AdmissionExamples.

Lemma rate_window_matches_reference_witness :
  (serve_window "b" 10 [0; 4; 10; 15] (MemoryStore_init 0)).2 = [1; 2; 3; 2].
Proof.
  rewrite (rate_window_matches_reference "b" 10 [0; 4; 10; 15] 0); [reflexivity|lia|repeat constructor; lia].
Defined.

Definition request : AdmissionInput := mkAdmissionInput "p" "app" (Some "t1") None "run" 1.
Definition one_run : AdmissionControl := (admit_run default_limits 0 "adm_1" request (AdmissionControl_init 0)).1.

Lemma quota_never_exceeded_witness : quota_count "run:t1" (ac_store one_run) = 1 ∧ leases_in "run:t1" one_run <= 20.
Proof.
  destruct (quota_never_exceeded default_limits 0 one_run) as [Hq _].
  - apply rtc_once, admission_admit. reflexivity.
  - destruct (Hq "run:t1") as [H1 H2]. split; [rewrite H1; reflexivity|exact H2].
Defined.

End AdmissionExamples.
