(* ===== verification/Identity.v ===== *)
(** * Identity boundary (haas/identity.py)

    Bearer tokens map to principals; scope checks compare a principal with the
    tenant, workspace and user of a resource. *)

From S2P Require Import Prelude Errors Dict PyVal Records.

#[local] Open Scope string_scope.
#[local] Open Scope list_scope.

Record Principal := mkPrincipal {
  pr_principalId : string;
  pr_tenantId : option string;
  pr_workspaceId : option string;
  pr_roles : list string;
  pr_userIds : option (list string);
}.

(** [StaticTokenIdentityProvider.principals] *)
Definition principals (tokens : dict string Principal) : list Principal := dvalues tokens.

(** [StaticTokenIdentityProvider.authenticate] *)
Definition authenticate (tokens : dict string Principal) (authorization : option string) : result Principal :=
  match authorization with
  | None | Some EmptyString => Raise MissingCredentialError
  | Some a =>
      if negb (starts_with "Bearer " a) then Raise InvalidCredentialError
      else
        let token := strip (drop_str (String.length "Bearer ") a) in
        match dget token tokens with
        | None => Raise InvalidCredentialError
        | Some principal => Ok principal
        end
  end.

(** [StaticTokenIdentityProvider.owns] *)
Definition owns (p : Principal) (tenant_id workspace_id user_id : option string) : bool :=
  if is_some tenant_id && negb (bool_decide (pr_tenantId p = tenant_id)) then false
  else if is_some workspace_id && negb (bool_decide (pr_workspaceId p = workspace_id)) then false
  else match user_id, pr_userIds p with
       | Some u, Some us => bool_decide (u ∈ us)
       | _, _ => true
       end.

(** [StaticTokenIdentityProvider.is_admin] *)
Definition is_admin (p : Principal) : bool := bool_decide ("admin" ∈ pr_roles p).

(** [account_of] of haas/registry.py *)
Definition account_of (p : Principal) : AccountKey := (pr_tenantId p, pr_workspaceId p).

(** A grant comes from a configured token behind the scheme prefix; the two failures
    separate a missing header from a bad one. *)
Lemma authenticate_spec tokens auth :
  match authenticate tokens auth with
  | Ok p => ∃ rest, auth = Some ("Bearer " +:+ rest) ∧ dget (strip rest) tokens = Some p
  | Raise MissingCredentialError => auth = None ∨ auth = Some ""
  | Raise InvalidCredentialError =>
      ∃ a, auth = Some a ∧ a ≠ "" ∧
           ∀ rest, a = "Bearer " +:+ rest → dget (strip rest) tokens = None
  | Raise _ => False
  end.
Proof.
  unfold authenticate. destruct auth as [[|c a]|]; [by right| |by left].
  destruct (starts_with "Bearer " (String c a)) eqn:E; cbn [negb].
  - apply starts_with_inv in E as [rest Heq]. rewrite Heq, drop_str_app.
    destruct (dget (strip rest) tokens) eqn:Et; [eauto|].
    eexists. split_and!; [done|by rewrite <-Heq|]. intros rest' [=->]%(inj _). done.
  - eexists. split_and!; [done..|]. intros rest Heq. rewrite Heq, starts_with_app in E. done.
Qed.

(** Ownership is refused exactly when some requested scope differs from the principal's. *)
Lemma owns_spec p t w u :
  owns p t w u = true ↔
    (∀ x, t = Some x → pr_tenantId p = Some x) ∧ (∀ x, w = Some x → pr_workspaceId p = Some x) ∧
    (∀ x us, u = Some x → pr_userIds p = Some us → x ∈ us).
Proof.
  unfold owns. destruct t as [t|], w as [w|]; cbn;
    repeat (case_bool_decide; cbn); destruct u as [u|], (pr_userIds p) as [us|] eqn:E; cbn;
    try case_bool_decide; naive_solver.
Qed.

(** Authentication and ownership are decided by the configuration.  A principal is granted only for
    a configured token behind the [Bearer ] prefix (surrounding blanks ignored); a missing or
    empty header and a bad one raise different errors and nothing else is raised; ownership holds exactly
    when every requested tenant, workspace and (restricted) user is the principal's own. *)
Theorem identity_decided tokens auth :
  match authenticate tokens auth with
  | Ok p => (∃ rest, auth = Some ("Bearer " +:+ rest) ∧ dget (strip rest) tokens = Some p) ∧
      ∀ t w u, owns p t w u = true ↔
        (∀ x, t = Some x → pr_tenantId p = Some x) ∧ (∀ x, w = Some x → pr_workspaceId p = Some x) ∧
        (∀ x us, u = Some x → pr_userIds p = Some us → x ∈ us)
  | Raise MissingCredentialError => auth = None ∨ auth = Some ""
  | Raise InvalidCredentialError =>
      ∃ a, auth = Some a ∧ a ≠ "" ∧ ∀ rest, a = "Bearer " +:+ rest → dget (strip rest) tokens = None
  | Raise _ => False
  end.
Proof.
  pose proof (authenticate_spec tokens auth) as Ha. destruct (authenticate tokens auth) as [p|[]]; try done.
  split; [exact Ha|]. intros t w u. apply owns_spec.
Qed.
