(* ===== verification/Redact.v ===== *)
(** * Redaction (haas/security/redact.py)

    Values are walked recursively: a secret field loses its value, every other
    string goes through the text patterns.  The regular expressions themselves
    belong to Python's [re]; the pattern objects and their [sub]/[search] are an
    interface ([RegexEngine]). *)

From S2P Require Import Prelude Errors Dict PyVal.

#[local] Open Scope string_scope.
#[local] Open Scope list_scope.
#[local] Open Scope Z_scope.

(** Compiled patterns and the two calls the module makes on them.
    [inline_credential_sub] is [_INLINE_CREDENTIAL_VALUE.sub(...)], whose
    replacement keeps the groups around the value. *)
Class RegexEngine := {
  pattern : Type;
  re_sub : pattern → string → string → string;
  re_search : pattern → string → bool;
  inline_credential_sub : string → string;
  TOKEN_PATTERNS : list (string * pattern);
  CREDENTIAL_FIELD : pattern;
  ABSOLUTE_PATH_RE : pattern;
}.

Definition REDACTED : string := "[REDACTED]".
Definition REDACTED_URL : string := "[REDACTED_URL]".
Definition REDACTED_PATH : string := "[REDACTED_PATH]".
Definition HEADER_FIELD_NAMES : list string :=
  ["authorization"; "proxy-authorization"; "cookie"; "set-cookie"].

(** [RedactionContext]: [trace_content] is carried but not read. *)
Record RedactionContext := mkRedactionContext {
  rc_trace_content : bool;
  rc_redact_host_path : bool;
}.
Definition default_context : RedactionContext := mkRedactionContext false true.

Section redact.
Context `{RegexEngine}.

(** [_is_secret_field] *)
Definition is_secret_field (key : string) : bool :=
  bool_decide (lower key ∈ HEADER_FIELD_NAMES) || re_search CREDENTIAL_FIELD key.

(** [_redact_text] *)
Definition redact_text (ctx : RedactionContext) (text : string) : string :=
  let out := inline_credential_sub text in
  let out := foldl (λ (out : string) (nr : string * pattern),
    re_sub nr.2 (if bool_decide (nr.1 = "presigned_url") then REDACTED_URL else REDACTED) out)
    out TOKEN_PATTERNS in
  if rc_redact_host_path ctx then re_sub ABSOLUTE_PATH_RE REDACTED_PATH out else out.

(** [redact] *)
Fixpoint redact (ctx : RedactionContext) (value : pyval) : pyval :=
  match value with
  | PStr s => PStr (redact_text ctx s)
  | PDict d => PDict ((fix go (d : pydict) : pydict :=
      match d with
      | [] => []
      | (k, item) :: d' => (k, if is_secret_field k then PStr REDACTED else redact ctx item) :: go d'
      end) d)
  | PList l => PList ((fix go (l : list pyval) : list pyval :=
      match l with [] => [] | x :: l' => redact ctx x :: go l' end) l)
  | _ => value
  end.

(** [redact] of a dictionary, as the event log calls it. *)
Definition redact_item (ctx : RedactionContext) (kv : string * pyval) : string * pyval :=
  (kv.1, if is_secret_field kv.1 then PStr REDACTED else redact ctx kv.2).
Definition redact_dict (ctx : RedactionContext) (d : pydict) : pydict := redact_item ctx <$> d.

Lemma redact_PDict ctx d : redact ctx (PDict d) = PDict (redact_dict ctx d).
Proof. cbn. f_equal. induction d as [|[k v] d IH]; csimpl; [done|]. by rewrite IH. Qed.

Lemma redact_PList ctx l : redact ctx (PList l) = PList (redact ctx <$> l).
Proof. reflexivity. Qed.

(** [assert_no_secret_surface]: no token pattern in a string, no secret field name. *)
Fixpoint assert_no_secret_surface (node : pyval) : result unit :=
  match node with
  | PStr s =>
      if existsb (λ nr : string * pattern, re_search nr.2 s) TOKEN_PATTERNS
      then Raise (OtherError "SecretSurfaceError" None) else Ok tt
  | PDict d => (fix go (d : pydict) : result unit :=
      match d with
      | [] => Ok tt
      | (k, item) :: d' =>
          if is_secret_field k then Raise (OtherError "SecretSurfaceError" None)
          else assert_no_secret_surface item ≫= λ _, go d'
      end) d
  | PList l => (fix go (l : list pyval) : result unit :=
      match l with [] => Ok tt | x :: l' => assert_no_secret_surface x ≫= λ _, go l' end) l
  | _ => Ok tt
  end.

(** ** Paths into a value *)

Inductive step := SKey (k : string) | SIdx (i : nat).

Definition step_into (st : step) (v : pyval) : option pyval :=
  match st, v with
  | SKey k, PDict d => dget k d
  | SIdx i, PList l => l !! i
  | _, _ => None
  end.

Fixpoint value_at (path : list step) (v : pyval) : option pyval :=
  match path with
  | [] => Some v
  | st :: path' => step_into st v ≫= value_at path'
  end.

Definition secret_step (st : step) : bool := match st with SKey k => is_secret_field k | SIdx _ => false end.

Lemma dget_redact_dict ctx k d :
  dget k (redact_dict ctx d) =
    (λ v, if is_secret_field k then PStr REDACTED else redact ctx v) <$> dget k d.
Proof.
  unfold redact_dict. induction d as [|[k1 v1] d IH]; csimpl; [done|]. case_decide; [by subst|done].
Qed.

Lemma dkeys_redact_dict ctx d : dkeys (redact_dict ctx d) = dkeys d.
Proof. unfold dkeys, redact_dict. rewrite <-list_fmap_compose. by apply list_fmap_ext. Qed.

(** Where no secret field is crossed, redaction commutes with navigation. *)
Lemma value_at_redact ctx path v w :
  value_at path v = Some w → forallb (λ st, negb (secret_step st)) path = true →
  value_at path (redact ctx v) = Some (redact ctx w).
Proof.
  revert v. induction path as [|st path IH]; intros v; cbn [value_at forallb].
  - intros [= ->] _. done.
  - intros Hv Hp. apply andb_true_iff in Hp as [Hst Hp]. apply bind_Some in Hv as (u & Hu & Hw).
    destruct st as [k|i], v; try done; cbn in Hu, Hst.
    + rewrite redact_PDict; cbn. rewrite dget_redact_dict, Hu; cbn.
      apply negb_true_iff in Hst as ->. by apply IH.
    + rewrite redact_PList; cbn. rewrite list_lookup_fmap, Hu; cbn. by apply IH.
Qed.

(** A secret field below any path holds the placeholder and nothing else. *)
Lemma value_at_redact_secret ctx path k v w :
  value_at (path ++ [SKey k]) v = Some w → is_secret_field k = true →
  forallb (λ st, negb (secret_step st)) path = true →
  value_at (path ++ [SKey k]) (redact ctx v) = Some (PStr REDACTED).
Proof.
  revert v. induction path as [|st path IH]; intros v; cbn [app value_at forallb].
  - intros Hv Hs _. apply bind_Some in Hv as (u & Hu & _). destruct v; try done.
    rewrite redact_PDict; cbn in *. rewrite dget_redact_dict, Hu; cbn. by rewrite Hs.
  - intros Hv Hs Hp. apply andb_true_iff in Hp as [Hst Hp]. apply bind_Some in Hv as (u & Hu & Hw).
    destruct st as [k'|i], v; try done; cbn in Hu, Hst.
    + rewrite redact_PDict; cbn. rewrite dget_redact_dict, Hu; cbn.
      apply negb_true_iff in Hst as ->. by apply IH.
    + rewrite redact_PList; cbn. rewrite list_lookup_fmap, Hu; cbn. by apply IH.
Qed.

(** Nothing appears where nothing was. *)
Lemma value_at_redact_none ctx path v :
  value_at path v = None → forallb (λ st, negb (secret_step st)) path = true → value_at path (redact ctx v) = None.
Proof.
  revert v. induction path as [|st path IH]; intros v; cbn [value_at forallb]; [done|].
  intros Hv Hp. apply andb_true_iff in Hp as [Hst Hp]. destruct st as [k|i], v as [| | | | |l|d]; try done; cbn in Hst.
  - rewrite redact_PDict; cbn in *. rewrite dget_redact_dict. destruct (dget k d) as [u|]; cbn in *; [|done].
    apply negb_true_iff in Hst as ->. by apply IH.
  - rewrite redact_PList; cbn in *. rewrite list_lookup_fmap. destruct (l !! i) as [u|]; cbn in *; [by apply IH|done].
Qed.

(** ** What the patterns must have done, independently of [redact_text] *)

(** One substitution per token pattern, in the order of the table; a presigned URL has a placeholder of its own. *)
Inductive token_passes : list (string * pattern) → string → string → Prop :=
  | passes_nil s : token_passes [] s s
  | passes_cons name p l s t :
      token_passes l (re_sub p (if decide (name = "presigned_url") then "[REDACTED_URL]" else "[REDACTED]") s) t →
      token_passes ((name, p) :: l) s t.

(** Inline credentials, then the token patterns, then (unless the context keeps them) absolute paths. *)
Definition text_redacted (ctx : RedactionContext) (raw text : string) : Prop :=
  ∃ t, token_passes TOKEN_PATTERNS (inline_credential_sub raw) t ∧
    text = if rc_redact_host_path ctx then re_sub ABSOLUTE_PATH_RE "[REDACTED_PATH]" t else t.

(** The fields whose value is a secret. *)
Definition names_secret (key : string) : Prop :=
  lower key ∈ ["authorization"; "proxy-authorization"; "cookie"; "set-cookie"] ∨ re_search CREDENTIAL_FIELD key = true.

Lemma names_secret_spec key : names_secret key ↔ is_secret_field key = true.
Proof. unfold names_secret, is_secret_field. by rewrite orb_true_iff, bool_decide_eq_true. Qed.

Lemma redact_text_passes ctx raw : text_redacted ctx raw (redact_text ctx raw).
Proof.
  unfold text_redacted, redact_text. eexists. split; [|reflexivity]. generalize (inline_credential_sub raw).
  induction TOKEN_PATTERNS as [|[name p] l IH]; intros s; cbn [foldl]; [constructor|].
  constructor. cbn [fst snd]. replace (if decide (name = "presigned_url") then "[REDACTED_URL]" else "[REDACTED]")
    with (if bool_decide (name = "presigned_url") then REDACTED_URL else REDACTED); [apply IH|].
  by case_decide; [rewrite bool_decide_true|rewrite bool_decide_false].
Qed.

(** A text that no pattern matches passes unchanged. *)
Lemma token_passes_quiet l s t :
  (∀ p r s, re_search p s = false → re_sub p r s = s) → Forall (λ nr, re_search nr.2 s = false) l → token_passes l s t → t = s.
Proof.
  intros Hsub Hl Ht. induction Ht as [|name p l s t Ht IH]; [done|]. apply Forall_cons in Hl as [Hp Hl]. cbn in Hp.
  rewrite (Hsub _ _ _ Hp) in IH, Ht. by apply IH.
Qed.

Lemma text_redacted_quiet ctx s t :
  (∀ p r s, re_search p s = false → re_sub p r s = s) → inline_credential_sub s = s →
  Forall (λ nr, re_search nr.2 s = false) TOKEN_PATTERNS → re_search ABSOLUTE_PATH_RE s = false →
  text_redacted ctx s t → t = s.
Proof.
  intros Hsub Hi Ht Ha (u & Hu & ->). rewrite Hi in Hu. apply token_passes_quiet in Hu as ->; [|done..].
  destruct (rc_redact_host_path ctx); [by apply Hsub|done].
Qed.

(** A path into a value that crosses no secret field. *)
Definition ordinary (path : list step) : Prop := Forall (λ st, match st with SKey k => ¬ names_secret k | SIdx _ => True end) path.

Lemma ordinary_steps path : ordinary path → forallb (λ st, negb (secret_step st)) path = true.
Proof.
  intros Hp. apply forallb_forall. intros st Hst%list_elem_of_In. specialize (proj1 (Forall_forall _ _) Hp st Hst).
  destruct st as [k|i]; [|done]. cbn. rewrite names_secret_spec. by destruct (is_secret_field k).
Qed.

(** If the text patterns are stable on their own output, redaction is idempotent. *)
Lemma redact_idemp ctx v :
  (∀ s, redact_text ctx (redact_text ctx s) = redact_text ctx s) →
  redact ctx (redact ctx v) = redact ctx v.
Proof.
  intros Ht. induction v as [| | | |s|l IH|d IH] using pyval_nested_ind; try done.
  - cbn. by rewrite Ht.
  - rewrite !redact_PList. f_equal. rewrite <-list_fmap_compose. by apply Forall_fmap_ext_1.
  - rewrite !redact_PDict. f_equal. unfold redact_dict. rewrite <-list_fmap_compose.
    apply Forall_fmap_ext_1. eapply Forall_impl; [exact IH|]. intros [k x] Hx.
    unfold redact_item; cbn in *. by destruct (is_secret_field k); [|rewrite Hx].
Qed.

End redact.

(** ** UTF-8 text: code points, lines, byte slices *)

Definition byte_of (a : Ascii.ascii) : nat := Ascii.nat_of_ascii a.

(** A continuation byte (10xxxxxx). *)
Definition is_cont (a : Ascii.ascii) : bool := (128 <=? byte_of a)%nat && (byte_of a <? 192)%nat.

(** [len(s)]: code points. *)
Fixpoint cp_length (s : string) : nat :=
  match s with
  | EmptyString => 0
  | String a s' => if is_cont a then cp_length s' else S (cp_length s')
  end.

(** [s[:n]]: the first [n] code points. *)
Fixpoint cp_take (n : nat) (s : string) : string :=
  match s with
  | EmptyString => ""
  | String a s' =>
      if is_cont a then String a (cp_take n s')
      else match n with O => "" | S n' => String a (cp_take n' s') end
  end.

(** Length in bytes of the line boundary a string starts with, if it does:
    CR LF, LF, CR, VT, FF, FS, GS, RS, NEL, LS and PS, as [str.splitlines] has them. *)
Definition line_break (s : string) : option nat :=
  match s with
  | EmptyString => None
  | String a s1 =>
      let n := byte_of a in
      if (n =? 13)%nat then
        match s1 with String b _ => if (byte_of b =? 10)%nat then Some 2%nat else Some 1%nat | _ => Some 1%nat end
      else if ((10 <=? n)%nat && (n <=? 12)%nat) || ((28 <=? n)%nat && (n <=? 30)%nat) then Some 1%nat
      else if (n =? 194)%nat then
        match s1 with String b _ => if (byte_of b =? 133)%nat then Some 2%nat else None | _ => None end
      else if (n =? 226)%nat then
        match s1 with
        | String b (String c _) =>
            if (byte_of b =? 128)%nat && ((byte_of c =? 168)%nat || (byte_of c =? 169)%nat)
            then Some 3%nat else None
        | _ => None
        end
      else None
  end.

(** [s.splitlines()]: [cur] is the line being read, [skip] the bytes left of a boundary. *)
Fixpoint splitlines_go (skip : nat) (cur : string) (pending : bool) (s : string) : list string :=
  match s with
  | EmptyString => if pending then [cur] else []
  | String a s' =>
      match skip with
      | S k => splitlines_go k cur pending s'
      | O => match line_break s with
             | Some (S k) => cur :: splitlines_go k "" false s'
             | _ => splitlines_go 0 (cur +:+ String a "") true s'
             end
      end
  end.
Definition splitlines (s : string) : list string := splitlines_go 0 "" false s.

(** The first [n] bytes. *)
Fixpoint take_bytes (n : nat) (s : string) : string :=
  match n, s with
  | S n', String a s' => String a (take_bytes n' s')
  | _, _ => ""
  end.

(** [b[:n]]: a negative bound counts from the end. *)
Definition slice_to (n : Z) (s : string) : string :=
  if 0 <=? n then take_bytes (Z.to_nat n) s else take_bytes (String.length s - Z.to_nat (- n)) s.

(** [b[-n:]]: the last [n] bytes for a positive [n]; [b[-0:]] is all of [b], and a negative [n]
    drops from the front. *)
Definition slice_last (n : Z) (s : string) : string :=
  if 0 <? n then drop_str (String.length s - Z.to_nat n) s else drop_str (Z.to_nat (- n)) s.

(** [l[:n]] and [l[-n:]] of a list. *)
Definition list_to {A} (n : Z) (l : list A) : list A :=
  if 0 <=? n then take (Z.to_nat n) l else take (length l - Z.to_nat (- n)) l.
Definition list_last {A} (n : Z) (l : list A) : list A :=
  if 0 <? n then drop (length l - Z.to_nat n) l else drop (Z.to_nat (- n)) l.

(** Bytes a code point takes, from its first byte. *)
Definition cp_size (a : Ascii.ascii) : nat :=
  let n := byte_of a in
  if (n <? 128)%nat then 1%nat else if (n <? 224)%nat then 2%nat else if (n <? 240)%nat then 3%nat else 4%nat.

(** [decode("utf-8", errors="ignore")] of a slice of valid UTF-8: continuation bytes
    without a start are dropped, and so is a last code point that is cut short. *)
Fixpoint decode_ignore_go (left : nat) (s : string) : string :=
  match s with
  | EmptyString => ""
  | String a s' =>
      match left with
      | S k => String a (decode_ignore_go k s')
      | O =>
          if is_cont a then decode_ignore_go 0 s'
          else if (cp_size a <=? String.length s)%nat
               then String a (decode_ignore_go (cp_size a - 1) s')
               else ""
      end
  end.
Definition decode_ignore (s : string) : string := decode_ignore_go 0 s.

Section preview.
Context `{RegexEngine}.

(** [safe_upstream_body] *)
Definition safe_upstream_body (text : string) (limit : nat) : string :=
  match text with
  | EmptyString => "<empty>"
  | _ =>
      let safe := redact_text default_context text in
      if (limit <? cp_length safe)%nat then cp_take limit safe +:+ "...<truncated>" else safe
  end.

(** The head and tail lines a preview shows. *)
Definition visible_lines (max_lines : Z) (lines : list string) : list string :=
  if max_lines <? Z.of_nat (length lines) then
    let head_count := max_lines / 2 in
    list_to head_count lines ++ list_last (max_lines - head_count) lines
  else lines.

(** The head and tail bytes kept around a marker when a text is over its budget. *)
Definition clip_bytes (max_bytes : Z) (bounded : string) : string :=
  if Z.of_nat (String.length bounded) <=? max_bytes then bounded
  else
    let marker := String (Ascii.ascii_of_nat 10) ("..." +:+ String (Ascii.ascii_of_nat 10) "") in
    let head_bytes := (max_bytes - 5) / 2 in
    let tail_bytes := max_bytes - 5 - head_bytes in
    decode_ignore (slice_to head_bytes bounded) +:+ marker +:+
    decode_ignore (slice_last tail_bytes bounded).

(** [bounded_redacted_preview] *)
Definition bounded_redacted_preview (value : string) (max_lines max_bytes : Z) : string * Z :=
  let lines := splitlines (redact_text default_context value) in
  let bounded := join_with (String (Ascii.ascii_of_nat 10) "") (visible_lines max_lines lines) in
  (clip_bytes max_bytes bounded, Z.max 0 (Z.of_nat (length lines) - max_lines)).

End preview.

Lemma string_length_app s t : String.length (s +:+ t) = (String.length s + String.length t)%nat.
Proof. induction s as [|a s IH]; simpl; [done|by rewrite IH]. Qed.

Lemma decode_ignore_length s : (String.length (decode_ignore s) <= String.length s)%nat.
Proof.
  unfold decode_ignore. generalize 0%nat. induction s as [|a s IH]; intros k; cbn [decode_ignore_go]; [done|].
  destruct k; [destruct (is_cont a); [|destruct (_ <=? _)%nat]|]; cbn; try lia;
    match goal with |- context [decode_ignore_go ?k s] => specialize (IH k) end; lia.
Qed.

Lemma take_bytes_length n s : (String.length (take_bytes n s) <= n)%nat.
Proof. revert s. induction n as [|n IH]; intros [|a s]; cbn; try lia. specialize (IH s). lia. Qed.

Lemma drop_str_length n s : String.length (drop_str n s) = (String.length s - n)%nat.
Proof. revert s. induction n as [|n IH]; intros [|a s]; cbn; try lia. apply IH. Qed.

Lemma slice_to_length n s : 0 <= n → (String.length (slice_to n s) <= Z.to_nat n)%nat.
Proof. intros Hn. unfold slice_to. destruct (Z.leb_spec 0 n); [apply take_bytes_length|lia]. Qed.

Lemma slice_last_length n s : 0 < n → (String.length (slice_last n s) <= Z.to_nat n)%nat.
Proof. intros Hn. unfold slice_last. destruct (Z.ltb_spec 0 n); [|lia]. rewrite drop_str_length. lia. Qed.

(** A head and a tail cut to the two halves of a budget fit it together with the marker. *)
Lemma halves_length marker budget s :
  0 <= marker < budget →
  let h := (budget - marker) / 2 in
  Z.of_nat (String.length (decode_ignore (slice_to h s))) + marker +
    Z.of_nat (String.length (decode_ignore (slice_last (budget - marker - h) s))) <= budget.
Proof.
  intros Hm h. assert (0 <= h ∧ 2 * h <= budget - marker) as [Hh Hh2] by (unfold h; Z.to_euclidean_division_equations; lia).
  assert (0 < budget - marker - h) as Ht by lia.
  pose proof (decode_ignore_length (slice_to h s)). pose proof (slice_to_length h s Hh).
  pose proof (decode_ignore_length (slice_last (budget - marker - h) s)). pose proof (slice_last_length _ s Ht). lia.
Qed.

Lemma clip_bytes_length max_bytes s :
  6 <= max_bytes → Z.of_nat (String.length (clip_bytes max_bytes s)) <= max_bytes.
Proof.
  intros Hle. unfold clip_bytes. destruct (Z.leb_spec (Z.of_nat (String.length s)) max_bytes); [done|].
  pose proof (halves_length 5 max_bytes s) as Hh. cbn zeta in Hh. rewrite !string_length_app.
  change (String.length (String _ _)) with 5%nat. lia.
Qed.

Lemma visible_lines_length max_lines lines :
  1 <= max_lines → Z.of_nat (length (visible_lines max_lines lines)) <= max_lines.
Proof.
  intros Hm. unfold visible_lines. destruct (Z.ltb_spec max_lines (Z.of_nat (length lines))); [|lia].
  set (h := max_lines / 2). assert (0 <= h ∧ 2 * h <= max_lines) as [Hh Hh2] by (unfold h; Z.to_euclidean_division_equations; lia).
  unfold list_to, list_last. destruct (Z.leb_spec 0 h); [|lia]. destruct (Z.ltb_spec 0 (max_lines - h)); [|lia].
  rewrite length_app, length_take, length_drop. lia.
Qed.

(** ** Claims *)

(** C35: Redaction hides secrets at any depth and keeps the rest in place.  Below any path of ordinary fields and indices: a
    field with one of the four header names (in any case), or that the credential pattern is found in, holds the placeholder and
    nothing else; a text has gone through the inline-credential substitution, then the substitution of every token
    pattern of the table in order, each with its placeholder, and then that of absolute paths unless the context
    keeps them; numbers, booleans and null are unchanged, the keys of a dictionary and the length of a list too, and nothing
    appears where nothing was.  And if [re.sub] returns a text without a match as it is, a text that no pattern is found in is
    kept verbatim. *)
Theorem redaction_hides_secrets `{RegexEngine} ctx path v :
  ordinary path →
  (∀ k w, value_at (path ++ [SKey k]) v = Some w → names_secret k →
     value_at (path ++ [SKey k]) (redact ctx v) = Some (PStr "[REDACTED]")) ∧
  (∀ raw, value_at path v = Some (PStr raw) → ∃ text, value_at path (redact ctx v) = Some (PStr text) ∧
     text_redacted ctx raw text ∧
     ((∀ p r s, re_search p s = false → re_sub p r s = s) → inline_credential_sub raw = raw →
      Forall (λ nr, re_search nr.2 raw = false) TOKEN_PATTERNS → re_search ABSOLUTE_PATH_RE raw = false → text = raw)) ∧
  (∀ d, value_at path v = Some (PDict d) → ∃ d', value_at path (redact ctx v) = Some (PDict d') ∧ dkeys d' = dkeys d) ∧
  (∀ l, value_at path v = Some (PList l) → ∃ l', value_at path (redact ctx v) = Some (PList l') ∧ length l' = length l) ∧
  (∀ w, value_at path v = Some w → match w with PStr _ | PDict _ | PList _ => True | _ => value_at path (redact ctx v) = Some w end) ∧
  (value_at path v = None → value_at path (redact ctx v) = None).
Proof.
  intros Hp%ordinary_steps. split_and!.
  - intros k w Hw Hs%names_secret_spec. by eapply value_at_redact_secret.
  - intros raw Hw. exists (redact_text ctx raw). split; [by apply (value_at_redact ctx path v _ Hw)|].
    split; [apply redact_text_passes|]. intros. by eapply text_redacted_quiet; [..|apply redact_text_passes].
  - intros d Hd. exists (redact_dict ctx d). split; [|apply dkeys_redact_dict].
    rewrite (value_at_redact ctx path v _ Hd Hp). by rewrite redact_PDict.
  - intros l Hl. exists (redact ctx <$> l). split; [|by rewrite length_fmap].
    rewrite (value_at_redact ctx path v _ Hl Hp). by rewrite redact_PList.
  - intros w Hw. pose proof (value_at_redact ctx path v w Hw Hp). by destruct w.
  - intros Hn. by apply value_at_redact_none.
Qed.

(** A preview fits its budget.  With a line budget of at least one and a byte budget of at least
    six (one more than the cut marker), the preview of any text has at most that many bytes, at most that many
    lines are shown, and the number of omitted lines is exactly the excess; a budget of zero lines is
    not one: it shows every line and still reports them all as omitted. *)
Theorem preview_within_budget `{RegexEngine} value max_lines max_bytes :
  1 <= max_lines → 6 <= max_bytes →
  let lines := splitlines (redact_text default_context value) in
  Z.of_nat (String.length (bounded_redacted_preview value max_lines max_bytes).1) <= max_bytes ∧
  (bounded_redacted_preview value max_lines max_bytes).2 = Z.max 0 (Z.of_nat (length lines) - max_lines) ∧
  Z.of_nat (length (visible_lines max_lines lines)) <= max_lines ∧
  (Z.of_nat (length lines) <= max_lines → visible_lines max_lines lines = lines) ∧
  visible_lines 0 lines = lines.
Proof.
  intros Hl Hb lines. split_and!; [by apply clip_bytes_length|done|by apply visible_lines_length| |].
  - intros Hle. unfold visible_lines. destruct (Z.ltb_spec max_lines (Z.of_nat (length lines))); [lia|done].
  - unfold visible_lines. by destruct (0 <? _).
Qed.

Module RedactExamples.

#[local] Instance engine : RegexEngine := {|
  pattern := string; re_sub _ _ text := text; re_search p text := bool_decide (p = text);
  inline_credential_sub text := text; TOKEN_PATTERNS := []; CREDENTIAL_FIELD := "apiKey"; ABSOLUTE_PATH_RE := "";
|}.

(** An engine that replaces whole texts: a token, and a path. *)
Definition whole_text : RegexEngine := {|
  pattern := string; re_sub p r text := if bool_decide (p = text) then r else text; re_search p text := bool_decide (p = text);
  inline_credential_sub text := text; TOKEN_PATTERNS := [("jwt", "eyJ"); ("presigned_url", "Signature=1")];
  CREDENTIAL_FIELD := "apiKey"; ABSOLUTE_PATH_RE := "/etc/x" |}.

Definition sample : pyval :=
  PDict [("items", PList [PDict [("Authorization", PStr "Bearer x"); ("apiKey", PList []); ("note", PStr "hi"); ("url", PStr "Signature=1")]])].

Lemma redaction_hides_secrets_witness :
  let out := redact (H := whole_text) default_context sample in
  value_at [SKey "items"; SIdx 0; SKey "Authorization"] out = Some (PStr "[REDACTED]") ∧
  value_at [SKey "items"; SIdx 0; SKey "apiKey"] out = Some (PStr "[REDACTED]") ∧
  value_at [SKey "items"; SIdx 0; SKey "note"] out = Some (PStr "hi") ∧
  ∃ text, value_at [SKey "items"; SIdx 0; SKey "url"] out = Some (PStr text) ∧ text_redacted (H := whole_text) default_context "Signature=1" text.
Proof.
  assert (Hn : ∀ k, is_secret_field (H := whole_text) k = false → ¬ names_secret (H := whole_text) k)
    by (intros k Hk Hs%names_secret_spec; congruence).
  assert (Ho : ∀ k, is_secret_field (H := whole_text) k = false → ordinary (H := whole_text) [SKey "items"; SIdx 0; SKey k]).
  { intros k Hk. repeat constructor; apply Hn; [reflexivity|exact Hk]. }
  destruct (redaction_hides_secrets (H := whole_text) default_context [SKey "items"; SIdx 0] sample) as (Hsec & _);
    [repeat constructor; apply Hn; reflexivity|].
  cbv zeta. split; [apply (Hsec "Authorization" (PStr "Bearer x")); [reflexivity|left; left]|].
  split; [apply (Hsec "apiKey" (PList [])); [reflexivity|right; reflexivity]|]. split.
  - destruct (redaction_hides_secrets (H := whole_text) default_context _ sample (Ho "note" eq_refl)) as (_ & Ht & _).
    destruct (Ht "hi" eq_refl) as (text & -> & _ & Hk). rewrite Hk; [reflexivity| |reflexivity|repeat constructor|reflexivity].
    intros p r s Hs. cbn in *. by rewrite Hs.
  - destruct (redaction_hides_secrets (H := whole_text) default_context _ sample (Ho "url" eq_refl)) as (_ & Ht & _).
    destruct (Ht "Signature=1" eq_refl) as (text & E & Hp & _). exists text. split; [exact E|exact Hp].
Defined.

Example redacted_url : value_at [SKey "items"; SIdx 0; SKey "url"] (redact (H := whole_text) default_context sample) = Some (PStr "[REDACTED_URL]").
Proof. reflexivity. Qed.

Lemma preview_within_budget_witness :
  Z.of_nat (String.length (bounded_redacted_preview "abcdefghij" 3 8).1) <= 8.
Proof. exact (proj1 (preview_within_budget "abcdefghij" 3 8 ltac:(lia) ltac:(lia))). Defined.

End RedactExamples.
