(* ===== verification/Events.v ===== *)
(** * Event log and projections (haas/events.py)

    Harness events are typed, given their metadata, validated, redacted and
    appended to the store with the next sequence number of their invocation. *)

From S2P Require Import Prelude Errors Dict PyVal Records Store Redact EventStore.

#[local] Open Scope string_scope.
#[local] Open Scope list_scope.
#[local] Open Scope Z_scope.

(** [HarnessEvent] of haas/harnesses/base.py. *)
Record HarnessEvent := mkHarnessEvent {
  he_type : string;
  he_invocationId : string;
  he_sessionId : string;
  he_turnId : string;
  he_author : string;
  he_content : pydict;
  he_actions : pydict;
  he_nativeType : option string;
  he_usage : option pydict;
}.
#[export] Instance eta_HarnessEvent : Eta HarnessEvent := λ r, mkHarnessEvent
   (he_type r) (he_invocationId r) (he_sessionId r) (he_turnId r) (he_author r) (he_content r)
   (he_actions r) (he_nativeType r) (he_usage r).

Definition POLICY_UPDATE_TYPES : list string :=
  ["haas.delegation.policy_update_pending"; "haas.delegation.policy_update_applied";
   "haas.delegation.policy_update_failed"].

Definition INTERACTION_EVENT_TYPES : list string :=
  ["haas.approval.required"; "haas.approval.resolved"; "haas.input.required"; "haas.input.resolved"].

(** [_HARNESS_EVENT_TYPES] *)
Definition HARNESS_EVENT_TYPES : dict string string :=
  [("harness.text.delta", "haas.output.text.delta");
   ("harness.reasoning.delta", "haas.output.reasoning.delta");
   ("harness.output.item.completed", "haas.output.item.completed");
   ("harness.tool.started", "haas.tool.started");
   ("harness.tool.output", "haas.tool.output");
   ("harness.tool.completed", "haas.tool.completed");
   ("harness.tool.failed", "haas.tool.failed");
   ("harness.plan.updated", "haas.plan.updated")] ++
  ((λ t, (t, t)) <$> INTERACTION_EVENT_TYPES) ++
  [("harness.usage", "haas.usage.updated");
   ("harness.turn.started", "haas.turn.started");
   ("harness.turn.completed", "haas.turn.completed");
   ("harness.turn.failed", "haas.turn.failed");
   ("harness.turn.incomplete", "haas.turn.incomplete");
   ("harness.turn.interrupted", "haas.turn.interrupted");
   ("harness.turn.cancelled", "haas.turn.cancelled")].

Definition canonical_type (harness_type : string) : string :=
  default "haas.adapter.event_unparsed" (dget harness_type HARNESS_EVENT_TYPES).

Definition TERMINAL_STATUSES : list string :=
  ["completed"; "failed"; "incomplete"; "interrupted"; "cancelled"].

(** [for x in v]: lists give their items, strings and dictionaries give strings. *)
Definition iter_items (v : pyval) : result (list pyval) :=
  match v with
  | PList l => Ok l
  | PStr _ | PDict _ => Ok []   (* only strings would follow, which no test below accepts *)
  | _ => Raise TypeError
  end.

(** A part with a string [text]. *)
Definition text_part (v : pyval) : bool :=
  match v with PDict d => is_str (pget "text" d) | _ => false end.

(** [_infer_event_type] *)
Definition infer_event_type (content actions : pydict) : result string :=
  status ← or_empty_get "status" (pget "stateDelta" actions);
  terminal ← in_str_set status TERMINAL_STATUSES;
  if (terminal : bool) then
    match status with PStr st => Ok ("haas.turn." +:+ st) | _ => Raise TypeError end
  else
    parts ← iter_items (py_or (pget "parts" content) (PList []));
    Ok (if existsb text_part parts then "haas.output.text.delta" else "haas.adapter.event_unparsed").

Section metadata.
Context `{PyRepr} `{RegexEngine}.

(** [_infer_haas_metadata] *)
Definition infer_haas_metadata (type_ : string) (actions : pydict) : result pydict :=
  let delta := pget "stateDelta" actions in
  status_v ← or_empty_get "status" delta;
  let status := str_or status_v "" in
  if bool_decide (type_ = "haas.turn.completed") then Ok [("status", PStr "completed")]
  else if bool_decide (type_ = "haas.turn.cancelled") then Ok [("status", PStr "cancelled")]
  else if bool_decide (type_ = "haas.turn.interrupted") then
    Ok [("status", PStr "interrupted"); ("controlIntent", PStr "pause")]
  else if bool_decide (type_ = "haas.turn.failed") || bool_decide (type_ = "haas.turn.incomplete") then
    reason_v ← or_empty_get "reason" delta;
    let reason := str_or reason_v status in
    code_v ← or_empty_get "code" delta;
    let code := str_or code_v reason in
    retryable_v ← or_empty_get "retryable" delta;
    Ok [("status", PStr status); ("code", PStr code); ("safeReason", PStr reason);
        ("retryable", PBool (truthy retryable_v))]
  else if bool_decide (type_ = "haas.adapter.event_unparsed") then
    Ok [("safeReason", PStr "event_type_unparsed"); ("retryable", PBool false)]
  else Ok [].

(** Copy [key] when its value is an [int] and not a [bool]. *)
Definition copy_int (artifact : pydict) (metadata : pydict) (key : string) : pydict :=
  match pget key artifact with
  | PInt z => dset key (PInt z) metadata
  | _ => metadata
  end.

(** Copy [key] when its value is a non-empty string. *)
Definition copy_str (artifact : pydict) (metadata : pydict) (key : string) : pydict :=
  match pget key artifact with
  | PStr (String a s) => dset key (PStr (String a s)) metadata
  | _ => metadata
  end.

(** [_with_tool_activity_fields] *)
Definition with_tool_activity_fields (metadata : pydict) (artifact : pydict) : result pydict :=
  let activity_kind := pget "activityKind" artifact in
  known ← in_str_set activity_kind ["command"; "read"; "search"; "edit"; "tool"];
  let m := if (known : bool) then dset "activityKind" activity_kind metadata else metadata in
  let m := foldl (copy_int artifact) m ["durationMs"; "exitCode"; "evidenceExpiresAtMs"] in
  let m := foldl (copy_str artifact) m ["commandPreview"; "workingDirectory"; "evidenceRef"] in
  let m := copy_str artifact m "modelCallId" in
  match pget "outputPreview" artifact with
  | PStr (String a s) =>
      let (bounded, locally_omitted) := bounded_redacted_preview (String a s) 20 4096 in
      let omitted := match pget "omittedLineCount" artifact with PInt z => z | _ => 0 end in
      Ok (dset "omittedLineCount" (PInt (Z.max omitted locally_omitted))
            (dset "outputPreview" (PStr bounded) m))
  | _ => Ok m
  end.

(** The three fields of a tool event. *)
Definition tool_head (artifact : pydict) : pydict :=
  [("toolCallId", PStr (str_or (pget "toolCallId" artifact) ""));
   ("toolName", PStr (str_or (pget "toolName" artifact) "unknown"))].

(** [v.get(...)] needs a dictionary. *)
Definition need_dict (v : pyval) : result pydict :=
  match v with PDict d => Ok d | _ => Raise AttributeError end.

(** [dict(v)] for a truthy [v]: a dictionary, or a list of string-keyed pairs. *)
Fixpoint dict_of_pairs (l : list pyval) (d : pydict) : result pydict :=
  match l with
  | [] => Ok d
  | PList [PStr k; v] :: l' => dict_of_pairs l' (dset k v d)
  | _ => Raise TypeError
  end.
Definition dict_of (v : pyval) : result pydict :=
  match v with PDict d => Ok d | PList l => dict_of_pairs l [] | _ => Raise TypeError end.

(** [_harness_event_metadata] *)
Definition harness_event_metadata (type_ : string) (event : HarnessEvent) : result pydict :=
  let state := py_or (pget "stateDelta" (he_actions event)) (PDict []) in
  let artifact := py_or (pget "artifactDelta" (he_actions event)) (PDict []) in
  let native_metadata := py_or (pget "haas" (he_actions event)) (PDict []) in
  if bool_decide (type_ ∈ ["haas.output.text.delta"; "haas.output.reasoning.delta";
                           "haas.output.item.completed"]) then
    Ok (keep (λ kv : string * pyval,
          bool_decide (kv.1 ∈ ["itemId"; "modelCallId"; "messagePhase"; "summaryIndex"]) &&
          negb (is_none kv.2)) (as_dict native_metadata))
  else if bool_decide (type_ = "haas.tool.started") then
    a ← need_dict artifact;
    with_tool_activity_fields
      (tool_head a ++ [("safeSummary", PStr (str_or (pget "safeSummary" a) "Tool started"))]) a
  else if bool_decide (type_ = "haas.tool.output") then
    a ← need_dict artifact;
    with_tool_activity_fields
      (tool_head a ++ [("safeSummary", PStr (str_or (pget "safeSummary" a) "Tool produced output"))]) a
  else if bool_decide (type_ = "haas.tool.completed") then
    a ← need_dict artifact;
    with_tool_activity_fields (tool_head a ++ [("status", PStr "completed")]) a
  else if bool_decide (type_ = "haas.tool.failed") then
    a ← need_dict artifact;
    with_tool_activity_fields
      (tool_head a ++ [("status", PStr "failed");
         ("code", PStr (str_or (pget "code" a) "tool_failed"));
         ("safeReason", PStr (str_or (pget "safeReason" a) "Tool failed"));
         ("retryable", PBool (truthy (pget "retryable" a)))]) a
  else if bool_decide (type_ ∈ INTERACTION_EVENT_TYPES) then Ok (as_dict native_metadata)
  else if bool_decide (type_ = "haas.usage.updated") then
    let usage := opt_dict_val (he_usage event) in
    usage_v ← (if truthy usage then Ok usage
               else u ← vget "usage" state; Ok (py_or u (PDict [])));
    usage_d ← dict_of usage_v;
    Ok (match native_metadata with
        | PDict nm =>
            foldl (λ (m : pydict) key, if is_none (pget key nm) then m else dset key (pget key nm) m)
              [("usage", PDict usage_d)] ["scope"; "modelCallId"; "cumulativeUsage"]
        | _ => [("usage", PDict usage_d)]
        end)
  else if bool_decide (type_ = "haas.plan.updated") then Ok (as_dict native_metadata)
  else if bool_decide (type_ = "haas.turn.started") then Ok [("status", PStr "running")]
  else if starts_with "haas.turn." type_ then infer_haas_metadata type_ (he_actions event)
  else if bool_decide (type_ = "haas.adapter.event_unparsed") then
    Ok [("safeReason", PStr "event_type_unparsed"); ("retryable", PBool false)]
  else Ok [].

End metadata.

(** ** Validation of typed metadata *)

Definition interaction_required (type_ : string) : option (list string) :=
  dget type_
    [("haas.approval.required",
      ["approvalId"; "kind"; "safeSummary"; "policyReason"; "availableDecisions"; "expiresAtMs"]);
     ("haas.approval.resolved", ["approvalId"; "status"]);
     ("haas.input.required", ["inputRequestId"; "questions"; "blocking"; "expiresAtMs"]);
     ("haas.input.resolved", ["inputRequestId"; "status"])].

Definition nonneg_int (v : pyval) : bool := is_int v && (0 <=? int_of v).

(** The plan counters: three non-negative integers that add up to the total. *)
Definition plan_ok (haas : pydict) : bool :=
  match pget "counts" haas with
  | PDict counts =>
      keys_are counts ["pending"; "inProgress"; "completed"] &&
      forallb nonneg_int (dvalues counts) &&
      nonneg_int (pget "total" haas) &&
      (foldr (λ v acc, int_of v + acc) 0 (dvalues counts) =? int_of (pget "total" haas))
  | _ => false
  end.

Definition nonempty_str (v : pyval) : bool := is_str v && truthy v.

Definition ARTIFACT_FIELDS : list string :=
  ["fileId"; "relativePath"; "mediaType"; "bytes"; "invocationId"; "previewStatus"; "downloadStatus"].

(** The conditions before the status pair, in the order of the source. *)
Definition artifact_fields_ok (haas : pydict) : bool :=
  keys_are haas ARTIFACT_FIELDS &&
  match pget "fileId" haas with PStr s => starts_with "file_" s | _ => false end &&
  nonempty_str (pget "relativePath" haas) && nonempty_str (pget "mediaType" haas) &&
  match pget "bytes" haas with PInt z => 0 <=? z | _ => false end &&
  nonempty_str (pget "invocationId" haas).

(** [(a, b) in {(..), ..}]: a tuple with an unhashable member raises. *)
Definition hashable (v : pyval) : bool := match v with PList _ | PDict _ => false | _ => true end.
Definition artifact_status_ok (haas : pydict) : result bool :=
  let a := pget "previewStatus" haas in
  let b := pget "downloadStatus" haas in
  if hashable a && hashable b then
    Ok (match a, b with
        | PStr x, PStr y =>
            bool_decide ((x, y) ∈ [("available", "available"); ("download_only", "available");
                                   ("unavailable", "unavailable")])
        | _, _ => false
        end)
  else Raise TypeError.

(** [_validate_typed_metadata] *)
Definition validate_typed_metadata (type_ : string) (haas : pydict) : result unit :=
  if bool_decide (type_ = "haas.plan.updated") then
    ensure (plan_ok haas) (ValueError "invalid typed plan metadata")
  else if bool_decide (type_ = "haas.artifact.registered") then
    if negb (artifact_fields_ok haas) then Raise (ValueError "invalid typed artifact metadata")
    else ok ← artifact_status_ok haas;
         ensure ok (ValueError "invalid typed artifact metadata")
  else match interaction_required type_ with
  | Some required => ensure (has_keys haas required) (ValueError "missing typed event metadata")
  | None =>
      if negb (bool_decide (type_ ∈ POLICY_UPDATE_TYPES)) then Ok tt
      else
        let required := ["delegatedSessionId"; "updateId"; "revision"; "fields"] ++
          (if bool_decide (type_ = "haas.delegation.policy_update_failed")
           then ["code"; "safeReason"] else []) in
        ensure (has_keys haas required) (ValueError "missing typed event metadata")
  end.

(** ** EventLog *)

Section event_log.
Context `{PyRepr} `{RegexEngine}.

Definition redact_default (d : pydict) : pydict := redact_dict default_context d.

(** [EventLog.append_typed]; [now] is the event's [observedAtMs]. *)
Definition append_typed (now : Z) (type_ app_name user_id : string) (invocation_id : option string)
    (session_id : string) (turn_id : option string) (harness_id adapter_id author : string)
    (content actions haas : pydict) : store_m CanonicalEventRecord :=
  _ ← lift (validate_typed_metadata type_ haas);
  let key := (app_name, user_id, session_id) in
  existing ← (match invocation_id with
              | Some inv => gets (read_invocation key inv (-1))
              | None => λ s, (s, read_session key None s)
              end : store_m (list CanonicalEventRecord));
  event_id ← next_event_id;
  let event := mkEvent event_id invocation_id session_id turn_id author
    (Z.of_nat (length existing)) (redact_default content) (redact_default actions)
    type_ (redact_default haas) 2 now true harness_id adapter_id app_name user_id in
  _ ← append_event event;
  mret event.

(** [EventLog.append] *)
Definition append (now : Z) (app_name user_id invocation_id session_id turn_id harness_id adapter_id author : string)
    (content actions : pydict) : store_m CanonicalEventRecord :=
  event_type ← lift (infer_event_type content actions);
  haas ← lift (infer_haas_metadata event_type actions);
  append_typed now event_type app_name user_id (Some invocation_id) session_id (Some turn_id)
    harness_id adapter_id author content actions haas.

(** [EventLog.append_harness_event] *)
Definition append_harness_event (now : Z) (event : HarnessEvent) (app_name user_id harness_id adapter_id : string)
    : store_m CanonicalEventRecord :=
  let type_ := canonical_type (he_type event) in
  haas ← lift (harness_event_metadata type_ event);
  append_typed now type_ app_name user_id (Some (he_invocationId event)) (he_sessionId event)
    (Some (he_turnId event)) harness_id adapter_id (he_author event)
    (he_content event) (he_actions event) haas.

(** [EventLog.project_adk]: the timestamp is a float division. *)
Definition project_adk (event : CanonicalEventRecord) : pydict :=
  [("id", PStr (e_eventId event)); ("invocationId", opt_str_val (e_invocationId event));
   ("author", PStr (e_author event));
   ("timestamp", PFloat (float_div (float_of_Z (e_observedAtMs event)) (float_of_Z 1000)));
   ("content", PDict (e_content event)); ("actions", PDict (e_actions event));
   ("longRunningToolIds", PList [])].

(** [asdict(event)] *)
Definition event_asdict (event : CanonicalEventRecord) : pydict :=
  [("eventId", PStr (e_eventId event)); ("invocationId", opt_str_val (e_invocationId event));
   ("sessionId", PStr (e_sessionId event)); ("turnId", opt_str_val (e_turnId event));
   ("author", PStr (e_author event)); ("sequenceNumber", PInt (e_sequenceNumber event));
   ("content", PDict (e_content event)); ("actions", PDict (e_actions event));
   ("type", PStr (e_type event)); ("haas", PDict (e_haas event));
   ("schemaVersion", PInt (e_schemaVersion event)); ("observedAtMs", PInt (e_observedAtMs event));
   ("redactionApplied", PBool (e_redactionApplied event)); ("harnessId", PStr (e_harnessId event));
   ("adapterId", PStr (e_adapterId event)); ("appName", PStr (e_appName event));
   ("userId", PStr (e_userId event))].

(** [EventLog.project_haas] *)
Definition project_haas (event : CanonicalEventRecord) : pydict :=
  ddel_all ["userId"; "adapterId"; "schemaVersion"; "redactionApplied"] (event_asdict event).

End event_log.

(** ** The log invariant is kept by every append *)

Section log_invariant.
Context `{PyRepr} `{RegexEngine}.

(** The event [append_typed] writes. *)
Definition typed_event (now : Z) (type_ app user : string) (inv : option string) (sid : string)
    (turn : option string) (hid aid author : string) (content actions haas : pydict) (s : MemoryStore)
    : CanonicalEventRecord :=
  mkEvent (format_event_id (st_next_event_number s)) inv sid turn author
    (Z.of_nat (length match inv with
                      | Some i => read_invocation (app, user, sid) i (-1) s
                      | None => session_events (app, user, sid) s
                      end))
    (redact_default content) (redact_default actions) type_ (redact_default haas) 2 now true hid aid app user.

Lemma append_typed_eq now ty app user inv sid turn hid aid author content actions haas s :
  append_typed now ty app user inv sid turn hid aid author content actions haas s =
  match validate_typed_metadata ty haas with
  | Raise e => (s, Raise e)
  | Ok _ =>
      let ev := typed_event now ty app user inv sid turn hid aid author content actions haas s in
      ((append_event ev (s <| st_next_event_number := (st_next_event_number s + 1)%N |>)).1, Ok ev)
  end.
Proof.
  unfold append_typed, mbind, M_bind, lift.
  destruct (validate_typed_metadata ty haas) as [[]|e]; [|done].
  by destruct inv.
Qed.

Lemma session_events_number key s n :
  session_events key (s <| st_next_event_number := n |>) = session_events key s.
Proof. done. Qed.

Lemma append_fresh_log e s :
  log_inv s →
  e_eventId e = format_event_id (st_next_event_number s) →
  (∀ inv, e_invocationId e = Some inv →
     e_sequenceNumber e = Z.of_nat (length (invocation_events (event_session_key e) inv s))) →
  log_inv (append_event e (s <| st_next_event_number := (st_next_event_number s + 1)%N |>)).1.
Proof.
  intros (Hids & Hkey & Hdense) Heid Hseq.
  set (s1 := s <| st_next_event_number := (st_next_event_number s + 1)%N |>).
  assert (st_next_event_number (append_event e s1).1 = st_next_event_number s + 1)%N as Hn.
  { unfold append_event, modify; cbn. rewrite Heid, parse_format_event_id. lia. }
  split_and!.
  - intros key. rewrite Hn, session_events_append. unfold s1. rewrite session_events_number.
    case_decide; [|rewrite app_nil_r; eapply ids_below_mono; [apply Hids|lia]].
    eapply ids_below_snoc; [apply Hids|done|done].
  - intros key e'. rewrite session_events_append. unfold s1. rewrite session_events_number.
    case_decide; [|rewrite app_nil_r; apply Hkey]. intros [Hin|Hin]%elem_of_app; [by apply Hkey|].
    apply list_elem_of_singleton in Hin as ->. done.
  - intros key inv. rewrite invocation_events_append.
    change (invocation_events key inv s1) with (invocation_events key inv s).
    case_decide as Hd; [|rewrite app_nil_r; apply Hdense]. destruct Hd as [-> Hi].
    apply dense_from_snoc; [apply Hdense|]. rewrite (Hseq inv) by done. lia.
Qed.

Lemma append_fresh_inv e s :
  events_inv s →
  e_eventId e = format_event_id (st_next_event_number s) →
  (∀ inv, e_invocationId e = Some inv →
     e_sequenceNumber e = Z.of_nat (length (invocation_events (event_session_key e) inv s))) →
  events_inv (append_event e (s <| st_next_event_number := (st_next_event_number s + 1)%N |>)).1.
Proof.
  intros [Hlog Hproj] Heid Hseq. split; [by apply append_fresh_log|].
  intros key inv. rewrite session_events_append, invocation_events_append, keep_app.
  change (invocation_events key inv (s <| st_next_event_number := (st_next_event_number s + 1)%N |>))
    with (invocation_events key inv s).
  rewrite session_events_number, Hproj. f_equal.
  repeat case_decide; simpl; try case_bool_decide; naive_solver.
Qed.

Lemma read_invocation_all key inv s :
  log_inv s → read_invocation key inv (-1) s = invocation_events key inv s.
Proof.
  intros (_ & _ & Hd). unfold read_invocation. fold (invocation_events key inv s).
  rewrite (dense_from_sorted 0) by apply Hd. rewrite (dense_read_after 0) by (apply Hd || lia). done.
Qed.

Lemma append_typed_log now ty app user inv sid turn hid aid author content actions haas :
  preserves log_inv (append_typed now ty app user inv sid turn hid aid author content actions haas).
Proof.
  intros s Hs. rewrite append_typed_eq. destruct (validate_typed_metadata ty haas) as [[]|e]; [|done].
  cbn [fst]. apply append_fresh_log; [done|done|]. intros i; cbn. intros ->.
  by rewrite read_invocation_all.
Qed.

Lemma append_harness_event_log now ev app user hid aid :
  preserves log_inv (append_harness_event now ev app user hid aid).
Proof.
  unfold append_harness_event. apply preserves_bind; [apply preserves_lift|intros]. apply append_typed_log.
Qed.

Lemma append_typed_inv now ty app user inv sid turn hid aid author content actions haas :
  preserves events_inv (append_typed now ty app user inv sid turn hid aid author content actions haas).
Proof.
  intros s Hs. rewrite append_typed_eq. destruct (validate_typed_metadata ty haas) as [[]|e]; [|done].
  cbn [fst]. apply append_fresh_inv; [done|done|]. intros i; cbn. intros ->.
  by rewrite read_invocation_all by apply Hs.
Qed.

Lemma append_inv now app user inv sid turn hid aid author content actions :
  preserves events_inv (append now app user inv sid turn hid aid author content actions).
Proof.
  unfold append. apply preserves_bind; [apply preserves_lift|intros]. apply preserves_bind; [apply preserves_lift|intros].
  apply append_typed_inv.
Qed.

Lemma append_harness_event_inv now ev app user hid aid :
  preserves events_inv (append_harness_event now ev app user hid aid).
Proof.
  unfold append_harness_event. apply preserves_bind; [apply preserves_lift|intros]. apply append_typed_inv.
Qed.

End log_invariant.

#[export] Hint Resolve events_inv_init append_typed_inv append_inv append_harness_event_inv : haas.

Lemma find_index_id (l : list CanonicalEventRecord) i e :
  NoDup (e_eventId <$> l) → l !! i = Some e → find_index (λ x, bool_decide (e_eventId x = e_eventId e)) l = Some i.
Proof.
  revert i. induction l as [|x l IH]; intros i; [done|]. csimpl. intros [Hx Hl]%NoDup_cons. destruct i as [|i]; cbn.
  - intros [= ->]. by rewrite bool_decide_eq_true_2.
  - intros Hi. rewrite bool_decide_eq_false_2; [by rewrite (IH i)|].
    intros Heq. apply Hx. rewrite Heq. apply list_elem_of_fmap_2. by eapply list_elem_of_lookup_2.
Qed.

(** ** Claims *)

(** A client that resumes misses nothing and sees nothing twice.  In a consistent log, reading a session after the
    id of one of its events returns exactly the events behind it, an unknown cursor is an
    error, and reading an invocation after a sequence number returns exactly the events above it, so what was read up
    to the cursor followed by what is read after it is the whole list. *)
Theorem replay_resumes_exactly key inv s :
  log_inv s →
  (∀ i e, session_events key s !! i = Some e →
     read_session key (Some (e_eventId e)) s = Ok (drop (S i) (session_events key s)) ∧
     take (S i) (session_events key s) ++ drop (S i) (session_events key s) = session_events key s) ∧
  (∀ cursor, cursor ∉ e_eventId <$> session_events key s →
     read_session key (Some cursor) s = Raise (CursorNotFoundError cursor)) ∧
  (∀ n, (n <= length (invocation_events key inv s))%nat →
     read_invocation key inv (Z.of_nat n - 1) s = drop n (invocation_events key inv s)).
Proof.
  intros (Hids & _ & Hd). split_and!.
  - intros i e Hi. split; [|by rewrite take_drop]. unfold read_session. fold (session_events key s).
    rewrite (find_index_id _ i e); [done|apply (ids_below_NoDup _ _ (Hids key))|done].
  - intros cursor Hc. unfold read_session. fold (session_events key s).
    assert (find_index (λ e, bool_decide (e_eventId e = cursor)) (session_events key s) = None) as ->; [|done].
    apply find_index_None, Forall_forall. intros e He. apply bool_decide_eq_false. intros <-. apply Hc.
    by apply list_elem_of_fmap_2.
  - intros n Hn. unfold read_invocation. fold (invocation_events key inv s).
    rewrite (dense_from_sorted 0), (dense_read_after 0) by (apply Hd || lia). f_equal. lia.
Qed.

(** An append is validated, redacted, and all or nothing.  If the typed metadata is not valid the call raises and
    the store is exactly as before; otherwise one event is added at the end of its session
    and of its invocation, with the next id and the next sequence number, and its content, actions and
    metadata are the redacted ones. *)
Theorem append_all_or_nothing `{PyRepr} `{RegexEngine} now ty app user inv sid turn hid aid author content actions haas s :
  log_inv s →
  let key := (app, user, sid) in
  match append_typed now ty app user (Some inv) sid turn hid aid author content actions haas s with
  | (s', Raise e) => s' = s ∧ validate_typed_metadata ty haas = Raise e
  | (s', Ok ev) =>
      validate_typed_metadata ty haas = Ok tt ∧ log_inv s' ∧
      session_events key s' = session_events key s ++ [ev] ∧
      invocation_events key inv s' = invocation_events key inv s ++ [ev] ∧
      e_sequenceNumber ev = Z.of_nat (length (invocation_events key inv s)) ∧
      e_eventId ev ∉ e_eventId <$> session_events key s ∧
      e_content ev = redact_default content ∧ e_actions ev = redact_default actions ∧ e_haas ev = redact_default haas
  end.
Proof.
  intros Hs key.
  pose proof (append_typed_log now ty app user (Some inv) sid turn hid aid author content actions haas s Hs) as Hs'.
  rewrite append_typed_eq in *. destruct (validate_typed_metadata ty haas) as [[]|e]; [|done]. cbn [fst] in Hs'.
  set (ev := typed_event _ _ _ _ _ _ _ _ _ _ _ _ _ _) in *.
  assert (session_events key (append_event ev (s <| st_next_event_number := (st_next_event_number s + 1)%N |>)).1 =
          session_events key s ++ [ev]) as Hse by (rewrite session_events_append; by case_decide).
  split_and!; try done.
  - rewrite invocation_events_append. case_decide as Hn; [done|]. destruct Hn. by split.
  - cbn. by rewrite read_invocation_all.
  - destruct Hs' as (Hids & _). pose proof (ids_below_NoDup _ _ (Hids key)) as Hnd. rewrite Hse, fmap_app in Hnd.
    apply NoDup_app in Hnd as (_ & Hnd & _). intros Hin. apply (Hnd _ Hin). cbn. by left.
Qed.

Module EventExamples.

#[local] Instance no_repr : PyRepr := λ _, "".
#[local] Instance engine : RegexEngine := RedactExamples.engine.

Definition key : SessionKey := ("app", "u", "s").
Definition add (ty : string) (haas : pydict) : store_m CanonicalEventRecord :=
  append_typed 5 ty "app" "u" (Some "inv") "s" (Some "turn") "h" "a" "haas" [] [] haas.
Definition two_events : MemoryStore :=
  ((_ ← add "haas.text.delta" [("text", PStr "a")]; add "haas.text.delta" [("text", PStr "b")]) (MemoryStore_init 0)).1.

Lemma two_events_log : log_inv two_events.
Proof. unfold two_events. apply bind_at; [apply append_typed_log, log_inv_init|intros; apply append_typed_log]. Qed.

Lemma replay_resumes_exactly_witness :
  ∃ e1 e2, session_events key two_events = [e1; e2] ∧ read_session key (Some (e_eventId e1)) two_events = Ok [e2].
Proof.
  destruct (session_events key two_events) as [|e1 [|e2 [|e3 l]]] eqn:E; try (vm_compute in E; discriminate E).
  exists e1, e2. split; [reflexivity|].
  destruct (replay_resumes_exactly key "inv" two_events two_events_log) as [Hr _]. rewrite E in Hr.
  exact (proj1 (Hr 0%nat e1 eq_refl)).
Defined.

Lemma append_all_or_nothing_witness :
  (add "haas.artifact.registered" [] two_events).1 = two_events ∧
  length (session_events key (add "haas.text.delta" [("text", PStr "c")] two_events).1) = 3%nat.
Proof.
  split.
  - pose proof (append_all_or_nothing 5 "haas.artifact.registered" "app" "u" "inv" "s" (Some "turn") "h" "a" "haas" [] [] []
      two_events two_events_log) as Ha. fold (add "haas.artifact.registered" []) in Ha. cbv zeta in Ha.
    destruct (add "haas.artifact.registered" [] two_events) as [s' [ev|e]] eqn:E; [|exact (proj1 Ha)].
    destruct Ha as [Hv _]. vm_compute in Hv. discriminate Hv.
  - pose proof (append_all_or_nothing 5 "haas.text.delta" "app" "u" "inv" "s" (Some "turn") "h" "a" "haas" [] []
      [("text", PStr "c")] two_events two_events_log) as Ha. fold (add "haas.text.delta" [("text", PStr "c")]) in Ha.
    cbv zeta in Ha. destruct (add "haas.text.delta" [("text", PStr "c")] two_events) as [s' [ev|e]] eqn:E.
    + destruct Ha as (_ & _ & Hl & _). cbn [fst]. unfold key. rewrite Hl, length_app. vm_compute. reflexivity.
    + destruct Ha as [_ Hv]. vm_compute in Hv. discriminate Hv.
Defined.

End EventExamples.
