(* ===== verification/Policy.v ===== *)
(** * Policy compilation and authorization (haas/policy/models.py, haas/policy/controller.py)

    Layers are merged from broad to narrow; until some layer delegates, a layer may
    only narrow what the layers above it allow.  The compiled policy then decides
    network and workspace-path requests.  Path resolution ([pathlib]), URL parsing
    ([urllib.parse]) and address classification ([ipaddress]) are interfaces. *)

From S2P Require Import Prelude Errors Dict PyVal.

#[local] Open Scope string_scope.
#[local] Open Scope list_scope.
#[local] Open Scope Z_scope.

(** ** Models *)

Record PolicyScope := mkPolicyScope {
  sc_tenantId : string; sc_workspaceId : string; sc_harnessId : string; sc_sessionId : string;
}.
Record WorkspacePolicy := mkWorkspacePolicy {
  wp_mode : string; wp_root : string; wp_writableRoots : list string;
}.
Record NetworkPolicy := mkNetworkPolicy { np_defaultAction : string; np_allow : list string }.
Record ToolsPolicy := mkToolsPolicy { tp_disabled : list string; tp_approvalMode : string }.
Record ModelPolicy := mkModelPolicy { mp_allowedModels : list string; mp_fallbackModel : string }.
Record EffectivePolicy := mkEffectivePolicy {
  ep_policyId : string; ep_version : Z; ep_scope : PolicyScope; ep_workspace : WorkspacePolicy;
  ep_network : NetworkPolicy; ep_tools : ToolsPolicy; ep_model : ModelPolicy;
}.
Record PolicyLayer := mkPolicyLayer {
  pl_name : string; pl_workspace : option WorkspacePolicy; pl_network : option NetworkPolicy;
  pl_tools : option ToolsPolicy; pl_model : option ModelPolicy; pl_delegation : bool;
}.
Record PolicyCompileInput := mkPolicyCompileInput { ci_scope : PolicyScope; ci_layers : list PolicyLayer }.
Record PolicyDecision := mkPolicyDecision {
  pd_allowed : bool; pd_code : string; pd_safeReason : string; pd_retryable : bool;
}.

(** The dataclass defaults. *)
Definition default_workspace : WorkspacePolicy := mkWorkspacePolicy "workspace-write" "/workspace" [].
Definition default_network : NetworkPolicy := mkNetworkPolicy "allow" [].
Definition default_tools : ToolsPolicy := mkToolsPolicy [] "on-request".
Definition default_model : ModelPolicy := mkModelPolicy [] "".

(** ** Interfaces *)

(** [Path(p).expanduser().resolve()]: the components of the canonical absolute path. *)
Class PathResolver := {
  resolve : string → list string;
  resolve_components : ∀ p c, c ∈ resolve p → c ≠ "" ∧ str_forall (λ a, negb (Ascii.eqb a slash)) c = true;
}.

(** The parts of a parsed URL the controller reads; [up_port] is [None] when reading
    the port raises [ValueError]. *)
Record url_parts := mkUrlParts {
  up_scheme : string; up_hostname : option string; up_port : option (option Z);
}.

Class NetLib := {
  urlparse : string → result url_parts;
  urlparse_error : ∀ url e, urlparse url = Raise e → ∃ msg, e = ValueError msg;   (* a malformed authority *)
  (** [ipaddress.ip_address(host)]: [None] when it is not an address, otherwise whether
      it is private, loopback, link-local or reserved. *)
  ip_special : string → option bool;
}.

(** ** Layered merge *)

Definition mode_rank (mode : string) : option Z :=
  dget mode [("read-only", 0); ("workspace-write", 1); ("danger-full-access", 2)].
Definition APPROVAL_MODES : list string := ["always"; "on-request"; "never"].

(** [_canonicalize]: the text of the canonical path. *)
Definition path_str (comps : list string) : string := "/" +:+ join_with "/" comps.

Section controller.
Context `{PathResolver}.

Definition canonicalize (p : string) : string := path_str (resolve p).

(** [_is_same_or_within]: [relative_to] compares components. *)
Definition is_same_or_within (path root : string) : bool := bool_decide (resolve root `prefix_of` resolve path).

(** The entries of a list against those already held: appended when widening is
    allowed, refused otherwise. *)
Fixpoint add_entries (what : string) (allow_widening : bool) (new nxt : list string) : result (list string) :=
  match nxt with
  | [] => Ok new
  | x :: nxt' =>
      if bool_decide (x ∈ new) then add_entries what allow_widening new nxt'
      else if allow_widening then add_entries what allow_widening (new ++ [x]) nxt'
      else Raise (PolicyWideningRejected what)
  end.

(** [set(a) < set(b)] *)
Definition proper_subset (a b : list string) : bool :=
  forallb (λ x, bool_decide (x ∈ b)) a && negb (forallb (λ x, bool_decide (x ∈ a)) b).

(** The merge of [writableRoots], [allow] and [allowedModels]. *)
Definition merge_entries (what : string) (current nxt : list string) (allow_widening : bool) : result (list string) :=
  match nxt, current with
  | [], _ => Ok current
  | _, [] => Ok nxt
  | _, _ =>
      new ← add_entries what allow_widening current nxt;
      Ok (if negb allow_widening && proper_subset nxt current then nxt else new)
  end.

(** [_merge_workspace] *)
Definition merge_workspace (current nxt : WorkspacePolicy) (allow_widening : bool) : result WorkspacePolicy :=
  match mode_rank (wp_mode nxt), mode_rank (wp_mode current) with
  | None, _ => Raise (PolicyInvalid "unknown workspace mode")
  | Some _, None => Raise (KeyError (wp_mode current))
  | Some rn, Some rc =>
      new_mode ← (if rn <? rc then Ok (wp_mode nxt)
                  else if rc <? rn then
                    if negb allow_widening then Raise (PolicyWideningRejected "workspace mode widened")
                    else Ok (wp_mode nxt)
                  else Ok (wp_mode current));
      new_roots ← merge_entries "writable root widened" (wp_writableRoots current)
                    (wp_writableRoots nxt) allow_widening;
      new_root ← (match wp_root nxt with
                  | EmptyString => Ok (wp_root current)
                  | _ =>
                      if negb (is_same_or_within (wp_root nxt) (wp_root current)) && negb allow_widening
                      then Raise (PolicyWideningRejected "workspace root widened")
                      else Ok (wp_root nxt)
                  end);
      Ok (mkWorkspacePolicy new_mode new_root new_roots)
  end.

(** [_merge_network] *)
Definition merge_network (current nxt : NetworkPolicy) (allow_widening : bool) : result NetworkPolicy :=
  if negb (bool_decide (np_defaultAction nxt ∈ ["deny"; "allow"]))
  then Raise (PolicyInvalid "unknown network defaultAction")
  else if bool_decide (np_defaultAction nxt = "allow") && bool_decide (np_defaultAction current = "deny") &&
          negb allow_widening
  then Raise (PolicyWideningRejected "network defaultAction widened from deny to allow")
  else
    new_allow ← merge_entries "network allow widened" (np_allow current) (np_allow nxt) allow_widening;
    Ok (mkNetworkPolicy (np_defaultAction nxt) new_allow).

(** Append the tools that are not there yet. *)
Definition add_disabled (current nxt : list string) : list string :=
  foldl (λ acc t, if bool_decide (t ∈ acc) then acc else acc ++ [t]) current nxt.

(** [_merge_tools] *)
Definition merge_tools (current nxt : ToolsPolicy) (allow_widening : bool) : result ToolsPolicy :=
  if negb (bool_decide (tp_approvalMode nxt ∈ APPROVAL_MODES)) then Raise (PolicyInvalid "unknown approvalMode")
  else
    let new_disabled := add_disabled (tp_disabled current) (tp_disabled nxt) in
    if negb (bool_decide (tp_approvalMode current ∈ APPROVAL_MODES)) then Raise (PolicyInvalid "unknown approvalMode")
    else if bool_decide (tp_approvalMode nxt = tp_approvalMode current)
    then Ok (mkToolsPolicy new_disabled (tp_approvalMode current))
    else
      let narrowing := bool_decide (tp_approvalMode nxt = "never") ||
        (bool_decide (tp_approvalMode current = "on-request") && bool_decide (tp_approvalMode nxt = "always")) in
      if negb narrowing && negb allow_widening then Raise (PolicyWideningRejected "approvalMode widened")
      else Ok (mkToolsPolicy new_disabled (tp_approvalMode nxt)).

(** [_merge_model] *)
Definition merge_model (current nxt : ModelPolicy) (allow_widening : bool) : result ModelPolicy :=
  new_models ← merge_entries "model allow widened" (mp_allowedModels current) (mp_allowedModels nxt) allow_widening;
  Ok (mkModelPolicy new_models
        (match mp_fallbackModel nxt with EmptyString => mp_fallbackModel current | m => m end)).

(** The policy being built, and whether a layer above has delegated. *)
Record merge_state := mkMergeState {
  ms_workspace : WorkspacePolicy; ms_network : NetworkPolicy; ms_tools : ToolsPolicy;
  ms_model : ModelPolicy; ms_allow_widening : bool;
}.

Definition merge_opt {A} (merge : A → A → bool → result A) (cur : A) (nxt : option A) (w : bool) : result A :=
  match nxt with Some n => merge cur n w | None => Ok cur end.

(** One iteration of the loop of [compile]. *)
Definition merge_layer (st : merge_state) (layer : PolicyLayer) : result merge_state :=
  let w := ms_allow_widening st in
  ws ← merge_opt merge_workspace (ms_workspace st) (pl_workspace layer) w;
  net ← merge_opt merge_network (ms_network st) (pl_network layer) w;
  tl ← merge_opt merge_tools (ms_tools st) (pl_tools layer) w;
  md ← merge_opt merge_model (ms_model st) (pl_model layer) w;
  Ok (mkMergeState ws net tl md (w || pl_delegation layer)).

Fixpoint merge_layers (st : merge_state) (layers : list PolicyLayer) : result merge_state :=
  match layers with
  | [] => Ok st
  | layer :: layers' => st' ← merge_layer st layer; merge_layers st' layers'
  end.

Definition initial_merge : merge_state :=
  mkMergeState default_workspace default_network default_tools default_model false.

(** [PolicyController.compile]; [policy_id] is the fresh id. *)
Definition compile (policy_id : string) (input : PolicyCompileInput) : result EffectivePolicy :=
  st ← merge_layers initial_merge (ci_layers input);
  let ws := ms_workspace st in
  let ws := match wp_writableRoots ws with
            | [] => mkWorkspacePolicy (wp_mode ws) (wp_root ws) [wp_root ws]
            | _ => ws
            end in
  Ok (mkEffectivePolicy policy_id 1 (ci_scope input) ws (ms_network st) (ms_tools st) (ms_model st)).

(** ** Authorization *)

(** [_deny] *)
Definition deny (reason : string) : PolicyDecision := mkPolicyDecision false "haas_policy_denied" reason false.
Definition granted : PolicyDecision := mkPolicyDecision true "" "" false.

(** [s.rstrip("/")] *)
Fixpoint rstrip_slash (s : string) : string :=
  match s with
  | EmptyString => EmptyString
  | String a s' =>
      match rstrip_slash s' with
      | EmptyString => if Ascii.eqb a slash then EmptyString else String a EmptyString
      | t => String a t
      end
  end.

(** [_is_within] *)
Definition is_within (path : string) (roots : list string) : bool :=
  existsb (λ root, let r := rstrip_slash (canonicalize root) in
                   bool_decide (path = r) || starts_with (r +:+ "/") path) roots.

(** [authorize_workspace_path] *)
Definition authorize_workspace_path (policy : EffectivePolicy) (path access : string) : PolicyDecision :=
  if negb (bool_decide (access ∈ ["read"; "write"])) then deny "invalid_access"
  else
    let canonical := canonicalize path in
    let ws := ep_workspace policy in
    let roots := if bool_decide (access = "write")
                 then match wp_writableRoots ws with [] => [wp_root ws] | rs => rs end
                 else wp_root ws :: wp_writableRoots ws in
    if is_within canonical roots then granted else deny "workspace_path_outside_roots".

Context `{NetLib}.

(** [_default_port_for_scheme] *)
Definition default_port_for_scheme (scheme : string) : option Z :=
  if bool_decide (scheme = "http") then Some 80
  else if bool_decide (scheme = "https") then Some 443 else None.

(** [_effective_port] *)
Definition effective_port (parsed : url_parts) : option Z :=
  match up_port parsed with
  | None => None
  | Some (Some p) => Some p
  | Some None => default_port_for_scheme (up_scheme parsed)
  end.

Definition colon : Ascii.ascii := Ascii.ascii_of_nat 58.
Definition is_digit (a : Ascii.ascii) : bool :=
  let n := Ascii.nat_of_ascii a in (48 <=? n)%nat && (n <=? 57)%nat.

(** [int(s)] of a string of digits. *)
Fixpoint digits_value (acc : Z) (s : string) : Z :=
  match s with
  | EmptyString => acc
  | String a s' => digits_value (acc * 10 + (Z.of_nat (Ascii.nat_of_ascii a) - 48)) s'
  end.

(** [entry.rsplit(":", 1)] when there is a colon and only digits after the last one. *)
Definition split_port (entry : string) : option (string * Z) :=
  match rev (split_on colon entry) with
  | (String a s as port) :: (_ :: _) as parts =>
      if str_forall is_digit port
      then Some (join_with ":" (rev (tail parts)), digits_value 0 port) else None
  | _ => None
  end.

(** [_allowlist_matches] *)
Definition allowlist_matches (entry : string) (parsed : url_parts) : result bool :=
  e ← urlparse entry;
  Ok match up_hostname e with
     | None =>
         let (host, explicit_port) := match split_port entry with
                                      | Some (h, p) => (h, Some p)
                                      | None => (entry, None)
                                      end in
         if negb (bool_decide (up_hostname parsed = Some host)) then false
         else match explicit_port with
              | Some p => bool_decide (effective_port parsed = Some p)
              | None => bool_decide (effective_port parsed = default_port_for_scheme (up_scheme parsed))
              end
     | Some eh =>
         if negb (bool_decide (up_hostname parsed = Some eh)) then false
         else if negb (bool_decide (up_scheme e = "")) && negb (bool_decide (up_scheme parsed = up_scheme e)) then false
         else match effective_port e, effective_port parsed with
              | Some ep, Some rp => bool_decide (ep = rp)
              | _, _ => false
              end
     end.

(** [any(self._allowlist_matches(entry, parsed) for entry in entries)]: up to the first match, or the first entry that is
    no URL. *)
Fixpoint any_matches (entries : list string) (parsed : url_parts) : result bool :=
  match entries with
  | [] => Ok false
  | entry :: entries' => b ← allowlist_matches entry parsed; if b : bool then Ok true else any_matches entries' parsed
  end.

(** [_is_private_or_special] *)
Definition is_private_or_special (host : string) : bool :=
  match ip_special host with
  | Some b => b
  | None => bool_decide (host = "localhost") || ends_with ".localhost" host ||
            bool_decide (host = "metadata.google.internal") || ends_with ".internal" host
  end.

(** [authorize_network] *)
Definition authorize_network (policy : EffectivePolicy) (url : string) : result PolicyDecision :=
  parsed ← urlparse url;
  if negb (bool_decide (up_scheme parsed ∈ ["http"; "https"])) then Ok (deny "url_scheme_not_allowed")
  else
    match up_hostname parsed with
    | None | Some EmptyString => Ok (deny "url_host_missing")
    | Some host =>
        if negb (is_some (effective_port parsed)) then Ok (deny "url_port_invalid")
        else
          allowed ← any_matches (np_allow (ep_network policy)) parsed;
          Ok (if is_private_or_special host && negb allowed then deny "private_network_blocked"
              else if bool_decide (np_defaultAction (ep_network policy) = "deny") && negb allowed
              then deny "network_host_not_allowed"
              else granted)
    end.

End controller.

(** ** Narrowing orders *)

(** An allowlist that is not empty is a bound on what comes below it. *)
Definition entries_within (a b : list string) : Prop := b ≠ [] → a ≠ [] ∧ ∀ x, x ∈ a → x ∈ b.

Definition rank_le (a b : string) : Prop :=
  ∃ ra rb, mode_rank a = Some ra ∧ mode_rank b = Some rb ∧ ra <= rb.

(** [never] closes the approval channel; [always] asks more often than [on-request]. *)
Definition approval_le (a b : string) : Prop := a = b ∨ a = "never" ∨ (b = "on-request" ∧ a = "always").

Definition network_within (a b : NetworkPolicy) : Prop :=
  (np_defaultAction b = "deny" → np_defaultAction a = "deny") ∧ entries_within (np_allow a) (np_allow b).
Definition tools_within (a b : ToolsPolicy) : Prop :=
  (∀ t, t ∈ tp_disabled b → t ∈ tp_disabled a) ∧ approval_le (tp_approvalMode a) (tp_approvalMode b).
Definition model_within (a b : ModelPolicy) : Prop := entries_within (mp_allowedModels a) (mp_allowedModels b).

#[export] Instance entries_within_preorder : PreOrder entries_within.
Proof. split; [by intros a; split|]. intros a b c H1 H2 Hc. destruct (H2 Hc) as [Hb ?], (H1 Hb). eauto. Qed.
#[export] Instance network_within_preorder : PreOrder network_within.
Proof. split; [by intros a|]. intros a b c [? Hab] [? Hbc]. split; [auto|by etrans]. Qed.
#[export] Instance model_within_preorder : PreOrder model_within.
Proof. split; [by intros a|]. intros a b c Hab Hbc. unfold model_within in *. by etrans. Qed.
#[export] Instance tools_within_preorder : PreOrder tools_within.
Proof.
  split; [by intros a; split; [|left]|]. intros a b c [? Hab] [? Hbc]. split; [auto|].
  unfold approval_le in *. naive_solver congruence.
Qed.

Lemma add_entries_narrow what new nxt l :
  add_entries what false new nxt = Ok l → l = new ∧ ∀ x, x ∈ nxt → x ∈ new.
Proof.
  revert new. induction nxt as [|x nxt IH]; intros new; cbn; [intros [= ->]; set_solver|].
  case_bool_decide; [|done]. intros [-> ?]%IH. set_solver.
Qed.

(** Without delegation a merged list is bounded by both its sources. *)
Lemma merge_entries_narrow what current nxt l :
  merge_entries what current nxt false = Ok l → entries_within l current ∧ entries_within l nxt.
Proof.
  unfold merge_entries. destruct nxt as [|x nxt]; [by intros [= ->]|].
  destruct current as [|c current]; [by intros [= <-]|]. intros (new & Hn & [= <-])%bind_Ok.
  apply add_entries_narrow in Hn as [-> Hsub]. cbn [negb andb].
  destruct (proper_subset (x :: nxt) (c :: current)) eqn:E; split; try done; intros _; split; try done.
  intros y Hy. unfold proper_subset in E. apply andb_false_iff in E as [E|E].
  - exfalso. apply not_true_iff_false in E. apply E, forallb_forall. intros z Hz.
    apply bool_decide_eq_true, Hsub. by apply list_elem_of_In.
  - apply negb_false_iff in E. rewrite forallb_forall in E.
    specialize (E y). apply bool_decide_eq_true in E; [done|]. by apply list_elem_of_In.
Qed.

Lemma merge_network_narrow cur nxt new :
  merge_network cur nxt false = Ok new → network_within new cur ∧ network_within new nxt.
Proof.
  unfold merge_network. case_if; [done|]. case_if; [done|]. intros (l & Hl & [= <-])%bind_Ok.
  apply merge_entries_narrow in Hl as [??]. split; split; cbn; try done.
  intros Hd. destruct (decide (np_defaultAction nxt = "allow")) as [Ha|Ha]; [|set_solver].
  by rewrite (bool_decide_eq_true_2 _ Ha), (bool_decide_eq_true_2 _ Hd) in E0.
Qed.

Lemma add_disabled_sup cur nxt t : t ∈ add_disabled cur nxt ↔ t ∈ cur ∨ t ∈ nxt.
Proof.
  unfold add_disabled. revert cur. induction nxt as [|x nxt IH]; intros cur; cbn; [set_solver|].
  rewrite IH. case_bool_decide; set_solver.
Qed.

Lemma merge_tools_narrow cur nxt new :
  merge_tools cur nxt false = Ok new → tools_within new cur ∧ tools_within new nxt.
Proof.
  unfold merge_tools. repeat case_if; try done; intros [= <-]; unfold tools_within, approval_le; cbn;
    setoid_rewrite add_disabled_sup; [naive_solver|].
  rewrite andb_true_r in E2. apply negb_false_iff, orb_true_iff in E2.
  rewrite andb_true_iff, !bool_decide_eq_true in E2. naive_solver.
Qed.

Lemma merge_model_narrow cur nxt new :
  merge_model cur nxt false = Ok new → model_within new cur ∧ model_within new nxt.
Proof. unfold merge_model. intros (l & Hl & [= <-])%bind_Ok. by apply merge_entries_narrow in Hl. Qed.

Section narrowing.
Context `{PathResolver}.

Definition workspace_within (a b : WorkspacePolicy) : Prop :=
  rank_le (wp_mode a) (wp_mode b) ∧ resolve (wp_root b) `prefix_of` resolve (wp_root a) ∧
  entries_within (wp_writableRoots a) (wp_writableRoots b).

(** What a layer demands; an empty root is no demand. *)
Definition obeys_workspace (a layer : WorkspacePolicy) : Prop :=
  rank_le (wp_mode a) (wp_mode layer) ∧
  (wp_root layer ≠ "" → resolve (wp_root layer) `prefix_of` resolve (wp_root a)) ∧
  entries_within (wp_writableRoots a) (wp_writableRoots layer).

Lemma rank_le_trans a b c : rank_le a b → rank_le b c → rank_le a c.
Proof. intros (x & y & ? & ? & ?) (y' & z & ? & ? & ?). simplify_eq. exists x, z. split_and!; [done..|lia]. Qed.

Lemma obeys_workspace_mono a b layer :
  workspace_within a b → obeys_workspace b layer → obeys_workspace a layer.
Proof.
  intros (? & ? & ?) (? & Hr & ?). split_and!; [by eapply rank_le_trans| |by etrans].
  intros Hne. etrans; [by apply Hr|done].
Qed.

Lemma merge_workspace_narrow cur nxt new :
  merge_workspace cur nxt false = Ok new → workspace_within new cur ∧ obeys_workspace new nxt.
Proof.
  unfold merge_workspace. destruct (mode_rank (wp_mode nxt)) as [rn|] eqn:En; [|done].
  destruct (mode_rank (wp_mode cur)) as [rc|] eqn:Ec; [|done].
  intros (mode & Hm & (roots & Hr & (root & Hroot & [= <-])%bind_Ok)%bind_Ok)%bind_Ok.
  apply merge_entries_narrow in Hr as [??].
  assert (mode_rank mode = Some (Z.min rn rc)) as Hmode.
  { destruct (Z.ltb_spec rn rc); [injection Hm as <-; rewrite En; f_equal; lia|].
    destruct (Z.ltb_spec rc rn); [done|]. injection Hm as <-. rewrite Ec. f_equal; lia. }
  assert (resolve (wp_root cur) `prefix_of` resolve root ∧ (wp_root nxt ≠ "" → root = wp_root nxt)) as [Hp Hn].
  { destruct (wp_root nxt) as [|c0 r0] eqn:E; [injection Hroot as <-; by split|].
    rewrite andb_true_r in Hroot. unfold is_same_or_within in Hroot.
    case_bool_decide; [|done]. injection Hroot as <-. by split. }
  split; (split_and!; [eexists _, _; split_and!; [exact Hmode|done|lia]| |done]); cbn; [done|].
  intros Hne. by rewrite Hn.
Qed.

(** The state of the merge obeys a layer. *)
Definition obeys (st : merge_state) (layer : PolicyLayer) : Prop :=
  (∀ w, pl_workspace layer = Some w → obeys_workspace (ms_workspace st) w) ∧
  (∀ n, pl_network layer = Some n → network_within (ms_network st) n) ∧
  (∀ t, pl_tools layer = Some t → tools_within (ms_tools st) t) ∧
  (∀ m, pl_model layer = Some m → model_within (ms_model st) m).

Definition narrower (a b : merge_state) : Prop :=
  (workspace_within (ms_workspace a) (ms_workspace b) ∨ ms_workspace a = ms_workspace b) ∧
  network_within (ms_network a) (ms_network b) ∧ tools_within (ms_tools a) (ms_tools b) ∧
  model_within (ms_model a) (ms_model b).

Lemma obeys_mono a b layer : narrower a b → obeys b layer → obeys a layer.
Proof.
  intros (Hw & Hn & Ht & Hm) (H1 & H2 & H3 & H4). split_and!.
  - intros w E. destruct Hw as [Hw| ->]; [|by apply H1]. eapply obeys_workspace_mono; [exact Hw|by apply H1].
  - intros n E. etrans; [exact Hn|by apply H2].
  - intros t E. etrans; [exact Ht|by apply H3].
  - intros m E. unfold model_within in *. etrans; [exact Hm|by apply H4].
Qed.

Lemma merge_layer_narrow st layer st' :
  ms_allow_widening st = false → merge_layer st layer = Ok st' →
  narrower st' st ∧ obeys st' layer ∧ ms_allow_widening st' = pl_delegation layer.
Proof.
  intros Hw. unfold merge_layer. rewrite Hw.
  intros (ws & Hws & (net & Hnet & (tl & Htl & (md & Hmd & [= <-])%bind_Ok)%bind_Ok)%bind_Ok)%bind_Ok.
  unfold merge_opt in *. unfold narrower, obeys; cbn.
  destruct (pl_workspace layer) as [w|]; [apply merge_workspace_narrow in Hws as [??]|injection Hws as <-];
  (destruct (pl_network layer) as [n|]; [apply merge_network_narrow in Hnet as [??]|injection Hnet as <-]);
  (destruct (pl_tools layer) as [t|]; [apply merge_tools_narrow in Htl as [??]|injection Htl as <-]);
  (destruct (pl_model layer) as [m|]; [apply merge_model_narrow in Hmd as [??]|injection Hmd as <-]);
  split_and!; intros; simplify_eq; auto; reflexivity.
Qed.

Lemma merge_layers_keeps st layers st' layer :
  ms_allow_widening st = false → Forall (λ l, pl_delegation l = false) layers →
  merge_layers st layers = Ok st' → obeys st layer → obeys st' layer.
Proof.
  intros Hw Hd. revert st Hw. induction Hd as [|l layers Hl _ IH]; intros st Hw; cbn [merge_layers]; [by intros [= ->]|].
  intros (st1 & H1 & H2)%bind_Ok Ho. destruct (merge_layer_narrow _ _ _ Hw H1) as (Hn & _ & Hw1).
  eapply IH; [by rewrite Hw1|exact H2|by eapply obeys_mono].
Qed.

Lemma merge_layers_narrow st layers st' :
  ms_allow_widening st = false → Forall (λ l, pl_delegation l = false) layers →
  merge_layers st layers = Ok st' → ∀ layer, layer ∈ layers → obeys st' layer.
Proof.
  intros Hw Hd. revert st Hw. induction Hd as [|l layers Hl Hls IH]; intros st Hw; cbn [merge_layers]; [set_solver|].
  intros (st1 & H1 & H2)%bind_Ok. destruct (merge_layer_narrow _ _ _ Hw H1) as (_ & Ho & Hw1). rewrite Hl in Hw1.
  intros layer [->|Hin]%elem_of_cons; [by eapply merge_layers_keeps|by eapply IH].
Qed.

(** What a layer lists. *)
Definition layer_roots (layer : PolicyLayer) : list string := match pl_workspace layer with Some w => wp_writableRoots w | None => [] end.
Definition layer_hosts (layer : PolicyLayer) : list string := match pl_network layer with Some n => np_allow n | None => [] end.

(** A merged list holds nothing that neither source holds. *)
Lemma merge_entries_sources what current nxt w l x : merge_entries what current nxt w = Ok l → x ∈ l → x ∈ current ∨ x ∈ nxt.
Proof.
  assert (Ha : ∀ nxt new l, add_entries what w new nxt = Ok l → x ∈ l → x ∈ new ∨ x ∈ nxt).
  { clear. intros nxt. induction nxt as [|y nxt IH]; intros new l; cbn [add_entries]; [intros [= ->]; auto|].
    case_bool_decide; [intros E Hx; destruct (IH _ _ E Hx); set_solver|]. destruct w; [|done].
    intros E Hx. destruct (IH _ _ E Hx); set_solver. }
  unfold merge_entries. destruct nxt as [|y nxt]; [intros [= ->]; auto|]. destruct current as [|c current]; [intros [= ->]; auto|].
  intros (new & Hn & [= <-])%bind_Ok. destruct (_ && _); [auto|]. by eapply Ha.
Qed.

Lemma merge_layer_sources st layer st' x : merge_layer st layer = Ok st' →
  (x ∈ wp_writableRoots (ms_workspace st') → x ∈ wp_writableRoots (ms_workspace st) ∨ x ∈ layer_roots layer) ∧
  (x ∈ np_allow (ms_network st') → x ∈ np_allow (ms_network st) ∨ x ∈ layer_hosts layer).
Proof.
  unfold merge_layer, layer_roots, layer_hosts.
  intros (ws & Hws & (net & Hnet & (tl & _ & (md & _ & [= <-])%bind_Ok)%bind_Ok)%bind_Ok)%bind_Ok. cbn. split.
  - destruct (pl_workspace layer) as [w|]; cbn [merge_opt] in Hws; [|injection Hws as <-; auto].
    unfold merge_workspace in Hws. destruct (mode_rank (wp_mode w)); [|done]. destruct (mode_rank (wp_mode _)); [|done].
    apply bind_Ok in Hws as (mode & _ & (roots & Hr & (root & _ & [= <-])%bind_Ok)%bind_Ok). by eapply merge_entries_sources.
  - destruct (pl_network layer) as [n|]; cbn [merge_opt] in Hnet; [|injection Hnet as <-; auto].
    unfold merge_network in Hnet. destruct (negb _); [done|]. destruct (_ && _ && _); [done|]. apply bind_Ok in Hnet as (l & Hl & [= <-]). by eapply merge_entries_sources.
Qed.

Lemma merge_layers_sources st layers st' x : merge_layers st layers = Ok st' →
  (x ∈ wp_writableRoots (ms_workspace st') → x ∈ wp_writableRoots (ms_workspace st) ∨ ∃ layer, layer ∈ layers ∧ x ∈ layer_roots layer) ∧
  (x ∈ np_allow (ms_network st') → x ∈ np_allow (ms_network st) ∨ ∃ layer, layer ∈ layers ∧ x ∈ layer_hosts layer).
Proof.
  revert st. induction layers as [|layer layers IH]; intros st; cbn [merge_layers]; [intros [= ->]; auto|].
  intros (st1 & H1 & H2)%bind_Ok. destruct (IH _ H2) as [Ir In]. destruct (merge_layer_sources _ _ _ x H1) as [Sr Sn]. split.
  - intros Hx. destruct (Ir Hx) as [Hx'|(l & ? & ?)]; [destruct (Sr Hx')|]; set_solver.
  - intros Hx. destruct (In Hx) as [Hx'|(l & ? & ?)]; [destruct (Sn Hx')|]; set_solver.
Qed.

End narrowing.

(** ** Text prefix against component prefix

    [_is_within] compares canonical paths as text; [_is_same_or_within] compares
    their components.  They agree. *)

Lemma split_on_path l : l ≠ [] → Forall plain l → split_on slash (path_str l) = "" :: l.
Proof. intros. change (path_str l) with (String slash (join_with "/" l)). cbn. by rewrite split_on_join. Qed.

Lemma path_str_inj l1 l2 : Forall plain l1 → Forall plain l2 → path_str l1 = path_str l2 → l1 = l2.
Proof.
  intros H1 H2 Heq. assert (split_on slash (path_str l1) = split_on slash (path_str l2)) as Hs by congruence.
  destruct l1 as [|a l1], l2 as [|b l2]; [done|..].
  - rewrite (split_on_path (b :: l2)) in Hs by done. cbn in Hs. injection Hs as <- <-. by inversion H2 as [|? ? []].
  - rewrite (split_on_path (a :: l1)) in Hs by done. cbn in Hs. injection Hs as -> ->. by inversion H1 as [|? ? []].
  - rewrite !split_on_path in Hs by done. congruence.
Qed.

Lemma rstrip_slash_app a b : b ≠ "" → rstrip_slash b = b → rstrip_slash (a +:+ b) = a +:+ b.
Proof.
  intros Hne Hb. induction a as [|x a IH]; [done|].
  change (String x a +:+ b) with (String x (a +:+ b)). cbn [rstrip_slash]. rewrite IH.
  by destruct a, b.
Qed.

Lemma rstrip_slash_plain c : str_forall (λ a, negb (Ascii.eqb a slash)) c = true → rstrip_slash c = c.
Proof.
  induction c as [|x c IH]; cbn [rstrip_slash str_forall]; [done|]. intros [Hx Hc]%andb_true_iff.
  rewrite (IH Hc). apply negb_true_iff in Hx. rewrite Hx. by destruct c.
Qed.

Lemma rstrip_slash_join l :
  l ≠ [] → Forall plain l → rstrip_slash (join_with "/" l) = join_with "/" l ∧ join_with "/" l ≠ "".
Proof.
  intros Hne Hl. induction Hl as [|c l [Hc Hp] Hl IH]; [done|].
  destruct l as [|d l]; [split; [by apply rstrip_slash_plain|done]|].
  change (join_with "/" (c :: d :: l)) with (c +:+ ("/" +:+ join_with "/" (d :: l))).
  destruct IH as [IH1 IH2]; [done|]. split; [|by destruct c].
  rewrite !rstrip_slash_app; [done..| |]; by rewrite ?rstrip_slash_app.
Qed.

Lemma path_text_prefix p r :
  Forall plain p → Forall plain r →
  (bool_decide (path_str p = rstrip_slash (path_str r)) ||
   starts_with (rstrip_slash (path_str r) +:+ "/") (path_str p)) = true ↔ r `prefix_of` p.
Proof.
  intros Hp Hr. destruct r as [|c r].
  - split; [intros _; apply prefix_nil|intros _].
    change (rstrip_slash (path_str [])) with "".
    change (path_str p) with ("/" +:+ join_with "/" p). by rewrite starts_with_app, orb_true_r.
  - assert (rstrip_slash (path_str (c :: r)) = path_str (c :: r)) as ->.
    { destruct (rstrip_slash_join (c :: r)) as [??]; [done..|]. by apply rstrip_slash_app. }
    rewrite orb_true_iff, bool_decide_eq_true. split.
    + intros [Heq|[t Heq]%starts_with_inv].
      * by apply path_str_inj in Heq as ->.
      * rewrite <-str_app_assoc in Heq. change ("/" +:+ t) with (String slash t) in Heq.
        apply (f_equal (split_on slash)) in Heq.
        rewrite split_on_app, (split_on_path (c :: r)) in Heq by done.
        pose proof (split_on_nonempty slash t).
        destruct p as [|d p].
        { cbn in Heq. injection Heq as Hc _. apply Forall_cons in Hr as [[Hne _] _]. congruence. }
        rewrite split_on_path in Heq by done. injection Heq as -> ->. exists (split_on slash t). done.
    + intros [q ->]. destruct q as [|d q]; [left; by rewrite app_nil_r|right].
      unfold path_str. rewrite join_with_app by done. rewrite str_app_assoc.
      change (String slash (join_with "/" (d :: q))) with ("/" +:+ join_with "/" (d :: q)).
      rewrite str_app_assoc. apply starts_with_app.
Qed.

Lemma is_within_components `{PathResolver} path roots :
  is_within (canonicalize path) roots = existsb (is_same_or_within path) roots.
Proof.
  unfold is_within. apply eq_true_iff_eq. rewrite !existsb_exists. unfold canonicalize, is_same_or_within.
  assert (∀ q, Forall plain (resolve q)) as Hpl.
  { intros q. apply Forall_forall. intros c Hc. by apply (resolve_components q). }
  split; intros (root & Hin & Hr); exists root; (split; [done|]).
  - apply bool_decide_eq_true. by apply path_text_prefix.
  - apply path_text_prefix; [done..|]. by apply bool_decide_eq_true in Hr.
Qed.

(** ** What the compiled policy guarantees *)

Section guarantees.
Context `{PathResolver} `{NetLib}.

(** The compiled policy stays inside one layer's demands. *)
Definition policy_obeys (p : EffectivePolicy) (layer : PolicyLayer) : Prop :=
  (∀ w, pl_workspace layer = Some w → obeys_workspace (ep_workspace p) w) ∧
  (∀ n, pl_network layer = Some n → network_within (ep_network p) n) ∧
  (∀ t, pl_tools layer = Some t → tools_within (ep_tools p) t) ∧
  (∀ m, pl_model layer = Some m → model_within (ep_model p) m).

Definition no_delegation (input : PolicyCompileInput) : Prop :=
  Forall (λ l, pl_delegation l = false) (ci_layers input).

Lemma compile_obeys pid input p :
  no_delegation input → compile pid input = Ok p →
  ∀ layer, layer ∈ ci_layers input → policy_obeys p layer.
Proof.
  intros Hd (st & Hst & [= <-])%bind_Ok layer Hin.
  destruct (merge_layers_narrow initial_merge _ _ eq_refl Hd Hst layer Hin) as (Hw & Hn & Ht & Hm).
  split_and!; try done. cbn. intros w Ew. destruct (Hw w Ew) as (H1 & H2 & H3).
  destruct (wp_writableRoots (ms_workspace st)) eqn:E; [|by split_and!; rewrite ?E].
  split_and!; try done; cbn. intros Hne. by destruct (H3 Hne).
Qed.

Lemma authorize_path_granted p path access :
  pd_allowed (authorize_workspace_path p path access) = true ↔
  (access = "write" ∧
     ∃ root, root ∈ match wp_writableRoots (ep_workspace p) with
                    | [] => [wp_root (ep_workspace p)] | rs => rs end ∧
             resolve root `prefix_of` resolve path) ∨
  (access = "read" ∧
     ∃ root, root ∈ wp_root (ep_workspace p) :: wp_writableRoots (ep_workspace p) ∧
             resolve root `prefix_of` resolve path).
Proof.
  unfold authorize_workspace_path. rewrite is_within_components.
  assert (∀ roots, existsb (is_same_or_within path) roots = true ↔
                   ∃ root, root ∈ roots ∧ resolve root `prefix_of` resolve path) as Hex.
  { intros roots. rewrite existsb_exists. unfold is_same_or_within.
    by setoid_rewrite bool_decide_eq_true; setoid_rewrite list_elem_of_In. }
  case_bool_decide as Ha; cbn [negb]; [|split; [done|intros [[-> _]|[-> _]]; set_solver]].
  assert (access = "read" ∨ access = "write") as [-> | ->] by set_solver.
  - rewrite (bool_decide_eq_false_2 ("read" = "write")), <-!Hex by done.
    destruct (existsb _ (_ :: _)); cbn; naive_solver.
  - rewrite (bool_decide_eq_true_2 ("write" = "write")), <-!Hex by done.
    destruct (existsb _ (match _ with [] => _ | _ => _ end)); cbn; naive_solver.
Qed.

(** The grants of [authorize_network], read as conditions on the URL. *)
Definition network_grant (p : EffectivePolicy) (url : string) : Prop :=
  ∃ u host port allowed, urlparse url = Ok u ∧ up_scheme u ∈ ["http"; "https"] ∧
    up_hostname u = Some host ∧ host ≠ "" ∧ effective_port u = Some port ∧
    any_matches (np_allow (ep_network p)) u = Ok allowed ∧
    ((is_private_or_special host = true ∨ np_defaultAction (ep_network p) = "deny") → allowed = true).

Definition network_granted (p : EffectivePolicy) (url : string) : Prop :=
  ∃ d, authorize_network p url = Ok d ∧ pd_allowed d = true.

Lemma authorize_network_granted p url : network_granted p url ↔ network_grant p url.
Proof.
  unfold network_granted, network_grant, authorize_network. split.
  - intros (d & (u & Hu & Hrest)%bind_Ok & Hd). revert Hrest. case_bool_decide as Hs; cbn [negb]; [|by intros [= <-]].
    destruct (up_hostname u) as [[|c host]|] eqn:Eh; [by intros [= <-]| |by intros [= <-]].
    destruct (effective_port u) as [port|] eqn:Ep; cbn [is_some negb]; [|by intros [= <-]].
    intros (allowed & Ha & [= <-])%bind_Ok. exists u, (String c host), port, allowed. split_and!; try done.
    destruct allowed; [done|]. cbn [negb] in Hd. rewrite !andb_true_r in Hd.
    destruct (is_private_or_special _); [done|]. case_bool_decide; [done|]. by intros [|].
  - intros (u & host & port & allowed & -> & Hs & Hh & Hne & Hp & Ha & Hg). cbn. rewrite bool_decide_eq_true_2 by done. cbn [negb].
    rewrite Hh, Hp. destruct host as [|c host]; [done|]. cbn [is_some negb]. rewrite Ha. cbn. eexists. split; [done|].
    destruct allowed; cbn [negb]; rewrite ?andb_false_r; [done|]. rewrite !andb_true_r.
    destruct (is_private_or_special _); [by specialize (Hg (or_introl eq_refl))|].
    case_bool_decide as Hd; [by specialize (Hg (or_intror Hd))|done].
Qed.

Lemma any_matches_true entries u : any_matches entries u = Ok true → ∃ entry, entry ∈ entries ∧ allowlist_matches entry u = Ok true.
Proof.
  induction entries as [|e entries IH]; [done|]. cbn [any_matches]. intros (b & Hb & Hrest)%bind_Ok.
  destruct b; [exists e; split; [by left|done]|]. destruct (IH Hrest) as (x & ? & ?). exists x. split; [by right|done].
Qed.

(** Only a text that is no URL makes the decision raise: the requested one, or an allowlist entry. *)
Lemma authorize_network_raises p url e : authorize_network p url = Raise e →
  ∃ text msg, (text = url ∨ text ∈ np_allow (ep_network p)) ∧ urlparse text = Raise e ∧ e = ValueError msg.
Proof.
  unfold authorize_network. destruct (urlparse url) as [u|e'] eqn:Hu; cbn.
  2: { intros [= <-]. destruct (urlparse_error _ _ Hu) as [msg ->]. exists url, msg. auto. }
  repeat case_match; try done. subst. intros Ha.
  assert (∃ text, text ∈ np_allow (ep_network p) ∧ urlparse text = Raise e) as (text & Ht & Hp).
  { destruct (any_matches _ u) as [b|e'] eqn:Hm; cbn in Ha; [done|]. injection Ha as ->. clear -Hm.
    induction (np_allow (ep_network p)) as [|x l IH]; [done|]. cbn [any_matches] in Hm. unfold allowlist_matches at 1 in Hm.
    destruct (urlparse x) as [u'|e'] eqn:Hx; cbn in Hm; [|injection Hm as ->; exists x; set_solver].
    destruct (match up_hostname u' with Some _ => _ | None => _ end); [done|]. destruct (IH Hm) as (y & ? & ?). exists y. set_solver. }
  destruct (urlparse_error _ _ Hp) as [msg ->]. exists text, msg. auto.
Qed.

(** The compiled lists come from the layers. *)
Lemma compile_sources pid input p x : compile pid input = Ok p →
  (x ∈ np_allow (ep_network p) → ∃ layer, layer ∈ ci_layers input ∧ x ∈ layer_hosts layer) ∧
  (x ∈ wp_writableRoots (ep_workspace p) →
     (∃ layer, layer ∈ ci_layers input ∧ x ∈ layer_roots layer) ∨ x = wp_root (ep_workspace p)).
Proof.
  intros (st & Hst & [= <-])%bind_Ok. cbn. destruct (merge_layers_sources _ _ _ x Hst) as [Sr Sn]. split_and!.
  - intros Hx. destruct (Sn Hx) as [[]%elem_of_nil|?]; done.
  - destruct (wp_writableRoots (ms_workspace st)) as [|r rs] eqn:E; cbn.
    + intros ->%list_elem_of_singleton. by right.
    + rewrite E. intros Hx. left. destruct (Sr Hx) as [[]%elem_of_nil|?]; done.
Qed.

Lemma compile_has_root pid input p : compile pid input = Ok p → wp_writableRoots (ep_workspace p) ≠ [].
Proof. intros (st & _ & [= <-])%bind_Ok. cbn. by destruct (wp_writableRoots (ms_workspace st)) eqn:E; cbn; rewrite ?E. Qed.

Lemma compile_root_sources pid input p root : no_delegation input → compile pid input = Ok p → root ∈ wp_writableRoots (ep_workspace p) →
  (∃ layer w, layer ∈ ci_layers input ∧ pl_workspace layer = Some w ∧ root ∈ wp_writableRoots w) ∨
  root = wp_root (ep_workspace p) ∧ ∀ layer w, layer ∈ ci_layers input → pl_workspace layer = Some w →
    wp_writableRoots w = [] ∧ (wp_root w ≠ "" → resolve (wp_root w) `prefix_of` resolve root).
Proof.
  intros Hd (st & Hst & [= <-])%bind_Ok. cbn. destruct (merge_layers_sources _ _ _ root Hst) as [Sr _].
  destruct (wp_writableRoots (ms_workspace st)) as [|r rs] eqn:E; cbn.
  - intros ->%list_elem_of_singleton. right. split; [done|]. intros layer w Hl Hw.
    destruct (proj1 (merge_layers_narrow initial_merge _ _ eq_refl Hd Hst layer Hl) w Hw) as (_ & Hr & Hw').
    split; [|exact Hr]. destruct (wp_writableRoots w) as [|x l]; [done|]. rewrite E in Hw'. by destruct Hw'.
  - rewrite E. intros Hx. left. destruct (Sr Hx) as [[]%elem_of_nil|(layer & Hl & Hx')]. unfold layer_roots in Hx'.
    destruct (pl_workspace layer) as [w|] eqn:Ew; [by exists layer, w|by apply elem_of_nil in Hx'].
Qed.

(** Layers only narrow.  When no layer delegates, a policy that compiles stays, in
    every dimension, inside the demands of every layer: the workspace mode ranks no
    higher, the root lies within the layer's root, a non-empty list of writable roots,
    network entries or models is a bound, [deny] stays [deny], disabled tools stay
    disabled and the approval mode is the layer's or a narrower one. *)
Theorem compile_narrow_only pid input p :
  no_delegation input → compile pid input = Ok p →
  ∀ layer, layer ∈ ci_layers input → policy_obeys p layer.
Proof. apply compile_obeys. Qed.

(** C31: A compiled policy confines writes and network requests end to end.  When no layer delegates: a granted write lies under
    one root that every layer listing writable roots lists; some layer does list it, unless none lists any, and
    then it is the policy's root, inside the root of every layer that names one.  A granted URL is http(s) with
    a host and a port; and if any layer denies by default, or the host is private, it matches one allowlist entry, listed by
    some layer and by every layer with an allowlist.  A decision that raises does so because the URL, or an allowlist
    entry, is malformed. *)
Theorem compiled_policy_confines pid input p path url :
  no_delegation input → compile pid input = Ok p →
  (pd_allowed (authorize_workspace_path p path "write") = true →
   ∃ root, resolve root `prefix_of` resolve path ∧
     (∀ layer w, layer ∈ ci_layers input → pl_workspace layer = Some w → wp_writableRoots w ≠ [] → root ∈ wp_writableRoots w) ∧
     ((∃ layer w, layer ∈ ci_layers input ∧ pl_workspace layer = Some w ∧ root ∈ wp_writableRoots w) ∨
      root = wp_root (ep_workspace p) ∧ ∀ layer w, layer ∈ ci_layers input → pl_workspace layer = Some w →
        wp_writableRoots w = [] ∧ (wp_root w ≠ "" → resolve (wp_root w) `prefix_of` resolve root))) ∧
  (∀ d, authorize_network p url = Ok d → pd_allowed d = true →
   ∃ u host port, urlparse url = Ok u ∧ up_scheme u ∈ ["http"; "https"] ∧ up_hostname u = Some host ∧ host ≠ "" ∧
     effective_port u = Some port ∧
     ((∃ layer n, layer ∈ ci_layers input ∧ pl_network layer = Some n ∧ np_defaultAction n = "deny") ∨
      is_private_or_special host = true →
      ∃ entry, allowlist_matches entry u = Ok true ∧
        (∃ layer n, layer ∈ ci_layers input ∧ pl_network layer = Some n ∧ entry ∈ np_allow n) ∧
        ∀ layer n, layer ∈ ci_layers input → pl_network layer = Some n → np_allow n ≠ [] → entry ∈ np_allow n)) ∧
  (∀ e, authorize_network p url = Raise e →
   ∃ text msg, urlparse text = Raise (ValueError msg) ∧ e = ValueError msg ∧
     (text = url ∨ ∃ layer n, layer ∈ ci_layers input ∧ pl_network layer = Some n ∧ text ∈ np_allow n)).
Proof.
  intros Hd Hc. pose proof (compile_obeys _ _ _ Hd Hc) as Ho.
  assert (Hhosts : ∀ x, x ∈ np_allow (ep_network p) → ∃ layer n, layer ∈ ci_layers input ∧ pl_network layer = Some n ∧ x ∈ np_allow n).
  { intros x Hx. destruct (proj1 (compile_sources _ _ _ x Hc) Hx) as (layer & Hl & Hx'). unfold layer_hosts in Hx'.
    destruct (pl_network layer) as [n|] eqn:En; [by exists layer, n|by apply elem_of_nil in Hx']. }
  split_and!.
  - intros Hg. apply authorize_path_granted in Hg as [(_ & root & Hr & Hpre)|[[=] _]].
    pose proof (compile_has_root _ _ _ Hc) as Hne. destruct (wp_writableRoots (ep_workspace p)) as [|r0 rs] eqn:Ers; [done|]. rewrite <-Ers in Hr.
    exists root. split; [done|]. split.
    + intros layer w Hl Hw Hn. destruct (proj1 (Ho layer Hl) w Hw) as (_ & _ & Hroots). by apply (proj2 (Hroots Hn)).
    + by apply (compile_root_sources pid input p root Hd Hc).
  - intros d Hok Hal. destruct (proj1 (authorize_network_granted p url)) as (u & host & port & allowed & ? & ? & ? & ? & ? & Hm & Hg); [by exists d|].
    exists u, host, port. split_and!; try done. intros Hwhy.
    assert (allowed = true) as ->.
    { apply Hg. destruct Hwhy as [(layer & n & Hl & Hn & Hdeny)|]; [right|by left]. by apply (proj1 (proj2 (Ho layer Hl)) n Hn). }
    destruct (any_matches_true _ _ Hm) as (entry & He & Hmatch). exists entry. split_and!; [done|by apply Hhosts|].
    intros layer n Hl Hn Hne. by apply (proj2 (proj1 (proj2 (Ho layer Hl)) n Hn) Hne).
  - intros e He. destruct (authorize_network_raises _ _ _ He) as (text & msg & Ht & Hp & ->). exists text, msg. split_and!; [done..|].
    destruct Ht as [->|Ht]; [by left|right; by apply Hhosts].
Qed.

(** An empty list is not a bound.  A layer that denies the network by default with no
    allowlist can be followed, without delegation, by a layer whose allowlist is taken
    over as it is; the same merge applies to writable roots and to models.  The
    specification says that any widening by a lower layer without delegation is
    rejected. *)
Theorem empty_allowlist_can_be_widened pid scope entries :
  compile pid (mkPolicyCompileInput scope
    [mkPolicyLayer "tenant" None (Some (mkNetworkPolicy "deny" [])) None None false;
     mkPolicyLayer "session" None (Some (mkNetworkPolicy "deny" entries)) None None false]) =
  Ok (mkEffectivePolicy pid 1 scope (mkWorkspacePolicy "workspace-write" "/workspace" ["/workspace"])
        (mkNetworkPolicy "deny" entries) default_tools default_model) ∧
  ∀ what nxt, merge_entries what [] nxt false = Ok nxt.
Proof. split; [by destruct entries|by intros what []]. Qed.

End guarantees.

(** ** A concrete instance of the interfaces *)

Module PolicyExamples.

(** Lexical resolution: the non-empty components of the text. *)
Definition lexical (p : string) : list string := List.filter (λ c, negb (bool_decide (c = ""))) (split_on slash p).

#[export] Instance lexical_resolver : PathResolver.
Proof.
  refine {| resolve := lexical |}. intros p c Hc. apply list_elem_of_In, filter_In in Hc as [Hc Hne].
  apply negb_true_iff, bool_decide_eq_false in Hne. split; [done|].
  apply (split_on_clean p). by apply list_elem_of_In.
Defined.

(** A URL library that knows two URLs. *)
#[export] Program Instance tiny_net : NetLib := {|
  urlparse u := if bool_decide (u = "https://a.example/x") || bool_decide (u = "https://a.example")
                then Ok (mkUrlParts "https" (Some "a.example") (Some None))
                else if bool_decide (u = "https://[a") then Raise (ValueError "Invalid IPv6 URL")
                else Ok (mkUrlParts "" None (Some None));
  ip_special _ := None;
|}.
Next Obligation. intros url e. cbn. do 2 (case_match; [try done; intros [= <-]; by eexists|]). done. Qed.

(** A malformed URL, or a malformed entry before the matching one, raises. *)
Example malformed_raises :
  authorize_network (mkEffectivePolicy "" 1 (mkPolicyScope "" "" "" "") default_workspace (mkNetworkPolicy "deny" ["https://[a"; "https://a.example"])
    default_tools default_model) "https://a.example/x" = Raise (ValueError "Invalid IPv6 URL").
Proof. by vm_compute. Qed.

Definition tenant_layer : PolicyLayer :=
  mkPolicyLayer "tenant" (Some (mkWorkspacePolicy "workspace-write" "/workspace" ["/workspace/a"; "/workspace/b"]))
    (Some (mkNetworkPolicy "deny" ["https://a.example"; "https://b.example"])) None None false.
Definition session_layer : PolicyLayer :=
  mkPolicyLayer "session" (Some (mkWorkspacePolicy "read-only" "/workspace/a" ["/workspace/a"]))
    (Some (mkNetworkPolicy "deny" ["https://a.example"])) (Some (mkToolsPolicy ["shell"] "always")) None false.
Definition two_layers : PolicyCompileInput :=
  mkPolicyCompileInput (mkPolicyScope "t" "w" "h" "s") [tenant_layer; session_layer].
Definition compiled : EffectivePolicy :=
  mkEffectivePolicy "pol_1" 1 (ci_scope two_layers)
    (mkWorkspacePolicy "read-only" "/workspace/a" ["/workspace/a"])
    (mkNetworkPolicy "deny" ["https://a.example"]) (mkToolsPolicy ["shell"] "always") default_model.

Lemma compile_two_layers : compile "pol_1" two_layers = Ok compiled.
Proof. by vm_compute. Qed.

Lemma two_layers_no_delegation : no_delegation two_layers.
Proof. repeat constructor. Qed.

Lemma compile_narrow_only_witness : policy_obeys compiled tenant_layer.
Proof.
  apply (compile_narrow_only "pol_1" two_layers compiled two_layers_no_delegation compile_two_layers).
  by left.
Defined.

Lemma compiled_policy_confines_witness :
  (∃ root, resolve root `prefix_of` resolve "/workspace/a/f" ∧ root ∈ ["/workspace/a"; "/workspace/b"] ∧ root ∈ ["/workspace/a"]) ∧
  (∃ entry u, urlparse "https://a.example/x" = Ok u ∧ allowlist_matches entry u = Ok true ∧
     entry ∈ ["https://a.example"; "https://b.example"] ∧ entry ∈ ["https://a.example"]).
Proof.
  destruct (compiled_policy_confines "pol_1" two_layers compiled "/workspace/a/f" "https://a.example/x" two_layers_no_delegation compile_two_layers)
    as (Hw & Hn & _).
  assert (Ht : tenant_layer ∈ ci_layers two_layers) by (by left). assert (Hs : session_layer ∈ ci_layers two_layers) by (by right; left).
  split.
  - destruct Hw as (root & Hpre & Hall & _); [vm_compute; reflexivity|]. exists root. split; [exact Hpre|].
    split; [apply (Hall _ _ Ht eq_refl)|apply (Hall _ _ Hs eq_refl)]; discriminate.
  - destruct (Hn granted) as (u & host & port & Hu & _ & _ & _ & _ & Hg); [vm_compute; reflexivity|reflexivity|].
    destruct Hg as (entry & Hm & _ & Hall); [left; exists tenant_layer; eexists; split; [exact Ht|split; reflexivity]|].
    exists entry, u. split; [exact Hu|]. split; [exact Hm|].
    split; [apply (Hall _ _ Ht eq_refl)|apply (Hall _ _ Hs eq_refl)]; discriminate.
Defined.

End PolicyExamples.
