(* ===== verification/Sandbox.v ===== *)
(** * Sandbox declarations and their projections (haas/runtime/compiler.py, haas/runtime/models.py,
    haas/harnesses/codex_app_server/sandbox.py)

    [compile_sandbox_spec] turns a frozen policy and a harness's declaration into the
    sandbox a session gets; [to_turn_sandbox_policy] turns a mode and writable roots into
    what a Codex turn is started with.  Both may only narrow.  Path resolution is the
    interface of Policy.v; the purely lexical [str(Path(p))] is defined here. *)

From S2P Require Import Prelude Errors Dict PyVal PyText Paths Policy.

#[local] Open Scope string_scope.
#[local] Open Scope list_scope.
#[local] Open Scope Z_scope.

(** ** Models *)

Record HarnessSandboxDecl := mkSandboxDecl {
  sd_cwd : string; sd_writableRoots : list string; sd_approvalMode : string;
}.
Record SandboxNetwork := mkSandboxNetwork { sn_defaultAction : string; sn_allow : list string }.
Record SandboxResources := mkSandboxResources { sr_cpu : Z; sr_memoryMb : Z; sr_timeoutSeconds : Z }.
Record CredentialVault := mkCredentialVault { cv_providerKeyRef : string }.
Record SandboxSpec := mkSandboxSpec {
  ss_sessionId : string; ss_workspaceRoot : string; ss_writableRoots : list string;
  ss_readOnlyRoots : list string; ss_network : SandboxNetwork; ss_resources : SandboxResources;
  ss_credentialVault : CredentialVault;
}.
Record EgressPolicy := mkEgressPolicy { eg_defaultAction : string; eg_allow : list string }.

Definition default_resources : SandboxResources := mkSandboxResources 2 4096 1800.
Definition default_vault : CredentialVault := mkCredentialVault "".

(** ** The compiler *)

(** [_is_within(path, roots)] of the compiler: the roots are already canonical texts. *)
Definition is_within_roots (path : string) (roots : list string) : bool :=
  existsb (λ root, let r := rstrip_slash root in
                   bool_decide (path = r) || starts_with (r +:+ "/") path) roots.

Section compiler.
Context `{PathResolver}.

(** The loop over the declared writable roots. *)
Fixpoint compile_roots (policy_roots : list string) (raws : list string) : result (list string) :=
  match raws with
  | [] => Ok []
  | raw :: raws' =>
      let canonical := canonicalize raw in
      _ ← ensure (is_within_roots canonical policy_roots) (SandboxWideningRejected "decl writable root widens policy");
      rest ← compile_roots policy_roots raws';
      Ok (canonical :: rest)
  end.

(** [policy.workspace.writableRoots or [root]], canonicalized. *)
Definition policy_roots (policy : EffectivePolicy) : list string :=
  canonicalize <$> match wp_writableRoots (ep_workspace policy) with
                   | [] => [canonicalize (wp_root (ep_workspace policy))]
                   | roots => roots
                   end.

(** [SandboxRuntime.compile_sandbox_spec] *)
Definition compile_sandbox_spec (policy : EffectivePolicy) (decl : HarnessSandboxDecl) (session_id : string) : result SandboxSpec :=
  let root := canonicalize (wp_root (ep_workspace policy)) in
  let cwd := canonicalize (sd_cwd decl) in
  _ ← ensure (is_within_roots cwd [root]) (SandboxWideningRejected "decl cwd outside workspace root");
  writable ← compile_roots (policy_roots policy) (sd_writableRoots decl);
  Ok (mkSandboxSpec session_id root writable []
        (mkSandboxNetwork (np_defaultAction (ep_network policy)) (np_allow (ep_network policy)))
        default_resources default_vault).

(** [SandboxRuntime.project_egress] *)
Definition project_egress (spec : SandboxSpec) : EgressPolicy :=
  mkEgressPolicy (sn_defaultAction (ss_network spec)) (sn_allow (ss_network spec)).

End compiler.

(** ** The Codex projection *)

Definition THREAD_SANDBOX_MODE_MAP : dict string string :=
  [("read-only", "read-only"); ("workspace-write", "workspace-write"); ("danger-full-access", "danger-full-access")].

(** [normalize_mode]: [mode.replace("_", "-")] *)
Definition normalize_mode (mode : string) : result string :=
  let normalized := replace_char (Ascii.ascii_of_nat 95) (Ascii.ascii_of_nat 45) mode in
  _ ← ensure (dmem normalized THREAD_SANDBOX_MODE_MAP) (SandboxPolicyError "unsupported sandbox mode");
  Ok normalized.

(** [to_thread_sandbox_mode] *)
Definition to_thread_sandbox_mode (mode : string) : result string :=
  normalized ← normalize_mode mode;
  match dget normalized THREAD_SANDBOX_MODE_MAP with
  | Some m => Ok m
  | None => Raise (KeyError normalized)
  end.

(** The [network_policy] argument: the policy object, or whatever a request's policy
    dictionary holds ([PNone] when it holds nothing). *)
Inductive network_arg : Type :=
  | NetObject (n : NetworkPolicy)
  | NetValue (v : pyval).

(** [_network_access_allowed] *)
Definition network_access_allowed (net : network_arg) : bool :=
  match net with
  | NetObject n => bool_decide (np_defaultAction n = "allow")
  | NetValue (PDict d) => py_eqb (pget "defaultAction" d) (PStr "allow")
  | NetValue _ => false
  end.

(** [str(Path(p))]: empty and [.] segments are dropped, [..] is kept, and so are exactly
    two leading slashes. *)
Definition pure_path (p : string) : string :=
  let (root, rest) := splitroot p in
  match root +:+ join_with "/" (path_parts rest) with EmptyString => "." | s => s end.

Definition TOO_BROAD : list string := ["/"; "/data"; "/data/worker"; "/root"].

(** [_validate_writable_root] *)
Definition validate_writable_root (root : string) : result unit :=
  ensure (negb (bool_decide (root ∈ TOO_BROAD))) (SandboxPolicyError "sandbox_writable_root_too_broad").

(** The loop of [_dedupe_writable_roots]; [acc] is [result]. *)
Fixpoint dedupe_go (acc : list string) (roots : list string) : result (list string) :=
  match roots with
  | [] => Ok acc
  | root :: roots' =>
      if bool_decide (root = "") then dedupe_go acc roots'
      else
        _ ← ensure (starts_with "/" root) (SandboxPolicyError "sandbox_writable_root_not_absolute");
        let normalized := pure_path root in
        _ ← validate_writable_root normalized;
        dedupe_go (if bool_decide (normalized ∈ acc) then acc else acc ++ [normalized]) roots'
  end.

(** [_dedupe_writable_roots] *)
Definition dedupe_writable_roots (roots : list string) : result (list string) := dedupe_go [] roots.

(** [to_turn_sandbox_policy] *)
Definition to_turn_sandbox_policy (mode : string) (writable_roots : list string) (net : network_arg) : result pydict :=
  normalized ← normalize_mode mode;
  let network_access := network_access_allowed net in
  if bool_decide (normalized = "workspace-write") then
    roots ← dedupe_writable_roots writable_roots;
    Ok [("type", PStr "workspaceWrite"); ("writableRoots", PList (PStr <$> roots)); ("networkAccess", PBool network_access)]
  else if bool_decide (normalized = "read-only") then
    Ok [("type", PStr "readOnly"); ("networkAccess", PBool network_access)]
  else if bool_decide (normalized = "danger-full-access") then Ok [("type", PStr "dangerFullAccess")]
  else Raise (SandboxPolicyError "unsupported sandbox mode").

(** ** The compiled specification *)

Section spec.
Context `{PathResolver}.

Lemma is_within_roots_fmap path roots :
  is_within_roots (canonicalize path) (canonicalize <$> roots) = existsb (is_same_or_within path) roots.
Proof.
  rewrite <-is_within_components. unfold is_within, is_within_roots.
  induction roots as [|r roots IH]; [done|]. cbn. by rewrite IH.
Qed.

(** The roots of a policy, before they are canonicalized. *)
Definition granted_roots (policy : EffectivePolicy) : list string :=
  match wp_writableRoots (ep_workspace policy) with
  | [] => [canonicalize (wp_root (ep_workspace policy))] | roots => roots end.

Lemma compile_roots_spec (roots raws : list string) :
  compile_roots (canonicalize <$> roots) raws =
    (if forallb (λ raw, existsb (is_same_or_within raw) roots) raws then Ok (canonicalize <$> raws)
     else Raise (SandboxWideningRejected "decl writable root widens policy")).
Proof.
  induction raws as [|raw raws IH]; [done|]. cbn [compile_roots forallb]. rewrite is_within_roots_fmap, IH.
  by destruct (existsb _ roots), (forallb _ raws).
Qed.

(** The declaration asks for nothing outside the policy. *)
Definition declares_within (policy : EffectivePolicy) (decl : HarnessSandboxDecl) : Prop :=
  resolve (wp_root (ep_workspace policy)) `prefix_of` resolve (sd_cwd decl) ∧
  ∀ raw, raw ∈ sd_writableRoots decl → ∃ root, root ∈ granted_roots policy ∧ resolve root `prefix_of` resolve raw.

Lemma existsb_within path roots :
  existsb (is_same_or_within path) roots = true ↔ ∃ root, root ∈ roots ∧ resolve root `prefix_of` resolve path.
Proof.
  rewrite existsb_exists. unfold is_same_or_within.
  by setoid_rewrite bool_decide_eq_true; setoid_rewrite list_elem_of_In.
Qed.

(** What the compiler returns. *)
Lemma compile_sandbox_spec_outcome policy decl sid :
  match compile_sandbox_spec policy decl sid with
  | Ok spec => declares_within policy decl ∧
      spec = mkSandboxSpec sid (canonicalize (wp_root (ep_workspace policy))) (canonicalize <$> sd_writableRoots decl) []
        (mkSandboxNetwork (np_defaultAction (ep_network policy)) (np_allow (ep_network policy))) default_resources default_vault
  | Raise e => ¬ declares_within policy decl ∧ ∃ msg, e = SandboxWideningRejected msg
  end.
Proof.
  unfold compile_sandbox_spec, declares_within.
  change [canonicalize (wp_root (ep_workspace policy))] with (canonicalize <$> [wp_root (ep_workspace policy)]).
  change (policy_roots policy) with (canonicalize <$> granted_roots policy).
  rewrite is_within_roots_fmap, compile_roots_spec.
  destruct (existsb (is_same_or_within (sd_cwd decl)) _) eqn:Hc; cbn.
  - apply existsb_within in Hc as (r & ->%list_elem_of_singleton & Hr).
    destruct (forallb _ _) eqn:Hf; cbn; (split; [|by eauto]).
    + split; [done|]. intros raw Hraw. apply existsb_within. rewrite forallb_forall in Hf. apply Hf. by apply list_elem_of_In.
    + intros [_ Hall]. apply not_true_iff_false in Hf. apply Hf, forallb_forall. intros raw Hraw%list_elem_of_In.
      by apply existsb_within, Hall.
  - split; [|by eauto]. intros [Hr _]. apply not_true_iff_false in Hc. apply Hc, existsb_within. eexists. split; [by left|done].
Qed.

(** The specification gives a harness nothing some layer of the policy withholds: an empty list of a layer withholds nothing. *)
Definition spec_obeys (spec : SandboxSpec) (layer : PolicyLayer) : Prop :=
  (∀ w, pl_workspace layer = Some w →
     (wp_root w ≠ "" → ∃ root, ss_workspaceRoot spec = path_str root ∧ resolve (wp_root w) `prefix_of` root) ∧
     (wp_writableRoots w ≠ [] → ∀ text, text ∈ ss_writableRoots spec →
        ∃ comps root, text = path_str comps ∧ root ∈ wp_writableRoots w ∧ resolve root `prefix_of` comps)) ∧
  (∀ n, pl_network layer = Some n →
     (np_defaultAction n = "deny" → eg_defaultAction (project_egress spec) = "deny") ∧
     (np_allow n ≠ [] → eg_allow (project_egress spec) ≠ [] ∧ ∀ x, x ∈ eg_allow (project_egress spec) → x ∈ np_allow n)).

(** C21: The declaration is either refused, and then it does ask for something outside the policy, or
    compiled into a sandbox that stays inside every layer the policy was compiled from (when none
    of them delegates): its workspace root lies below the layer's, if it names one, its writable roots lie below the writable roots of a layer
    that lists some, egress is denied when the layer denies it and goes, beyond that default, only to hosts that
    every layer with a non-empty allowlist lists.  Every allowed host is listed by some layer, and every writable root lies
    below one that some layer lists, or below the policy's root when none does.  (A layer that denies
    with an empty allowlist does not bound the hosts that a later layer lists.)  And every path at or
    below one of its writable roots is one the policy controller grants for writing. *)
Theorem sandbox_obeys_layers pid input p decl sid :
  no_delegation input → compile pid input = Ok p →
  match compile_sandbox_spec p decl sid with
  | Ok spec => declares_within p decl ∧
      (∀ layer, layer ∈ ci_layers input → spec_obeys spec layer) ∧
      (∀ x, x ∈ eg_allow (project_egress spec) → ∃ layer n, layer ∈ ci_layers input ∧ pl_network layer = Some n ∧ x ∈ np_allow n) ∧
      (∀ text, text ∈ ss_writableRoots spec → ∃ comps root, text = path_str comps ∧ resolve root `prefix_of` comps ∧
         ((∃ layer w, layer ∈ ci_layers input ∧ pl_workspace layer = Some w ∧ root ∈ wp_writableRoots w) ∨
          root = wp_root (ep_workspace p) ∧ ∀ layer w, layer ∈ ci_layers input → pl_workspace layer = Some w →
            wp_writableRoots w = [] ∧ (wp_root w ≠ "" → resolve (wp_root w) `prefix_of` resolve root))) ∧
      (∀ text path comps, text ∈ ss_writableRoots spec → text = path_str comps → Forall plain comps →
         comps `prefix_of` resolve path → pd_allowed (authorize_workspace_path p path "write") = true)
  | Raise e => ¬ declares_within p decl ∧ ∃ msg, e = SandboxWideningRejected msg
  end.
Proof.
  intros Hd Hp. pose proof (compile_sandbox_spec_outcome p decl sid) as Ho.
  destruct (compile_sandbox_spec p decl sid) as [spec|e]; [|done].
  destruct Ho as [[Hcwd Hw] ->]. pose proof (compile_has_root _ _ _ Hp) as Hne.
  assert (∀ raw, raw ∈ sd_writableRoots decl → ∃ root, root ∈ wp_writableRoots (ep_workspace p) ∧ resolve root `prefix_of` resolve raw) as Hin.
  { intros raw Hraw. destruct (Hw raw Hraw) as (r & Hr & ?). unfold granted_roots in Hr.
    destruct (wp_writableRoots (ep_workspace p)); [done|]. eauto. }
  split_and!; [done| | | |].
  2: { cbn. intros x Hx. destruct (proj1 (compile_sources _ _ _ x Hp) Hx) as (layer & Hl & Hx'). unfold layer_hosts in Hx'.
       destruct (pl_network layer) as [n|] eqn:En; [by exists layer, n|by apply elem_of_nil in Hx']. }
  2: { cbn. intros text (raw & -> & Hraw)%list_elem_of_fmap. destruct (Hin raw Hraw) as (r & Hr & Hpre).
       exists (resolve raw), r. split_and!; [done..|]. by apply (compile_root_sources pid input p r Hd Hp). }
  - intros layer Hl. destruct (compile_obeys _ _ _ Hd Hp layer Hl) as (Ow & On & _ & _). split; cbn.
    + intros w Ew. destruct (Ow w Ew) as (_ & Hr & He). split; [intros Hn; exists (resolve (wp_root (ep_workspace p))); by split; [|apply Hr]|].
      intros Hn text (raw & -> & Hraw)%list_elem_of_fmap. destruct (Hin raw Hraw) as (r & Hr' & Hpre).
      destruct (He Hn) as [_ Hsub]. exists (resolve raw), r. split_and!; [done|by apply Hsub|done].
    + intros n En. apply (On n En).
  - intros text path comps (raw & -> & Hraw)%list_elem_of_fmap Heq Hpl Hpre.
    assert (comps = resolve raw) as ->.
    { symmetry. apply path_str_inj; [|done|done]. apply Forall_forall. intros c Hc. by apply (resolve_components raw). }
    destruct (Hin raw Hraw) as (r & Hr & Hpre'). apply authorize_path_granted. left. split; [done|]. exists r.
    split; [|by etrans]. by destruct (wp_writableRoots (ep_workspace p)).
Qed.

End spec.

(** ** What a Codex turn is started with *)

Definition bad_root (raw : string) : bool :=
  negb (bool_decide (raw = "")) && (negb (starts_with "/" raw) || bool_decide (pure_path raw ∈ TOO_BROAD)).
Definition named_roots (roots : list string) : list string := pure_path <$> keep (λ raw, negb (bool_decide (raw = ""))) roots.

Lemma add_disabled_NoDup cur nxt : NoDup cur → NoDup (add_disabled cur nxt).
Proof.
  unfold add_disabled. revert cur. induction nxt as [|x nxt IH]; intros cur Hc; cbn; [done|].
  apply IH. case_bool_decide; [done|]. apply NoDup_app. split_and!; [done| |apply NoDup_singleton]. set_solver.
Qed.

Lemma dedupe_go_spec acc roots :
  match dedupe_go acc roots with
  | Ok l => existsb bad_root roots = false ∧ l = add_disabled acc (named_roots roots)
  | Raise e => existsb bad_root roots = true ∧ ∃ msg, e = SandboxPolicyError msg
  end.
Proof.
  revert acc. induction roots as [|raw roots IH]; intros acc; [done|].
  unfold named_roots. cbn [dedupe_go keep existsb]. unfold bad_root at 1 3.
  case_bool_decide as Hne; cbn [negb andb orb]; [apply IH|].
  destruct (starts_with "/" raw) eqn:Hs; cbn [negb orb andb ensure]; [|cbn; by eauto].
  unfold validate_writable_root. destruct (bool_decide (pure_path raw ∈ TOO_BROAD)) eqn:Hb; cbn [negb ensure orb]; [cbn; by eauto|].
  cbn. apply IH.
Qed.

Lemma splitroot_absolute t rest root : splitroot (String slash t) = (root, rest) → root = "/" ∨ root = "//".
Proof.
  unfold splitroot. pose proof (starts_with_app "/" t) as Hs. change ("/" +:+ t)%string with (String slash t) in Hs. rewrite Hs.
  destruct (starts_with "///" _); [intros [= <- _]; auto|]. destruct (starts_with "//" _); intros [= <- _]; auto.
Qed.

(** An absolute path in pathlib's form, without [..] and with one leading slash, is its own
    normal form. *)
Lemma pure_path_normal raw :
  starts_with "/" raw = true → starts_with "//" (pure_path raw) = false → ".." ∉ split_on slash (pure_path raw) →
  normpath (pure_path raw) = pure_path raw.
Proof.
  intros [t ->]%starts_with_inv Hs Hdd. change ("/" +:+ t) with (String slash t) in *.
  assert (∃ rest, pure_path (String slash t) = "/" +:+ join_with "/" (path_parts rest)) as [rest Hp].
  { unfold pure_path in *. destruct (splitroot (String slash t)) as [root rest] eqn:E. exists rest.
    assert (root = "/" ∨ root = "//") as [-> | ->] by (by apply (splitroot_absolute t rest)).
    - done.
    - exfalso. revert Hs. change (starts_with "//" ("//" +:+ join_with "/" (path_parts rest)) = false → False).
      by rewrite starts_with_app. }
  rewrite Hp in *. clear Hp. pose proof (path_parts_plain rest) as Hpl.
  assert (∀ c, c ∈ path_parts rest → real_segment c = true) as Hreal by (intros c [? _]%elem_of_keep; done).
  set (l := path_parts rest) in *. clearbody l.
  assert (starts_with "///" ("/" +:+ join_with "/" l) = false) as H3.
  { apply not_true_iff_false. intros [u Hu]%starts_with_inv. rewrite Hu in Hs. done. }
  change (normpath ("/" +:+ join_with "/" l)) with
    (let (root, r) := splitroot ("/" +:+ join_with "/" l) in
     match root +:+ join_with "/" (normpath_comps (negb (bool_decide (root = ""))) [] (split_on slash r)) with
     | EmptyString => "." | p => p end).
  unfold splitroot. rewrite H3, Hs, starts_with_app. change (drop_str 1 ("/" +:+ join_with "/" l)) with (join_with "/" l).
  change (split_on slash ("/" +:+ join_with "/" l)) with ("" :: split_on slash (join_with "/" l)) in Hdd.
  rewrite normpath_comps_no_dotdot by set_solver. cbn [rev app].
  destruct l as [|c l]; [done|]. rewrite split_on_join by done. by rewrite keep_all.
Qed.

(** A network argument that says [allow] explicitly. *)
Definition explicit_allow (net : network_arg) : Prop :=
  match net with
  | NetObject n => np_defaultAction n = "allow"
  | NetValue v => ∃ d, v = PDict d ∧ pget "defaultAction" d = PStr "allow"
  end.

Lemma network_access_explicit net : network_access_allowed net = true ↔ explicit_allow net.
Proof.
  destruct net as [n|[| | | | | |d]]; cbn; try (split; [done|by intros (? & ? & _)]); [apply bool_decide_eq_true|].
  split; [|intros (d' & [= <-] & ->); done]. destruct (pget "defaultAction" d) eqn:E; cbn; try done.
  intros ->%bool_decide_eq_true. eauto.
Qed.

Lemma normalize_mode_spec mode :
  match normalize_mode mode with
  | Ok m => m = replace_char (Ascii.ascii_of_nat 95) (Ascii.ascii_of_nat 45) mode ∧ (m = "read-only" ∨ m = "workspace-write" ∨ m = "danger-full-access")
  | Raise e => e = SandboxPolicyError "unsupported sandbox mode"
  end.
Proof.
  unfold normalize_mode. destruct (dmem _ _) eqn:E; cbn [ensure mbind]; cbn; [|done]. split; [done|].
  unfold dmem in E. cbn in E. repeat case_decide; subst; auto. done.
Qed.

Lemma pure_path_absolute raw : starts_with "/" raw = true → starts_with "/" (pure_path raw) = true.
Proof.
  intros [t ->]%starts_with_inv. unfold pure_path. change ("/" +:+ t) with (String slash t).
  destruct (splitroot (String slash t)) as [root rest] eqn:E.
  destruct (splitroot_absolute _ _ _ E) as [-> | ->]; [apply (starts_with_app "/")|].
  change (starts_with "/" ("/" +:+ ("/" +:+ join_with "/" (path_parts rest))) = true). apply starts_with_app.
Qed.

Lemma named_root_narrow roots r :
  existsb bad_root roots = false → r ∈ named_roots roots →
  starts_with "/" r = true ∧ (starts_with "//" r = false → ".." ∉ split_on slash r → normpath r ∉ TOO_BROAD).
Proof.
  intros Hb (raw & -> & [Hne Hin]%elem_of_keep)%list_elem_of_fmap.
  assert (bad_root raw = false) as Hbad.
  { apply not_true_iff_false. intros E. apply not_true_iff_false in Hb. apply Hb, existsb_exists. exists raw. by rewrite <-list_elem_of_In. }
  unfold bad_root in Hbad. rewrite Hne in Hbad. cbn [andb] in Hbad. bsimp.
  split; [by apply pure_path_absolute|]. intros Hs Hdd. by rewrite pure_path_normal.
Qed.

(** The policy a turn is started with: unless the mode is [danger-full-access] it opens the network
    only when the effective policy says [allow] explicitly, anything else (absent, malformed, [deny])
    keeps it closed; in [workspace-write] the writable roots are the declared ones in pathlib's form,
    each once, absolute and none of them one of the refused directories.  A refusal names a mode
    the adapter does not know, or a declared root that is relative or is one of those directories. *)
Theorem turn_sandbox_policy_narrow mode roots net :
  match to_turn_sandbox_policy mode roots net, normalize_mode mode with
  | Ok policy, Ok m =>
      (pget "networkAccess" policy = PBool true ↔ m ≠ "danger-full-access" ∧ explicit_allow net) ∧
      (m ≠ "danger-full-access" → ¬ explicit_allow net → pget "networkAccess" policy = PBool false) ∧
      (pget "type" policy = PStr "dangerFullAccess" ↔ m = "danger-full-access") ∧
      if bool_decide (m = "workspace-write") then
        ∃ l, pget "writableRoots" policy = PList (PStr <$> l) ∧ NoDup l ∧
          (∀ r, r ∈ l ↔ ∃ raw, raw ∈ roots ∧ raw ≠ "" ∧ r = pure_path raw) ∧
          ∀ r, r ∈ l → starts_with "/" r = true ∧
            (starts_with "//" r = false → ".." ∉ split_on slash r → normpath r ∉ TOO_BROAD)
      else pget "writableRoots" policy = PNone
  | Raise (SandboxPolicyError _), Ok m =>
      m = "workspace-write" ∧ ∃ raw, raw ∈ roots ∧ raw ≠ "" ∧ (starts_with "/" raw = false ∨ pure_path raw ∈ TOO_BROAD)
  | Raise (SandboxPolicyError _), Raise _ => True
  | _, _ => False
  end.
Proof.
  unfold to_turn_sandbox_policy. pose proof (normalize_mode_spec mode) as Hm.
  destruct (normalize_mode mode) as [m|e]; cbn [mbind]; cbn; [|by subst].
  destruct Hm as [_ Hm]. pose proof (network_access_explicit net) as Hn.
  assert ((PBool (network_access_allowed net) = PBool true ↔ explicit_allow net) ∧
          (¬ explicit_allow net → PBool (network_access_allowed net) = PBool false)) as [Hn1 Hn2].
  { split; [rewrite <-Hn; split; congruence|]. destruct (network_access_allowed net); [tauto|done]. }
  case_bool_decide as Hw; subst.
  - pose proof (dedupe_go_spec [] roots) as Hr. unfold dedupe_writable_roots. destruct (dedupe_go [] roots) as [l|e]; cbn.
    + destruct Hr as [Hb Hl]. rewrite Hn1. split; [split; [by intros ?|by intros [_ ?]]|]. split; [by intros _|].
      split; [by split|]. exists l. split; [done|]. split; [|split].
      * subst. apply add_disabled_NoDup. constructor.
      * intros r. rewrite Hl, add_disabled_sup. unfold named_roots. rewrite list_elem_of_fmap. setoid_rewrite elem_of_keep.
        setoid_rewrite negb_true_iff. setoid_rewrite bool_decide_eq_false. set_solver.
      * intros r Hin. rewrite Hl, add_disabled_sup in Hin. destruct Hin as [[]%elem_of_nil|Hin].
        by apply named_root_narrow with roots.
    + destruct Hr as [Hb (msg & ->)]. split; [done|]. apply existsb_exists in Hb as (raw & Hin%list_elem_of_In & Hb).
      exists raw. unfold bad_root in Hb. apply andb_true_iff in Hb as [Hb1 Hb2]. apply orb_true_iff in Hb2. bsimp.
      split_and!; [done..|]. destruct Hb2; bsimp; auto.
  - destruct Hm as [-> |[-> | ->]]; [|done|]; cbn; rewrite ?Hn1; repeat split; intros; try done; tauto.
Qed.

(** ** What the two projections leave open *)

(** Two spellings of a refused directory pass: a path with two leading slashes names the root
    directory, and a path that climbs with [..] names any of them. *)
Theorem broad_root_accepted :
  to_turn_sandbox_policy "workspace-write" ["//"; "/data/worker/tmp/.."] (NetValue PNone) =
    Ok [("type", PStr "workspaceWrite"); ("writableRoots", PList [PStr "//"; PStr "/data/worker/tmp/.."]);
        ("networkAccess", PBool false)] ∧
  normpath "/data/worker/tmp/.." = "/data/worker" ∧ path_parts "//" = [].
Proof. by vm_compute. Qed.

(** The compiled sandbox depends neither on the policy's workspace mode nor on the declared
    approval mode: under a [read-only] policy the writable roots stay writable. *)
Theorem sandbox_spec_ignores_modes `{PathResolver} policy mode cwd roots approval approval' sid :
  let ws := ep_workspace policy in
  compile_sandbox_spec
    (mkEffectivePolicy (ep_policyId policy) (ep_version policy) (ep_scope policy)
       (mkWorkspacePolicy mode (wp_root ws) (wp_writableRoots ws)) (ep_network policy) (ep_tools policy) (ep_model policy))
    (mkSandboxDecl cwd roots approval) sid =
  compile_sandbox_spec policy (mkSandboxDecl cwd roots approval') sid.
Proof. done. Qed.

Module SandboxExamples.
Import PolicyExamples.

Definition declared : HarnessSandboxDecl := mkSandboxDecl "/workspace/a" ["/workspace/a/out"] "on-request".
Definition spec : SandboxSpec :=
  mkSandboxSpec "s" "/workspace/a" ["/workspace/a/out"] [] (mkSandboxNetwork "deny" ["https://a.example"])
    default_resources default_vault.

Example compiles : compile_sandbox_spec compiled declared "s" = Ok spec.
Proof. by vm_compute. Qed.

Example refuses_widening :
  compile_sandbox_spec compiled (mkSandboxDecl "/workspace/a" ["/workspace/b"] "on-request") "s" =
  Raise (SandboxWideningRejected "decl writable root widens policy").
Proof. by vm_compute. Qed.

Lemma sandbox_obeys_layers_witness :
  declares_within compiled declared ∧
  (∀ layer, layer ∈ ci_layers two_layers → spec_obeys spec layer) ∧
  (∃ layer n, layer ∈ ci_layers two_layers ∧ pl_network layer = Some n ∧ "https://a.example" ∈ np_allow n) ∧
  (∀ text path comps, text ∈ ss_writableRoots spec → text = path_str comps → Forall plain comps →
     comps `prefix_of` resolve path → pd_allowed (authorize_workspace_path compiled path "write") = true).
Proof.
  destruct (sandbox_obeys_layers "pol_1" two_layers compiled declared "s" two_layers_no_delegation compile_two_layers)
    as (Hd & Ho & Hh & _ & Hp).
  split; [exact Hd|]. split; [exact Ho|]. split; [apply Hh; left|exact Hp].
Defined.

End SandboxExamples.
