(* ===== verification/Mcp.v ===== *)
(** * MCP servers, skills and tool restrictions (haas/mcp/runtime.py, haas/mcp/models.py)

    [validate_mcp_server] lists what is wrong with a server's configuration, its URL checked
    by the policy controller (Policy.v); [materialize_skills] turns enabled skill bundles into
    lists of paths below the skill's root; [enforce_disabled_tools] reports how the adapter
    enforces each disabled tool. *)

From S2P Require Import Prelude Errors Dict PyVal Paths Policy.

#[local] Open Scope string_scope.
#[local] Open Scope list_scope.

(** ** Models *)

Record McpServerConfig := mkMcpServer {
  ms_name : string; ms_url : string; ms_transport : string; ms_enabled : bool; ms_headers : dict string string;
  ms_authType : string; ms_authRef : string; ms_timeoutSeconds : Z; ms_required : bool;
}.
Record SkillFile := mkSkillFile { sf_path : string; sf_content : string }.
Record SkillBundle := mkSkillBundle {
  sb_id : string; sb_name : string; sb_enabled : bool; sb_files : list SkillFile; sb_fingerprint : string;
}.
Record ToolRestrictionResult := mkToolRestriction {
  tr_tool : string; tr_requested : string; tr_enforcement : string; tr_adapterId : string; tr_safeReason : string;
}.

Definition VALID_TRANSPORTS : list string := ["http"; "sse"; "stdio"].
Definition VALID_AUTH_TYPES : list string := ["none"; "secret_ref"].
Definition VALID_TOOL_ENFORCEMENT : list string := ["hard"; "advisory"; "unsupported"].

(** ** Server configurations *)

(** [_default_mcp_url_policy] *)
Definition default_mcp_url_policy : EffectivePolicy :=
  mkEffectivePolicy "pol_mcp_default" 1 (mkPolicyScope "" "" "" "") default_workspace
    (mkNetworkPolicy "allow" []) default_tools default_model.

Definition error_if (b : bool) (code : string) : list string := if b then [code] else [].

Section servers.
Context `{NetLib}.

(** The errors about the URL; a malformed one raises. *)
Definition url_errors (url : string) (policy : option EffectivePolicy) : result (list string) :=
  if bool_decide (url = "") then Ok ["url_required"]
  else if negb (starts_with "http://" url || starts_with "https://" url) then Ok ["url_scheme_invalid"]
  else
    decision ← authorize_network (default default_mcp_url_policy policy) url;
    Ok (error_if (negb (pd_allowed decision)) ("url_" +:+ pd_safeReason decision)).

(** [validate_mcp_server] *)
Definition validate_mcp_server (server : McpServerConfig) (policy : option EffectivePolicy) : result (list string) :=
  about_url ← url_errors (ms_url server) policy;
  Ok (error_if (bool_decide (ms_name server = "")) "name_required" ++
      about_url ++
      error_if (negb (bool_decide (ms_transport server ∈ VALID_TRANSPORTS))) "transport_invalid" ++
      error_if (negb (bool_decide (ms_authType server ∈ VALID_AUTH_TYPES))) "auth_type_invalid" ++
      error_if (bool_decide (ms_authType server = "secret_ref") && bool_decide (ms_authRef server = "")) "auth_ref_required").

End servers.

(** ** Skills *)

Definition nul_char : Ascii.ascii := Ascii.ascii_of_nat 0.
Definition backslash : Ascii.ascii := Ascii.ascii_of_nat 92.

(** [_safe_skill_path] *)
Definition safe_skill_path (path : string) : result string :=
  if bool_decide (path = "") || str_exists (λ a, Ascii.eqb a nul_char) path
  then Raise (SkillMaterializationError "skill_path_empty")
  else if starts_with "/" path || starts_with (String backslash "") path
  then Raise (SkillMaterializationError "skill_path_absolute")
  else
    let normalized := normpath path in
    if bool_decide (normalized ∈ ["."; ".."]) || starts_with "../" normalized
    then Raise (SkillMaterializationError "skill_path_traversal")
    else Ok normalized.

(** The inner loop: the safe path of every file. *)
Fixpoint skill_paths (files : list SkillFile) : result (list string) :=
  match files with
  | [] => Ok []
  | file :: files' =>
      p ← safe_skill_path (sf_path file);
      ps ← skill_paths files';
      Ok (p :: ps)
  end.

(** [materialize_skills]; [acc] is [result]. *)
Fixpoint materialize_go (acc : dict string (list string)) (skills : list SkillBundle) : result (dict string (list string)) :=
  match skills with
  | [] => Ok acc
  | skill :: skills' =>
      if negb (sb_enabled skill) then materialize_go acc skills'
      else
        paths ← skill_paths (sb_files skill);
        _ ← ensure (bool_decide ("SKILL.md" ∈ paths)) (SkillMaterializationError ("skill " +:+ sb_name skill +:+ " missing SKILL.md"));
        materialize_go (dset (sb_id skill) paths acc) skills'
  end.

Definition materialize_skills (skills : list SkillBundle) : result (dict string (list string)) := materialize_go [] skills.

(** ** Disabled tools *)

(** [enforce_disabled_tools] *)
Definition enforce_disabled_tools (adapter_id capability : string) (disabled : list string) : list ToolRestrictionResult :=
  let capability := if negb (bool_decide (capability ∈ VALID_TOOL_ENFORCEMENT)) then "unsupported" else capability in
  let safe_reason := if bool_decide (capability = "hard") then "native_permission_config" else "advisory_instruction" in
  (λ tool, mkToolRestriction tool "deny" capability adapter_id safe_reason) <$> disabled.

(** ** Which paths are accepted *)

(** A path below the skill's root: names joined by slashes. *)
Definition below_root (p : string) : Prop := ∃ l, l ≠ [] ∧ Forall name_comp l ∧ p = join_with "/" l.

(** What [_safe_skill_path] accepts. *)
Definition skill_path_ok (path : string) : Prop :=
  path ≠ "" ∧ str_exists (λ a, Ascii.eqb a nul_char) path = false ∧ starts_with "/" path = false ∧
  starts_with (String backslash "") path = false ∧ normpath path ∉ ["."; ".."] ∧ starts_with "../" (normpath path) = false.

#[export] Instance skill_path_ok_dec path : Decision (skill_path_ok path).
Proof. unfold skill_path_ok. apply _. Defined.

Lemma safe_skill_path_spec path :
  match safe_skill_path path with
  | Ok p => skill_path_ok path ∧ p = normpath path
  | Raise e => ¬ skill_path_ok path ∧ ∃ msg, e = SkillMaterializationError msg
  end.
Proof.
  unfold safe_skill_path, skill_path_ok.
  destruct (bool_decide (path = "")) eqn:E1; bsimp; [split; [tauto|eauto]|].
  destruct (str_exists _ path); cbn [orb]; [split; [naive_solver|eauto]|].
  destruct (starts_with "/" path); cbn [orb]; [split; [naive_solver|eauto]|].
  destruct (starts_with (String backslash "") path); [split; [naive_solver|eauto]|].
  destruct (bool_decide (normpath path ∈ _)) eqn:E5; bsimp; cbn [orb]; [split; [tauto|eauto]|].
  destruct (starts_with "../" _); [split; [naive_solver|eauto]|]. done.
Qed.

Lemma safe_path_below path : skill_path_ok path → below_root (normpath path).
Proof. intros (_ & _ & Hs & _ & Hd & Hu). by apply normpath_names. Qed.

(** What [materialize_skills] asks of an enabled skill. *)
Definition skill_ok (skill : SkillBundle) : Prop :=
  Forall (λ f, skill_path_ok (sf_path f)) (sb_files skill) ∧
  "SKILL.md" ∈ (normpath ∘ sf_path <$> sb_files skill).

Lemma skill_paths_spec files :
  match skill_paths files with
  | Ok ps => Forall (λ f, skill_path_ok (sf_path f)) files ∧ ps = normpath ∘ sf_path <$> files
  | Raise e => ¬ Forall (λ f, skill_path_ok (sf_path f)) files ∧ ∃ msg, e = SkillMaterializationError msg
  end.
Proof.
  induction files as [|f files IH]; [by split|]. cbn [skill_paths].
  pose proof (safe_skill_path_spec (sf_path f)) as Hf.
  destruct (safe_skill_path (sf_path f)) as [p|e]; cbn.
  - destruct Hf as [Hf ->]. destruct (skill_paths files) as [ps|e]; cbn.
    + destruct IH as [? ->]. split; [by constructor|done].
    + destruct IH as [Hn ?]. split; [by intros [_ ?]%Forall_cons|done].
  - destruct Hf as [Hn ?]. split; [by intros [? _]%Forall_cons|done].
Qed.

(** The enabled skills with an id. *)
Definition enabled_as (id : string) (skill : SkillBundle) : bool := sb_enabled skill && bool_decide (sb_id skill = id).

Lemma materialize_go_spec acc skills :
  match materialize_go acc skills with
  | Ok d => Forall (λ s, sb_enabled s = true → skill_ok s) skills ∧
      ∀ id, dget id d = match last (keep (enabled_as id) skills) with
                        | Some s => Some (normpath ∘ sf_path <$> sb_files s)
                        | None => dget id acc
                        end
  | Raise e => ¬ Forall (λ s, sb_enabled s = true → skill_ok s) skills ∧ ∃ msg, e = SkillMaterializationError msg
  end.
Proof.
  revert acc. induction skills as [|s skills IH]; intros acc; [by split|]. cbn [materialize_go keep].
  destruct (sb_enabled s) eqn:Es; cbn [negb].
  - pose proof (skill_paths_spec (sb_files s)) as Hp. destruct (skill_paths (sb_files s)) as [ps|e]; cbn.
    + destruct Hp as [Hp ->]. case_bool_decide as Hm; cbn.
      * specialize (IH (dset (sb_id s) (normpath ∘ sf_path <$> sb_files s) acc)).
        destruct (materialize_go _ skills) as [d|e].
        -- destruct IH as [Ha Hd]. split; [by constructor|]. intros id. rewrite Hd. unfold enabled_as at 2. rewrite Es. cbn [andb].
           case_bool_decide as Hid; [subst|].
           ++ rewrite last_cons. destruct (last (keep _ skills)); [done|]. by rewrite dget_dset_eq.
           ++ destruct (last (keep _ skills)); [done|]. by rewrite dget_dset_ne.
        -- destruct IH as [Hn ?]. split; [by intros [_ ?]%Forall_cons|done].
      * split; [|by eauto]. intros [Hs _]%Forall_cons. by destruct (Hs Es).
    + destruct Hp as [Hn ?]. split; [|done]. intros [Hs _]%Forall_cons. by destruct (Hs Es).
  - specialize (IH acc). unfold enabled_as at 1. rewrite Es. cbn [andb].
    destruct (materialize_go acc skills) as [d|e].
    + destruct IH as [Ha Hd]. split; [constructor; [by rewrite Es|done]|done].
    + destruct IH as [Hn ?]. split; [by intros [_ ?]%Forall_cons|done].
Qed.

(** Materializing succeeds exactly when every enabled skill has a [SKILL.md] and only acceptable
    paths; the result then maps an id to the normalized paths of the last enabled skill with that
    id, and every path of it is a non-empty sequence of names below the skill's root (no [.],
    no [..], not absolute), [SKILL.md] among them. *)
Theorem materialized_paths_below_root skills :
  match materialize_skills skills with
  | Ok d =>
      Forall (λ s, sb_enabled s = true → skill_ok s) skills ∧
      (∀ id, dget id d = (λ s, normpath ∘ sf_path <$> sb_files s) <$> last (keep (enabled_as id) skills)) ∧
      ∀ id paths, dget id d = Some paths → "SKILL.md" ∈ paths ∧ Forall below_root paths
  | Raise e => ¬ Forall (λ s, sb_enabled s = true → skill_ok s) skills ∧ ∃ msg, e = SkillMaterializationError msg
  end.
Proof.
  unfold materialize_skills. pose proof (materialize_go_spec [] skills) as Hg.
  destruct (materialize_go [] skills) as [d|e]; [|done]. destruct Hg as [Hall Hd].
  split; [done|]. split; [intros id; rewrite Hd; by destruct (last _)|].
  intros id paths Hp. rewrite Hd in Hp. destruct (last (keep (enabled_as id) skills)) as [s|] eqn:El; [|done].
  injection Hp as <-. apply last_Some in El as (l & El).
  assert (s ∈ keep (enabled_as id) skills) as Hs by (rewrite El; set_solver).
  apply elem_of_keep in Hs as [[Hs _]%andb_true_iff Hin].
  destruct (proj1 (Forall_forall _ _) Hall s Hin Hs) as [Hpaths Hmd]. split; [done|].
  apply Forall_fmap. eapply Forall_impl; [apply Hpaths|]. intros f. apply safe_path_below.
Qed.

(** ** Which servers are accepted *)

Section accepted.
Context `{NetLib}.

Lemma error_if_nil b code : error_if b code = [] ↔ b = false.
Proof. by destruct b. Qed.

Lemma url_errors_nil url policy :
  url_errors url policy = Ok [] ↔
  url ≠ "" ∧ (starts_with "http://" url || starts_with "https://" url) = true ∧
  network_grant (default default_mcp_url_policy policy) url.
Proof.
  unfold url_errors. case_bool_decide as Hu; [split; [done|naive_solver]|].
  destruct (_ || _); cbn [negb]; [|split; [done|by intros (_ & [=] & _)]]. rewrite <-authorize_network_granted. unfold network_granted.
  destruct (authorize_network _ url) as [d|e]; cbn; [|split; [done|by intros (_ & _ & d & [=] & _)]].
  transitivity (pd_allowed d = true); [|naive_solver].
  destruct (pd_allowed d); cbn; by split.
Qed.

(** A configuration has no errors exactly when it is named, its URL is http(s) and granted by the
    policy (the caller's, or the default one), its transport and authentication type are known,
    and a secret reference is given when it is needed.  Without a caller's policy a granted URL
    never names a private, loopback or internal host.  A URL that is no URL, or a policy's
    allowlist entry that is none, makes the validation raise [ValueError] instead of reporting it. *)
Theorem mcp_server_valid server policy :
  (validate_mcp_server server policy = Ok [] ↔
   ms_name server ≠ "" ∧ ms_url server ≠ "" ∧
   (starts_with "http://" (ms_url server) || starts_with "https://" (ms_url server)) = true ∧
   network_grant (default default_mcp_url_policy policy) (ms_url server) ∧
   ms_transport server ∈ VALID_TRANSPORTS ∧ ms_authType server ∈ VALID_AUTH_TYPES ∧
   (ms_authType server = "secret_ref" → ms_authRef server ≠ "")) ∧
  (validate_mcp_server server None = Ok [] →
   ∃ u host, urlparse (ms_url server) = Ok u ∧ up_hostname u = Some host ∧ is_private_or_special host = false) ∧
  (∀ e, validate_mcp_server server policy = Raise e → ∃ msg, e = ValueError msg).
Proof.
  assert (∀ pol, validate_mcp_server server pol = Ok [] ↔
    ms_name server ≠ "" ∧ url_errors (ms_url server) pol = Ok [] ∧ ms_transport server ∈ VALID_TRANSPORTS ∧
    ms_authType server ∈ VALID_AUTH_TYPES ∧ (ms_authType server = "secret_ref" → ms_authRef server ≠ "")) as Hv.
  { intros pol. unfold validate_mcp_server. destruct (url_errors _ pol) as [l|e]; cbn; [|split; [done|by intros (_ & [=] & _)]].
    assert (∀ a b : list string, (Ok a : result _) = Ok b ↔ a = b) as Hok by (split; [by intros [= ->]|by intros ->]).
    rewrite !Hok, !app_nil, !error_if_nil, !negb_false_iff, !bool_decide_eq_true, bool_decide_eq_false.
    rewrite andb_false_iff, !bool_decide_eq_false. destruct (decide (ms_authType server = "secret_ref")); tauto. }
  split_and!.
  - rewrite Hv, url_errors_nil. tauto.
  - intros (_ & Hu & _)%Hv. apply url_errors_nil in Hu as (_ & _ & u & host & port & allowed & Hp & _ & Hh & _ & _ & Ha & Hg).
    exists u, host. split_and!; [done..|]. apply not_true_iff_false. intros Hs. rewrite Hg in Ha by (by left). by cbn in Ha.
  - intros e. unfold validate_mcp_server, url_errors. repeat (case_bool_decide || case_match); cbn; try done.
    all: destruct (authorize_network _ _) as [d|e'] eqn:Ha; cbn; try done; intros [= <-].
    all: by destruct (authorize_network_raises _ _ _ Ha) as (? & msg & _ & _ & ->); exists msg.
Qed.

End accepted.

(** Every disabled tool is reported, in order, as a requested denial with the adapter's declared
    enforcement; a block is reported as hard only by an adapter that declares it. *)
Theorem restrictions_truthful adapter capability disabled :
  tr_tool <$> enforce_disabled_tools adapter capability disabled = disabled ∧
  ∀ r, r ∈ enforce_disabled_tools adapter capability disabled →
    tr_requested r = "deny" ∧ tr_adapterId r = adapter ∧
    tr_enforcement r ∈ VALID_TOOL_ENFORCEMENT ∧
    (capability ∈ VALID_TOOL_ENFORCEMENT → tr_enforcement r = capability) ∧
    (tr_enforcement r = "hard" ↔ capability = "hard") ∧
    (tr_safeReason r = "native_permission_config" ↔ capability = "hard").
Proof.
  unfold enforce_disabled_tools. split; [rewrite <-list_fmap_compose; by induction disabled as [|t l IH]; cbn; [|rewrite IH]|].
  intros r (tool & -> & _)%list_elem_of_fmap. cbn [tr_requested tr_adapterId tr_enforcement tr_safeReason].
  destruct (bool_decide (capability ∈ VALID_TOOL_ENFORCEMENT)) eqn:E; bsimp; cbn [negb].
  - split; [done|]. split; [done|]. split; [done|]. split; [done|]. split; [done|].
    destruct (decide (capability = "hard")) as [->|Hne]; [done|]. rewrite bool_decide_eq_false_2 by done. by split.
  - assert (capability ≠ "hard") by (intros ->; apply E; by vm_compute; left).
    change (bool_decide ("unsupported" = "hard")) with false. split; [done|]. split; [done|].
    split; [by vm_compute; right; right; left|]. split; [done|]. by split; split.
Qed.

(** ** What the checks leave open *)

(** Only a leading backslash is refused, and of the control characters only NUL: a skill path
    with backslashes and a newline in it is materialized as it is. *)
Theorem backslashes_accepted :
  let evil := "a" +:+ String backslash ".." +:+ String backslash ".." +:+ String (Ascii.ascii_of_nat 10) "b" in
  materialize_skills [mkSkillBundle "s" "s" true [mkSkillFile "SKILL.md" ""; mkSkillFile evil ""] ""] =
  Ok [("s", ["SKILL.md"; evil])].
Proof. by vm_compute. Qed.

(** Two enabled skills with one id: the first one's files are lost without an error. *)
Theorem duplicate_skill_id_drops_files :
  materialize_skills
    [mkSkillBundle "s" "first" true [mkSkillFile "SKILL.md" ""; mkSkillFile "ref/a.md" ""] "";
     mkSkillBundle "s" "second" true [mkSkillFile "SKILL.md" ""] ""] = Ok [("s", ["SKILL.md"])].
Proof. by vm_compute. Qed.

Module McpExamples.
Import PolicyExamples.

Example traversal_refused :
  materialize_skills [mkSkillBundle "s" "s" true [mkSkillFile "SKILL.md" ""; mkSkillFile "ref/../../x" ""] ""] =
  Raise (SkillMaterializationError "skill_path_traversal").
Proof. by vm_compute. Qed.

Definition server : McpServerConfig := mkMcpServer "docs" "https://a.example/x" "http" true [] "none" "" 60 false.
Example server_valid : validate_mcp_server server None = Ok [].
Proof. by vm_compute. Qed.
Example server_invalid :
  validate_mcp_server (mkMcpServer "" "https://b.example" "tcp" true [] "secret_ref" "" 60 false) None =
  Ok ["name_required"; "url_url_scheme_not_allowed"; "transport_invalid"; "auth_ref_required"].
Proof. by vm_compute. Qed.

(** A malformed URL is not reported as an error of the configuration: validating it raises. *)
Example malformed_server_url_raises :
  validate_mcp_server (mkMcpServer "docs" "https://[a" "http" true [] "none" "" 60 false) None = Raise (ValueError "Invalid IPv6 URL").
Proof. by vm_compute. Qed.

End McpExamples.
