(* ===== verification/Registry.v ===== *)
(** * Harness registry (haas/registry.py)

    The catalog of configured harnesses: skill-bundle and provider validation, scope-bound
    reads and name resolution, and the writes with their immutable-field rules.
    Identifiers and clock readings are arguments; [known] is the set of bases with an
    assembled adapter. *)

From S2P Require Import Prelude Errors Dict PyVal Paths Records Store SessionStore Identity.

#[local] Open Scope string_scope.
#[local] Open Scope list_scope.
#[local] Open Scope Z_scope.

Definition IMMUTABLE_FIELDS : list string := ["id"; "base"; "createdAtMs"].

Definition BASE_LABELS : dict string string :=
  [("codex", "Codex"); ("pi", "Pi"); ("opencode", "OpenCode"); ("amp", "AMP"); ("fake", "Fake")].

(** ** Skill paths *)

(** The text after the first character: a leading byte takes its continuation bytes along. *)
Fixpoint drop_cont (s : string) : string :=
  match s with
  | String a s' => if (128 <=? ord a)%nat && (ord a <? 192)%nat then drop_cont s' else s
  | EmptyString => EmptyString
  end.
Definition after_first_char (s : string) : string :=
  match s with String _ s' => drop_cont s' | EmptyString => EmptyString end.

Definition is_control (a : Ascii.ascii) : bool := (ord a <? 32)%nat || (ord a =? 127)%nat.

(** [_validate_skill_path] *)
Definition validate_skill_path (path : string) : result unit :=
  _ ← ensure (negb (starts_with "/" path || starts_with ":" (after_first_char path)))
        (SkillBundleInvalidError "absolute skill path");
  _ ← ensure (negb (str_exists is_control path)) (SkillBundleInvalidError "control character in skill path");
  _ ← ensure (negb (str_exists (Ascii.eqb (Ascii.ascii_of_nat 92)) path)) (SkillBundleInvalidError "backslash in skill path");
  let normalized := normpath path in
  _ ← ensure (negb (starts_with "../" normalized || bool_decide (normalized ∈ [".."; "."])))
        (SkillBundleInvalidError "skill path escapes bundle root");
  ensure (negb (existsb (λ segment, bool_decide (segment = "..")) (split_on slash path)))
    (SkillBundleInvalidError "skill path contains a parent segment").

(** The paths of a bundle's files, each validated on the way. *)
Fixpoint bundle_paths (files : list pyval) : result (list string) :=
  match files with
  | [] => Ok []
  | PDict entry :: files' =>
      match pget "path" entry with
      | PStr (String a s as path) =>
          _ ← validate_skill_path path;
          paths ← bundle_paths files';
          Ok (path :: paths)
      | _ => Raise (SkillBundleInvalidError "skill file requires a path")
      end
  | _ :: _ => Raise (SkillBundleInvalidError "skill file must be an object")
  end.

(** [validate_skills] *)
Fixpoint validate_skills (skills : list pyval) : result (list pydict) :=
  match skills with
  | [] => Ok []
  | PDict bundle :: skills' =>
      match pget "files" bundle with
      | PList files =>
          paths ← bundle_paths files;
          if truthy (default (PBool true) (dget "enabled" bundle)) && negb (bool_decide ("SKILL.md" ∈ paths))
          then Raise (SkillBundleInvalidError "enabled skill bundle requires SKILL.md")
          else
            rest ← validate_skills skills';
            Ok (bundle :: rest)
      | _ => Raise (SkillBundleInvalidError "skill bundle requires files[]")
      end
  | _ :: _ => Raise (SkillBundleInvalidError "skill bundle must be an object")
  end.

(** ** Providers *)

(** [validate_provider_config] *)
Definition validate_provider_config (p : ProviderConfig) : result unit :=
  _ ← ensure (negb (bool_decide (pc_providerId p = ""))) (ValueError "providerId is required");
  _ ← ensure (negb (bool_decide (pc_name p = ""))) (ValueError "provider name is required");
  _ ← ensure (bool_decide (pc_wireApi p ∈ ["openai-compatible"; "responses"; "agent-plan"]))
        (ValueError "unsupported wireApi");
  if bool_decide (pc_wireApi p = "responses")
  then ensure (bool_decide (pc_apiType p = "responses")) (ValueError "responses wireApi requires apiType=responses")
  else ensure (bool_decide (pc_apiType p ∈ ["responses"; "chat_completions"]))
         (ValueError (pc_wireApi p +:+ " wireApi requires apiType")).

Section registry.
Context `{PyRepr}.

(** [_provider_from] *)
Definition provider_from (value : pyval) : result (option ProviderConfig) :=
  match value with
  | PDict v =>
      let provider := mkProvider
        (str_or (pget "providerId" v) "") (str_or (pget "name" v) "openai-compatible")
        (str_or (pget "baseUrl" v) "") (str_or (pget "wireApi" v) "responses")
        (str_or (pget "apiType" v) "") (str_or (pget "credentialRef" v) "")
        (str_or (pget "credentialFingerprint" v) "") (str_or (pget "allowlistRuleId" v) "") in
      _ ← validate_provider_config provider;
      Ok (Some provider)
  | _ => Ok None
  end.

(** ** Mutable fields *)

(** The keyword arguments [_mutable_fields] returns: [None] when the key is absent. *)
Record mutable := mkMutable {
  mf_defaultModel : option (option string);
  mf_systemPrompt : option string;
  mf_mcpServers : option (list pydict);
  mf_skills : option (list pydict);
  mf_disabledTools : option (list string);
  mf_maxStep : option (option Z);
  mf_timeoutSeconds : option (option Z);
  mf_provider : option (option ProviderConfig);
}.

(** Run a projection when the key is in the body. *)
Definition if_in {A} (k : string) (body : pydict) (f : pyval → result A) : result (option A) :=
  match dget k body with
  | Some v => a ← f v; Ok (Some a)
  | None => Ok None
  end.

(** [[dict(item) for item in value if isinstance(item, dict)]], [[]] for a non-list. *)
Definition dict_items (value : pyval) : list pydict :=
  match value with
  | PList l => omap (λ item, match item with PDict d => Some d | _ => None end) l
  | _ => []
  end.

(** [int(value) if isinstance(value, int) else None] *)
Definition int_or_none (value : pyval) : option Z := if is_int value then Some (int_of value) else None.

(** [_mutable_fields] *)
Definition mutable_fields (body : pydict) : result mutable :=
  defaultModel ← if_in "defaultModel" body (λ v, Ok (if is_none v then None else Some (py_str v)));
  systemPrompt ← if_in "systemPrompt" body (λ v, Ok (str_or v ""));
  mcpServers ← if_in "mcpServers" body (λ v, Ok (dict_items v));
  skills ← if_in "skills" body (λ v, validate_skills (PDict <$> dict_items v));
  disabledTools ← if_in "disabledTools" body (λ v, Ok (match v with PList l => py_str <$> l | _ => [] end));
  maxStep ← if_in "maxStep" body (λ v, Ok (int_or_none v));
  timeoutSeconds ← if_in "timeoutSeconds" body (λ v, Ok (int_or_none v));
  provider ← if_in "provider" body provider_from;
  Ok (mkMutable defaultModel systemPrompt mcpServers skills disabledTools maxStep timeoutSeconds provider).

(** [replace(record, **fields)] *)
Definition with_mutable (f : mutable) (h : HarnessRecord) : HarnessRecord :=
  h <| h_defaultModel := default (h_defaultModel h) (mf_defaultModel f) |>
    <| h_systemPrompt := default (h_systemPrompt h) (mf_systemPrompt f) |>
    <| h_mcpServers := default (h_mcpServers h) (mf_mcpServers f) |>
    <| h_skills := default (h_skills h) (mf_skills f) |>
    <| h_disabledTools := default (h_disabledTools h) (mf_disabledTools f) |>
    <| h_maxStep := default (h_maxStep h) (mf_maxStep f) |>
    <| h_timeoutSeconds := default (h_timeoutSeconds h) (mf_timeoutSeconds f) |>
    <| h_provider := default (h_provider h) (mf_provider f) |>.

(** The constructor's defaults for a harness with the required fields. *)
Definition new_harness (id name base status : string) (account : AccountKey) (now : Z) : HarnessRecord :=
  mkHarness id name base status None "" None account.1 account.2 [] [] [] None None 1 now now.

(** ** Reads *)

(** [HarnessRegistry._visible] *)
Definition visible (h : HarnessRecord) (p : Principal) : bool := bool_decide (harness_account_key h = account_of p).

(** [HarnessRegistry.get_scoped] *)
Definition get_scoped (p : Principal) (harness_id : string) (s : MemoryStore) : result HarnessRecord :=
  match get_harness harness_id s with
  | None => Raise (HarnessNotFoundError harness_id)
  | Some record =>
      if bool_decide (h_status record = "deleted") then Raise (HarnessNotFoundError harness_id)
      else if negb (visible record p) then Raise (HarnessNotFoundError harness_id)
      else Ok record
  end.

(** [HarnessRegistry.list_active] *)
Definition list_active (p : Principal) (s : MemoryStore) : list HarnessRecord :=
  keep (λ h, bool_decide (h_status h = "active")) (list_harnesses (Some (account_of p)) s).

(** [HarnessRegistry.list_apps] *)
Definition list_apps (p : Principal) (s : MemoryStore) : list string := h_id <$> list_active p s.

(** [HarnessRegistry.resolve_app] *)
Definition resolve_app (p : Principal) (app_name : string) (s : MemoryStore) : result HarnessRecord :=
  let by_name :=
    match keep (λ h, bool_decide (h_name h = app_name)) (list_active p s) with
    | [h] => Ok h
    | _ => Raise (AppNotFoundError app_name)
    end in
  match get_harness app_name s with
  | Some by_id =>
      if bool_decide (h_status by_id = "active") && visible by_id p then Ok by_id else by_name
  | None => by_name
  end.

(** [HarnessRegistry.resolve_default_app] *)
Definition resolve_default_app (p : Principal) (s : MemoryStore) : result HarnessRecord :=
  match list_active p s with
  | [] => Raise (AppNotFoundError "<default>")
  | h :: _ => Ok h
  end.

(** ** Writes *)

(** [HarnessRegistry._require_known_base] *)
Definition require_known_base (known : list string) (base : string) : result unit :=
  ensure (bool_decide (base ∈ known)) (UnsupportedBaseError base).

(** [HarnessRegistry.create]; [hex] is the fresh identifier's text. *)
Definition create_harness (known : list string) (now : Z) (hex : string) (p : Principal) (body : pydict)
    : store_m HarnessRecord :=
  match pget "base" body with
  | PStr base =>
      _ ← guard_or (negb (bool_decide (strip base = ""))) (ValueError "base is required");
      _ ← lift (require_known_base known base);
      let harness_id := "chrn_" +:+ hex in
      fields ← lift (mutable_fields body);
      let record := with_mutable fields
        (new_harness harness_id (str_or (pget "name" body) harness_id) base "active" (account_of p) now) in
      save_harness now record
  | _ => raise (ValueError "base is required")
  end.

(** [getattr(current, name)] for the immutable fields. *)
Definition immutable_field (h : HarnessRecord) (name : string) : pyval :=
  if bool_decide (name = "id") then PStr (h_id h)
  else if bool_decide (name = "base") then PStr (h_base h)
  else PInt (h_createdAtMs h).

(** [HarnessRegistry._reject_immutable_conflicts] *)
Definition reject_immutable_conflicts (current : HarnessRecord) (body : pydict) : result unit :=
  iter_result (λ name,
    match dget name body with
    | None => Ok tt
    | Some supplied => ensure (py_eqb supplied (immutable_field current name)) (ImmutableFieldError name)
    end) IMMUTABLE_FIELDS.

(** [HarnessRegistry.update] *)
Definition update_harness (known : list string) (now : Z) (p : Principal) (harness_id : string) (body : pydict)
    : store_m HarnessRecord :=
  found ← gets (get_scoped p harness_id);
  current ← lift found;
  _ ← lift (reject_immutable_conflicts current body);
  _ ← lift (match pget "base" body with
            | PStr base => if bool_decide (strip base = "") then Ok tt else require_known_base known base
            | _ => Ok tt
            end);
  fields ← lift (mutable_fields body);
  save_harness now (with_mutable fields (current <| h_name := str_or (pget "name" body) (h_name current) |>)).

(** [HarnessRegistry.delete] *)
Definition delete_scoped (now : Z) (p : Principal) (harness_id : string) : store_m unit :=
  found ← gets (get_scoped p harness_id);
  current ← lift found;
  _ ← save_harness now (current <| h_status := "deleted" |>);
  mret tt.

(** ** Serialization *)

Definition provider_to_dict (p : ProviderConfig) : pydict :=
  [("providerId", PStr (pc_providerId p)); ("name", PStr (pc_name p)); ("baseUrl", PStr (pc_baseUrl p));
   ("wireApi", PStr (pc_wireApi p)); ("apiType", PStr (pc_apiType p));
   ("credentialRef", PStr (pc_credentialRef p));
   ("credentialFingerprint", PStr (pc_credentialFingerprint p));
   ("allowlistRuleId", PStr (pc_allowlistRuleId p))].

(** [harness_to_dict] *)
Definition harness_to_dict (h : HarnessRecord) : pydict :=
  [("id", PStr (h_id h)); ("object", PStr "harness"); ("name", PStr (h_name h)); ("base", PStr (h_base h));
   ("baseLabel", PStr (default (h_base h) (dget (h_base h) BASE_LABELS)));
   ("defaultModel", PStr (default "" (h_defaultModel h))); ("systemPrompt", PStr (h_systemPrompt h));
   ("mcpServers", PList (PDict <$> h_mcpServers h)); ("skills", PList (PDict <$> h_skills h));
   ("disabledTools", PList (PStr <$> h_disabledTools h));
   ("provider", opt_dict_val (provider_to_dict <$> h_provider h));
   ("maxStep", opt_int_val (h_maxStep h)); ("timeoutSeconds", opt_int_val (h_timeoutSeconds h));
   ("createdAtMs", PInt (h_createdAtMs h)); ("updatedAtMs", PInt (h_updatedAtMs h))].

End registry.

(** ** Seeding *)

(** The account scopes [seed_codex] fans out to. *)
Definition seed_targets (principal : option Principal) (scopes : list AccountKey) : list AccountKey :=
  match scopes, principal with
  | [], None => [(None, None)]
  | [], Some p => [account_of p]
  | _, _ => scopes
  end.

Definition seed_id (index : nat) : string :=
  match index with O => "chrn_codex_default" | _ => "chrn_codex_default_" +:+ pretty (N.of_nat index) end.

Fixpoint seed_from (now : Z) (index : nat) (targets : list AccountKey) : store_m (list HarnessRecord) :=
  match targets with
  | [] => mret []
  | account :: targets' =>
      saved ← save_harness now
        ((new_harness (seed_id index) "codex-default" "codex" "active" account now)
           <| h_defaultModel := Some "gpt-5.6-terra" |>);
      rest ← seed_from now (S index) targets';
      mret (saved :: rest)
  end.

(** [seed_codex] *)
Definition seed_codex (now : Z) (principal : option Principal) (scopes : list AccountKey) : store_m HarnessRecord :=
  seeded ← seed_from now 0 (seed_targets principal scopes);
  match seeded with h :: _ => mret h | [] => raise (OtherError "IndexError" None) end.

(** ** Skill paths stay inside the bundle *)

(** What an accepted path looks like. *)
Definition safe_skill_path (path : string) : Prop :=
  starts_with "/" path = false ∧ starts_with ":" (after_first_char path) = false ∧
  str_exists is_control path = false ∧ str_exists (Ascii.eqb (Ascii.ascii_of_nat 92)) path = false ∧
  ".." ∉ split_on slash path ∧ path_parts path ≠ [].

Lemma validate_skill_path_safe path : validate_skill_path path = Ok tt ↔ safe_skill_path path.
Proof.
  unfold validate_skill_path, safe_skill_path.
  assert (existsb (λ seg, bool_decide (seg = "..")) (split_on slash path) = false ↔ ".." ∉ split_on slash path) as Hex.
  { rewrite <-not_true_iff_false, existsb_exists. setoid_rewrite bool_decide_eq_true.
    setoid_rewrite <-list_elem_of_In. naive_solver. }
  split.
  - intros ([] & H1%ensure_Ok & ([] & H2%ensure_Ok & ([] & H3%ensure_Ok &
      ([] & H4%ensure_Ok & H5%ensure_Ok)%bind_Ok)%bind_Ok)%bind_Ok)%bind_Ok.
    bsimp. apply Hex in H5. split_and!; try done.
    intros Hnil. match goal with Hn : normpath path ∉ _ |- _ => apply Hn end.
    rewrite normpath_nothing by done. set_solver.
  - intros (H1 & H2 & H3 & H4 & H5 & H6). rewrite H1, H2, H3, H4. cbn.
    rewrite normpath_relative, (proj2 Hex) by done. pose proof (path_parts_plain path).
    destruct (join_not_escaping (path_parts path)) as (-> & ? & ?); [done..| | |].
    + by intros [_ ?]%elem_of_keep.
    + by intros [? _]%elem_of_keep.
    + rewrite bool_decide_eq_false_2; [done|]. by intros [?|[?|[]%not_elem_of_nil]%elem_of_cons]%elem_of_cons.
Qed.

(** A skill path is accepted exactly when it is relative, has no drive prefix, control
    character, backslash or [..] segment and names something below the bundle root; the
    normalised path is then the path without its empty and [.] segments, so it lies
    under the bundle root. *)
Theorem skill_path_confined path :
  (validate_skill_path path = Ok tt ↔ safe_skill_path path) ∧
  (validate_skill_path path = Ok tt →
   normpath path = join_with "/" (path_parts path) ∧ ".." ∉ path_parts path ∧
   path_parts path ≠ []).
Proof.
  split; [apply validate_skill_path_safe|]. intros Hv%validate_skill_path_safe.
  destruct Hv as (H1 & _ & _ & _ & H5 & H6). split_and!; [by apply normpath_relative| |done].
  intros [_ ?]%elem_of_keep. done.
Qed.

Lemma skill_path_confined_witness :
  validate_skill_path "./docs//SKILL.md" = Ok tt ∧ normpath "./docs//SKILL.md" = "docs/SKILL.md".
Proof.
  assert (validate_skill_path "./docs//SKILL.md" = Ok tt) as H by (vm_compute; reflexivity).
  split; [exact H|]. destruct (proj2 (skill_path_confined "./docs//SKILL.md") H) as [Hn _].
  rewrite Hn. vm_compute. reflexivity.
Defined.

(** ** Bundles *)

Lemma validate_skills_dicts l bs : validate_skills l = Ok bs → l = PDict <$> bs.
Proof.
  revert bs. induction l as [|v l IH]; intros bs; cbn [validate_skills]; [by intros [= <-]|].
  destruct v as [| | | | | |b]; try done. destruct (pget "files" b); try done.
  intros (paths & _ & Hb)%bind_Ok. destruct (_ && _); [done|].
  apply bind_Ok in Hb as (rest & Hr & [= <-]). by rewrite (IH _ Hr).
Qed.

(** Validation returns what it was given, so what is stored validates again. *)
Lemma validate_skills_stable l bs : validate_skills l = Ok bs → validate_skills (PDict <$> bs) = Ok bs.
Proof. intros Hv. by rewrite <-(validate_skills_dicts _ _ Hv). Qed.

Lemma provider_from_valid `{PyRepr} v p : provider_from v = Ok (Some p) → validate_provider_config p = Ok tt.
Proof.
  destruct v; cbn [provider_from]; try done. intros ([] & Hv & [= <-])%bind_Ok. done.
Qed.

(** ** Catalog invariant: unique ids, validated skills and providers *)

Definition harness_ok (h : HarnessRecord) : Prop :=
  validate_skills (PDict <$> h_skills h) = Ok (h_skills h) ∧
  ∀ p, h_provider h = Some p → validate_provider_config p = Ok tt.

Definition registry_inv (s : MemoryStore) : Prop :=
  dict_wf (st_harnesses s) ∧ ∀ k h, dget k (st_harnesses s) = Some h → h_id h = k ∧ harness_ok h.

Lemma registry_inv_init ttl : registry_inv (MemoryStore_init ttl).
Proof. split; [constructor|done]. Qed.

Lemma save_harness_inv now h s : harness_ok h → registry_inv s → registry_inv (save_harness now h s).1.
Proof.
  intros Hok [Hwf Hid]. split; cbn; [by apply dict_wf_dset|].
  intros k h'. rewrite dget_dset. case_decide as E; [|by apply Hid]. intros [= <-]. by rewrite E.
Qed.

Lemma with_mutable_ok `{PyRepr} body f h : mutable_fields body = Ok f → harness_ok h → harness_ok (with_mutable f h).
Proof.
  unfold mutable_fields.
  intros (? & _ & (? & _ & (? & _ & (sk & Hsk & (? & _ & (? & _ & (? & _ &
    (pv & Hpv & [= <-])%bind_Ok)%bind_Ok)%bind_Ok)%bind_Ok)%bind_Ok)%bind_Ok)%bind_Ok)%bind_Ok [Hs Hp].
  unfold if_in in *. split; cbn.
  - destruct (dget "skills" body); [|by injection Hsk as <-].
    apply bind_Ok in Hsk as (bs & Hbs & [= <-]). by eapply validate_skills_stable.
  - destruct (dget "provider" body); [|by injection Hpv as <-].
    apply bind_Ok in Hpv as (op & Hop & [= <-]). cbn. intros pr ->. by eapply provider_from_valid.
Qed.

Lemma harness_ok_touch now h : harness_ok h → harness_ok (h <| h_updatedAtMs := now |>).
Proof. done. Qed.

(** The identity of a harness does not depend on its mutable fields. *)
Definition same_identity (h h' : HarnessRecord) : Prop :=
  h_id h' = h_id h ∧ h_base h' = h_base h ∧ h_status h' = h_status h ∧ h_createdAtMs h' = h_createdAtMs h ∧
  harness_account_key h' = harness_account_key h.

(** ** The writes in one step *)

Lemma create_harness_cases `{PyRepr} known now hex p body s s' r :
  create_harness known now hex p body s = (s', r) →
  (s' = s ∧ ∃ e, r = Raise e) ∨
  (∃ h, r = Ok h ∧ s' = s <| st_harnesses := dset ("chrn_" +:+ hex) h (st_harnesses s) |> ∧
        h_id h = "chrn_" +:+ hex ∧ h_status h = "active" ∧ harness_account_key h = account_of p ∧
        h_base h ∈ known ∧ harness_ok h).
Proof.
  unfold create_harness. destruct (pget "base" body) as [| | | |base| |]; try (intros [= <- <-]; left; eauto).
  unfold mbind, M_bind, guard_or, lift, ensure.
  destruct (negb (bool_decide (strip base = ""))); [|intros [= <- <-]; left; eauto].
  unfold require_known_base, ensure. case_bool_decide; [|intros [= <- <-]; left; eauto].
  destruct (mutable_fields body) as [f|e] eqn:Ef; [|intros [= <- <-]; left; eauto].
  match goal with |- context [with_mutable f ?h0] => assert (harness_ok (with_mutable f h0)) as Hok end.
  { eapply with_mutable_ok; [exact Ef|]. split; [done|intros ? [=]]. }
  unfold save_harness. intros [= <- <-]. right. eexists. split_and!; [done..|].
  by apply harness_ok_touch.
Qed.

Lemma get_scoped_Ok p id s h :
  get_scoped p id s = Ok h ↔
  dget id (st_harnesses s) = Some h ∧ h_status h ≠ "deleted" ∧ harness_account_key h = account_of p.
Proof.
  unfold get_scoped, get_harness, visible. destruct (dget id (st_harnesses s)) as [h'|]; [|naive_solver].
  repeat case_bool_decide; cbn; naive_solver congruence.
Qed.

Lemma get_scoped_Raise p id s e : get_scoped p id s = Raise e → e = HarnessNotFoundError id.
Proof.
  unfold get_scoped. destruct (get_harness id s); [|by intros [= <-]].
  repeat case_if; try done; by intros [= <-].
Qed.

Lemma update_harness_cases `{PyRepr} known now p id body s s' r :
  registry_inv s → update_harness known now p id body s = (s', r) →
  (s' = s ∧ ∃ e, r = Raise e) ∨
  (∃ h h', get_scoped p id s = Ok h ∧ r = Ok h' ∧
           s' = s <| st_harnesses := dset id h' (st_harnesses s) |> ∧
           same_identity h h' ∧ harness_ok h' ∧ reject_immutable_conflicts h body = Ok tt).
Proof.
  intros [_ Hid]. unfold update_harness, mbind, M_bind, gets, lift.
  destruct (get_scoped p id s) as [h|e] eqn:Eg; [|intros [= <- <-]; left; eauto].
  destruct (reject_immutable_conflicts h body) as [[]|e] eqn:Er; [|intros [= <- <-]; left; eauto].
  match goal with |- context [match ?m with Ok _ => _ | Raise _ => _ end] => destruct m as [[]|e] end;
    [|intros [= <- <-]; left; eauto].
  destruct (mutable_fields body) as [f|e] eqn:Ef; [|intros [= <- <-]; left; eauto].
  destruct (proj1 (get_scoped_Ok _ _ _ _) Eg) as (Hg & _). destruct (Hid _ _ Hg) as [Hk Hok].
  match goal with |- context [with_mutable f ?h0] => assert (harness_ok (with_mutable f h0)) as Hok' end.
  { by eapply with_mutable_ok. }
  unfold save_harness. intros [= <- <-]. right. eexists h, _.
  split_and!; [done|done|by rewrite <-Hk|by split_and!|by apply harness_ok_touch|done].
Qed.

Lemma delete_scoped_cases now p id s s' r :
  registry_inv s → delete_scoped now p id s = (s', r) →
  (s' = s ∧ r = Raise (HarnessNotFoundError id)) ∨
  (∃ h, get_scoped p id s = Ok h ∧ r = Ok tt ∧
        s' = s <| st_harnesses := dset id (h <| h_status := "deleted" |> <| h_updatedAtMs := now |>) (st_harnesses s) |>).
Proof.
  intros [_ Hid]. unfold delete_scoped, mbind, M_bind, gets, lift.
  destruct (get_scoped p id s) as [h|e] eqn:Eg; [|intros [= <- <-]; left; by rewrite (get_scoped_Raise _ _ _ _ Eg)].
  destruct (proj1 (get_scoped_Ok _ _ _ _) Eg) as (Hg & _). destruct (Hid _ _ Hg) as [Hk Hok].
  intros [= <- <-]. right. exists h. split_and!; [done..|]. cbn. by rewrite Hk.
Qed.

(** ** Scope *)

(** The catalog of an account. *)
Definition account_view (a : AccountKey) (s : MemoryStore) : list HarnessRecord := list_harnesses (Some a) s.

Lemma elem_account_view a s h :
  registry_inv s → h ∈ account_view a s ↔ dget (h_id h) (st_harnesses s) = Some h ∧ harness_account_key h = a.
Proof.
  intros [Hwf Hid]. unfold account_view, list_harnesses. rewrite elem_of_keep, bool_decide_eq_true.
  rewrite (elem_dvalues_dget _ _ Hwf). split; [|naive_solver].
  intros [? [k Hk]]. destruct (Hid _ _ Hk) as [<- _]. done.
Qed.

Lemma list_active_view p s :
  list_active p s = keep (λ h, bool_decide (h_status h = "active")) (account_view (account_of p) s).
Proof. done. Qed.

(** A harness the caller can see under an id is in the account's catalog. *)
Lemma scoped_view p id s h :
  registry_inv s →
  dget id (st_harnesses s) = Some h ∧ harness_account_key h = account_of p ↔
  h ∈ account_view (account_of p) s ∧ h_id h = id.
Proof.
  intros Hi. rewrite elem_account_view by done. destruct Hi as [_ Hid]. split.
  - intros [Hk Ha]. destruct (Hid _ _ Hk) as [<- _]. done.
  - intros [[Hk Ha] <-]. done.
Qed.

(** Writing a record of another account leaves the catalog of [a] as it is. *)
Lemma account_view_other a id h s :
  harness_account_key h ≠ a →
  (∀ old, dget id (st_harnesses s) = Some old → harness_account_key old ≠ a) →
  account_view a (s <| st_harnesses := dset id h (st_harnesses s) |>) = account_view a s.
Proof.
  intros Hh Hold. unfold account_view, list_harnesses. cbn.
  induction (st_harnesses s) as [|[k v] d IH]; cbn.
  { unfold dvalues. cbn. by rewrite bool_decide_eq_false_2. }
  cbn in Hold. destruct (decide (id = k)) as [->|Hne].
  - change (dvalues ((k, h) :: d)) with (h :: dvalues d). change (dvalues ((k, v) :: d)) with (v :: dvalues d).
    cbn. rewrite !bool_decide_eq_false_2; [done|by apply Hold|done].
  - change (dvalues ((k, v) :: ?e)) with (v :: dvalues e). cbn. rewrite IH by done. done.
Qed.

Lemma get_scoped_view p id s1 s2 :
  registry_inv s1 → registry_inv s2 → account_view (account_of p) s1 = account_view (account_of p) s2 →
  ∀ h, get_scoped p id s1 = Ok h → get_scoped p id s2 = Ok h.
Proof.
  intros I1 I2 Hv h. rewrite !get_scoped_Ok. intros (H1 & H2 & H3).
  destruct (proj1 (scoped_view p id s1 h I1) (conj H1 H3)) as [Hin Hid]. rewrite Hv in Hin.
  destruct (proj2 (scoped_view p id s2 h I2) (conj Hin Hid)). done.
Qed.

(** An active harness of the caller found by id. *)
Definition by_id (p : Principal) (id : string) (s : MemoryStore) : option HarnessRecord :=
  match get_harness id s with
  | Some h => if bool_decide (h_status h = "active") && visible h p then Some h else None
  | None => None
  end.

Lemma by_id_Some p id s h :
  registry_inv s → by_id p id s = Some h ↔ h ∈ account_view (account_of p) s ∧ h_id h = id ∧ h_status h = "active".
Proof.
  intros Hi. unfold by_id, get_harness, visible.
  pose proof (λ h', scoped_view p id s h' Hi) as Hv.
  destruct (dget id (st_harnesses s)) as [h'|] eqn:E.
  - repeat case_bool_decide; cbn; split; try done; naive_solver.
  - split; [done|]. intros (Hin & Hid & _). destruct (proj2 (Hv h) (conj Hin Hid)). done.
Qed.

Lemma resolve_app_eq p app s :
  resolve_app p app s =
  match by_id p app s with
  | Some h => Ok h
  | None => match keep (λ h, bool_decide (h_name h = app)) (list_active p s) with
            | [h] => Ok h
            | _ => Raise (AppNotFoundError app)
            end
  end.
Proof. unfold resolve_app, by_id. destruct (get_harness app s) as [h|]; [|done]. by destruct (_ && _). Qed.

Lemma by_id_view p id s1 s2 :
  registry_inv s1 → registry_inv s2 → account_view (account_of p) s1 = account_view (account_of p) s2 →
  by_id p id s1 = by_id p id s2.
Proof.
  intros I1 I2 Hv. apply option_eq. intros h. by rewrite !by_id_Some, Hv.
Qed.

(** Reads are scope-bound.  What a caller can read, list or resolve is a function of the
    catalog of the caller's own account: two stores that agree on it answer every
    [get_scoped], [list_active], [resolve_app] and [resolve_default_app] alike, whatever
    harnesses (with whatever ids and names) other accounts hold; and what is resolved is an
    active harness of the account with that id, or the only active one with that name. *)
Theorem registry_reads_scoped p id app s1 s2 :
  registry_inv s1 → registry_inv s2 → account_view (account_of p) s1 = account_view (account_of p) s2 →
  get_scoped p id s1 = get_scoped p id s2 ∧ list_active p s1 = list_active p s2 ∧
  resolve_app p app s1 = resolve_app p app s2 ∧ resolve_default_app p s1 = resolve_default_app p s2 ∧
  (∀ h, resolve_app p app s1 = Ok h →
     h ∈ account_view (account_of p) s1 ∧ h_status h = "active" ∧
     (h_id h = app ∨ keep (λ h, bool_decide (h_name h = app)) (list_active p s1) = [h])).
Proof.
  intros I1 I2 Hv. assert (list_active p s1 = list_active p s2) as Hl by (by rewrite !list_active_view, Hv).
  split_and!; [|done| | |].
  - destruct (get_scoped p id s1) as [h|e] eqn:E1.
    + symmetry. exact (get_scoped_view p id s1 s2 I1 I2 Hv h E1).
    + destruct (get_scoped p id s2) as [h|e'] eqn:E2.
      * pose proof (get_scoped_view p id s2 s1 I2 I1 (eq_sym Hv) h E2). congruence.
      * by rewrite (get_scoped_Raise _ _ _ _ E1), (get_scoped_Raise _ _ _ _ E2).
  - by rewrite !resolve_app_eq, Hl, (by_id_view p app s1 s2).
  - unfold resolve_default_app. by rewrite Hl.
  - intros h. rewrite resolve_app_eq. destruct (by_id p app s1) as [h'|] eqn:E.
    + intros [= ->]. apply by_id_Some in E as (? & ? & ?); [eauto|done].
    + destruct (keep _ (list_active p s1)) as [|h' [|]] eqn:Ek; try done. intros [= ->].
      assert (h ∈ list_active p s1) as [Hs Hin]%elem_of_keep.
      { eapply (elem_of_keep (λ h, bool_decide (h_name h = app))). rewrite Ek. by left. }
      apply bool_decide_eq_true in Hs. eauto.
Qed.

(** Storing a valid record under its own id keeps the catalog valid. *)
Lemma registry_inv_dset id h s :
  registry_inv s → h_id h = id → harness_ok h → registry_inv (s <| st_harnesses := dset id h (st_harnesses s) |>).
Proof.
  intros [Hwf Hk] Hid Hok. split; cbn; [by apply dict_wf_dset|].
  intros k h'. rewrite dget_dset. case_decide; [|by apply Hk]. intros [= <-]. by subst.
Qed.

Lemma delete_scoped_inv now p id : preserves registry_inv (delete_scoped now p id).
Proof.
  intros s Hi. destruct (delete_scoped now p id s) as [s' r] eqn:E.
  apply delete_scoped_cases in E as [[-> _]|(h & Hg & -> & ->)]; [done| |done].
  apply get_scoped_Ok in Hg as (Hg & _ & Ha). destruct (proj2 Hi _ _ Hg) as [? []].
  by apply registry_inv_dset.
Qed.

(** The three writes of the registry. *)
Inductive registry_write :=
  | WCreate (hex : string) (body : pydict)
  | WUpdate (id : string) (body : pydict)
  | WDelete (id : string).

Definition run_write `{PyRepr} (known : list string) (now : Z) (p : Principal) (w : registry_write)
    (s : MemoryStore) : MemoryStore :=
  match w with
  | WCreate hex body => (create_harness known now hex p body s).1
  | WUpdate id body => (update_harness known now p id body s).1
  | WDelete id => (delete_scoped now p id s).1
  end.

(** A created id is one the catalog does not hold yet. *)
Definition fresh_write (w : registry_write) (s : MemoryStore) : Prop :=
  match w with WCreate hex _ => dget ("chrn_" +:+ hex) (st_harnesses s) = None | _ => True end.

Lemma create_harness_inv `{PyRepr} known now hex p body : preserves registry_inv (create_harness known now hex p body).
Proof.
  intros s Hi. destruct (create_harness known now hex p body s) as [s' r] eqn:E.
  apply create_harness_cases in E as [[-> _]|(h & -> & -> & Hid & _ & _ & _ & Hok)]; [done|]. by apply registry_inv_dset.
Qed.

(** C33: Writes are scope-bound and keep the catalog valid.  Whatever a caller creates, updates
    or deletes, with any body and any harness id, the catalog of every other account is
    unchanged, ids stay unique and every stored harness has validated skill bundles and a
    valid provider. *)
Theorem registry_writes_scoped `{PyRepr} known now p w s :
  registry_inv s → fresh_write w s →
  registry_inv (run_write known now p w s) ∧
  ∀ a, a ≠ account_of p → account_view a (run_write known now p w s) = account_view a s.
Proof.
  intros Hi Hf. destruct w as [hex body|id body|id]; cbn in *.
  - split; [by apply create_harness_inv|]. intros a Hne.
    destruct (create_harness known now hex p body s) as [s' r] eqn:E.
    apply create_harness_cases in E as [[-> _]|(h & -> & -> & Hid & _ & Ha & _ & Hok)]; [done|]. apply account_view_other; [by rewrite Ha|]. cbn. by rewrite Hf.
  - destruct (update_harness known now p id body s) as [s' r] eqn:E.
    apply update_harness_cases in E as [[-> _]|(h & h' & Hg & -> & -> & Hsame & Hok & _)]; [done| |done].
    apply get_scoped_Ok in Hg as (Hg & _ & Ha). destruct Hsame as (Hid & _ & _ & _ & Hacc). split.
    + apply registry_inv_dset; [done| |done]. rewrite Hid. by apply (proj2 Hi).
    + intros a Hne. apply account_view_other; [by rewrite Hacc, Ha|]. intros old. rewrite Hg. intros [= <-]. by rewrite Ha.
  - split; [by apply delete_scoped_inv|].
    destruct (delete_scoped now p id s) as [s' r] eqn:E.
    apply delete_scoped_cases in E as [[-> _]|(h & Hg & -> & ->)]; [done| |done].
    apply get_scoped_Ok in Hg as (Hg & _ & Ha).
    intros a Hne. apply account_view_other; [change (harness_account_key h ≠ a); by rewrite Ha|].
      intros old. rewrite Hg. intros [= <-]. by rewrite Ha.
Qed.

(** ** Read-modify-write *)

Lemma str_or_self `{PyRepr} x dflt : x ≠ "" → str_or (PStr x) dflt = x.
Proof. by destruct x. Qed.
Lemma str_or_empty `{PyRepr} x : str_or (PStr x) "" = x.
Proof. by destruct x. Qed.

Lemma dict_items_fmap l : dict_items (PList (PDict <$> l)) = l.
Proof. cbn [dict_items]. induction l as [|d l IH]; [done|]. csimpl. by rewrite IH. Qed.

Lemma provider_roundtrip `{PyRepr} p :
  validate_provider_config p = Ok tt → provider_from (PDict (provider_to_dict p)) = Ok (Some p).
Proof.
  intros Hv. destruct p as [a b c d e f g i]. pose proof Hv as Hv'.
  apply bind_Ok in Hv' as ([] & _ & ([] & Hn%ensure_Ok & ([] & Hw%ensure_Ok & _)%bind_Ok)%bind_Ok). bsimp. cbn in Hn, Hw.
  change (provider_from (PDict (provider_to_dict (mkProvider a b c d e f g i)))) with
    (_ ← validate_provider_config (mkProvider (str_or (PStr a) "") (str_or (PStr b) "openai-compatible")
       (str_or (PStr c) "") (str_or (PStr d) "responses") (str_or (PStr e) "") (str_or (PStr f) "")
       (str_or (PStr g) "") (str_or (PStr i) ""));
     Ok (Some (mkProvider (str_or (PStr a) "") (str_or (PStr b) "openai-compatible")
       (str_or (PStr c) "") (str_or (PStr d) "responses") (str_or (PStr e) "") (str_or (PStr f) "")
       (str_or (PStr g) "") (str_or (PStr i) "")))).
  rewrite !str_or_empty, !str_or_self, Hv; [done|set_solver|done].
Qed.

Lemma opt_int_roundtrip o : int_or_none (opt_int_val o) = o.
Proof. by destruct o. Qed.

Lemma mutable_fields_to_dict `{PyRepr} h :
  harness_ok h →
  mutable_fields (harness_to_dict h) =
  Ok (mkMutable (Some (Some (default "" (h_defaultModel h)))) (Some (h_systemPrompt h)) (Some (h_mcpServers h))
        (Some (h_skills h)) (Some (h_disabledTools h)) (Some (h_maxStep h)) (Some (h_timeoutSeconds h))
        (Some (h_provider h))).
Proof.
  intros [Hs Hp].
  assert (if_in "skills" (harness_to_dict h) (λ v, validate_skills (PDict <$> dict_items v)) = Ok (Some (h_skills h))) as E4.
  { change (if_in "skills" (harness_to_dict h) ?f) with (a ← f (PList (PDict <$> h_skills h)); Ok (Some a)).
    cbv beta. by rewrite dict_items_fmap, Hs. }
  assert (if_in "provider" (harness_to_dict h) provider_from = Ok (Some (h_provider h))) as E8.
  { change (if_in "provider" (harness_to_dict h) ?f) with
      (a ← f (opt_dict_val (provider_to_dict <$> h_provider h)); Ok (Some a)).
    destruct (h_provider h) as [pv|]; [|done]. cbn [fmap option_fmap option_map opt_dict_val].
    by rewrite provider_roundtrip by by apply Hp. }
  unfold mutable_fields. rewrite E4, E8.
  change (if_in "defaultModel" (harness_to_dict h) ?f) with (Ok (Some (Some (default "" (h_defaultModel h))))).
  change (if_in "systemPrompt" (harness_to_dict h) ?f) with (Ok (Some (str_or (PStr (h_systemPrompt h)) ""))).
  change (if_in "mcpServers" (harness_to_dict h) ?f) with (Ok (Some (dict_items (PList (PDict <$> h_mcpServers h))))).
  change (if_in "disabledTools" (harness_to_dict h) ?f) with (Ok (Some (py_str <$> (PStr <$> h_disabledTools h)))).
  change (if_in "maxStep" (harness_to_dict h) ?f) with (Ok (Some (int_or_none (opt_int_val (h_maxStep h))))).
  change (if_in "timeoutSeconds" (harness_to_dict h) ?f) with (Ok (Some (int_or_none (opt_int_val (h_timeoutSeconds h))))).
  rewrite str_or_empty, dict_items_fmap, !opt_int_roundtrip.
  assert (py_str <$> (PStr <$> h_disabledTools h) = h_disabledTools h) as ->; [|done].
  rewrite <-list_fmap_compose. by apply list_fmap_id.
Qed.

Lemma reject_immutable_self h : reject_immutable_conflicts h (harness_to_dict h) = Ok tt.
Proof.
  apply iter_result_Ok. intros name Hin. unfold IMMUTABLE_FIELDS in Hin.
  assert (name = "id" ∨ name = "base" ∨ name = "createdAtMs") as [->|[->| ->]] by set_solver.
  - change (ensure (bool_decide (h_id h = h_id h)) (ImmutableFieldError "id") = Ok tt).
    by rewrite bool_decide_eq_true_2.
  - change (ensure (bool_decide (h_base h = h_base h)) (ImmutableFieldError "base") = Ok tt).
    by rewrite bool_decide_eq_true_2.
  - change (ensure (h_createdAtMs h =? h_createdAtMs h) (ImmutableFieldError "createdAtMs") = Ok tt).
    by rewrite Z.eqb_refl.
Qed.

(** Read-modify-write.  Sending a harness's own serialization back through [update]
    succeeds and stores the same harness: every field round-trips through
    [harness_to_dict] and [_mutable_fields] (the serialization writes a missing default
    model as the empty text, which is what is stored) and only the update time moves. *)
Theorem update_own_serialization `{PyRepr} known now p id s h :
  registry_inv s → get_scoped p id s = Ok h → h_base h ∈ known →
  let h' := h <| h_defaultModel := Some (default "" (h_defaultModel h)) |> <| h_updatedAtMs := now |> in
  update_harness known now p id (harness_to_dict h) s =
  (s <| st_harnesses := dset id h' (st_harnesses s) |>, Ok h').
Proof.
  intros [_ Hid] Hg Hb h'. destruct (proj1 (get_scoped_Ok _ _ _ _) Hg) as (Hk & _). destruct (Hid _ _ Hk) as [Hi Hok].
  unfold update_harness, mbind, M_bind, gets, lift.
  rewrite Hg, reject_immutable_self, (mutable_fields_to_dict h Hok).
  change (pget "base" (harness_to_dict h)) with (PStr (h_base h)).
  change (pget "name" (harness_to_dict h)) with (PStr (h_name h)). cbv beta iota.
  assert ((if bool_decide (strip (h_base h) = "") then Ok tt else require_known_base known (h_base h)) = Ok tt) as ->.
  { case_bool_decide; [done|]. unfold require_known_base. by rewrite bool_decide_eq_true_2. }
  assert (str_or (PStr (h_name h)) (h_name h) = h_name h) as -> by (by destruct (h_name h)).
  unfold save_harness, h'. rewrite <-Hi. by destruct h.
Qed.

(** Deletion is soft and final for resolution.  After a successful [delete] no caller can
    read the harness or see it among the active ones and no name resolves to it, while the
    record stays in the catalog for historical sessions and the account's other harnesses
    are as before. *)
Theorem delete_is_soft now p id s s' :
  registry_inv s → delete_scoped now p id s = (s', Ok tt) →
  (∀ q, get_scoped q id s' = Raise (HarnessNotFoundError id)) ∧
  (∀ q h, h ∈ list_active q s' → h_id h ≠ id) ∧
  (∀ q app h, resolve_app q app s' = Ok h → h_id h ≠ id) ∧
  (∃ h, dget id (st_harnesses s') = Some h ∧ h_status h = "deleted") ∧
  ∀ id', id' ≠ id → dget id' (st_harnesses s') = dget id' (st_harnesses s).
Proof.
  intros Hi Hd. pose proof (delete_scoped_inv now p id s Hi) as Hi'. rewrite Hd in Hi'. cbn in Hi'.
  apply delete_scoped_cases in Hd as [[_ [=]]|(h & Hg & _ & Heq)]; [|done].
  assert (dget id (st_harnesses s') = Some (h <| h_status := "deleted" |> <| h_updatedAtMs := now |>)) as Hget.
  { rewrite Heq. cbn. by rewrite dget_dset_eq. }
  assert (∀ q h0, h0 ∈ account_view (account_of q) s' → h_status h0 = "active" → h_id h0 ≠ id) as Hact.
  { intros q h0 [Hk _]%(elem_account_view _ _ _ Hi') Hst Hh. rewrite Hh, Hget in Hk. by simplify_eq. }
  split_and!.
  - intros q. unfold get_scoped, get_harness. by rewrite Hget.
  - intros q h0 [Hst Hin]%elem_of_keep. apply bool_decide_eq_true in Hst. by eapply Hact.
  - intros q app h0. rewrite resolve_app_eq. destruct (by_id q app s') eqn:E.
    + intros [= ->]. apply by_id_Some in E as (? & _ & ?); [|done]. by eapply Hact.
    + destruct (keep _ (list_active q s')) as [|h1 [|]] eqn:Ek; try done. intros [= ->].
      assert (h0 ∈ list_active q s') as [Hst Hin]%elem_of_keep.
      { eapply (elem_of_keep (λ h, bool_decide (h_name h = app))). rewrite Ek. by left. }
      apply bool_decide_eq_true in Hst. by eapply Hact.
  - by eexists.
  - intros id' Hne. rewrite Heq. cbn. by rewrite dget_dset_ne.
Qed.

(** ** Examples *)

Module RegistryExamples.

#[export] Instance no_repr : PyRepr := λ _, "".

Definition alice : Principal := mkPrincipal "alice" (Some "t1") (Some "w1") [] None.
Definition bob : Principal := mkPrincipal "bob" (Some "t2") (Some "w2") [] None.

Definition codex_body : pydict :=
  [("base", PStr "codex"); ("name", PStr "helper");
   ("skills", PList [PDict [("files", PList [PDict [("path", PStr "SKILL.md")]])]]);
   ("provider", PDict [("providerId", PStr "p"); ("apiType", PStr "responses")])].

(** One harness of each account, with the same name. *)
Definition two_accounts : MemoryStore :=
  run_write ["codex"] 20 bob (WCreate "b" codex_body)
    (run_write ["codex"] 10 alice (WCreate "a" codex_body) (MemoryStore_init 1000)).
Definition only_alice : MemoryStore :=
  run_write ["codex"] 10 alice (WCreate "a" codex_body) (MemoryStore_init 1000).

Lemma only_alice_inv : registry_inv only_alice.
Proof. apply create_harness_inv, registry_inv_init. Qed.

Lemma two_accounts_inv : registry_inv two_accounts.
Proof. apply create_harness_inv, only_alice_inv. Qed.

Lemma registry_reads_scoped_witness :
  resolve_app alice "helper" two_accounts = resolve_app alice "helper" only_alice ∧
  get_scoped alice "chrn_b" two_accounts = Raise (HarnessNotFoundError "chrn_b").
Proof.
  destruct (registry_reads_scoped alice "chrn_b" "helper" two_accounts only_alice
              two_accounts_inv only_alice_inv) as (Hg & _ & Hr & _); [vm_compute; reflexivity|].
  split; [exact Hr|]. rewrite Hg. vm_compute. reflexivity.
Defined.

Lemma registry_writes_scoped_witness :
  account_view (Some "t2", Some "w2") (run_write ["codex"] 30 alice (WDelete "chrn_b") two_accounts) =
  account_view (Some "t2", Some "w2") two_accounts.
Proof.
  apply (registry_writes_scoped ["codex"] 30 alice (WDelete "chrn_b") two_accounts two_accounts_inv I).
  intros [=].
Defined.

Definition alice_harness : HarnessRecord :=
  (new_harness "chrn_a" "helper" "codex" "active" (Some "t1", Some "w1") 10)
    <| h_skills := [[("files", PList [PDict [("path", PStr "SKILL.md")]])]] |>
    <| h_provider := Some (mkProvider "p" "openai-compatible" "" "responses" "responses" "" "" "") |>.

Lemma update_own_serialization_witness :
  (update_harness ["codex"] 40 alice "chrn_a" (harness_to_dict alice_harness) two_accounts).2 =
  Ok (alice_harness <| h_defaultModel := Some "" |> <| h_updatedAtMs := 40 |>).
Proof.
  rewrite (update_own_serialization ["codex"] 40 alice "chrn_a" two_accounts alice_harness two_accounts_inv);
    [reflexivity|vm_compute; reflexivity|by left].
Defined.

Lemma delete_is_soft_witness :
  get_scoped alice "chrn_a" (delete_scoped 50 alice "chrn_a" two_accounts).1 =
  Raise (HarnessNotFoundError "chrn_a").
Proof.
  apply (delete_is_soft 50 alice "chrn_a" two_accounts _ two_accounts_inv). vm_compute. reflexivity.
Defined.

End RegistryExamples.
