(* ===== verification/Docker.v ===== *)
(** * The containers of delegated sessions (haas/runtime/delegation.py)

    [DockerDelegatedContainerRuntime] turns a stored delegated session into Docker commands: [restore] and [destroy].
    What the command runner answers is the environment.  [Relay] has [run_stream] and [cancel]. *)

From S2P Require Import Prelude Errors Dict PyVal Paths Encoding Records Redact.

#[local] Open Scope string_scope.
#[local] Open Scope list_scope.
#[local] Open Scope Z_scope.

Definition unavailable (msg : string) : exn := DelegatedContainerUnavailable msg.

(** ** Text *)

(** [p in s] *)
Fixpoint str_contains (p s : string) : bool :=
  starts_with p s || match s with "" => false | String _ s' => str_contains p s' end.

Definition at_sign : Ascii.ascii := Ascii.ascii_of_nat 64.

(** [s.rsplit("@", 1)[1] if "@" in s else ""] *)
Definition after_at (s : string) : string :=
  if str_contains "@" s then default "" (last (split_on at_sign s)) else "".

Definition hex_lower (a : Ascii.ascii) : bool :=
  let n := Ascii.nat_of_ascii a in ((48 <=? n)%nat && (n <=? 57)%nat) || ((97 <=? n)%nat && (n <=? 102)%nat).

(** [_DIGEST_RE.fullmatch] *)
Definition is_digest (s : string) : bool :=
  starts_with "sha256:" s && (String.length s =? 71)%nat && str_forall hex_lower (drop_str 7 s).

(** [re.fullmatch(r"[A-Za-z0-9_-]{1,128}", s)] *)
Definition word_char (a : Ascii.ascii) : bool :=
  let n := Ascii.nat_of_ascii a in
  ((65 <=? n)%nat && (n <=? 90)%nat) || ((97 <=? n)%nat && (n <=? 122)%nat) || ((48 <=? n)%nat && (n <=? 57)%nat) ||
  (n =? 95)%nat || (n =? 45)%nat.
Definition is_execution_id (s : string) : bool :=
  str_forall word_char s && (1 <=? String.length s)%nat && (String.length s <=? 128)%nat.

(** [v[k]] *)
Definition vitem (k : string) (v : pyval) : result pyval :=
  match v with PDict d => match dget k d with Some x => Ok x | None => Raise (KeyError k) end | _ => Raise TypeError end.

(** [list.extend(v)]: the items an iteration over [v] gives. *)
Fixpoint characters (s : string) : list pyval :=
  match s with "" => [] | String a s' => PStr (String a "") :: characters s' end.
Definition iter_items (v : pyval) : result (list pyval) :=
  match v with PList l => Ok l | PDict d => Ok (PStr <$> dkeys d) | PStr s => Ok (characters s) | _ => Raise TypeError end.

Fixpoint map_result {A B} (f : A → result B) (l : list A) : result (list B) :=
  match l with [] => Ok [] | x :: l' => y ← f x; ys ← map_result f l'; Ok (y :: ys) end.

(** [containerId or None], as a truth value *)
Definition present (o : option string) : option string :=
  match o with Some s => if bool_decide (s = "") then None else Some s | None => None end.

(** ** The runtime object *)

(** The constructor's settings. *)
Record DockerSettings := mkSettings { k_docker_bin : string; k_network : string; k_allow_unpinned_local_image : bool }.

(** The commands run so far, the [asyncio.Event]s created and [_cancel_events], whose values are places in them. *)
Record DockerRuntime := mkDocker {
  dk_commands : list (list string);
  dk_events : list bool;
  dk_cancel_events : dict string nat;
}.
#[export] Instance eta_docker : Eta DockerRuntime := λ r, mkDocker (dk_commands r) (dk_events r) (dk_cancel_events r).
Definition new_docker : DockerRuntime := mkDocker [] [] [].
Notation docker_m := (M DockerRuntime).

(** What the command runner answers, given the commands before. *)
Class CommandRunner := answer : list (list string) → list string → result string.

(** [_subprocess_runner], once the process has ended. *)
Definition subprocess_result `{RegexEngine} (code : Z) (stdout stderr : string) : result string :=
  if negb (code =? 0) then
    let raw_detail := if bool_decide (strip stderr = "") then strip stdout else strip stderr in
    Raise (unavailable (if bool_decide (raw_detail = "") then "docker_command_failed" else safe_upstream_body raw_detail 512))
  else Ok (strip stdout).

(** [_subprocess_worker_stream]: the lines, then the end or the exception of a failed worker. *)
Definition worker_exit (code : Z) (stderr : string) : option exn :=
  if negb (code =? 0) then
    Some (unavailable (if bool_decide (strip stderr = "") then "delegated_private_worker_failed" else strip stderr))
  else None.

Section docker.
Context `{PyRepr} `{CommandRunner} (k : DockerSettings).

Definition runner (args : list string) : docker_m string := λ r,
  (r <| dk_commands := dk_commands r ++ [args] |>, answer (dk_commands r) args).

(** [except DelegatedContainerUnavailable] *)
Definition on_unavailable {A} (m : docker_m A) (h : docker_m A) : docker_m A :=
  catch m (λ e, match e with DelegatedContainerUnavailable _ => h | _ => raise e end).

(** [_is_running] *)
Definition is_running (container_id : string) : docker_m bool :=
  on_unavailable (out ← runner [k_docker_bin k; "inspect"; "-f"; "{{.State.Running}}"; container_id];
                  mret (bool_decide (lower (strip out) = "true")))
                 (mret false).

(** [_resolve_platform] *)
Definition resolve_platform (session : DelegatedSessionRecord) : docker_m string :=
  let configured := str_or (pget "platform" (ds_image session)) "" in
  if negb (bool_decide (configured = "")) then mret configured
  else
    arch ← on_unavailable (runner [k_docker_bin k; "version"; "--format"; "{{.Server.Arch}}"])
                          (raise (unavailable "delegation_platform_resolution_failed"));
    mret ("linux/" +:+ strip arch).

Definition SUPPORTED_PLATFORMS : dict string (list string) :=
  [("lite", ["linux/amd64"; "linux/arm64"]); ("aio", ["linux/amd64"])].

(** The image checks of [_docker_run_args]: the image to run. *)
Definition checked_image (session : DelegatedSessionRecord) (platform : string) : result string :=
  let image_ref := str_or (pget "reference" (ds_image session)) "" in
  let digest := str_or (pget "digest" (ds_image session)) "" in
  let variant := str_or (pget "variant" (ds_image session)) "lite" in
  let missing s := bool_decide (s = "") in
  match dget variant SUPPORTED_PLATFORMS with
  | None => Raise (unavailable "delegation_image_variant_invalid")
  | Some platforms =>
      if negb (bool_decide (platform ∈ platforms)) then Raise (unavailable "delegation_image_platform_unsupported")
      else if missing digest && negb (str_contains "@sha256:" image_ref) && negb (k_allow_unpinned_local_image k)
      then Raise (unavailable "delegation_image_digest_required")
      else
        let embedded_digest := after_at image_ref in
        if existsb (λ c, negb (missing c) && negb (is_digest c)) [digest; embedded_digest]
        then Raise (unavailable "delegation_image_digest_invalid")
        else if negb (missing digest) && negb (missing embedded_digest) && negb (bool_decide (digest = embedded_digest))
        then Raise (unavailable "delegation_image_digest_mismatch")
        else Ok (if str_contains "@sha256:" image_ref || missing digest then image_ref else image_ref +:+ "@" +:+ digest)
  end.

(** One bind mount: the two command line words. *)
Definition mount_option (source target : string) (ro : bool) : string :=
  "type=bind,source=" +:+ source +:+ ",target=" +:+ target +:+ ",readonly=" +:+ (if ro then "true" else "false").
Definition mount_args (mount : pyval) : result (list string) :=
  source ← vitem "hostPathCanonical" mount;
  target ← vitem "containerPath" mount;
  access ← vitem "access" mount;
  mret ["--mount"; mount_option (py_str source) (py_str target) (py_eqb access (PStr "ro"))].

(** The mounts of a manifest, the primary workspace first. *)
Definition manifest_mounts (manifest : pydict) : result (list pyval) :=
  primary ← vitem "primaryWorkspace" (PDict manifest);
  extra ← iter_items (py_or (pget "extraMounts" manifest) (PList []));
  mret (primary :: extra).

Definition session_volume (session : DelegatedSessionRecord) : string :=
  "type=volume,source=haas-session-" +:+ ds_id session +:+ ",target=/data/haas".

(** The fixed part of the command line of a worker. *)
Definition worker_args (session : DelegatedSessionRecord) (container_name platform : string) (generation : Z) : list string :=
  [k_docker_bin k; "run"; "-d"; "--platform"; platform; "--name"; container_name;
   "--label"; "haas.delegated_session=" +:+ ds_id session; "--label"; "haas.session=" +:+ ds_haasSessionId session;
   "--env"; "HAAS_WORKER_GENERATION=" +:+ pretty generation; "--network"; k_network k; "--user"; "10001:10001";
   "--read-only"; "--tmpfs"; "/tmp:rw,noexec,nosuid,size=256m"; "--cap-drop"; "ALL";
   "--security-opt"; "no-new-privileges"; "--pids-limit"; "256"; "--memory"; "4g"; "--cpus"; "2";
   "--mount"; session_volume session].

(** [_docker_run_args] *)
Definition docker_run_args (session : DelegatedSessionRecord) (container_name platform : string) (generation : Z)
    : result (list string) :=
  image ← checked_image session platform;
  mounts ← manifest_mounts (ds_mountManifest session);
  binds ← map_result mount_args mounts;
  mret (worker_args session container_name platform generation ++ concat binds ++ [image]).

(** The network checks of [restore]. *)
Definition check_network (session : DelegatedSessionRecord) : result unit :=
  let policy := py_or (pget "network" (ds_delegationPolicySnapshot session))
                      (PDict [("defaultAction", PStr "deny"); ("allow", PList [])]) in
  action ← vget "defaultAction" policy;
  allows ← (if py_eqb action (PStr "allow") then Ok true else truthy <$> vget "allow" policy);
  if allows && negb (bool_decide (k_network k = "isolated")) then Raise (unavailable "haas_policy_unsupported")
  else if bool_decide (k_network k = "isolated") then Raise (unavailable "delegation_broker_unavailable")
  else ensure (bool_decide (k_network k = "none")) (unavailable "delegation_network_policy_invalid").

Definition container_name (session : DelegatedSessionRecord) (generation : Z) : string :=
  "haas-" +:+ ds_id session +:+ "-" +:+ pretty generation.

(** [restore], the part that starts a container. *)
Definition start_container (now : Z) (session : DelegatedSessionRecord) : docker_m DelegatedRuntimeRecord :=
  let generation := dr_containerGeneration (ds_runtime session) + 1 in
  let name := container_name session generation in
  platform ← resolve_platform session;
  args ← lift (docker_run_args session name platform generation);
  container_id ← runner args;
  let id := strip container_id in
  mret (mkDelegatedRuntime "running" (Some (if bool_decide (id = "") then name else id)) generation (Some now) (Some now)).

(** [restore] *)
Definition restore (now : Z) (session : DelegatedSessionRecord) : docker_m DelegatedRuntimeRecord :=
  _ ← lift (check_network session);
  match present (dr_containerId (ds_runtime session)) with
  | Some id =>
      running ← is_running id;
      if (running : bool) then mret ((ds_runtime session) <| dr_status := "running" |> <| dr_lastActiveAtMs := Some now |>)
      else start_container now session
  | None => start_container now session
  end.

Definition destroyed (r : DelegatedRuntimeRecord) : DelegatedRuntimeRecord :=
  r <| dr_status := "destroyed" |> <| dr_containerId := None |>.

(** [destroy] *)
Definition destroy (session : DelegatedSessionRecord) : docker_m DelegatedRuntimeRecord :=
  match present (dr_containerId (ds_runtime session)) with
  | Some id => _ ← runner [k_docker_bin k; "rm"; "-f"; id]; mret (destroyed (ds_runtime session))
  | None => mret (destroyed (ds_runtime session))
  end.
End docker.


(** ** What Docker is told *)

(** [docker run]'s command line after [run]: options up to the first word that is not one, the image, the command. *)
Definition boolean_flags : list string := ["-d"; "--read-only"; "--privileged"; "--rm"; "--init"; "-i"; "-t"].
Fixpoint run_options (words : list string) : option (list (string * string) * string * list string) :=
  match words with
  | [] => None
  | word :: rest =>
      if starts_with "-" word then
        if bool_decide (word ∈ boolean_flags) then
          '(opts, image, command) ← run_options rest; Some ((word, "") :: opts, image, command)
        else match rest with
             | [] => None
             | value :: rest' => '(opts, image, command) ← run_options rest'; Some ((word, value) :: opts, image, command)
             end
      else Some ([], word, rest)
  end.

Definition option_values (name : string) (opts : list (string * string)) : list string :=
  (keep (λ o, bool_decide (o.1 = name)) opts).*2.

(** The options a worker may be given. *)
Definition worker_options : list string :=
  ["-d"; "--platform"; "--name"; "--label"; "--env"; "--network"; "--user"; "--read-only"; "--tmpfs"; "--cap-drop";
   "--security-opt"; "--pids-limit"; "--memory"; "--cpus"; "--mount"].

Section confinement.
Context `{PyRepr}.

(** The option of one manifest entry. *)
Definition mount_given (mount : pyval) (option : string) : Prop :=
  ∃ source target access,
    vitem "hostPathCanonical" mount = Ok source ∧ vitem "containerPath" mount = Ok target ∧ vitem "access" mount = Ok access ∧
    option = mount_option (py_str source) (py_str target) (py_eqb access (PStr "ro")).

(** A run command that Docker accepts starts an isolated worker. *)
Definition confined (network : string) (session : DelegatedSessionRecord) (args : list string) : Prop :=
  ∀ opts image command, run_options (drop 2 args) = Some (opts, image, command) →
    command = [] ∧
    (∀ o, o ∈ opts → o.1 ∈ worker_options) ∧
    option_values "--network" opts = [network] ∧ option_values "--user" opts = ["10001:10001"] ∧
    option_values "--read-only" opts = [""] ∧ option_values "--cap-drop" opts = ["ALL"] ∧
    option_values "--security-opt" opts = ["no-new-privileges"] ∧ option_values "--pids-limit" opts = ["256"] ∧
    option_values "--memory" opts = ["4g"] ∧ option_values "--cpus" opts = ["2"] ∧
    option_values "--tmpfs" opts = ["/tmp:rw,noexec,nosuid,size=256m"] ∧
    ∃ mounts binds, manifest_mounts (ds_mountManifest session) = Ok mounts ∧
      option_values "--mount" opts = session_volume session :: binds ∧ Forall2 mount_given mounts binds.

Lemma mount_args_given mounts binds : map_result mount_args mounts = Ok binds →
  ∃ opts, binds = (λ o, ["--mount"; o]) <$> opts ∧ Forall2 mount_given mounts opts.
Proof.
  revert binds. induction mounts as [|m mounts IH]; intros binds; cbn; [intros [= <-]; by exists []|].
  intros (b & Hb & (bs & Hbs & [= <-])%bind_Ok)%bind_Ok. destruct (IH _ Hbs) as (opts & -> & HF).
  unfold mount_args in Hb. apply bind_Ok in Hb as (src & E1 & (tgt & E2 & (acc & E3 & [= <-])%bind_Ok)%bind_Ok).
  eexists (_ :: opts). split; [reflexivity|]. constructor; [|done]. by exists src, tgt, acc.
Qed.

Lemma run_options_binds binds image :
  run_options (concat ((λ o, ["--mount"; o]) <$> binds) ++ [image]) =
  if starts_with "-" image then None else Some ((λ o, ("--mount", o)) <$> binds, image, []).
Proof.
  induction binds as [|b binds IH].
  - cbn [fmap list_fmap concat app run_options]. destruct (starts_with "-" image); [|done]. by case_bool_decide.
  - cbn [fmap list_fmap concat app]. cbn [run_options]. change (starts_with "-" "--mount") with true.
    rewrite (bool_decide_false ("--mount" ∈ boolean_flags)) by (vm_compute; set_solver). cbn match. rewrite IH.
    by destruct (starts_with "-" image).
Qed.

(** The options of the fixed part. *)
Definition worker_option_list (k : DockerSettings) (session : DelegatedSessionRecord) (name platform : string) (generation : Z)
    : list (string * string) :=
  [("-d", ""); ("--platform", platform); ("--name", name);
   ("--label", "haas.delegated_session=" +:+ ds_id session); ("--label", "haas.session=" +:+ ds_haasSessionId session);
   ("--env", "HAAS_WORKER_GENERATION=" +:+ pretty generation); ("--network", k_network k); ("--user", "10001:10001");
   ("--read-only", ""); ("--tmpfs", "/tmp:rw,noexec,nosuid,size=256m"); ("--cap-drop", "ALL");
   ("--security-opt", "no-new-privileges"); ("--pids-limit", "256"); ("--memory", "4g"); ("--cpus", "2");
   ("--mount", session_volume session)].

Lemma run_options_value f v rest : starts_with "-" f = true → bool_decide (f ∈ boolean_flags) = false →
  run_options (f :: v :: rest) = '(opts, image, command) ← run_options rest; Some ((f, v) :: opts, image, command).
Proof. intros E1 E2. cbn [run_options]. by rewrite E1, E2. Qed.
Lemma run_options_flag f rest : starts_with "-" f = true → bool_decide (f ∈ boolean_flags) = true →
  run_options (f :: rest) = '(opts, image, command) ← run_options rest; Some ((f, "") :: opts, image, command).
Proof. intros E1 E2. cbn [run_options]. by rewrite E1, E2. Qed.

Lemma run_options_worker k session name platform generation rest :
  run_options (drop 2 (worker_args k session name platform generation ++ rest)) =
  '(opts, image, command) ← run_options rest;
  Some (worker_option_list k session name platform generation ++ opts, image, command).
Proof.
  unfold worker_args. cbn [app drop].
  repeat first [rewrite run_options_value by reflexivity | rewrite run_options_flag by reflexivity].
  by destruct (run_options rest) as [[[opts image] command]|].
Qed.

Lemma option_values_app f o1 o2 : option_values f (o1 ++ o2) = option_values f o1 ++ option_values f o2.
Proof. unfold option_values. by rewrite keep_app, fmap_app. Qed.
Lemma option_values_binds f binds :
  option_values f ((λ o, ("--mount", o)) <$> binds) = if decide (f = "--mount") then binds else [].
Proof.
  unfold option_values. induction binds as [|b binds IH]; cbn [fmap list_fmap keep]; [by case_decide|].
  destruct (decide (f = "--mount")) as [->|Hne].
  - change (bool_decide (("--mount", b).1 = "--mount")) with true. cbn. by f_equal.
  - cbn [fst]. rewrite bool_decide_false by congruence. done.
Qed.

Lemma run_args_confined k session name platform generation args :
  docker_run_args k session name platform generation = Ok args →
  confined (k_network k) session args ∧ args !! 0%nat = Some (k_docker_bin k) ∧ args !! 1%nat = Some "run" ∧ args !! 6%nat = Some name.
Proof.
  unfold docker_run_args. intros (image & _ & (mounts & Hm & (binds & Hb & Ha)%bind_Ok)%bind_Ok)%bind_Ok.
  assert (args = worker_args k session name platform generation ++ concat binds ++ [image]) as -> by (by injection Ha).
  split; [|done]. apply mount_args_given in Hb as (os & -> & HF). intros opts image' command.
  rewrite run_options_worker, run_options_binds. destruct (starts_with "-" image); [done|]. cbn [mbind option_bind].
  intros E. assert (opts = worker_option_list k session name platform generation ++ ((λ o, ("--mount", o)) <$> os) ∧ command = [])
    as [-> ->] by (by split; congruence).
  split; [done|]. split.
  { intros o [Ho|(b & -> & _)%list_elem_of_fmap]%elem_of_app; [|by apply (bool_decide_unpack _); vm_compute].
    unfold worker_option_list in Ho. repeat (apply elem_of_cons in Ho as [-> |Ho]; [by apply (bool_decide_unpack _); vm_compute|]).
    by apply elem_of_nil in Ho. }
  rewrite !option_values_app, !option_values_binds. split_and!; [done..|].
  exists mounts, os. split; [done|]. split; [done|done].
Qed.
End confinement.

(** ** Restoring *)

Section restoring.
Context `{PyRepr} `{CommandRunner} (k : DockerSettings).

(** Commands that change nothing. *)
Definition probe (command : list string) : Prop := command !! 1%nat = Some "inspect" ∨ command !! 1%nat = Some "version".

Definition issued (commands : list (list string)) (r : DockerRuntime) : DockerRuntime := r <| dk_commands := dk_commands r ++ commands |>.

Lemma issued_nil r : issued [] r = r.
Proof. unfold issued. cbn. rewrite app_nil_r. by destruct r. Qed.
Lemma issued_issued c1 c2 r : issued c2 (issued c1 r) = issued (c1 ++ c2) r.
Proof. unfold issued. cbn. by rewrite app_assoc. Qed.

Lemma is_running_spec id r : ∃ command res, is_running k id r = (issued [command] r, res) ∧ probe command.
Proof.
  unfold is_running, on_unavailable, catch, runner, mbind, M_bind.
  destruct (answer _ _) as [out|e]; [|destruct e]; eexists _, _; (split; [reflexivity|by left]).
Qed.

Lemma resolve_platform_spec session r : ∃ probes res,
  resolve_platform k session r = (issued probes r, res) ∧ Forall probe probes.
Proof.
  unfold resolve_platform, on_unavailable, catch, runner, mbind, M_bind.
  destruct (negb _); [exists []; eexists; rewrite issued_nil; by split|].
  destruct (answer _ _) as [out|e]; [|destruct e]; eexists _, _; (split; [reflexivity|constructor; [by right|done]]).
Qed.

(** A command that starts the worker of a generation. *)
Definition starts_worker (session : DelegatedSessionRecord) (generation : Z) (args : list string) : Prop :=
  confined (k_network k) session args ∧ args !! 1%nat = Some "run" ∧ args !! 6%nat = Some (container_name session generation).

Lemma start_container_spec now session r : ∃ probes, Forall probe probes ∧
  let g := dr_containerGeneration (ds_runtime session) + 1 in
  ((∃ e, start_container k now session r = (issued probes r, Raise e)) ∨
   ∃ args, starts_worker session g args ∧
     ((∃ e, start_container k now session r = (issued (probes ++ [args]) r, Raise e)) ∨
      ∃ id, start_container k now session r =
        (issued (probes ++ [args]) r, Ok (mkDelegatedRuntime "running" (Some id) g (Some now) (Some now))) ∧ present (Some id) = Some id)).
Proof.
  destruct (resolve_platform_spec session r) as (probes & res & E & Hp). exists probes. split; [done|]. intros g.
  unfold start_container, mbind, M_bind. rewrite E. destruct res as [platform|e]; [|left; by eexists]. fold g.
  unfold lift. destruct (docker_run_args k session (container_name session g) platform g) as [args|e] eqn:Ea; [|left; by eexists].
  right. exists args. destruct (run_args_confined _ _ _ _ _ _ Ea) as (Hc & _ & H1 & H2). split; [done|].
  unfold runner. rewrite <-issued_issued. destruct (answer _ args) as [out|e]; [right|left; by eexists].
  eexists. split; [reflexivity|]. unfold present. rewrite bool_decide_false; [done|]. by case_bool_decide.
Qed.

(** C25: Restoring starts at most one worker, isolated.  Besides commands that only look, a restore issues at most one
    command; that one starts the container of the next generation under a name of its own, and if
    Docker accepts it the worker has no network, runs as an ordinary user on a read-only root without
    capabilities and with bounded resources, has no other option, and mounts the session's volume and the entries of the manifest,
    writable only where the manifest does not say [ro].  A result is a running container: the old one with its
    generation, or the new one; after a failure the record's generation has no successor recorded. *)
Theorem restore_starts_one_confined_worker now session r r' res : restore k now session r = (r', res) →
  let old := ds_runtime session in
  ∃ probes, Forall probe probes ∧
    match res with
    | Ok new =>
        k_network k = "none" ∧ dr_status new = "running" ∧ is_some (present (dr_containerId new)) = true ∧
        ((r' = issued probes r ∧ dr_containerId new = dr_containerId old ∧ dr_containerGeneration new = dr_containerGeneration old) ∨
         ∃ args, r' = issued (probes ++ [args]) r ∧ starts_worker session (dr_containerGeneration new) args ∧
           dr_containerGeneration new = dr_containerGeneration old + 1)
    | Raise _ =>
        r' = issued probes r ∨
        ∃ args, r' = issued (probes ++ [args]) r ∧ k_network k = "none" ∧ starts_worker session (dr_containerGeneration old + 1) args
    end.
Proof.
  intros Hr old. unfold restore, lift, mbind, M_bind in Hr. destruct (check_network k session) as [u|e] eqn:En.
  2:{ injection Hr as <- <-. exists []. split; [constructor|]. left. by rewrite issued_nil. }
  assert (Hnet : k_network k = "none").
  { unfold check_network in En. cbv zeta in En. apply bind_Ok in En as (a & _ & En). apply bind_Ok in En as (b & _ & En).
    destruct (b && _); [done|].
    case_bool_decide; [done|]. apply ensure_Ok, bool_decide_eq_true in En. done. }
  assert (Hstart : ∀ before, Forall probe before → start_container k now session (issued before r) = (r', res) → ∃ probes, Forall probe probes ∧
    match res with
    | Ok new => k_network k = "none" ∧ dr_status new = "running" ∧ is_some (present (dr_containerId new)) = true ∧
        ((r' = issued probes r ∧ dr_containerId new = dr_containerId old ∧ dr_containerGeneration new = dr_containerGeneration old) ∨
         ∃ args, r' = issued (probes ++ [args]) r ∧ starts_worker session (dr_containerGeneration new) args ∧
           dr_containerGeneration new = dr_containerGeneration old + 1)
    | Raise _ => r' = issued probes r ∨
        ∃ args, r' = issued (probes ++ [args]) r ∧ k_network k = "none" ∧ starts_worker session (dr_containerGeneration old + 1) args
    end).
  { intros before Hb Hs. destruct (start_container_spec now session (issued before r)) as (probes & Hp & Hc).
    exists (before ++ probes). split; [by apply Forall_app|].
    destruct Hc as [[e E]|(args & Ha & [[e E]|(id & E & Hid)])]; rewrite E, issued_issued in Hs; injection Hs as <- <-.
    - by left.
    - right. exists args. by rewrite <-app_assoc.
    - split_and!; [done..|exact (f_equal is_some Hid)|]. right. exists args. by rewrite <-app_assoc. }
  destruct (present (dr_containerId (ds_runtime session))) as [id|] eqn:Ei.
  - destruct (is_running_spec id r) as (c & q & Eq & Hc). rewrite Eq in Hr. destruct q as [[]|e].
    + injection Hr as <- <-. exists [c]. split; [by constructor|]. split_and!; [done..|exact (f_equal is_some Ei)|by left].
    + apply (Hstart [c]); [by constructor|done].
    + injection Hr as <- <-. exists [c]. split; [by constructor|by left].
  - apply (Hstart []); [constructor|]. by rewrite issued_nil.
Qed.
End restoring.

(** ** The image is pinned *)

Lemma starts_at a s : starts_with "@" (String a s) = Ascii.eqb at_sign a.
Proof.
  unfold starts_with. cbn [String.prefix]. destruct (Ascii.ascii_dec _ a) as [<-|Hn]; [by destruct s|].
  symmetry. by apply Ascii.eqb_neq.
Qed.

Lemma contains_cons a s : str_contains "@" (String a s) = Ascii.eqb at_sign a || str_contains "@" s.
Proof. cbn [str_contains]. by rewrite starts_at. Qed.

Lemma contains_digest_at s : str_contains "@sha256:" s = true → str_contains "@" s = true.
Proof.
  induction s as [|a s IH]; [done|]. rewrite contains_cons. cbn [str_contains]. intros [Hs|Hs]%orb_true_iff; [|by rewrite IH, orb_true_r].
  apply starts_with_inv in Hs as [t Ht]. injection Ht as -> _. done.
Qed.

Lemma no_at_split s : str_contains "@" s = false → split_on at_sign s = [s].
Proof.
  induction s as [|a s IH]; [done|]. rewrite contains_cons. intros [Ha Hs]%orb_false_iff. cbn. rewrite Ascii.eqb_sym, Ha, IH by done. done.
Qed.

Lemma at_split s : str_contains "@" s = true → ∃ h x t, split_on at_sign s = h :: x :: t.
Proof.
  induction s as [|a s IH]; [done|]. rewrite contains_cons. cbn. rewrite Ascii.eqb_sym. destruct (Ascii.eqb a at_sign).
  - intros _. pose proof (split_on_nonempty at_sign s). destruct (split_on at_sign s) as [|x t]; [done|]. by exists "", x, t.
  - cbn. intros (h & x & t & E)%IH. rewrite E. by eexists _, x, t.
Qed.

Lemma after_at_spec s : str_contains "@" s = true → ∃ name, s = name +:+ "@" +:+ after_at s.
Proof.
  unfold after_at. intros Hs. rewrite Hs. revert Hs. induction s as [|a s IH]; [done|]. rewrite contains_cons. cbn [split_on]. rewrite Ascii.eqb_sym.
  destruct (Ascii.eqb_spec a at_sign) as [->|Hne]; cbn [orb].
  - intros _. destruct (str_contains "@" s) eqn:E.
    + destruct (IH eq_refl) as [name Hn]. destruct (at_split s E) as (h & x & t & Es). rewrite Es in *. exists ("@" +:+ name).
      rewrite Hn at 1. done.
    + rewrite no_at_split by done. by exists "".
  - intros E. destruct (IH E) as [name Hn]. destruct (at_split s E) as (h & x & t & Es). rewrite Es in *. exists (String a name).
    rewrite Hn at 1. done.
Qed.

Lemma ends_with_at s : ends_with "@" (s +:+ "@") = true.
Proof.
  unfold ends_with. rewrite string_length_app. cbn [String.length].
  replace (String.length s + 1 - 1)%nat with (String.length s) by lia.
  apply andb_true_iff. split; [apply Nat.leb_le; lia|]. apply bool_decide_eq_true.
  induction s as [|a s IH]; [done|]. exact IH.
Qed.

Section pinning.
Context `{PyRepr}.

(** A worker runs a pinned image.  Unless the runtime allows local images, the image of an accepted session ends in a
    well-formed SHA-256 digest, and in the session's digest when it has one, provided the reference does not
    end in an at sign. *)
Theorem image_is_pinned k session platform image :
  checked_image k session platform = Ok image → k_allow_unpinned_local_image k = false →
  ends_with "@" (str_or (pget "reference" (ds_image session)) "") = false →
  ∃ name digest, image = name +:+ "@" +:+ digest ∧ is_digest digest = true ∧
    let given := str_or (pget "digest" (ds_image session)) "" in given ≠ "" → digest = given.
Proof.
  unfold checked_image. set (ref := str_or (pget "reference" _) ""). set (given := str_or (pget "digest" _) "").
  intros Hi Ha He. rewrite Ha, andb_true_r in Hi. destruct (dget _ _) as [platforms|]; [|done]. destruct (negb _); [done|].
  cbn [existsb] in Hi. rewrite orb_false_r in Hi.
  destruct (str_contains "@sha256:" ref) eqn:Ec; cbn [negb andb orb] in Hi.
  - rewrite andb_false_r in Hi. destruct (after_at_spec ref (contains_digest_at _ Ec)) as [name Hn].
    assert (Hne : after_at ref ≠ "").
    { intros E. rewrite E in Hn. change ("@" +:+ "") with "@" in Hn. by rewrite Hn, ends_with_at in He. }
    rewrite (bool_decide_false (after_at ref = "")) in Hi by done. cbn [negb andb] in Hi.
    destruct (is_digest (after_at ref)) eqn:Ed; [|by rewrite orb_true_r in Hi]. cbn [negb] in Hi. rewrite orb_false_r in Hi.
    destruct (_ && negb (is_digest given)); [done|]. exists name, (after_at ref).
    destruct (decide (given = "")) as [->|Hg]; [cbn in Hi; injection Hi as <-; by split_and!|].
    rewrite (bool_decide_false (given = "")) in Hi by done. cbn [negb andb] in Hi.
    case_bool_decide as D; [|done]. cbn in Hi. injection Hi as <-. by split_and!.
  - rewrite andb_true_r in Hi. destruct (decide (given = "")) as [->|Hg]; [done|].
    rewrite (bool_decide_false (given = "")) in Hi by done. cbn [negb andb] in Hi.
    destruct (is_digest given) eqn:Ed; [|done]. exists ref, given.
    destruct (_ || _); [done|]. destruct (_ && _); [done|]. injection Hi as <-. by split_and!.
Qed.
End pinning.

(** ** Mount options *)

Definition comma : Ascii.ascii := Ascii.ascii_of_nat 44.
Definition no_comma (s : string) : bool := str_forall (λ a, negb (Ascii.eqb a comma)) s.

Lemma no_comma_app a b : no_comma (a +:+ b) = no_comma a && no_comma b.
Proof. apply str_forall_app. Qed.

Lemma split_no_comma s : no_comma s = true → split_on comma s = [s].
Proof.
  unfold no_comma. induction s as [|a s IH]; [done|]. cbn. intros [Ha Hs]%andb_true_iff. apply negb_true_iff in Ha as ->.
  by rewrite IH.
Qed.

Lemma mount_option_fields s t b : no_comma s = true → no_comma t = true → split_on comma (mount_option s t b) =
  ["type=bind"; "source=" +:+ s; "target=" +:+ t; "readonly=" +:+ (if b then "true" else "false")].
Proof.
  intros Hs Ht. unfold mount_option.
  change ("type=bind,source=" +:+ s +:+ ",target=" +:+ t +:+ ",readonly=" +:+ (if b then "true" else "false"))
    with ("type=bind" +:+ String comma ("source=" +:+ (s +:+ String comma ("target=" +:+ (t +:+ String comma ("readonly=" +:+ (if b then "true" else "false"))))))).
  rewrite split_on_app, (str_app_assoc "source="), split_on_app, (str_app_assoc "target="), split_on_app.
  rewrite (split_no_comma ("source=" +:+ s)), (split_no_comma ("target=" +:+ t)) by done.
  by destruct b.
Qed.

(** The fields Docker sees in the option of a mount whose paths have no comma are the ones that were meant; so the option determines
    the mount. *)
Theorem mount_option_roundtrip source target ro : no_comma source = true → no_comma target = true →
  split_on comma (mount_option source target ro) =
    ["type=bind"; "source=" +:+ source; "target=" +:+ target; "readonly=" +:+ (if ro then "true" else "false")] ∧
  ∀ source' target' ro', no_comma source' = true → no_comma target' = true →
    mount_option source' target' ro' = mount_option source target ro → source' = source ∧ target' = target ∧ ro' = ro.
Proof.
  intros Hs Ht. split; [by apply mount_option_fields|]. intros s' t' b' Hs' Ht' E. apply (f_equal (split_on comma)) in E.
  rewrite !mount_option_fields in E by done. injection E as E1 E2 E3. split_and!; [done..|]. by destruct ro, b'.
Qed.

(** ** Examples *)

Module DockerExamples.
#[local] Instance no_repr : PyRepr := λ _, "".

Definition digest : string := "sha256:0123456789abcdef0123456789abcdef0123456789abcdef0123456789abcdef".
Definition mount (source target access : string) : pyval :=
  PDict [("hostPathCanonical", PStr source); ("containerPath", PStr target); ("access", PStr access)].
Definition manifest : pydict :=
  [("version", PInt 1); ("primaryWorkspace", mount "/srv/w" "/workspace" "rw"); ("extraMounts", PList [mount "/srv/ref" "/ref" "ro"])].
Definition session_with (image : pydict) (runtime : DelegatedRuntimeRecord) : DelegatedSessionRecord :=
  mkDelegatedSession "dgsess_1" "m1" "s1" "u1" "app" image [] manifest
    [("maxContainerLifetimeSeconds", PInt 60); ("network", PDict [("defaultAction", PStr "deny"); ("allow", PList [])])]
    "fake" "accepted" [] "bind_mount" None None None 1 1 None None None runtime "delegated_session" 1 0 0.
Definition pinned_image : pydict := [("reference", PStr "haas/worker"); ("digest", PStr digest); ("variant", PStr "lite")].
Definition never_started : DelegatedRuntimeRecord := mkDelegatedRuntime "no_runtime" None 0 None None.
Definition session : DelegatedSessionRecord := session_with pinned_image never_started.
Definition settings : DockerSettings := mkSettings "docker" "none" false.

(** A daemon that runs whatever it is asked to. *)
#[local] Instance daemon : CommandRunner := λ before command,
  match command !! 1%nat with
  | Some "version" => Ok "amd64" | Some "inspect" => Ok "true" | Some "run" => Ok ("c" +:+ pretty (Z.of_nat (length before)))
  | _ => Ok ""
  end.

Definition first_start : DockerRuntime * result DelegatedRuntimeRecord := restore settings 7 session new_docker.

Lemma restore_starts_one_confined_worker_witness : ∃ probes args,
  dk_commands first_start.1 = probes ++ [args] ∧ Forall probe probes ∧ starts_worker settings session 1 args.
Proof.
  assert (Hr : restore settings 7 session new_docker = (first_start.1, Ok (mkDelegatedRuntime "running" (Some "c1") 1 (Some 7) (Some 7))))
    by (vm_compute; reflexivity).
  destruct (restore_starts_one_confined_worker settings 7 session new_docker _ _ Hr)
    as (probes & Hp & _ & _ & _ & [[_ [E _]]|(args & E & Hs & _)]); [by vm_compute in E|].
  exists probes, args. rewrite E. split_and!; [reflexivity|exact Hp|exact Hs].
Defined.

(** Restored again, the running container stays. *)
Example restored_again : (restore settings 9 (session_with pinned_image (mkDelegatedRuntime "running" (Some "c1") 1 (Some 7) (Some 7))) new_docker).2 =
  Ok (mkDelegatedRuntime "running" (Some "c1") 1 (Some 7) (Some 9)).
Proof. vm_compute. reflexivity. Qed.

Lemma image_is_pinned_witness : checked_image settings session "linux/amd64" = Ok ("haas/worker@" +:+ digest) ∧
  ∃ name d, "haas/worker@" +:+ digest = name +:+ "@" +:+ d ∧ is_digest d = true ∧ (digest ≠ "" → d = digest).
Proof.
  split; [vm_compute; reflexivity|].
  exact (image_is_pinned settings session "linux/amd64" _ ltac:(vm_compute; reflexivity) eq_refl ltac:(vm_compute; reflexivity)).
Defined.

Lemma mount_option_roundtrip_witness :
  split_on comma (mount_option "/srv/ref" "/ref" true) = ["type=bind"; "source=/srv/ref"; "target=/ref"; "readonly=true"].
Proof. apply (mount_option_roundtrip "/srv/ref" "/ref" true); reflexivity. Defined.

(** A reference that ends in an at sign has an empty embedded digest: neither its digest is looked at, nor is it
    compared with the session's digest, and the session's digest is left out of the image. *)
Theorem trailing_at_drops_digest :
  checked_image settings (session_with [("reference", PStr "other/image@sha256:@"); ("digest", PStr digest)] never_started) "linux/amd64" =
  Ok "other/image@sha256:@".
Proof. vm_compute. reflexivity. Qed.

(** An inspect command that fails counts as a container that does not run: a second container is started with the
    session's volume and mounts, and the first is no longer recorded. *)
Theorem failed_inspect_starts_second_container :
  let hiccup : CommandRunner := λ before command,
    if bool_decide (command !! 1%nat = Some "inspect") then Raise (unavailable "daemon busy") else daemon before command in
  let s := session_with pinned_image (mkDelegatedRuntime "running" (Some "c1") 1 (Some 7) (Some 7)) in
  let '(r, res) := @restore no_repr hiccup settings 9 s new_docker in
  (λ c, c !! 1%nat) <$> dk_commands r = [Some "inspect"; Some "version"; Some "run"] ∧
  res = Ok (mkDelegatedRuntime "running" (Some "c2") 2 (Some 9) (Some 9)).
Proof. vm_compute. by split. Qed.
End DockerExamples.
