(* ===== verification/Relay.v ===== *)
(** * Relaying a worker's events (haas/runtime/delegation.py)

    [run_stream] and [cancel] of [DockerDelegatedContainerRuntime].  What the worker's process writes is the
    environment; a relay is cut where it suspends: asking for the next event, waking up, being closed. *)

From S2P Require Import Prelude Errors Dict PyVal Encoding Json JsonText Records Docker.

#[local] Open Scope string_scope.
#[local] Open Scope list_scope.
#[local] Open Scope Z_scope.

(** What the process of [run_stream] writes for a command line and a request: its lines, and the exception of a failed
    process. *)
Class WorkerStream := worker_output : list string → string → list string * option exn.

(** [AtPull]: suspended at a [yield] of an event.  [Waiting b]: in [asyncio.wait], entered with the cancel event set or
    not.  [AtReturn]: suspended at the [yield] of the cancellation.  *)
Inductive stream_pc := AtPull | Waiting (already : bool) | AtReturn | Ended (error : option exn).

(** A [run_stream] generator: its locals, the rest of the worker's output and the events yielded. *)
Record RunStream := mkStream {
  rs_execution_id : string;
  rs_cancel : nat;
  rs_source : list string * option exn;
  rs_pc : stream_pc;
  rs_yields : list pydict;
}.
#[export] Instance eta_stream : Eta RunStream :=
  λ x, mkStream (rs_execution_id x) (rs_cancel x) (rs_source x) (rs_pc x) (rs_yields x).

Definition cancelled_event : pydict :=
  [("content", PDict [("role", PStr "model"); ("parts", PList [])]);
   ("actions", PDict [("stateDelta", PDict [("status", PStr "cancelled")])])].

(** [self._cancel_events.setdefault(id, asyncio.Event())] *)
Definition cancel_event (id : string) : docker_m nat := λ r,
  match dget id (dk_cancel_events r) with
  | Some l => (r, Ok l)
  | None =>
      let l := length (dk_events r) in
      (r <| dk_events := dk_events r ++ [false] |> <| dk_cancel_events := dset id l (dk_cancel_events r) |>, Ok l)
  end.

(** [cancel] *)
Definition cancel (execution_id : string) : docker_m unit :=
  _ ← guard_or (is_execution_id execution_id) (unavailable "delegated_execution_id_invalid");
  l ← cancel_event execution_id;
  modify (λ r, r <| dk_events := <[l := true]> (dk_events r) |>).

Section relay.
Context `{PyRepr} `{JsonLib} `{WorkerStream} (k : DockerSettings).

Definition run_envelope (session : DelegatedSessionRecord) (execution_id : string) (body : pydict) : pydict :=
  [("version", PInt 1); ("executionId", PStr execution_id);
   ("generation", PInt (dr_containerGeneration (ds_runtime session))); ("harnessBase", PStr (ds_harnessBase session));
   ("request", PDict body)].

Definition line_feed : string := String (Ascii.ascii_of_nat 10) "".
Definition is_set (l : nat) (r : DockerRuntime) : bool := default false (dk_events r !! l).

(** Entering [asyncio.wait]. *)
Definition begin_wait (x : RunStream) : docker_m RunStream := λ r, (r, Ok (x <| rs_pc := Waiting (is_set (rs_cancel x) r) |>)).

(** [run_stream] up to its first wait. *)
Definition run_start (session : DelegatedSessionRecord) (body : pydict) : docker_m RunStream :=
  match present (dr_containerId (ds_runtime session)) with
  | None => raise (unavailable "delegated_container_not_running")
  | Some id =>
      let execution_id := str_or (pget "executionId" body) "" in
      _ ← guard_or (is_execution_id execution_id) (unavailable "delegated_execution_id_invalid");
      let args := [k_docker_bin k; "exec"; "-i"; id; "/opt/haas/bin/private-worker"] in
      let request := json_compact (PDict (run_envelope session execution_id body)) +:+ line_feed in
      l ← cancel_event execution_id;
      begin_wait (mkStream execution_id l (worker_output args request) AtPull [])
  end.

(** The [finally] block. *)
Definition run_finish (error : option exn) (x : RunStream) : docker_m RunStream := λ r,
  (r <| dk_cancel_events := ddel (rs_execution_id x) (dk_cancel_events r) |>, Ok (x <| rs_pc := Ended error |>)).

(** The consumer asks for the next event. *)
Definition run_pull (x : RunStream) : docker_m RunStream :=
  match rs_pc x with AtPull => begin_wait x | AtReturn => run_finish None x | _ => mret x end.

(** The wait is over: with the cancellation among the finished tasks, or with the worker's next output alone, which cannot be
    when the event was set before the wait. *)
Inductive wake := WakeCancel | WakeNext.

Definition run_wake (w : wake) (x : RunStream) : docker_m RunStream := λ r,
  match rs_pc x, w with
  | Waiting _, WakeCancel =>
      if is_set (rs_cancel x) r
      then (r, Ok (x <| rs_pc := AtReturn |> <| rs_yields := rs_yields x ++ [cancelled_event] |>))
      else (r, Ok x)
  | Waiting false, WakeNext =>
      match rs_source x with
      | ([], error) => run_finish error x r
      | (raw :: lines, error) =>
          let x := x <| rs_source := (lines, error) |> in
          match json_loads raw with
          | Some (PDict event) => (r, Ok (x <| rs_pc := AtPull |> <| rs_yields := rs_yields x ++ [event] |>))
          | _ => run_finish (Some (unavailable "delegated_private_worker_malformed_ndjson")) x r
          end
      end
  | _, _ => (r, Ok x)
  end.

(** The consumer closes the generator or is cancelled in it. *)
Definition run_close (x : RunStream) : docker_m RunStream :=
  match rs_pc x with Ended _ => mret x | _ => run_finish (Some (OtherError "GeneratorExit" None)) x end.

(** ** Relays and cancellations of one runtime object *)

Record Relays := mkRelays { rl_docker : DockerRuntime; rl_streams : list RunStream }.
Definition no_relays : Relays := mkRelays new_docker [].

Inductive relay_call :=
  | RStart (session : DelegatedSessionRecord) (body : pydict)
  | RCancel (execution_id : string)
  | RPull (i : nat) | RWake (i : nat) (w : wake) | RClose (i : nat).

Definition at_stream (i : nat) (f : RunStream → docker_m RunStream) (s : Relays) : Relays :=
  match rl_streams s !! i with
  | Some x => match f x (rl_docker s) with
              | (r, Ok x') => mkRelays r (<[i := x']> (rl_streams s))
              | (r, Raise _) => mkRelays r (rl_streams s)
              end
  | None => s
  end.

Definition relay_step (c : relay_call) (s : Relays) : Relays :=
  match c with
  | RStart session body =>
      match run_start session body (rl_docker s) with
      | (r, Ok x) => mkRelays r (rl_streams s ++ [x])
      | (r, Raise _) => mkRelays r (rl_streams s)
      end
  | RCancel id => mkRelays (cancel id (rl_docker s)).1 (rl_streams s)
  | RPull i => at_stream i run_pull s
  | RWake i w => at_stream i (run_wake w) s
  | RClose i => at_stream i run_close s
  end.
Definition relay_run (calls : list relay_call) (s : Relays) : Relays := foldl (λ s c, relay_step c s) s calls.
End relay.

(** ** What a relay yields *)

Section relays.
Context `{PyRepr} `{JsonLib} `{WorkerStream} (k : DockerSettings).

(** The events of a worker's output and how it ends. *)
Fixpoint relayed (lines : list string) (error : option exn) : list pydict * option exn :=
  match lines with
  | [] => ([], error)
  | raw :: lines' =>
      match json_loads raw with
      | Some (PDict event) => let '(events, e) := relayed lines' error in (event :: events, e)
      | _ => ([], Some (unavailable "delegated_private_worker_malformed_ndjson"))
      end
  end.

Definition closed_exn : exn := OtherError "GeneratorExit" None.

(** A relay of the output [lines], [error]. *)
Definition relays_output (lines : list string) (error : option exn) (x : RunStream) : Prop :=
  let all := relayed lines error in
  match rs_pc x with
  | AtPull | Waiting _ =>
      let rest := relayed (rs_source x).1 (rs_source x).2 in all = (rs_yields x ++ rest.1, rest.2)
  | AtReturn => ∃ ys, ys `prefix_of` all.1 ∧ rs_yields x = ys ++ [cancelled_event]
  | Ended e =>
      all = (rs_yields x, e) ∨ (rs_yields x `prefix_of` all.1 ∧ e = Some closed_exn) ∨
      ∃ ys, ys `prefix_of` all.1 ∧ rs_yields x = ys ++ [cancelled_event] ∧ (e = None ∨ e = Some closed_exn)
  end.

(** A change of one stream. *)
Definition stream_move (f : RunStream → docker_m RunStream) : Prop := ∀ x r,
  ∃ x' r', f x r = (r', Ok x') ∧ rs_execution_id x' = rs_execution_id x ∧ rs_cancel x' = rs_cancel x ∧
    dk_events r' = dk_events r ∧
    (dk_cancel_events r' = dk_cancel_events r ∨
     dk_cancel_events r' = ddel (rs_execution_id x) (dk_cancel_events r) ∧ ∃ e, rs_pc x' = Ended e) ∧
    (∀ e, rs_pc x = Ended e → rs_pc x' = Ended e) ∧
    (∀ lines error, relays_output lines error x → relays_output lines error x').

Ltac moved := eexists _, _; split; [reflexivity|]; split_and!; try done; try (by left); try (by right; eauto); try congruence.

Lemma prefix_of_eq {A} (l1 l2 l : list A) : l = l1 ++ l2 → l1 `prefix_of` l.
Proof. intros ->. by exists l2. Qed.

Lemma pull_move : stream_move run_pull.
Proof.
  intros x r. unfold run_pull. destruct (rs_pc x) eqn:E; moved.
  all: intros lines error; unfold relays_output; cbn; rewrite E; try done.
  intros (ys & Hp & Hy). right. right. exists ys. split_and!; [done..|by left].
Qed.

Lemma close_move : stream_move run_close.
Proof.
  intros x r. unfold run_close. destruct (rs_pc x) eqn:E; moved.
  all: intros lines error; unfold relays_output; cbn; rewrite E; try done.
  - intros ->. right. left. by split; [eexists|].
  - intros ->. right. left. by split; [eexists|].
  - intros (ys & Hp & Hy). right. right. exists ys. split_and!; [done..|by right].
Qed.

Lemma wake_move w : stream_move (run_wake w).
Proof.
  intros x r. unfold run_wake. destruct (rs_pc x) as [|already| |e] eqn:E; [moved| |moved|moved].
  assert (Hcancel : ∃ x' r', (if is_set (rs_cancel x) r
      then (r, Ok (x <| rs_pc := AtReturn |> <| rs_yields := rs_yields x ++ [cancelled_event] |>)) else (r, Ok x)) = (r', Ok x') ∧
      rs_execution_id x' = rs_execution_id x ∧ rs_cancel x' = rs_cancel x ∧ r' = r ∧
      (∀ lines error, relays_output lines error x → relays_output lines error x')).
  { destruct (is_set _ _); eexists _, _; split; try reflexivity; split_and!; try done.
    intros lines error. unfold relays_output. cbn. rewrite E. intros ->. exists (rs_yields x). by split; [eexists|]. }
  destruct w; [destruct Hcancel as (x' & r' & Hw & ? & ? & -> & ?); exists x', r; destruct already; rewrite Hw; split_and!; try done;
    first [by left|congruence]|].
  destruct already; [moved|]. destruct (rs_source x) as [[|raw lines0] error0] eqn:Es.
  - moved. intros lines error. unfold relays_output. cbn. rewrite E, Es. cbn. rewrite app_nil_r. by left.
  - destruct (json_loads raw) as [[]|] eqn:Ej; moved; intros lines error; unfold relays_output; cbn; rewrite E, Es; cbn; rewrite Ej;
      cbn; rewrite ?app_nil_r; try (by left).
    intros ->. destruct (relayed lines0 error0) as [es e]. cbn. by rewrite <-app_assoc.
Qed.

(** What a call does to the stream at an index. *)
Lemma step_stream c s i x : rl_streams (relay_step k c s) !! i = Some x →
  (∃ x0 f, rl_streams s !! i = Some x0 ∧ stream_move f ∧ ∃ r, f x0 r = ((f x0 r).1, Ok x)) ∨
  (∃ session body, c = RStart session body ∧ (run_start k session body (rl_docker s)).2 = Ok x).
Proof.
  assert (Hid : stream_move (λ x, mret x)) by (intros x0 r; moved).
  assert (Hstay : rl_streams s !! i = Some x →
    ∃ x0 f, rl_streams s !! i = Some x0 ∧ stream_move f ∧ ∃ r, f x0 r = ((f x0 r).1, Ok x)).
  { intros Hx. exists x, (λ x, mret x). split_and!; [done..|]. by exists (rl_docker s). }
  assert (Hat : ∀ j f, stream_move f → rl_streams (at_stream j f s) !! i = Some x →
    ∃ x0 f, rl_streams s !! i = Some x0 ∧ stream_move f ∧ ∃ r, f x0 r = ((f x0 r).1, Ok x)).
  { intros j f Hf. unfold at_stream. destruct (rl_streams s !! j) as [x0|] eqn:Ej; [|exact Hstay].
    destruct (Hf x0 (rl_docker s)) as (x' & r' & Hx & _). rewrite Hx. cbn.
    intros [(<- & <- & _)|[Hne Hi]]%list_lookup_insert_Some; [|by apply Hstay].
    exists x0, f. split_and!; [done..|]. exists (rl_docker s). by rewrite Hx. }
  destruct c; cbn; intros Hx.
  - destruct (run_start k session body (rl_docker s)) as [r [x'|]] eqn:Er; cbn in Hx; [|by left; apply Hstay].
    apply lookup_snoc_Some in Hx as [[_ Hx]|[_ ->]]; [by left; apply Hstay|]. right. exists session, body. by rewrite Er.
  - left. by apply Hstay.
  - left. exact (Hat _ _ pull_move Hx).
  - left. exact (Hat _ _ (wake_move w) Hx).
  - left. exact (Hat _ _ close_move Hx).
Qed.

Lemma run_start_Ok session body r x : (run_start k session body r).2 = Ok x →
  ∃ id, present (dr_containerId (ds_runtime session)) = Some id ∧ rs_execution_id x = str_or (pget "executionId" body) "" ∧
    is_execution_id (rs_execution_id x) = true ∧
    rs_source x = worker_output [k_docker_bin k; "exec"; "-i"; id; "/opt/haas/bin/private-worker"]
      (json_compact (PDict (run_envelope session (rs_execution_id x) body)) +:+ line_feed) ∧
    rs_yields x = [] ∧ ∃ b, rs_pc x = Waiting b.
Proof.
  unfold run_start. destruct (present _) as [id|]; [|done]. unfold guard_or, mbind, M_bind.
  destruct (is_execution_id _) eqn:E; [|done]. cbn. unfold cancel_event. destruct (dget _ _); cbn; intros [= <-]; cbn; eauto 10.
Qed.

(** A relay yields what its worker writes.  Whatever relays, cancellations and closings are interleaved, a relay was started
    for a session with a container and a valid execution id, and it yields, in order, the objects on the lines of the
    worker it started; one that ends on its own has yielded them all and ends as the output does, with the worker's
    exception or at the first line that is not an object; a cancelled one has yielded a prefix and one
    cancellation, last. *)
Theorem relay_faithful calls i x : rl_streams (relay_run k calls no_relays) !! i = Some x →
  ∃ session body id,
    RStart session body ∈ calls ∧ present (dr_containerId (ds_runtime session)) = Some id ∧
    rs_execution_id x = str_or (pget "executionId" body) "" ∧ is_execution_id (rs_execution_id x) = true ∧
    let output := worker_output [k_docker_bin k; "exec"; "-i"; id; "/opt/haas/bin/private-worker"]
      (json_compact (PDict (run_envelope session (rs_execution_id x) body)) +:+ line_feed) in
    relays_output output.1 output.2 x.
Proof.
  revert i x. induction calls as [|c calls IH] using rev_ind; intros i x; [done|]. unfold relay_run. rewrite foldl_app. cbn.
  intros [(x0 & f & Hi & Hf & r & Hr)|(session & body & -> & Hs)]%step_stream.
  - destruct (IH _ _ Hi) as (session & body & id & Hin & Hid & He & Hv & Ho).
    destruct (Hf x0 r) as (x' & r' & Hx & E1 & E2 & _ & _ & _ & Hk). rewrite Hx in Hr. injection Hr as ->.
    exists session, body, id. rewrite E1. split_and!; [set_solver|done..|].
    by apply Hk.
  - apply run_start_Ok in Hs as (id & Hid & He & Hv & Hsrc & Hy & b & Hpc). exists session, body, id.
    split_and!; [set_solver|done..|]. rewrite <-Hsrc. cbv zeta. unfold relays_output. rewrite Hpc, Hy.
    by destruct (relayed _ _).
Qed.
(** ** A relay nobody cancels *)

(** The worker's next output and the consumer's next request, [n] times. *)
Fixpoint drain (i n : nat) : list relay_call :=
  match n with O => [] | S n' => RWake i WakeNext :: RPull i :: drain i n' end.

Lemma at_stream_eq i f s x r x' : rl_streams s !! i = Some x → f x (rl_docker s) = (r, Ok x') →
  at_stream i f s = mkRelays r (<[i := x']> (rl_streams s)).
Proof. unfold at_stream. intros -> ->. done. Qed.

Lemma ended_stays i s x e : rl_streams s !! i = Some x → rs_pc x = Ended e →
  at_stream i run_pull s = s ∧ ∀ w, at_stream i (run_wake w) s = s.
Proof.
  intros Hi He. assert (Hs : ∀ f, f x (rl_docker s) = (rl_docker s, Ok x) → at_stream i f s = s).
  { intros f Hf. rewrite (at_stream_eq _ _ _ _ _ _ Hi Hf), list_insert_id by done. by destruct s. }
  split; [|intros w]; apply Hs; [unfold run_pull|unfold run_wake]; by rewrite He.
Qed.

Lemma drain_ended i n s x e : rl_streams s !! i = Some x → rs_pc x = Ended e → relay_run k (drain i n) s = s.
Proof.
  intros Hi He. destruct (ended_stays _ _ _ _ Hi He) as [Hp Hw].
  induction n as [|n IH]; [done|]. unfold relay_run. cbn [drain foldl relay_step]. by rewrite Hw, Hp.
Qed.

(** An output that ends the relay. *)
Lemma drain_end i n s x r x' e : rl_streams s !! i = Some x → run_wake WakeNext x (rl_docker s) = (r, Ok x') → rs_pc x' = Ended e →
  rl_streams (relay_run k (drain i (S n)) s) !! i = Some x'.
Proof.
  intros Hi Hw He. unfold relay_run. cbn [drain foldl relay_step]. rewrite (at_stream_eq _ _ _ _ _ _ Hi Hw).
  assert (Hi' : rl_streams (mkRelays r (<[i := x']> (rl_streams s))) !! i = Some x')
    by (cbn; apply list_lookup_insert_eq; by eapply lookup_lt_Some).
  rewrite (proj1 (ended_stays _ _ _ _ Hi' He)). fold (relay_run k (drain i n) (mkRelays r (<[i := x']> (rl_streams s)))).
  by rewrite (drain_ended _ _ _ _ _ Hi' He).
Qed.

Lemma drain_delivers i lines error x s :
  rl_streams s !! i = Some x → rs_pc x = Waiting false → rs_source x = (lines, error) → is_set (rs_cancel x) (rl_docker s) = false →
  ∃ x', rl_streams (relay_run k (drain i (S (length lines))) s) !! i = Some x' ∧
    rs_yields x' = rs_yields x ++ (relayed lines error).1 ∧ rs_pc x' = Ended (relayed lines error).2.
Proof.
  revert x s. induction lines as [|raw lines IH]; intros x s Hi Hpc Hs Hset.
  { eexists. split; [eapply drain_end; [done| |]; [by unfold run_wake; rewrite Hpc, Hs|done]|]. cbn. by rewrite app_nil_r. }
  assert (Hlen : (i < length (rl_streams s))%nat) by (by eapply lookup_lt_Some). cbn [length relayed].
  destruct (json_loads raw) as [[]|] eqn:Ej.
  1-6,8: (eexists; split; [eapply drain_end; [done| |]; [by unfold run_wake; rewrite Hpc, Hs, Ej|done]|]; cbn; by rewrite app_nil_r).
  set (x1 := x <| rs_source := (lines, error) |> <| rs_pc := AtPull |> <| rs_yields := rs_yields x ++ [d] |>).
  set (s1 := mkRelays (rl_docker s) (<[i := x1]> (rl_streams s))).
  assert (Hwake : at_stream i (run_wake WakeNext) s = s1).
  { apply (at_stream_eq _ _ _ x); [done|]. unfold run_wake. by rewrite Hpc, Hs, Ej. }
  set (x2 := x1 <| rs_pc := Waiting false |>).
  assert (Hpull : at_stream i run_pull s1 = mkRelays (rl_docker s) (<[i := x2]> (rl_streams s))).
  { rewrite (at_stream_eq _ _ _ x1 (rl_docker s) x2); [cbn; by rewrite list_insert_insert_eq|by apply list_lookup_insert_eq|].
    change (begin_wait x1 (rl_docker s) = (rl_docker s, Ok x2)). unfold begin_wait.
    change (rs_cancel x1) with (rs_cancel x). cbn [rl_docker]. by rewrite Hset. }
  change (drain i (S (S (length lines)))) with (RWake i WakeNext :: RPull i :: drain i (S (length lines))).
  unfold relay_run. cbn [foldl relay_step]. rewrite Hwake, Hpull.
  destruct (IH x2 (mkRelays (rl_docker s) (<[i := x2]> (rl_streams s)))) as (x' & Hx & Hy & He);
    [by apply list_lookup_insert_eq|done..|].
  exists x'. split; [exact Hx|]. rewrite Hy, He. cbn. destruct (relayed lines error) as [es e]. cbn. by rewrite <-app_assoc.
Qed.

(** ** A cancellation reaches its relay *)

Definition started_ids (calls : list relay_call) : list string :=
  calls ≫= λ c, match c with RStart _ body => [str_or (pget "executionId" body) ""] | _ => [] end.

Definition live (x : RunStream) : bool := match rs_pc x with Ended _ => false | _ => true end.

Definition events_known (ids : list string) (s : Relays) : Prop :=
  NoDup (rs_execution_id <$> rl_streams s) ∧
  (∀ i x, rl_streams s !! i = Some x → (rs_execution_id x ∈ ids ∧ is_execution_id (rs_execution_id x) = true) ∧
     (live x = true → dget (rs_execution_id x) (dk_cancel_events (rl_docker s)) = Some (rs_cancel x))) ∧
  (∀ id l, dget id (dk_cancel_events (rl_docker s)) = Some l → (l < length (dk_events (rl_docker s)))%nat).

Lemma cancel_event_spec id r : ∃ l, (cancel_event id r).2 = Ok l ∧
  let r' := (cancel_event id r).1 in
  (∀ i, dget i (dk_cancel_events r') = if decide (i = id) then Some l else dget i (dk_cancel_events r)) ∧
  (∀ l', dget id (dk_cancel_events r) = Some l' → l = l') ∧
  (length (dk_events r) ≤ length (dk_events r'))%nat ∧
  ((∀ i l', dget i (dk_cancel_events r) = Some l' → (l' < length (dk_events r))%nat) → (l < length (dk_events r'))%nat).
Proof.
  unfold cancel_event. destruct (dget id _) as [l|] eqn:E; cbn.
  - exists l. split_and!; [done| |congruence|done|eauto]. intros i. by case_decide as D; [subst|].
  - eexists. split_and!; [done|intros i; apply dget_dset|done|..]; [|intros _]; rewrite length_app; cbn; lia.
Qed.

Lemma insert_fields {B} (f : RunStream → B) (l : list RunStream) i x x' :
  l !! i = Some x → f x' = f x → f <$> <[i := x']> l = f <$> l.
Proof. intros Hi E. rewrite list_fmap_insert, E. apply list_insert_id. by rewrite list_lookup_fmap, Hi. Qed.

Lemma at_stream_known i f ids s : stream_move f → events_known ids s → events_known ids (at_stream i f s).
Proof.
  intros Hf (Hn & Hs & Hl). unfold at_stream. destruct (rl_streams s !! i) as [x|] eqn:Ei; [|done].
  destruct (Hf x (rl_docker s)) as (x' & r' & Hx & E1 & E2 & Ee & Ed & Hend & _). rewrite Hx. split_and!; cbn.
  - by rewrite (insert_fields _ _ _ x).
  - intros j y [(<- & <- & _)|[Hne Hj]]%list_lookup_insert_Some.
    + rewrite E1, E2. destruct (Hs i x Ei) as [Hid Hd]. split; [done|]. destruct Ed as [-> |[_ [e He]]]; [|by unfold live; rewrite He].
      unfold live in *. intros Hv. apply Hd. destruct (rs_pc x) eqn:E; try done. by rewrite (Hend _ eq_refl) in Hv.
    + destruct (Hs j y Hj) as [Hid Hd]. split; [done|]. intros Hv. destruct Ed as [-> |[-> _]]; [by apply Hd|].
      rewrite dget_ddel_ne; [by apply Hd|]. intros E. apply Hne.
      apply (NoDup_lookup (rs_execution_id <$> rl_streams s) i j (rs_execution_id x)); [done|..]; rewrite list_lookup_fmap;
        [by rewrite Ei|by rewrite Hj, <-E].
  - rewrite Ee. intros id l. destruct Ed as [-> |[-> _]]; [apply Hl|]. rewrite dget_ddel. case_decide; [done|apply Hl].
Qed.

Lemma cancel_event_known id ids s l r' : events_known ids s → cancel_event id (rl_docker s) = (r', Ok l) →
  events_known ids (mkRelays r' (rl_streams s)) ∧ dget id (dk_cancel_events r') = Some l ∧ (l < length (dk_events r'))%nat.
Proof.
  intros (Hn & Hs & Hl) E. destruct (cancel_event_spec id (rl_docker s)) as (l0 & E0 & Ed & Eo & Ele & El). rewrite E in *. cbn in *.
  injection E0 as ->. unfold events_known. split_and!; cbn; [done|..].
  - intros i x Hi. destruct (Hs i x Hi) as [Hid Hd]. split; [done|]. intros Hv. specialize (Hd Hv). rewrite Ed.
    case_decide as D; [|done]. rewrite D in Hd. by rewrite (Eo _ Hd).
  - intros i l'. rewrite Ed. case_decide; [intros [= <-]; auto|]. intros Hi%Hl. lia.
  - rewrite Ed. by rewrite decide_True.
  - auto.
Qed.

Lemma cancel_known id ids s : events_known ids s → events_known ids (relay_step k (RCancel id) s).
Proof.
  intros Hk. cbn. unfold cancel, guard_or, mbind, M_bind. destruct (is_execution_id id); [|done]. cbn.
  destruct (cancel_event_spec id (rl_docker s)) as (l & E & _). destruct (cancel_event id (rl_docker s)) as [r' q] eqn:Ec.
  cbn in E. subst q. destruct (cancel_event_known _ _ _ _ _ Hk Ec) as ((Hn & Hs & Hl) & _ & _). cbn in *.
  split_and!; cbn; [done..|]. intros i l'. rewrite length_insert. apply Hl.
Qed.

Lemma start_known session body ids s : str_or (pget "executionId" body) "" ∉ ids → events_known ids s →
  events_known (ids ++ [str_or (pget "executionId" body) ""]) (relay_step k (RStart session body) s).
Proof.
  intros Hnew Hk. assert (Hmore : events_known (ids ++ [str_or (pget "executionId" body) ""]) s).
  { destruct Hk as (Hn & Hs & Hl). split_and!; [done| |done]. intros i x Hi. destruct (Hs i x Hi) as [[Hid Hv] ?].
    split; [|done]. split; [|done]. apply elem_of_app. by left. }
  cbn. unfold run_start. destruct (present _) as [id|]; [|by destruct s].
  unfold guard_or, mbind, M_bind. set (x0 := str_or _ _) in *. destruct (is_execution_id x0) eqn:Hv0; [|by destruct s]. cbn.
  destruct (cancel_event_spec x0 (rl_docker s)) as (l & E & _). destruct (cancel_event x0 (rl_docker s)) as [r' q] eqn:Ec.
  cbn in E. subst q. destruct (cancel_event_known _ _ _ _ _ Hmore Ec) as ((Hn & Hs & Hl) & Hd & _). cbn in *.
  split_and!; cbn; [|intros i x|done].
  - rewrite fmap_app. apply NoDup_app. split_and!; [done| |apply NoDup_singleton].
    intros y (x & -> & Hx)%list_elem_of_fmap. apply list_elem_of_lookup in Hx as [i Hi].
    destruct Hk as (_ & Hs0 & _). destruct (Hs0 i x Hi) as [[Hid _] _]. cbn. intros E%list_elem_of_singleton. by rewrite E in Hid.
  - intros [[_ Hi]|[_ <-]]%lookup_snoc_Some; [by apply (Hs i)|]. cbn. split; [|done]. split; [|done]. apply elem_of_app. right. by left.
Qed.

Lemma run_known calls : NoDup (started_ids calls) → events_known (started_ids calls) (relay_run k calls no_relays).
Proof.
  induction calls as [|c calls IH] using rev_ind.
  - intros _. split_and!; cbn; [constructor|done|done].
  - unfold started_ids. rewrite bind_app. fold (started_ids calls). intros (Hn & Hd & _)%NoDup_app. specialize (IH Hn).
    unfold relay_run. rewrite foldl_app. cbn [foldl]. destruct c; cbn [mbind list_bind app] in *.
    + apply start_known; [|done]. intros Hin. apply (Hd _ Hin). by left.
    + rewrite app_nil_r. by apply cancel_known.
    + rewrite app_nil_r. by apply at_stream_known; [apply pull_move|].
    + rewrite app_nil_r. by apply at_stream_known; [apply wake_move|].
    + rewrite app_nil_r. by apply at_stream_known; [apply close_move|].
Qed.
(** What a stream whose event is set still yields after [y0]. *)
Definition short (l : list pydict) : Prop := (length l ≤ 1)%nat.
Definition stopping (y0 : list pydict) (x : RunStream) : Prop :=
  ∃ l, rs_yields x = y0 ++ l ∧
    match rs_pc x with
    | Waiting false => l = []
    | AtPull | Waiting true => short l
    | AtReturn => ∃ l', short l' ∧ l = l' ++ [cancelled_event]
    | Ended _ => ∃ l', short l' ∧ (l = l' ∨ l = l' ++ [cancelled_event])
    end.

Definition delivering (x : RunStream) : bool := match rs_pc x with AtPull | Waiting _ => true | _ => false end.

Definition stops (i : nat) (y0 : list pydict) (s : Relays) : Prop :=
  ∃ x, rl_streams s !! i = Some x ∧ is_set (rs_cancel x) (rl_docker s) = true ∧ stopping y0 x.

Lemma pull_stops y0 x r x' : is_set (rs_cancel x) r = true → (run_pull x r).2 = Ok x' → stopping y0 x → stopping y0 x'.
Proof.
  unfold run_pull, stopping. intros Hset Hx (l & Hy & Hp). destruct (rs_pc x) eqn:E; cbn in Hx; injection Hx as <-; cbn;
    rewrite ?E, ?Hset; eauto. destruct Hp as (l' & ? & ->). exists (l' ++ [cancelled_event]). eauto.
Qed.

Lemma close_stops y0 x r x' : (run_close x r).2 = Ok x' → stopping y0 x → stopping y0 x'.
Proof.
  unfold run_close, stopping. intros Hx (l & Hy & Hp).
  destruct (rs_pc x) as [|[]| |] eqn:E; cbn in Hx; injection Hx as <-; cbn; rewrite ?E; eauto 6.
  - subst l. exists []. split; [done|]. exists []. split; [unfold short; cbn; lia|by left].
  - destruct Hp as (l' & ? & ->). exists (l' ++ [cancelled_event]). eauto.
Qed.

Lemma wake_stops w y0 x r x' : is_set (rs_cancel x) r = true → (run_wake w x r).2 = Ok x' → stopping y0 x → stopping y0 x'.
Proof.
  unfold run_wake, stopping. intros Hset Hx (l & Hy & Hp). rewrite Hset in Hx.
  assert (Hc : short l → stopping y0 (x <| rs_pc := AtReturn |> <| rs_yields := rs_yields x ++ [cancelled_event] |>)).
  { intros Hs. exists (l ++ [cancelled_event]). cbn. rewrite Hy. split; [by rewrite app_assoc|eauto]. }
  destruct (rs_pc x) as [|[]| |] eqn:E; destruct w; cbn in Hx; try (injection Hx as <-; rewrite ?E; by eauto).
  - injection Hx as <-. by apply Hc.
  - injection Hx as <-. apply Hc. subst l. unfold short. cbn. lia.
  - subst l. rewrite app_nil_r in Hy. unfold short. destruct (rs_source x) as [[|raw lines] error].
    { cbn in Hx. injection Hx as <-. cbn. exists []. rewrite app_nil_r. split; [done|]. exists []. split; [cbn; lia|by left]. }
    destruct (json_loads raw) as [[]|]; cbn in Hx; injection Hx as <-; cbn.
    all: try (exists []; rewrite app_nil_r; split; [done|]; exists []; split; [cbn; lia|by left]).
    eexists. rewrite Hy. split; [done|cbn; lia].
Qed.

Lemma is_set_step c l s : is_set l (rl_docker s) = true → is_set l (rl_docker (relay_step k c s)) = true.
Proof.
  assert (Hp : ∀ r r', dk_events r `prefix_of` dk_events r' → is_set l r = true → is_set l r' = true).
  { intros r r' [t Ht]. unfold is_set. rewrite Ht. destruct (dk_events r !! l) eqn:E; [|done]. by rewrite (lookup_app_l_Some _ _ _ _ E). }
  assert (He : ∀ id r, dk_events r `prefix_of` dk_events (cancel_event id r).1).
  { intros id r. unfold cancel_event. destruct (dget _ _); cbn; [done|by eexists]. }
  assert (Hat : ∀ i f, stream_move f → is_set l (rl_docker s) = true → is_set l (rl_docker (at_stream i f s)) = true).
  { intros i f Hf. unfold at_stream. destruct (rl_streams s !! i) as [x|]; [|done].
    destruct (Hf x (rl_docker s)) as (x' & r' & -> & _ & _ & E & _). cbn. apply Hp. by rewrite E. }
  destruct c; cbn; [| |apply Hat, pull_move|apply Hat, wake_move|apply Hat, close_move].
  - unfold run_start. destruct (present _); [|done]. unfold guard_or, mbind, M_bind. destruct (is_execution_id _); [|done]. cbn.
    set (x0 := str_or _ _). pose proof (He x0 (rl_docker s)) as He'. destruct (cancel_event x0 (rl_docker s)) as [r' [q|]]; cbn in *; by apply Hp.
  - unfold cancel, guard_or, mbind, M_bind. destruct (is_execution_id _); [|done]. cbn.
    pose proof (He execution_id (rl_docker s)) as He'. destruct (cancel_event execution_id (rl_docker s)) as [r' [q|]]; cbn in *; [|by apply Hp].
    intros Hs. specialize (Hp _ _ He' Hs). unfold is_set in *. cbn. destruct (decide (l = q)) as [->|]; [|by rewrite list_lookup_insert_ne].
    rewrite list_lookup_insert_eq; [done|]. apply lookup_lt_is_Some_1. by destruct (dk_events r' !! q).
Qed.
Lemma stops_step c i y0 s : stops i y0 s → stops i y0 (relay_step k c s).
Proof.
  intros (x & Hi & Hset & Hst).
  assert (Hat : ∀ j f, stream_move f → (∀ x', (f x (rl_docker s)).2 = Ok x' → stopping y0 x → stopping y0 x') →
    is_set (rs_cancel x) (rl_docker (at_stream j f s)) = true → stops i y0 (at_stream j f s)).
  { intros j f Hf Hx. unfold at_stream. destruct (rl_streams s !! j) as [xj|] eqn:Ej; [|by exists x].
    destruct (Hf xj (rl_docker s)) as (x' & r' & Ex & _ & E2 & _). rewrite Ex. cbn. intros Hs'.
    destruct (decide (j = i)) as [->|Hne].
    - rewrite Hi in Ej. injection Ej as <-. exists x'. cbn. rewrite list_lookup_insert_eq by (by eapply lookup_lt_Some).
      split; [done|]. rewrite E2. split; [done|]. apply Hx; [by rewrite Ex|done].
    - exists x. cbn. by rewrite list_lookup_insert_ne. }
  pose proof (is_set_step c _ _ Hset) as Hset'. destruct c; cbn in Hset' |- *.
  - destruct (run_start k session body (rl_docker s)) as [r [x'|e]]; exists x; cbn in *; [|done].
    split; [|done]. by apply lookup_app_l_Some.
  - by exists x.
  - apply Hat; [apply pull_move| |done]. intros x'. by apply pull_stops.
  - apply Hat; [apply wake_move| |done]. intros x'. by apply wake_stops.
  - apply Hat; [apply close_move| |done]. intros x'. by apply close_stops.
Qed.

Lemma stops_run calls i y0 s : stops i y0 s → stops i y0 (relay_run k calls s).
Proof. revert s. induction calls as [|c calls IH]; intros s Hs; [done|]. by apply IH, stops_step. Qed.

Lemma wake_cancel x r b : rs_pc x = Waiting b → is_set (rs_cancel x) r = true →
  run_wake WakeCancel x r = (r, Ok (x <| rs_pc := AtReturn |> <| rs_yields := rs_yields x ++ [cancelled_event] |>)).
Proof. unfold run_wake. intros -> ->. by destruct b. Qed.

(** The cancelled relay at its next wait. *)
Lemma delivering_cancels i y0 s x : stops i y0 s → rl_streams s !! i = Some x → delivering x = true →
  rl_streams (relay_run k [RPull i; RWake i WakeCancel] s) !! i =
    Some (x <| rs_pc := AtReturn |> <| rs_yields := rs_yields x ++ [cancelled_event] |>).
Proof.
  intros (x0 & Hi & Hset & _) Hx Hd. rewrite Hi in Hx. injection Hx as ->. unfold relay_run. cbn [foldl relay_step].
  assert (Hlen : (i < length (rl_streams s))%nat) by (by eapply lookup_lt_Some).
  assert (Hwait : ∃ b, at_stream i run_pull s = mkRelays (rl_docker s) (<[i := x <| rs_pc := Waiting b |>]> (rl_streams s))).
  { unfold at_stream. rewrite Hi. unfold run_pull, delivering in *. destruct (rs_pc x) as [|b| |] eqn:E; try done; cbn; [by eexists|].
    exists b. by rewrite <-E; destruct x. }
  destruct Hwait as [b Hwait]. rewrite Hwait. unfold at_stream. cbn [rl_streams rl_docker].
  rewrite list_lookup_insert_eq, (wake_cancel _ _ b) by done. cbn [rl_streams].
  by rewrite list_lookup_insert_eq by (by rewrite length_insert).
Qed.

(** C26: A cancellation reaches its relay.  When no execution id is used for two relays, cancelling the id of a relay that is
    delivering stops it whatever else happens: it yields at most one more line of its worker and then at most the
    cancellation; and as long as it is delivering, its next wait can end with the cancellation. *)
Theorem cancelled_relay_stops calls calls' i x :
  NoDup (started_ids calls) → rl_streams (relay_run k calls no_relays) !! i = Some x → delivering x = true →
  let s := relay_run k calls' (relay_step k (RCancel (rs_execution_id x)) (relay_run k calls no_relays)) in
  ∃ x', rl_streams s !! i = Some x' ∧
    (∃ l, short l ∧ (rs_yields x' = rs_yields x ++ l ∨ rs_yields x' = rs_yields x ++ l ++ [cancelled_event])) ∧
    (delivering x' = true →
       rl_streams (relay_run k [RPull i; RWake i WakeCancel] s) !! i =
         Some (x' <| rs_pc := AtReturn |> <| rs_yields := rs_yields x' ++ [cancelled_event] |>)).
Proof.
  intros Hn Hi Hd s. destruct (run_known calls Hn) as (Hu & Hs & Hl).
  destruct (Hs i x Hi) as [[_ Hv] He].
  assert (Hstop : stops i (rs_yields x) (relay_step k (RCancel (rs_execution_id x)) (relay_run k calls no_relays))).
  { exists x. assert (Hlive : live x = true) by (unfold live, delivering in *; by destruct (rs_pc x)).
    specialize (He Hlive). cbn. unfold cancel, guard_or, cancel_event, mbind, M_bind. rewrite Hv. cbn. rewrite He. cbn. split_and!; [done| |].
    - unfold is_set. cbn. by rewrite list_lookup_insert_eq by (by apply Hl in He).
    - exists []. rewrite app_nil_r. split; [done|]. unfold delivering, short in *. destruct (rs_pc x) as [|[]| |]; cbn; try done; lia. }
  pose proof (stops_run calls' _ _ _ Hstop) as Hfin. pose proof Hfin as (x' & Hx' & _ & l & Hy & Hp). exists x'. split; [done|]. split.
  - destruct (rs_pc x') as [|[]| |]; [exists l; eauto..| | |].
    + exists []. unfold short. subst l. split; [cbn; lia|by left].
    + destruct Hp as (l' & ? & ->). exists l'. eauto.
    + destruct Hp as (l' & ? & [-> | ->]); exists l'; eauto.
  - intros Hdx. by eapply delivering_cancels.
Qed.
End relays.

(** ** Examples *)

Module RelayExamples.
#[local] Existing Instance text_json.
#[local] Existing Instance DockerExamples.no_repr.

Definition event (t : string) : pydict := [("content", PDict [("text", PStr t)])].
Definition line (t : string) : string := json_compact (PDict (event t)).
(** A worker that writes two events. *)
#[local] Instance two_lines : WorkerStream := λ _ _, ([line "a"; line "b"], None).

Definition session : DelegatedSessionRecord :=
  DockerExamples.session_with DockerExamples.pinned_image (mkDelegatedRuntime "running" (Some "c1") 1 (Some 7) (Some 7)).
Definition start (id : string) : relay_call := RStart session [("executionId", PStr id)].
Definition after (calls : list relay_call) : Relays := relay_run DockerExamples.settings calls no_relays.

Definition stream (pc : stream_pc) (rest : list string) (yields : list pydict) : RunStream :=
  mkStream "inv_1" 0 (rest, None) pc yields.

Definition whole : list relay_call := [start "inv_1"; RWake 0 WakeNext; RPull 0; RWake 0 WakeNext; RPull 0; RWake 0 WakeNext].

Lemma relay_faithful_witness :
  rl_streams (relay_run DockerExamples.settings whole no_relays) !! 0%nat = Some (stream (Ended None) [] [event "a"; event "b"]) ∧
  ∃ session body id, RStart session body ∈ whole ∧ present (dr_containerId (ds_runtime session)) = Some id.
Proof.
  assert (E : rl_streams (relay_run DockerExamples.settings whole no_relays) !! 0%nat = Some (stream (Ended None) [] [event "a"; event "b"])) by (vm_compute; reflexivity).
  split; [exact E|]. destruct (relay_faithful DockerExamples.settings whole 0%nat _ E) as (s & b & id & Hin & Hid & _). exists s, b, id. exact (conj Hin Hid).
Defined.

(** Cancelled while it waits for the second line. *)
Lemma cancelled_relay_stops_witness :
  let calls := [start "inv_1"; RWake 0 WakeNext; RPull 0] in
  let s := relay_run DockerExamples.settings [RWake 0 WakeNext; RPull 0; RWake 0 WakeNext] (relay_step DockerExamples.settings (RCancel "inv_1") (after calls)) in
  ∃ x', rl_streams s !! 0%nat = Some x' ∧ rs_yields x' = [event "a"; event "b"] ∧
    rl_streams (relay_run DockerExamples.settings [RPull 0; RWake 0 WakeCancel] s) !! 0%nat =
      Some (x' <| rs_pc := AtReturn |> <| rs_yields := [event "a"; event "b"; cancelled_event] |>).
Proof.
  intros calls s.
  assert (Hn : NoDup (started_ids calls)) by (apply NoDup_singleton).
  assert (E : rl_streams (after calls) !! 0%nat = Some (stream (Waiting false) [line "b"] [event "a"])) by (vm_compute; reflexivity).
  destruct (cancelled_relay_stops DockerExamples.settings calls [RWake 0 WakeNext; RPull 0; RWake 0 WakeNext] 0 _ Hn E eq_refl)
    as (x' & Hx & _ & Hc).
  assert (E' : rl_streams s !! 0%nat = Some (stream (Waiting true) [] [event "a"; event "b"])) by (vm_compute; reflexivity).
  exists (stream (Waiting true) [] [event "a"; event "b"]). split; [exact E'|]. split; [reflexivity|].
  assert (x' = stream (Waiting true) [] [event "a"; event "b"]) as -> by (change (rl_streams s !! 0%nat = Some x') in Hx; congruence).
  exact (Hc eq_refl).
Defined.

(** The event of an execution id is forgotten by the first relay that ends: a second relay of the same id, started while the first
    was live, waits on the event they shared, and a later cancellation sets a new one that nobody waits on. *)
Theorem second_relay_not_cancelled :
  let s := after [start "inv_1"; start "inv_1"; RClose 0; RCancel "inv_1"; RWake 1 WakeNext; RPull 1; RWake 1 WakeCancel; RWake 1 WakeNext] in
  rs_yields <$> rl_streams s !! 1%nat = Some [event "a"; event "b"] ∧ dk_events (rl_docker s) = [false; true].
Proof. cbv zeta. split; vm_compute; reflexivity. Qed.
End RelayExamples.
