(* ===== verification/Containers.v ===== *)
(** * The container runtime interface and its implementations (haas/runtime/delegation.py)

    [DelegatedContainerRuntime] is what the request handlers call.  The class [ContainerRuntime] has its operations on a state of
    the implementation's, [LawfulRuntime] what the handlers rely on; the disabled, the fake and the Docker runtime implement both. *)

From S2P Require Import Prelude Errors Dict PyVal Encoding Records Docker Relay.

#[local] Open Scope string_scope.
#[local] Open Scope list_scope.
#[local] Open Scope Z_scope.

Class ContainerRuntime (S : Type) := {
  rt_restore : Z → DelegatedSessionRecord → M S DelegatedRuntimeRecord;
  rt_destroy : DelegatedSessionRecord → string → M S DelegatedRuntimeRecord;
  rt_cancel : DelegatedSessionRecord → string → M S unit;
}.

(** A restored runtime runs in a container, of the recorded generation or the next; a destroyed one has no container. *)
Class LawfulRuntime (S : Type) `{ContainerRuntime S} := {
  restore_runs : ∀ now session s s' r, rt_restore now session s = (s', Ok r) →
    dr_status r = "running" ∧ is_some (present (dr_containerId r)) = true ∧
    dr_containerGeneration (ds_runtime session) <= dr_containerGeneration r <= dr_containerGeneration (ds_runtime session) + 1;
  destroy_clears : ∀ session reason s s' r, rt_destroy session reason s = (s', Ok r) → r = destroyed (ds_runtime session);
}.

(** ** [DisabledDelegatedContainerRuntime] *)

Definition not_configured : exn := unavailable "delegation_container_runtime_not_configured".
Definition disabled_runtime : ContainerRuntime unit := {|
  rt_restore now session := raise not_configured;
  rt_destroy session reason := mret (destroyed (ds_runtime session));
  rt_cancel session id := raise not_configured;
|}.
#[export] Existing Instance disabled_runtime.

(** ** [FakeDelegatedContainerRuntime] *)

Record FakeRuntime := mkFake {
  fk_restored : list string;
  fk_destroyed : list string;
  fk_runs : list (string * pydict);
  fk_cancelled : list (string * string);
  fk_cancel_events : dict string bool;
}.
#[export] Instance eta_fake : Eta FakeRuntime := λ r,
  mkFake (fk_restored r) (fk_destroyed r) (fk_runs r) (fk_cancelled r) (fk_cancel_events r).

Definition fake_restore (now : Z) (session : DelegatedSessionRecord) : M FakeRuntime DelegatedRuntimeRecord :=
  let generation := dr_containerGeneration (ds_runtime session) + 1 in
  _ ← modify (λ r, r <| fk_restored := fk_restored r ++ [ds_id session] |>);
  mret (mkDelegatedRuntime "running" (Some ("fake-" +:+ ds_id session +:+ "-" +:+ pretty generation)) generation (Some now) (Some now)).

Definition fake_destroy (session : DelegatedSessionRecord) (reason : string) : M FakeRuntime DelegatedRuntimeRecord :=
  _ ← modify (λ r, r <| fk_destroyed := fk_destroyed r ++ [ds_id session +:+ ":" +:+ reason] |>);
  mret (destroyed (ds_runtime session)).

Definition fake_cancel (session : DelegatedSessionRecord) (id : string) : M FakeRuntime unit :=
  modify (λ r, r <| fk_cancelled := fk_cancelled r ++ [(ds_id session, id)] |> <| fk_cancel_events := dset id true (fk_cancel_events r) |>).

(** [run_stream]: the events, all decided at the first request for one. *)
Definition fake_run_stream `{PyRepr} (session : DelegatedSessionRecord) (body : pydict) : M FakeRuntime (list pydict) := λ r,
  let id := str_or (pget "executionId" body) "" in
  let set := default false (dget id (fk_cancel_events r)) in
  (r <| fk_runs := fk_runs r ++ [(ds_id session, body)] |> <| fk_cancel_events := dset id set (fk_cancel_events r) |>,
   Ok (if set then [cancelled_event]
       else [[("content", PDict [("role", PStr "model"); ("parts", PList [PDict [("text", PStr "delegated")]])]);
              ("actions", PDict [("stateDelta", PDict [("last_text", PStr "delegated")])])];
             [("content", PDict [("role", PStr "model"); ("parts", PList [])]);
              ("actions", PDict [("stateDelta", PDict [("status", PStr "completed")])])]])).

Definition fake_runtime : ContainerRuntime FakeRuntime :=
  {| rt_restore := fake_restore; rt_destroy := fake_destroy; rt_cancel := fake_cancel |}.
#[export] Existing Instance fake_runtime.

(** ** [DockerDelegatedContainerRuntime] *)

Definition docker_runtime `{PyRepr} `{CommandRunner} (k : DockerSettings) : ContainerRuntime DockerRuntime :=
  {| rt_restore := restore k; rt_destroy session reason := destroy k session; rt_cancel session id := cancel id |}.

#[export] Instance disabled_lawful : LawfulRuntime unit.
Proof. split; [done|]. by intros session reason s s' r [= _ <-]. Qed.

#[export] Instance fake_lawful : LawfulRuntime FakeRuntime.
Proof.
  split; cbn; [|by intros session reason s s' r [= _ <-]]. intros now session s s' r [= _ <-]. split_and!; [done|done| |]; cbn; lia.
Qed.

Section docker_law.
Context `{PyRepr} `{CommandRunner} (k : DockerSettings).

Lemma docker_lawful : @LawfulRuntime DockerRuntime (docker_runtime k).
Proof.
  split; cbn.
  - intros now session s s' r Hr. unfold restore, lift, mbind, M_bind in Hr. destruct (check_network k session); [|done].
    assert (Hstart : ∀ q, start_container k now session q = (s', Ok r) →
      dr_status r = "running" ∧ is_some (present (dr_containerId r)) = true ∧
      dr_containerGeneration (ds_runtime session) <= dr_containerGeneration r <= dr_containerGeneration (ds_runtime session) + 1).
    { intros q Hq. destruct (start_container_spec k now session q) as (probes & _ & [[e E]|(args & _ & [[e E]|(id & E & Hid)])]);
        rewrite E in Hq; try done. injection Hq as _ <-. split_and!; [done|exact (f_equal is_some Hid)| |]; cbn; lia. }
    destruct (present (dr_containerId (ds_runtime session))) as [id|] eqn:Ei; [|by apply (Hstart s)].
    destruct (is_running_spec k id s) as (c & q & -> & _) in Hr. destruct q as [[]|]; [|by eapply Hstart|done].
    injection Hr as _ <-. split_and!; [done|exact (f_equal is_some Ei)| |]; cbn; lia.
  - intros session reason s s' r Hr. unfold destroy, runner, mbind, M_bind in Hr.
    destruct (present _); [destruct (answer _ _)|]; try done; by injection Hr as _ <-.
Qed.
End docker_law.
