(* ===== verification/DelegatedRun.v ===== *)
(** * A run in a delegated container, end to end (haas/runtime/delegation.py, worker.py)

    [run_stream] writes an envelope to the private worker and relays what it prints; [Relay] and [Worker]
    model the two sides.  Here the relay's process is the worker's command. *)

From S2P Require Import Prelude Errors Dict PyVal Encoding Json JsonText Records Docker Relay Worker.

#[local] Open Scope string_scope.
#[local] Open Scope list_scope.
#[local] Open Scope Z_scope.

Section end_to_end.
Context `{CanonicalJson} `{!JsonSpace} `{HexDigests} `{PyRepr}.

(** What the container's process prints for a request: the lines, each with its line end, and how it ends.  The container has
    a generation (the environment of the run command), a token file and receipts. *)
Definition container_output (generation : Z) (token : option token_file) (d : Disk) (request : string) : list string * option exn :=
  let '(lines, errors, code) := (worker_main (Ok generation) token request d).2 in
  ((λ l, l +:+ newline) <$> lines, worker_exit code (foldr (λ e s, e +:+ newline +:+ s) "" errors)).

(** The receipts afterwards. *)
Definition container_disk (generation : Z) (token : option token_file) (d : Disk) (request : string) : Disk :=
  (worker_main (Ok generation) token request d).1.

Definition worker_request (session : DelegatedSessionRecord) (id : string) (body : pydict) : string :=
  json_compact (PDict (run_envelope session id body)) +:+ line_feed.

Definition readable (f : token_file) : Prop := tf_private f = true ∧ tf_regular f = true ∧ (32 ≤ String.length (tf_bytes f))%nat.

(** The events of the offline harness. *)
Definition offline_events : list pydict :=
  [[("content", PDict [("role", PStr "model"); ("parts", PList [PDict [("text", PStr "offline")]])]);
    ("actions", PDict [("stateDelta", PDict [("last_text", PStr "offline")])])];
   [("content", PDict [("role", PStr "model"); ("parts", PList [])]);
    ("actions", PDict [("stateDelta", PDict [("status", PStr "completed")])])]].

Lemma execution_id_valid s : is_execution_id s = valid_execution_id s.
Proof.
  unfold is_execution_id, valid_execution_id.
  assert (E : str_forall word_char s = str_forall id_char s).
  { induction s as [|a s IH]; [done|]. cbn. rewrite IH. f_equal. by destruct a as [[] [] [] [] [] [] [] []]. }
  rewrite E, <-andb_assoc. apply andb_comm.
Qed.

Lemma request_envelope session id body :
  json_loads (worker_request session id body) = Some (PDict (run_envelope session id body)).
Proof. unfold worker_request. change line_feed with (String (Ascii.ascii_of_nat 10) ""). by rewrite loads_newline, loads_compact. Qed.

Lemma prepare_request w session id body f :
  pw_token w = Some f → readable f → is_execution_id id = true →
  prepare w (run_envelope session id body) =
    if decide (dr_containerGeneration (ds_runtime session) = pw_generation w)
    then Ok (mkJob id body (sha256_hex (canonical (run_envelope session id body))) (tf_bytes f))
    else Raise (PrivateWorkerError "private_worker_generation_mismatch").
Proof.
  intros Hf (F1 & F2 & F3) Hid. rewrite execution_id_valid in Hid.
  assert (Ht : read_generation_token w = Ok (tf_bytes f)).
  { unfold read_generation_token. rewrite Hf, F1, F2. cbn [negb orb]. by rewrite (proj2 (Nat.ltb_ge _ _) F3). }
  unfold prepare. set (e := run_envelope session id body).
  assert (pget "version" e = PInt 1) as -> by reflexivity.
  assert (pget "generation" e = PInt (dr_containerGeneration (ds_runtime session))) as -> by reflexivity.
  assert (pget "executionId" e = PStr id) as -> by reflexivity. assert (pget "request" e = PDict body) as -> by reflexivity.
  rewrite Hid, Ht. unfold py_eqb, num_eqb, is_num, int_of. change (1 =? 1) with true.
  case_decide as D; [by rewrite D, Z.eqb_refl|]. by apply Z.eqb_neq in D as ->.
Qed.

(** The relayed lines of printed events. *)
Lemma relayed_events events error :
  relayed ((λ l, l +:+ newline) <$> (canonical <$> events)) error = (canon_dict <$> events, error).
Proof.
  induction events as [|e events IH]; [done|]. rewrite !fmap_cons. cbn [relayed].
  rewrite IH. unfold newline. rewrite loads_newline. unfold canonical at 1. by rewrite loads_canonical, canon_PDict.
Qed.

(** The worker that runs a session's requests. *)
Definition session_worker (session : DelegatedSessionRecord) (f : token_file) : PrivateWorker :=
  mkWorker (dr_containerGeneration (ds_runtime session)) (Some f)
    (default_execute (if decide (ds_harnessBase session = "fake") then FakeWorkerBroker else UnavailableWorkerBroker)).

Definition error_line (e : exn) : string :=
  match e with PrivateWorkerError m | BrokerUnavailable m => m | _ => "private_worker_failed" end.

Lemma container_spec session f id body d d' es e :
  let g := dr_containerGeneration (ds_runtime session) in
  let request := worker_request session id body in
  run (session_worker session f) (run_envelope session id body) d = (d', (es, e)) →
  container_disk g (Some f) d request = d' ∧
  relayed (container_output g (Some f) d request).1 (container_output g (Some f) d request).2 =
    (canon_dict <$> es, e ≫= λ e, worker_exit 1 (error_line e +:+ newline)).
Proof.
  intros g request Hr. unfold container_disk, container_output.
  assert (Hmain : worker_main (Ok g) (Some f) request d =
    (d', match e with None => (canonical <$> es, [], 0) | Some e => (canonical <$> es, [error_line e], 1) end)).
  { unfold worker_main, request, g. rewrite request_envelope.
    change (pget "harnessBase" (run_envelope session id body)) with (PStr (ds_harnessBase session)).
    change (py_eqb (PStr (ds_harnessBase session)) (PStr "fake")) with (bool_decide (ds_harnessBase session = "fake")).
    replace (if bool_decide (ds_harnessBase session = "fake") then FakeWorkerBroker else UnavailableWorkerBroker)
      with (if decide (ds_harnessBase session = "fake") then FakeWorkerBroker else UnavailableWorkerBroker)
      by (by case_bool_decide; case_decide).
    fold (session_worker session f). rewrite Hr. by destruct e. }
  rewrite Hmain. split; [done|]. destruct e as [e|]; cbn [snd fst]; rewrite relayed_events; [|done].
  cbn [foldr mbind option_bind]. by rewrite append_empty.
Qed.

(** C27: A run in a delegated container.  The envelope of a relay for an accepted execution id, sent to the container of its own
    generation with a readable token file and no trace of that id in its generation's receipts:  for the offline harness the relay of the
    printed lines is the two offline events, the request has been executed once, and sending it
    again gives the same events without executing; for any other harness it ends with the unavailable model broker, and with
    the execution marked as begun, so that sending it again is refused as ambiguous. *)
Theorem delegated_run_end_to_end session id body f d :
  let g := dr_containerGeneration (ds_runtime session) in
  let request := worker_request session id body in
  let events d := relayed (container_output g (Some f) d request).1 (container_output g (Some f) d request).2 in
  readable f → is_execution_id id = true →
  let path := receipt_name g id in
  dmem path (dk_receipts d) = false → dmem path (dk_signatures d) = false → dmem path (dk_running d) = false →
  let d' := container_disk g (Some f) d request in
  dk_executed d' = dk_executed d ++ [(path, body)] ∧ container_disk g (Some f) d' request = d' ∧
  if decide (ds_harnessBase session = "fake")
  then events d = (canon_dict <$> offline_events, None) ∧ events d' = events d
  else events d = ([], Some (unavailable "delegation_model_broker_unavailable")) ∧
       events d' = ([], Some (unavailable "private_worker_execution_ambiguous")).
Proof.
  intros g request events Hf Hid path Hr Hs Hm d'.
  set (j := mkJob id body (sha256_hex (canonical (run_envelope session id body))) (tf_bytes f)).
  assert (Hp : prepare (session_worker session f) (run_envelope session id body) = Ok j).
  { rewrite (prepare_request _ _ _ _ f) by done. by rewrite decide_True. }
  unfold events, d', request. clear events d' request. change path with (receipt_path (session_worker session f) j) in *. clear path.
  unfold g. clear g.
  destruct (decide (ds_harnessBase session = "fake")) as [Hfake|Hbase].
  - assert (He : pw_execute (session_worker session f) (j_request j) = Ok offline_events)
      by (unfold session_worker; cbn; by rewrite decide_True).
    pose proof (run_fresh _ _ _ d Hp Hr Hs _ Hm He) as E1. destruct (container_spec _ _ _ _ _ _ _ _ E1) as [-> ->].
    match type of E1 with _ = (?x, _) => set (d1 := x) in * end.
    assert (E2 : run (session_worker session f) (run_envelope session id body) d1 = (d1, (canon_dict <$> offline_events, None))).
    { rewrite (run_replays _ _ j d1 j offline_events Hp) by (done || apply (prepare_digest _ _ _ Hp) || apply dget_dset_eq).
      by rewrite decide_True. }
    destruct (container_spec _ _ _ _ _ _ _ _ E2) as [-> ->]. split_and!; try done.
  - assert (He : pw_execute (session_worker session f) (j_request j) = Raise (BrokerUnavailable "delegation_model_broker_unavailable"))
      by (unfold session_worker; cbn; by rewrite decide_False).
    pose proof (run_fails _ _ _ d Hp Hr Hs _ Hm He) as E1. destruct (container_spec _ _ _ _ _ _ _ _ E1) as [-> ->].
    match type of E1 with _ = (?x, _) => set (d1 := x) in * end.
    assert (E2 := run_ambiguous _ _ _ d1 Hp Hr Hs ltac:(cbn; unfold dmem; by rewrite dget_dset_eq)).
    destruct (container_spec _ _ _ _ _ _ _ _ E2) as [-> ->]. split_and!; done.
Qed.
End end_to_end.

(** ** Example *)

Module DelegatedRunExamples.
#[local] Existing Instance text_json.
#[local] Existing Instance text_codec.
#[local] Existing Instance text_space.
#[local] Existing Instance WorkerExamples.sha_toy.
#[local] Existing Instance WorkerExamples.hmac_toy.
#[local] Existing Instance WorkerExamples.toy_hex.
#[local] Existing Instance DockerExamples.no_repr.

Definition body : pydict := [("executionId", PStr "inv_1")].

Lemma delegated_run_end_to_end_witness :
  let request := worker_request RelayExamples.session "inv_1" body in
  dk_executed (container_disk 1 (Some WorkerExamples.token) empty_disk request) = [(receipt_name 1 "inv_1", body)] ∧
  relayed (container_output 1 (Some WorkerExamples.token) empty_disk request).1
    (container_output 1 (Some WorkerExamples.token) empty_disk request).2 = (canon_dict <$> offline_events, None).
Proof.
  assert (Hf : readable WorkerExamples.token) by (split_and!; [reflexivity..|apply Nat.leb_le; reflexivity]).
  destruct (delegated_run_end_to_end RelayExamples.session "inv_1" body WorkerExamples.token empty_disk Hf
    ltac:(vm_compute; reflexivity) eq_refl eq_refl eq_refl) as (E1 & _ & E2 & _).
  exact (conj E1 E2).
Defined.
End DelegatedRunExamples.
