(* ===== verification/DelegatedApi.v ===== *)
(** * Delegated sessions: mounts, policy revisions and restoring (haas/api.py, haas/runtime/reconciler.py)

    A delegated session is created with a mount manifest and a policy that are checked once; later requests replace whole
    domains of its configuration under increasing revisions, and a reconciler applies the pending target when the runtime
    is quiet.  Restoring takes the workspace lock and asks a container runtime, known by its interface ([Containers]). *)

From Stdlib Require Import Ascii.
From S2P Require Import Prelude Errors Dict PyVal PyInt Paths Encoding Records Store Leases SessionStore Identity Registry Docker Relay Containers.

#[local] Open Scope string_scope.
#[local] Open Scope list_scope.
#[local] Open Scope Z_scope.

(** [HaasError] by its code; [MountManifestInvalid] is a [ValueError] of its own. *)
Definition haas_error (code : string) : exn := OtherError "HaasError" (Some code).
Definition mount_invalid : exn := OtherError "MountManifestInvalid" None.
Definition is_mount_invalid (e : exn) : bool :=
  match e with OtherError cls _ => bool_decide (cls = "MountManifestInvalid") | _ => false end.

(** ** Mounts *)

(** [_validate_mount_entry]; [home] is [os.path.expanduser("~")]. *)
Definition validate_mount_entry (home : string) (entry : pyval) (primary : bool) : result unit :=
  match entry with
  | PDict d =>
      match pget "hostPathCanonical" d, pget "containerPath" d, pget "access" d with
      | PStr host_path, PStr container_path, PStr access =>
          let missing s := bool_decide (s = "") in
          let normalized_host := normpath host_path in
          _ ← ensure (negb (missing host_path) && negb (missing container_path) && negb (missing access)) mount_invalid;
          _ ← ensure (starts_with "/" host_path && starts_with "/" container_path) mount_invalid;
          _ ← ensure (bool_decide (normalized_host = host_path) && negb (bool_decide (normalized_host = "/"))) mount_invalid;
          _ ← ensure (negb (bool_decide (normalized_host = home))) mount_invalid;
          _ ← ensure (negb (bool_decide (normalized_host ∈ ["/var/run/docker.sock"; "/run/docker.sock"]))) mount_invalid;
          _ ← ensure (negb (ends_with "/.ssh" normalized_host || str_contains "/.ssh/" normalized_host)) mount_invalid;
          _ ← ensure (bool_decide (access ∈ ["ro"; "rw"])) mount_invalid;
          _ ← ensure (negb (primary && (negb (bool_decide (container_path = "/workspace")) || negb (bool_decide (access = "rw"))))) mount_invalid;
          ensure (negb (negb primary && negb (bool_decide (access = "ro")))) mount_invalid
      | _, _, _ => Raise mount_invalid
      end
  | _ => Raise mount_invalid
  end.

(** [_validate_mount_manifest] of a dictionary. *)
Definition validate_mount_manifest (home : string) (manifest : pydict) : result unit :=
  version ← py_int (default (PInt 0) (dget "version" manifest));
  _ ← ensure (1 <=? version) mount_invalid;
  _ ← validate_mount_entry home (pget "primaryWorkspace" manifest) true;
  extra ← iter_items (py_or (pget "extraMounts" manifest) (PList []));
  iter_result (λ entry, validate_mount_entry home entry false) extra.

(** ** Policies *)

Definition all_strings (v : pyval) : bool := match v with PList l => forallb is_str l | _ => false end.

(** [x not in {...}] for a value that may be unhashable *)
Definition one_of (v : pyval) (l : list string) : result unit :=
  b ← in_str_set v l; ensure b (ValueError "invalid delegation policy").

(** [_validate_delegation_policy] *)
Definition validate_delegation_policy (policy : pydict) : result unit :=
  let invalid := ValueError "invalid delegation policy" in
  _ ← ensure (has_keys policy ["idleTtlSeconds"; "maxContainerLifetimeSeconds"; "rwWorkspaceConcurrency"; "queuePolicy";
                               "restorePolicy"; "mountPolicy"]) invalid;
  idle ← py_int (pget "idleTtlSeconds" policy);
  _ ← (if idle <=? 0 then Raise invalid
       else lifetime ← py_int (pget "maxContainerLifetimeSeconds" policy); ensure (0 <? lifetime) invalid);
  _ ← ensure (py_eqb (pget "rwWorkspaceConcurrency" policy) (PStr "single_writer")) invalid;
  _ ← ensure (py_eqb (pget "queuePolicy" policy) (PStr "fifo") && py_eqb (pget "restorePolicy" policy) (PStr "fail_closed")) invalid;
  _ ← match default (PDict [("defaultAction", PStr "deny"); ("allow", PList [])]) (dget "network" policy) with
      | PDict network =>
          _ ← one_of (pget "defaultAction" network) ["deny"; "allow"];
          ensure (all_strings (default (PList []) (dget "allow" network))) invalid
      | _ => Raise invalid
      end;
  match default (PDict [("disabled", PList []); ("approvalMode", PStr "never")]) (dget "tools" policy) with
  | PDict tools =>
      _ ← one_of (pget "approvalMode" tools) ["never"; "on-request"; "always"];
      ensure (all_strings (default (PList []) (dget "disabled" tools))) invalid
  | _ => Raise invalid
  end.

(** [_validate_profile_ref]; [type(v) is not int] rejects a [bool]. *)
Definition validate_profile_ref (v : pyval) : result unit :=
  let invalid := ValueError "invalid profile ref" in
  match v with
  | PDict d =>
      let text k := match pget k d with PStr s => negb (bool_decide (s = "")) | _ => false end in
      ensure (text "profileId" && (match pget "profileVersion" d with PInt z => 1 <=? z | _ => false end) && text "profileFingerprint") invalid
  | _ => Raise invalid
  end.

(** The image checks of a create or policy request. *)
Definition validate_image (allow_unpinned : bool) (image : pyval) : result unit :=
  match image with
  | PDict d =>
      match pget "reference" d, pget "digest" d with
      | PStr reference, PStr digest =>
          ensure (negb (bool_decide (digest = "") && negb (str_contains "@sha256:" reference) && negb allow_unpinned))
            (ValueError "invalid image digest")
      | _, _ => Raise (ValueError "invalid image")
      end
  | _ => Raise (ValueError "invalid image")
  end.

(** ** The reconciler (haas/runtime/reconciler.py) *)

Definition BUSY_RUNTIME_STATUSES : list string := ["running"; "restoring"; "cancelling"].

(** [dict(target[k])]: the domains that are stored are dictionaries, other values raise here. *)
Definition dict_item (k : string) (d : pydict) : result pydict :=
  v ← vitem k (PDict d); match v with PDict x => Ok x | _ => Raise TypeError end.

Definition update_result (pending : pydict) (rest : pydict) : result pydict :=
  update_id ← vitem "updateId" (PDict pending);
  revision ← vitem "revision" (PDict pending);
  mret ([("updateId", update_id); ("revision", revision)] ++ rest).
Definition failed_with (reason : string) : pydict :=
  [("status", PStr "failed"); ("code", PStr "haas_internal_error"); ("safeReason", PStr reason)].

(** [reconcile_delegated_policy]; [apply] is the callback, when there is one. *)
Definition reconcile_delegated_policy (now : Z) (apply : option (DelegatedSessionRecord → pydict → result unit)) (id : string)
    : store_m (option DelegatedSessionRecord) := λ s,
  match get_delegated_session id s with
  | None => (s, Ok None)
  | Some record =>
      match ds_pendingPolicyUpdate record with
      | None => (s, Ok (Some record))
      | Some pending =>
          if bool_decide (dr_status (ds_runtime record) ∈ BUSY_RUNTIME_STATUSES) then (s, Ok (Some record))
          else
            let save r := (saved ← put_delegated_session now r; mret (Some saved)) s in
            match ds_pendingPolicyTarget record with
            | None =>
                match update_result pending (failed_with "policy_target_missing") with
                | Raise e => (s, Raise e)
                | Ok result => save (record <| ds_pendingPolicyUpdate := None |> <| ds_lastPolicyUpdateResult := Some result |>)
                end
            | Some target =>
                match match apply with Some f => f record target | None => Ok tt end with
                | Raise _ =>
                    match update_result pending (failed_with "policy_apply_failed") with
                    | Raise e => (s, Raise e)
                    | Ok result =>
                        save (record <| ds_pendingPolicyUpdate := None |> <| ds_pendingPolicyTarget := None |>
                                     <| ds_lastPolicyUpdateResult := Some result |>)
                    end
                | Ok _ =>
                    match (result ← update_result pending [("status", PStr "applied")];
                           profile ← dict_item "profileRef" target; policy ← dict_item "delegationPolicySnapshot" target;
                           mounts ← dict_item "mountManifest" target; image ← dict_item "image" target;
                           mret (result, profile, policy, mounts, image)) with
                    | Raise e => (s, Raise e)
                    | Ok (result, profile, policy, mounts, image) =>
                        save (record <| ds_profileRef := profile |> <| ds_delegationPolicySnapshot := policy |>
                                     <| ds_mountManifest := mounts |> <| ds_image := image |>
                                     <| ds_appliedRevision := ds_desiredRevision record |>
                                     <| ds_pendingPolicyUpdate := None |> <| ds_pendingPolicyTarget := None |>
                                     <| ds_lastPolicyUpdateResult := Some result |>)
                    end
                end
            end
      end
  end.

(** ** The policy request (haas/api.py) *)

(** [_ensure_delegated_access] *)
Definition ensure_delegated_access (p : Principal) (record : DelegatedSessionRecord) (s : MemoryStore) : result unit :=
  if negb (owns p None None (Some (ds_haasUserId record))) then Raise (haas_error "haas_delegated_session_not_found")
  else match get_scoped p (ds_harnessId record) s with
       | Raise (HarnessNotFoundError _) => Raise (haas_error "haas_delegated_session_not_found")
       | Raise e => Raise e
       | Ok _ => Ok tt
       end.

Definition policy_domains : list string := ["delegationPolicySnapshot"; "image"; "mountManifest"; "profileRef"].

(** The settings of the process the request handlers read. *)
Record ApiSettings := mkApiSettings { api_home : string; api_allow_unpinned : bool }.

(** The validation of the resolved domains of a policy request. *)
Definition validate_domains (c : ApiSettings) (profile_supplied : bool) (profile_ref policy mounts image : pyval) : result unit :=
  _ ← (if profile_supplied then validate_profile_ref profile_ref else Ok tt);
  match policy, mounts with
  | PDict policy, PDict mounts =>
      _ ← validate_image (api_allow_unpinned c) image;
      _ ← validate_delegation_policy policy;
      validate_mount_manifest (api_home c) mounts
  | _, _ => Raise (ValueError "invalid policy domain")
  end.

(** Errors of the validation, as the handler reports them. *)
Definition domain_error (e : exn) : exn :=
  if is_mount_invalid e then haas_error "haas_delegation_mount_invalid"
  else match e with ValueError _ => haas_error "invalid_input" | e => e end.

(** [update_delegated_session_policy] after the idempotency reservation and before the event; [update_id] is the fresh id. *)
Definition update_delegated_session_policy (c : ApiSettings) (now : Z) (p : Principal) (update_id : string) (body : pydict) (id : string)
    : store_m DelegatedSessionRecord := λ s,
  match get_delegated_session id s with
  | None => (s, Raise (haas_error "haas_delegated_session_not_found"))
  | Some record =>
      match ensure_delegated_access p record s with
      | Raise e => (s, Raise e)
      | Ok _ =>
          let expected := pget "expectedRevision" body in
          let stale := match expected with PNone => false | PInt z => negb (z =? ds_desiredRevision record) | _ => true end in
          let supplied := keep (λ k, dmem k body) policy_domains in
          let domain k old := default (PDict old) (dget k body) in
          let profile_ref := domain "profileRef" (ds_profileRef record) in
          let policy := domain "delegationPolicySnapshot" (ds_delegationPolicySnapshot record) in
          let mounts := domain "mountManifest" (ds_mountManifest record) in
          let image := domain "image" (ds_image record) in
          if stale then (s, Raise (haas_error "haas_policy_revision_conflict"))
          else if bool_decide (supplied = []) then (s, Raise (haas_error "invalid_input"))
          else
            match validate_domains c (dmem "profileRef" body) profile_ref policy mounts image with
            | Raise e => (s, Raise (domain_error e))
            | Ok _ =>
                let revision := ds_desiredRevision record + 1 in
                let pending := [("updateId", PStr update_id); ("revision", PInt revision); ("requestedAtMs", PInt now);
                                ("fields", PList (PStr <$> supplied))] in
                let target := [("image", image); ("profileRef", profile_ref); ("mountManifest", mounts);
                               ("delegationPolicySnapshot", policy)] in
                (updated ← put_delegated_session now
                   (record <| ds_desiredRevision := revision |> <| ds_pendingPolicyUpdate := Some pending |>
                           <| ds_pendingPolicyTarget := Some target |>);
                 reconciled ← reconcile_delegated_policy now None (ds_id updated);
                 mret (default updated reconciled)) s
            end
      end
  end.

(** ** Restoring a delegated session (haas/api.py) *)

(** The store and the container runtime. *)
Record Backend (S : Type) := mkBackend { bk_store : MemoryStore; bk_runtime : S }.
Arguments mkBackend {S} _ _.
Arguments bk_store {S} _.
Arguments bk_runtime {S} _.
Notation backend_m S := (M (Backend S)).

Definition on_store {S A} (m : store_m A) : backend_m S A := λ b, let '(s, r) := m (bk_store b) in (mkBackend s (bk_runtime b), r).
Definition on_runtime {S A} (m : M S A) : backend_m S A := λ b, let '(d, r) := m (bk_runtime b) in (mkBackend (bk_store b) d, r).

(** [policy["maxContainerLifetimeSeconds"] * 1000], as the lock adds it to the clock: a text is repeated a thousand times and
    the addition raises; a float is rounded up to whole milliseconds. *)
Definition lifetime_ms (policy : pydict) : result Z :=
  v ← vitem "maxContainerLifetimeSeconds" (PDict policy);
  match v with
  | PInt _ | PBool _ => Ok (int_of v * 1000)
  | PFloat (S754_zero _) => Ok 0
  | PFloat (S754_finite s m e) =>
      let n := (if s then Zneg m else Zpos m) * 1000 in Ok (if 0 <=? e then n * 2 ^ e else - (- n / 2 ^ (- e)))
  | _ => Raise TypeError
  end.

(** [_delegated_session_ref] *)
Definition delegated_session_ref (r : DelegatedSessionRecord) : pydict :=
  [("delegatedSessionId", PStr (ds_id r)); ("managerSessionId", PStr (ds_managerSessionId r));
   ("containerGeneration", PInt (dr_containerGeneration (ds_runtime r))); ("runtimeStatus", PStr (dr_status (ds_runtime r)))].

(** The stored session gets the reference. *)
Definition store_session_ref (now : Z) (restored : DelegatedSessionRecord) : store_m unit :=
  found ← get_session (ds_harnessId restored, ds_haasUserId restored, ds_haasSessionId restored);
  match found with
  | None => mret tt
  | Some l =>
      session ← load_session l;
      copy ← lift (session_post_init (session <| s_delegatedSessionRef := Some (delegated_session_ref restored) |>));
      l' ← alloc_session copy;
      _ ← put_session now l'; mret tt
  end.

Section restoring.
Context `{PyRepr} {S : Type} `{ContainerRuntime S} (c : ApiSettings).

Definition failed_runtime (r : DelegatedRuntimeRecord) : DelegatedRuntimeRecord :=
  mkDelegatedRuntime "failed" None (dr_containerGeneration r) (dr_lastStartedAtMs r) (dr_lastActiveAtMs r).

(** [except DelegatedContainerUnavailable] of the handler. *)
Definition restore_failed (now : Z) (workspace id msg : string) (runtime : DelegatedRuntimeRecord) : backend_m S DelegatedRuntimeRecord :=
  _ ← on_store (release_workspace_lock workspace id);
  _ ← on_store (update_delegated_runtime now id (failed_runtime runtime));
  raise (haas_error (if bool_decide (msg = "haas_policy_unsupported") then "haas_policy_unsupported" else "haas_delegation_backend_unavailable")).

(** The request once it holds the lock. *)
Definition restore_locked (later : Z) (id workspace : string) (record : DelegatedSessionRecord) : backend_m S DelegatedSessionRecord :=
  restored_runtime ← catch (on_runtime (rt_restore later record))
    (λ e, match e with
          | DelegatedContainerUnavailable msg => restore_failed later workspace (ds_id record) msg (ds_runtime record)
          | e => raise e
          end);
  restored ← on_store (update_delegated_runtime later id restored_runtime);
  _ ← on_store (store_session_ref later restored);
  mret restored.

(** [restore_delegated_session]: [now] when the lock is taken, [later] when the container runs. *)
Definition restore_delegated_session (now later : Z) (p : Principal) (id : string) : backend_m S DelegatedSessionRecord :=
  found ← gets (λ b, get_delegated_session id (bk_store b));
  match found with
  | None => raise (haas_error "haas_delegated_session_not_found")
  | Some record =>
      s ← gets bk_store;
      _ ← lift (ensure_delegated_access p record s);
      _ ← lift (match validate_mount_manifest (api_home c) (ds_mountManifest record) with
                | Raise e => Raise (if is_mount_invalid e then haas_error "haas_delegation_mount_invalid" else e)
                | r => r
                end);
      primary ← lift (vitem "primaryWorkspace" (PDict (ds_mountManifest record)));
      host ← lift (vitem "hostPathCanonical" primary);
      access ← lift (vitem "access" primary);
      ttl ← lift (lifetime_ms (ds_delegationPolicySnapshot record));
      let workspace := py_str host in
      lock ← on_store (acquire_workspace_lock now workspace (ds_id record) (py_str access) ttl);
      _ ← guard_or (w_acquired lock) (haas_error "haas_workspace_lock_busy");
      restore_locked later id workspace record
  end.
End restoring.

(** ** Creating a delegated session (haas/api.py) *)

Section creating.
Context `{PyRepr} (c : ApiSettings) (config_policy : pydict).

Definition required_text (k : string) (body : pydict) : result string :=
  match pget k body with
  | PStr s => if bool_decide (s = "") then Raise (ValueError "missing field") else Ok s
  | _ => Raise (ValueError "missing field")
  end.

(** [_delegated_session_from_body]; [config_policy] is [_delegation_policy_from_config] and [id] the fresh id. *)
Definition delegated_session_from_body (now : Z) (id : string) (body : pydict) : result DelegatedSessionRecord :=
  manager ← required_text "managerSessionId" body;
  haas ← required_text "haasSessionId" body;
  user ← required_text "haasUserId" body;
  harness ← required_text "harnessId" body;
  _ ← validate_image (api_allow_unpinned c) (pget "image" body);
  _ ← match pget "provider" body with
      | PDict d => ensure (is_str (pget "providerId" d) && is_str (pget "model" d) && is_str (pget "credentialRef" d)) (ValueError "invalid provider")
      | _ => Raise (ValueError "invalid provider")
      end;
  profile_ref ← match pget "profileRef" body with
                | PNone => Ok []
                | v => _ ← validate_profile_ref v; Ok (as_dict v)
                end;
  workspace_mode ← match default (PStr "bind_mount") (dget "workspaceMode" body) with
                   | PStr s => if bool_decide (s = "") then Raise (ValueError "invalid workspace mode") else Ok s
                   | _ => Raise (ValueError "invalid workspace mode")
                   end;
  _ ← ensure (match pget "credentialRef" (as_dict (pget "provider" body)) with PStr s => starts_with "secret://" s | _ => false end)
        (ValueError "invalid credential ref");
  policy ← match py_or (pget "delegationPolicySnapshot" body) (PDict config_policy) with
           | PDict d => _ ← validate_delegation_policy d; Ok d
           | _ => Raise (ValueError "invalid delegation policy")
           end;
  mounts ← match pget "mountManifest" body with
           | PDict d => _ ← validate_mount_manifest (api_home c) d; Ok d
           | _ => Raise (ValueError "invalid mount manifest")
           end;
  mret (mkDelegatedSession id manager haas user harness (as_dict (pget "image" body)) (as_dict (pget "provider" body)) mounts policy
          (str_or (pget "harnessBase" body) "codex") "haas_bound" profile_ref workspace_mode None None None 1 1 None None None
          (mkDelegatedRuntime "no_runtime" None 0 None None) "delegated_session" 1 now now).

(** [_delegated_session_matches_body] *)
Definition delegated_session_matches_body (r : DelegatedSessionRecord) (body : pydict) : bool :=
  py_eqb (PStr (ds_haasSessionId r)) (pget "haasSessionId" body) && py_eqb (PStr (ds_haasUserId r)) (pget "haasUserId" body) &&
  py_eqb (PStr (ds_harnessId r)) (pget "harnessId" body) && bool_decide (ds_harnessBase r = str_or (pget "harnessBase" body) "codex") &&
  py_eqb (PDict (ds_image r)) (pget "image" body) &&
  py_eqb (PDict (ds_profileRef r)) (default (PDict (ds_profileRef r)) (dget "profileRef" body)) &&
  py_eqb (PDict (ds_provider r)) (pget "provider" body) &&
  py_eqb (PStr (ds_workspaceMode r)) (default (PStr "bind_mount") (dget "workspaceMode" body)) &&
  py_eqb (PDict (ds_mountManifest r)) (pget "mountManifest" body) &&
  py_eqb (PDict (ds_delegationPolicySnapshot r)) (default (PDict (ds_delegationPolicySnapshot r)) (dget "delegationPolicySnapshot" body)).

(** The stored session, or a new one, gets the reference. *)
Definition bind_session (now : Z) (saved : DelegatedSessionRecord) : store_m unit :=
  found ← get_session (ds_harnessId saved, ds_haasUserId saved, ds_haasSessionId saved);
  session ← match found with
            | Some l => load_session l
            | None => mret (new_session (ds_haasSessionId saved) (ds_harnessId saved) (ds_haasUserId saved) now)
            end;
  copy ← lift (session_post_init (session <| s_delegatedSessionRef := Some (delegated_session_ref saved) |>));
  l ← alloc_session copy;
  _ ← put_session now l; mret tt.

(** Errors of [create_delegated_session], as it reports them. *)
Definition create_error (e : exn) : exn :=
  if is_mount_invalid e then haas_error "haas_delegation_mount_invalid"
  else match e with ValueError _ | TypeError => haas_error "invalid_input" | e => e end.

(** [create_delegated_session] after the idempotency reservation and before the response. *)
Definition create_delegated_session (now : Z) (p : Principal) (id : string) (body : pydict) : store_m DelegatedSessionRecord := λ s,
  match delegated_session_from_body now id body with
  | Raise e => (s, Raise (create_error e))
  | Ok record =>
      if negb (owns p None None (Some (ds_haasUserId record))) then (s, Raise (haas_error "session_not_found"))
      else
        match get_scoped p (ds_harnessId record) s with
        | Raise (HarnessNotFoundError _) => (s, Raise (haas_error "haas_harness_not_found"))
        | Raise e => (s, Raise (create_error e))
        | Ok harness =>
            if negb (bool_decide (h_base harness = ds_harnessBase record)) then (s, Raise (haas_error "invalid_input"))
            else
              match get_delegated_session_by_manager (ds_managerSessionId record) s with
              | Some existing =>
                  match ensure_delegated_access p existing s with
                  | Raise e => (s, Raise e)
                  | Ok _ =>
                      if delegated_session_matches_body existing body then (s, Ok existing)
                      else (s, Raise (haas_error "haas_delegated_session_conflict"))
                  end
              | None =>
                  let '(s', r) := (saved ← put_delegated_session now record; _ ← bind_session now saved; mret saved) s in
                  (s', match r with Ok saved => Ok saved | Raise e => Raise (create_error e) end)
              end
        end
  end.
End creating.

(** ** Accepted mounts *)

Section mounts.
Context `{PyRepr} (home : string).

(** A host path that may be mounted. *)
Definition safe_host (host : string) : Prop :=
  starts_with "/" host = true ∧ normpath host = host ∧ host ≠ "/" ∧ host ≠ home ∧
  host ∉ ["/var/run/docker.sock"; "/run/docker.sock"] ∧ ".ssh" ∉ split_on slash host.

Lemma ends_with_app t suf : ends_with suf (t +:+ suf) = true.
Proof.
  unfold ends_with. rewrite Redact.string_length_app.
  replace (String.length t + String.length suf - String.length suf)%nat with (String.length t) by lia.
  rewrite drop_str_app, bool_decide_true by done. rewrite andb_true_r. apply Nat.leb_le. lia.
Qed.

Lemma str_contains_app t p u : str_contains p (t +:+ (p +:+ u)) = true.
Proof.
  induction t as [|a t IH].
  - change ("" +:+ (p +:+ u)) with (p +:+ u). pose proof (starts_with_app p u) as Hs. destruct (p +:+ u) eqn:E; cbn [str_contains]; by rewrite Hs.
  - change (String a t +:+ (p +:+ u)) with (String a (t +:+ (p +:+ u))). cbn [str_contains]. by rewrite IH, orb_true_r.
Qed.

Lemma no_ssh_component s : starts_with "/" s = true → ends_with "/.ssh" s = false → str_contains "/.ssh/" s = false →
  ".ssh" ∉ split_on slash s.
Proof.
  intros Hs He Hc (l1 & l2 & E)%list_elem_of_split. pose proof (join_split slash s) as J. rewrite E in J.
  change (String slash "") with "/" in J. destruct l1 as [|x l1].
  - destruct l2 as [|y l2]; cbn in J; by rewrite <-J in Hs.
  - rewrite join_with_app in J by done. destruct l2 as [|y l2].
    + change (String slash (join_with "/" [".ssh"])) with "/.ssh" in J. by rewrite <-J, ends_with_app in He.
    + change (String slash (join_with "/" (".ssh" :: y :: l2))) with ("/.ssh/" +:+ join_with "/" (y :: l2)) in J.
      by rewrite <-J, str_contains_app in Hc.
Qed.

(** An accepted entry. *)
Definition accepted_entry (primary : bool) (entry : pyval) : Prop :=
  ∃ d host target access, entry = PDict d ∧
    dget "hostPathCanonical" d = Some (PStr host) ∧ dget "containerPath" d = Some (PStr target) ∧ dget "access" d = Some (PStr access) ∧
    safe_host host ∧ starts_with "/" target = true ∧
    (if primary then target = "/workspace" ∧ access = "rw" else access = "ro").

Lemma pget_PStr k d s : pget k d = PStr s → dget k d = Some (PStr s).
Proof. unfold pget. destruct (dget k d); cbn; congruence. Qed.

Lemma entry_accepted entry primary u : validate_mount_entry home entry primary = Ok u → accepted_entry primary entry.
Proof.
  unfold validate_mount_entry. destruct entry as [| | | | | |d]; try done.
  destruct (pget "hostPathCanonical" d) as [| | | |host| |] eqn:E1; try done.
  destruct (pget "containerPath" d) as [| | | |target| |] eqn:E2; try done.
  destruct (pget "access" d) as [| | | |access| |] eqn:E3; try done. intros Hv.
  repeat (apply bind_Ok in Hv as ([] & ?%ensure_Ok & Hv)). apply ensure_Ok in Hv.
  rewrite ?andb_true_iff, ?negb_true_iff, ?bool_decide_eq_true, ?bool_decide_eq_false in *. destruct_and!.
  match goal with E : normpath host = host |- _ => rename E into Hn end.
  repeat match goal with E : context [normpath host] |- _ => first [constr_eq E Hn; fail 1 | rewrite Hn in E] end.
  match goal with E : _ || str_contains _ _ = false |- _ => apply orb_false_iff in E as [He Hc] end.
  exists d, host, target, access. split; [done|]. split_and!; try (by apply pget_PStr); try done.
  - split_and!; try done. by apply no_ssh_component.
  - destruct primary; cbn in *.
    + match goal with E : _ || _ = false |- _ => apply orb_false_iff in E as [T A] end.
      apply negb_false_iff, bool_decide_eq_true in T, A. done.
    + by apply negb_false_iff, bool_decide_eq_true in Hv.
Qed.

(** C24: Accepted manifests mount what they say.  The mounts of an accepted manifest are its primary workspace, read-write at
    [/workspace], and its extra mounts, read-only; every host path is absolute and normal, and is not the root, the
    user's home, a Docker socket or below a [.ssh] directory.  When no path has a comma, the options of the run command are, field
    by field, those mounts: one writable. *)
Theorem accepted_manifest_mounts manifest : validate_mount_manifest home manifest = Ok tt →
  ∃ primary extra, manifest_mounts manifest = Ok (primary :: extra) ∧
    accepted_entry true primary ∧ Forall (accepted_entry false) extra ∧
    ∀ binds, Forall2 mount_given (primary :: extra) binds →
      ∃ b bs, binds = b :: bs ∧
        (∃ host, safe_host host ∧ b = mount_option host "/workspace" false ∧
           (no_comma host = true → split_on comma b = ["type=bind"; "source=" +:+ host; "target=/workspace"; "readonly=false"])) ∧
        Forall (λ b, ∃ host target, safe_host host ∧ b = mount_option host target true ∧
           (no_comma host = true → no_comma target = true →
            split_on comma b = ["type=bind"; "source=" +:+ host; "target=" +:+ target; "readonly=true"])) bs.
Proof.
  unfold validate_mount_manifest. intros (v & _ & ([] & _ & ([] & Hp & (extra & He & Hx)%bind_Ok)%bind_Ok)%bind_Ok)%bind_Ok.
  apply entry_accepted in Hp. pose proof Hp as (d & host & target & access & Ed & Dh & Dt & Da & Hsafe & _ & -> & ->).
  assert (Hextra : Forall (accepted_entry false) extra).
  { apply Forall_forall. intros m Hm. eapply entry_accepted, (proj1 (iter_result_Ok _ _) Hx m Hm). }
  exists (pget "primaryWorkspace" manifest), extra. split_and!; [|done..|].
  { unfold manifest_mounts, vitem. unfold pget in Ed. destruct (dget "primaryWorkspace" manifest) as [m|] eqn:Em; [|done].
    cbn. unfold pget. rewrite Em. unfold pget in He. by rewrite He. }
  intros binds HF. inversion HF as [|m b ms bs Hb Hbs]; subst. exists b, bs. split; [done|].
  assert (Hopt : ∀ m b primary, accepted_entry primary m → mount_given m b → ∃ host target access, safe_host host ∧
    dget "access" (as_dict m) = Some (PStr access) ∧ dget "containerPath" (as_dict m) = Some (PStr target) ∧
    b = mount_option host target (bool_decide (access = "ro"))).
  { clear. intros m b primary (d & host & target & access & -> & Dh & Dt & Da & Hs & _) (src & tgt & acc & V1 & V2 & V3 & ->).
    exists host, target, access. cbn in *. rewrite Dh in V1. rewrite Dt in V2. rewrite Da in V3. injection V1 as <-. injection V2 as <-.
    injection V3 as <-. split_and!; done. }
  split.
  - destruct (Hopt _ _ _ Hp Hb) as (h & t & a & Hh & A & T & ->). rewrite Ed in A, T. cbn in A, T. rewrite Da in A. rewrite Dt in T.
    injection A as <-. injection T as <-. exists h. split_and!; [done..|]. intros Hc. by apply (mount_option_fields h "/workspace" false).
  - clear -Hbs Hextra Hopt. induction Hbs as [|m b ms bs Hb Hbs IH]; [constructor|]. apply Forall_cons in Hextra as [Hm Hms].
    constructor; [|by apply IH]. destruct (Hopt _ _ _ Hm Hb) as (h & t & a & Hh & A & T & ->).
    destruct Hm as (d & h' & t' & a' & -> & _ & Dt & Da & _ & _ & ->). cbn in A, T. rewrite Da in A. injection A as <-.
    exists h, t. split_and!; [done..|]. intros Hc Ht. by apply (mount_option_fields h t true).
Qed.
End mounts.

(** ** Policy revisions *)

Section policy.
Context (c : ApiSettings).

(** A target that can be applied. *)
Definition good_target (t : pydict) : Prop :=
  ∃ image profile mounts policy,
    dget "image" t = Some (PDict image) ∧ dget "profileRef" t = Some (PDict profile) ∧
    dget "mountManifest" t = Some (PDict mounts) ∧ dget "delegationPolicySnapshot" t = Some (PDict policy) ∧
    validate_mount_manifest (api_home c) mounts = Ok tt ∧ validate_delegation_policy policy = Ok tt.

(** The applied revision trails the desired one; a pending update is the desired revision and has a target, and without one there is
    none. *)
Definition policy_inv (r : DelegatedSessionRecord) : Prop :=
  1 <= ds_appliedRevision r <= ds_desiredRevision r ∧
  match ds_pendingPolicyUpdate r, ds_pendingPolicyTarget r with
  | Some p, Some t =>
      ds_appliedRevision r < ds_desiredRevision r ∧ dget "revision" p = Some (PInt (ds_desiredRevision r)) ∧
      is_Some (dget "updateId" p) ∧ good_target t
  | None, None => True
  | _, _ => False
  end.

(** What [put_delegated_session] stores: the record, dated. *)
Lemma put_delegated_stores now r s : ∃ created,
  let saved := r <| ds_createdAtMs := created |> <| ds_updatedAtMs := now |> in
  (put_delegated_session now r s).2 = Ok saved ∧
  ∀ id, get_delegated_session id (put_delegated_session now r s).1 = if decide (id = ds_id r) then Some saved else get_delegated_session id s.
Proof. eexists. split; [reflexivity|]. intros id. unfold get_delegated_session. cbn. apply dget_dset. Qed.

Definition records_inv (s : MemoryStore) : Prop := ∀ id r, get_delegated_session id s = Some r → ds_id r = id ∧ policy_inv r.

Lemma put_records_inv now r s : policy_inv r → records_inv s → records_inv (put_delegated_session now r s).1.
Proof.
  intros Hr Hs id x. destruct (put_delegated_stores now r s) as (created & _ & Hg). rewrite Hg. case_decide as D; [|apply Hs].
  intros [= <-]. by split.
Qed.

Lemma save_eq now r s : (saved ← put_delegated_session now r; mret (Some saved)) s =
  let saved := put_delegated_session now r s in (saved.1, Some <$> saved.2).
Proof. reflexivity. Qed.

(** The reconciler on a record. *)
Lemma reconcile_spec now apply id s record : records_inv s → get_delegated_session id s = Some record →
  let busy := bool_decide (dr_status (ds_runtime record) ∈ BUSY_RUNTIME_STATUSES) in
  match ds_pendingPolicyUpdate record, ds_pendingPolicyTarget record with
  | Some pending, Some target =>
      if busy then reconcile_delegated_policy now apply id s = (s, Ok (Some record))
      else ∃ u, dget "updateId" pending = Some u ∧
        let result rest := ([("updateId", u); ("revision", PInt (ds_desiredRevision record))] : pydict) ++ rest in
        let saved := put_delegated_session now
          match match apply with Some f => f record target | None => Ok tt end with
          | Ok _ =>
              record <| ds_profileRef := as_dict (pget "profileRef" target) |>
                     <| ds_delegationPolicySnapshot := as_dict (pget "delegationPolicySnapshot" target) |>
                     <| ds_mountManifest := as_dict (pget "mountManifest" target) |> <| ds_image := as_dict (pget "image" target) |>
                     <| ds_appliedRevision := ds_desiredRevision record |>
                     <| ds_pendingPolicyUpdate := None |> <| ds_pendingPolicyTarget := None |>
                     <| ds_lastPolicyUpdateResult := Some (result [("status", PStr "applied")]) |>
          | Raise _ =>
              record <| ds_pendingPolicyUpdate := None |> <| ds_pendingPolicyTarget := None |>
                     <| ds_lastPolicyUpdateResult := Some (result (failed_with "policy_apply_failed")) |>
          end s in
        reconcile_delegated_policy now apply id s = (saved.1, Some <$> saved.2)
  | _, _ => reconcile_delegated_policy now apply id s = (s, Ok (Some record))
  end.
Proof.
  intros Hs Hg. destruct (Hs id record Hg) as (_ & _ & Hp). unfold reconcile_delegated_policy. rewrite Hg.
  destruct (ds_pendingPolicyUpdate record) as [pending|]; [|done].
  destruct (ds_pendingPolicyTarget record) as [target|]; [|done]. cbn zeta.
  destruct Hp as (_ & Hrev & [u Hu] & (image & profile & mounts & policy & T1 & T2 & T3 & T4 & _)).
  destruct (bool_decide (_ ∈ _)); [done|]. exists u. split; [done|].
  assert (Hres : ∀ rest, update_result pending rest = Ok ([("updateId", u); ("revision", PInt (ds_desiredRevision record))] ++ rest)).
  { intros rest. unfold update_result, vitem. rewrite Hu, Hrev. done. }
  rewrite !Hres. unfold dict_item, vitem, pget. rewrite T1, T2, T3, T4.
  destruct (match apply with Some f => f record target | None => Ok tt end); cbn [mbind result_bind default as_dict]; apply save_eq.
Qed.

(** After reconciling, every record still has a consistent revision. *)
Lemma reconcile_inv now apply id s : records_inv s → records_inv (reconcile_delegated_policy now apply id s).1.
Proof.
  intros Hs. destruct (get_delegated_session id s) as [record|] eqn:Hg;
    [|unfold reconcile_delegated_policy; by rewrite Hg].
  pose proof (reconcile_spec now apply id s record Hs Hg) as Hr. destruct (Hs id record Hg) as (Hid & Hrev & Hp).
  destruct (ds_pendingPolicyUpdate record) as [pending|] eqn:E1, (ds_pendingPolicyTarget record) as [target|] eqn:E2;
    try (by rewrite Hr); try done.
  destruct (bool_decide (_ ∈ _)); [by rewrite Hr|]. destruct Hr as (u & _ & ->). cbn [fst]. apply put_records_inv; [|done].
  destruct (match apply with Some f => f record target | None => Ok tt end); split; cbn; try done; lia.
Qed.

Lemma validated_target (profile_supplied : bool) (profile policy mounts image : pyval) (old : pydict) u :
  (profile_supplied = false → profile = PDict old) →
  validate_domains c profile_supplied profile policy mounts image = Ok u →
  good_target [("image", image); ("profileRef", profile); ("mountManifest", mounts); ("delegationPolicySnapshot", policy)].
Proof.
  unfold validate_domains. intros Hold ([] & Hprof & Hv)%bind_Ok.
  assert (∃ d, profile = PDict d) as [pd ->].
  { destruct profile_supplied; [|eauto]. unfold validate_profile_ref in Hprof. destruct profile; try done. eauto. }
  destruct policy as [| | | | | |policy]; try done. destruct mounts as [| | | | | |mounts]; try done.
  apply bind_Ok in Hv as ([] & Hi & ([] & Hpol & Hm)%bind_Ok). unfold validate_image in Hi. destruct image as [| | | | | |image]; try done.
  exists image, pd, mounts, policy. destruct u. done.
Qed.

(** The record a policy request stores first. *)
Definition with_pending (record : DelegatedSessionRecord) (pending target : pydict) : DelegatedSessionRecord :=
  record <| ds_desiredRevision := ds_desiredRevision record + 1 |> <| ds_pendingPolicyUpdate := Some pending |>
         <| ds_pendingPolicyTarget := Some target |>.

Lemma with_pending_inv record now update_id fields target : policy_inv record → good_target target →
  policy_inv (with_pending record [("updateId", PStr update_id); ("revision", PInt (ds_desiredRevision record + 1));
    ("requestedAtMs", PInt now); ("fields", fields)] target).
Proof.
  intros [Hrev _] Ht. split; cbn; [lia|]. split_and!; [lia|done|by eexists|done].
Qed.

(** A policy request, by cases: it raises and changes nothing, or it is a stored pending update and a reconciliation. *)
Lemma update_policy_cases now p update_id body id s record : records_inv s → get_delegated_session id s = Some record →
  (∃ e, update_delegated_session_policy c now p update_id body id s = (s, Raise e)) ∨
  (∃ fields,
    let supplied k old := default (PDict old) (dget k body) in
    let target := [("image", supplied "image" (ds_image record)); ("profileRef", supplied "profileRef" (ds_profileRef record));
                   ("mountManifest", supplied "mountManifest" (ds_mountManifest record));
                   ("delegationPolicySnapshot", supplied "delegationPolicySnapshot" (ds_delegationPolicySnapshot record))] in
    let pending := [("updateId", PStr update_id); ("revision", PInt (ds_desiredRevision record + 1)); ("requestedAtMs", PInt now); ("fields", fields)] in
    let saved := put_delegated_session now (with_pending record pending target) s in
    good_target target ∧
    update_delegated_session_policy c now p update_id body id s =
      (updated ← put_delegated_session now (with_pending record pending target);
       reconciled ← reconcile_delegated_policy now None (ds_id updated); mret (default updated reconciled)) s).
Proof.
  intros Hs Hg. unfold update_delegated_session_policy. rewrite Hg.
  destruct (ensure_delegated_access p record s); [|left; by eexists]. cbn zeta.
  set (supplied := keep _ policy_domains). set (stale := match pget "expectedRevision" body with PNone => _ | _ => _ end).
  destruct stale; [left; by eexists|]. destruct (bool_decide (supplied = [])); [left; by eexists|].
  destruct (validate_domains c _ _ _ _ _) as [u|e] eqn:Ev; [|left; by eexists]. right. exists (PList (PStr <$> supplied)).
  split; [|done]. eapply validated_target; [|exact Ev]. unfold dmem. by destruct (dget "profileRef" body).
Qed.

Lemma pend_then_reconcile now x s :
  (updated ← put_delegated_session now x; reconciled ← reconcile_delegated_policy now None (ds_id updated);
   mret (default updated reconciled)) s =
  let '(s1, saved) := put_delegated_session now x s in
  let '(s2, r) := reconcile_delegated_policy now None (ds_id x) s1 in
  (s2, match r with Ok rec => (λ y, default y rec) <$> saved | Raise e => Raise e end).
Proof.
  unfold mbind at 1, M_bind. destruct (put_delegated_stores now x s) as (created & Hr & _).
  destruct (put_delegated_session now x s) as [s1 r1]. cbn [snd] in Hr. subst r1.
  cbn [ds_id]. unfold mbind, M_bind. change (ds_id (x <| ds_createdAtMs := created |> <| ds_updatedAtMs := now |>)) with (ds_id x).
  by destruct (reconcile_delegated_policy now None (ds_id x) s1) as [s2 [rec|e]].
Qed.

Lemma update_policy_inv now p update_id body id s : records_inv s →
  records_inv (update_delegated_session_policy c now p update_id body id s).1.
Proof.
  intros Hs. destruct (get_delegated_session id s) as [record|] eqn:Hg;
    [|unfold update_delegated_session_policy; by rewrite Hg].
  destruct (update_policy_cases now p update_id body id s record Hs Hg) as [[e ->]|(fields & Ht & ->)]; [done|].
  rewrite pend_then_reconcile. destruct (Hs id record Hg) as [_ Hinv].
  pose proof (put_records_inv now _ s (with_pending_inv record now update_id fields _ Hinv Ht) Hs) as Hput.
  destruct (put_delegated_session now _ s) as [s1 r1]. cbn [fst] in Hput.
  pose proof (reconcile_inv now None (ds_id record) s1 Hput) as Hrec. cbn [with_pending ds_id] in Hrec |- *.
  change (ds_id (with_pending record _ _)) with (ds_id record).
  by destruct (reconcile_delegated_policy now None (ds_id record) s1) as [s2 r2].
Qed.
End policy.

(** ** Sequences of requests *)

Section requests.
Context `{PyRepr} {S : Type} `{ContainerRuntime S} (c : ApiSettings) (config_policy : pydict).

(** Requests, reconciliations and runtime changes (a run's start and end, a destroyed container), with their clocks and fresh ids. *)
Inductive delegated_call :=
  | DCreate (now : Z) (p : Principal) (id : string) (body : pydict)
  | DPolicy (now : Z) (p : Principal) (update_id : string) (body : pydict) (id : string)
  | DReconcile (now : Z) (apply : option (DelegatedSessionRecord → pydict → result unit)) (id : string)
  | DRestore (now later : Z) (p : Principal) (id : string)
  | DRuntime (now : Z) (id : string) (runtime : DelegatedRuntimeRecord).

Definition delegated_step (call : delegated_call) (b : Backend S) : Backend S :=
  match call with
  | DCreate now p id body => (on_store (create_delegated_session c config_policy now p id body) b).1
  | DPolicy now p update_id body id => (on_store (update_delegated_session_policy c now p update_id body id) b).1
  | DReconcile now apply id => (on_store (reconcile_delegated_policy now apply id) b).1
  | DRestore now later p id => (restore_delegated_session c now later p id b).1
  | DRuntime now id runtime => (on_store (update_delegated_runtime now id runtime) b).1
  end.
Definition delegated_run (calls : list delegated_call) (b : Backend S) : Backend S := foldl (λ b call, delegated_step call b) b calls.

(** Operations that leave the table of delegated sessions and the locks alone. *)
Definition keeps_delegated {A} (m : store_m A) : Prop := ∀ s,
  st_delegated_sessions (m s).1 = st_delegated_sessions s ∧ st_workspace_locks (m s).1 = st_workspace_locks s.

Lemma keeps_bind {A B} (m : store_m A) (f : A → store_m B) : keeps_delegated m → (∀ a, keeps_delegated (f a)) → keeps_delegated (m ≫= f).
Proof.
  intros Hm Hf s. unfold mbind, M_bind. destruct (Hm s) as [E1 E2]. destruct (m s) as [s1 [a|e]]; [|done].
  destruct (Hf a s1) as [-> ->]. done.
Qed.

Lemma keeps_load l : keeps_delegated (load_session l).
Proof. intros s. unfold load_session. by destruct (_ !! _). Qed.

Lemma keeps_put_session now l : keeps_delegated (put_session now l).
Proof.
  unfold put_session. apply keeps_bind; [apply keeps_load|intros r]. apply keeps_bind; [by intros s|intros r'].
  apply keeps_bind; [by intros s|intros l']. apply keeps_bind; by intros.
Qed.

Lemma keeps_session_ref now r : keeps_delegated (store_session_ref now r).
Proof.
  unfold store_session_ref. apply keeps_bind; [by intros s|intros [l|]]; [|by intros s].
  apply keeps_bind; [apply keeps_load|intros x]. apply keeps_bind; [by intros s|intros copy].
  apply keeps_bind; [by intros s|intros l']. apply keeps_bind; [apply keeps_put_session|by intros]. 
Qed.

Lemma keeps_bind_session now r : keeps_delegated (bind_session now r).
Proof.
  unfold bind_session. apply keeps_bind; [by intros s|intros [l|]]; (apply keeps_bind; [try apply keeps_load; by intros s|intros x]);
    (apply keeps_bind; [by intros s|intros copy]); (apply keeps_bind; [by intros s|intros l']);
    (apply keeps_bind; [apply keeps_put_session|by intros]).
Qed.

Lemma keeps_inv {A} (m : store_m A) s : st_delegated_sessions (m s).1 = st_delegated_sessions s → records_inv c s → records_inv c (m s).1.
Proof. intros Hm Hs id r. unfold get_delegated_session. rewrite Hm. apply Hs. Qed.

Lemma update_runtime_inv now id runtime s : records_inv c s → records_inv c (update_delegated_runtime now id runtime s).1.
Proof.
  intros Hs. unfold update_delegated_runtime. destruct (get_delegated_session id s) as [r|] eqn:E; [|done].
  apply put_records_inv; [|done]. by destruct (Hs id r E).
Qed.

Lemma created_inv now id body record : delegated_session_from_body c config_policy now id body = Ok record → policy_inv c record.
Proof. unfold delegated_session_from_body. intros Hr. repeat (apply bind_Ok in Hr as (? & _ & Hr)). injection Hr as <-. split; cbn; [lia|done]. Qed.

Lemma create_inv now p id body s : records_inv c s → records_inv c (create_delegated_session c config_policy now p id body s).1.
Proof.
  intros Hs. unfold create_delegated_session. destruct (delegated_session_from_body _ _ _ _ _) as [record|] eqn:Er; [|done].
  destruct (negb (owns _ _ _ _)); [done|]. destruct (get_scoped _ _ _) as [h|[]]; try done. destruct (negb _); [done|].
  destruct (get_delegated_session_by_manager _ _) as [x|].
  { destruct (ensure_delegated_access p x s); [|done]. by destruct (delegated_session_matches_body x body). }
  pose proof (put_records_inv c now record s (created_inv _ _ _ _ Er) Hs) as Hput. unfold mbind, M_bind.
  destruct (put_delegated_session now record s) as [s1 [saved|e]]; [|done]. cbn in Hput.
  pose proof (keeps_inv _ s1 (proj1 (keeps_bind_session now saved s1)) Hput) as Hb. by destruct (bind_session now saved s1) as [s2 [u|e]].
Qed.

Lemma preserves_on_store {A} (m : store_m A) : preserves (records_inv c) m → preserves (λ b : Backend S, records_inv c (bk_store b)) (on_store m).
Proof. intros Hm [s d] Hs. unfold on_store. cbn in *. specialize (Hm s Hs). by destruct (m s). Qed.
Lemma preserves_on_runtime {A} (m : M S A) : preserves (λ b : Backend S, records_inv c (bk_store b)) (on_runtime m).
Proof. intros [s d] Hs. unfold on_runtime. cbn in *. by destruct (m d). Qed.

Lemma restore_inv now later p id : preserves (λ b, records_inv c (bk_store b)) (restore_delegated_session c now later p id).
Proof.
  assert (Hk : ∀ A (m : store_m A), (∀ s, st_delegated_sessions (m s).1 = st_delegated_sessions s) → preserves (λ b : Backend S, records_inv c (bk_store b)) (on_store m)).
  { intros A m Hm. apply preserves_on_store. intros s Hs. by apply keeps_inv. }
  assert (Hlock : ∀ w i a ttl s, st_delegated_sessions (acquire_workspace_lock now w i a ttl s).1 = st_delegated_sessions s).
  { intros w i a ttl s. unfold acquire_workspace_lock. by repeat case_match. }
  assert (Hfree : ∀ w i s, st_delegated_sessions (release_workspace_lock w i s).1 = st_delegated_sessions s).
  { intros w i s. unfold release_workspace_lock. by repeat case_match. }
  assert (Hrun : ∀ i r, preserves (λ b : Backend S, records_inv c (bk_store b)) (on_store (update_delegated_runtime later i r))).
  { intros i r. apply preserves_on_store. intros s. apply update_runtime_inv. }
  unfold restore_delegated_session, restore_locked. apply preserves_bind; [auto with haas|intros [record|]]; [|auto with haas].
  repeat (apply preserves_bind; [by auto with haas|intros ?]).
  apply preserves_bind.
  - apply preserves_catch; [apply preserves_on_runtime|]. intros []; auto with haas. unfold restore_failed.
    apply preserves_bind; [apply Hk, Hfree|intros _]. apply preserves_bind; [apply Hrun|auto with haas].
  - intros r. apply preserves_bind; [apply Hrun|intros restored]. apply preserves_bind; [|auto with haas]. apply Hk. intros s. apply keeps_session_ref.
Qed.

(** One request. *)
Lemma step_inv call b : records_inv c (bk_store b) → records_inv c (bk_store (delegated_step call b)).
Proof.
  intros Hb. destruct call; cbn [delegated_step].
  - apply (preserves_on_store (create_delegated_session c config_policy now p id body)); [|done]. intros s. apply create_inv.
  - apply (preserves_on_store (update_delegated_session_policy c now p update_id body id)); [|done]. intros s. apply update_policy_inv.
  - apply (preserves_on_store (reconcile_delegated_policy now apply id)); [|done]. intros s. apply reconcile_inv.
  - by apply restore_inv.
  - apply (preserves_on_store (update_delegated_runtime now id runtime)); [|done]. intros s. apply update_runtime_inv.
Qed.

(** C23: Policy revisions stay consistent.  From a store without delegated sessions, along every sequence of creations, policy requests, reconciliations with any callback, restores
    and runtime changes, every stored delegated session has an applied revision between one and the desired one; an update is
    pending exactly when a target is, it carries the desired revision, which is ahead of the applied one, and the
    target has all four domains with an accepted mount manifest and policy. *)
Theorem policy_revisions_consistent calls b id r : st_delegated_sessions (bk_store b) = [] →
  get_delegated_session id (bk_store (delegated_run calls b)) = Some r → ds_id r = id ∧ policy_inv c r.
Proof.
  intros Hb. assert (Hinv : records_inv c (bk_store b)) by (intros i x; unfold get_delegated_session; by rewrite Hb).
  clear Hb. revert b Hinv. induction calls as [|call calls IH]; intros b Hb; [apply Hb|].
  by apply IH, step_inv.
Qed.
End requests.

(** ** What a policy request does *)

Section outcome.
Context (c : ApiSettings).

Definition same_domains (r r' : DelegatedSessionRecord) : Prop :=
  ds_profileRef r' = ds_profileRef r ∧ ds_delegationPolicySnapshot r' = ds_delegationPolicySnapshot r ∧
  ds_mountManifest r' = ds_mountManifest r ∧ ds_image r' = ds_image r.

(** The domains after an update: the supplied ones, and the others as they were. *)
Definition replaced_domains (body : pydict) (r r' : DelegatedSessionRecord) : Prop :=
  let new k old := default (PDict old) (dget k body) in
  PDict (ds_profileRef r') = new "profileRef" (ds_profileRef r) ∧
  PDict (ds_delegationPolicySnapshot r') = new "delegationPolicySnapshot" (ds_delegationPolicySnapshot r) ∧
  PDict (ds_mountManifest r') = new "mountManifest" (ds_mountManifest r) ∧
  PDict (ds_image r') = new "image" (ds_image r).

(** A policy request replaces domains or waits.  It either raises and leaves the store as it was, or advances the desired revision of
    its session by one and touches no other session.  With a quiet runtime it is applied at once: the supplied domains are
    replaced, the others stay, the applied revision catches up and nothing is pending.  With a busy
    runtime the session keeps its configuration and applied revision, and the update is pending under the
    new revision. *)
Theorem policy_request_outcome now p update_id body id s record s' res :
  records_inv c s → get_delegated_session id s = Some record →
  update_delegated_session_policy c now p update_id body id s = (s', res) →
  match res with
  | Raise _ => s' = s
  | Ok r =>
      get_delegated_session id s' = Some r ∧ (∀ id', id' ≠ id → get_delegated_session id' s' = get_delegated_session id' s) ∧
      ds_desiredRevision r = ds_desiredRevision record + 1 ∧ ds_runtime r = ds_runtime record ∧
      if decide (dr_status (ds_runtime record) ∈ BUSY_RUNTIME_STATUSES) then
        same_domains record r ∧ ds_appliedRevision r = ds_appliedRevision record ∧
        ∃ pending, ds_pendingPolicyUpdate r = Some pending ∧ dget "updateId" pending = Some (PStr update_id) ∧
          dget "revision" pending = Some (PInt (ds_desiredRevision r))
      else
        replaced_domains body record r ∧ ds_appliedRevision r = ds_desiredRevision r ∧ ds_pendingPolicyUpdate r = None ∧
        ds_lastPolicyUpdateResult r =
          Some [("updateId", PStr update_id); ("revision", PInt (ds_desiredRevision r)); ("status", PStr "applied")]
  end.
Proof.
  intros Hs Hg. destruct (Hs id record Hg) as [Hid Hinv].
  destruct (update_policy_cases c now p update_id body id s record Hs Hg) as [[e ->]|(fields & Ht & ->)]; [by intros [= <- <-]|].
  rewrite pend_then_reconcile. set (target := [("image", _); _; _; _]) in *.
  set (pending := [("updateId", PStr update_id); _; _; _]).
  pose proof (put_records_inv c now _ s (with_pending_inv c record now update_id fields _ Hinv Ht) Hs) as Hput.
  destruct (put_delegated_stores now (with_pending record pending target) s) as (created & Hr1 & Hg1).
  fold pending in Hput. destruct (put_delegated_session now (with_pending record pending target) s) as [s1 r1]. cbn [fst snd] in *. subst r1.
  change (ds_id (with_pending record pending target)) with (ds_id record) in *. rewrite Hid in Hg1 |- *.
  set (record1 := (with_pending record pending target) <| ds_createdAtMs := created |> <| ds_updatedAtMs := now |>) in *.
  assert (Hg1' : get_delegated_session id s1 = Some record1) by (by rewrite Hg1, decide_True).
  pose proof (reconcile_spec c now None id s1 record1 Hput Hg1') as Hrec.
  change (ds_pendingPolicyUpdate record1) with (Some pending) in Hrec. change (ds_pendingPolicyTarget record1) with (Some target) in Hrec.
  change (ds_runtime record1) with (ds_runtime record) in Hrec.
  destruct (decide (dr_status (ds_runtime record) ∈ BUSY_RUNTIME_STATUSES)) as [Hbusy|Hbusy].
  - rewrite bool_decide_true in Hrec by done. rewrite Hrec. intros [= <- <-]. split; [done|]. split; [intros id' Hne; by rewrite Hg1, decide_False|].
    split_and!; try done. by exists pending.
  - rewrite bool_decide_false in Hrec by done. destruct Hrec as (u & Hu & ->). injection Hu as <-.
    destruct Ht as (image & profile & mounts & policy & T1 & T2 & T3 & T4 & _).
    match goal with |- context [put_delegated_session now ?x s1] => set (record2 := x) end.
    destruct (put_delegated_stores now record2 s1) as (created2 & Hr2 & Hg2).
    destruct (put_delegated_session now record2 s1) as [s2 r2]. cbn [fst snd] in *. subst r2. intros [= <- <-].
    change (ds_id record2) with (ds_id record) in Hg2. rewrite Hid in Hg2. split_and!; try done.
    + by rewrite Hg2, decide_True.
    + intros id' Hne. rewrite Hg2, decide_False, Hg1, decide_False by done. done.
    + injection T1 as T1. injection T2 as T2. injection T3 as T3. injection T4 as T4. unfold replaced_domains.
      rewrite T1, T2, T3, T4. subst target. unfold record2, pget. cbn. by rewrite T1, T2, T3, T4.
Qed.
End outcome.

(** ** What a restore request does *)

Section restore_outcome.
Context `{PyRepr} {S : Type} `{ContainerRuntime S} `{!LawfulRuntime S} (c : ApiSettings).

Definition workspace_of (r : DelegatedSessionRecord) : string :=
  match (primary ← vitem "primaryWorkspace" (PDict (ds_mountManifest r)); vitem "hostPathCanonical" primary) with
  | Ok v => py_str v | Raise _ => "" end.

(** Who holds a workspace. *)
Definition holder_of (workspace : string) (s : MemoryStore) : option string := l_holder <$> dget workspace (st_workspace_locks s).

(** Acquiring for writing: the lock, or nothing. *)
Lemma acquire_rw now w i ttl s :
  let '(s', r) := acquire_workspace_lock now w i "rw" ttl s in
  ∃ l, r = Ok l ∧
    if w_acquired l
    then s' = s <| st_workspace_locks := dset w (mkLease i (now + ttl) 0) (st_workspace_locks s) |>
    else s' = s.
Proof.
  unfold acquire_workspace_lock. rewrite bool_decide_false by done.
  destruct (dget w (st_workspace_locks s)) as [x|]; [destruct (_ && _)|]; eexists; (split; [reflexivity|]); done.
Qed.

Lemma release_frees w i s : holder_of w (release_workspace_lock w i s).1 ≠ Some i ∧
  st_delegated_sessions (release_workspace_lock w i s).1 = st_delegated_sessions s.
Proof.
  unfold release_workspace_lock, holder_of. destruct (dget w (st_workspace_locks s)) as [l|] eqn:E.
  - case_bool_decide as D; cbn; [by rewrite dget_ddel_eq|]. rewrite E. cbn. split; [|done]. congruence.
  - cbn. by rewrite E.
Qed.

Lemma validated_primary home manifest u : validate_mount_manifest home manifest = Ok u →
  ∃ d host, vitem "primaryWorkspace" (PDict manifest) = Ok (PDict d) ∧ dget "hostPathCanonical" d = Some (PStr host) ∧
    dget "access" d = Some (PStr "rw").
Proof.
  unfold validate_mount_manifest. intros (v & _ & ([] & _ & ([] & Hp & _)%bind_Ok)%bind_Ok)%bind_Ok.
  apply entry_accepted in Hp as (d & host & target & access & Ed & Dh & _ & Da & _ & _ & _ & ->). exists d, host.
  unfold vitem. unfold pget in Ed. destruct (dget "primaryWorkspace" manifest); cbn in Ed; [by subst|done].
Qed.

(** The request up to the lock: it raises and changes nothing, or it holds the workspace. *)
Lemma restore_cases now later p id b record : get_delegated_session id (bk_store b) = Some record →
  (∃ e, restore_delegated_session c now later p id b = (b, Raise e)) ∨
  (∃ ttl, restore_delegated_session c now later p id b = restore_locked later id (workspace_of record) record
     (mkBackend ((bk_store b) <| st_workspace_locks :=
        dset (workspace_of record) (mkLease (ds_id record) (now + ttl) 0) (st_workspace_locks (bk_store b)) |>) (bk_runtime b))).
Proof.
  intros Hg. unfold restore_delegated_session, mbind, M_bind, gets, lift. rewrite Hg.
  destruct (ensure_delegated_access p record (bk_store b)); [|left; by eexists].
  destruct (validate_mount_manifest (api_home c) (ds_mountManifest record)) as [[]|e] eqn:Ev;
    [|left; by eexists].
  apply validated_primary in Ev as (d & host & Ep & Eh & Ea). unfold workspace_of. rewrite Ep. cbn [mbind result_bind].
  assert (vitem "hostPathCanonical" (PDict d) = Ok (PStr host)) as -> by (unfold vitem; by rewrite Eh).
  assert (vitem "access" (PDict d) = Ok (PStr "rw")) as -> by (unfold vitem; by rewrite Ea).
  destruct (lifetime_ms (ds_delegationPolicySnapshot record)) as [ttl|]; [|left; by eexists].
  unfold on_store. change (py_str (PStr "rw")) with "rw". pose proof (acquire_rw now (py_str (PStr host)) (ds_id record) ttl (bk_store b)) as Hl.
  destruct (acquire_workspace_lock now _ _ "rw" ttl (bk_store b)) as [s1 r1]. destruct Hl as (l & -> & Hl). unfold guard_or.
  destruct (w_acquired l); subst s1; cbn [ensure]; [right; by exists ttl|left; eexists; by destruct b].
Qed.

Lemma unavailable_or_not e : (∃ msg, e = unavailable msg) ∨
  ∀ {T A} (h : string → M T A), match e with DelegatedContainerUnavailable msg => h msg | e => raise e end = raise e.
Proof. destruct e; try (by right); left; by eexists. Qed.

(** A restore request, by its outcome, over any container runtime that keeps the interface's laws.  A success stores the runtime that
    the container backend returned, which runs in a container, with the configuration as it was, and the session holds
    its workspace.  A failure leaves store and backend as they were; or the backend was
    unavailable, and then the runtime is recorded as failed without a container and the session does not hold the workspace; or the
    session holds the workspace, because the backend raised something else or the finished restore could not be noted in the
    session. *)
Theorem restore_request_outcome now later p id b record b' res :
  get_delegated_session id (bk_store b) = Some record → ds_id record = id →
  restore_delegated_session c now later p id b = (b', res) →
  let backend := rt_restore later record (bk_runtime b) in
  let held := holder_of (workspace_of record) (bk_store b') in
  match res with
  | Ok r =>
      get_delegated_session id (bk_store b') = Some r ∧ same_domains record r ∧ backend = (bk_runtime b', Ok (ds_runtime r)) ∧
      dr_status (ds_runtime r) = "running" ∧ is_some (present (dr_containerId (ds_runtime r))) = true ∧ held = Some id
  | Raise e =>
      b' = b ∨
      (∃ msg r, backend = (bk_runtime b', Raise (unavailable msg)) ∧ held ≠ Some id ∧
         get_delegated_session id (bk_store b') = Some r ∧ same_domains record r ∧ ds_runtime r = failed_runtime (ds_runtime record) ∧
         e = haas_error (if bool_decide (msg = "haas_policy_unsupported") then "haas_policy_unsupported" else "haas_delegation_backend_unavailable")) ∨
      (held = Some id ∧ (backend = (bk_runtime b', Raise e) ∨ ∃ rt, backend = (bk_runtime b', Ok rt)))
  end.
Proof.
  intros Hg Hid Hr backend held. destruct (restore_cases now later p id b record Hg) as [[e E]|[ttl E]]; rewrite E in Hr.
  { injection Hr as <- <-. by left. }
  set (s1 := (bk_store b) <| st_workspace_locks := _ |>) in Hr.
  assert (Hg1 : get_delegated_session id s1 = Some record) by done.
  assert (Hheld1 : holder_of (workspace_of record) s1 = Some id) by (unfold holder_of, s1; cbn; by rewrite dget_dset_eq, <-Hid).
  assert (Hup : ∀ s rt, get_delegated_session id s = Some record → ∃ r, update_delegated_runtime later id rt s = ((put_delegated_session later (record <| ds_runtime := rt |>) s).1, Ok r) ∧
    get_delegated_session id (put_delegated_session later (record <| ds_runtime := rt |>) s).1 = Some r ∧ same_domains record r ∧ ds_runtime r = rt).
  { intros s rt Hs. unfold update_delegated_runtime. rewrite Hs.
    destruct (put_delegated_stores later (record <| ds_runtime := rt |>) s) as (created & Hp & Hgp).
    destruct (put_delegated_session later (record <| ds_runtime := rt |>) s) as [s' r']. cbn [snd fst] in *. subst r'.
    eexists. split; [reflexivity|]. rewrite Hgp. rewrite decide_True by (by rewrite <-Hid). by split_and!. }
  unfold restore_locked, mbind, M_bind, catch, on_runtime in Hr. cbn [bk_runtime bk_store] in Hr. fold backend in Hr.
  destruct backend as [d1 [rt|e]] eqn:Eb.
  - destruct (Hup s1 rt Hg1) as (r & E1 & Hgr & Hdom & Hrt). unfold on_store in Hr. cbn [bk_runtime bk_store] in Hr. rewrite E1 in Hr.
    set (s2 := (put_delegated_session later _ s1).1) in *. destruct (keeps_session_ref later r s2) as [K1 K2]. cbn [bk_store bk_runtime] in Hr.
    assert (Hheld2 : holder_of (workspace_of record) (store_session_ref later r s2).1 = Some id) by (unfold holder_of; by rewrite K2).
    assert (Hg2 : get_delegated_session id (store_session_ref later r s2).1 = Some r) by (unfold get_delegated_session; by rewrite K1).
    destruct (store_session_ref later r s2) as [s3 [[]|e]]; injection Hr as <- <-.
    + destruct (restore_runs later record (bk_runtime b) d1 rt Eb) as (R1 & R2 & _). rewrite Hrt. by split_and!.
    + right. right. split; [done|]. right. by exists rt.
  - destruct (unavailable_or_not e) as [[msg ->]|Hother].
    + unfold restore_failed, mbind, M_bind, on_store in Hr. cbn [bk_runtime bk_store unavailable] in Hr.
      destruct (release_frees (workspace_of record) (ds_id record) s1) as [Hfree Hkeep].
      assert (Eok : (release_workspace_lock (workspace_of record) (ds_id record) s1).2 = Ok tt)
        by (unfold release_workspace_lock; by repeat case_match).
      destruct (release_workspace_lock (workspace_of record) (ds_id record) s1) as [s2 r2]. cbn [fst snd] in *. subst r2.
      assert (Hg2 : get_delegated_session id s2 = Some record) by (unfold get_delegated_session; by rewrite Hkeep).
      rewrite Hid in Hr. destruct (Hup s2 (failed_runtime (ds_runtime record)) Hg2) as (r & E1 & Hgr & Hdom & Hrt).
      cbn [bk_runtime bk_store] in Hr. rewrite E1 in Hr. injection Hr as <- <-. right. left. exists msg, r.
      split_and!; try done. rewrite <-Hid. exact Hfree.
    + rewrite Hother in Hr. injection Hr as <- <-. right. right. split; [done|by left].
Qed.
End restore_outcome.

(** ** Examples *)

Module DelegatedApiExamples.
#[local] Existing Instance DockerExamples.daemon.
#[local] Existing Instance DockerExamples.no_repr.

#[local] Instance docker : ContainerRuntime DockerRuntime := docker_runtime DockerExamples.settings.
#[local] Instance docker_laws : LawfulRuntime DockerRuntime := docker_lawful DockerExamples.settings.
Definition api : ApiSettings := mkApiSettings "/home/u" false.
Definition alice : Principal := RegistryExamples.alice.
Definition start : Backend DockerRuntime := mkBackend RegistryExamples.only_alice new_docker.

Definition manifest_at (host : string) : pydict := [("version", PInt 1); ("primaryWorkspace", DockerExamples.mount host "/workspace" "rw")].
Definition policy : pydict :=
  [("idleTtlSeconds", PInt 60); ("maxContainerLifetimeSeconds", PInt 600); ("rwWorkspaceConcurrency", PStr "single_writer");
   ("queuePolicy", PStr "fifo"); ("restorePolicy", PStr "fail_closed"); ("mountPolicy", PStr "explicit");
   ("network", PDict [("defaultAction", PStr "deny"); ("allow", PList [])])].
Definition create_body : pydict :=
  [("managerSessionId", PStr "m1"); ("haasSessionId", PStr "s1"); ("haasUserId", PStr "u1"); ("harnessId", PStr "chrn_a");
   ("image", PDict DockerExamples.pinned_image);
   ("provider", PDict [("providerId", PStr "p"); ("model", PStr "x"); ("credentialRef", PStr "secret://k")]);
   ("mountManifest", PDict (manifest_at "/srv/w")); ("delegationPolicySnapshot", PDict policy)].
Definition create : delegated_call := DCreate 1 alice "d1" create_body.
Definition run_calls (calls : list delegated_call) : Backend DockerRuntime := delegated_run api policy calls start.
Definition record_after (calls : list delegated_call) : option DelegatedSessionRecord := get_delegated_session "d1" (bk_store (run_calls calls)).

Example created : (λ r, (ds_harnessBase r, ds_desiredRevision r, dr_status (ds_runtime r))) <$> record_after [create] = Some ("codex", 1, "no_runtime").
Proof. vm_compute. reflexivity. Qed.

Definition body_of (k : string) (v : pydict) : pydict := [(k, PDict v)].
Definition other_image : pydict := [("reference", PStr "haas/other"); ("digest", PStr DockerExamples.digest)].

(** An update of a quiet session, one while it runs, the end of the run and the reconciliation. *)
Definition history : list delegated_call :=
  [create; DPolicy 2 alice "up1" (body_of "image" other_image) "d1"; DRestore 3 4 alice "d1";
   DPolicy 5 alice "up2" (body_of "mountManifest" (manifest_at "/srv/v")) "d1"].

Definition last_record : DelegatedSessionRecord := default DockerExamples.session (record_after history).

Lemma policy_revisions_consistent_witness :
  (ds_appliedRevision last_record, ds_desiredRevision last_record, is_some (ds_pendingPolicyUpdate last_record)) = (2, 3, true) ∧
  policy_inv api last_record.
Proof.
  assert (E : get_delegated_session "d1" (bk_store (delegated_run api policy history start)) = Some last_record) by (vm_compute; reflexivity).
  split; [vm_compute; reflexivity|].
  exact (proj2 (policy_revisions_consistent api policy history start "d1" last_record eq_refl E)).
Defined.

Lemma accepted_manifest_mounts_witness :
  ∃ primary extra, manifest_mounts DockerExamples.manifest = Ok (primary :: extra) ∧
    accepted_entry "/home/u" true primary ∧ Forall (accepted_entry "/home/u" false) extra.
Proof.
  destruct (accepted_manifest_mounts "/home/u" DockerExamples.manifest ltac:(vm_compute; reflexivity)) as (m & ms & E & Hm & Hms & _).
  exists m, ms. exact (conj E (conj Hm Hms)).
Defined.

Definition store_after (calls : list delegated_call) : MemoryStore := bk_store (run_calls calls).
Definition update (body : pydict) (s : MemoryStore) : MemoryStore * result DelegatedSessionRecord :=
  update_delegated_session_policy api 9 alice "up9" body "d1" s.

Lemma fresh_records_inv calls : records_inv api (store_after calls).
Proof.
  unfold store_after, run_calls, delegated_run. set (b := start).
  assert (Hb : records_inv api (bk_store b)) by (intros i x; done). revert Hb. generalize b.
  induction calls as [|call calls IH]; intros b' Hb; [done|]. by apply IH, step_inv.
Qed.

(** On the idle session the image is replaced at once. *)
Lemma policy_request_outcome_witness :
  let r := match (update (body_of "image" other_image) (store_after [create])).2 with Ok r => r | Raise _ => DockerExamples.session end in
  ds_image r = other_image ∧ ds_mountManifest r = manifest_at "/srv/w" ∧ ds_appliedRevision r = 2.
Proof.
  set (p := update (body_of "image" other_image) (store_after [create])).
  set (old := default DockerExamples.session (record_after [create])).
  set (new := match p.2 with Ok r => r | Raise _ => DockerExamples.session end).
  assert (Hg : get_delegated_session "d1" (store_after [create]) = Some old) by (vm_compute; reflexivity).
  assert (Hp : update_delegated_session_policy api 9 alice "up9" (body_of "image" other_image) "d1" (store_after [create]) = (p.1, Ok new))
    by (vm_compute; reflexivity).
  pose proof (policy_request_outcome api 9 alice "up9" (body_of "image" other_image) "d1" (store_after [create]) old p.1 (Ok new)
    (fresh_records_inv [create]) Hg Hp) as (_ & _ & Hd & _ & Hq).
  rewrite decide_False in Hq by (vm_compute; intros Hin; repeat (apply elem_of_cons in Hin as [Hin|Hin]; [discriminate Hin|]); by apply elem_of_nil in Hin).
  destruct Hq as ((_ & _ & Hm & Hi) & Ha & _). split_and!.
  - vm_compute in Hi. vm_compute. congruence.
  - vm_compute in Hm. vm_compute. congruence.
  - rewrite Ha, Hd. vm_compute. reflexivity.
Defined.

(** Restored: the container runs and the session holds its workspace. *)
Lemma restore_request_outcome_witness :
  let p := restore_delegated_session api 3 4 alice "d1" (run_calls [create]) in
  holder_of "/srv/w" (bk_store p.1) = Some "d1" ∧ is_ok p.2 = true.
Proof.
  set (p := restore_delegated_session api 3 4 alice "d1" (run_calls [create])).
  set (old := default DockerExamples.session (record_after [create])).
  set (new := match p.2 with Ok r => r | Raise _ => DockerExamples.session end).
  assert (Hg : get_delegated_session "d1" (bk_store (run_calls [create])) = Some old) by (vm_compute; reflexivity).
  assert (Hp : restore_delegated_session api 3 4 alice "d1" (run_calls [create]) = (p.1, Ok new)) by (vm_compute; reflexivity).
  pose proof (restore_request_outcome api 3 4 alice "d1" (run_calls [create]) old p.1 (Ok new) Hg ltac:(vm_compute; reflexivity) Hp)
    as (_ & _ & _ & _ & _ & Hh).
  split; [|vm_compute; reflexivity].
  assert (workspace_of old = "/srv/w") as Hw by (vm_compute; reflexivity). rewrite Hw in Hh. exact Hh.
Defined.

(** The fields of the mount options of a manifest. *)
Definition option_fields (m : pydict) : list (list string) :=
  match manifest_mounts m with
  | Ok mounts =>
      match map_result mount_args mounts with
      | Ok words => (λ w : list string, split_on comma (default "" (w !! 1%nat))) <$> words
      | Raise _ => []
      end
  | Raise _ => []
  end.

(** A comma ends a field of the mount option: a host path that passes every check of the manifest makes Docker mount its
    socket. *)
Theorem comma_mounts_docker_socket :
  let m := [("version", PInt 1); ("primaryWorkspace", DockerExamples.mount "/srv/w" "/workspace" "rw");
            ("extraMounts", PList [DockerExamples.mount "/srv/x,source=/var/run/docker.sock" "/ref" "ro"])] in
  validate_mount_manifest "/home/u" m = Ok tt ∧
  option_fields m =
  [["type=bind"; "source=/srv/w"; "target=/workspace"; "readonly=false"];
   ["type=bind"; "source=/srv/x"; "source=/var/run/docker.sock"; "target=/ref"; "readonly=true"]].
Proof. cbv zeta. split; vm_compute; reflexivity. Qed.

(** A request on top of a pending one takes the domains it does not name from the applied configuration: when the runtime is
    quiet again the second update is applied, the first is lost, and the applied revision covers both. *)
Theorem second_pending_update_drops_first :
  let r := record_after [create; DRuntime 3 "d1" (mkDelegatedRuntime "running" (Some "c1") 1 None None);
                         DPolicy 4 alice "up1" (body_of "image" other_image) "d1";
                         DPolicy 5 alice "up2" (body_of "mountManifest" (manifest_at "/srv/v")) "d1";
                         DRuntime 6 "d1" (mkDelegatedRuntime "idle" (Some "c1") 1 None None); DReconcile 7 None "d1"] in
  (λ r, (ds_image r, ds_mountManifest r, ds_appliedRevision r, ds_desiredRevision r)) <$> r =
  Some (DockerExamples.pinned_image, manifest_at "/srv/v", 3, 3).
Proof. vm_compute. reflexivity. Qed.

(** The run commands so far. *)
Definition started (b : Backend DockerRuntime) : list (list string) :=
  keep (λ w : list string, bool_decide (w !! 1%nat = Some "run")) (dk_commands (bk_runtime b)).

(** An update applied to an idle session does not reach its container: the next restore finds the container of the old
    configuration running and keeps it. *)
Theorem applied_mounts_not_mounted :
  let calls := [create; DRestore 3 4 alice "d1"; DRuntime 5 "d1" (mkDelegatedRuntime "idle" (Some "c1") 1 (Some 4) (Some 5));
                DPolicy 6 alice "up1" (body_of "mountManifest" (manifest_at "/srv/v")) "d1"; DRestore 7 8 alice "d1"] in
  (λ r, (ds_mountManifest r, ds_appliedRevision r, dr_containerId (ds_runtime r))) <$> record_after calls =
    Some (manifest_at "/srv/v", 2, Some "c1") ∧
  started (run_calls calls) = started (run_calls (take 2 calls)).
Proof. cbv zeta. split; vm_compute; reflexivity. Qed.

(** After a restore the runtime is [running] although no turn is: an update stays pending until a run ends. *)
Theorem restored_session_update_waits :
  (λ r, (ds_appliedRevision r, ds_desiredRevision r)) <$>
    record_after [create; DRestore 3 4 alice "d1"; DPolicy 5 alice "up1" (body_of "image" other_image) "d1"; DReconcile 6 None "d1"] = Some (1, 2).
Proof. vm_compute. reflexivity. Qed.

(** A container command that cannot be started at all is not a [DelegatedContainerUnavailable]: the request fails with the workspace
    locked. *)
Theorem missing_docker_keeps_lock :
  let no_docker : CommandRunner := λ _ _, Raise (OtherError "FileNotFoundError" None) in
  let p := @restore_delegated_session DockerExamples.no_repr DockerRuntime (@docker_runtime DockerExamples.no_repr no_docker DockerExamples.settings)
             api 3 4 alice "d1" (run_calls [create]) in
  p.2 = Raise (OtherError "FileNotFoundError" None) ∧ holder_of "/srv/w" (bk_store p.1) = Some "d1".
Proof. cbv zeta. split; vm_compute; reflexivity. Qed.

(** A lifetime given as a text passes the validation, and every restore then raises. *)
Theorem text_lifetime_never_restores :
  let body := dset "delegationPolicySnapshot" (PDict (dset "maxContainerLifetimeSeconds" (PStr "600") policy)) create_body in
  let b := run_calls [DCreate 1 alice "d1" body] in
  is_some (get_delegated_session "d1" (bk_store b)) = true ∧ (restore_delegated_session api 3 4 alice "d1" b).2 = Raise TypeError.
Proof. cbv zeta. split; vm_compute; reflexivity. Qed.

(** A create request with an explicit null profile conflicts with itself when it is repeated. *)
Theorem null_profile_conflicts_with_itself :
  let body := dset "profileRef" PNone create_body in
  (create_delegated_session api policy 2 alice "d2" body (store_after [DCreate 1 alice "d1" body])).2 =
  Raise (haas_error "haas_delegated_session_conflict").
Proof. vm_compute. reflexivity. Qed.
End DelegatedApiExamples.
