(* ===== verification/Evidence.v ===== *)
(** * Execution evidence (haas/execution_evidence.py, the evidence route of haas/api.py)

    A process-local store keeps a redacted copy of each command, its output and the links in
    both, for at most a quarter of an hour; what has expired loses its content and keeps its
    scope.  URL parsing ([urllib.parse]) and the module's regular expressions are interfaces. *)

From S2P Require Import Prelude Errors Dict PyVal PyInt PyText Records Store SessionStore Identity Redact Registry DelegatedApi.

#[local] Open Scope string_scope.
#[local] Open Scope list_scope.
#[local] Open Scope Z_scope.

(** ** Interfaces *)

(** The parts of a split URL the module reads. *)
Record split_url := mkSplitUrl {
  su_scheme : string; su_netloc : string; su_path : string; su_query : string; su_fragment : string;
  su_hostname : option string;
}.

Class EvidenceLib := {
  (** [None] is the [ValueError] of a URL whose authority cannot be read. *)
  urlsplit : string → option split_url;
  urlunsplit : string → string → string → string → string → string;
  parse_qsl : string → list (string * string);
  urlencode : list (string * string) → string;
  (** [_URL_RE.finditer]: every match with the text before it, and the text after the last. *)
  url_matches : string → list (string * string) * string;
  (** [_AUTH_VALUE_RE.sub] and [_ENV_SECRET_RE.sub] with a marker for the value. *)
  auth_value_sub : string → string → string;
  env_secret_sub : string → string → string;
  (** [_EXPIRY_QUERY_KEYS] in the order the interpreter iterates over the set. *)
  expiry_keys : list string;
  expiry_keys_set : expiry_keys ≡ₚ ["exp"; "expires"; "expires_at"; "expiry"];
}.

Definition MAX_EVIDENCE_BYTES : Z := Z.shiftl 8 20.
Definition DEFAULT_EVIDENCE_TTL_MS : Z := 15 * 60 * 1000.
Definition SECRET_QUERY_KEYS : list string :=
  ["api_key"; "apikey"; "access_token"; "auth_token"; "password"; "client_secret"; "secret"; "signature"; "sig"; "token";
   "x-amz-signature"; "x-amz-credential"; "x-amz-security-token"; "x-goog-signature"; "x-goog-credential"; "x-oss-signature"].
Definition AUTH_REJECT_QUERY_KEYS : list string :=
  keep (λ k, negb (bool_decide (k ∈ ["signature"; "sig"; "token"]))) SECRET_QUERY_KEYS.
Definition AUTH_QUERY_KEYS : list string := ["code"; "state"; "client_id"; "redirect_uri"; "device_code"].
Definition SECRET_MARKER : string := "__HAAS_EVIDENCE_SECRET__".

(** ** URLs *)

Section urls.
Context `{EvidenceLib}.

Definition split_or_raise (url : string) : result split_url :=
  match urlsplit url with Some p => Ok p | None => Raise (ValueError "Invalid IPv6 URL") end.

(** [path_hint] *)
Definition path_hint (path : string) : bool :=
  existsb (λ word, str_in word (lower path)) ["auth"; "oauth"; "login"; "device"].

(** The query as a dictionary of lower-case keys: the last value of a key stays. *)
Definition query_dict (query : string) : dict string string :=
  foldl (λ d kv, dset (lower kv.1) kv.2 d) [] (parse_qsl query).

(** The loop over the expiry keys. *)
Fixpoint first_expiry (query : dict string string) (keys : list string) : option Z :=
  match keys with
  | [] => None
  | key :: keys' =>
      match int_of_text (default "" (dget key query)) with
      | None => first_expiry query keys'
      | Some raw =>
          let expiry_ms := if 10000000000 <? raw then raw else raw * 1000 in
          if 0 <? expiry_ms then Some expiry_ms else first_expiry query keys'
      end
  end.

(** [_authorization_expiry_ms]; its second argument is not read. *)
Definition authorization_expiry_ms (url : string) : result (option Z) :=
  parts ← split_or_raise url;
  if negb (bool_decide (su_scheme parts = "https")) then Ok None
  else
    let query := query_dict (su_query parts) in
    if negb (path_hint (su_path parts)) && negb (existsb (λ k, dmem k query) AUTH_QUERY_KEYS) then Ok None
    else Ok (first_expiry query expiry_keys).

(** [_is_authorization_url] *)
Definition is_authorization_url (url : string) : result bool :=
  parts ← split_or_raise url;
  if negb (bool_decide (su_scheme parts = "https")) || bool_decide (default "" (su_hostname parts) = "") then Ok false
  else
    let query_keys := (λ kv : string * string, lower kv.1) <$> parse_qsl (su_query parts) in
    let has (k : string) := bool_decide (k ∈ query_keys) in
    if existsb has AUTH_REJECT_QUERY_KEYS then Ok false
    else Ok (path_hint (su_path parts) || (has "state" && existsb has ["client_id"; "redirect_uri"; "code"])).

Definition mask_pair (kv : string * string) : string * string :=
  (kv.1, if bool_decide (lower kv.1 ∈ SECRET_QUERY_KEYS) then REDACTED else kv.2).

(** [_redact_url_query] *)
Definition redact_url_query (url : string) : result string :=
  parts ← split_or_raise url;
  Ok (urlunsplit (su_scheme parts) (su_netloc parts) (su_path parts)
        (urlencode (mask_pair <$> parse_qsl (su_query parts))) (su_fragment parts)).

(** A URL as evidence shows it: an authorization URL as it is, any other with its query masked. *)
Definition shown_url (url : string) : result string :=
  auth ← is_authorization_url url;
  if (auth : bool) then Ok url else redact_url_query url.

Context `{RegexEngine}.

(** [redact_fragment] *)
Definition redact_fragment (fragment : string) : string :=
  replace_str SECRET_MARKER REDACTED
    (redact_text (mkRedactionContext false false) (env_secret_sub SECRET_MARKER (auth_value_sub SECRET_MARKER fragment))).

(** The loop over the matches. *)
Fixpoint redact_matches (matches : list (string * string)) : result string :=
  match matches with
  | [] => Ok ""
  | (before, url) :: matches' =>
      shown ← shown_url url;
      rest ← redact_matches matches';
      Ok (redact_fragment before +:+ shown +:+ rest)
  end.

(** [redact_execution_evidence_text] *)
Definition redact_execution_evidence_text (value : string) : result string :=
  let (matches, last) := url_matches value in
  body ← redact_matches matches;
  Ok (body +:+ redact_fragment last).

End urls.

Definition TRUNCATED_MARKER : string :=
  String (Ascii.ascii_of_nat 10) ("...<truncated>" +:+ String (Ascii.ascii_of_nat 10) "").

(** [_bounded] *)
Definition bounded (max_bytes : Z) (value : string) : string :=
  if Z.of_nat (String.length value) <=? max_bytes then value
  else
    let marker := Z.of_nat (String.length TRUNCATED_MARKER) in
    let head := (max_bytes - marker) / 2 in
    let tail := max_bytes - marker - head in
    decode_ignore (slice_to head value) +:+ TRUNCATED_MARKER +:+ decode_ignore (slice_last tail value).

(** ** Records *)

(** One entry of [links]. *)
Record EvidenceLink := mkEvidenceLink { el_url : string; el_kind : string; el_expiresAtMs : option Z }.

Record ExecutionEvidenceRecord := mkEvidence {
  er_evidenceRef : string; er_principalId : string; er_appName : string; er_userId : string;
  er_sessionId : string; er_invocationId : string; er_toolCallId : string;
  er_command : string; er_workingDirectory : string; er_output : string; er_outputStream : string;
  er_links : list EvidenceLink; er_expiresAtMs : Z;
}.

Definition link_val (l : EvidenceLink) : pyval :=
  PDict [("url", PStr (el_url l)); ("kind", PStr (el_kind l)); ("expiresAtMs", opt_int_val (el_expiresAtMs l))].

(** [ExecutionEvidenceRecord.public] *)
Definition public (r : ExecutionEvidenceRecord) : pydict :=
  [("evidenceRef", PStr (er_evidenceRef r)); ("sessionId", PStr (er_sessionId r));
   ("invocationId", PStr (er_invocationId r)); ("toolCallId", PStr (er_toolCallId r));
   ("command", PStr (er_command r)); ("workingDirectory", PStr (er_workingDirectory r));
   ("output", PStr (er_output r)); ("outputStream", PStr (er_outputStream r));
   ("links", PList (link_val <$> er_links r)); ("expiresAtMs", PInt (er_expiresAtMs r))].

(** [ExecutionEvidenceStore._records] *)
Notation EvidenceStore := (dict string ExecutionEvidenceRecord).

(** [replace(record, command="", workingDirectory="", output="", links=())] *)
Definition erased (r : ExecutionEvidenceRecord) : ExecutionEvidenceRecord :=
  mkEvidence (er_evidenceRef r) (er_principalId r) (er_appName r) (er_userId r) (er_sessionId r) (er_invocationId r)
    (er_toolCallId r) "" "" "" (er_outputStream r) [] (er_expiresAtMs r).

(** [record.command or record.workingDirectory or record.output or record.links] *)
Definition has_content (r : ExecutionEvidenceRecord) : bool :=
  negb (bool_decide (er_command r = "")) || negb (bool_decide (er_workingDirectory r = "")) ||
  negb (bool_decide (er_output r = "")) || match er_links r with [] => false | _ => true end.

(** One iteration of [_purge_expired_content]. *)
Definition purged (now : Z) (r : ExecutionEvidenceRecord) : ExecutionEvidenceRecord :=
  if (now <? er_expiresAtMs r) || negb (has_content r) then r else erased r.

(** [_purge_expired_content]; [now] is its reading of the clock. *)
Definition purge_expired_content (now : Z) (s : EvidenceStore) : EvidenceStore :=
  (λ kv : string * ExecutionEvidenceRecord, (kv.1, purged now kv.2)) <$> s.

(** [expired]; [now] is its reading of the clock. *)
Definition expired (now : Z) (r : ExecutionEvidenceRecord) : bool := er_expiresAtMs r <=? now.

(** ** Operations *)

(** The arguments of [put] ([evidence_ref or ...] and [expires_at_ms or ...] decide what the
    optional ones mean). *)
Record put_args := mkPutArgs {
  pa_principal_id : string; pa_app_name : string; pa_user_id : string; pa_session_id : string;
  pa_invocation_id : string; pa_tool_call_id : string; pa_command : string; pa_working_directory : string;
  pa_output : string; pa_evidence_ref : option string; pa_expires_at_ms : option Z;
}.

Section store.
Context `{EvidenceLib} `{RegexEngine}.

Definition newline_char : string := String (Ascii.ascii_of_nat 10) "".

(** [_URL_RE.findall(f"{command}\n{output}")[:32]] *)
Definition raw_urls (command output : string) : list string :=
  take 32 ((url_matches (command +:+ newline_char +:+ output)).1.*2).

(** The list of expiries of the URLs that carry one. *)
Fixpoint auth_expiries (urls : list string) : result (list Z) :=
  match urls with
  | [] => Ok []
  | url :: urls' =>
      e ← authorization_expiry_ms url;
      rest ← auth_expiries urls';
      Ok (match e with Some z => z :: rest | None => rest end)
  end.

(** [min([e, *es])] *)
Definition min_list (e : Z) (es : list Z) : Z := foldl Z.min e es.

(** The entry of [links] for a URL. *)
Definition link_of (expires : Z) (url : string) : result EvidenceLink :=
  auth ← is_authorization_url url;
  if (auth : bool) then
    expiry ← authorization_expiry_ms url;
    Ok (mkEvidenceLink url "authorization" (Some (default expires expiry)))
  else
    shown ← redact_url_query url;
    Ok (mkEvidenceLink shown "ordinary" None).

Fixpoint links_of (expires : Z) (urls : list string) : result (list EvidenceLink) :=
  match urls with
  | [] => Ok []
  | url :: urls' => l ← link_of expires url; rest ← links_of expires urls'; Ok (l :: rest)
  end.

(** The record [put] builds at the time [now]; [fresh] is the generated reference. *)
Definition build_record (now : Z) (fresh : string) (a : put_args) : result ExecutionEvidenceRecord :=
  let urls := raw_urls (pa_command a) (pa_output a) in
  expiries ← auth_expiries urls;
  let latest := now + DEFAULT_EVIDENCE_TTL_MS in
  let asked := match pa_expires_at_ms a with Some 0 | None => latest | Some e => e end in
  let expires := min_list asked (latest :: expiries) in
  safe_command ← redact_execution_evidence_text (pa_command a);
  safe_directory ← redact_execution_evidence_text (pa_working_directory a);
  safe_output ← redact_execution_evidence_text (pa_output a);
  links ← links_of expires urls;
  let ref := match pa_evidence_ref a with Some EmptyString | None => fresh | Some r => r end in
  Ok (mkEvidence ref (pa_principal_id a) (pa_app_name a) (pa_user_id a) (pa_session_id a) (pa_invocation_id a)
        (pa_tool_call_id a) safe_command safe_directory (bounded MAX_EVIDENCE_BYTES safe_output) "combined" links expires).

Definition evidence_m (A : Type) : Type := M EvidenceStore A.

(** [put]: [t0] and [now] are its two readings of the clock. *)
Definition put (t0 now : Z) (fresh : string) (a : put_args) : evidence_m ExecutionEvidenceRecord :=
  _ ← modify (purge_expired_content t0);
  record ← lift (build_record now fresh a);
  _ ← modify (dset (er_evidenceRef record) record);
  mret record.

(** [get] *)
Definition get (t0 : Z) (evidence_ref : string) : evidence_m (option ExecutionEvidenceRecord) :=
  _ ← modify (purge_expired_content t0);
  gets (dget evidence_ref).

(** What [update_output] makes of a live record. *)
Definition with_output (output : string) (r : ExecutionEvidenceRecord) : result ExecutionEvidenceRecord :=
  let urls := raw_urls (er_command r) output in
  expiries ← auth_expiries urls;
  let expires := min_list (er_expiresAtMs r) expiries in
  links ← links_of expires urls;
  safe_output ← redact_execution_evidence_text output;
  Ok (mkEvidence (er_evidenceRef r) (er_principalId r) (er_appName r) (er_userId r) (er_sessionId r) (er_invocationId r)
        (er_toolCallId r) (er_command r) (er_workingDirectory r) (bounded MAX_EVIDENCE_BYTES safe_output)
        (er_outputStream r) links expires).

(** [update_output]: [t0] and [t1] are the readings of the purge and of [expired]; the third
    one is not used. *)
Definition update_output (t0 t1 : Z) (evidence_ref output : string) : evidence_m (option ExecutionEvidenceRecord) :=
  _ ← modify (purge_expired_content t0);
  found ← gets (dget evidence_ref);
  match found with
  | None => mret None
  | Some record =>
      if expired t1 record then mret None
      else
        updated ← lift (with_output output record);
        _ ← modify (dset evidence_ref updated);
        mret (Some updated)
  end.

(** [delete_session] *)
Definition delete_evidence (session_id : string) : evidence_m unit :=
  modify (keep (λ kv : string * ExecutionEvidenceRecord, negb (bool_decide (er_sessionId kv.2 = session_id)))).

End store.

(** ** The evidence route *)

Section route.
Context `{EvidenceLib} `{RegexEngine}.

(** [_resolve_visible_invocation] *)
Definition resolve_visible_invocation (p : Principal) (session_id invocation_id : string) (s : MemoryStore) : result InvocationRecord :=
  let not_found := Raise (haas_error "haas_invocation_not_found") in
  match invocation_at invocation_id s with
  | None => not_found
  | Some invocation =>
      if negb (bool_decide (i_sessionId invocation = session_id)) then not_found
      else if negb (owns p None None (Some (i_userId invocation))) then Raise (haas_error "session_not_found")
      else if negb (bool_decide (i_appName invocation ∈ h_id <$> list_harnesses (Some (account_of p)) s)) then not_found
      else match dget (i_appName invocation, i_userId invocation, session_id) (st_sessions s) with
           | None => not_found
           | Some _ => Ok invocation
           end
  end.

Definition same_scope (p : Principal) (i : InvocationRecord) (session_id invocation_id tool_call_id : string) (r : ExecutionEvidenceRecord) : bool :=
  bool_decide (er_principalId r = pr_principalId p) && bool_decide (er_appName r = i_appName i) &&
  bool_decide (er_userId r = i_userId i) && bool_decide (er_sessionId r = session_id) &&
  bool_decide (er_invocationId r = invocation_id) && bool_decide (er_toolCallId r = tool_call_id).

(** [get_execution_evidence]: [t0] and [t1] are the readings of [get] and of [expired]. *)
Definition get_execution_evidence (t0 t1 : Z) (p : Principal) (session_id invocation_id tool_call_id evidence_ref : string)
    (store : MemoryStore) : evidence_m pydict :=
  invocation ← lift (resolve_visible_invocation p session_id invocation_id store);
  found ← get t0 evidence_ref;
  match found with
  | None => raise (haas_error "haas_execution_evidence_not_found")
  | Some record =>
      if negb (same_scope p invocation session_id invocation_id tool_call_id record)
      then raise (haas_error "haas_execution_evidence_not_found")
      else if expired t1 record then raise (haas_error "haas_execution_evidence_expired")
      else mret (public record)
  end.

End route.

(** ** Lookups after a purge *)

Lemma dget_purged now ref s : dget ref (purge_expired_content now s) = purged now <$> dget ref s.
Proof. induction s as [|[k r] s IH]; cbn; [done|]. by case_decide. Qed.

Lemma dget_keep_Some {V} (p : string * V → bool) ref (s : dict string V) r :
  dict_wf s → dget ref (keep p s) = Some r → dget ref s = Some r.
Proof.
  intros Hwf Hr. apply elem_dget; [done|]. apply dget_Some_elem in Hr. by apply elem_of_keep in Hr as [_ ?].
Qed.

(** The same scope, and an expiry that is not later. *)
Definition aged (r r' : ExecutionEvidenceRecord) : Prop :=
  er_evidenceRef r' = er_evidenceRef r ∧ er_principalId r' = er_principalId r ∧ er_appName r' = er_appName r ∧
  er_userId r' = er_userId r ∧ er_sessionId r' = er_sessionId r ∧ er_invocationId r' = er_invocationId r ∧
  er_toolCallId r' = er_toolCallId r ∧ er_expiresAtMs r' <= er_expiresAtMs r.

#[export] Instance aged_preorder : PreOrder aged.
Proof.
  split; [intros r; unfold aged; split_and!; [done..|lia]|]. intros a b c Hab Hbc. unfold aged in *. destruct_and!. split_and!; [congruence..|lia].
Qed.

Lemma purged_aged now r : aged r (purged now r).
Proof. unfold purged. by case_if. Qed.

(** What is left of a record is nothing but its scope. *)
Definition tombstone (r : ExecutionEvidenceRecord) : Prop :=
  er_command r = "" ∧ er_workingDirectory r = "" ∧ er_output r = "" ∧ er_links r = [].

Lemma purged_tombstone now r : er_expiresAtMs r <= now → tombstone (purged now r).
Proof.
  intros Hle. unfold purged. destruct (Z.ltb_spec now (er_expiresAtMs r)); [lia|]. cbn [orb].
  destruct (has_content r) eqn:Hc; [done|]. unfold has_content in Hc. bsimp. split_and!; [done..|]. by repeat case_match.
Qed.

Lemma purged_live now r : now < er_expiresAtMs r → purged now r = r.
Proof. intros Hlt. unfold purged. by rewrite (proj2 (Z.ltb_lt _ _) Hlt). Qed.

Lemma min_list_le e es : min_list e es <= e ∧ ∀ x, x ∈ es → min_list e es <= x.
Proof.
  unfold min_list. revert e. induction es as [|y es IH]; intros e; cbn; [split; [lia|set_solver]|].
  destruct (IH (Z.min e y)) as [H1 H2]. split; [lia|]. intros x [->|Hx]%elem_of_cons; [lia|by apply H2].
Qed.

(** ** Sequences of operations *)

Section sequences.
Context `{EvidenceLib} `{RegexEngine}.

Inductive evidence_op : Type :=
  | EPut (t0 now : Z) (fresh : string) (a : put_args)
  | EGet (t0 : Z) (evidence_ref : string)
  | EUpdate (t0 t1 : Z) (evidence_ref output : string)
  | EDelete (session_id : string).

Definition evidence_step (s : EvidenceStore) (op : evidence_op) : EvidenceStore :=
  match op with
  | EPut t0 now fresh a => (put t0 now fresh a s).1
  | EGet t0 ref => (get t0 ref s).1
  | EUpdate t0 t1 ref output => (update_output t0 t1 ref output s).1
  | EDelete sid => (delete_evidence sid s).1
  end.
Definition evidence_run (s : EvidenceStore) (ops : list evidence_op) : EvidenceStore := foldl evidence_step s ops.

(** The reference a [put] writes to. *)
Definition chosen_ref (fresh : string) (a : put_args) : string :=
  match pa_evidence_ref a with Some EmptyString | None => fresh | Some r => r end.
Definition writes (ref : string) (op : evidence_op) : bool :=
  match op with EPut _ _ fresh a => bool_decide (chosen_ref fresh a = ref) | _ => false end.

Lemma build_record_fields now fresh a r :
  build_record now fresh a = Ok r →
  er_evidenceRef r = chosen_ref fresh a ∧ er_expiresAtMs r <= now + DEFAULT_EVIDENCE_TTL_MS ∧
  ∃ expiries, auth_expiries (raw_urls (pa_command a) (pa_output a)) = Ok expiries ∧ ∀ e, e ∈ expiries → er_expiresAtMs r <= e.
Proof.
  unfold build_record.
  intros (es & He & (c & _ & (d & _ & (o & _ & (ls & _ & [= <-])%bind_Ok)%bind_Ok)%bind_Ok)%bind_Ok)%bind_Ok. cbn.
  split; [done|]. set (asked := match pa_expires_at_ms a with Some 0 | None => _ | Some e => e end).
  destruct (min_list_le asked (now + DEFAULT_EVIDENCE_TTL_MS :: es)) as [_ Hm]. split; [by apply Hm; left|].
  exists es. split; [done|]. intros e Hin. by apply Hm; right.
Qed.

Lemma with_output_aged output r r' : with_output output r = Ok r' → aged r r'.
Proof.
  intros (es & He & (ls & _ & (o & _ & [= <-])%bind_Ok)%bind_Ok)%bind_Ok.
  destruct (min_list_le (er_expiresAtMs r) es) as [Hm _]. by repeat split.
Qed.

Lemma evidence_step_aged ref s op r' :
  dict_wf s → writes ref op = false → dget ref (evidence_step s op) = Some r' → ∃ r, dget ref s = Some r ∧ aged r r'.
Proof.
  assert (∀ now s, dget ref (purge_expired_content now s) = Some r' → ∃ r, dget ref s = Some r ∧ aged r r') as Hpurge.
  { intros now s'. rewrite dget_purged. intros (r & ? & ->)%fmap_Some. exists r. split; [done|apply purged_aged]. }
  intros Hwf Hw. destruct op as [t0 now fresh a|t0 ref'|t0 t1 ref' output|sid]; cbn in *.
  - unfold put, mbind, M_bind, modify, lift. cbn. destruct (build_record now fresh a) as [r|e] eqn:Hb; cbn; [|apply Hpurge].
    apply build_record_fields in Hb as (Href & _). bsimp. rewrite dget_dset_ne by congruence. apply Hpurge.
  - apply Hpurge.
  - unfold update_output, mbind, M_bind, modify, gets, lift. cbn.
    destruct (dget ref' _) as [record|] eqn:Hf; cbn; [|apply Hpurge].
    destruct (expired t1 record); cbn; [apply Hpurge|].
    destruct (with_output output record) as [u|e] eqn:Hu; cbn; [|apply Hpurge].
    destruct (decide (ref = ref')) as [->|Hne]; [|rewrite dget_dset_ne by done; apply Hpurge].
    rewrite dget_dset_eq. intros [= <-]. rewrite dget_purged in Hf. apply fmap_Some in Hf as (r & ? & ->).
    exists r. split; [done|]. etrans; [apply purged_aged|by eapply with_output_aged].
  - intros Hr%dget_keep_Some; [|done]. by exists r'.
Qed.

Lemma evidence_step_wf s op : dict_wf s → dict_wf (evidence_step s op).
Proof.
  assert (∀ now, dict_wf s → dict_wf (purge_expired_content now s)) as Hp.
  { intros now. unfold dict_wf, purge_expired_content, dkeys. by rewrite <-list_fmap_compose. }
  intros Hwf. destruct op as [t0 now fresh a|t0 ref'|t0 t1 ref' output|sid]; cbn.
  - unfold put, mbind, M_bind, modify, lift. cbn. destruct (build_record now fresh a); cbn; [apply dict_wf_dset|]; by apply Hp.
  - by apply Hp.
  - unfold update_output, mbind, M_bind, modify, gets, lift. cbn.
    destruct (dget ref' _) as [record|]; cbn; [|by apply Hp]. destruct (expired t1 record); cbn; [by apply Hp|].
    destruct (with_output output record); cbn; [apply dict_wf_dset|]; by apply Hp.
  - by apply keep_NoDup_fmap.
Qed.

Lemma evidence_run_aged ref s ops r' :
  dict_wf s → forallb (λ op, negb (writes ref op)) ops = true → dget ref (evidence_run s ops) = Some r' →
  ∃ r, dget ref s = Some r ∧ aged r r'.
Proof.
  unfold evidence_run. revert s. induction ops as [|op ops IH]; intros s Hwf; cbn; [by exists r'|].
  intros [Hw Hops]%andb_true_iff (r & Hr & Ha)%IH; [|by apply evidence_step_wf|done]. bsimp.
  destruct (evidence_step_aged ref s op r Hwf) as (r0 & ? & ?); [done..|]. exists r0. split; [done|by etrans].
Qed.

End sequences.

(** ** Claims *)

Lemma get_eq now ref s : get now ref s = (purge_expired_content now s, Ok (purged now <$> dget ref s)).
Proof. rewrite <-dget_purged. done. Qed.

Section claims.
Context `{EvidenceLib} `{RegexEngine}.

(** C17: Evidence does not outlive its expiry.  A stored record expires a quarter of an hour after it was
    put at the latest, and no later than any expiry its URLs carry.  Whatever happens afterwards
    (reads, output updates, other records, deletions), as long as its reference is not put again, a
    read at or after the expiry finds nothing or the bare scope: no command, directory, output
    or link, and the record counts as expired. *)
Theorem evidence_gone_after_expiry s t0 now fresh a r ops T :
  dict_wf s → (put t0 now fresh a s).2 = Ok r →
  forallb (λ op, negb (writes (er_evidenceRef r) op)) ops = true →
  er_expiresAtMs r <= now + DEFAULT_EVIDENCE_TTL_MS ∧
  (∀ expiries e, auth_expiries (raw_urls (pa_command a) (pa_output a)) = Ok expiries → e ∈ expiries → er_expiresAtMs r <= e) ∧
  (er_expiresAtMs r <= T →
   match (get T (er_evidenceRef r) (evidence_run (put t0 now fresh a s).1 ops)).2 with
   | Ok None => True
   | Ok (Some r') => tombstone r' ∧ aged r r' ∧ expired T r' = true
   | Raise _ => False
   end).
Proof.
  intros Hwf Hput Hops. pose proof (evidence_step_wf s (EPut t0 now fresh a) Hwf) as Hwf1. cbn [evidence_step] in Hwf1.
  assert (build_record now fresh a = Ok r ∧ dget (er_evidenceRef r) (put t0 now fresh a s).1 = Some r) as [Hb Hr].
  { revert Hput. unfold put, mbind, M_bind, modify, lift. cbn. destruct (build_record now fresh a) as [r1|e]; cbn; [|done].
    intros [= <-]. by rewrite dget_dset_eq. }
  apply build_record_fields in Hb as (_ & Httl & es & Hes & Hle).
  split; [done|]. split; [intros es' e Hes' He; rewrite Hes in Hes'; injection Hes' as <-; by apply Hle|].
  intros HT. rewrite get_eq. cbn [snd]. destruct (dget _ (evidence_run _ ops)) as [r'|] eqn:E; cbn; [|done].
  destruct (evidence_run_aged _ _ _ _ Hwf1 Hops E) as (r0 & Hr0 & Ha). rewrite Hr in Hr0. injection Hr0 as <-.
  assert (er_expiresAtMs r' <= T) as Hexp by (destruct Ha as (_ & _ & _ & _ & _ & _ & _ & ?); lia).
  pose proof (purged_aged T r') as Hp. split; [by apply purged_tombstone|]. split; [by etrans|].
  unfold expired. apply Z.leb_le. destruct Hp as (_ & _ & _ & _ & _ & _ & _ & ?). lia.
Qed.

(** A link as the store may hold it: an authorization URL as it was, with none of the rejected
    keys in its query; or another URL rebuilt from a query whose secret keys hold the placeholder. *)
Definition link_safe (l : EvidenceLink) : Prop :=
  match el_kind l with
  | "authorization" => is_Some (el_expiresAtMs l) ∧ ∃ parts, urlsplit (el_url l) = Some parts ∧ su_scheme parts = "https" ∧
      ∀ k v, (k, v) ∈ parse_qsl (su_query parts) → lower k ∉ AUTH_REJECT_QUERY_KEYS
  | "ordinary" => el_expiresAtMs l = None ∧ ∃ scheme netloc path fragment pairs,
      el_url l = urlunsplit scheme netloc path (urlencode pairs) fragment ∧
      ∀ k v, (k, v) ∈ pairs → lower k ∈ SECRET_QUERY_KEYS → v = REDACTED
  | _ => False
  end.

Definition record_safe (ref : string) (r : ExecutionEvidenceRecord) : Prop :=
  er_evidenceRef r = ref ∧ Z.of_nat (String.length (er_output r)) <= MAX_EVIDENCE_BYTES ∧
  (length (er_links r) <= 32)%nat ∧ Forall link_safe (er_links r).

Definition evidence_inv (s : EvidenceStore) : Prop :=
  dict_wf s ∧ ∀ ref r, dget ref s = Some r → record_safe ref r.

Lemma bounded_length max_bytes value :
  17 <= max_bytes → Z.of_nat (String.length (bounded max_bytes value)) <= max_bytes.
Proof.
  intros Hle. unfold bounded. destruct (Z.leb_spec (Z.of_nat (String.length value)) max_bytes); [done|].
  change (String.length TRUNCATED_MARKER) with 16%nat. change (Z.of_nat 16) with 16.
  pose proof (halves_length 16 max_bytes value) as Hh. cbn zeta in Hh. rewrite !string_length_app.
  change (String.length TRUNCATED_MARKER) with 16%nat. lia.
Qed.

Lemma authorization_url_parts url :
  is_authorization_url url = Ok true →
  ∃ parts, urlsplit url = Some parts ∧ su_scheme parts = "https" ∧
    ∀ k v, (k, v) ∈ parse_qsl (su_query parts) → lower k ∉ AUTH_REJECT_QUERY_KEYS.
Proof.
  unfold is_authorization_url, split_or_raise. intros (parts & Hp & Hb)%bind_Ok.
  destruct (urlsplit url) as [parts'|] eqn:E; [|done]. injection Hp as ->. exists parts. split; [done|].
  destruct (bool_decide (su_scheme parts = "https")) eqn:Hs; [|done]. cbn [negb orb] in Hb. bsimp. split; [done|].
  destruct (bool_decide (default "" (su_hostname parts) = "")); [done|].
  destruct (existsb _ AUTH_REJECT_QUERY_KEYS) eqn:Hrej; [done|]. intros k v Hkv Hk.
  apply not_true_iff_false in Hrej. apply Hrej, existsb_exists. exists (lower k). split; [by apply list_elem_of_In|].
  apply bool_decide_eq_true, list_elem_of_fmap. by exists (k, v).
Qed.

Lemma redact_url_query_parts url shown :
  redact_url_query url = Ok shown →
  ∃ scheme netloc path fragment pairs, shown = urlunsplit scheme netloc path (urlencode pairs) fragment ∧
    ∀ k v, (k, v) ∈ pairs → lower k ∈ SECRET_QUERY_KEYS → v = REDACTED.
Proof.
  unfold redact_url_query. intros (parts & _ & [= <-])%bind_Ok. eexists _, _, _, _, _. split; [done|].
  intros k v ([k' v'] & [= -> ->] & _)%list_elem_of_fmap Hk. cbn in *. by rewrite bool_decide_eq_true_2.
Qed.

Lemma link_of_safe expires url l : link_of expires url = Ok l → link_safe l.
Proof.
  unfold link_of. intros (auth & Ha & Hl)%bind_Ok. destruct auth.
  - destruct (authorization_expiry_ms url); [|done]. injection Hl as <-. cbn. split; [by eexists|]. by apply authorization_url_parts.
  - apply bind_Ok in Hl as (shown & Hs & [= <-]). cbn. split; [done|]. by eapply redact_url_query_parts.
Qed.

Lemma links_of_safe expires urls ls : links_of expires urls = Ok ls → Forall link_safe ls ∧ length ls = length urls.
Proof.
  revert ls. induction urls as [|url urls IH]; intros ls; cbn; [by intros [= <-]|].
  intros (l & Hl & (rest & [Hr Hlen]%IH & [= <-])%bind_Ok)%bind_Ok. split; [|cbn; by rewrite Hlen].
  constructor; [by eapply link_of_safe|done].
Qed.

Lemma raw_urls_length command output : (length (raw_urls command output) <= 32)%nat.
Proof. unfold raw_urls. rewrite length_take. lia. Qed.

Lemma rebuilt_safe ref r expires urls output ls :
  links_of expires urls = Ok ls → (length urls <= 32)%nat → er_evidenceRef r = ref →
  er_output r = bounded MAX_EVIDENCE_BYTES output → er_links r = ls → record_safe ref r.
Proof.
  intros [Hs Hlen]%links_of_safe Hu <- Ho <-. split; [done|]. split; [rewrite Ho; by apply bounded_length|]. split; [lia|done].
Qed.

Lemma build_record_safe now fresh a r : build_record now fresh a = Ok r → record_safe (er_evidenceRef r) r.
Proof.
  unfold build_record.
  intros (es & He & (c & _ & (d & _ & (o & _ & (ls & Hls & [= <-])%bind_Ok)%bind_Ok)%bind_Ok)%bind_Ok)%bind_Ok.
  eapply rebuilt_safe; [exact Hls|apply raw_urls_length|done..].
Qed.

Lemma with_output_safe output r r' : with_output output r = Ok r' → record_safe (er_evidenceRef r) r'.
Proof.
  intros (es & He & (ls & Hls & (o & _ & [= <-])%bind_Ok)%bind_Ok)%bind_Ok.
  eapply rebuilt_safe; [exact Hls|apply raw_urls_length|done..].
Qed.

Lemma purged_safe now ref r : record_safe ref r → record_safe ref (purged now r).
Proof.
  intros (Hr & Ho & Hl & Hs). unfold purged. case_if; [by split_and!|].
  split; [done|]. split; [by vm_compute|]. split; [cbn; lia|apply Forall_nil_2].
Qed.

(** C18: Along any sequence of operations from an empty store every record is filed under its own
    reference, holds at most [MAX_EVIDENCE_BYTES] of output and at most 32 links; a link offered
    for authorization is an https URL without any of the rejected query keys, and every other
    link was rebuilt from a query in which each secret key holds the placeholder. *)
Theorem evidence_stays_safe ops : evidence_inv (evidence_run [] ops).
Proof.
  assert (∀ s now, evidence_inv s → evidence_inv (purge_expired_content now s)) as Hpurge.
  { intros s now [Hwf Hs]. split; [by apply (evidence_step_wf s (EGet now ""))|].
    intros ref r. rewrite dget_purged. intros (r0 & Hr0%Hs & ->)%fmap_Some. by apply purged_safe. }
  assert (∀ s ref r, evidence_inv s → record_safe ref r → evidence_inv (dset ref r s)) as Hset.
  { intros s ref r [Hwf Hs] Hr. split; [by apply dict_wf_dset|]. intros ref' r'. rewrite dget_dset. case_decide; [|apply Hs]. naive_solver. }
  assert (∀ s op, evidence_inv s → evidence_inv (evidence_step s op)) as Hstep.
  { intros s [t0 now fresh a|t0 ref'|t0 t1 ref' output|sid] Hi; cbn.
    - unfold put, mbind, M_bind, modify, lift. cbn. destruct (build_record now fresh a) as [r|e] eqn:Hb; cbn; [|by apply Hpurge].
      apply Hset; [by apply Hpurge|by eapply build_record_safe].
    - by apply Hpurge.
    - unfold update_output, mbind, M_bind, modify, gets, lift. cbn. pose proof (Hpurge s t0 Hi) as [Hwf Hp].
      destruct (dget ref' _) as [record|] eqn:Hf; cbn; [|done]. destruct (expired t1 record); cbn; [done|].
      destruct (with_output output record) as [u|e] eqn:Hu; cbn; [|done]. apply Hset; [done|].
      destruct (Hp _ _ Hf) as (<- & _). by eapply with_output_safe.
    - destruct Hi as [Hwf Hs]. split; [by apply keep_NoDup_fmap|]. intros ref r Hr%dget_keep_Some; [by apply Hs|done]. }
  assert (∀ s, evidence_inv s → evidence_inv (evidence_run s ops)) as Hrun.
  { unfold evidence_run. induction ops as [|op l IH]; intros s Hi; cbn; [done|]. by apply IH, Hstep. }
  apply Hrun. split; [constructor|done].
Qed.

(** The caller owns the invocation's user, sees its app, and its session is stored. *)
Definition invocation_visible (p : Principal) (session_id invocation_id : string) (store : MemoryStore) (i : InvocationRecord) : Prop :=
  invocation_at invocation_id store = Some i ∧ i_sessionId i = session_id ∧
  owns p None None (Some (i_userId i)) = true ∧ i_appName i ∈ h_id <$> list_harnesses (Some (account_of p)) store ∧
  is_Some (dget (i_appName i, i_userId i, session_id) (st_sessions store)).

Lemma resolve_visible_spec p sid iid store :
  match resolve_visible_invocation p sid iid store with
  | Ok i => invocation_visible p sid iid store i
  | Raise e => (∀ i, ¬ invocation_visible p sid iid store i) ∧ (e = haas_error "haas_invocation_not_found" ∨ e = haas_error "session_not_found")
  end.
Proof.
  unfold resolve_visible_invocation, invocation_visible.
  destruct (invocation_at iid store) as [i|]; [|split; [by intros i (? & _)|by left]].
  destruct (bool_decide (i_sessionId i = sid)) eqn:Hs; bsimp; cbn [negb]; [|split; [by intros i' ([= <-] & ? & _)|by left]].
  destruct (owns p _ _ _) eqn:Ho; cbn [negb]; [|split; [intros i' ([= <-] & _ & ? & _); congruence|by right]].
  destruct (bool_decide (i_appName i ∈ _)) eqn:Ha; bsimp; cbn [negb]; [|split; [by intros i' ([= <-] & _ & _ & ? & _)|by left]].
  destruct (dget _ _) eqn:Hd; [by eauto 10|].
  split; [|by left]. intros i' ([= <-] & _ & _ & _ & [l Hl]). congruence.
Qed.

(** Evidence is shown to nobody but its owner, and only while it is live.  The route answers with a
    record's public form exactly when the invocation is visible to the caller, the record was
    written for this principal, app, user, session, invocation and tool call, and it has not
    expired; it says that evidence has expired only of a record of that scope, and in every
    other case it answers that there is none. *)
Theorem evidence_scoped t0 t1 p sid iid tool ref store s :
  t0 <= t1 →
  let found := ∃ i r, invocation_visible p sid iid store i ∧ dget ref s = Some r ∧ same_scope p i sid iid tool r = true in
  (∀ d, (get_execution_evidence t0 t1 p sid iid tool ref store s).2 = Ok d ↔
     ∃ i r, invocation_visible p sid iid store i ∧ dget ref s = Some r ∧ same_scope p i sid iid tool r = true ∧
       t1 < er_expiresAtMs r ∧ d = public r) ∧
  (∀ e, (get_execution_evidence t0 t1 p sid iid tool ref store s).2 = Raise e →
     (e = haas_error "haas_execution_evidence_expired" ∧ found) ∨
     (e ∈ [haas_error "haas_invocation_not_found"; haas_error "session_not_found"; haas_error "haas_execution_evidence_not_found"] ∧ ¬ found)).
Proof.
  intros Ht found. unfold get_execution_evidence.
  pose proof (resolve_visible_spec p sid iid store) as Hv. unfold mbind, M_bind, lift, raise, mret, M_ret.
  destruct (resolve_visible_invocation p sid iid store) as [i|e]; cbv beta iota; cbn [fst snd].
  2: { destruct Hv as [Hn He]. split; [intros d; split; [done|]; intros (i & _ & Hi & _); by destruct (Hn i)|].
       intros e' [= <-]. right. split; [set_solver|]. intros (i & _ & Hi & _). by apply (Hn i). }
  assert (∀ i', invocation_visible p sid iid store i' → i' = i) as Huniq.
  { intros i' (Hi' & _). destruct Hv as (Hi & _). congruence. }
  rewrite get_eq. destruct (dget ref s) as [r|] eqn:Hr; cbn [fmap option_fmap option_map]; cbv beta iota; cbn [snd].
  2: { split; [intros d; split; [done|]; by intros (? & r & _ & ? & _)|].
       intros e [= <-]. right. split; [set_solver|]. by intros (? & r & _ & ? & _). }
  assert (same_scope p i sid iid tool (purged t0 r) = same_scope p i sid iid tool r) as -> by (unfold purged; by case_if).
  assert (er_expiresAtMs (purged t0 r) = er_expiresAtMs r) as Hexp by (unfold purged; by case_if).
  unfold expired. rewrite Hexp. destruct (same_scope p i sid iid tool r) eqn:Hs; cbn [negb].
  2: { split; [intros d; split; [done|]; intros (i' & r' & ->%Huniq & [= <-] & Hs' & _); congruence|].
       intros e [= <-]. right. split; [set_solver|]. intros (i' & r' & ->%Huniq & [= <-] & Hs'). congruence. }
  destruct (Z.leb_spec (er_expiresAtMs r) t1) as [Hle|Hlt]; cbn.
  - split; [intros d; split; [done|]; intros (i' & r' & _ & [= <-] & _ & ? & _); lia|].
    intros e [= <-]. left. split; [done|]. by exists i, r.
  - rewrite purged_live by lia. split; [|done]. intros d. split; [intros [= <-]; by exists i, r|].
    by intros (i' & r' & _ & [= <-] & _ & _ & ->).
Qed.

End claims.

(** ** What the module leaves open *)

Section gaps.
Context `{EvidenceLib} `{RegexEngine}.

(** A command or output that holds a URL whose authority cannot be read (an unclosed bracket, for
    instance) makes [put] raise [ValueError] and stores nothing. *)
Theorem malformed_url_raises t0 now fresh a url s :
  url ∈ raw_urls (pa_command a) (pa_output a) → urlsplit url = None →
  put t0 now fresh a s = (purge_expired_content t0 s, Raise (ValueError "Invalid IPv6 URL")).
Proof.
  intros Hin Hbad. assert (auth_expiries (raw_urls (pa_command a) (pa_output a)) = Raise (ValueError "Invalid IPv6 URL")) as Hraise.
  { induction (raw_urls _ _) as [|u urls IH]; [by apply elem_of_nil in Hin|]. cbn [auth_expiries].
    destruct (decide (url = u)) as [<-|Hne].
    - unfold authorization_expiry_ms, split_or_raise. by rewrite Hbad.
    - assert (url ∈ urls) as Hin' by set_solver. rewrite (IH Hin').
      unfold authorization_expiry_ms, split_or_raise. destruct (urlsplit u); [|done]. cbn. by repeat case_if. }
  unfold put, build_record, mbind, M_bind, modify, lift. cbn. by rewrite Hraise.
Qed.

(** Any https URL whose path merely contains one of the four words, such as [/authors], counts as
    an authorization URL: a token in its query is kept in the evidence as it is. *)
Theorem path_word_keeps_token url netloc path host token :
  urlsplit url = Some (mkSplitUrl "https" netloc path ("token=" +:+ token) "" (Some host)) →
  parse_qsl ("token=" +:+ token) = [("token", token)] → host ≠ "" → path_hint path = true →
  shown_url url = Ok url.
Proof.
  intros Hs Hq Hh Hp. unfold shown_url.
  assert (is_authorization_url url = Ok true) as ->; [|done].
  unfold is_authorization_url, split_or_raise. rewrite Hs. cbn [mbind result_bind su_scheme su_hostname su_query su_path default].
  rewrite Hq, Hp, (bool_decide_eq_false_2 _ Hh). by vm_compute.
Qed.

Example authors_hint : path_hint "/authors/7" = true.
Proof. by vm_compute. Qed.

End gaps.

Module EvidenceExamples.
#[local] Existing Instance RedactExamples.engine.

Definition known : string := "https://a.example/docs?sig=s3cret".

(** A library that knows one URL. *)
#[local] Instance tiny : EvidenceLib := {|
  urlsplit u := if bool_decide (u = known) then Some (mkSplitUrl "https" "a.example" "/docs" "sig=s3cret" "" (Some "a.example")) else None;
  urlunsplit scheme netloc path query fragment := scheme +:+ "://" +:+ netloc +:+ path +:+ "?" +:+ query;
  parse_qsl query := if bool_decide (query = "sig=s3cret") then [("sig", "s3cret")] else [];
  urlencode pairs := join_with "&" ((λ kv : string * string, kv.1 +:+ "=" +:+ kv.2) <$> pairs);
  url_matches s := match String.index 0 known s with
                   | Some n => ([(take_bytes n s, known)], drop_str (n + String.length known) s)
                   | None => ([], s)
                   end;
  auth_value_sub _ s := s; env_secret_sub _ s := s;
  expiry_keys := ["exp"; "expires"; "expires_at"; "expiry"]; expiry_keys_set := Permutation_refl _;
|}.

Definition args : put_args :=
  mkPutArgs "alice" "app" "user" "sess" "inv" "call" ("curl " +:+ known) "/workspace" "done" None None.
Definition stored : ExecutionEvidenceRecord :=
  mkEvidence "evd_1" "alice" "app" "user" "sess" "inv" "call" "curl https://a.example/docs?sig=[REDACTED]" "/workspace" "done" "combined"
    [mkEvidenceLink "https://a.example/docs?sig=[REDACTED]" "ordinary" None] 900005.
Definition later : list evidence_op := [EUpdate 10 10 "evd_1" "more"; EGet 20 "evd_1"].

Lemma evidence_gone_after_expiry_witness :
  (put 5 5 "evd_1" args []).2 = Ok stored ∧
  (er_expiresAtMs stored <= 900005 →
   match (get 900005 "evd_1" (evidence_run (put 5 5 "evd_1" args []).1 later)).2 with
   | Ok None => True
   | Ok (Some r') => tombstone r' ∧ aged stored r' ∧ expired 900005 r' = true
   | Raise _ => False
   end).
Proof.
  split; [vm_compute; reflexivity|].
  refine (proj2 (proj2 (evidence_gone_after_expiry [] 5 5 "evd_1" args stored later 900005 _ _ _)));
    [apply NoDup_nil_2|vm_compute; reflexivity|vm_compute; reflexivity].
Defined.

Import RegistryExamples.

(** Alice's harness with one session and one invocation of it. *)
Definition running : InvocationRecord :=
  mkInvocation "inv" "sess" "chrn_a" "turn" "user" "running" None None None 1 0 None None None None None [] None.
Definition store : MemoryStore :=
  only_alice <| st_sessions := [("chrn_a", "user", "sess", 0%nat)] |> <| st_invocation_objs := [running] |>
             <| st_invocations := [("inv", 0%nat)] |>.
Definition record : ExecutionEvidenceRecord :=
  mkEvidence "evd_1" "alice" "chrn_a" "user" "sess" "inv" "call" "ls" "/workspace" "done" "combined" [] 900005.

Lemma evidence_scoped_witness :
  (get_execution_evidence 1 1 alice "sess" "inv" "call" "evd_1" store [("evd_1", record)]).2 = Ok (public record).
Proof.
  refine (proj2 (proj1 (evidence_scoped 1 1 alice "sess" "inv" "call" "evd_1" store [("evd_1", record)] (Z.le_refl 1)) (public record)) _).
  exists running, record. split; [|split; [vm_compute; reflexivity|split; [vm_compute; reflexivity|split; [vm_compute; reflexivity|reflexivity]]]].
  split; [vm_compute; reflexivity|]. split; [vm_compute; reflexivity|]. split; [vm_compute; reflexivity|].
  split; [vm_compute; left|]. exists 0%nat. vm_compute. reflexivity.
Defined.

End EvidenceExamples.
