(* ===== verification/ModelRoute.v ===== *)
(** * Model routes and usage (haas/model_proxy/models.py, route.py)

    Which provider endpoint a harness's model calls go to, the key that ties a runtime token
    to that endpoint, and the token counts read from provider responses.  The canonical JSON
    text and its SHA-256 are an interface. *)

From S2P Require Import Prelude Errors Dict PyVal Records Registry.

#[local] Open Scope string_scope.
#[local] Open Scope list_scope.
#[local] Open Scope Z_scope.

Record ModelRoute := mkRoute {
  mr_provider : string; mr_baseUrl : string; mr_model : string; mr_providerId : string; mr_name : string;
  mr_wireApi : string; mr_apiType : string; mr_credentialRef : string; mr_credentialFingerprint : string;
  mr_allowlistRuleId : string; mr_timeoutMs : Z; mr_streamIdleTimeoutMs : Z;
}.
#[export] Instance model_route_eq_dec : EqDecision ModelRoute.
Proof. solve_decision. Defined.

Record Usage := mkUsage {
  u_inputTokens : Z; u_outputTokens : Z; u_totalTokens : Z; u_cacheReadTokens : Z; u_cacheWriteTokens : Z;
}.

(** ["sha256:" + sha256(json.dumps(scope, sort_keys=True))] *)
Class ScopeDigest := scope_digest : pydict → string.

Section route.
Context `{PyRepr} `{ScopeDigest}.

Definition provider_scope_key (route : pydict) : string :=
  scope_digest
    [("providerId", PStr (str_or (pget "providerId" route) "")); ("name", PStr (str_or (pget "name" route) ""));
     ("baseUrl", PStr (str_or (pget "baseUrl" route) "")); ("wireApi", PStr (str_or (pget "wireApi" route) ""));
     ("apiType", PStr (str_or (pget "apiType" route) ""));
     ("credentialRef", PStr (str_or (pget "credentialRef" route) ""))].

(** [dataclasses.asdict(route)] *)
Definition route_asdict (r : ModelRoute) : pydict :=
  [("provider", PStr (mr_provider r)); ("baseUrl", PStr (mr_baseUrl r)); ("model", PStr (mr_model r));
   ("providerId", PStr (mr_providerId r)); ("name", PStr (mr_name r)); ("wireApi", PStr (mr_wireApi r));
   ("apiType", PStr (mr_apiType r)); ("credentialRef", PStr (mr_credentialRef r));
   ("credentialFingerprint", PStr (mr_credentialFingerprint r)); ("allowlistRuleId", PStr (mr_allowlistRuleId r));
   ("timeoutMs", PInt (mr_timeoutMs r)); ("streamIdleTimeoutMs", PInt (mr_streamIdleTimeoutMs r))].

(** [_provider_from_frozen] *)
Definition provider_from_frozen (route : pydict) : ProviderConfig :=
  mkProvider (str_or (pget "providerId" route) "") (str_or (pget "name" route) "")
    (str_or (pget "baseUrl" route) "") (str_or (pget "wireApi" route) "") (str_or (pget "apiType" route) "")
    (str_or (pget "credentialRef" route) "") (str_or (pget "credentialFingerprint" route) "")
    (str_or (pget "allowlistRuleId" route) "").

(** A falsy string in an [or] chain. *)
Definition or_else (o : option string) (rest : string) : string :=
  match o with Some (String _ _ as s) => s | _ => rest end.

Definition resolve_model_route (harness : HarnessRecord) (model : option string) (frozen_route : option pydict)
    : result ModelRoute :=
  let provider := match frozen_route with Some f => Some (provider_from_frozen f) | None => h_provider harness end in
  match provider with
  | None => Raise (ModelRouteError ("no model provider configured for harness " +:+ h_id harness)
                     (Some "haas_provider_not_configured"))
  | Some p =>
      if bool_decide (pc_baseUrl p = "")
      then Raise (ModelRouteError ("no model provider configured for harness " +:+ h_id harness)
                    (Some "haas_provider_not_configured"))
      else match validate_provider_config p with
           | Raise (ValueError msg) => Raise (ModelRouteError msg None)
           | Raise e => Raise e
           | Ok _ =>
               let frozen_model := match frozen_route with
                                   | Some ((_ :: _) as f) => Some (py_str (pget "model" f))
                                   | _ => None end in
               Ok {| mr_provider := pc_name p; mr_baseUrl := pc_baseUrl p;
                     mr_model := or_else model (or_else frozen_model (or_else (h_defaultModel harness) ""));
                     mr_providerId := pc_providerId p; mr_name := pc_name p; mr_wireApi := pc_wireApi p;
                     mr_apiType := pc_apiType p; mr_credentialRef := pc_credentialRef p;
                     mr_credentialFingerprint := pc_credentialFingerprint p;
                     mr_allowlistRuleId := pc_allowlistRuleId p; mr_timeoutMs := 300000;
                     mr_streamIdleTimeoutMs := 300000 |}
           end
  end.

End route.

(** ** Usage *)

(** The value at a dotted path of a dictionary. *)
Fixpoint dotted (parts : list string) (value : pyval) : pyval :=
  match parts with
  | [] => value
  | part :: parts' => match value with PDict d => dotted parts' (pget part d) | _ => PNone end
  end.

(** [_first_int]: booleans and other values are skipped. *)
Fixpoint first_int (usage : pydict) (keys : list string) : option Z :=
  match keys with
  | [] => None
  | key :: keys' =>
      match dotted (split_on (Ascii.ascii_of_nat 46) key) (PDict usage) with
      | PInt z => Some z
      | _ => first_int usage keys'
      end
  end.

Definition or_zero (o : option Z) : Z := default 0 o.

Definition normalize_usage (provider : string) (body : pyval) : option Usage :=
  match body with
  | PDict b =>
      match pget "usage" b with
      | PDict usage =>
          let input_tokens := first_int usage ["input_tokens"; "prompt_tokens"; "inputTokens"] in
          let output_tokens := first_int usage ["output_tokens"; "completion_tokens"; "outputTokens"] in
          let total_tokens := first_int usage ["total_tokens"; "totalTokens"] in
          let cache_read := first_int usage ["input_tokens_details.cached_tokens"; "cache_read_input_tokens"] in
          let cache_write := first_int usage ["cache_creation"; "cache_write_tokens"] in
          if negb (is_some input_tokens) && negb (is_some output_tokens) && negb (is_some total_tokens) then None
          else
            let total_tokens := match total_tokens, input_tokens, output_tokens with
                                | None, Some i, Some o => Some (i + o)
                                | t, _, _ => t end in
            Some (mkUsage (or_zero input_tokens) (or_zero output_tokens) (or_zero total_tokens)
                    (or_zero cache_read) (or_zero cache_write))
      | _ => None
      end
  | _ => None
  end.

(** ** A frozen route resolves to itself *)

Lemma str_or_PStr `{PyRepr} s : str_or (PStr s) "" = s.
Proof. by destruct s. Qed.

(** Evaluate the lookups in a route whose fields are known. *)
Ltac asdict_simp :=
  repeat match goal with
  | |- context [pget ?k (route_asdict ?r)] =>
      let v := eval vm_compute in (pget k (route_asdict r)) in change (pget k (route_asdict r)) with v
  end; cbn [mr_provider mr_baseUrl mr_model mr_providerId mr_name mr_wireApi mr_apiType mr_credentialRef
            mr_credentialFingerprint mr_allowlistRuleId mr_timeoutMs mr_streamIdleTimeoutMs].

Section frozen.
Context `{PyRepr} `{ScopeDigest}.

(** The six fields of the scope key. *)
Definition route_scope_key (r : ModelRoute) : string :=
  scope_digest [("providerId", PStr (mr_providerId r)); ("name", PStr (mr_name r)); ("baseUrl", PStr (mr_baseUrl r));
    ("wireApi", PStr (mr_wireApi r)); ("apiType", PStr (mr_apiType r)); ("credentialRef", PStr (mr_credentialRef r))].

Lemma scope_key_asdict r : provider_scope_key (route_asdict r) = route_scope_key r.
Proof. destruct r. unfold provider_scope_key, route_scope_key. asdict_simp. by rewrite !str_or_PStr. Qed.

Lemma provider_from_asdict r :
  provider_from_frozen (route_asdict r) =
  mkProvider (mr_providerId r) (mr_name r) (mr_baseUrl r) (mr_wireApi r) (mr_apiType r) (mr_credentialRef r)
    (mr_credentialFingerprint r) (mr_allowlistRuleId r).
Proof. destruct r. unfold provider_from_frozen. asdict_simp. by rewrite !str_or_PStr. Qed.

Lemma resolve_valid h m f r : resolve_model_route h m f = Ok r →
  mr_baseUrl r ≠ "" ∧ mr_provider r = mr_name r ∧
  mr_timeoutMs r = 300000 ∧ mr_streamIdleTimeoutMs r = 300000 ∧
  validate_provider_config (mkProvider (mr_providerId r) (mr_name r) (mr_baseUrl r) (mr_wireApi r) (mr_apiType r)
    (mr_credentialRef r) (mr_credentialFingerprint r) (mr_allowlistRuleId r)) = Ok tt.
Proof.
  unfold resolve_model_route.
  destruct (match f with Some f' => Some (provider_from_frozen f') | None => h_provider h end) as [p|]; [|done].
  destruct (bool_decide (pc_baseUrl p = "")) eqn:E; [done|]. bsimp.
  destruct (validate_provider_config p) as [[]|[]] eqn:Ev; try done. intros [= <-]. cbn. by destruct p.
Qed.

(** The route stored for a session is a fixed point of route resolution: resolving the stored form of a resolved
    route, for any harness and without a requested model, gives the same provider, endpoint
    and credential, and the same model unless none had been found; and its scope key, which
    ties runtime tokens to it, is the key of the resolved route. *)
Theorem frozen_route_is_stable h m f r h' :
  resolve_model_route h m f = Ok r →
  ∃ r', resolve_model_route h' None (Some (route_asdict r)) = Ok r' ∧
    (mr_model r ≠ "" → r' = r) ∧ (mr_model r = "" → mr_model r' = or_else (h_defaultModel h') "") ∧
    route_scope_key r' = route_scope_key r ∧ provider_scope_key (route_asdict r) = route_scope_key r.
Proof.
  intros (Hu & Hp & Ht1 & Ht2 & Hv)%resolve_valid. unfold resolve_model_route. rewrite provider_from_asdict. cbn [pc_baseUrl].
  rewrite bool_decide_eq_false_2 by done. rewrite Hv. eexists. split; [reflexivity|].
  rewrite scope_key_asdict. split_and!; [| |done|done].
  - intros Hm. destruct r; cbn in Hp, Ht1, Ht2, Hm. subst. asdict_simp. by destruct mr_model0.
  - intros Hm. destruct r; cbn in Hm. subst. asdict_simp. done.
Qed.
End frozen.

Module RouteExamples.
#[local] Instance repr : PyRepr := λ _, "".
#[local] Instance digest : ScopeDigest := λ d, pretty (N.of_nat (length d)).

Definition frozen : pydict :=
  [("providerId", PStr "p1"); ("name", PStr "ark"); ("baseUrl", PStr "https://ark.example/v3");
   ("wireApi", PStr "responses"); ("apiType", PStr "responses"); ("model", PStr "m1")].
Definition harness : HarnessRecord :=
  mkHarness "h1" "h" "codex" "active" (Some "dflt") "" None None None [] [] [] None None 1 0 0.

Lemma frozen_route_is_stable_witness :
  ∃ r, resolve_model_route harness None (Some frozen) = Ok r ∧ mr_model r = "m1" ∧
       resolve_model_route harness None (Some (route_asdict r)) = Ok r.
Proof.
  eexists. split; [reflexivity|]. split; [reflexivity|].
  destruct (frozen_route_is_stable harness None (Some frozen) _ harness eq_refl) as (r' & Hr' & Heq & _).
  rewrite Hr'. f_equal. apply Heq. discriminate.
Defined.

(** Token counts: a boolean is not a count, a missing total is the sum, unknown usage is not zero. *)
Lemma usage_examples :
  normalize_usage "p" (PDict [("usage", PDict [("input_tokens", PBool true); ("prompt_tokens", PInt 3);
    ("completion_tokens", PInt 4)])]) = Some (mkUsage 3 4 7 0 0) ∧
  normalize_usage "p" (PDict [("usage", PDict [("cache_write_tokens", PInt 3)])]) = None.
Proof. split; reflexivity. Qed.
End RouteExamples.
