(* ===== verification/Normalizer.v ===== *)
(** * Codex notifications as harness events (haas/harnesses/codex_app_server/normalizer.py)

    One JSON-RPC notification of the Codex app server becomes at most one [HarnessEvent]; what
    it shows of commands, directories and outputs is bounded and redacted, and methods it does not
    know are counted.  The counter is the module's only state. *)

From S2P Require Import Prelude Errors Dict PyVal PyText Encoding Redact Policy Events.

#[local] Open Scope string_scope.
#[local] Open Scope list_scope.
#[local] Open Scope Z_scope.

(** ** Commands *)

Definition SHELLS : list string := ["sh"; "bash"; "zsh"].
Definition SHELL_FLAGS : list string := ["-c"; "-lc"; "-cl"].

(** [s.rsplit("/", 1)[-1]] *)
Definition base_name (s : string) : string := default "" (last (split_on slash s)).

(** A recognized [sh -c] envelope. *)
Definition is_envelope (exe flag : string) : bool :=
  bool_decide (base_name exe ∈ SHELLS) && bool_decide (flag ∈ SHELL_FLAGS).

(** The payload of a serialized command, with escaped quotes undone. *)
Definition unescape_quotes (s : string) : string :=
  replace_str (String escape_char (String dquote_char "")) (String dquote_char "")
    (replace_str (String escape_char (String quote_char "")) (String quote_char "") s).

(** The items of a list of strings, if it is one. *)
Fixpoint strings_of (l : list pyval) : option (list string) :=
  match l with
  | [] => Some []
  | PStr s :: l' => cons s <$> strings_of l'
  | _ => None
  end.

(** [command_text] *)
Definition command_text (command : pyval) : string :=
  match command with
  | PStr text =>
      match shlex_split text with
      | Some [exe; flag; payload] => if is_envelope exe flag then unescape_quotes payload else text
      | _ => text
      end
  | PList l =>
      match strings_of l with
      | Some (exe :: flag :: payload :: rest) =>
          if is_envelope exe flag then payload else shlex_join (exe :: flag :: payload :: rest)
      | Some argv => shlex_join argv
      | None => ""
      end
  | _ => ""
  end.

(** ** MCP tool names *)

Definition word_char (n : nat) : bool :=
  ((48 <=? n)%nat && (n <=? 57)%nat) || ((65 <=? n)%nat && (n <=? 90)%nat) || ((97 <=? n)%nat && (n <=? 122)%nat).
Definition name_separator (n : nat) : bool := bool_decide (n ∈ [95; 46; 58; 47; 45]%nat).   (* _ . : / - *)

(** [s.strip()] on code points. *)
Fixpoint drop_spaces (cps : list nat) : list nat :=
  match cps with c :: cps' => if isspace c then drop_spaces cps' else cps | [] => [] end.
Definition strip_cps (cps : list nat) : list nat := rev (drop_spaces (rev (drop_spaces cps))).

(** [re.sub(r"[^A-Za-z0-9_.:/-]+", " ", s)] *)
Fixpoint collapse (in_run : bool) (cps : list nat) : string :=
  match cps with
  | [] => ""
  | c :: cps' =>
      if word_char c || name_separator c then String (Ascii.ascii_of_nat c) (collapse false cps')
      else if in_run then collapse true cps' else String (Ascii.ascii_of_nat 32) (collapse true cps')
  end.

(** The parts of [re.split(r"[_./:-]+", s)] that are not empty; [cur] is the part being read. *)
Fixpoint name_parts (cur : string) (s : string) : list string :=
  let flush := if bool_decide (cur = "") then [] else [cur] in
  match s with
  | EmptyString => flush
  | String a s' =>
      if name_separator (Ascii.nat_of_ascii a) then flush ++ name_parts "" s'
      else name_parts (snoc_char cur a) s'
  end.

Definition ascii_upper (a : Ascii.ascii) : Ascii.ascii :=
  let n := Ascii.nat_of_ascii a in
  if (97 <=? n)%nat && (n <=? 122)%nat then Ascii.ascii_of_nat (n - 32) else a.
Fixpoint upper (s : string) : string :=
  match s with EmptyString => "" | String a s' => String (ascii_upper a) (upper s') end.

Definition MCP_ACTION_VERBS : dict string (string * string * string) :=
  [("list", ("read", "List", "Listed")); ("read", ("read", "Read", "Read")); ("get", ("read", "Get", "Got"));
   ("fetch", ("read", "Fetch", "Fetched")); ("view", ("read", "View", "Viewed"));
   ("inspect", ("read", "Inspect", "Inspected")); ("search", ("search", "Search", "Searched"));
   ("find", ("search", "Find", "Found")); ("query", ("search", "Query", "Queried"));
   ("grep", ("search", "Search", "Searched")); ("create", ("edit", "Create", "Created"));
   ("write", ("edit", "Write", "Wrote")); ("edit", ("edit", "Edit", "Edited"));
   ("update", ("edit", "Update", "Updated")); ("patch", ("edit", "Patch", "Patched"));
   ("apply", ("edit", "Apply", "Applied")); ("delete", ("edit", "Delete", "Deleted"));
   ("remove", ("edit", "Remove", "Removed")); ("exec", ("command", "Run", "Ran"));
   ("run", ("command", "Run", "Ran")); ("shell", ("command", "Run", "Ran"));
   ("command", ("command", "Run", "Ran")); ("send", ("tool", "Send", "Sent")); ("post", ("tool", "Post", "Posted"))].
Definition TOOL_NAME_ACRONYMS : list string := ["api"; "http"; "https"; "mcp"; "sql"; "url"].

Section names.
Context `{PyRepr}.

(** The words of a tool identifier. *)
Definition tool_words (item : pydict) : list string :=
  let raw := str_or (pget "tool" item) "" in
  name_parts "" (take_bytes 96 (collapse false (strip_cps (default [] (utf8_decode raw))))).

(** [_mcp_tool_presentation]: the kind of activity and the sentence. *)
Definition mcp_tool_presentation (item : pydict) (completed : bool) : string * string :=
  match tool_words item with
  | [] => ("tool", if completed then "Used a tool" else "Use a tool")
  | first :: rest =>
      let verb := lower first in
      if bool_decide (verb = "recall") then ("read", if completed then "Recalled context" else "Recall context")
      else
        let '(kind, present, past) := default ("tool", "Use", "Used") (dget verb MCP_ACTION_VERBS) in
        let remainder := join_with " " ((λ w, if bool_decide (lower w ∈ TOOL_NAME_ACRONYMS) then upper w else w) <$> rest) in
        (kind, strip ((if completed then past else present) +:+ " " +:+ remainder))
  end.

(** [_mcp_tool_summary] *)
Definition mcp_tool_summary (item : pydict) (completed : bool) : string := (mcp_tool_presentation item completed).2.

Definition TOOL_TYPES : dict string string :=
  [("commandExecution", "exec_command"); ("fileChange", "apply_patch"); ("mcpToolCall", "mcp_tool");
   ("dynamicToolCall", "dynamic_tool"); ("webSearch", "web_search")].

(** [_item_tool_name] *)
Definition item_tool_name (item_type : string) (item : pydict) : result string :=
  if bool_decide (item_type = "mcpToolCall") then
    Ok (str_or (pget "server" item) "mcp" +:+ "." +:+ str_or (pget "tool" item) "tool")
  else if bool_decide (item_type = "dynamicToolCall") then Ok (str_or (pget "tool" item) "dynamic_tool")
  else match dget item_type TOOL_TYPES with Some name => Ok name | None => Raise (KeyError item_type) end.

(** The type of a command action, if it has one. *)
Definition action_type (action : pyval) : list string :=
  match action with
  | PDict d => if truthy (pget "type" d) then [py_str (pget "type" d)] else []
  | _ => []
  end.

(** [_activity_kind] *)
Definition activity_kind (item_type : string) (item : pydict) : result string :=
  if bool_decide (item_type = "fileChange") then Ok "edit"
  else if bool_decide (item_type = "webSearch") then Ok "search"
  else if bool_decide (item_type = "mcpToolCall") then Ok (mcp_tool_presentation item false).1
  else if negb (bool_decide (item_type = "commandExecution")) then Ok "tool"
  else
    actions ← iter_items (py_or (pget "commandActions" item) (PList []));
    let action_types := mjoin (action_type <$> actions) in
    Ok (if bool_decide ("search" ∈ action_types) then "search"
        else if negb (bool_decide (action_types = [])) && forallb (λ t, bool_decide (t ∈ ["read"; "listFiles"])) action_types
        then "read" else "command").

(** [len(v)] *)
Definition py_len (v : pyval) : result Z :=
  match v with
  | PList l => Ok (Z.of_nat (length l))
  | PDict d => Ok (Z.of_nat (length d))
  | PStr s => Ok (Z.of_nat (cp_length s))
  | _ => Raise TypeError
  end.

(** [_safe_tool_summary] *)
Definition safe_tool_summary (item_type : string) (item : pydict) : result string :=
  if bool_decide (item_type = "commandExecution") then
    kind ← activity_kind item_type item;
    Ok (if bool_decide (kind = "read") then "Read a file"
        else if bool_decide (kind = "search") then "Search the workspace" else "Run command")
  else if bool_decide (item_type = "fileChange") then
    count ← py_len (py_or (pget "changes" item) (PList []));
    Ok ("Apply " +:+ pretty count +:+ " file change" +:+ (if negb (count =? 1) then "s" else ""))
  else if bool_decide (item_type = "mcpToolCall") then Ok (mcp_tool_summary item false)
  else if bool_decide (item_type = "webSearch") then Ok "Search the web"
  else Ok "Call tool".

End names.

(** [_activity_kind_for_tool_name] *)
Definition activity_kind_for_tool_name (tool_name : string) : string :=
  default "tool" (dget tool_name [("apply_patch", "edit"); ("web_search", "search"); ("exec_command", "command")]).

(** [_safe_output_summary] *)
Definition safe_output_summary (tool_name : string) : string :=
  default "Tool progress" (dget tool_name
    [("exec_command", "Command output"); ("apply_patch", "File change output"); ("mcp_tool", "Tool progress"); ("web_search", "Search progress")]).

(** [_safe_tool_failure] *)
Definition safe_tool_failure (item_type : string) : result string :=
  match dget item_type [("commandExecution", "Command failed"); ("fileChange", "File change failed"); ("mcpToolCall", "MCP tool failed");
                        ("dynamicToolCall", "Tool failed"); ("webSearch", "Web search failed")] with
  | Some s => Ok s
  | None => Raise (KeyError item_type)
  end.

(** [_tool_name] *)
Definition tool_name (params : pydict) : string :=
  let of_params := match py_or (pget "toolName" params) (pget "name" params) with PStr s => s | _ => "" end in
  match pget "item" params with
  | PDict item => match py_or (pget "name" item) (pget "toolName" item) with PStr s => s | _ => of_params end
  | _ => of_params
  end.

(** [_tool_name_for_method] *)
Definition tool_name_for_method (method : string) : string :=
  if str_in "commandExecution" method then "exec_command"
  else if str_in "fileChange" method then "apply_patch"
  else if str_in "mcpToolCall" method then "mcp_tool" else "unknown".

(** ** What is shown of directories and outputs *)

Definition PREVIEW_LINES : Z := 20.
Definition PREVIEW_BYTES : Z := 4096.

(** White space at the start of a text ([\s] of a string pattern), in UTF-8. *)
Definition leading_space (s : string) : bool :=
  match s with
  | EmptyString => false
  | String a s1 =>
      let n := Ascii.nat_of_ascii a in
      is_space a ||
      match s1 with
      | EmptyString => false
      | String b s2 =>
          let m := Ascii.nat_of_ascii b in
          ((n =? 194)%nat && ((m =? 133)%nat || (m =? 160)%nat)) ||
          match s2 with
          | EmptyString => false
          | String c _ =>
              let k := Ascii.nat_of_ascii c in
              ((n =? 225)%nat && (m =? 154)%nat && (k =? 128)%nat) ||
              ((n =? 226)%nat && (m =? 128)%nat && (((128 <=? k)%nat && (k <=? 138)%nat) || (k =? 168)%nat || (k =? 169)%nat || (k =? 175)%nat)) ||
              ((n =? 226)%nat && (m =? 129)%nat && (k =? 159)%nat) ||
              ((n =? 227)%nat && (m =? 128)%nat && (k =? 128)%nat)
          end
      end
  end.

(** The lookahead: the end, white space or one of comma, semicolon, colon, closing bracket, brace,
    parenthesis or quote. *)
Definition root_ends (s : string) : bool :=
  match s with
  | EmptyString => true
  | String a _ => leading_space s || bool_decide (Ascii.nat_of_ascii a ∈ [44; 59; 58; 41; 93; 125; 34; 39]%nat)
  end.

(** The lookbehind [(?<![A-Za-z0-9_./:])] on the character before. *)
Definition may_start (prev : option Ascii.ascii) : bool :=
  match prev with
  | None => true
  | Some a => let n := Ascii.nat_of_ascii a in negb (word_char n || bool_decide (n ∈ [95; 46; 47; 58]%nat))
  end.

(** [pattern.sub("workspace/", output)]; [skip] characters of a match are still to be passed. *)
Fixpoint semantic_go (skip : nat) (prev : option Ascii.ascii) (root s : string) : string :=
  match s with
  | EmptyString => EmptyString
  | String a s' =>
      match skip with
      | S k => semantic_go k (Some a) root s'
      | O =>
          let rest := drop_str (String.length root) s in
          if may_start prev && starts_with root s then
            if starts_with "/" rest then "workspace/" +:+ semantic_go (String.length root) (Some a) root s'
            else if root_ends rest then "workspace/" +:+ semantic_go (String.length root - 1) (Some a) root s'
            else String a (semantic_go 0 (Some a) root s')
          else String a (semantic_go 0 (Some a) root s')
      end
  end.

(** [_semantic_workspace_output] *)
Definition semantic_workspace_output (output : string) (cwd : pyval) : string :=
  match cwd with
  | PStr dir =>
      if negb (starts_with "/" dir) then output
      else let root := rstrip_slash dir in
           if bool_decide (root = "") then output else semantic_go 0 None root output
  | _ => output
  end.

(** ** Usage *)

Definition USAGE_KEYS : list (string * string) :=
  [("inputTokens", "inputTokens"); ("outputTokens", "outputTokens"); ("totalTokens", "totalTokens");
   ("cachedInputTokens", "cacheReadTokens"); ("cacheReadTokens", "cacheReadTokens");
   ("cacheWriteInputTokens", "cacheWriteTokens"); ("cacheWriteTokens", "cacheWriteTokens");
   ("reasoningOutputTokens", "reasoningOutputTokens")].

Definition copy_usage (usage : pydict) (res : pydict) (keys : string * string) : pydict :=
  match pget keys.1 usage with PInt z => dset keys.2 (PInt z) res | _ => res end.

(** [_normalize_token_breakdown] *)
Definition normalize_token_breakdown (usage : pyval) : option pydict :=
  match usage with
  | PDict d =>
      let res := foldl (copy_usage d) [] USAGE_KEYS in
      if has_keys res ["inputTokens"; "outputTokens"; "totalTokens"] then Some res else None
  | _ => None
  end.

(** [_normalize_usage] *)
Definition normalize_usage (params : pydict) : option pydict * option pydict :=
  match pget "tokenUsage" params with
  | PDict t =>
      if dmem "last" t || dmem "total" t
      then (normalize_token_breakdown (pget "last" t), normalize_token_breakdown (pget "total" t))
      else (normalize_token_breakdown (PDict t), None)
  | _ => (None, None)
  end.

(** ** Notifications *)

(** [notification_method] *)
Definition notification_method (notification : pydict) : string :=
  match pget "method" notification with
  | PStr (String a s) => String a s
  | _ => match pget "params" notification with
         | PDict params => match pget "type" params with PStr s => s | _ => "" end
         | _ => ""
         end
  end.

(** [notification_params] *)
Definition notification_params (notification : pydict) : pydict := as_dict (pget "params" notification).

(** [_delta_text] *)
Definition delta_text (params : pydict) : string := match pget "delta" params with PStr s => s | _ => "" end.

(** The keyword arguments of [normalize_notification]. *)
Record NormalizeArgs := mkNormalizeArgs {
  na_invocation_id : string; na_session_id : string; na_turn_id : string; na_author : string;
  na_model_call_id : option string; na_evidence_ref : option string; na_evidence_expires_at_ms : option Z;
}.

Definition TEXT_DELTA_METHODS : list string := ["item/agentMessage/delta"].
Definition REASONING_DELTA_METHODS : list string := ["item/reasoning/summaryTextDelta"].
Definition TOOL_OUTPUT_METHODS : list string :=
  ["item/commandExecution/outputDelta"; "item/fileChange/outputDelta"; "item/mcpToolCall/progress"].
Definition ITEM_METHODS : list string := ["item/started"; "item/completed"].
Definition USAGE_METHOD : string := "thread/tokenUsage/updated".
Definition TURN_STARTED_METHOD : string := "turn/started".
Definition PLAN_METHOD : string := "turn/plan/updated".

(** [if s: d[k] = s] for an optional string. *)
Definition opt_text (k : string) (v : option string) : pydict :=
  match v with Some (String a s) => [(k, PStr (String a s))] | _ => [] end.
(** [if v is not None: d[k] = v] for an optional integer. *)
Definition opt_int (k : string) (v : option Z) : pydict := match v with Some z => [(k, PInt z)] | None => [] end.

(** An [int] that is not a [bool]. *)
Definition plain_int (v : pyval) : option Z := match v with PInt z => Some z | _ => None end.

Section normalize.
Context `{PyRepr} `{RegexEngine}.

(** [_command_preview] *)
Definition command_preview (command : pyval) : string :=
  replace_char (Ascii.ascii_of_nat 10) (Ascii.ascii_of_nat 32) (bounded_redacted_preview (command_text command) 1 512).1.

(** [_working_directory_hint] *)
Definition working_directory_hint (cwd : string) : string :=
  if bool_decide (cwd = "/workspace") || starts_with "/workspace/" cwd then cwd
  else (bounded_redacted_preview cwd 1 512).1.

(** [_output_metadata] *)
Definition output_metadata (params : pydict) (model_call_id : option string) (include_summary_index : bool) : pydict :=
  (match pget "itemId" params with PStr (String a s) => [("itemId", PStr (String a s))] | _ => [] end) ++
  (if include_summary_index then opt_int "summaryIndex" (plain_int (pget "summaryIndex" params)) else []) ++
  opt_text "modelCallId" model_call_id.

(** The event every branch builds: the caller's identifiers, the native method, a list of parts and actions. *)
Definition event_of (c : NormalizeArgs) (type_ method : string) (parts : list pyval) (actions : pydict) : HarnessEvent :=
  mkHarnessEvent type_ (na_invocation_id c) (na_session_id c) (na_turn_id c) (na_author c)
    [("role", PStr "model"); ("parts", PList parts)] actions (Some method) None.

Definition running_delta : pyval := PDict [("status", PStr "running")].

Definition text_event (c : NormalizeArgs) (method : string) (params : pydict) : option HarnessEvent :=
  let text := delta_text params in
  if bool_decide (text = "") then None
  else Some (event_of c "harness.text.delta" method [PDict [("text", PStr text)]]
               [("stateDelta", running_delta); ("haas", PDict (output_metadata params (na_model_call_id c) false))]).

Definition reasoning_event (c : NormalizeArgs) (method : string) (params : pydict) : option HarnessEvent :=
  let text := delta_text params in
  if bool_decide (text = "") then None
  else Some (event_of c "harness.reasoning.delta" method [PDict [("text", PStr text); ("thought", PBool true)]]
               [("stateDelta", running_delta); ("haas", PDict (output_metadata params (na_model_call_id c) true))]).

(** A completed message or reasoning item. *)
Definition item_closed_event (c : NormalizeArgs) (method item_type : string) (item : pydict) : result (option HarnessEvent) :=
  match pget "id" item with
  | PStr (String a s) =>
      phase ← (if bool_decide (item_type = "agentMessage") then
                 known ← in_str_set (pget "phase" item) ["commentary"; "final_answer"];
                 Ok (if (known : bool) then [("messagePhase", pget "phase" item)] else [])
               else Ok []);
      Ok (Some (event_of c "harness.output.item.completed" method []
                  [("haas", PDict ([("itemId", PStr (String a s))] ++ opt_text "modelCallId" (na_model_call_id c) ++ phase))]))
  | _ => Ok None
  end.

(** The fields of a command: preview, directory hint and evidence reference. *)
Definition command_fields (c : NormalizeArgs) (item_type : string) (item : pydict) : pydict :=
  if bool_decide (item_type = "commandExecution") then
    (if negb (bool_decide (command_text (pget "command" item) = ""))
     then [("commandPreview", PStr (command_preview (pget "command" item)))] else []) ++
    (match pget "cwd" item with
     | PStr (String a s) => [("workingDirectory", PStr (working_directory_hint (String a s)))]
     | _ => []
     end) ++
    opt_text "evidenceRef" (na_evidence_ref c) ++ opt_int "evidenceExpiresAtMs" (na_evidence_expires_at_ms c)
  else [].

Definition tool_started_event (c : NormalizeArgs) (method item_type : string) (item : pydict) : result (option HarnessEvent) :=
  name ← item_tool_name item_type item;
  summary ← safe_tool_summary item_type item;
  kind ← activity_kind item_type item;
  Ok (Some (event_of c "harness.tool.started" method []
    [("artifactDelta", PDict (
        [("toolCallId", PStr (str_or (pget "id" item) "")); ("toolName", PStr name);
         ("safeSummary", PStr summary); ("activityKind", PStr kind)] ++
        opt_text "modelCallId" (na_model_call_id c) ++ command_fields c item_type item))])).

(** Whether a completed item counts as failed. *)
Definition tool_failed (item_type : string) (item : pydict) : bool :=
  let raw_status := py_str (py_or (pget "status" item) (PStr (if bool_decide (item_type = "webSearch") then "completed" else "failed"))) in
  negb (bool_decide (raw_status ∈ ["completed"; "success"])) ||
  match plain_int (pget "exitCode" item) with Some z => negb (z =? 0) | None => false end.

(** The preview of the aggregated output. *)
Definition output_fields (item : pydict) : pydict :=
  match pget "aggregatedOutput" item with
  | PStr (String a s) =>
      let (preview, omitted) := bounded_redacted_preview (semantic_workspace_output (String a s) (pget "cwd" item)) PREVIEW_LINES PREVIEW_BYTES in
      [("outputPreview", PStr preview); ("omittedLineCount", PInt omitted)]
  | _ => []
  end.

Definition tool_finished_event (c : NormalizeArgs) (method item_type : string) (item : pydict) : result (option HarnessEvent) :=
  name ← item_tool_name item_type item;
  let failed := tool_failed item_type item in
  kind ← activity_kind item_type item;
  failure ← (if failed then
               reason ← safe_tool_failure item_type;
               Ok [("code", PStr "tool_failed"); ("safeReason", PStr reason); ("retryable", PBool false)]
             else Ok []);
  Ok (Some (event_of c (if failed then "harness.tool.failed" else "harness.tool.completed") method []
    [("artifactDelta", PDict (
        [("toolCallId", PStr (str_or (pget "id" item) "")); ("toolName", PStr name);
         ("status", PStr (if failed then "failed" else "completed")); ("activityKind", PStr kind)] ++
        (if bool_decide (item_type = "mcpToolCall") then [("safeSummary", PStr (mcp_tool_summary item (negb failed)))] else []) ++
        opt_text "modelCallId" (na_model_call_id c) ++ command_fields c item_type item ++
        opt_int "durationMs" (plain_int (pget "durationMs" item)) ++ opt_int "exitCode" (plain_int (pget "exitCode" item)) ++
        output_fields item ++ failure))])).

(** [item/started] and [item/completed]. *)
Definition item_event (c : NormalizeArgs) (method : string) (params : pydict) : result (option HarnessEvent) :=
  match pget "item" params with
  | PDict item =>
      let item_type := str_or (pget "type" item) "" in
      if bool_decide (method = "item/completed") && bool_decide (item_type ∈ ["agentMessage"; "reasoning"])
      then item_closed_event c method item_type item
      else if negb (dmem item_type TOOL_TYPES) then Ok None
      else if bool_decide (method = "item/started") then tool_started_event c method item_type item
      else tool_finished_event c method item_type item
  | _ => Ok None
  end.

Definition tool_output_event (c : NormalizeArgs) (method : string) (params : pydict) : option HarnessEvent :=
  let delta := delta_text params in
  if bool_decide (delta = "") then None
  else
    let (text, omitted) := bounded_redacted_preview delta PREVIEW_LINES PREVIEW_BYTES in
    let tool_name := tool_name_for_method method in
    Some (event_of c "harness.tool.output" method []
      [("artifactDelta", PDict (
          [("toolCallId", PStr (str_or (pget "itemId" params) "")); ("toolName", PStr tool_name);
           ("activityKind", PStr (activity_kind_for_tool_name tool_name)); ("safeSummary", PStr (safe_output_summary tool_name));
           ("outputPreview", PStr text); ("omittedLineCount", PInt omitted)] ++
          opt_text "modelCallId" (na_model_call_id c)))]).

Definition usage_event (c : NormalizeArgs) (method : string) (params : pydict) : option HarnessEvent :=
  match normalize_usage params with
  | (None, _) => None
  | (Some usage, cumulative) =>
      let e := event_of c "harness.usage" method []
        [("stateDelta", PDict [("usage", PDict usage)]);
         ("haas", PDict ([("scope", PStr "model_call")] ++ opt_text "modelCallId" (na_model_call_id c) ++
                         match cumulative with Some d => [("cumulativeUsage", PDict d)] | None => [] end))] in
      Some (e <| he_usage := Some usage |>)
  end.

Definition turn_started_event (c : NormalizeArgs) (method : string) : HarnessEvent :=
  event_of c "harness.turn.started" method [] [("stateDelta", running_delta)].

(** The counters of a plan: items of a known status, by status. *)
Fixpoint plan_counts (counts : pydict) (plan : list pyval) : result pydict :=
  match plan with
  | [] => Ok counts
  | PDict item :: plan' =>
      known ← in_str_set (pget "status" item) (dkeys counts);
      plan_counts (match pget "status" item with
                   | PStr s => if (known : bool) then dset s (PInt (int_of (pget s counts) + 1)) counts else counts
                   | _ => counts
                   end) plan'
  | _ :: plan' => plan_counts counts plan'
  end.
Definition no_counts : pydict := [("pending", PInt 0); ("inProgress", PInt 0); ("completed", PInt 0)].

Definition plan_event (c : NormalizeArgs) (method : string) (params : pydict) : result (option HarnessEvent) :=
  match pget "plan" params with
  | PList plan =>
      counts ← plan_counts no_counts plan;
      Ok (Some (event_of c "harness.plan.updated" method []
            [("haas", PDict [("counts", PDict counts); ("total", PInt (Z.of_nat (length plan)))])]))
  | _ => Ok None
  end.

(** The methods the normalizer knows. *)
Definition KNOWN_METHODS : list string :=
  TEXT_DELTA_METHODS ++ REASONING_DELTA_METHODS ++ ITEM_METHODS ++ TOOL_OUTPUT_METHODS ++ [USAGE_METHOD; TURN_STARTED_METHOD; PLAN_METHOD].

(** The branches of [normalize_notification] for a known method. *)
Definition normalize_known (c : NormalizeArgs) (method : string) (params : pydict) : result (option HarnessEvent) :=
  if bool_decide (method ∈ TEXT_DELTA_METHODS) then Ok (text_event c method params)
  else if bool_decide (method ∈ REASONING_DELTA_METHODS) then Ok (reasoning_event c method params)
  else if bool_decide (method ∈ ITEM_METHODS) then item_event c method params
  else if bool_decide (method ∈ TOOL_OUTPUT_METHODS) then Ok (tool_output_event c method params)
  else if bool_decide (method = USAGE_METHOD) then Ok (usage_event c method params)
  else if bool_decide (method = TURN_STARTED_METHOD) then Ok (Some (turn_started_event c method))
  else if bool_decide (method = PLAN_METHOD) then plan_event c method params
  else Ok None.

(** [_UNPARSED_METHODS] *)
Notation unparsed_counts := (dict string Z).

(** [unparsed_notification_counts], [reset_unparsed_notification_counts] *)
Definition unparsed_notification_counts : M unparsed_counts unparsed_counts := gets (λ counts, counts).
Definition reset_unparsed_notification_counts : M unparsed_counts unit := modify (λ _, []).

(** [normalize_notification] *)
Definition normalize_notification (notification : pydict) (c : NormalizeArgs) : M unparsed_counts (option HarnessEvent) :=
  let method := notification_method notification in
  if bool_decide (method ∈ KNOWN_METHODS) then lift (normalize_known c method (notification_params notification))
  else
    _ ← modify (λ counts, dset method (default 0 (dget method counts) + 1) counts);
    mret None.

End normalize.

(** ** What the event log makes of a normalized event *)

Definition NORMALIZED_TYPES : list string :=
  ["harness.text.delta"; "harness.reasoning.delta"; "harness.output.item.completed"; "harness.tool.started";
   "harness.tool.output"; "harness.tool.completed"; "harness.tool.failed"; "harness.usage"; "harness.turn.started";
   "harness.plan.updated"].

Section accepted.
Context `{PyRepr} `{RegexEngine}.

(** The metadata the event log gives a harness event, if it accepts it. *)
Definition log_metadata (e : HarnessEvent) : result pydict :=
  let type_ := canonical_type (he_type e) in
  haas ← harness_event_metadata type_ e;
  _ ← validate_typed_metadata type_ haas;
  Ok haas.

(** An event carries the caller's identifiers and one of the types the log knows. *)
Definition carries (c : NormalizeArgs) (method : string) (e : HarnessEvent) : Prop :=
  he_invocationId e = na_invocation_id c ∧ he_sessionId e = na_session_id c ∧ he_turnId e = na_turn_id c ∧
  he_author e = na_author c ∧ he_nativeType e = Some method ∧ he_type e ∈ NORMALIZED_TYPES.

Lemma event_of_carries c ty method parts actions :
  bool_decide (ty ∈ NORMALIZED_TYPES) = true → carries c method (event_of c ty method parts actions).
Proof. intros Hty%bool_decide_eq_true. by repeat split. Qed.

Lemma activity_fields_ok metadata artifact kind :
  pget "activityKind" artifact = PStr kind → ∃ m, with_tool_activity_fields metadata artifact = Ok m.
Proof.
  intros Hk. unfold with_tool_activity_fields. rewrite Hk. cbn [in_str_set mbind result_bind].
  destruct (pget "outputPreview" artifact) as [| | | |[|a s]| |]; eauto.
Qed.

(** Evaluate the closed tests of the goal. *)
Ltac decide_closed :=
  repeat match goal with
  | |- context [bool_decide ?P] =>
      let b := eval vm_compute in (bool_decide P) in
      match b with
      | true => change (bool_decide P) with true
      | false => change (bool_decide P) with false
      end
  end; cbv iota.

Lemma tool_event_accepted c ty method d kind :
  ty ∈ ["harness.tool.started"; "harness.tool.output"; "harness.tool.completed"; "harness.tool.failed"] →
  pget "activityKind" d = PStr kind →
  ∃ haas, log_metadata (event_of c ty method [] [("artifactDelta", PDict d)]) = Ok haas.
Proof.
  intros Hty Hk.
  assert (py_or (pget "artifactDelta" [("artifactDelta", PDict d)]) (PDict []) = PDict d) as Ha by (by destruct d).
  unfold log_metadata, harness_event_metadata. cbn [he_type he_actions event_of]. rewrite Ha.
  repeat (apply elem_of_cons in Hty as [->|Hty]); [..|by apply elem_of_nil in Hty];
    match goal with |- context [canonical_type ?t] => let t' := eval vm_compute in (canonical_type t) in change (canonical_type t) with t' end;
    decide_closed; cbn [need_dict mbind result_bind];
    match goal with |- context [with_tool_activity_fields ?m ?d] => destruct (activity_fields_ok m d kind Hk) as [h ->] end;
    by exists h.
Qed.
Lemma plain_event_accepted c ty method parts actions :
  ty ∈ ["harness.text.delta"; "harness.reasoning.delta"; "harness.output.item.completed"; "harness.turn.started"] →
  ∃ haas, log_metadata (event_of c ty method parts actions) = Ok haas.
Proof.
  intros Hty. unfold log_metadata, harness_event_metadata. cbn [he_type he_actions event_of].
  repeat (apply elem_of_cons in Hty as [->|Hty]); [..|by apply elem_of_nil in Hty];
    match goal with |- context [canonical_type ?t] => let t' := eval vm_compute in (canonical_type t) in change (canonical_type t) with t' end;
    decide_closed; cbn [mbind result_bind]; eexists; reflexivity.
Qed.

(** An accepted event: as [carries] says, and the log takes it. *)
Definition accepted (c : NormalizeArgs) (method : string) (e : HarnessEvent) : Prop :=
  carries c method e ∧ ∃ haas, log_metadata e = Ok haas.

Lemma text_event_accepted c method params e : text_event c method params = Some e → accepted c method e.
Proof.
  unfold text_event. case_bool_decide; [done|]. intros [= <-].
  split; [by apply event_of_carries|]. apply plain_event_accepted. by vm_compute; left.
Qed.
Lemma reasoning_event_accepted c method params e : reasoning_event c method params = Some e → accepted c method e.
Proof.
  unfold reasoning_event. case_bool_decide; [done|]. intros [= <-].
  split; [by apply event_of_carries|]. apply plain_event_accepted. vm_compute. by right; left.
Qed.
Lemma item_closed_accepted c method ty item e : item_closed_event c method ty item = Ok (Some e) → accepted c method e.
Proof.
  unfold item_closed_event. destruct (pget "id" item) as [| | | |[|a s]| |]; try done.
  intros (phase & _ & [= <-])%bind_Ok. split; [by apply event_of_carries|]. apply plain_event_accepted. vm_compute. by right; right; left.
Qed.
Lemma turn_started_accepted c method : accepted c method (turn_started_event c method).
Proof. split; [by apply event_of_carries|]. apply plain_event_accepted. vm_compute. by right; right; right; left. Qed.

Lemma tool_started_accepted c method ty item e : tool_started_event c method ty item = Ok (Some e) → accepted c method e.
Proof.
  intros (name & _ & (summary & _ & (kind & _ & [= <-])%bind_Ok)%bind_Ok)%bind_Ok. split; [by apply event_of_carries|].
  apply tool_event_accepted with kind; [vm_compute; by left|done].
Qed.
Lemma tool_finished_accepted c method ty item e : tool_finished_event c method ty item = Ok (Some e) → accepted c method e.
Proof.
  intros (name & _ & (kind & _ & (failure & _ & [= <-])%bind_Ok)%bind_Ok)%bind_Ok.
  split; [apply event_of_carries; by destruct (tool_failed ty item)|].
  apply tool_event_accepted with kind; [|done]. destruct (tool_failed ty item); vm_compute; [by right; right; right; left|by right; right; left].
Qed.
Lemma tool_output_accepted c method params e : tool_output_event c method params = Some e → accepted c method e.
Proof.
  unfold tool_output_event. case_bool_decide; [done|]. destruct (bounded_redacted_preview _ _ _) as [text omitted]. intros [= <-].
  split; [by apply event_of_carries|]. apply tool_event_accepted with (activity_kind_for_tool_name (tool_name_for_method method)); [|done].
  vm_compute. by right; left.
Qed.

Lemma breakdown_truthy v usage : normalize_token_breakdown v = Some usage → truthy (PDict usage) = true.
Proof.
  destruct v as [| | | | | |d]; try done. unfold normalize_token_breakdown. set (res := foldl _ _ _). clearbody res.
  destruct (has_keys _ _) eqn:E; [|done]. intros [= ->]. by destruct usage.
Qed.

Lemma usage_truthy params usage cumulative : normalize_usage params = (Some usage, cumulative) → truthy (PDict usage) = true.
Proof.
  unfold normalize_usage. intros Hu. repeat case_match; simplify_eq; by eapply breakdown_truthy.
Qed.

Lemma usage_log inv sid turn author content state haas native usage :
  truthy (PDict usage) = true →
  ∃ h, log_metadata (mkHarnessEvent "harness.usage" inv sid turn author content
                       [("stateDelta", state); ("haas", PDict haas)] native (Some usage)) = Ok h.
Proof.
  intros Ht. unfold log_metadata, harness_event_metadata. cbn [he_type he_actions he_usage opt_dict_val].
  change (canonical_type "harness.usage") with "haas.usage.updated". decide_closed.
  rewrite Ht. cbn [mbind result_bind dict_of].
  change (pget "haas" _) with (PDict haas). unfold py_or. destruct (truthy (PDict haas)); eexists; reflexivity.
Qed.

Lemma usage_event_accepted c method params e : usage_event c method params = Some e → accepted c method e.
Proof.
  unfold usage_event. destruct (normalize_usage params) as [[usage|] cumulative] eqn:Hu; [|done]. intros [= <-].
  split; [|by eapply usage_log, usage_truthy].
  unfold carries. cbn. split_and!; try done.
  apply (proj1 (bool_decide_eq_true ("harness.usage" ∈ NORMALIZED_TYPES))). by vm_compute.
Qed.

(** A plan item whose status the log counts. *)
Definition counted (item : pyval) : bool :=
  match item with
  | PDict d => match pget "status" d with PStr s => bool_decide (s ∈ ["pending"; "inProgress"; "completed"]) | _ => false end
  | _ => false
  end.

Lemma plan_counts_spec plan : ∀ p i k counts,
  0 <= p → 0 <= i → 0 <= k →
  plan_counts [("pending", PInt p); ("inProgress", PInt i); ("completed", PInt k)] plan = Ok counts →
  ∃ p' i' k', counts = [("pending", PInt p'); ("inProgress", PInt i'); ("completed", PInt k')] ∧ 0 <= p' ∧ 0 <= i' ∧ 0 <= k' ∧
    p' + i' + k' = p + i + k + Z.of_nat (length (keep counted plan)).
Proof.
  induction plan as [|item plan IH]; intros p i k counts Hp Hi Hk; cbn [plan_counts keep].
  { intros [= <-]. exists p, i, k. split_and!; try done; cbn; lia. }
  destruct item as [| | | | | |d]; cbn [counted]; try (by apply IH).
  intros (known & Hkn & Hrest)%bind_Ok. destruct (pget "status" d) as [| | | |s| |]; cbn [in_str_set] in Hkn; try discriminate Hkn; try (by apply IH).
  change (dkeys _) with ["pending"; "inProgress"; "completed"] in Hkn. injection Hkn as <-.
  case_bool_decide as Hs; [|by apply IH].
  apply elem_of_cons in Hs as [->|Hs]; [|apply elem_of_cons in Hs as [->|Hs]; [|apply elem_of_cons in Hs as [->|[]%elem_of_nil]]].
  - change (dset _ _ _) with [("pending", PInt (p + 1)); ("inProgress", PInt i); ("completed", PInt k)] in Hrest.
    destruct (IH (p + 1) i k counts ltac:(lia) Hi Hk Hrest) as (p' & i' & k' & -> & ? & ? & ? & ?). exists p', i', k'. split_and!; try done. cbn [length]. lia.
  - change (dset _ _ _) with [("pending", PInt p); ("inProgress", PInt (i + 1)); ("completed", PInt k)] in Hrest.
    destruct (IH p (i + 1) k counts Hp ltac:(lia) Hk Hrest) as (p' & i' & k' & -> & ? & ? & ? & ?). exists p', i', k'. split_and!; try done. cbn [length]. lia.
  - change (dset _ _ _) with [("pending", PInt p); ("inProgress", PInt i); ("completed", PInt (k + 1))] in Hrest.
    destruct (IH p i (k + 1) counts Hp Hi ltac:(lia) Hrest) as (p' & i' & k' & -> & ? & ? & ? & ?). exists p', i', k'. split_and!; try done. cbn [length]. lia.
Qed.

Lemma plan_event_log c method params e plan :
  pget "plan" params = PList plan → plan_event c method params = Ok (Some e) →
  carries c method e ∧ he_type e = "harness.plan.updated" ∧
  (if forallb counted plan then ∃ haas, log_metadata e = Ok haas
   else log_metadata e = Raise (ValueError "invalid typed plan metadata")).
Proof.
  intros Hplan. unfold plan_event. rewrite Hplan. intros (counts & Hc & [= <-])%bind_Ok.
  split; [by apply event_of_carries|]. split; [done|].
  apply plan_counts_spec in Hc as (p & i & k & -> & Hp & Hi & Hk & Hsum); [|lia..].
  unfold log_metadata, harness_event_metadata. cbn [he_type he_actions event_of].
  change (canonical_type "harness.plan.updated") with "haas.plan.updated". decide_closed.
  cbn [mbind result_bind]. unfold validate_typed_metadata. decide_closed.
  match goal with |- context [plan_ok ?d] => assert (plan_ok d = forallb counted plan) as -> end.
  { unfold plan_ok.
    match goal with |- context [pget "counts" ?d] => change (pget "counts" d) with (PDict [("pending", PInt p); ("inProgress", PInt i); ("completed", PInt k)]) end.
    match goal with |- context [pget "total" ?d] => change (pget "total" d) with (PInt (Z.of_nat (length plan))) end.
    cbv beta iota. change (keys_are _ _) with true.
    change (dvalues _) with [PInt p; PInt i; PInt k]. unfold nonneg_int. cbn [forallb foldr is_int int_of andb].
    rewrite !(proj2 (Z.leb_le 0 _)) by lia. cbn [andb].
    apply eq_true_iff_eq. rewrite Z.eqb_eq, forallb_forall.
    pose proof (length_keep_le counted plan) as Hle. split.
    - intros Heq. assert (length (keep counted plan) = length plan) as Hl by lia. clear -Hl.
      induction plan as [|x plan IH]; [done|]. cbn [keep] in Hl. pose proof (length_keep_le counted plan).
      destruct (counted x) eqn:E; cbn [length] in Hl; [|lia]. intros y [<-|Hy]; [done|]. apply IH; [lia|done].
    - intros Hall. rewrite keep_all in Hsum by (intros x Hx; apply Hall; by apply list_elem_of_In). lia. }
  destruct (forallb counted plan); cbn; [by eexists|done].
Qed.

End accepted.

(** ** Claims *)

Section claims.
Context `{PyRepr} `{RegexEngine}.

Lemma normalize_known_cases c method params e :
  normalize_known c method params = Ok (Some e) →
  accepted c method e ∨ (method = PLAN_METHOD ∧ plan_event c method params = Ok (Some e)).
Proof.
  unfold normalize_known.
  case_bool_decide; [intros [= ?]; left; by eapply text_event_accepted|].
  case_bool_decide; [intros [= ?]; left; by eapply reasoning_event_accepted|].
  case_bool_decide.
  { unfold item_event. destruct (pget "item" params) as [| | | | | |item]; try done.
    destruct (_ && _); [intros ?; left; by eapply item_closed_accepted|].
    destruct (negb _); [done|].
    case_bool_decide; intros ?; left; [by eapply tool_started_accepted|by eapply tool_finished_accepted]. }
  case_bool_decide; [intros [= ?]; left; by eapply tool_output_accepted|].
  case_bool_decide; [intros [= ?]; left; by eapply usage_event_accepted|].
  case_bool_decide; [intros [= <-]; left; apply turn_started_accepted|].
  case_bool_decide; [|done]. auto.
Qed.

(** What an event the normalizer returns carries, and what the log makes of it. *)
Lemma normalized_carries n c counts e :
  (normalize_notification n c counts).2 = Ok (Some e) →
  carries c (notification_method n) e ∧
  ((∃ haas, log_metadata e = Ok haas) ∨
   ∃ plan, notification_method n = PLAN_METHOD ∧ pget "plan" (notification_params n) = PList plan ∧
     forallb counted plan = false ∧ log_metadata e = Raise (ValueError "invalid typed plan metadata")).
Proof.
  unfold normalize_notification. case_bool_decide; [|done]. cbn [lift snd]. intros He.
  apply normalize_known_cases in He as [[? ?]|[Hm Hp]]; [auto|].
  destruct (pget "plan" (notification_params n)) as [| | | | |plan|] eqn:E;
    try (unfold plan_event in Hp; rewrite E in Hp; discriminate Hp).
  destruct (plan_event_log _ _ _ _ _ E Hp) as (? & _ & Hlog). split; [done|].
  destruct (forallb counted plan) eqn:Ef; [by left|right; by exists plan].
Qed.

(** None of the types ends a turn. *)
Lemma normalized_not_terminal ty status : ty ∈ NORMALIZED_TYPES → status ∈ TERMINAL_STATUSES → ty ≠ "harness.turn." +:+ status.
Proof.
  intros Hc Hs ->. unfold TERMINAL_STATUSES in Hs.
  repeat (apply elem_of_cons in Hs as [->|Hs]); [..|by apply elem_of_nil in Hs];
    apply (proj2 (bool_decide_eq_true _)) in Hc; vm_compute in Hc; discriminate Hc.
Qed.

(** C16: The normalizer speaks the event log's language.  An event it returns carries the caller's
    invocation, session, turn and author, the native method, and one of ten types, none of which
    ends a turn; and the log accepts its metadata, except for a plan with an item that is not
    counted (a status the log does not know), which it refuses with a [ValueError]. *)
Theorem normalized_event_accepted n c counts e :
  (normalize_notification n c counts).2 = Ok (Some e) →
  carries c (notification_method n) e ∧
  (∀ status, status ∈ TERMINAL_STATUSES → he_type e ≠ "harness.turn." +:+ status) ∧
  ((∃ haas, log_metadata e = Ok haas) ∨
   ∃ plan, notification_method n = PLAN_METHOD ∧ pget "plan" (notification_params n) = PList plan ∧
     forallb counted plan = false ∧ log_metadata e = Raise (ValueError "invalid typed plan metadata")).
Proof.
  intros He. destruct (normalized_carries n c counts e He) as [Hc Hl]. split_and!; [done| |done].
  intros status. destruct Hc as (_ & _ & _ & _ & _ & Hc). by apply normalized_not_terminal.
Qed.

Lemma normalize_unknown n c counts :
  notification_method n ∉ KNOWN_METHODS →
  normalize_notification n c counts =
    (dset (notification_method n) (default 0 (dget (notification_method n) counts) + 1) counts, Ok None).
Proof. intros Hn. unfold normalize_notification. by rewrite bool_decide_eq_false_2. Qed.

Lemma normalize_known_counts n c counts :
  notification_method n ∈ KNOWN_METHODS → (normalize_notification n c counts).1 = counts.
Proof. intros Hn. unfold normalize_notification. by rewrite bool_decide_eq_true_2. Qed.

(** Unknown methods are not dropped silently: over any sequence of notifications the counter of an
    unknown method grows by exactly the number of times it came, and no other counter moves. *)
Theorem unknown_methods_counted (ns : list (pydict * NormalizeArgs)) counts method :
  let final := foldl (λ s (nc : pydict * NormalizeArgs), (normalize_notification nc.1 nc.2 s).1) counts ns in
  default 0 (dget method final) = default 0 (dget method counts) +
    (if bool_decide (method ∈ KNOWN_METHODS) then 0
     else Z.of_nat (length (keep (λ nc : pydict * NormalizeArgs, bool_decide (notification_method nc.1 = method)) ns))).
Proof.
  cbn zeta. revert counts. induction ns as [|[n c] ns IH]; intros counts; cbn [foldl keep fst snd]; [case_bool_decide; cbn; lia|].
  rewrite IH. destruct (decide (notification_method n ∈ KNOWN_METHODS)) as [Hk|Hk].
  - rewrite normalize_known_counts by done. case_bool_decide as Hm; [lia|].
    rewrite (bool_decide_eq_false_2 (notification_method n = method)) by congruence. lia.
  - rewrite normalize_unknown by done. cbn [fst]. destruct (decide (notification_method n = method)) as [<-|Hne].
    + rewrite dget_dset_eq, (bool_decide_eq_true_2 (notification_method n = _)), bool_decide_eq_false_2 by done.
      cbn [length]. change (default 0 (Some ?x)) with x. lia.
    + rewrite dget_dset_ne, (bool_decide_eq_false_2 (notification_method n = method)) by congruence. done.
Qed.

Lemma strings_of_fmap l : strings_of (PStr <$> l) = Some l.
Proof. induction l as [|s l IH]; [done|]. cbn [fmap list_fmap strings_of]. by rewrite IH. Qed.

(** A shell envelope. *)
Definition enveloped (argv : list string) : Prop :=
  match argv with exe :: flag :: _ :: _ => is_envelope exe flag = true | _ => False end.

(** The text shown for an argument vector: of a shell envelope its payload, of any other vector a
    command line that the shell's own splitting turns back into the vector, and that is shown
    unchanged when it comes back as a serialized command. *)
Theorem command_text_roundtrip argv :
  (∀ exe flag payload rest, argv = exe :: flag :: payload :: rest → is_envelope exe flag = true →
     command_text (PList (PStr <$> argv)) = payload) ∧
  (¬ enveloped argv →
     shlex_split (command_text (PList (PStr <$> argv))) = Some argv ∧
     command_text (PStr (command_text (PList (PStr <$> argv)))) = command_text (PList (PStr <$> argv))).
Proof.
  unfold command_text at 1 2 4 5. rewrite strings_of_fmap. split.
  - intros exe flag payload rest -> He. by rewrite He.
  - intros Hne. assert (match argv with
        | exe :: flag :: payload :: rest => if is_envelope exe flag then payload else shlex_join (exe :: flag :: payload :: rest)
        | _ => shlex_join argv end = shlex_join argv) as ->.
    { destruct argv as [|exe [|flag [|payload rest]]]; try done. cbn [enveloped] in Hne. by destruct (is_envelope exe flag). }
    split; [apply shlex_split_join|]. unfold command_text. rewrite shlex_split_join.
    destruct argv as [|exe [|flag [|payload [|? ?]]]]; try done. cbn [enveloped] in Hne. by destruct (is_envelope exe flag).
Qed.

End claims.

(** ** Bounds on what is shown *)

Section shown.
Context `{PyRepr} `{RegexEngine}.

(** A text of at most [n] bytes, or none. *)
Definition text_within (n : Z) (v : pyval) : Prop :=
  match v with PStr s => Z.of_nat (String.length s) <= n | PNone => True | _ => False end.

Lemma pget_app k d1 d2 : pget k (d1 ++ d2) = if dmem k d1 then pget k d1 else pget k d2.
Proof. unfold pget, dmem. induction d1 as [|[k' v] d1 IH]; cbn; [done|]. by case_decide. Qed.

Lemma preview_bytes value lines bytes : 6 <= bytes → Z.of_nat (String.length (bounded_redacted_preview value lines bytes).1) <= bytes.
Proof. apply clip_bytes_length. Qed.

Lemma replace_char_length a b s : String.length (replace_char a b s) = String.length s.
Proof. induction s as [|c s IH]; cbn; [done|by rewrite IH]. Qed.

(** What an artifact may hold: a bounded output preview, a bounded command preview, and a working
    directory that is the workspace's own or a bounded preview. *)
Definition artifact_bounded (d : pydict) : Prop :=
  text_within PREVIEW_BYTES (pget "outputPreview" d) ∧ text_within 512 (pget "commandPreview" d) ∧
  match pget "workingDirectory" d with
  | PStr s => s = "/workspace" ∨ starts_with "/workspace/" s = true ∨ Z.of_nat (String.length s) <= 512
  | PNone => True
  | _ => False
  end.

(** The fields that hold no text of the command. *)
Definition quiet (d : pydict) : Prop :=
  dmem "outputPreview" d = false ∧ dmem "commandPreview" d = false ∧ dmem "workingDirectory" d = false.

Lemma quiet_app d1 d2 : quiet d1 → artifact_bounded d2 → artifact_bounded (d1 ++ d2).
Proof. intros (Ho & Hc & Hw) Hb. unfold artifact_bounded. by rewrite !pget_app, Ho, Hc, Hw. Qed.

Lemma quiet_opt_text k v : bool_decide (k ∈ ["outputPreview"; "commandPreview"; "workingDirectory"]) = false → quiet (opt_text k v).
Proof.
  intros Hk%bool_decide_eq_false. destruct v as [[|a s]|]; try done. unfold quiet, dmem; cbn.
  rewrite !decide_False by (intros <-; apply Hk; set_solver). done.
Qed.
Lemma quiet_opt_int k v : bool_decide (k ∈ ["outputPreview"; "commandPreview"; "workingDirectory"]) = false → quiet (opt_int k v).
Proof.
  intros Hk%bool_decide_eq_false. destruct v as [z|]; try done. unfold quiet, dmem; cbn.
  rewrite !decide_False by (intros <-; apply Hk; set_solver). done.
Qed.

Lemma working_directory_bounded cwd :
  working_directory_hint cwd = "/workspace" ∨ starts_with "/workspace/" (working_directory_hint cwd) = true ∨
  Z.of_nat (String.length (working_directory_hint cwd)) <= 512.
Proof.
  unfold working_directory_hint. case_bool_decide; [by left|]. destruct (starts_with "/workspace/" cwd) eqn:E; [auto|].
  right; right. by apply preview_bytes.
Qed.

Lemma command_fields_bounded c ty item d :
  artifact_bounded d → dmem "commandPreview" d = false → dmem "workingDirectory" d = false → artifact_bounded (command_fields c ty item ++ d).
Proof.
  intros Hd Hc Hw. unfold command_fields. case_bool_decide; [|done]. rewrite <-!app_assoc.
  assert (artifact_bounded (opt_text "evidenceRef" (na_evidence_ref c) ++ opt_int "evidenceExpiresAtMs" (na_evidence_expires_at_ms c) ++ d)) as Hrest.
  { apply quiet_app; [by apply quiet_opt_text|]. apply quiet_app; [by apply quiet_opt_int|done]. }
  set (rest := opt_text _ _ ++ _) in *. clearbody rest.
  destruct Hrest as (Ho & Hcm & Hwd).
  set (cmd := if negb _ then _ else _). set (dir := match pget "cwd" item with PStr (String a s) => _ | _ => _ end).
  assert (Z.of_nat (String.length (command_preview (pget "command" item))) <= 512) as Hcp.
  { unfold command_preview. rewrite replace_char_length. by apply preview_bytes. }
  assert (∃ b : bool, cmd = if b then [("commandPreview", PStr (command_preview (pget "command" item)))] else []) as [b ->] by (by eexists).
  assert (dir = [] ∨ ∃ cwd, dir = [("workingDirectory", PStr (working_directory_hint cwd))]) as Hdir.
  { unfold dir. destruct (pget "cwd" item) as [| | | |[|a s]| |]; eauto. }
  clearbody dir. unfold artifact_bounded. rewrite !pget_app.
  destruct Hdir as [->|[cwd ->]], b; cbn -[working_directory_hint command_preview]; split_and!; try done; apply working_directory_bounded.
Qed.

Lemma output_fields_bounded item d : quiet d → artifact_bounded (output_fields item ++ d).
Proof.
  intros (Ho & Hc & Hw). unfold output_fields.
  assert (artifact_bounded d) as Hd.
  { assert (∀ k, dmem k d = false → pget k d = PNone) as Hn by (intros k; unfold dmem, pget; by destruct (dget k d)).
    unfold artifact_bounded. by rewrite !Hn. }
  destruct (pget "aggregatedOutput" item) as [| | | |[|a s]| |]; try done.
  destruct (bounded_redacted_preview _ _ _) as [preview omitted] eqn:E.
  pose proof (preview_bytes (semantic_workspace_output (String a s) (pget "cwd" item)) PREVIEW_LINES PREVIEW_BYTES) as Hp.
  rewrite E in Hp. split; [by apply Hp|exact (proj2 Hd)].
Qed.

Lemma dmem_app (k : string) (d1 d2 : pydict) : dmem k (d1 ++ d2) = dmem k d1 || dmem k d2.
Proof. unfold dmem. induction d1 as [|[k' v] d1 IH]; cbn; [done|]. by case_decide. Qed.

Lemma quiet_quiet d1 d2 : quiet d1 → quiet d2 → quiet (d1 ++ d2).
Proof. intros (Ho & Hc & Hw) (Ho' & Hc' & Hw'). unfold quiet. by rewrite !dmem_app, Ho, Hc, Hw. Qed.

Lemma quiet_bounded d : quiet d → artifact_bounded d.
Proof.
  intros (Ho & Hc & Hw). assert (∀ k, dmem k d = false → pget k d = PNone) as Hn by (intros k; unfold dmem, pget; by destruct (dget k d)).
  unfold artifact_bounded. by rewrite !Hn.
Qed.

Lemma output_fields_silent k item : k ∈ ["commandPreview"; "workingDirectory"] → dmem k (output_fields item) = false.
Proof.
  intros Hk. unfold output_fields. destruct (pget "aggregatedOutput" item) as [| | | |[|a s]| |]; try done.
  destruct (bounded_redacted_preview _ _ _). unfold dmem; cbn. rewrite !decide_False by set_solver. done.
Qed.

Lemma tool_started_bounded c method ty item e d :
  tool_started_event c method ty item = Ok (Some e) → pget "artifactDelta" (he_actions e) = PDict d → artifact_bounded d.
Proof.
  intros (name & _ & (summary & _ & (kind & _ & [= <-])%bind_Ok)%bind_Ok)%bind_Ok [= <-].
  apply (quiet_app [_; _; _; _]); [by repeat split|]. apply quiet_app; [by apply quiet_opt_text|].
  rewrite <-(app_nil_r (command_fields c ty item)). by apply command_fields_bounded.
Qed.

Lemma tool_finished_bounded c method ty item e d :
  tool_finished_event c method ty item = Ok (Some e) → pget "artifactDelta" (he_actions e) = PDict d → artifact_bounded d.
Proof.
  intros (name & _ & (kind & _ & (failure & Hf & [= <-])%bind_Ok)%bind_Ok)%bind_Ok [= <-].
  assert (quiet failure) as Hq.
  { destruct (tool_failed ty item); [apply bind_Ok in Hf as (reason & _ & [= <-])|injection Hf as <-]; by repeat split. }
  apply (quiet_app [_; _; _; _]); [by repeat split|]. apply quiet_app; [case_bool_decide; by repeat split|]. apply quiet_app; [by apply quiet_opt_text|].
  assert (quiet (opt_int "durationMs" (plain_int (pget "durationMs" item)))) as Hd by (by apply quiet_opt_int).
  assert (quiet (opt_int "exitCode" (plain_int (pget "exitCode" item)))) as Hx by (by apply quiet_opt_int).
  pose proof Hq as (_ & Hq1 & Hq2). pose proof Hd as (_ & Hd1 & Hd2). pose proof Hx as (_ & Hx1 & Hx2).
  apply command_fields_bounded.
  - apply quiet_app; [done|]. apply quiet_app; [done|]. by apply output_fields_bounded.
  - rewrite !dmem_app, Hd1, Hx1, Hq1, output_fields_silent by set_solver. done.
  - rewrite !dmem_app, Hd2, Hx2, Hq2, output_fields_silent by set_solver. done.
Qed.

Lemma tool_output_bounded c method params e d :
  tool_output_event c method params = Some e → pget "artifactDelta" (he_actions e) = PDict d → artifact_bounded d.
Proof.
  unfold tool_output_event. case_bool_decide; [done|].
  destruct (bounded_redacted_preview _ _ _) as [text omitted] eqn:E. intros [= <-] [= <-].
  pose proof (preview_bytes (delta_text params) PREVIEW_LINES PREVIEW_BYTES) as Hp. rewrite E in Hp.
  assert (quiet (opt_text "modelCallId" (na_model_call_id c))) as (_ & Hc & Hw) by (by apply quiet_opt_text).
  assert (∀ k, dmem k (opt_text "modelCallId" (na_model_call_id c)) = false → pget k (opt_text "modelCallId" (na_model_call_id c)) = PNone) as Hn
    by (intros k; unfold dmem, pget; by destruct (dget k _)).
  split; [by apply Hp|]. split.
  - change (text_within 512 (pget "commandPreview" (opt_text "modelCallId" (na_model_call_id c)))). by rewrite Hn.
  - change (match pget "workingDirectory" (opt_text "modelCallId" (na_model_call_id c)) with
            | PStr s => s = "/workspace" ∨ starts_with "/workspace/" s = true ∨ Z.of_nat (String.length s) <= 512
            | PNone => True | _ => False end). by rewrite Hn.
Qed.

(** Nothing a tool printed reaches an event in full: the output shown by an event is at most 4096
    bytes, the command at most 512, and the working directory either lies in the workspace or is
    at most 512 bytes. *)
Theorem shown_text_bounded n c counts e d :
  (normalize_notification n c counts).2 = Ok (Some e) → pget "artifactDelta" (he_actions e) = PDict d → artifact_bounded d.
Proof.
  unfold normalize_notification. case_bool_decide; [|done]. cbn [lift snd]. unfold normalize_known.
  case_bool_decide; [unfold text_event; case_bool_decide; [done|]; by intros [= <-]|].
  case_bool_decide; [unfold reasoning_event; case_bool_decide; [done|]; by intros [= <-]|].
  case_bool_decide.
  { unfold item_event. destruct (pget "item" _) as [| | | | | |item]; try done.
    destruct (_ && _).
    { unfold item_closed_event. destruct (pget "id" item) as [| | | |[|a s]| |]; try done. by intros (phase & _ & [= <-])%bind_Ok. }
    destruct (negb _); [done|]. case_bool_decide; [apply tool_started_bounded|apply tool_finished_bounded]. }
  case_bool_decide; [intros [= ?]; by eapply tool_output_bounded|].
  case_bool_decide; [unfold usage_event; destruct (normalize_usage _) as [[usage|] ?]; [|done]; by intros [= <-]|].
  case_bool_decide; [by intros [= <-]|]. case_bool_decide; [|done].
  unfold plan_event. destruct (pget "plan" _); try done. by intros (counts' & _ & [= <-])%bind_Ok.
Qed.

(** A plan with an item of a status the log does not know: the normalizer makes an event of it and
    the log refuses it. *)
Theorem unknown_plan_status_refused c counts :
  let n := [("method", PStr "turn/plan/updated"); ("params", PDict [("plan", PList [PDict [("status", PStr "blocked")]])])] in
  ∃ e, (normalize_notification n c counts).2 = Ok (Some e) ∧ log_metadata e = Raise (ValueError "invalid typed plan metadata").
Proof. eexists. split; reflexivity. Qed.

End shown.

Module NormalizerExamples.
#[local] Existing Instance RedactExamples.engine.
#[local] Instance no_repr : PyRepr := λ _, "".

Definition call : NormalizeArgs := mkNormalizeArgs "inv" "sess" "turn" "codex" (Some "mc_1") (Some "evd_1") (Some 9).
Definition command_item : pydict :=
  [("type", PStr "commandExecution"); ("id", PStr "call_1"); ("command", PList [PStr "/bin/bash"; PStr "-lc"; PStr "ls -l"]);
   ("cwd", PStr "/workspace/app"); ("status", PStr "completed"); ("exitCode", PInt 2);
   ("aggregatedOutput", PStr "in /workspace/app/x and /workspace/apple")].
Definition finished : pydict := [("method", PStr "item/completed"); ("params", PDict [("item", PDict command_item)])].
Definition artifact : pydict :=
  [("toolCallId", PStr "call_1"); ("toolName", PStr "exec_command"); ("status", PStr "failed"); ("activityKind", PStr "command");
   ("modelCallId", PStr "mc_1"); ("commandPreview", PStr "ls -l"); ("workingDirectory", PStr "/workspace/app");
   ("evidenceRef", PStr "evd_1"); ("evidenceExpiresAtMs", PInt 9); ("exitCode", PInt 2);
   ("outputPreview", PStr "in workspace/x and /workspace/apple"); ("omittedLineCount", PInt 0);
   ("code", PStr "tool_failed"); ("safeReason", PStr "Command failed"); ("retryable", PBool false)].
Definition finished_event : HarnessEvent :=
  mkHarnessEvent "harness.tool.failed" "inv" "sess" "turn" "codex" [("role", PStr "model"); ("parts", PList [])]
    [("artifactDelta", PDict artifact)] (Some "item/completed") None.

Lemma finished_normalizes : (normalize_notification finished call []).2 = Ok (Some finished_event).
Proof. vm_compute. reflexivity. Qed.

Example mcp_names :
  mcp_tool_presentation [("tool", PStr " list.http-url_items!! ")] true = ("read", "Listed HTTP URL items") ∧
  mcp_tool_presentation [("tool", PStr "deploy")] false = ("tool", "Use").
Proof. vm_compute. by split. Qed.

Example quoting : shlex_join ["a b"; "it's"; ""] = "'a b' 'it'" +:+ String dquote_char "'" +:+ String dquote_char "'s' ''".
Proof. vm_compute. reflexivity. Qed.

Lemma normalized_event_accepted_witness :
  carries call (notification_method finished) finished_event ∧
  (∀ status, status ∈ TERMINAL_STATUSES → he_type finished_event ≠ "harness.turn." +:+ status) ∧
  ((∃ haas, log_metadata finished_event = Ok haas) ∨
   ∃ plan, notification_method finished = PLAN_METHOD ∧ pget "plan" (notification_params finished) = PList plan ∧
     forallb counted plan = false ∧ log_metadata finished_event = Raise (ValueError "invalid typed plan metadata")).
Proof. exact (normalized_event_accepted finished call [] finished_event finished_normalizes). Defined.

Lemma shown_text_bounded_witness : artifact_bounded artifact.
Proof. exact (shown_text_bounded finished call [] finished_event artifact finished_normalizes eq_refl). Defined.

End NormalizerExamples.
