(* ===== verification/CodexRpc.v ===== *)
(** * JSON-RPC client of the Codex app-server (haas/harnesses/codex_app_server/rpc.py)

    One [CodexJsonRpc] owns one connection.  Coroutines are cut at their awaits: a request is
    [request_start], [request_sent], then [request_result] or [request_timeout]; the reader task is
    [reader_receive] and [reader_exit]; a subscription is [subscribe], [next_message] and
    [unsubscribe].  Futures are named by the request id they were created for and queues by their number, so that
    the tables hold references as the code's dictionaries and sets do. *)

From S2P Require Import Prelude Errors Dict PyVal Encoding Redact.

#[local] Open Scope string_scope.
#[local] Open Scope list_scope.
#[local] Open Scope Z_scope.

(** ** Exceptions, futures, state *)

Inductive rpc_exn :=
  | CodexNotReadyError
  | CodexConnectionError (msg : string)
  | CodexRequestTimeout (method : string)
  | CodexRPCError (method : string) (code : pyval) (safe_message : string)
  | CodexSubscriberOverloaded (msg : string)
  | CancelledError.

Inductive future :=
  | FutPending
  | FutResult (msg : pydict)
  | FutException (e : rpc_exn)
  | FutCancelled.

Definition fut_done (f : future) : bool := match f with FutPending => false | _ => true end.

(** The two streams a connection publishes. *)
Inductive stream := Notifications | ServerRequests.

(** A stream's history (a deque with a maximal length), its last sequence number and the queues
    subscribed to it. *)
Record channel := mkChannel {
  ch_history : list (Z * pydict);
  ch_sequence : Z;
  ch_subscribers : list nat;
}.
#[export] Instance eta_channel : Eta channel := λ c,
  mkChannel (ch_history c) (ch_sequence c) (ch_subscribers c).

Record CodexJsonRpc := mkRpc {
  rpc_queue_size : Z;
  rpc_request_id : Z;
  rpc_transport : bool;                  (* [_transport is not None] *)
  rpc_connected : bool;
  rpc_initialized : bool;
  rpc_readers : nat;                     (* reader tasks that have not ended *)
  rpc_pending : list Z;                  (* keys of [_pending_requests] *)
  rpc_futures : dict Z future;           (* every future created, by its request id *)
  rpc_notifications : channel;
  rpc_server_requests : channel;
  rpc_queues : list (list pydict);       (* every queue created *)
  rpc_overloaded : list nat;
  rpc_failure : option string;
}.
#[export] Instance eta_rpc : Eta CodexJsonRpc := λ r,
  mkRpc (rpc_queue_size r) (rpc_request_id r) (rpc_transport r) (rpc_connected r) (rpc_initialized r)
    (rpc_readers r) (rpc_pending r) (rpc_futures r) (rpc_notifications r) (rpc_server_requests r)
    (rpc_queues r) (rpc_overloaded r) (rpc_failure r).

Definition new_channel : channel := mkChannel [] 0 [].

Definition new_rpc (queue_size : Z) : CodexJsonRpc :=
  mkRpc queue_size 0 false false false 0 [] [] new_channel new_channel [] [] None.

Definition get_channel (s : stream) (r : CodexJsonRpc) : channel :=
  match s with Notifications => rpc_notifications r | ServerRequests => rpc_server_requests r end.

Definition set_channel (s : stream) (c : channel) (r : CodexJsonRpc) : CodexJsonRpc :=
  match s with
  | Notifications => r <| rpc_notifications := c |>
  | ServerRequests => r <| rpc_server_requests := c |>
  end.

(** ** Messages *)

Inductive message_kind := Response | ServerRequest | Notification | Invalid.

(** [msg_id == n] for an integer key. *)
Definition id_is (v : pyval) (n : Z) : bool := py_eqb v (PInt n).

(** [classify_message]: an unhashable id raises [TypeError]. *)
Definition classify_message (msg : pydict) (pending : list Z) : result message_kind :=
  match pget "id" msg with
  | PNone => Ok (if dmem "method" msg then Notification else Invalid)
  | PList _ | PDict _ => Raise TypeError
  | v => Ok (if existsb (id_is v) pending then Response
             else if dmem "method" msg then ServerRequest else Invalid)
  end.

(** A transport frame: text, bytes, or another object with its [str]. *)
Inductive frame := FrameText (s : string) | FrameBytes (s : string) | FrameOther (s : string).

Section rpc.
Context `{JsonLib} `{BytesText} `{RegexEngine} `{PyRepr}.

Definition decode_message (raw : frame) : option pydict :=
  let text := strip match raw with
                    | FrameText s | FrameOther s => s
                    | FrameBytes s => decode_replace s
                    end in
  if bool_decide (text = "") then None
  else match json_loads text with Some (PDict d) => Some d | _ => None end.

(** ** Futures *)

Definition resolve_future (n : Z) (f : future) (r : CodexJsonRpc) : CodexJsonRpc :=
  match dget n (rpc_futures r) with
  | Some FutPending => r <| rpc_futures := dset n f (rpc_futures r) |>
  | _ => r
  end.

Definition drop_pending (n : Z) (r : CodexJsonRpc) : CodexJsonRpc :=
  r <| rpc_pending := keep (λ m, negb (m =? n)) (rpc_pending r) |>.

(** Fail every pending future and clear the table. *)
Definition fail_pending (msg : string) (r : CodexJsonRpc) : CodexJsonRpc :=
  (foldr (λ n, resolve_future n (FutException (CodexConnectionError msg))) r (rpc_pending r))
    <| rpc_pending := [] |>.

(** ** Requests *)

Definition message_request (n : Z) (method : string) (params : pydict) : pydict :=
  [("jsonrpc", PStr "2.0"); ("id", PInt n); ("method", PStr method); ("params", PDict params)].

(** [request] up to the send: the request id and the message to send. *)
Definition request_start (method : string) (params : pydict) (r : CodexJsonRpc) : CodexJsonRpc * (Z * pydict + rpc_exn) :=
  if negb (rpc_connected r) || negb (rpc_transport r) then (r, inr CodexNotReadyError)
  else
    let n := rpc_request_id r + 1 in
    (r <| rpc_request_id := n |> <| rpc_futures := dset n FutPending (rpc_futures r) |>
       <| rpc_pending := rpc_pending r ++ [n] |>, inl (n, message_request n method params)).

(** The send failed with one of the transport exceptions. *)
Definition request_send_failed (n : Z) (text : string) (r : CodexJsonRpc) : CodexJsonRpc * rpc_exn :=
  ((resolve_future n FutCancelled (drop_pending n r)) <| rpc_connected := false |>,
   CodexConnectionError ("send failed: " +:+ text)).

(** What the answered message means. *)
Definition response_result (method : string) (response : pydict) : pydict + rpc_exn :=
  match dget "error" response with
  | Some error =>
      let '(code, msg) := match error with
                          | PDict e => (pget "code" e, py_str (default (PStr "") (dget "message" e)))
                          | _ => (PNone, py_str error)
                          end in
      inr (CodexRPCError method code (cp_take 200 (safe_upstream_body msg 512)))
  | None => inl match dget "result" response with Some (PDict d) => d | _ => [] end
  end.

(** The awaited future is done; [None] while it is not. *)
Definition request_result (n : Z) (method : string) (r : CodexJsonRpc) : option (pydict + rpc_exn) :=
  match dget n (rpc_futures r) with
  | Some (FutResult msg) => Some (response_result method msg)
  | Some (FutException e) => Some (inr e)
  | Some FutCancelled => Some (inr CancelledError)
  | _ => None
  end.

(** The timeout cancels the wait, and with it the future. *)
Definition request_timeout (n : Z) (method : string) (r : CodexJsonRpc) : CodexJsonRpc * rpc_exn :=
  (drop_pending n (resolve_future n FutCancelled r), CodexRequestTimeout method).

(** The requesting task is cancelled from outside. *)
Definition request_cancelled (n : Z) (r : CodexJsonRpc) : CodexJsonRpc * rpc_exn :=
  (resolve_future n FutCancelled r, CancelledError).

(** [notify] and [respond]: nothing but the send. *)
Definition check_ready (r : CodexJsonRpc) : option rpc_exn :=
  if negb (rpc_connected r) || negb (rpc_transport r) then Some CodexNotReadyError else None.

Definition notify_message (method : string) (params : pydict) (r : CodexJsonRpc) : pydict + rpc_exn :=
  match check_ready r with
  | Some e => inr e
  | None => inl [("jsonrpc", PStr "2.0"); ("method", PStr method); ("params", PDict params)]
  end.

Definition respond_message (request_id : pyval) (res : pydict) (r : CodexJsonRpc) : pydict + rpc_exn :=
  if is_none request_id then inr (CodexConnectionError "server request id is required")
  else match check_ready r with
       | Some e => inr e
       | None => inl [("jsonrpc", PStr "2.0"); ("id", request_id); ("result", PDict res)]
       end.

Definition send_failed (what text : string) (r : CodexJsonRpc) : CodexJsonRpc * rpc_exn :=
  (r <| rpc_connected := false |>, CodexConnectionError (what +:+ " failed: " +:+ text)).

(** ** Publication and subscriptions *)

(** [deque(maxlen=n).append] *)
Definition deque_append {A} (n : Z) (h : list A) (x : A) : list A :=
  drop (Z.to_nat (Z.of_nat (length h) + 1 - n)) (h ++ [x]).

(** [Queue(maxsize=n).put_nowait]; [None] is [QueueFull].  A size of zero is no bound. *)
Definition put_nowait (n : Z) (q : list pydict) (m : pydict) : option (list pydict) :=
  if (0 <? n) && (n <=? Z.of_nat (length q)) then None else Some (q ++ [m]).

Definition discard (q : nat) (l : list nat) : list nat := keep (λ x, negb (Nat.eqb x q)) l.
Definition set_add (q : nat) (l : list nat) : list nat := if existsb (Nat.eqb q) l then l else l ++ [q].

(** The loop of [_publish] over a copy of the subscribers. *)
Fixpoint publish_to (n : Z) (m : pydict) (copy subs over : list nat) (queues : list (list pydict)) :
    list nat * list nat * list (list pydict) :=
  match copy with
  | [] => (subs, over, queues)
  | q :: copy' =>
      match put_nowait n (default [] (queues !! q)) m with
      | Some items => publish_to n m copy' subs over (<[q := items]> queues)
      | None => publish_to n m copy' (discard q subs) (set_add q over) queues
      end
  end.

(** The sequence number is taken and the message published. *)
Definition publish (s : stream) (m : pydict) (r : CodexJsonRpc) : CodexJsonRpc :=
  let c := get_channel s r in
  let n := rpc_queue_size r in
  let sequence := ch_sequence c + 1 in
  let '(subs, over, queues) :=
    publish_to n m (ch_subscribers c) (ch_subscribers c) (rpc_overloaded r) (rpc_queues r) in
  (set_channel s (mkChannel (deque_append n (ch_history c) (sequence, m)) sequence subs) r)
    <| rpc_overloaded := over |> <| rpc_queues := queues |>.

Definition OVERLOADED : rpc_exn := CodexSubscriberOverloaded "Codex app-server turn consumer queue overloaded".
Definition WINDOW_EXCEEDED : rpc_exn :=
  CodexSubscriberOverloaded "Codex app-server replay window was exceeded before subscription".

(** Fill a new queue from the history; [None] when it overflows. *)
Fixpoint replay_history (n after : Z) (history : list (Z * pydict)) (q : list pydict) : option (list pydict) :=
  match history with
  | [] => Some q
  | (sequence, m) :: history' =>
      if after <? sequence then
        match put_nowait n q m with
        | Some q' => replay_history n after history' q'
        | None => None
        end
      else replay_history n after history' q
  end.

(** [_subscription] up to its loop: the number of the new queue. *)
Definition subscribe (s : stream) (after : Z) (r : CodexJsonRpc) : CodexJsonRpc * (nat + rpc_exn) :=
  let c := get_channel s r in
  let exceeded := match ch_history c with (first, _) :: _ => after <? first - 1 | [] => false end in
  if exceeded then (r, inr WINDOW_EXCEEDED)
  else
    match replay_history (rpc_queue_size r) after (ch_history c) [] with
    | None => (r, inr OVERLOADED)
    | Some items =>
        let q := length (rpc_queues r) in
        ((set_channel s (c <| ch_subscribers := set_add q (ch_subscribers c) |>) r)
           <| rpc_queues := rpc_queues r ++ [items] |>, inl q)
    end.

(** [queue in self._overloaded_subscribers], the test at the head of the loop. *)
Definition is_overloaded (q : nat) (r : CodexJsonRpc) : bool := existsb (Nat.eqb q) (rpc_overloaded r).

(** [await queue.get()]; [None] while the queue is empty. *)
Definition queue_get (q : nat) (r : CodexJsonRpc) : option (pydict * CodexJsonRpc) :=
  match rpc_queues r !! q with
  | Some (m :: items) => Some (m, r <| rpc_queues := <[q := items]> (rpc_queues r) |>)
  | _ => None
  end.

(** The [finally] block of a subscription. *)
Definition unsubscribe (s : stream) (q : nat) (r : CodexJsonRpc) : CodexJsonRpc :=
  let c := get_channel s r in
  (set_channel s (c <| ch_subscribers := discard q (ch_subscribers c) |>) r)
    <| rpc_overloaded := discard q (rpc_overloaded r) |>.

(** ** The reader task *)

Inductive reader_end :=
  | ReaderLeaves          (* the loop ends: the connection closed or [_connected] is false *)
  | ReaderCancelled
  | ReaderTransportError
  | ReaderError.

(** The [except] clauses and the [finally] block. *)
Definition reader_exit (why : reader_end) (r : CodexJsonRpc) : CodexJsonRpc :=
  let r' := match why with
            | ReaderTransportError => r <| rpc_failure := Some "Codex app-server transport connection closed" |>
            | ReaderError => r <| rpc_failure := Some "Codex app-server transport reader failed" |>
            | _ => r
            end in
  (fail_pending "connection lost" (r' <| rpc_connected := false |>))
    <| rpc_readers := pred (rpc_readers r) |>.

(** One received frame, then the test of the loop. *)
Definition handle_message (msg : pydict) (r : CodexJsonRpc) : result CodexJsonRpc :=
  match classify_message msg (rpc_pending r) with
  | Raise e => Raise e
  | Ok Response =>
      Ok match find (id_is (pget "id" msg)) (rpc_pending r) with
         | Some n => resolve_future n (FutResult msg) (drop_pending n r)
         | None => r
         end
  | Ok ServerRequest => Ok (publish ServerRequests msg r)
  | Ok Notification => Ok (publish Notifications msg r)
  | Ok Invalid => Ok r
  end.

Definition loop_test (r : CodexJsonRpc) : CodexJsonRpc :=
  if rpc_connected r then r else reader_exit ReaderLeaves r.

Definition reader_receive (raw : frame) (r : CodexJsonRpc) : CodexJsonRpc :=
  match decode_message raw with
  | None => loop_test r
  | Some msg =>
      match handle_message msg r with
      | Ok r' => loop_test r'
      | Raise _ => reader_exit ReaderError r
      end
  end.

(** ** Connecting and closing *)

(** [connect]: nothing to do, or the closing that precedes a new connection. *)
Definition connect_needed (r : CodexJsonRpc) : bool := negb (rpc_connected r && rpc_initialized r).

(** [connect_endpoint] returned: the transport is set and the reader task created. *)
Definition connect_opened (r : CodexJsonRpc) : CodexJsonRpc :=
  r <| rpc_transport := true |> <| rpc_connected := true |> <| rpc_readers := S (rpc_readers r) |>.

(** [connect] clears the diagnostic before it dials. *)
Definition connect_dial (r : CodexJsonRpc) : CodexJsonRpc := r <| rpc_failure := None |>.

(** The handshake has been answered and its notification sent. *)
Definition handshake_done (r : CodexJsonRpc) : CodexJsonRpc := r <| rpc_initialized := true |>.

Definition handshake_params : pydict :=
  [("clientInfo", PDict [("name", PStr "haas"); ("version", PStr "0.1.0")]);
   ("capabilities", PDict [("streaming", PBool true)])].

(** [close] before and after it has waited for the reader and the transport. *)
Definition close_start (r : CodexJsonRpc) : CodexJsonRpc :=
  r <| rpc_connected := false |> <| rpc_initialized := false |>.

Definition clear_history (s : stream) (r : CodexJsonRpc) : CodexJsonRpc :=
  set_channel s ((get_channel s r) <| ch_history := [] |>) r.

Definition close_finish (r : CodexJsonRpc) : CodexJsonRpc :=
  clear_history ServerRequests
    (clear_history Notifications (fail_pending "connection closed" (r <| rpc_transport := false |>))).
End rpc.

(** ** A client with its tasks

    The log of each stream and what each subscription has yielded are kept beside the state, so that
    the theorems can speak of them; nothing else reads them. *)

Record sub := mkSub {
  su_stream : stream;
  su_queue : nat;
  su_from : nat;                (* how much of the log preceded the subscription's first message *)
  su_delivered : list pydict;
  su_waiting : bool;            (* suspended in [queue.get()] *)
  su_open : bool;
}.
#[export] Instance eta_sub : Eta sub := λ s,
  mkSub (su_stream s) (su_queue s) (su_from s) (su_delivered s) (su_waiting s) (su_open s).

Record world := mkWorld {
  w_rpc : CodexJsonRpc;
  w_log_notifications : list pydict;
  w_log_requests : list pydict;
  w_subs : list sub;
}.
#[export] Instance eta_world : Eta world := λ w,
  mkWorld (w_rpc w) (w_log_notifications w) (w_log_requests w) (w_subs w).

Definition new_world (n : Z) : world := mkWorld (new_rpc n) [] [] [].

Definition w_log (s : stream) (w : world) : list pydict :=
  match s with Notifications => w_log_notifications w | ServerRequests => w_log_requests w end.

Definition log_message (p : option (stream * pydict)) (w : world) : world :=
  match p with
  | Some (Notifications, m) => w <| w_log_notifications := w_log_notifications w ++ [m] |>
  | Some (ServerRequests, m) => w <| w_log_requests := w_log_requests w ++ [m] |>
  | None => w
  end.

Inductive rpc_op :=
  | OpDial | OpConnectOpened | OpHandshakeDone | OpCloseStart | OpCloseFinish
  | OpRequest (method : string) (params : pydict)
  | OpRequestSendFailed (n : Z) (text : string)
  | OpRequestTimeout (n : Z) (method : string)
  | OpRequestCancelled (n : Z)
  | OpSendFailed (what text : string)
  | OpReceive (raw : frame)
  | OpReaderExit (why : reader_end)
  | OpSubscribe (s : stream) (after : Z)
  | OpNext (k : nat)
  | OpUnsubscribe (k : nat).

Section worlds.
Context `{JsonLib} `{BytesText} `{RegexEngine} `{PyRepr}.

(** The message a frame publishes, and on which stream. *)
Definition published (raw : frame) (r : CodexJsonRpc) : option (stream * pydict) :=
  match decode_message raw with
  | None => None
  | Some msg =>
      match classify_message msg (rpc_pending r) with
      | Ok ServerRequest => Some (ServerRequests, msg)
      | Ok Notification => Some (Notifications, msg)
      | _ => None
      end
  end.

Definition open_subscription (s : stream) (after : Z) (w : world) : world :=
  match subscribe s after (w_rpc w) with
  | (r, inl q) =>
      let from := (length (w_log s w) - length (default [] (rpc_queues r !! q)))%nat in
      w <| w_rpc := r |> <| w_subs := w_subs w ++ [mkSub s q from [] false true] |>
  | (r, inr _) => w <| w_rpc := r |>
  end.

(** Leave the generator: its [finally] block runs once. *)
Definition leave_subscription (k : nat) (su : sub) (w : world) : world :=
  w <| w_rpc := unsubscribe (su_stream su) (su_queue su) (w_rpc w) |>
    <| w_subs := <[k := su <| su_open := false |>]> (w_subs w) |>.

(** [await queue.get()] and, when there is a message, the yield. *)
Definition get_message (k : nat) (su : sub) (w : world) : world :=
  match queue_get (su_queue su) (w_rpc w) with
  | Some (m, r) =>
      w <| w_rpc := r |>
        <| w_subs := <[k := su <| su_delivered := su_delivered su ++ [m] |> <| su_waiting := false |>]> (w_subs w) |>
  | None => w <| w_subs := <[k := su <| su_waiting := true |>]> (w_subs w) |>
  end.

(** One advance of a subscription: the overload test unless it is already waiting, then the get. *)
Definition advance (k : nat) (su : sub) (w : world) : world :=
  if su_waiting su then get_message k su w
  else if is_overloaded (su_queue su) (w_rpc w) then leave_subscription k su w
  else get_message k su w.

Definition on_sub (k : nat) (f : sub → world → world) (w : world) : world :=
  match w_subs w !! k with
  | Some su => if su_open su then f su w else w
  | None => w
  end.

Definition has_reader (w : world) : bool := match rpc_readers (w_rpc w) with O => false | _ => true end.

Definition rpc_step (w : world) (op : rpc_op) : world :=
  let r := w_rpc w in
  match op with
  | OpDial => w <| w_rpc := connect_dial r |>
  | OpConnectOpened => w <| w_rpc := connect_opened r |>
  | OpHandshakeDone => w <| w_rpc := handshake_done r |>
  | OpCloseStart => w <| w_rpc := close_start r |>
  | OpCloseFinish => w <| w_rpc := close_finish r |>
  | OpRequest method params => w <| w_rpc := (request_start method params r).1 |>
  | OpRequestSendFailed n text => w <| w_rpc := (request_send_failed n text r).1 |>
  | OpRequestTimeout n method => w <| w_rpc := (request_timeout n method r).1 |>
  | OpRequestCancelled n => w <| w_rpc := (request_cancelled n r).1 |>
  | OpSendFailed what text => w <| w_rpc := (send_failed what text r).1 |>
  | OpReceive raw =>
      if has_reader w then log_message (published raw r) (w <| w_rpc := reader_receive raw r |>) else w
  | OpReaderExit why => if has_reader w then w <| w_rpc := reader_exit why r |> else w
  | OpSubscribe s after => open_subscription s after w
  | OpNext k => on_sub k (advance k) w
  | OpUnsubscribe k => on_sub k (leave_subscription k) w
  end.

Definition rpc_run (ops : list rpc_op) (w : world) : world := foldl rpc_step w ops.
End worlds.

(** ** Futures: each request settles once, with a message that carries its id *)

Definition futures_ok (r : CodexJsonRpc) : Prop :=
  0 ≤ rpc_request_id r ∧
  (∀ n f, dget n (rpc_futures r) = Some f → 1 ≤ n ≤ rpc_request_id r) ∧
  (∀ n, dget n (rpc_futures r) = Some FutPending → n ∈ rpc_pending r) ∧
  (∀ n msg, dget n (rpc_futures r) = Some (FutResult msg) → id_is (pget "id" msg) n = true).

(** Futures that are done stay as they are. *)
Definition futures_grow (r r' : CodexJsonRpc) : Prop :=
  ∀ n f, dget n (rpc_futures r) = Some f → fut_done f = true → dget n (rpc_futures r') = Some f.

Lemma set_channel_futures s c r : rpc_futures (set_channel s c r) = rpc_futures r.
Proof. by destruct s. Qed.
Lemma set_channel_pending s c r : rpc_pending (set_channel s c r) = rpc_pending r.
Proof. by destruct s. Qed.
Lemma set_channel_request_id s c r : rpc_request_id (set_channel s c r) = rpc_request_id r.
Proof. by destruct s. Qed.

Lemma resolve_future_same n f r : 
  rpc_pending (resolve_future n f r) = rpc_pending r ∧ rpc_request_id (resolve_future n f r) = rpc_request_id r.
Proof. unfold resolve_future. by repeat case_match. Qed.

Lemma dget_resolve n f r m :
  (m = n ∧ dget n (rpc_futures r) = Some FutPending ∧ dget m (rpc_futures (resolve_future n f r)) = Some f) ∨
  (¬ (m = n ∧ dget n (rpc_futures r) = Some FutPending) ∧
   dget m (rpc_futures (resolve_future n f r)) = dget m (rpc_futures r)).
Proof.
  unfold resolve_future. destruct (dget n (rpc_futures r)) as [[]|] eqn:E; [|naive_solver..]. simpl.
  destruct (decide (m = n)) as [->|Hne]; [left|right]; rewrite dget_dset; case_decide; naive_solver.
Qed.

Ltac resolved m :=
  match goal with
  | |- context [dget m (rpc_futures (resolve_future ?n ?f ?r))] =>
      let E := fresh in destruct (dget_resolve n f r m) as [(E & ? & ->)|[? ->]]; [try subst|]
  end.

Lemma resolve_grow n f r : futures_grow r (resolve_future n f r).
Proof. intros m g Hm Hd. resolved m; naive_solver. Qed.

Lemma grow_refl r : futures_grow r r.
Proof. by intros ???. Qed.
Lemma grow_trans r1 r2 r3 : futures_grow r1 r2 → futures_grow r2 r3 → futures_grow r1 r3.
Proof. unfold futures_grow. eauto. Qed.

#[local] Hint Resolve grow_refl resolve_grow : haas.

(** A future may be resolved by anything but a message with another id. *)
Definition answers (f : future) (n : Z) : Prop :=
  match f with FutResult msg => id_is (pget "id" msg) n = true | _ => True end.

Lemma resolve_ok n f r : futures_ok r → answers f n → f ≠ FutPending → futures_ok (resolve_future n f r).
Proof.
  intros (H0 & H1 & H2 & H3) Ha Hf. destruct (resolve_future_same n f r) as [Ep Ei].
  split_and!; rewrite ?Ep, ?Ei; [done|..]; intros m *; resolved m; intros; simplify_eq; eauto.
Qed.

(** Removing a key from the table is safe once its future is done. *)
Lemma drop_pending_ok n r :
  futures_ok r → dget n (rpc_futures r) ≠ Some FutPending → futures_ok (drop_pending n r).
Proof.
  intros (H0 & H1 & H2 & H3) Hn. split_and!; simpl; eauto.
  intros m Hm. apply elem_of_keep. split; [|by apply H2].
  apply negb_true_iff, Z.eqb_neq. intros ->. done.
Qed.

Lemma resolve_done n f r : f ≠ FutPending → dget n (rpc_futures (resolve_future n f r)) ≠ Some FutPending.
Proof. intros Hf. resolved n; naive_solver. Qed.

Lemma resolve_drop n f r : drop_pending n (resolve_future n f r) = resolve_future n f (drop_pending n r).
Proof. unfold resolve_future, drop_pending. simpl. by repeat case_match. Qed.

Lemma settle_ok n f r :
  futures_ok r → answers f n → f ≠ FutPending → futures_ok (resolve_future n f (drop_pending n r)).
Proof. intros. rewrite <-resolve_drop. apply drop_pending_ok; [by apply resolve_ok|by apply resolve_done]. Qed.

(** Failing a list of futures. *)
Definition fail_all (msg : string) (l : list Z) (r : CodexJsonRpc) : CodexJsonRpc :=
  foldr (λ n, resolve_future n (FutException (CodexConnectionError msg))) r l.

Lemma fail_all_spec msg l r : futures_ok r →
  futures_ok (fail_all msg l r) ∧ futures_grow r (fail_all msg l r) ∧
  rpc_pending (fail_all msg l r) = rpc_pending r ∧
  ∀ n, n ∈ l → dget n (rpc_futures (fail_all msg l r)) ≠ Some FutPending.
Proof.
  intros Hr. induction l as [|x l (IH1 & IH2 & IH3 & IH4)]; simpl.
  - split_and!; [done|apply grow_refl|done|]. intros n Hn. by apply elem_of_nil in Hn.
  - split_and!; [by apply resolve_ok|eauto using grow_trans, resolve_grow| |].
    + by rewrite (proj1 (resolve_future_same _ _ _)).
    + intros n [->|Hn]%elem_of_cons; [by apply resolve_done|].
      resolved n; [done|by apply IH4].
Qed.

Lemma fail_pending_ok msg r : futures_ok r →
  futures_ok (fail_pending msg r) ∧ futures_grow r (fail_pending msg r) ∧
  ∀ n, dget n (rpc_futures (fail_pending msg r)) ≠ Some FutPending.
Proof.
  intros Hr. destruct (fail_all_spec msg (rpc_pending r) r Hr) as ((Z0 & A & B & C) & G & P & D).
  assert (N : ∀ n, dget n (rpc_futures (fail_pending msg r)) ≠ Some FutPending).
  { intros n Hn. apply (D n); [|done]. rewrite <-P. by apply B. }
  split_and!; [split_and!|..]; try done. intros n Hn. by destruct (N n).
Qed.

(** Only these three fields matter. *)
Lemma futures_ok_eq r r' :
  rpc_futures r' = rpc_futures r → rpc_pending r' = rpc_pending r → rpc_request_id r' = rpc_request_id r →
  futures_ok r → futures_ok r' ∧ futures_grow r r'.
Proof. unfold futures_ok, futures_grow. intros -> -> ->. naive_solver. Qed.

Definition keeps_futures (f : CodexJsonRpc → CodexJsonRpc) : Prop :=
  ∀ r, futures_ok r → futures_ok (f r) ∧ futures_grow r (f r).

Section futures.
Context `{JsonLib} `{BytesText} `{RegexEngine} `{PyRepr}.

Lemma publish_keeps s m : keeps_futures (publish s m).
Proof.
  intros r. unfold publish. destruct (publish_to _ _ _ _ _ _) as [[subs over] queues].
  apply futures_ok_eq; simpl; [apply set_channel_futures|apply set_channel_pending|apply set_channel_request_id].
Qed.


Lemma request_start_keeps method params : keeps_futures (λ r, (request_start method params r).1).
Proof.
  intros r (P0 & P1 & P2 & P3). unfold request_start. case_match; simpl; [split; [done|apply grow_refl]|].
  assert (F : dget (rpc_request_id r + 1) (rpc_futures r) = None).
  { destruct (dget _ _) eqn:E; [apply P1 in E; lia|done]. }
  split; [split_and!|intros n f Hf Hd]; simpl; [lia|intros n f|intros n|intros n msg|];
    rewrite ?dget_dset; case_decide; intros; simplify_eq.
  - lia.
  - enough (1 ≤ n ≤ rpc_request_id r) by lia. eauto.
  - set_solver.
  - apply elem_of_app. eauto.
  - eauto.
  - congruence.
Qed.

Lemma reader_exit_keeps why : keeps_futures (reader_exit why).
Proof.
  intros r Hr. unfold reader_exit. cbv zeta.
  match goal with |- context [fail_pending _ ?x] => set (r1 := x) end.
  assert (futures_ok r1 ∧ futures_grow r r1) as [O1 G1] by (destruct why; by apply futures_ok_eq).
  destruct (fail_pending_ok "connection lost" r1 O1) as (O2 & G2 & _).
  split; [|exact (grow_trans _ _ _ G1 G2)]. exact (proj1 (futures_ok_eq _ _ eq_refl eq_refl eq_refl O2)).
Qed.

Lemma loop_test_keeps : keeps_futures loop_test.
Proof. intros r Hr. unfold loop_test. case_match; [split; [done|apply grow_refl]|by apply reader_exit_keeps]. Qed.

Lemma handle_message_keeps msg r r' :
  handle_message msg r = Ok r' → futures_ok r → futures_ok r' ∧ futures_grow r r'.
Proof.
  unfold handle_message. destruct (classify_message _ _) as [[]|] eqn:C; intros [= <-] Hr.
  - destruct (find _ _) as [n|] eqn:F; [|split; [done|apply grow_refl]].
    apply find_some in F as [Hn Hid]. split; [by apply settle_ok|].
    eapply grow_trans; [|apply resolve_grow]. by intros ???.
  - by apply publish_keeps.
  - by apply publish_keeps.
  - split; [done|apply grow_refl].
Qed.

Lemma reader_receive_keeps raw : keeps_futures (reader_receive raw).
Proof.
  intros r Hr. unfold reader_receive.
  destruct (decode_message raw) as [msg|]; [|by apply loop_test_keeps].
  destruct (handle_message msg r) as [r1|] eqn:E; [|by apply reader_exit_keeps].
  destruct (handle_message_keeps _ _ _ E Hr) as [O1 G1]. destruct (loop_test_keeps r1 O1) as [O2 G2].
  eauto using grow_trans.
Qed.

Lemma clear_history_keeps s : keeps_futures (clear_history s).
Proof. intros r. by destruct s; apply futures_ok_eq. Qed.

Lemma close_finish_keeps : keeps_futures close_finish.
Proof.
  intros r Hr. unfold close_finish. match goal with |- context [fail_pending _ ?x] => set (r1 := x) end.
  assert (H1r : futures_ok r1) by (by apply (futures_ok_eq r)).
  destruct (fail_pending_ok "connection closed" r1 H1r) as (O & G & _).
  destruct (clear_history_keeps Notifications _ O) as [O1 G1].
  destruct (clear_history_keeps ServerRequests _ O1) as [O2 G2].
  split; [exact O2|]. exact (grow_trans _ _ _ (grow_trans _ _ _ G G1) G2).
Qed.

(** Failing the pending requests leaves no future waiting and forgets none. *)
Lemma fail_pending_settles msg r k f : futures_ok r → dget k (rpc_futures r) = Some f →
  ∃ f', dget k (rpc_futures (fail_pending msg r)) = Some f' ∧ fut_done f' = true.
Proof.
  intros Hr Hk. destruct (fail_pending_ok msg r Hr) as (_ & _ & N).
  assert (D : ∀ l r0, is_Some (dget k (rpc_futures r0)) → is_Some (dget k (rpc_futures (fail_all msg l r0)))).
  { intros l r0 Hr0. induction l as [|x l IH]; simpl; [done|]. resolved k; eauto. }
  destruct (D (rpc_pending r) r) as [f' Hf']; [eauto|]. exists f'. split; [exact Hf'|].
  specialize (N k). by destruct f'.
Qed.

Lemma reader_exit_settles why r k f : futures_ok r → dget k (rpc_futures r) = Some f →
  ∃ f', dget k (rpc_futures (reader_exit why r)) = Some f' ∧ fut_done f' = true.
Proof.
  intros Hr Hk. unfold reader_exit. cbv zeta. match goal with |- context [fail_pending _ ?x] => set (r1 := x) end.
  assert (O1 : futures_ok r1) by (destruct why; by apply (futures_ok_eq r)).
  apply (fail_pending_settles "connection lost" r1 k f O1). by destruct why.
Qed.

Lemma close_finish_settles r k f : futures_ok r → dget k (rpc_futures r) = Some f →
  ∃ f', dget k (rpc_futures (close_finish r)) = Some f' ∧ fut_done f' = true.
Proof.
  intros Hr Hk. unfold close_finish. match goal with |- context [fail_pending _ ?x] => set (r1 := x) end.
  assert (O1 : futures_ok r1) by (by apply (futures_ok_eq r)).
  destruct (fail_pending_settles "connection closed" r1 k f O1 Hk) as (f' & Hf & Hd). by exists f'.
Qed.

Lemma settles_keeps n f : f ≠ FutPending → answers f n →
  keeps_futures (resolve_future n f) ∧ keeps_futures (λ r, resolve_future n f (drop_pending n r)).
Proof.
  intros Hf Ha. split; intros r Hr; (split; [auto using resolve_ok, settle_ok|]); [apply resolve_grow|].
  eapply grow_trans; [|apply resolve_grow]. by intros ???.
Qed.

Lemma unsubscribe_keeps s q : keeps_futures (unsubscribe s q).
Proof. intros r. by destruct s; apply futures_ok_eq. Qed.

Lemma on_sub_futures k f w :
  (∀ su, futures_ok (w_rpc w) → futures_ok (w_rpc (f su w)) ∧ futures_grow (w_rpc w) (w_rpc (f su w))) →
  futures_ok (w_rpc w) → futures_ok (w_rpc (on_sub k f w)) ∧ futures_grow (w_rpc w) (w_rpc (on_sub k f w)).
Proof. intros Hf Hw. unfold on_sub. repeat case_match; eauto using grow_refl. Qed.

Lemma get_message_futures k su w :
  futures_ok (w_rpc w) → futures_ok (w_rpc (get_message k su w)) ∧ futures_grow (w_rpc w) (w_rpc (get_message k su w)).
Proof. unfold get_message, queue_get. repeat case_match; simplify_eq/=; [|apply futures_ok_eq..]; try done. by apply futures_ok_eq. Qed.

Lemma log_message_rpc p w : w_rpc (log_message p w) = w_rpc w.
Proof. by destruct p as [[[] ?]|]. Qed.

Lemma step_futures w op :
  futures_ok (w_rpc w) → futures_ok (w_rpc (rpc_step w op)) ∧ futures_grow (w_rpc w) (w_rpc (rpc_step w op)).
Proof.
  intros Hw. destruct op; simpl.
  1-4: by apply futures_ok_eq.
  - by apply close_finish_keeps.
  - by apply request_start_keeps.
  - destruct (settles_keeps n FutCancelled) as [_ K]; [done..|]. destruct (K _ Hw) as [O G].
    split; [exact (proj1 (futures_ok_eq _ _ eq_refl eq_refl eq_refl O))|exact G].
  - rewrite resolve_drop. by apply (settles_keeps n FutCancelled).
  - by apply (settles_keeps n FutCancelled).
  - by apply futures_ok_eq.
  - case_match; [|by split; [|apply grow_refl]]. rewrite log_message_rpc. by apply reader_receive_keeps.
  - case_match; [|by split; [|apply grow_refl]]. by apply reader_exit_keeps.
  - unfold open_subscription, subscribe. repeat case_match; simplify_eq/=; destruct s; by apply futures_ok_eq.
  - apply on_sub_futures; [|done]. intros su Hsu. unfold advance.
    repeat case_match; [by apply get_message_futures|by apply unsubscribe_keeps|by apply get_message_futures].
  - apply on_sub_futures; [|done]. intros su Hsu. by apply unsubscribe_keeps.
Qed.

Lemma run_futures ops w :
  futures_ok (w_rpc w) → futures_ok (w_rpc (rpc_run ops w)) ∧ futures_grow (w_rpc w) (w_rpc (rpc_run ops w)).
Proof.
  revert w; induction ops as [|op ops IH]; intros w Hw; simpl; [by split; [|apply grow_refl]|].
  destruct (step_futures w op Hw) as [O G]. destruct (IH _ O) as [O' G']. eauto using grow_trans.
Qed.

Lemma new_world_futures n : futures_ok (w_rpc (new_world n)).
Proof. by split_and!. Qed.
End futures.

(** ** Streams: a subscription yields exactly what was published after its cursor *)

Definition number (l : list pydict) : list (Z * pydict) := imap (λ i m, (Z.of_nat i + 1, m)) l.

Lemma number_app l m : number (l ++ [m]) = number l ++ [(Z.of_nat (length l) + 1, m)].
Proof. unfold number. rewrite imap_app. simpl. by rewrite Nat.add_0_r. Qed.

Lemma length_number l : length (number l) = length l.
Proof. apply length_imap. Qed.

(** The history is the end of the log, numbered, within its maximal length. *)
Definition history_ok (n : Z) (c : channel) (log : list pydict) : Prop :=
  ch_sequence c = Z.of_nat (length log) ∧
  ∃ k, (k ≤ length log)%nat ∧ ch_history c = drop k (number log) ∧ Z.of_nat (length log) - Z.of_nat k ≤ n.

Definition sub_ok (r : CodexJsonRpc) (log : stream → list pydict) (su : sub) : Prop :=
  let subscribed := su_queue su ∈ ch_subscribers (get_channel (su_stream su) r) in
  let rest := drop (su_from su) (log (su_stream su)) in
  (su_from su ≤ length (log (su_stream su)))%nat ∧
  ∃ items, rpc_queues r !! su_queue su = Some items ∧
    su_delivered su ++ items `prefix_of` rest ∧
    (subscribed → su_delivered su ++ items = rest ∧ su_open su = true) ∧
    (su_open su = true → su_queue su ∉ rpc_overloaded r → subscribed).

Definition streams_ok (n : Z) (r : CodexJsonRpc) (log : stream → list pydict) (subs : list sub) : Prop :=
  rpc_queue_size r = n ∧
  (∀ s, history_ok n (get_channel s r) (log s)) ∧
  (∀ s, NoDup (ch_subscribers (get_channel s r))) ∧
  (∀ s q, q ∈ ch_subscribers (get_channel s r) → ∃ su, su ∈ subs ∧ su_queue su = q ∧ su_stream su = s) ∧
  NoDup (su_queue <$> subs) ∧
  (∀ su, su ∈ subs → sub_ok r log su).

Definition world_ok (n : Z) (w : world) : Prop := streams_ok n (w_rpc w) (λ s, w_log s w) (w_subs w).

(** The fields of the state that concern streams. *)
Definition same_streams (r r' : CodexJsonRpc) : Prop :=
  rpc_queue_size r' = rpc_queue_size r ∧ (∀ s, get_channel s r' = get_channel s r) ∧
  rpc_queues r' = rpc_queues r ∧ rpc_overloaded r' = rpc_overloaded r.

Lemma streams_ok_same n r r' log subs : same_streams r r' → streams_ok n r log subs → streams_ok n r' log subs.
Proof.
  intros (E1 & E2 & E3 & E4). unfold streams_ok, sub_ok. rewrite E1.
  intros (? & H2 & H3 & H4 & ? & H6). split_and!; [done|..|done|].
  1-3: intros s *; rewrite E2; eauto.
  intros su Hsu. rewrite E2, E3, E4. by apply H6.
Qed.

Lemma streams_ok_log n r log log' subs : (∀ s, log s = log' s) → streams_ok n r log subs → streams_ok n r log' subs.
Proof.
  intros E. unfold streams_ok, sub_ok. intros (? & ? & ? & ? & ? & Hs). split_and!; try done.
  - intros s. by rewrite <-E.
  - intros su Hsu. rewrite <-E. by apply Hs.
Qed.

Lemma same_streams_refl r : same_streams r r.
Proof. by split_and!. Qed.
Lemma same_streams_trans r1 r2 r3 : same_streams r1 r2 → same_streams r2 r3 → same_streams r1 r3.
Proof. intros (A1 & A2 & A3 & A4) (B1 & B2 & B3 & B4). split_and!; try congruence. Qed.

Lemma resolve_same_streams n f r : same_streams r (resolve_future n f r).
Proof. unfold resolve_future. repeat case_match; try apply same_streams_refl. by split_and!; [|intros []|..]. Qed.

Lemma fail_all_same_streams msg l r : same_streams r (fail_all msg l r).
Proof.
  induction l as [|x l IH]; simpl; [apply same_streams_refl|].
  eapply same_streams_trans; [apply IH|apply resolve_same_streams].
Qed.

Lemma fail_pending_same_streams msg r : same_streams r (fail_pending msg r).
Proof.
  eapply same_streams_trans; [apply (fail_all_same_streams msg (rpc_pending r))|].
  by split_and!; [|intros []|..].
Qed.

Lemma reader_exit_same_streams why r : same_streams r (reader_exit why r).
Proof.
  unfold reader_exit. cbv zeta. match goal with |- context [fail_pending _ ?x] => set (r1 := x) end.
  assert (same_streams r r1) by (destruct why; by split_and!; [|intros []|..]).
  eapply same_streams_trans; [done|]. eapply same_streams_trans; [apply (fail_pending_same_streams "connection lost")|].
  by split_and!; [|intros []|..].
Qed.

Lemma loop_test_same_streams r : same_streams r (loop_test r).
Proof. unfold loop_test. case_match; [apply same_streams_refl|apply reader_exit_same_streams]. Qed.

Lemma elem_discard q x l : q ∈ discard x l ↔ q ∈ l ∧ q ≠ x.
Proof. unfold discard. rewrite elem_of_keep, negb_true_iff, Nat.eqb_neq. tauto. Qed.

Lemma elem_queue_add q x l : q ∈ set_add x l ↔ q ∈ l ∨ q = x.
Proof.
  unfold set_add. destruct (existsb _ l) eqn:E; [|set_solver].
  apply existsb_exists in E as (y & Hy & ->%Nat.eqb_eq). apply list_elem_of_In in Hy. naive_solver.
Qed.

Lemma is_overloaded_iff q r : is_overloaded q r = true ↔ q ∈ rpc_overloaded r.
Proof.
  unfold is_overloaded. rewrite existsb_exists. setoid_rewrite <-list_elem_of_In. setoid_rewrite Nat.eqb_eq. naive_solver.
Qed.

Lemma NoDup_discard x l : NoDup l → NoDup (discard x l).
Proof. intros Hl. unfold discard. rewrite <-(list_fmap_id (keep _ _)). apply keep_NoDup_fmap. by rewrite list_fmap_id. Qed.

(** What publication does to each queue. *)
Lemma publish_to_spec n m copy subs over queues subs' over' queues' :
  NoDup copy → publish_to n m copy subs over queues = (subs', over', queues') →
  (∀ q, q ∈ subs' → q ∈ subs) ∧ (NoDup subs → NoDup subs') ∧
  (∀ q, q ∉ copy → queues' !! q = queues !! q ∧ (q ∈ subs' ↔ q ∈ subs) ∧ (q ∈ over' ↔ q ∈ over)) ∧
  (∀ q items, q ∈ copy → queues !! q = Some items →
     (queues' !! q = Some (items ++ [m]) ∧ (q ∈ subs' ↔ q ∈ subs) ∧ (q ∈ over' ↔ q ∈ over)) ∨
     (queues' !! q = Some items ∧ q ∉ subs' ∧ q ∈ over')).
Proof.
  revert subs over queues. induction copy as [|x copy IH]; intros subs over queues ND; simpl.
  { intros [= -> -> ->]. split_and!; try done. intros q items Hq. by apply elem_of_nil in Hq. }
  apply NoDup_cons in ND as [Hx ND].
  destruct (put_nowait n (default [] (queues !! x)) m) as [items'|] eqn:P;
    intros E; destruct (IH _ _ _ ND E) as (A & B & C & D); clear IH E.
  - split_and!; [done..| |].
    + intros q [Hqx Hq]%not_elem_of_cons. destruct (C q Hq) as (-> & ? & ?). by rewrite list_lookup_insert_ne.
    + intros q items [->|Hq]%elem_of_cons Hi.
      * left. destruct (C x Hx) as (-> & ? & ?). rewrite Hi in P. simpl in P.
        rewrite list_lookup_insert_eq by eauto using lookup_lt_Some.
        unfold put_nowait in P. case_match; naive_solver.
      * apply D; [done|]. rewrite list_lookup_insert_ne; [done|]. by intros ->.
  - split_and!.
    + intros q Hq%A. by apply elem_discard in Hq as [? _].
    + intros Hs. by apply B, NoDup_discard.
    + intros q [Hqx Hq]%not_elem_of_cons. destruct (C q Hq) as (-> & -> & ->).
      rewrite elem_discard, elem_queue_add. naive_solver.
    + intros q items [->|Hq]%elem_of_cons Hi.
      * right. destruct (C x Hx) as (-> & -> & ->). rewrite elem_discard, elem_queue_add. naive_solver.
      * assert (q ≠ x) by (by intros ->). destruct (D q items Hq Hi) as [(-> & -> & ->)|?]; [left|by right].
        rewrite elem_discard, elem_queue_add. naive_solver.
Qed.

Lemma deque_append_ok n c log m : 0 ≤ n → history_ok n c log →
  history_ok n (mkChannel (deque_append n (ch_history c) (ch_sequence c + 1, m)) (ch_sequence c + 1) (ch_subscribers c))
    (log ++ [m]).
Proof.
  intros Hn (Es & k & Hk & Eh & Hl). split; simpl; [rewrite length_app, Es; simpl; lia|].
  set (j := Z.to_nat (Z.of_nat (length (ch_history c)) + 1 - n)).
  assert (Lh : length (ch_history c) = (length log - k)%nat) by (by rewrite Eh, length_drop, length_number).
  exists (k + j)%nat. rewrite length_app. simpl. split_and!.
  - subst j. lia.
  - unfold deque_append. fold j. rewrite number_app, <-drop_drop, (drop_app_le (number log)) by (rewrite length_number; lia).
    by rewrite <-Eh, Es.
  - subst j. lia.
Qed.

Lemma history_ok_subs n h q l l' log : history_ok n (mkChannel h q l) log → history_ok n (mkChannel h q l') log.
Proof. done. Qed.

(** The two streams are independent. *)
Lemma get_set_channel s s' c r :
  get_channel s' (set_channel s c r) = match s, s' with
    | Notifications, Notifications | ServerRequests, ServerRequests => c | _, _ => get_channel s' r end.
Proof. by destruct s, s'. Qed.

Definition log_add (s : stream) (m : pydict) (log : stream → list pydict) : stream → list pydict :=
  λ s', match s, s' with
        | Notifications, Notifications | ServerRequests, ServerRequests => log s' ++ [m]
        | _, _ => log s'
        end.

#[export] Instance stream_eq_dec : EqDecision stream.
Proof. solve_decision. Defined.

Lemma log_add_eq s m log : log_add s m log s = log s ++ [m].
Proof. by destruct s. Qed.
Lemma log_add_ne s s' m log : s' ≠ s → log_add s m log s' = log s'.
Proof. by destruct s, s'. Qed.
Lemma get_set_eq s c r : get_channel s (set_channel s c r) = c.
Proof. by destruct s. Qed.
Lemma get_set_ne s s' c r : s' ≠ s → get_channel s' (set_channel s c r) = get_channel s' r.
Proof. by destruct s, s'. Qed.

(** A queue belongs to one subscription. *)
Lemma queue_owner n r log subs su s :
  streams_ok n r log subs → su ∈ subs → su_queue su ∈ ch_subscribers (get_channel s r) → su_stream su = s.
Proof.
  intros (_ & _ & _ & O & ND & _) Hsu Hq. destruct (O s _ Hq) as (su' & Hsu' & Eq & <-).
  apply list_elem_of_lookup in Hsu as [i Hi], Hsu' as [j Hj].
  assert (i = j) as ->; [|congruence].
  eapply NoDup_lookup; [exact ND|rewrite list_lookup_fmap, Hi; done|rewrite list_lookup_fmap, Hj; simpl; by rewrite Eq].
Qed.

Lemma publish_sub_ok r r' log s m su :
  get_channel (su_stream su) r' = get_channel (su_stream su) r ∧ rpc_queues r' !! su_queue su = rpc_queues r !! su_queue su ∧
  (su_queue su ∈ rpc_overloaded r' ↔ su_queue su ∈ rpc_overloaded r) →
  su_stream su ≠ s → sub_ok r log su → sub_ok r' (log_add s m log) su.
Proof.
  intros (Ec & Eq & Eo) Hs (L & items & Hi & P & A & B). unfold sub_ok. rewrite log_add_ne, Ec, Eq by done.
  split; [done|]. exists items. split_and!; try done. intros HO Hn. apply B; [done|]. by rewrite <-Eo.
Qed.

(** A subscription of the published stream. *)
Lemma publish_own_sub_ok r r' log m su subs' :
  let s := su_stream su in let q := su_queue su in
  ch_subscribers (get_channel s r') = subs' →
  (q ∉ ch_subscribers (get_channel s r) →
     rpc_queues r' !! q = rpc_queues r !! q ∧ (q ∈ subs' ↔ q ∈ ch_subscribers (get_channel s r)) ∧
     (q ∈ rpc_overloaded r' ↔ q ∈ rpc_overloaded r)) →
  (∀ items, q ∈ ch_subscribers (get_channel s r) → rpc_queues r !! q = Some items →
     (rpc_queues r' !! q = Some (items ++ [m]) ∧ (q ∈ subs' ↔ q ∈ ch_subscribers (get_channel s r)) ∧
      (q ∈ rpc_overloaded r' ↔ q ∈ rpc_overloaded r)) ∨
     (rpc_queues r' !! q = Some items ∧ q ∉ subs' ∧ q ∈ rpc_overloaded r')) →
  sub_ok r log su → sub_ok r' (log_add s m log) su.
Proof.
  intros s q Es Hout Hin (L & items & Hi & P & A & B). subst s q. unfold sub_ok. rewrite log_add_eq, Es.
  split; [rewrite length_app; lia|]. rewrite drop_app_le by done.
  destruct (decide (su_queue su ∈ ch_subscribers (get_channel (su_stream su) r))) as [Hq|Hq].
  - destruct (A Hq) as [E Ho]. destruct (Hin items Hq Hi) as [(-> & Hs & Hv)|(-> & Hs & Hv)].
    + exists (items ++ [m]). rewrite <-E, <-app_assoc. split_and!; try done. intros _ _. by apply Hs.
    + exists items. split_and!; [done|rewrite <-E; by apply prefix_app_r|done|]. by intros _ [].
  - destruct (Hout Hq) as (-> & Hs & Hv). exists items. split_and!; [done|by apply prefix_app_r| |].
    + intros ?%Hs. done.
    + intros Ho Hn. apply Hs, B; [done|]. by rewrite <-Hv.
Qed.

Lemma publish_ok n r log subs s m :
  0 ≤ n → streams_ok n r log subs → streams_ok n (publish s m r) (log_add s m log) subs.
Proof.
  intros Hn Hr. pose proof Hr as (En & Hh & Hnd & Hown & Hq & Hs). unfold publish. rewrite En.
  destruct (publish_to _ _ _ _ _ _) as [[subs' over] queues] eqn:E.
  destruct (publish_to_spec _ _ _ _ _ _ _ _ _ (Hnd s) E) as (S1 & S2 & S3 & S4).
  set (c' := mkChannel _ _ _). match goal with |- streams_ok _ ?x _ _ => set (r' := x) end.
  assert (Ec : ∀ s', get_channel s' r' = get_channel s' (set_channel s c' r)) by (by destruct s, s').
  split_and!.
  - by destruct s.
  - intros s'. rewrite Ec. destruct (decide (s' = s)) as [->|Ns].
    + rewrite get_set_eq, log_add_eq. apply (history_ok_subs _ _ _ (ch_subscribers (get_channel s r))), deque_append_ok; auto.
    + rewrite get_set_ne, log_add_ne by done. apply Hh.
  - intros s'. rewrite Ec. destruct (decide (s' = s)) as [->|Ns]; [rewrite get_set_eq; by apply S2|by rewrite get_set_ne].
  - intros s' q. rewrite Ec. destruct (decide (s' = s)) as [->|Ns]; [rewrite get_set_eq; intros Hx%S1; auto|].
    rewrite get_set_ne by done. auto.
  - done.
  - intros su Hsu. destruct (decide (su_stream su = s)) as [<-|Ns].
    + apply (publish_own_sub_ok r r' log m su subs'); [by rewrite Ec, get_set_eq|..|auto]; intros *.
      * apply S3.
      * apply S4.
    + assert (Hout : su_queue su ∉ ch_subscribers (get_channel s r)).
      { intros Hx. apply Ns. by eapply queue_owner. }
      destruct (S3 _ Hout) as (? & ? & ?). apply (publish_sub_ok r); [|done|auto].
      rewrite Ec, get_set_ne by done. done.
Qed.

(** ** Subscribing *)

Definition number_from (o : Z) (l : list pydict) : list (Z * pydict) := imap (λ i m, (o + Z.of_nat i + 1, m)) l.

Lemma number_from_cons o m l : number_from o (m :: l) = (o + 1, m) :: number_from (o + 1) l.
Proof.
  unfold number_from. simpl. rewrite Z.add_0_r. f_equal. apply imap_ext. intros i x _. simpl. f_equal. lia.
Qed.

Lemma drop_number k l : drop k (number l) = number_from (Z.of_nat k) (drop k l).
Proof.
  assert (G : ∀ o, drop k (number_from o l) = number_from (o + Z.of_nat k) (drop k l)).
  { revert l. induction k as [|k IH]; intros [|m l] o; try done; [by rewrite Z.add_0_r|].
    rewrite number_from_cons. simpl. rewrite IH. f_equal. lia. }
  rewrite <-(Z.add_0_l (Z.of_nat k)), <-G. done.
Qed.

Lemma replay_number n after o l q :
  Z.of_nat (length q + length l) ≤ n →
  replay_history n after (number_from o l) q = Some (q ++ drop (Z.to_nat (after - o)) l).
Proof.
  revert o q. induction l as [|m l IH]; intros o q Hl; [by rewrite drop_nil, app_nil_r|].
  rewrite number_from_cons. simpl in *. case_match; bsimp.
  - unfold put_nowait. replace ((0 <? n) && (n <=? Z.of_nat (length q))) with false by lia.
    rewrite IH by (rewrite length_app; simpl; lia).
    replace (Z.to_nat (after - o)) with 0%nat by lia. replace (Z.to_nat (after - (o + 1))) with 0%nat by lia.
    by rewrite !drop_0, <-app_assoc.
  - rewrite IH by lia. by replace (Z.to_nat (after - o)) with (S (Z.to_nat (after - (o + 1)))) by lia.
Qed.

(** The messages a new queue holds: those of the history after the cursor. *)
Lemma replay_ok n c log after k :
  ch_history c = drop k (number log) → (k ≤ length log)%nat → Z.of_nat (length log) - Z.of_nat k ≤ n →
  replay_history n after (ch_history c) [] = Some (drop (k + Z.to_nat (after - Z.of_nat k)) log).
Proof.
  intros -> Hk Hn. rewrite drop_number, replay_number by (rewrite length_drop; simpl; lia). simpl. by rewrite drop_drop.
Qed.

Lemma drop_rest {A} j (l : list A) : drop (length l - length (drop j l)) l = drop j l.
Proof.
  rewrite length_drop. destruct (decide (j ≤ length l)%nat); [f_equal; lia|].
  rewrite (drop_ge l j) by lia. apply drop_ge. lia.
Qed.

(** A subscription is refused only when its cursor lies before the history; otherwise it starts
    right after the cursor, or with the oldest message kept. *)
Lemma subscribe_spec n s after r log subs :
  0 ≤ n → streams_ok n r log subs →
  (∃ first m h, ch_history (get_channel s r) = (first, m) :: h ∧ after < first - 1 ∧
     subscribe s after r = (r, inr WINDOW_EXCEEDED)) ∨
  ∃ r' j, subscribe s after r = (r', inl (length (rpc_queues r))) ∧
    (0 ≤ after ≤ ch_sequence (get_channel s r) →
     after = ch_sequence (get_channel s r) ∨ ch_history (get_channel s r) ≠ [] → j = Z.to_nat after) ∧
    rpc_queue_size r' = n ∧ rpc_queues r' = rpc_queues r ++ [drop j (log s)] ∧ rpc_overloaded r' = rpc_overloaded r ∧
    get_channel s r' = mkChannel (ch_history (get_channel s r)) (ch_sequence (get_channel s r))
      (set_add (length (rpc_queues r)) (ch_subscribers (get_channel s r))) ∧
    ∀ s', s' ≠ s → get_channel s' r' = get_channel s' r.
Proof.
  intros Hn (En & Hh & _). unfold subscribe. destruct (Hh s) as (Es & k & Hk & Eh & Hl).
  rewrite En, (replay_ok n _ _ after k Eh Hk Hl). cbv zeta.
  case_match eqn:Ex.
  - left. destruct (ch_history (get_channel s r)) as [|[first m] h]; [done|]. bsimp. eauto 10.
  - right. eexists _, (k + Z.to_nat (after - Z.of_nat k))%nat. split; [done|].
    split_and!; [|by destruct s..|by destruct s; intros []].
    rewrite Es. intros Ha Hb. rewrite Eh, drop_number in Ex, Hb.
    destruct (drop k (log s)) as [|m h] eqn:Ed.
    + destruct Hb as [Hb|Hb]; [|done]. assert (length (drop k (log s)) = 0%nat) as Z0 by (by rewrite Ed).
      rewrite length_drop in Z0. lia.
    + rewrite number_from_cons in Ex. bsimp. lia.
Qed.

Lemma sub_ok_frame r r' log su :
  rpc_queues r' !! su_queue su = rpc_queues r !! su_queue su →
  (su_queue su ∈ ch_subscribers (get_channel (su_stream su) r') ↔
   su_queue su ∈ ch_subscribers (get_channel (su_stream su) r)) →
  (su_queue su ∈ rpc_overloaded r' ↔ su_queue su ∈ rpc_overloaded r) →
  sub_ok r log su → sub_ok r' log su.
Proof.
  intros Eq Es Eo (L & items & Hi & P & A & B). split; [done|]. exists items. rewrite Eq.
  split_and!; [done..|by rewrite Es|]. rewrite Es, Eo. done.
Qed.

Lemma NoDup_set_add q l : NoDup l → NoDup (set_add q l).
Proof.
  intros Hl. unfold set_add. destruct (existsb _ l) eqn:E; [done|].
  apply NoDup_app. split_and!; [done| |apply NoDup_singleton]. intros x Hx ->%list_elem_of_singleton.
  rewrite <-not_true_iff_false, existsb_exists in E. destruct E. exists q.
  by rewrite <-list_elem_of_In, Nat.eqb_eq.
Qed.

Lemma open_subscription_ok n s after w : 0 ≤ n → world_ok n w → world_ok n (open_subscription s after w).
Proof.
  intros Hn Hw. unfold open_subscription.
  destruct (subscribe_spec n s after _ _ _ Hn Hw) as [(f & m & h & _ & _ & ->)|(r' & j & -> & _ & E1 & E2 & E3 & E4 & E5)];
    [by destruct w|].
  pose proof Hw as (En & Hh & Hnd & Hown & Hq & Hs). set (q := length (rpc_queues (w_rpc w))) in *.
  assert (Fresh : ∀ su, su ∈ w_subs w → (su_queue su < q)%nat).
  { intros su Hsu. destruct (Hs su Hsu) as (_ & it & Hi & _). by apply lookup_lt_Some in Hi. }
  assert (Eq : rpc_queues r' !! q = Some (drop j (w_log s w))) by (rewrite E2; by apply list_lookup_middle).
  rewrite Eq. set (su0 := mkSub _ _ _ _ _ _).
  change (streams_ok n r' (λ s, w_log s w) (w_subs w ++ [su0])).
  assert (Hsub : ∀ s' x, x ∈ ch_subscribers (get_channel s' r') ↔ x ∈ ch_subscribers (get_channel s' (w_rpc w)) ∨ (s' = s ∧ x = q)).
  { intros s' x. destruct (decide (s' = s)) as [->|Ns]; [rewrite E4; simpl; rewrite elem_queue_add; naive_solver|].
    rewrite E5 by done. naive_solver. }
  split_and!; simpl.
  - done.
  - intros s'. destruct (decide (s' = s)) as [->|Ns]; [rewrite E4|rewrite E5 by done]; apply Hh.
  - intros s'. destruct (decide (s' = s)) as [->|Ns]; [rewrite E4; by apply NoDup_set_add|rewrite E5 by done; apply Hnd].
  - intros s' x [Hx|[-> ->]]%Hsub; [destruct (Hown s' x Hx) as (su & ? & ? & ?); exists su|exists su0]; set_solver.
  - rewrite fmap_app. apply NoDup_app. split_and!; [done| |apply NoDup_singleton].
    intros x (su & -> & Hsu)%list_elem_of_fmap Hx%list_elem_of_singleton. specialize (Fresh su Hsu). simpl in Hx. lia.
  - intros su [Hsu| ->%list_elem_of_singleton]%elem_of_app.
    + specialize (Fresh su Hsu). apply (sub_ok_frame (w_rpc w)); [|rewrite Hsub; naive_solver lia|by rewrite E3|by apply Hs].
      rewrite E2. by apply lookup_app_l.
    + split; simpl; [lia|]. exists (drop j (w_log s w)). change (default [] (Some ?x)) with x.
      rewrite drop_rest. split_and!; try done. intros _ _. apply Hsub. by right.
Qed.

(** ** Advancing and leaving a subscription *)

Lemma update_sub_ok n r r' log subs k su su' :
  streams_ok n r log subs → subs !! k = Some su → su_queue su' = su_queue su → su_stream su' = su_stream su →
  rpc_queue_size r' = n →
  (∀ s, ch_history (get_channel s r') = ch_history (get_channel s r) ∧
        ch_sequence (get_channel s r') = ch_sequence (get_channel s r)) →
  (∀ s, NoDup (ch_subscribers (get_channel s r'))) →
  (∀ s q, q ∈ ch_subscribers (get_channel s r') → q ∈ ch_subscribers (get_channel s r)) →
  (∀ q, q ≠ su_queue su → rpc_queues r' !! q = rpc_queues r !! q ∧
     (q ∈ rpc_overloaded r' ↔ q ∈ rpc_overloaded r) ∧
     ∀ s, q ∈ ch_subscribers (get_channel s r') ↔ q ∈ ch_subscribers (get_channel s r)) →
  sub_ok r' log su' → streams_ok n r' log (<[k := su']> subs).
Proof.
  intros (En & Hh & Hnd & Hown & Hq & Hs) Hk Eq Est En' Hhist Hnd' Hsub Hothers Hsu'.
  assert (Lk : (k < length subs)%nat) by eauto using lookup_lt_Some.
  assert (Eqs : su_queue <$> <[k := su']> subs = su_queue <$> subs).
  { rewrite list_fmap_insert, Eq. apply list_insert_id. by rewrite list_lookup_fmap, Hk. }
  split_and!; [done| |done| |by rewrite Eqs|].
  - intros s. destruct (Hhist s) as [E1 E2], (Hh s) as (Es & j & ? & Eh & ?). split; [congruence|].
    exists j. by rewrite E1.
  - intros s q Hx%Hsub. destruct (Hown s q Hx) as (su1 & (i & Hi)%list_elem_of_lookup & E1 & E2).
    destruct (decide (i = k)) as [->|Ni].
    + exists su'. split; [|by simplify_eq]. apply list_elem_of_lookup. exists k. by apply list_lookup_insert_eq.
    + exists su1. split; [|done]. apply list_elem_of_lookup. exists i. by rewrite list_lookup_insert_ne.
  - intros su1 (i & Hi)%list_elem_of_lookup. destruct (decide (i = k)) as [->|Ni].
    + rewrite list_lookup_insert_eq in Hi by done. by simplify_eq.
    + rewrite list_lookup_insert_ne in Hi by done.
      destruct (Hothers (su_queue su1)) as (O1 & O2 & O3).
      { intros Ee. apply Ni. eapply NoDup_lookup; [exact Hq|by rewrite list_lookup_fmap, Hi|].
        simpl. by rewrite list_lookup_fmap, Hk, Ee. }
      apply (sub_ok_frame r); auto. apply Hs, list_elem_of_lookup. eauto.
Qed.

Lemma get_message_ok n k su w :
  w_subs w !! k = Some su → world_ok n w → world_ok n (get_message k su w).
Proof.
  intros Hk Hw. pose proof Hw as (En & Hh & Hnd & Hown & Hq & Hs).
  assert (Hsu : sub_ok (w_rpc w) (λ s, w_log s w) su) by (apply Hs, list_elem_of_lookup; eauto).
  destruct Hsu as (L & items & Hi & P & A & B). unfold get_message, queue_get. rewrite Hi.
  destruct items as [|m items].
  - apply (update_sub_ok n (w_rpc w) (w_rpc w) (λ s, w_log s w) _ _ su); try done.
    split; [done|]. by exists [].
  - match goal with |- context [w <| w_rpc := ?x |>] => set (r' := x) end.
    assert (Ec : ∀ s, get_channel s r' = get_channel s (w_rpc w)) by (by intros []).
    apply (update_sub_ok n (w_rpc w) r' (λ s, w_log s w) _ _ su); try done; try (intros s; by rewrite Ec).
    + intros q Nq. split_and!; [by apply list_lookup_insert_ne|done|]. intros s. by rewrite Ec.
    + split; [done|]. exists items. rewrite Ec. simpl. rewrite <-app_assoc.
      split_and!; try done. apply list_lookup_insert_eq. eauto using lookup_lt_Some.
Qed.

Lemma leave_subscription_ok n k su w :
  w_subs w !! k = Some su → world_ok n w → world_ok n (leave_subscription k su w).
Proof.
  intros Hk Hw. pose proof Hw as (En & Hh & Hnd & Hown & Hq & Hs).
  assert (Hsu : sub_ok (w_rpc w) (λ s, w_log s w) su) by (apply Hs, list_elem_of_lookup; eauto).
  destruct Hsu as (L & items & Hi & P & A & B). unfold leave_subscription.
  set (r' := unsubscribe _ _ _).
  assert (Hsub : ∀ s q, q ∈ ch_subscribers (get_channel s r') ↔
      q ∈ ch_subscribers (get_channel s (w_rpc w)) ∧ (s = su_stream su → q ≠ su_queue su)).
  { intros s q. subst r'. destruct (su_stream su), s; simpl; rewrite ?elem_discard; naive_solver. }
  apply (update_sub_ok n (w_rpc w) r' (λ s, w_log s w) _ _ su); try done.
  - subst r'. by destruct (su_stream su).
  - intros s. subst r'. by destruct (su_stream su), s.
  - intros s. specialize (Hnd s). subst r'. destruct (su_stream su), s; simpl in *; auto using NoDup_discard.
  - intros s q. rewrite Hsub. tauto.
  - intros q Nq. split_and!; [by subst r'; destruct (su_stream su)| |intros s; rewrite Hsub; naive_solver].
    assert (Eo : rpc_overloaded r' = discard (su_queue su) (rpc_overloaded (w_rpc w))) by (by destruct (su_stream su)).
    rewrite Eo, elem_discard. tauto.
  - split; [done|]. exists items. simpl. split_and!; try done; [by subst r'; destruct (su_stream su)|].
    intros [_ []]%Hsub; done.
Qed.

Lemma clear_history_ok n s r log subs : 0 ≤ n → streams_ok n r log subs → streams_ok n (clear_history s r) log subs.
Proof.
  intros Hn (En & Hh & Hnd & Hown & Hq & Hs).
  assert (Es : ∀ s', ch_subscribers (get_channel s' (clear_history s r)) = ch_subscribers (get_channel s' r))
    by (by destruct s; intros []).
  split_and!; [by destruct s| |..|done|].
  - intros s'. destruct (decide (s' = s)) as [->|Ns].
    + destruct (Hh s) as (E & _). unfold clear_history. rewrite get_set_eq. split; [done|].
      exists (length (log s)). split_and!; [done|by rewrite drop_ge; [|rewrite length_number]|lia].
    + unfold clear_history. rewrite get_set_ne by done. apply Hh.
  - intros s'. by rewrite Es.
  - intros s' q. rewrite Es. auto.
  - intros su Hsu. apply (sub_ok_frame r); [by destruct s|by rewrite Es|by destruct s|auto].
Qed.

Section delivery.
Context `{JsonLib} `{BytesText} `{RegexEngine} `{PyRepr}.

Lemma reader_receive_streams raw r :
  same_streams (match published raw r with Some (s, m) => publish s m r | None => r end) (reader_receive raw r).
Proof.
  unfold published, reader_receive. destruct (decode_message raw) as [msg|]; [|apply loop_test_same_streams].
  unfold handle_message. destruct (classify_message _ _) as [[]|]; try apply loop_test_same_streams; [|apply reader_exit_same_streams].
  eapply same_streams_trans; [|apply loop_test_same_streams].
  destruct (find _ _); [|apply same_streams_refl].
  eapply same_streams_trans; [|apply resolve_same_streams]. by split_and!; [|intros []|..].
Qed.

Lemma receive_ok n raw w : 0 ≤ n → world_ok n w →
  world_ok n (log_message (published raw (w_rpc w)) (w <| w_rpc := reader_receive raw (w_rpc w) |>)).
Proof.
  intros Hn Hw. pose proof (reader_receive_streams raw (w_rpc w)) as S.
  destruct (published raw (w_rpc w)) as [[s m]|]; [|by eapply streams_ok_same].
  pose proof (publish_ok n (w_rpc w) (λ s, w_log s w) (w_subs w) s m Hn Hw) as P.
  apply (streams_ok_same n _ _ _ _ S) in P. destruct s; (eapply streams_ok_log; [|exact P]); by intros [].
Qed.

Lemma request_start_same_streams method params r : same_streams r (request_start method params r).1.
Proof. unfold request_start. case_match; by split_and!; [|intros []|..]. Qed.

Lemma on_sub_ok n k f w :
  (∀ su, w_subs w !! k = Some su → world_ok n (f su w)) → world_ok n w → world_ok n (on_sub k f w).
Proof. intros Hf Hw. unfold on_sub. repeat case_match; eauto. Qed.

Lemma step_ok n w op : 0 ≤ n → world_ok n w → world_ok n (rpc_step w op).
Proof.
  intros Hn Hw. destruct op; simpl.
  1-4: apply (streams_ok_same n (w_rpc w)); [by split_and!; [|intros []|..]|done].
  - apply clear_history_ok, clear_history_ok; [done..|].
    eapply streams_ok_same; [apply fail_pending_same_streams|].
    apply (streams_ok_same n (w_rpc w)); [by split_and!; [|intros []|..]|done].
  - by eapply streams_ok_same; [apply request_start_same_streams|].
  - unfold request_send_failed. apply (streams_ok_same n (resolve_future n0 FutCancelled (drop_pending n0 (w_rpc w))));
      [by split_and!; [|intros []|..]|].
    eapply streams_ok_same; [apply resolve_same_streams|].
    apply (streams_ok_same n (w_rpc w)); [by split_and!; [|intros []|..]|done].
  - apply (streams_ok_same n (resolve_future n0 FutCancelled (w_rpc w))); [by split_and!; [|intros []|..]|].
    by eapply streams_ok_same; [apply resolve_same_streams|].
  - by eapply streams_ok_same; [apply resolve_same_streams|].
  - apply (streams_ok_same n (w_rpc w)); [by split_and!; [|intros []|..]|done].
  - case_match; [by apply receive_ok|done].
  - case_match; [|done]. by eapply streams_ok_same; [apply reader_exit_same_streams|].
  - by apply open_subscription_ok.
  - apply on_sub_ok; [|done]. intros su Hk. unfold advance.
    repeat case_match; [by apply get_message_ok|by apply leave_subscription_ok|by apply get_message_ok].
  - apply on_sub_ok; [|done]. intros su Hk. by apply leave_subscription_ok.
Qed.

Lemma rpc_run_ok n ops w : 0 ≤ n → world_ok n w → world_ok n (rpc_run ops w).
Proof. intros Hn. revert w. induction ops as [|op ops IH]; intros w Hw; simpl; [done|]. by apply IH, step_ok. Qed.

Lemma new_world_ok n : 0 ≤ n → world_ok n (new_world n).
Proof.
  intros Hn. split_and!; [done|..|apply NoDup_nil_2|by intros su ?%elem_of_nil].
  - intros []; (split; [done|]); by exists 0%nat.
  - intros []; apply NoDup_nil_2.
  - intros [] q Hq; by apply elem_of_nil in Hq.
Qed.

(** A subscription keeps its queue, its stream and its starting point. *)
Definition same_sub (su su' : sub) : Prop :=
  su_stream su' = su_stream su ∧ su_queue su' = su_queue su ∧ su_from su' = su_from su.

Lemma same_sub_insert k k' su su1 su1' (l : list sub) :
  l !! k = Some su → l !! k' = Some su1 → same_sub su1 su1' →
  ∃ su', <[k' := su1']> l !! k = Some su' ∧ same_sub su su'.
Proof.
  intros Hk Hk' Hs. destruct (decide (k = k')) as [<-|Hne].
  - exists su1'. simplify_eq. split; [|done]. apply list_lookup_insert_eq. eauto using lookup_lt_Some.
  - exists su. split; [by rewrite list_lookup_insert_ne|done].
Qed.

Lemma step_same_sub w op k su : w_subs w !! k = Some su → ∃ su', w_subs (rpc_step w op) !! k = Some su' ∧ same_sub su su'.
Proof.
  intros Hk. assert (Hid : ∃ su', w_subs w !! k = Some su' ∧ same_sub su su') by by exists su.
  destruct op; simpl; try done.
  - case_match; [|done]. by destruct (published _ _) as [[[] ?]|].
  - by case_match.
  - unfold open_subscription. repeat case_match; simpl; [|done]. exists su. split; [by apply lookup_app_l_Some|done].
  - unfold on_sub. repeat case_match; try done. unfold advance, leave_subscription, get_message, queue_get.
    repeat case_match; simplify_eq/=; by eapply same_sub_insert.
  - unfold on_sub, leave_subscription. repeat case_match; try done. by eapply same_sub_insert.
Qed.

Lemma run_same_sub ops w k su : w_subs w !! k = Some su → ∃ su', w_subs (rpc_run ops w) !! k = Some su' ∧ same_sub su su'.
Proof.
  revert w su. induction ops as [|op ops IH]; intros w su Hk; simpl; [by exists su|].
  destruct (step_same_sub w op k su Hk) as (su1 & K1 & S1). destruct (IH _ _ K1) as (su2 & K2 & S2).
  exists su2. split; [done|]. unfold same_sub in *. naive_solver congruence.
Qed.

(** C11: A subscription opened at a cursor the client has read, while the history still holds messages or
    the cursor is the newest, is refused only when the next message has already left the history.
    Otherwise, whatever else happens on the connection and whatever other consumers do, what it
    yields is always an initial part of the messages published after the cursor, in order; and
    as long as it is open and its queue has not overflowed, what it yielded and what waits in
    its queue are exactly those messages. *)
Theorem subscription_delivers_exactly n before s after later :
  0 ≤ n →
  let w := rpc_run before (new_world n) in
  let c := get_channel s (w_rpc w) in
  0 ≤ after ≤ ch_sequence c → after = ch_sequence c ∨ ch_history c ≠ [] →
  let w' := rpc_run later (rpc_step w (OpSubscribe s after)) in
  (∃ first m h, ch_history c = (first, m) :: h ∧ after + 1 < first ∧
     (subscribe s after (w_rpc w)).2 = inr WINDOW_EXCEEDED) ∨
  ∃ su items, w_subs w' !! length (w_subs w) = Some su ∧ rpc_queues (w_rpc w') !! su_queue su = Some items ∧
    let published_after := drop (Z.to_nat after) (w_log s w') in
    su_delivered su `prefix_of` published_after ∧
    (su_open su = true → is_overloaded (su_queue su) (w_rpc w') = false → su_delivered su ++ items = published_after).
Proof.
  intros Hn w c Ha Hc w'. pose proof (rpc_run_ok n before _ Hn (new_world_ok n Hn)) as Hw. fold w in Hw.
  destruct (subscribe_spec n s after _ _ _ Hn Hw) as [(f & m & h & E1 & E2 & E3)|(r' & j & E & Ej & E1 & E2 & _)].
  { left. exists f, m, h. split_and!; [done|lia|]. by rewrite E3. }
  right. specialize (Ej Ha Hc). subst j. set (q := length (rpc_queues (w_rpc w))) in *.
  assert (Hin : w_subs (rpc_step w (OpSubscribe s after)) !! length (w_subs w) =
      Some (mkSub s q (length (w_log s w) - length (drop (Z.to_nat after) (w_log s w))) [] false true)).
  { simpl. unfold open_subscription. rewrite E, E2. simpl. subst q.
    by rewrite list_lookup_middle, list_lookup_middle. }
  destruct (run_same_sub later _ _ _ Hin) as (su & Hsu & Es & Eq & Ef). fold w' in Hsu.
  pose proof (rpc_run_ok n later _ Hn (step_ok n w (OpSubscribe s after) Hn Hw)) as (_ & _ & _ & _ & _ & Hs).
  destruct (Hs su) as (L & items & Hi & P & A & B); [apply list_elem_of_lookup; eauto|].
  assert (Hfrom : su_from su = Z.to_nat after).
  { destruct Hw as (_ & Hh & _). destruct (Hh s) as (El & _). subst c. rewrite Ef. simpl. rewrite length_drop. lia. }
  rewrite Es, Hfrom in *. exists su, items. cbv zeta. split_and!; [done..|by eapply prefix_app_l|].
  intros Ho Hv. apply A, B; [done|]. intros Hx%is_overloaded_iff. fold w' in Hx. congruence.
Qed.

(** C12: Every request the client makes gets one future, which settles at most once and then never changes:
    with a message that carries the request's own id, or with an error or a cancellation.  When the
    reader task ends, for whatever reason, and when the connection is closed, no future is left
    waiting. *)
Theorem requests_settle_once n before k f :
  let r := w_rpc (rpc_run before (new_world n)) in
  dget k (rpc_futures r) = Some f →
  (∀ msg, f = FutResult msg → id_is (pget "id" msg) k = true) ∧
  (fut_done f = true → ∀ later,
     dget k (rpc_futures (w_rpc (rpc_run later (rpc_run before (new_world n))))) = Some f) ∧
  (∀ why, ∃ f', dget k (rpc_futures (reader_exit why r)) = Some f' ∧ fut_done f' = true) ∧
  (∃ f', dget k (rpc_futures (close_finish r)) = Some f' ∧ fut_done f' = true).
Proof.
  intros r Hk. destruct (run_futures before _ (new_world_futures n)) as [O _]. fold r in O.
  split_and!.
  - intros msg ->. by apply O.
  - intros Hd later. by apply (run_futures later _ O).
  - intros why. by eapply reader_exit_settles.
  - by eapply close_finish_settles.
Qed.
End delivery.

(** ** Examples *)

Module RpcExamples.
#[local] Instance json : JsonLib := {|
  json_loads := λ s,
    if bool_decide (s = "approval") then
      Some (PDict [("id", PInt 1); ("method", PStr "item/commandExecution/requestApproval"); ("params", PDict [])])
    else if bool_decide (s = "answer") then Some (PDict [("id", PInt 1); ("result", PDict [("ok", PBool true)])])
    else if bool_decide (s = "bad") then None
    else Some (PDict [("method", PStr "item/agentMessage/delta"); ("params", PDict [("delta", PStr s)])]);
  json_compact := λ _, "" |}.
#[local] Instance bytes_text : BytesText := λ s, s.
#[local] Instance regex : RegexEngine := {|
  pattern := string; re_sub := λ _ _ s, s; re_search := λ _ _, false; inline_credential_sub := λ s, s;
  TOKEN_PATTERNS := []; CREDENTIAL_FIELD := ""; ABSOLUTE_PATH_RE := "" |}.
#[local] Instance repr : PyRepr := λ _, "".

Definition connected : list rpc_op :=
  [OpDial; OpConnectOpened; OpRequest "initialize" handshake_params; OpReceive (FrameText "answer"); OpHandshakeDone].

Definition delta (s : string) : pydict :=
  [("method", PStr "item/agentMessage/delta"); ("params", PDict [("delta", PStr s)])].

(** A consumer that subscribes at cursor 1 receives the second and third message; its peer overflows a
    queue of two and is told so, without effect on it. *)
Example peers_are_isolated :
  let w := rpc_run (connected ++ [OpReceive (FrameText "a"); OpSubscribe Notifications 0; OpReceive (FrameBytes "b");
                                  OpSubscribe Notifications 1; OpNext 1; OpReceive (FrameText "c"); OpNext 1; OpNext 0])
             (new_world 2) in
  (su_delivered <$> w_subs w) = [[]; [delta "b"; delta "c"]] ∧ (su_open <$> w_subs w) = [false; true].
Proof. vm_compute. done. Qed.

Lemma subscription_delivers_exactly_witness :
  let w := rpc_run (connected ++ [OpReceive (FrameText "a"); OpReceive (FrameText "b")]) (new_world 2) in
  let w' := rpc_run [OpNext 0; OpReceive (FrameText "c")] (rpc_step w (OpSubscribe Notifications 1)) in
  ∃ su items, w_subs w' !! 0%nat = Some su ∧ rpc_queues (w_rpc w') !! su_queue su = Some items ∧
    su_delivered su `prefix_of` drop 1 (w_log Notifications w') ∧ su_delivered su ++ items = [delta "b"; delta "c"].
Proof.
  intros w w'.
  destruct (subscription_delivers_exactly 2 (connected ++ [OpReceive (FrameText "a"); OpReceive (FrameText "b")])
    Notifications 1 [OpNext 0; OpReceive (FrameText "c")]) as [(f & m & h & E & _ & X)|(su & items & E & Ei & P & D)].
  - lia.
  - vm_compute. split; discriminate.
  - right. vm_compute. discriminate.
  - exfalso. vm_compute in X. discriminate.
  - exists su, items. split; [exact E|]. split; [exact Ei|]. split; [exact P|].
    apply D; vm_compute in E; injection E as <-; vm_compute; reflexivity.
Defined.

Lemma requests_settle_once_witness :
  let r := w_rpc (rpc_run [OpConnectOpened; OpRequest "turn/start" []] (new_world 10)) in
  dget 1 (rpc_futures r) = Some FutPending ∧
  ∃ f', dget 1 (rpc_futures (close_finish r)) = Some f' ∧ fut_done f' = true.
Proof.
  intros r. split; [reflexivity|].
  apply (requests_settle_once 10 [OpConnectOpened; OpRequest "turn/start" []] 1 FutPending). reflexivity.
Defined.

(** Request ids are compared across directions: a request of the server whose own id equals that of
    a request the client is waiting on is taken for its answer.  The client's request then
    returns an empty result, and the server's request reaches no consumer. *)
Theorem server_request_taken_for_answer :
  let w := rpc_run [OpConnectOpened; OpRequest "turn/start" []; OpReceive (FrameText "approval")] (new_world 10) in
  request_result 1 "turn/start" (w_rpc w) = Some (inl []) ∧ w_log_requests w = [] ∧
  ch_history (rpc_server_requests (w_rpc w)) = [].
Proof. vm_compute. done. Qed.

(** Closing forgets the history, so a subscription at a cursor read before does not learn that it missed
    messages. *)
Example close_hides_gap :
  let w := rpc_run (connected ++ [OpReceive (FrameText "a"); OpReceive (FrameText "b"); OpCloseStart; OpReaderExit ReaderCancelled;
                                  OpCloseFinish; OpConnectOpened; OpSubscribe Notifications 1; OpReceive (FrameText "c"); OpNext 0])
             (new_world 5) in
  (su_delivered <$> w_subs w) = [[delta "c"]] ∧ drop 1 (w_log_notifications w) = [delta "b"; delta "c"].
Proof. vm_compute. done. Qed.
End RpcExamples.
