(* ===== verification/CodexTurn.v ===== *)
(** * What a native turn's messages mean (haas/harnesses/codex_app_server/adapter.py, the pure part)

    Which thread and turn a message names, whether it ends the turn and with what status, the
    code and reason of a failure, the input a turn starts with, and the model call every activity
    is filed under ([_TurnContext] and [_model_call_id], a state machine over notifications). *)

From stdpp Require Import gmap.
From S2P Require Import Prelude Errors Dict PyVal Json EventStore Redact Events Normalizer.

#[local] Open Scope string_scope.
#[local] Open Scope list_scope.
#[local] Open Scope Z_scope.

(** ** Turn contexts *)

(** [_TurnContext] *)
Record TurnContext := mkTurnContext {
  tc_turn_id : string; tc_session_id : string; tc_invocation_id : string; tc_thread_id : string; tc_codex_turn_id : string;
  tc_timeout_seconds : spec_float; tc_started_at : spec_float;
  tc_terminal_status : option string; tc_terminal_event : option HarnessEvent;
  tc_principal_id : string; tc_user_id : string; tc_app_name : string;
  tc_model_call_ordinal : Z; tc_current_model_call_id : option string;
  tc_notification_cursor : Z; tc_server_request_cursor : Z;
  tc_current_model_call_metered : bool; tc_completed_tool_in_model_call : bool; tc_model_call_boundary_observed : bool;
  tc_active_tool_ids : gset string; tc_item_model_calls : dict string string; tc_tool_model_calls : dict string string;
}.
#[export] Instance eta_TurnContext : Eta TurnContext := λ c, mkTurnContext
  (tc_turn_id c) (tc_session_id c) (tc_invocation_id c) (tc_thread_id c) (tc_codex_turn_id c)
  (tc_timeout_seconds c) (tc_started_at c) (tc_terminal_status c) (tc_terminal_event c)
  (tc_principal_id c) (tc_user_id c) (tc_app_name c) (tc_model_call_ordinal c) (tc_current_model_call_id c)
  (tc_notification_cursor c) (tc_server_request_cursor c)
  (tc_current_model_call_metered c) (tc_completed_tool_in_model_call c) (tc_model_call_boundary_observed c)
  (tc_active_tool_ids c) (tc_item_model_calls c) (tc_tool_model_calls c).

(** ** Reading a message *)

(** The first of the keys that holds a string, the empty one included. *)
Fixpoint first_text (keys : list string) (d : pydict) : option string :=
  match keys with
  | [] => None
  | k :: keys' => match pget k d with PStr s => Some s | _ => first_text keys' d end
  end.

(** The same keys of [params], when that is a dictionary. *)
Definition params_text (keys : list string) (n : pydict) : option string :=
  match pget "params" n with PDict params => first_text keys params | _ => None end.

(** [_notification_thread_id] *)
Definition notification_thread_id (n : pydict) : string :=
  match first_text ["threadId"; "thread_id"] n with
  | Some s => s
  | None => default "" (params_text ["threadId"; "thread_id"] n)
  end.

(** [params["turn"]["id"]], where it is a string. *)
Definition params_turn_id (n : pydict) : string :=
  match pget "params" n with
  | PDict params => match pget "turn" params with
                    | PDict turn => match pget "id" turn with PStr s => s | _ => "" end
                    | _ => ""
                    end
  | _ => ""
  end.

(** [_notification_turn_id] *)
Definition notification_turn_id (n : pydict) : string :=
  match first_text ["turnId"; "turn_id"] n with
  | Some s => s
  | None => match params_text ["turnId"; "turn_id"] n with Some s => s | None => params_turn_id n end
  end.

(** A string that is not empty. *)
Definition nonempty_text (v : pyval) : option string :=
  match v with PStr (String a s) => Some (String a s) | _ => None end.

(** [_notification_type] *)
Definition notification_type (n : pydict) : string :=
  match nonempty_text (pget "type" n) with
  | Some s => s
  | None =>
      match match pget "params" n with PDict params => nonempty_text (pget "type" params) | _ => None end with
      | Some s => s
      | None => match pget "method" n with PStr s => s | _ => "" end
      end
  end.

(** [_belongs_to_turn] *)
Definition belongs_to_turn (n : pydict) (c : TurnContext) : bool :=
  let thread_id := notification_thread_id n in
  let turn_id := notification_turn_id n in
  if negb (bool_decide (thread_id = "")) && negb (bool_decide (thread_id = tc_thread_id c)) then false
  else negb (negb (bool_decide (turn_id = "")) && negb (bool_decide (turn_id = tc_codex_turn_id c))).

(** ** Terminal notifications *)

Definition TERMINAL_METHODS : dict string string :=
  [("turn/completed", "completed"); ("turn/failed", "failed"); ("turn/interrupted", "interrupted"); ("turn/cancelled", "cancelled")].

(** [params["turn"]], where it is a dictionary. *)
Definition params_turn (n : pydict) : option pydict :=
  match pget "params" n with
  | PDict params => match pget "turn" params with PDict turn => Some turn | _ => None end
  | _ => None
  end.

Section terminals.
Context `{PyRepr} `{RegexEngine}.

(** [_terminal_status] *)
Definition native_terminal_status (n : pydict) : option string :=
  let event_type := notification_type n in
  if bool_decide (event_type = "turn/completed") then
    let raw_status := match params_turn n with
                      | Some turn => py_str (default (PStr "completed") (dget "status" turn))
                      | None => "completed"
                      end in
    Some (if bool_decide (raw_status ∈ ["completed"; "failed"; "cancelled"; "interrupted"]) then raw_status
          else if bool_decide (raw_status = "stopped") then "completed" else "failed")
  else dget event_type TERMINAL_METHODS.

(** [code_map] *)
Definition FAILURE_CODES : dict string (string * bool) :=
  [("rateLimitExceeded", ("haas_rate_limited", true)); ("usageLimitExceeded", ("haas_rate_limited", true));
   ("serverOverloaded", ("haas_provider_error", true)); ("internalServerError", ("haas_provider_error", true));
   ("httpConnectionFailed", ("haas_provider_error", true)); ("responseStreamConnectionFailed", ("haas_provider_error", true));
   ("responseStreamDisconnected", ("haas_provider_error", true)); ("responseTooManyFailedAttempts", ("haas_provider_error", true));
   ("unauthorized", ("haas_model_proxy_token_invalid", true)); ("contextWindowExceeded", ("haas_model_unavailable", false));
   ("sessionBudgetExceeded", ("haas_model_unavailable", false))].

(** [_terminal_failure_details]: code, reason, retryable. *)
Definition terminal_failure_details (n : pydict) : string * string * bool :=
  let error := match params_turn n with Some turn => as_dict (pget "error" turn) | None => [] end in
  let info_key := match pget "codexErrorInfo" error with
                  | PStr s => s
                  | PDict ((k, _) :: _) => k
                  | _ => "other"
                  end in
  let '(code, retryable) := default ("haas_provider_error", false) (dget info_key FAILURE_CODES) in
  (code, safe_upstream_body (str_or (pget "message" error) "Codex turn failed") 512, retryable).

(** The keyword arguments of [_terminal_harness_event]. *)
Record terminal_details := mkDetails { td_code : option string; td_reason : option string; td_retryable : option bool }.
Definition no_details : terminal_details := mkDetails None None None.

(** [_terminal_harness_event] *)
Definition terminal_harness_event (c : TurnContext) (status : string) (t : terminal_details) : HarnessEvent :=
  let state := [("status", PStr status)] ++
    (match td_code t with Some s => [("code", PStr s)] | None => [] end) ++
    (match td_reason t with Some s => [("reason", PStr s)] | None => [] end) ++
    (match td_retryable t with Some b => [("retryable", PBool b)] | None => [] end) in
  mkHarnessEvent ("harness.turn." +:+ status) (tc_invocation_id c) (tc_session_id c) (tc_turn_id c) "codex"
    [("role", PStr "model"); ("parts", PList [])] [("stateDelta", PDict state)] None None.

End terminals.

(** ** The input of a turn *)

(** [_disabled_tools] *)
Definition disabled_tools (policy : pydict) : list string :=
  match pget "tools" policy with
  | PDict tools =>
      match pget "disabled" tools with
      | PList names => omap nonempty_text names
      | _ => []
      end
  | _ => []
  end.

Definition text_item (text : string) : pydict := [("type", PStr "text"); ("text", PStr text)].

(** The texts of a message's parts. *)
Definition part_text (part : pyval) : option string :=
  match part with PDict d => match pget "text" d with PStr s => Some s | _ => None end | _ => None end.

Section input.
Context `{PyRepr}.

(** One item of the loop of [_to_codex_input]. *)
Definition codex_items (allow_native_passthrough : bool) (item : pyval) : result (list pydict) :=
  match item with
  | PDict d =>
      if dmem "type" d then
        if allow_native_passthrough then Ok [d]
        else Raise (HaaSTurnInputInvalid "native harness input items are not accepted on the northbound path")
      else
        match pget "parts" d with
        | PList parts =>
            let extra := keep (λ k, negb (bool_decide (k ∈ ["role"; "parts"]))) (dkeys d) in
            if negb (bool_decide (extra = []))
            then Raise (HaaSTurnInputInvalid ("unexpected input fields: " +:+ py_repr (PList (PStr <$> py_sorted str_leb extra))))
            else Ok (text_item <$> omap part_text parts)
        | _ => Ok match pget "text" d with PStr s => [text_item s] | _ => [] end
        end
  | _ => Ok []
  end.

Fixpoint codex_items_all (allow_native_passthrough : bool) (items : list pyval) : result (list pydict) :=
  match items with
  | [] => Ok []
  | item :: items' =>
      here ← codex_items allow_native_passthrough item;
      rest ← codex_items_all allow_native_passthrough items';
      Ok (here ++ rest)
  end.

(** [_to_codex_input] *)
Definition to_codex_input (items : list pyval) (allow_native_passthrough : bool) : result (list pydict) :=
  codex_input ← codex_items_all allow_native_passthrough items;
  Ok match codex_input with [] => [text_item ""] | _ => codex_input end.

End input.

(** ** Model calls *)

(** [f"mcall_{n:04d}"] *)
Definition pad4 (s : string) : string := zeros (4 - String.length s) s.
Definition mcall (n : Z) : string := "mcall_" +:+ pad4 (pretty n).

(** [_open_model_call] *)
Definition open_model_call (c : TurnContext) : TurnContext :=
  let n := tc_model_call_ordinal c + 1 in
  c <| tc_model_call_ordinal := n |> <| tc_current_model_call_id := Some (mcall n) |>
    <| tc_current_model_call_metered := false |> <| tc_completed_tool_in_model_call := false |>
    <| tc_model_call_boundary_observed := false |> <| tc_active_tool_ids := ∅ |>.

(** [ctx.current_model_call_id or ...] *)
Definition current_call (c : TurnContext) : string := default "" (tc_current_model_call_id c).

(** [_ensure_model_call] *)
Definition ensure_model_call (c : TurnContext) : TurnContext :=
  if bool_decide (current_call c = "") then open_model_call c else c.

Definition TOOL_ITEM_TYPES : list string := ["commandExecution"; "fileChange"; "mcpToolCall"; "dynamicToolCall"; "webSearch"].
Definition MESSAGE_DELTA_METHODS : list string := ["item/agentMessage/delta"; "item/reasoning/summaryTextDelta"].
Definition TOOL_OUTPUT_NOTIFICATION_METHODS : list string :=
  ["item/commandExecution/outputDelta"; "item/fileChange/outputDelta"; "item/mcpToolCall/progress"].

(** A lookup under an identifier that may be missing. *)
Definition known_call (item_id : string) (calls : dict string string) : option string :=
  if bool_decide (item_id = "") then None else dget item_id calls.
(** [calls.get(item_id) or ...] *)
Definition known_nonempty (item_id : string) (calls : dict string string) : option string :=
  match dget item_id calls with Some EmptyString | None => None | o => o end.

(** [if item_id: ctx.item_model_calls[item_id] = call] *)
Definition file_item (item_id call : string) (c : TurnContext) : TurnContext :=
  if bool_decide (item_id = "") then c else c <| tc_item_model_calls := dset item_id call (tc_item_model_calls c) |>.
Definition file_tool (item_id call : string) (c : TurnContext) : TurnContext :=
  if bool_decide (item_id = "") then c else c <| tc_tool_model_calls := dset item_id call (tc_tool_model_calls c) |>.

(** A message or reasoning delta. *)
Definition message_call (item_id : string) (c : TurnContext) : TurnContext * option string :=
  match known_call item_id (tc_item_model_calls c) with
  | Some call => (c, Some call)
  | None =>
      let c := if tc_model_call_boundary_observed c ||
                  (tc_current_model_call_metered c && tc_completed_tool_in_model_call c && bool_decide (tc_active_tool_ids c = ∅))
               then open_model_call c else c in
      let c := ensure_model_call c in
      (file_item item_id (current_call c) c, Some (current_call c))
  end.

(** A usage report. *)
Definition usage_call (c : TurnContext) : TurnContext * option string :=
  let c := ensure_model_call c in
  let c' := c <| tc_current_model_call_metered := true |> in
  ((if tc_completed_tool_in_model_call c' && bool_decide (tc_active_tool_ids c' = ∅)
    then c' <| tc_model_call_boundary_observed := true |> else c'), Some (current_call c)).

(** A tool starts. *)
Definition tool_started_call (item_id : string) (c : TurnContext) : TurnContext * option string :=
  match known_call item_id (tc_tool_model_calls c) with
  | Some call => (c, Some call)
  | None =>
      let c := if tc_model_call_boundary_observed c then open_model_call c else c in
      let c := ensure_model_call c in
      (if bool_decide (item_id = "") then c
       else (file_tool item_id (current_call c) c) <| tc_active_tool_ids := {[item_id]} ∪ tc_active_tool_ids c |>,
       Some (current_call c))
  end.

(** [ctx.tool_model_calls.get(item_id) or self._ensure_model_call(ctx)], filed. *)
Definition tool_call_of (item_id : string) (c : TurnContext) : TurnContext * string :=
  match known_nonempty item_id (tc_tool_model_calls c) with
  | Some call => (file_tool item_id call c, call)
  | None => let c := ensure_model_call c in (file_tool item_id (current_call c) c, current_call c)
  end.

(** A tool is done. *)
Definition tool_completed_call (item_id : string) (c : TurnContext) : TurnContext * option string :=
  let (c, call) := tool_call_of item_id c in
  let c := if bool_decide (item_id = "") then c else c <| tc_active_tool_ids := tc_active_tool_ids c ∖ {[item_id]} |> in
  (c <| tc_completed_tool_in_model_call := true |>, Some call).

(** A message is done. *)
Definition message_completed_call (item_id : string) (c : TurnContext) : TurnContext * option string :=
  match known_nonempty item_id (tc_item_model_calls c) with
  | Some call => (c, Some call)
  | None => let c := ensure_model_call c in (c, Some (current_call c))
  end.

Section calls.
Context `{PyRepr}.

(** The item of a notification, its type and the identifier it is filed under. *)
Definition notified_item (n : pydict) : pydict := as_dict (pget "item" (notification_params n)).
Definition notified_type (n : pydict) : string := str_or (pget "type" (notified_item n)) "".
Definition notified_id (n : pydict) : string := str_or (py_or (pget "itemId" (notification_params n)) (pget "id" (notified_item n))) "".

(** [_model_call_id] *)
Definition model_call_id (n : pydict) (c : TurnContext) : TurnContext * option string :=
  let method := notification_method n in
  let tool := bool_decide (notified_type n ∈ TOOL_ITEM_TYPES) in
  let item_id := notified_id n in
  if bool_decide (method ∈ MESSAGE_DELTA_METHODS) then message_call item_id c
  else if bool_decide (method = "thread/tokenUsage/updated") then usage_call c
  else if bool_decide (method = "item/started") && tool then tool_started_call item_id c
  else if bool_decide (method = "item/completed") && tool then tool_completed_call item_id c
  else if bool_decide (method ∈ TOOL_OUTPUT_NOTIFICATION_METHODS) then
    let (c, call) := tool_call_of item_id c in (c, Some call)
  else if bool_decide (method = "item/completed") && bool_decide (notified_type n = "agentMessage")
  then message_completed_call item_id c
  else (c, None).

End calls.

(** ** Names of model calls *)

Lemma parse_pad4 s : parse_digits 0 (pad4 s) = parse_digits 0 s.
Proof. apply parse_zeros. Qed.

Lemma pretty_Z_of_N (n : N) : pretty (Z.of_N n) = pretty n.
Proof. by destruct n. Qed.

Lemma mcall_inj n m : 0 <= n → 0 <= m → mcall n = mcall m → n = m.
Proof.
  intros Hn Hm. rewrite <-(Z2N.id n), <-(Z2N.id m) by done. set (a := Z.to_N n). set (b := Z.to_N m). clearbody a b.
  unfold mcall. intros Heq%(inj (String.append _)). apply (f_equal (parse_digits 0)) in Heq.
  rewrite !parse_pad4, !pretty_Z_of_N, !parse_pretty in Heq. congruence.
Qed.

Lemma mcall_nonempty n : mcall n ≠ "".
Proof. done. Qed.

(** ** The invariant of a turn's model calls *)

(** The name of a call opened so far. *)
Definition opened_call (c : TurnContext) (v : string) : Prop := ∃ n, 1 <= n <= tc_model_call_ordinal c ∧ v = mcall n.

(** What a call needs before the next one may open: it was metered, a tool of it is done and none runs. *)
Definition call_over (c : TurnContext) : Prop :=
  tc_current_model_call_metered c = true ∧ tc_completed_tool_in_model_call c = true ∧ tc_active_tool_ids c = ∅.

Record calls_inv (c : TurnContext) : Prop := mkCallsInv {
  ci_ordinal : 0 <= tc_model_call_ordinal c;
  ci_current : tc_current_model_call_id c = if tc_model_call_ordinal c =? 0 then None else Some (mcall (tc_model_call_ordinal c));
  ci_boundary : tc_model_call_boundary_observed c = true → call_over c;
  ci_items : ∀ k v, dget k (tc_item_model_calls c) = Some v → opened_call c v;
  ci_tools : ∀ k v, dget k (tc_tool_model_calls c) = Some v → opened_call c v;
}.

(** A step of the machine: filed names stay, the ordinal grows by at most one, and beyond the
    first call only when the current one is over. *)
Record calls_step (c c' : TurnContext) : Prop := mkCallsStep {
  cs_items : ∀ k v, dget k (tc_item_model_calls c) = Some v → dget k (tc_item_model_calls c') = Some v;
  cs_tools : ∀ k v, dget k (tc_tool_model_calls c) = Some v → dget k (tc_tool_model_calls c') = Some v;
  cs_ordinal : tc_model_call_ordinal c' = tc_model_call_ordinal c ∨
               (tc_model_call_ordinal c' = tc_model_call_ordinal c + 1 ∧ (tc_model_call_ordinal c = 0 ∨ call_over c));
}.

Lemma opened_nonempty c v : opened_call c v → v ≠ "".
Proof. by intros (n & _ & ->). Qed.

Lemma opened_grow c c' v : tc_model_call_ordinal c <= tc_model_call_ordinal c' → opened_call c v → opened_call c' v.
Proof. intros Hle (n & Hn & ->). exists n. split; [lia|done]. Qed.

Lemma current_call_eq c : calls_inv c → current_call c = if tc_model_call_ordinal c =? 0 then "" else mcall (tc_model_call_ordinal c).
Proof. intros Hc. unfold current_call. rewrite (ci_current _ Hc). by destruct (_ =? _). Qed.

Lemma open_inv c : calls_inv c → calls_inv (open_model_call c).
Proof.
  intros [Ho Hc Hb Hi Ht]. split; cbn [open_model_call]; cbn.
  - lia.
  - by rewrite (proj2 (Z.eqb_neq _ 0)) by lia.
  - done.
  - intros k v Hk%Hi. revert Hk. apply opened_grow. cbn. lia.
  - intros k v Hk%Ht. revert Hk. apply opened_grow. cbn. lia.
Qed.

(** The call an activity is filed under, after the machine has opened one if it had to. *)
Lemma prepare_call c (b : bool) :
  calls_inv c → (b = true → call_over c) →
  let c1 := ensure_model_call (if b then open_model_call c else c) in
  calls_inv c1 ∧ calls_step c c1 ∧ opened_call c1 (current_call c1) ∧
  tc_item_model_calls c1 = tc_item_model_calls c ∧ tc_tool_model_calls c1 = tc_tool_model_calls c ∧
  (b = false → 1 <= tc_model_call_ordinal c → c1 = c).
Proof.
  intros Hc Hb c1. pose proof (ci_ordinal _ Hc) as Ho.
  assert (Hopen : ∀ P, calls_inv (open_model_call c) → P →
    calls_inv (open_model_call c) ∧ (P ∧ opened_call (open_model_call c) (current_call (open_model_call c)))).
  { intros P Hi HP. split_and!; [done..|]. exists (tc_model_call_ordinal c + 1). split; [cbn; lia|done]. }
  unfold c1, ensure_model_call. destruct b.
  - rewrite bool_decide_eq_false_2 by done. destruct (Hopen True (open_inv _ Hc) I) as (Hi & _ & Hcur). split_and!; try done.
    split; try done. right. split; [done|]. right. by apply Hb.
  - rewrite (current_call_eq c Hc). destruct (Z.eqb_spec (tc_model_call_ordinal c) 0) as [Hz|Hz].
    + rewrite bool_decide_eq_true_2 by done. destruct (Hopen True (open_inv _ Hc) I) as (Hi & _ & Hcur). split_and!; try done.
      * split; try done. right. split; [done|]. by left.
      * intros _ ?. lia.
    + rewrite bool_decide_eq_false_2 by done. split_and!; try done.
      * split; try done. by left.
      * exists (tc_model_call_ordinal c). split; [lia|]. rewrite (current_call_eq c Hc). by rewrite (proj2 (Z.eqb_neq _ _)).
Qed.

(** Filing a name that is new, or already there. *)
Definition fileable (id v : string) (d : dict string string) : Prop := id ≠ "" → dget id d = None ∨ dget id d = Some v.

Lemma dget_filed (id v : string) (d : dict string string) k w : dget id d = None ∨ dget id d = Some v → dget k d = Some w → dget k (dset id v d) = Some w.
Proof. intros Hid Hk. rewrite dget_dset. case_decide; [|done]. subst. destruct Hid; congruence. Qed.

Lemma file_item_step id v c c0 :
  calls_inv c → calls_step c0 c → opened_call c v → fileable id v (tc_item_model_calls c) →
  calls_inv (file_item id v c) ∧ calls_step c0 (file_item id v c) ∧ (id ≠ "" → dget id (tc_item_model_calls (file_item id v c)) = Some v).
Proof.
  intros Hc Hs Hv Hf. unfold file_item. case_bool_decide as Hid; [by split_and!|]. specialize (Hf Hid).
  destruct Hc as [Ho Hcu Hb Hi Ht], Hs as [Si St So]. split_and!; [split; cbn; try done|split; cbn; try done|].
  - intros k w. rewrite dget_dset. case_decide; [intros [= <-]; done|]. apply Hi.
  - intros k w Hk. apply dget_filed; [done|]. by apply Si.
  - intros _. cbn. by rewrite dget_dset_eq.
Qed.

Lemma file_tool_step id v c c0 :
  calls_inv c → calls_step c0 c → opened_call c v → fileable id v (tc_tool_model_calls c) →
  calls_inv (file_tool id v c) ∧ calls_step c0 (file_tool id v c) ∧ (id ≠ "" → dget id (tc_tool_model_calls (file_tool id v c)) = Some v).
Proof.
  intros Hc Hs Hv Hf. unfold file_tool. case_bool_decide as Hid; [by split_and!|]. specialize (Hf Hid).
  destruct Hc as [Ho Hcu Hb Hi Ht], Hs as [Si St So]. split_and!; [split; cbn; try done|split; cbn; try done|].
  - intros k w. rewrite dget_dset. case_decide; [intros [= <-]; done|]. apply Ht.
  - intros k w Hk. apply dget_filed; [done|]. by apply St.
  - intros _. cbn. by rewrite dget_dset_eq.
Qed.

(** Changing the flags keeps the rest. *)
Lemma flags_step c c0 (metered completed boundary : bool) (active : gset string) :
  (boundary = true → metered = true ∧ completed = true ∧ active = ∅) →
  let c' := c <| tc_current_model_call_metered := metered |> <| tc_completed_tool_in_model_call := completed |>
              <| tc_model_call_boundary_observed := boundary |> <| tc_active_tool_ids := active |> in
  calls_inv c → calls_step c0 c → calls_inv c' ∧ calls_step c0 c'.
Proof.
  intros Hb c' [Ho Hcu _ Hi Ht] [Si St So]. split; split; try done.
Qed.

(** What one activity does: a sound step that answers with a call opened so far. *)
Definition sound_activity (c : TurnContext) (res : TurnContext * option string) : Prop :=
  calls_inv res.1 ∧ calls_step c res.1 ∧ ∀ v, res.2 = Some v → opened_call res.1 v.

Lemma known_step c id v : calls_inv c → (dget id (tc_item_model_calls c) = Some v ∨ dget id (tc_tool_model_calls c) = Some v) →
  sound_activity c (c, Some v).
Proof.
  intros Hc Hv. split_and!; [done|by split; [..|left]|]. intros w [= <-].
  destruct Hv as [Hv|Hv]; [exact (ci_items _ Hc _ _ Hv)|exact (ci_tools _ Hc _ _ Hv)].
Qed.

Lemma message_call_sound id c : calls_inv c →
  sound_activity c (message_call id c) ∧
  (id ≠ "" → dget id (tc_item_model_calls (message_call id c).1) = (message_call id c).2).
Proof.
  intros Hc. unfold message_call. destruct (known_call id (tc_item_model_calls c)) as [v|] eqn:Hk.
  { unfold known_call in Hk. case_bool_decide; [done|]. split; [|done]. by apply (known_step c id v); [|left]. }
  set (b := _ || _).
  assert (b = true → call_over c) as Hb.
  { intros Hb. unfold b in Hb. apply orb_true_iff in Hb as [Hb|Hb]; [by apply (ci_boundary _ Hc)|]. bsimp. by split_and!. }
  clearbody b. destruct (prepare_call c b Hc Hb) as (Hi & Hs & Ho & Ei & _).
  edestruct (file_item_step id (current_call (ensure_model_call (if b then open_model_call c else c))) _ c Hi Hs Ho)
    as (Hi' & Hs' & Hd).
  { intros Hid. left. rewrite Ei. unfold known_call in Hk. by rewrite bool_decide_eq_false_2 in Hk. }
  cbn [fst snd]. split; [|done]. split_and!; [done..|]. intros v [= <-]. cbn [fst]. revert Ho. apply opened_grow.
  unfold file_item. by case_bool_decide.
Qed.

Lemma ensured_call c : calls_inv c →
  calls_inv (ensure_model_call c) ∧ calls_step c (ensure_model_call c) ∧ opened_call (ensure_model_call c) (current_call (ensure_model_call c)).
Proof. intros Hc. destruct (prepare_call c false Hc) as (? & ? & ? & _); [done|]. by split_and!. Qed.

Lemma usage_call_sound c : calls_inv c → sound_activity c (usage_call c).
Proof.
  intros Hc. destruct (ensured_call c Hc) as (Hi & Hs & Ho). unfold usage_call. set (c1 := ensure_model_call c) in *.
  cbn [tc_completed_tool_in_model_call tc_active_tool_ids]. unfold sound_activity. cbn [fst snd].
  match goal with |- calls_inv (if ?b then _ else _) ∧ _ => destruct b eqn:E end.
  - cbn in E. bsimp. destruct (flags_step c1 c true true true ∅) as [? ?]; [done..|].
    assert (∀ v, Some (current_call c1) = Some v → opened_call c1 v) by (by intros v [= <-]).
    destruct c1; cbn in *; subst; by split_and!.
  - destruct (flags_step c1 c true (tc_completed_tool_in_model_call c1) (tc_model_call_boundary_observed c1) (tc_active_tool_ids c1)) as [? ?]; [|done..|].
    { intros Hb%(ci_boundary _ Hi). destruct Hb as (? & ? & ?). by split_and!. }
    assert (∀ v, Some (current_call c1) = Some v → opened_call c1 v) by (by intros v [= <-]).
    destruct c1; cbn in *; subst; by split_and!.
Qed.

Lemma tool_started_sound id c : calls_inv c →
  sound_activity c (tool_started_call id c) ∧
  (id ≠ "" → dget id (tc_tool_model_calls (tool_started_call id c).1) = (tool_started_call id c).2).
Proof.
  intros Hc. unfold tool_started_call. destruct (known_call id (tc_tool_model_calls c)) as [v|] eqn:Hk.
  { unfold known_call in Hk. case_bool_decide; [done|]. split; [|done]. by apply (known_step c id v); [|right]. }
  set (b := tc_model_call_boundary_observed c).
  destruct (prepare_call c b Hc (ci_boundary _ Hc)) as (Hi & Hs & Ho & _ & Et & Hsame).
  set (c1 := ensure_model_call (if b then open_model_call c else c)) in *.
  assert (Hb1 : tc_model_call_boundary_observed c1 = false).
  { unfold c1, ensure_model_call. destruct b eqn:Eb; [done|]. by case_bool_decide. }
  edestruct (file_tool_step id (current_call c1) _ c Hi Hs Ho) as (Hi' & Hs' & Hd).
  { intros Hid. left. rewrite Et. unfold known_call in Hk. by rewrite bool_decide_eq_false_2 in Hk. }
  cbn [fst snd]. case_bool_decide as Hid.
  { split; [|done]. split_and!; [done..|]. by intros v [= <-]. }
  set (c2 := file_tool id (current_call c1) c1) in *.
  assert (tc_model_call_boundary_observed c2 = false) as Hb2 by (unfold c2, file_tool; by case_bool_decide).
  destruct (flags_step c2 c (tc_current_model_call_metered c2) (tc_completed_tool_in_model_call c2) (tc_model_call_boundary_observed c2)
              ({[id]} ∪ tc_active_tool_ids c1)) as [Hi2 Hs2]; [by rewrite Hb2|done..|].
  assert (tc_model_call_ordinal c2 = tc_model_call_ordinal c1) as Ho2 by (unfold c2, file_tool; by case_bool_decide).
  assert (opened_call c2 (current_call c1)) as Ho' by (revert Ho; apply opened_grow; lia).
  specialize (Hd Hid). clear -Hi2 Hs2 Ho' Hd. set (cur := current_call c1) in *. clearbody cur.
  split; [split_and!|]; [by destruct c2|by destruct c2| |by destruct c2]. intros v [= <-]. by destruct c2.
Qed.

Lemma tool_call_of_sound id c : calls_inv c →
  calls_inv (tool_call_of id c).1 ∧ calls_step c (tool_call_of id c).1 ∧ opened_call (tool_call_of id c).1 (tool_call_of id c).2 ∧
  (id ≠ "" → dget id (tc_tool_model_calls (tool_call_of id c).1) = Some (tool_call_of id c).2).
Proof.
  intros Hc. unfold tool_call_of. destruct (known_nonempty id (tc_tool_model_calls c)) as [v|] eqn:Hk.
  - assert (dget id (tc_tool_model_calls c) = Some v) as Hv.
    { unfold known_nonempty in Hk. destruct (dget id _) as [[|a s]|]; by simplify_eq. }
    pose proof (ci_tools _ Hc _ _ Hv) as Ho.
    edestruct (file_tool_step id v c c Hc) as (Hi & Hs & Hd); [by split; [..|left]|done|by right|].
    cbn [fst snd]. split_and!; [done..| |done]. revert Ho. apply opened_grow. unfold file_tool. by case_bool_decide.
  - destruct (prepare_call c false Hc) as (Hi & Hs & Ho & _ & Et & _); [done|]. set (c1 := ensure_model_call c) in *.
    assert (dget id (tc_tool_model_calls c) = None) as Hv.
    { unfold known_nonempty in Hk. destruct (dget id _) as [[|a s]|] eqn:E; try done. by destruct (opened_nonempty c "" (ci_tools _ Hc _ _ E)). }
    edestruct (file_tool_step id (current_call c1) c1 c Hi Hs Ho) as (Hi' & Hs' & Hd); [left; by rewrite Et|].
    cbn [fst snd]. split_and!; [done..| |done]. revert Ho. apply opened_grow. unfold file_tool. by case_bool_decide.
Qed.

Lemma tool_completed_sound id c : calls_inv c →
  sound_activity c (tool_completed_call id c) ∧
  (id ≠ "" → dget id (tc_tool_model_calls (tool_completed_call id c).1) = (tool_completed_call id c).2).
Proof.
  intros Hc. pose proof (tool_call_of_sound id c Hc) as (Hi & Hs & Ho & Hd). unfold tool_completed_call.
  destruct (tool_call_of id c) as [c1 v]. cbn [fst snd] in *.
  set (active := if bool_decide (id = "") then tc_active_tool_ids c1 else tc_active_tool_ids c1 ∖ {[id]}).
  destruct (flags_step c1 c (tc_current_model_call_metered c1) true (tc_model_call_boundary_observed c1) active) as [Hi2 Hs2]; [|done..|].
  { intros (? & ? & Ha)%(ci_boundary _ Hi). split_and!; [done..|]. unfold active. case_bool_decide; set_solver. }
  clear Hi Hs. unfold active in *. clear active. split; [split_and!|]; case_bool_decide; destruct c1; cbn in *; try done; by intros ? [= <-].
Qed.

Lemma message_completed_sound id c : calls_inv c →
  sound_activity c (message_completed_call id c) ∧
  (∀ v, dget id (tc_item_model_calls c) = Some v → (message_completed_call id c).2 = Some v).
Proof.
  intros Hc. unfold message_completed_call, known_nonempty. destruct (dget id (tc_item_model_calls c)) as [[|a s]|] eqn:E.
  - by destruct (opened_nonempty c "" (ci_items _ Hc _ _ E)).
  - split; [by apply (known_step c id _); [|left]|done].
  - destruct (ensured_call c Hc) as (Hi & Hs & Ho). split; [|done]. split_and!; [done..|]. by intros v [= <-].
Qed.

(** ** Sequences of notifications *)

Section runs.
Context `{PyRepr}.

(** The activity of the tool, or of the message, [id] a notification reports. *)
Definition tool_activity (id : string) (n : pydict) : Prop :=
  id ≠ "" ∧ notified_id n = id ∧
  (notification_method n ∈ TOOL_OUTPUT_NOTIFICATION_METHODS ∨
   (notification_method n ∈ ["item/started"; "item/completed"] ∧ notified_type n ∈ TOOL_ITEM_TYPES)).
Definition message_delta (id : string) (n : pydict) : Prop :=
  id ≠ "" ∧ notified_id n = id ∧ notification_method n ∈ MESSAGE_DELTA_METHODS.
Definition message_done (id : string) (n : pydict) : Prop :=
  id ≠ "" ∧ notified_id n = id ∧ notification_method n = "item/completed" ∧ notified_type n = "agentMessage".

Lemma nothing_sound c : calls_inv c → sound_activity c (c, None).
Proof. intros Hc. split_and!; [done|by split; [..|left]|done]. Qed.

Lemma model_call_id_sound n c : calls_inv c → sound_activity c (model_call_id n c).
Proof.
  intros Hc. unfold model_call_id.
  case_bool_decide; [by apply message_call_sound|]. case_bool_decide; [by apply usage_call_sound|].
  destruct (_ && _); [by apply tool_started_sound|]. destruct (_ && _); [by apply tool_completed_sound|].
  case_bool_decide.
  { pose proof (tool_call_of_sound (notified_id n) c Hc) as (Hi & Hs & Ho & _). destruct (tool_call_of _ c) as [c' v].
    cbn [fst snd] in *. split_and!; [done..|]. by intros ? [= <-]. }
  destruct (_ && _); [by apply message_completed_sound|by apply nothing_sound].
Qed.

(** The tests on the method, once it is known. *)
Ltac method_tests :=
  repeat match goal with
  | |- context [bool_decide (String ?a ?s ∈ ?l)] =>
      let b := eval vm_compute in (bool_decide (String a s ∈ l)) in
      match b with true => change (bool_decide (String a s ∈ l)) with true | false => change (bool_decide (String a s ∈ l)) with false end
  | |- context [bool_decide (String ?a ?s = ?k)] =>
      let b := eval vm_compute in (bool_decide (String a s = k)) in
      match b with true => change (bool_decide (String a s = k)) with true | false => change (bool_decide (String a s = k)) with false end
  end; cbn [andb]; cbv iota.

Lemma tool_activity_filed id n c : calls_inv c → tool_activity id n →
  is_Some (model_call_id n c).2 ∧ dget id (tc_tool_model_calls (model_call_id n c).1) = (model_call_id n c).2.
Proof.
  intros Hc (Hid & <- & Hm). unfold model_call_id.
  assert (∀ res, (notified_id n ≠ "" → dget (notified_id n) (tc_tool_model_calls (fst (B:=option string) res)) = res.2) → is_Some res.2 →
    is_Some res.2 ∧ dget (notified_id n) (tc_tool_model_calls res.1) = res.2) as Hres by naive_solver.
  destruct Hm as [Hm|[Hm Ht]].
  - pose proof (tool_call_of_sound (notified_id n) c Hc) as (_ & _ & _ & Hd). revert Hd.
    destruct (tool_call_of (notified_id n) c) as [c' v]. cbn [fst snd]. intros Hd.
    unfold TOOL_OUTPUT_NOTIFICATION_METHODS in Hm.
    repeat (apply elem_of_cons in Hm as [Hm|Hm]); [..|by apply elem_of_nil in Hm]; rewrite Hm; method_tests; cbn [fst snd]; split; eauto.
  - rewrite (bool_decide_eq_true_2 _ Ht).
    repeat (apply elem_of_cons in Hm as [Hm|Hm]); [..|by apply elem_of_nil in Hm]; rewrite Hm; method_tests; apply Hres.
    + by apply tool_started_sound.
    + unfold tool_started_call. destruct (known_call _ _); by eexists.
    + by apply tool_completed_sound.
    + unfold tool_completed_call. destruct (tool_call_of _ _). by eexists.
Qed.

Lemma message_delta_filed id n c : calls_inv c → message_delta id n →
  is_Some (model_call_id n c).2 ∧ dget id (tc_item_model_calls (model_call_id n c).1) = (model_call_id n c).2.
Proof.
  intros Hc (Hid & <- & Hm). unfold model_call_id. rewrite (bool_decide_eq_true_2 _ Hm). split; [|by apply message_call_sound].
  unfold message_call. destruct (known_call _ _); by eexists.
Qed.

Lemma message_done_known id n c v : calls_inv c → message_done id n → dget id (tc_item_model_calls c) = Some v → (model_call_id n c).2 = Some v.
Proof.
  intros Hc (Hid & <- & Hm & Ht) Hv. unfold model_call_id. rewrite Hm, Ht. method_tests. by apply message_completed_sound.
Qed.

(** The notifications of a turn, one after the other: the context and what each is filed under. *)
Fixpoint model_calls (c : TurnContext) (ns : list pydict) : TurnContext * list (option string) :=
  match ns with
  | [] => (c, [])
  | n :: ns' => let (c1, o) := model_call_id n c in let (c2, os) := model_calls c1 ns' in (c2, o :: os)
  end.

(** A context as [start_turn] makes it. *)
Definition fresh_calls (c : TurnContext) : Prop :=
  tc_model_call_ordinal c = 0 ∧ tc_current_model_call_id c = None ∧ tc_model_call_boundary_observed c = false ∧
  tc_item_model_calls c = [] ∧ tc_tool_model_calls c = [].

Lemma fresh_inv c : fresh_calls c → calls_inv c.
Proof. intros (Ho & Hc & Hb & Hi & Ht). split; rewrite ?Ho, ?Hc, ?Hb, ?Hi, ?Ht; try done. Qed.

Lemma model_calls_app c ns ms : model_calls c (ns ++ ms) =
  (let (c1, os) := model_calls c ns in let (c2, ps) := model_calls c1 ms in (c2, os ++ ps)).
Proof.
  revert c. induction ns as [|n ns IH]; intros c; cbn [app model_calls]; [by destruct (model_calls c ms)|].
  destruct (model_call_id n c) as [c1 o]. rewrite IH. destruct (model_calls c1 ns) as [c2 os]. by destruct (model_calls c2 ms).
Qed.

Lemma model_calls_inv c ns : calls_inv c →
  calls_inv (model_calls c ns).1 ∧ tc_model_call_ordinal c <= tc_model_call_ordinal (model_calls c ns).1 ∧
  (∀ k v, dget k (tc_item_model_calls c) = Some v → dget k (tc_item_model_calls (model_calls c ns).1) = Some v) ∧
  (∀ k v, dget k (tc_tool_model_calls c) = Some v → dget k (tc_tool_model_calls (model_calls c ns).1) = Some v) ∧
  (∀ v, Some v ∈ (model_calls c ns).2 → opened_call (model_calls c ns).1 v).
Proof.
  revert c. induction ns as [|n ns IH]; intros c Hc; cbn [model_calls].
  { split_and!; try done. by intros v ?%elem_of_nil. }
  pose proof (model_call_id_sound n c Hc) as (Hi & Hs & Hv). destruct (model_call_id n c) as [c1 o]. cbn [fst snd] in *.
  pose proof (IH c1 Hi) as (Hi2 & Ho2 & Hk & Ht & Hv2). destruct (model_calls c1 ns) as [c2 os]. cbn [fst snd] in *.
  destruct Hs as [Si St So]. split_and!; [done|destruct So; lia|eauto..|].
  intros v [Heq|Hin]%elem_of_cons; [|by apply Hv2]. revert Ho2. by intros ?%(opened_grow _ _ v); auto.
Qed.

(** What came second is filed as what came first. *)
Lemma later_same (P Q : pydict → Prop) (d : TurnContext → option string) c pre n mid m post :
  calls_inv c → P n → Q m →
  (∀ c, calls_inv c → P n → is_Some (model_call_id n c).2 ∧ d (model_call_id n c).1 = (model_call_id n c).2) →
  (∀ c ns v, calls_inv c → d c = Some v → d (model_calls c ns).1 = Some v) →
  (∀ c v, calls_inv c → Q m → d c = Some v → (model_call_id m c).2 = Some v) →
  (model_calls c (pre ++ n :: mid ++ m :: post)).2 !! length pre =
  (model_calls c (pre ++ n :: mid ++ m :: post)).2 !! (length pre + S (length mid))%nat.
Proof.
  intros Hc Hn Hm HP Hkeep HQ.
  assert (Hlen : ∀ ns c, length (model_calls c ns).2 = length ns).
  { induction ns as [|x ns IH]; intros c'; [done|]. cbn [model_calls]. destruct (model_call_id x c') as [c1 o].
    specialize (IH c1). destruct (model_calls c1 ns). cbn in *. by rewrite IH. }
  rewrite model_calls_app. pose proof (model_calls_inv c pre Hc) as (Hi & _). pose proof (Hlen pre c) as Hl.
  destruct (model_calls c pre) as [c1 os]. cbn [fst snd] in *. cbn [model_calls].
  destruct (HP c1 Hi Hn) as [[v Hv] Hd]. pose proof (model_call_id_sound n c1 Hi) as (Hi2 & _).
  destruct (model_call_id n c1) as [c2 o]. cbn [fst snd] in *. subst o. rewrite model_calls_app.
  pose proof (model_calls_inv c2 mid Hi2) as (Hi3 & _). pose proof (Hlen mid c2) as Hl2. pose proof (Hkeep c2 mid v Hi2 Hd) as Hd3.
  destruct (model_calls c2 mid) as [c3 ps]. cbn [fst snd model_calls] in *.
  pose proof (HQ c3 v Hi3 Hm Hd3) as Hq. destruct (model_call_id m c3) as [c4 o]. cbn [fst snd] in Hq. subst o.
  destruct (model_calls c4 post) as [c5 qs]. cbn [fst snd].
  rewrite <-Hl, <-Hl2, list_lookup_middle by done. rewrite lookup_app_r by lia.
  replace (length os + S (length ps) - length os)%nat with (S (length ps)) by lia.
  change (Some (Some v) = (ps ++ Some v :: qs) !! length ps). by rewrite list_lookup_middle.
Qed.

(** C15: Model calls are filed consistently.  Over any sequence of notifications of a turn: what is
    filed is the name of a call opened so far, and each name stands for one call; everything a tool
    reports is filed under the call of its first report, and what a message reports after its first
    delta under that delta's call; and a notification opens at most one call, after the first only when
    the current call was metered, has a tool done and no tool running. *)
Theorem model_calls_consistent c ns :
  fresh_calls c →
  (∀ v, Some v ∈ (model_calls c ns).2 → ∃ k, 1 <= k <= tc_model_call_ordinal (model_calls c ns).1 ∧ v = mcall k ∧ ∀ k', 0 <= k' → v = mcall k' → k' = k) ∧
  (∀ pre n mid m post id, ns = pre ++ n :: mid ++ m :: post →
     (tool_activity id n ∧ tool_activity id m) ∨ (message_delta id n ∧ (message_delta id m ∨ message_done id m)) →
     (model_calls c ns).2 !! length pre = (model_calls c ns).2 !! (length pre + S (length mid))%nat) ∧
  (∀ pre n post, ns = pre ++ n :: post →
     let c1 := (model_calls c pre).1 in let c2 := (model_call_id n c1).1 in
     tc_model_call_ordinal c2 = tc_model_call_ordinal c1 ∨
     (tc_model_call_ordinal c2 = tc_model_call_ordinal c1 + 1 ∧ (tc_model_call_ordinal c1 = 0 ∨ call_over c1))).
Proof.
  intros Hc%fresh_inv. split_and!.
  - intros v Hv. apply model_calls_inv in Hv as (k & Hk & ->); [|done]. exists k. split_and!; [lia..|done|].
    intros k' Hk' He. apply mcall_inj in He; lia.
  - intros pre n mid m post id -> [[Hn Hm]|[Hn Hm]].
    + apply (later_same (tool_activity id) (tool_activity id) (λ c, dget id (tc_tool_model_calls c))); try done.
      * intros c' Hc'. by apply tool_activity_filed.
      * intros c' ns v Hc'. by apply model_calls_inv.
      * intros c' v Hc' Hm' Hv. destruct (tool_activity_filed id m c' Hc' Hm') as [_ <-].
        pose proof (model_call_id_sound m c' Hc') as (_ & Hs & _). by apply (cs_tools _ _ Hs).
    + apply (later_same (message_delta id) (λ m, message_delta id m ∨ message_done id m) (λ c, dget id (tc_item_model_calls c))); try done.
      * intros c' Hc'. by apply message_delta_filed.
      * intros c' ns v Hc'. by apply model_calls_inv.
      * intros c' v Hc' [Hm'|Hm'] Hv; [|by eapply message_done_known].
        destruct (message_delta_filed id m c' Hc' Hm') as [_ <-].
        pose proof (model_call_id_sound m c' Hc') as (_ & Hs & _). by apply (cs_items _ _ Hs).
  - intros pre n post ->. cbn zeta. apply model_call_id_sound. by apply model_calls_inv.
Qed.

End runs.

(** ** A turn with two model calls *)

Module CodexTurnExamples.

#[local] Instance repr : PyRepr := λ _, "".

Definition context : TurnContext :=
  mkTurnContext "turn_1" "s" "inv_1" "th_1" "ct_1" (float_of_Z 60) (float_of_Z 0) None None "p" "u" "app"
    0 None 0 0 false false false ∅ [] [].

Definition note (method : string) (params : pydict) : pydict := [("method", PStr method); ("params", PDict params)].
Definition thought (id : string) : pydict := note "item/reasoning/summaryTextDelta" [("itemId", PStr id); ("delta", PStr "x")].
Definition command (method id : string) : pydict :=
  note method [("item", PDict [("id", PStr id); ("type", PStr "commandExecution")])].
Definition turn_notes : list pydict :=
  [thought "r1"; command "item/started" "c1"; note "item/commandExecution/outputDelta" [("itemId", PStr "c1"); ("delta", PStr "out")];
   command "item/completed" "c1"; note "thread/tokenUsage/updated" []; thought "r2"; command "item/started" "c2";
   command "item/completed" "c1"].

Example two_calls :
  (model_calls context turn_notes).2 =
  [Some "mcall_0001"; Some "mcall_0001"; Some "mcall_0001"; Some "mcall_0001"; Some "mcall_0001"; Some "mcall_0002"; Some "mcall_0002";
   Some "mcall_0001"].
Proof. by vm_compute. Qed.

Lemma model_calls_consistent_witness :
  (model_calls context turn_notes).2 !! 1%nat = (model_calls context turn_notes).2 !! 7%nat.
Proof.
  destruct (model_calls_consistent context turn_notes) as (_ & Hsame & _); [done|].
  apply (Hsame [thought "r1"] (command "item/started" "c1") (take 5 (drop 2 turn_notes)) (command "item/completed" "c1") [] "c1"); [done|].
  left. split; (split; [done|split; [done|right; split]]); apply (bool_decide_eq_true_1 _); by vm_compute.
Defined.

(** A native error becomes a stable code. *)
Example rate_limited `{RegexEngine} :
  let '(code, _, retryable) := terminal_failure_details (note "turn/completed"
     [("turn", PDict [("error", PDict [("codexErrorInfo", PStr "rateLimitExceeded"); ("message", PStr "")])])]) in
  (code, retryable) = ("haas_rate_limited", true).
Proof. done. Qed.

Example unknown_status_fails :
  native_terminal_status (note "turn/completed" [("turn", PDict [("status", PStr "inProgress")])]) = Some "failed" ∧
  native_terminal_status (note "turn/completed" [("turn", PDict [("status", PStr "stopped")])]) = Some "completed".
Proof. done. Qed.

Example native_items_refused :
  to_codex_input [PDict (text_item "hi")] false =
    Raise (HaaSTurnInputInvalid "native harness input items are not accepted on the northbound path") ∧
  to_codex_input [PDict [("role", PStr "user"); ("parts", PList [PDict [("text", PStr "hi")]])]] false = Ok [text_item "hi"].
Proof. done. Qed.

End CodexTurnExamples.
