(* ===== verification/Async.v ===== *)
(** * Coroutines

    An [async] function as a resumption: it runs on the shared state to its next [await], names the
    call it waits for, and goes on from whatever state the event loop hands it with the answer.
    Between two pieces the state is arbitrary, so what is proved of a coroutine holds under every
    interleaving with other tasks.  [task_obeys] is the specification: what it may call, what each
    piece may change, and what the last piece establishes. *)

From S2P Require Import Prelude Errors.

#[local] Open Scope list_scope.

Section async.
Context {S E : Type} {call : Type} {reply : call → Type}.

(** A coroutine that has run to its end or to an await. *)
Inductive async (A : Type) : Type :=
  | Done (r : A + E)
  | Await (c : call) (k : reply c → S → S * async A).
Arguments Done {A} _.
Arguments Await {A} _ _.

Lemma async_nested_ind {A} (P : async A → Prop) :
  (∀ r, P (Done r)) → (∀ c k, (∀ r s, P (k r s).2) → P (Await c k)) → ∀ t, P t.
Proof.
  intros Hd Ha. fix IH 1. intros [r|c k]; [apply Hd|]. apply Ha. intros r s. destruct (k r s) as [s1 t1]. exact (IH t1).
Qed.

Definition task (A : Type) : Type := S → S * async A.

Definition task_ret {A} (a : A) : task A := λ s, (s, Done (inl a)).
Definition throw {A} (e : E) : task A := λ s, (s, Done (inr e)).
Definition await (c : call) : task (reply c) := λ s, (s, Await c (λ r s, (s, Done (inl r)))).
Definition look {A} (f : S → A) : task A := λ s, (s, Done (inl (f s))).
Definition alter (f : S → S) : task unit := λ s, (f s, Done (inl tt)).

Fixpoint async_bind {A B} (f : A → task B) (s : S) (t : async A) : S * async B :=
  match t with
  | Done (inl a) => f a s
  | Done (inr e) => (s, Done (inr e))
  | Await c k => (s, Await c (λ r s0, let (s1, t1) := k r s0 in async_bind f s1 t1))
  end.
Definition task_bind {A B} (m : task A) (f : A → task B) : task B := λ s, let (s1, t) := m s in async_bind f s1 t.

(** [try: m  except e: h e]; a handler re-raises what it does not catch. *)
Fixpoint async_try {A} (h : E → task A) (s : S) (t : async A) : S * async A :=
  match t with
  | Done (inl a) => (s, Done (inl a))
  | Done (inr e) => h e s
  | Await c k => (s, Await c (λ r s0, let (s1, t1) := k r s0 in async_try h s1 t1))
  end.
Definition task_try {A} (m : task A) (h : E → task A) : task A := λ s, let (s1, t) := m s in async_try h s1 t.

(** The whole run, with the answer to each call given; nothing else runs in between. *)
Fixpoint play_from (o : ∀ c, reply c) {A} (s : S) (t : async A) : S * (A + E) :=
  match t with
  | Done r => (s, r)
  | Await c k => let (s1, t1) := k (o c) s in play_from o s1 t1
  end.
Definition play (o : ∀ c, reply c) {A} (m : task A) (s : S) : S * (A + E) := let (s1, t) := m s in play_from o s1 t.

(** ** Specifications *)

Section obeys.
Context (C : call → Prop) (G : S → S → Prop).

(** Every call is allowed, every piece up to an await changes the state as [G] says, and the last
    piece, from its start to its end, as [Q] says of the result. *)
Fixpoint obeys {A} (Q : S → S → A + E → Prop) (s s1 : S) (t : async A) : Prop :=
  match t with
  | Done r => Q s s1 r
  | Await c k => C c ∧ G s s1 ∧ ∀ r s2, let (s3, t3) := k r s2 in obeys Q s2 s3 t3
  end.
Definition task_obeys {A} (Q : S → S → A + E → Prop) (m : task A) : Prop := ∀ s, let (s1, t) := m s in obeys Q s s1 t.

Context `{!PreOrder G}.

(** What may precede a last piece without spoiling it. *)
Definition after_G {A} (Q : S → S → A + E → Prop) : Prop := ∀ s s1 s2 r, G s s1 → Q s1 s2 r → Q s s2 r.

Lemma obeys_weaken {A} (Q Q' : S → S → A + E → Prop) s s1 t :
  (∀ s s1 r, Q s s1 r → Q' s s1 r) → obeys Q s s1 t → obeys Q' s s1 t.
Proof.
  intros HQ. revert s s1. induction t as [r|c k IH] using async_nested_ind; intros s s1; cbn [obeys]; [apply HQ|].
  intros (HC & HG & Hk). split_and!; [done..|]. intros r s2. specialize (Hk r s2). specialize (IH r s2).
  destruct (k r s2) as [s3 t3]. by apply IH.
Qed.

(** A final condition over a longer last piece. *)
Lemma obeys_before {A} (Q : S → S → A + E → Prop) s0 s s1 t : after_G Q → G s0 s → obeys Q s s1 t → obeys Q s0 s1 t.
Proof. intros HQ H0. destruct t as [r|c k]; cbn [obeys]; [by apply HQ|]. intros (HC & HG & Hk). split_and!; [done|by etrans|done]. Qed.

Lemma obeys_bind {A B} (Q1 : S → S → A + E → Prop) (Q : S → S → B + E → Prop) (P : A → Prop) (m : task A) (f : A → task B) :
  after_G Q →
  (∀ s s1 a, Q1 s s1 (inl a) → G s s1 ∧ P a) → (∀ s s1 e, Q1 s s1 (inr e) → Q s s1 (inr e)) →
  task_obeys Q1 m → (∀ a, P a → task_obeys Q (f a)) → task_obeys Q (task_bind m f).
Proof.
  intros HQ Ha He Hm Hf s. unfold task_bind. specialize (Hm s). destruct (m s) as [s1 t].
  revert s s1 Hm. induction t as [[a|e]|c k IH] using async_nested_ind; intros s s1 Hm; cbn [async_bind obeys] in *.
  - destruct (Ha _ _ _ Hm) as [HG HP]. specialize (Hf a HP s1). destruct (f a s1) as [s2 t2]. by apply (obeys_before Q s s1 s2).
  - by apply He.
  - destruct Hm as (HC & HG & Hk). split_and!; [done..|]. intros r s2. specialize (Hk r s2). specialize (IH r s2).
    destruct (k r s2) as [s3 t3]. cbn [snd] in IH. specialize (IH s2 s3 Hk). by destruct (async_bind f s3 t3).
Qed.

Lemma obeys_try {A} (Q1 Q : S → S → A + E → Prop) (m : task A) (h : E → task A) :
  after_G Q →
  (∀ s s1 a, Q1 s s1 (inl a) → Q s s1 (inl a)) → (∀ s s1 e, Q1 s s1 (inr e) → G s s1) →
  task_obeys Q1 m → (∀ e, (∃ s s1, Q1 s s1 (inr e)) → task_obeys Q (h e)) → task_obeys Q (task_try m h).
Proof.
  intros HQ Ha He Hm Hh s. unfold task_try. specialize (Hm s). destruct (m s) as [s1 t].
  revert s s1 Hm. induction t as [[a|e]|c k IH] using async_nested_ind; intros s s1 Hm; cbn [async_try obeys] in *.
  - by apply Ha.
  - specialize (Hh e (ex_intro _ s (ex_intro _ s1 Hm)) s1). destruct (h e s1) as [s2 t2].
    apply (obeys_before Q s s1 s2); [done|by eapply He|done].
  - destruct Hm as (HC & HG & Hk). split_and!; [done..|]. intros r s2. specialize (Hk r s2). specialize (IH r s2).
    destruct (k r s2) as [s3 t3]. cbn [snd] in IH. specialize (IH s2 s3 Hk). by destruct (async_try h s3 t3).
Qed.

Lemma obeys_task_weaken {A} (Q Q' : S → S → A + E → Prop) (m : task A) :
  (∀ s s1 r, Q s s1 r → Q' s s1 r) → task_obeys Q m → task_obeys Q' m.
Proof. intros HQ Hm s. specialize (Hm s). destruct (m s). by eapply obeys_weaken. Qed.

Lemma obeys_ret {A} (Q : S → S → A + E → Prop) a : (∀ s, Q s s (inl a)) → task_obeys Q (task_ret a).
Proof. intros HQ s. apply HQ. Qed.
Lemma obeys_throw {A} (Q : S → S → A + E → Prop) e : (∀ s, Q s s (inr e)) → task_obeys Q (throw e).
Proof. intros HQ s. apply HQ. Qed.
Lemma obeys_look {A} (Q : S → S → A + E → Prop) f : (∀ s, Q s s (inl (f s))) → task_obeys Q (look f).
Proof. intros HQ s. apply HQ. Qed.
Lemma obeys_alter (Q : S → S → unit + E → Prop) f : (∀ s, Q s (f s) (inl tt)) → task_obeys Q (alter f).
Proof. intros HQ s. apply HQ. Qed.
Lemma obeys_await (Q : ∀ c, S → S → reply c + E → Prop) c : C c → (∀ s r, Q c s s (inl r)) → task_obeys (Q c) (await c).
Proof. intros HC HQ s. cbn. split_and!; [done|reflexivity|]. intros r s2. apply HQ. Qed.

End obeys.

(** What a whole run, alone or not, keeps of a specification. *)
Lemma play_obeys {A} (C : call → Prop) (G : S → S → Prop) (Q : S → S → A + E → Prop) (o : ∀ c, reply c) (m : task A) s :
  task_obeys C G Q m → ∃ s1, Q s1 (play o m s).1 (play o m s).2.
Proof.
  intros Hm. unfold play. specialize (Hm s). destruct (m s) as [s1 t]. revert s s1 Hm.
  induction t as [r|c k IH] using async_nested_ind; intros s s1 Hm; cbn [obeys play_from] in *; [by exists s|].
  destruct Hm as (_ & _ & Hk). specialize (Hk (o c) s1). specialize (IH (o c) s1). destruct (k (o c) s1) as [s2 t2]. by eapply IH.
Qed.

(** ** Protocols

    A protocol is an automaton over the calls a coroutine makes and the answers it gets; a call it
    has no transition for is forbidden.  [task_follows Q p m]: from the state [p], whatever the
    answers and whatever happens to the shared state meanwhile, [m] makes allowed calls only, and
    when it ends the protocol's state and the result satisfy [Q]. *)

Section protocol.
Context {P : Type} (step : P → ∀ c, reply c → option P).

Fixpoint follows {A} (Q : P → A + E → Prop) (p : P) (t : async A) : Prop :=
  match t with
  | Done r => Q p r
  | Await c k => ∀ r s, match step p c r with
                        | Some p' => let (_, t') := k r s in follows Q p' t'
                        | None => False
                        end
  end.
Definition task_follows {A} (Q : P → A + E → Prop) (p : P) (m : task A) : Prop := ∀ s, let (_, t) := m s in follows Q p t.

(** The calls and answers of a run, from the start of a coroutine to its end. *)
Inductive runs {A} : async A → list {c : call & reply c} → A + E → Prop :=
  | runs_done r : runs (Done r) [] r
  | runs_call c k r s tr res : runs (k r s).2 tr res → runs (Await c k) (existT c r :: tr) res.

Lemma runs_inv {A} (t : async A) tr res : runs t tr res →
  match t with
  | Done r => tr = [] ∧ res = r
  | Await c k => ∃ r s tr', tr = existT c r :: tr' ∧ runs (k r s).2 tr' res
  end.
Proof. intros [r|c k r s tr' res' Hr]; [done|]. by exists r, s, tr'. Qed.

Lemma runs_bind {A B} (f : A → task B) s (t : async A) tr res : runs (async_bind f s t).2 tr res →
  ∃ tr1 r1 tr2, tr = tr1 ++ tr2 ∧ runs t tr1 r1 ∧
    match r1 with inl a => ∃ s', runs (f a s').2 tr2 res | inr e => tr2 = [] ∧ res = inr e end.
Proof.
  revert s tr. induction t as [[a|e]|c k IH] using async_nested_ind; intros s tr Hr; cbn [async_bind] in Hr.
  - exists [], (inl a), tr. split_and!; [done|constructor|by exists s].
  - apply runs_inv in Hr as [-> ->]. exists [], (inr e), []. split_and!; [done|constructor|done..].
  - apply runs_inv in Hr as (r & s1 & tr' & -> & Hr). specialize (IH r s1). destruct (k r s1) as [s2 t2] eqn:Hk. cbn [snd] in IH.
    destruct (IH s2 tr' Hr) as (tr1 & r1 & tr2 & -> & Hr1 & Hrest). exists (existT c r :: tr1), r1, tr2.
    split_and!; [done| |done]. apply (runs_call _ _ _ s1). by rewrite Hk.
Qed.

(** The protocol along a sequence of calls. *)
Definition steps (p : P) (tr : list {c : call & reply c}) : option P :=
  foldl (λ p x, p ≫= λ p, step p (projT1 x) (projT2 x)) (Some p) tr.

Lemma steps_none tr : foldl (λ p x, p ≫= λ p, step p (projT1 x) (projT2 x)) None tr = None.
Proof. by induction tr. Qed.

Lemma follows_runs {A} (Q : P → A + E → Prop) p t tr r : follows Q p t → runs t tr r → ∃ p', steps p tr = Some p' ∧ Q p' r.
Proof.
  intros Hf Hr. revert p Hf. induction Hr as [r|c k r s tr res Hr IH]; intros p Hf; cbn [follows] in *; [by exists p|].
  specialize (Hf r s). unfold steps. cbn [foldl mbind option_bind projT1 projT2]. destruct (step p c r) as [p'|]; [|done].
  destruct (k r s) as [s' t']. by apply IH.
Qed.

Lemma follows_weaken {A} (Q Q' : P → A + E → Prop) p t : (∀ p r, Q p r → Q' p r) → follows Q p t → follows Q' p t.
Proof.
  intros HQ. revert p. induction t as [r|c k IH] using async_nested_ind; intros p; cbn [follows]; [apply HQ|].
  intros Hk r s. specialize (Hk r s). specialize (IH r s). destruct (step p c r) as [p'|]; [|done].
  destruct (k r s) as [s' t']. by apply IH.
Qed.

Lemma task_follows_weaken {A} (Q Q' : P → A + E → Prop) p (m : task A) : (∀ p r, Q p r → Q' p r) → task_follows Q p m → task_follows Q' p m.
Proof. intros HQ Hm s. specialize (Hm s). destruct (m s). by eapply follows_weaken. Qed.

Lemma task_follows_ret {A} (Q : P → A + E → Prop) p a : Q p (inl a) → task_follows Q p (task_ret a).
Proof. intros HQ s. exact HQ. Qed.
Lemma task_follows_throw {A} (Q : P → A + E → Prop) p e : Q p (inr e) → task_follows Q p (throw e : task A).
Proof. intros HQ s. exact HQ. Qed.
Lemma task_follows_look {A} (Q : P → A + E → Prop) p f : (∀ s, Q p (inl (f s))) → task_follows Q p (look f).
Proof. intros HQ s. exact (HQ s). Qed.
Lemma task_follows_alter (Q : P → unit + E → Prop) p f : Q p (inl tt) → task_follows Q p (alter f).
Proof. intros HQ s. exact HQ. Qed.
Lemma task_follows_bind {A B} (Q : P → B + E → Prop) p (m : task A) (f : A → task B) :
  task_follows (λ p' r, match r with inl a => task_follows Q p' (f a) | inr e => Q p' (inr e) end) p m →
  task_follows Q p (task_bind m f).
Proof.
  intros Hm s. unfold task_bind. specialize (Hm s). destruct (m s) as [s1 t]. revert s1 p Hm.
  induction t as [[a|e]|c k IH] using async_nested_ind; intros s1 p Hm; cbn [async_bind follows] in *.
  - specialize (Hm s1). by destruct (f a s1).
  - exact Hm.
  - intros r s2. specialize (Hm r s2). specialize (IH r s2). destruct (step p c r) as [p'|]; [|done].
    destruct (k r s2) as [s3 t3]. cbn [snd] in IH. specialize (IH s3 p' Hm). by destruct (async_bind f s3 t3).
Qed.

Lemma task_follows_try {A} (Q : P → A + E → Prop) p (m : task A) (h : E → task A) :
  task_follows (λ p' r, match r with inl a => Q p' (inl a) | inr e => task_follows Q p' (h e) end) p m →
  task_follows Q p (task_try m h).
Proof.
  intros Hm s. unfold task_try. specialize (Hm s). destruct (m s) as [s1 t]. revert s1 p Hm.
  induction t as [[a|e]|c k IH] using async_nested_ind; intros s1 p Hm; cbn [async_try follows] in *.
  - exact Hm.
  - specialize (Hm s1). by destruct (h e s1).
  - intros r s2. specialize (Hm r s2). specialize (IH r s2). destruct (step p c r) as [p'|]; [|done].
    destruct (k r s2) as [s3 t3]. cbn [snd] in IH. specialize (IH s3 p' Hm). by destruct (async_try h s3 t3).
Qed.

End protocol.

End async.

Arguments async : clear implicits.
Arguments task : clear implicits.
Arguments Done {S E call reply A} _.
Arguments Await {S E call reply A} _ _.

#[export] Instance task_mret S E call reply : MRet (task S E call reply) := λ A, task_ret.
#[export] Instance task_mbind S E call reply : MBind (task S E call reply) := λ A B f m, task_bind m f.
