(* ===== verification/ToolBridge.v ===== *)
(** * Request and response rewriting of the model proxy (haas/model_proxy/proxy.py)

    Providers without tool namespaces get flat tool names; the calls they answer with are
    given their namespace back.  Credentials are replaced in every text of a decoded response
    before it is relayed. *)

From S2P Require Import Prelude Errors Dict PyVal ModelRoute.

#[local] Open Scope string_scope.
#[local] Open Scope list_scope.

(** ** Credential redaction *)

(** [s.replace(old, new)] for a non-empty [old]: the scan from the left; [skip] counts the characters of a
    match that are still to be passed over. *)
Fixpoint replace_from (old new : string) (skip : nat) (s : string) : string :=
  match s with
  | EmptyString => ""
  | String a s' =>
      match skip with
      | S k => replace_from old new k s'
      | O => if starts_with old s then new +:+ replace_from old new (String.length old - 1) s'
             else String a (replace_from old new 0 s')
      end
  end.

Definition str_replace (old new s : string) : string := replace_from old new 0 s.

Definition redacted_mark : string := "[REDACTED]".

(** [_redact_credential] *)
Fixpoint redact_walk (credential : string) (obj : pyval) : pyval :=
  match obj with
  | PStr s => PStr (str_replace credential redacted_mark s)
  | PDict d => PDict ((fix go (d : pydict) : pydict :=
      match d with [] => [] | (k, v) :: d' => (k, redact_walk credential v) :: go d' end) d)
  | PList l => PList ((fix go (l : list pyval) : list pyval :=
      match l with [] => [] | v :: l' => redact_walk credential v :: go l' end) l)
  | _ => obj
  end.

Definition redact_credential (obj : pyval) (credential : string) : pyval :=
  if bool_decide (credential = "") then obj else redact_walk credential obj.

(** ** The namespace bridge *)

Definition NAMESPACE_TOOL_CONFLICT : exn := ValueError "namespace_tool_bridge_conflict".

(** [_NamespaceToolBridge]: flat name to (namespace, name), and the names of plain tools. *)
Record NamespaceToolBridge := mkBridge {
  nb_flat_to_namespaced : dict string (string * string);
  nb_reserved_tool_names : list string;
}.
Definition empty_bridge : NamespaceToolBridge := mkBridge [] [].

(** [v == "text"] *)
Definition is_text (v : pyval) (t : string) : bool := match v with PStr s => bool_decide (s = t) | _ => false end.

Definition flat_name (namespace name : string) : string := namespace +:+ "__" +:+ name.

Definition set_add (x : string) (l : list string) : list string := if bool_decide (x ∈ l) then l else l ++ [x].

(** The locals of [_flatten_namespace_tools]. *)
Record flatten_state := mkFlatten {
  fl_bridge : NamespaceToolBridge;
  fl_used_names : list string;
  fl_flattened : list pyval;
}.

Section bridge.
Context `{PyRepr}.

Definition reserve (name : pyval) (st : flatten_state) : result flatten_state :=
  match name with
  | PStr ((String _ _) as n) =>
      if dmem n (nb_flat_to_namespaced (fl_bridge st)) then Raise NAMESPACE_TOOL_CONFLICT
      else Ok (mkFlatten (mkBridge (nb_flat_to_namespaced (fl_bridge st)) (set_add n (nb_reserved_tool_names (fl_bridge st))))
                 (set_add n (fl_used_names st)) (fl_flattened st))
  | _ => Ok st
  end.

Definition append_tool (tool : pyval) (st : flatten_state) : flatten_state :=
  mkFlatten (fl_bridge st) (fl_used_names st) (fl_flattened st ++ [tool]).

(** ["\n\n".join(part for part in (a, b) if part)] *)
Definition join_parts (a b : string) : string :=
  if bool_decide (a = "") then b
  else if bool_decide (b = "") then a
  else a +:+ String (Ascii.ascii_of_nat 10) (String (Ascii.ascii_of_nat 10) "") +:+ b.

Definition flat_tool (child : pydict) (flat description : string) : pydict :=
  let t := dset "name" (PStr flat) child in
  if bool_decide (description = "") then t else dset "description" (PStr description) t.

(** The body of the loop over one namespace's tools. *)
Definition flatten_child (namespace namespace_description : string) (child : pyval) (st : flatten_state)
    : result flatten_state :=
  match child with
  | PDict c =>
      if is_text (pget "type" c) "function" then
        match pget "name" c with
        | PStr ((String _ _) as child_name) =>
            let flat := flat_name namespace child_name in
            if bool_decide (flat ∈ fl_used_names st) || dmem flat (nb_flat_to_namespaced (fl_bridge st))
            then Raise NAMESPACE_TOOL_CONFLICT
            else
              let child_description := strip (str_or (pget "description" c) "") in
              let description := join_parts namespace_description child_description in
              Ok (mkFlatten
                    (mkBridge (dset flat (namespace, child_name) (nb_flat_to_namespaced (fl_bridge st)))
                       (nb_reserved_tool_names (fl_bridge st)))
                    (set_add flat (fl_used_names st))
                    (fl_flattened st ++ [PDict (flat_tool c flat description)]))
        | _ => Ok st
        end
      else Ok st
  | _ => Ok st
  end.

Fixpoint flatten_children (namespace namespace_description : string) (children : list pyval) (st : flatten_state)
    : result flatten_state :=
  match children with
  | [] => Ok st
  | child :: children' =>
      st' ← flatten_child namespace namespace_description child st;
      flatten_children namespace namespace_description children' st'
  end.

Definition flatten_tool (tool : pyval) (st : flatten_state) : result flatten_state :=
  match tool with
  | PDict t =>
      if negb (is_text (pget "type" t) "namespace") then
        st' ← reserve (pget "name" t) st; Ok (append_tool tool st')
      else
        match pget "name" t, pget "tools" t with
        | PStr namespace, PList children =>
            flatten_children namespace (strip (str_or (pget "description" t) "")) children st
        | _, _ => Ok st
        end
  | _ => Ok (append_tool tool st)
  end.

Fixpoint flatten_tools (tools : list pyval) (st : flatten_state) : result flatten_state :=
  match tools with
  | [] => Ok st
  | tool :: tools' => st' ← flatten_tool tool st; flatten_tools tools' st'
  end.

(** [_flatten_namespace_tools]: the flattened list and the bridge as it leaves it. *)
Definition flatten_namespace_tools (tools : list pyval) (bridge : NamespaceToolBridge)
    : result (list pyval * NamespaceToolBridge) :=
  st ← flatten_tools tools (mkFlatten bridge [] []);
  Ok (fl_flattened st, fl_bridge st).

(** ** Calls *)

(** The namespace and name of a function call that carries both. *)
Definition namespaced_call (d : pydict) : option (string * string) :=
  if is_text (pget "type" d) "function_call" then
    match pget "namespace" d, pget "name" d with
    | PStr namespace, PStr name => Some (namespace, name)
    | _, _ => None
    end
  else None.

(** The bridge lookup that follows the rewriting of a call. *)
Definition check_call (bridge : NamespaceToolBridge) (target : string * string) : result unit :=
  let flat := flat_name target.1 target.2 in
  match dget flat (nb_flat_to_namespaced bridge) with
  | Some existing => ensure (bool_decide (existing = target)) NAMESPACE_TOOL_CONFLICT
  | None => ensure (negb (bool_decide (flat ∈ nb_reserved_tool_names bridge))) NAMESPACE_TOOL_CONFLICT
  end.

(** [_flatten_input_function_call_value] *)
Fixpoint flatten_call_value (bridge : NamespaceToolBridge) (value : pyval) : result pyval :=
  match value with
  | PDict d =>
      let walk := (fix go (drop_ns : bool) (d : pydict) : result pydict :=
        match d with
        | [] => Ok []
        | (k, child) :: d' =>
            if drop_ns && bool_decide (k = "namespace") then go drop_ns d'
            else c ← flatten_call_value bridge child; rest ← go drop_ns d'; Ok ((k, c) :: rest)
        end) in
      match namespaced_call d with
      | Some target =>
          flattened ← walk true d;
          _ ← check_call bridge target;
          Ok (PDict (dset "name" (PStr (flat_name target.1 target.2)) flattened))
      | None => flattened ← walk false d; Ok (PDict flattened)
      end
  | PList l =>
      items ← (fix go (l : list pyval) : result (list pyval) :=
        match l with
        | [] => Ok []
        | x :: l' => y ← flatten_call_value bridge x; rest ← go l'; Ok (y :: rest)
        end) l;
      Ok (PList items)
  | _ => Ok value
  end.

(** [_flatten_input_function_calls] *)
Fixpoint flatten_input_function_calls (items : list pyval) (bridge : NamespaceToolBridge) : result (list pyval) :=
  match items with
  | [] => Ok []
  | x :: items' => y ← flatten_call_value bridge x; rest ← flatten_input_function_calls items' bridge; Ok (y :: rest)
  end.

(** [_restore_namespace_tool_call_value] *)
Fixpoint restore_call_value (bridge : NamespaceToolBridge) (value : pyval) : pyval :=
  match value with
  | PDict d =>
      let walk := (fix go (d : pydict) : pydict :=
        match d with [] => [] | (k, child) :: d' => (k, restore_call_value bridge child) :: go d' end) in
      if is_text (pget "type" d) "function_call" then
        match pget "name" d with
        | PStr name =>
            match dget name (nb_flat_to_namespaced bridge) with
            | Some target => PDict (dset "name" (PStr target.2) (dset "namespace" (PStr target.1) d))
            | None => PDict (walk d)
            end
        | _ => PDict (walk d)
        end
      else PDict (walk d)
  | PList l => PList ((fix go (l : list pyval) : list pyval :=
      match l with [] => [] | x :: l' => restore_call_value bridge x :: go l' end) l)
  | _ => value
  end.

(** [_restore_namespace_tool_calls] *)
Definition restore_namespace_tool_calls (payload : pydict) (bridge : NamespaceToolBridge) : pydict :=
  match restore_call_value bridge (PDict payload) with PDict d => d | _ => payload end.

(** ** The request body *)

Definition ark : string := "volcengine-ark".

(** An input item that the provider wants to be marked as completed. *)
Definition complete_item (item : pyval) : pyval :=
  match item with
  | PDict d =>
      if negb (dmem "status" d) &&
         (is_text (pget "type" d) "reasoning" ||
          (is_text (pget "type" d) "message" && is_text (pget "role" d) "assistant"))
      then PDict (dset "status" (PStr "completed") d) else item
  | _ => item
  end.

(** [_responses_body] *)
Definition responses_body (route : ModelRoute) (body : pydict) : result (pydict * NamespaceToolBridge) :=
  let payload := dset "model" (PStr (mr_model route)) body in
  if negb (bool_decide (mr_providerId route = ark)) then Ok (payload, empty_bridge)
  else
    tb ← match pget "tools" payload with
         | PList tools =>
             fb ← flatten_namespace_tools tools empty_bridge;
             Ok (dset "tools" (PList fb.1) payload, fb.2)
         | _ => Ok (payload, empty_bridge)
         end;
    let '(payload, bridge) := tb in
    payload ← match pget "input" payload with
              | PList items => items' ← flatten_input_function_calls items bridge; Ok (dset "input" (PList items') payload)
              | _ => Ok payload
              end;
    let payload := match pget "reasoning" payload with
                   | PDict reasoning =>
                       if dmem "summary" reasoning then dset "reasoning" (PDict (ddel "summary" reasoning)) payload else payload
                   | _ => payload
                   end in
    let payload := match pget "input" payload with
                   | PList items => dset "input" (PList (complete_item <$> items)) payload
                   | _ => payload
                   end in
    Ok (payload, bridge).

End bridge.

(** ** No text of a redacted response contains the credential *)

Fixpoint occurs (t s : string) : bool :=
  starts_with t s || match s with EmptyString => false | String _ s' => occurs t s' end.

(** The string values inside a value, at any depth, and the dictionary keys. *)
Fixpoint value_texts (v : pyval) : list string :=
  match v with
  | PStr s => [s]
  | PDict d => (fix go (d : pydict) : list string := match d with [] => [] | (_, x) :: d' => value_texts x ++ go d' end) d
  | PList l => (fix go (l : list pyval) : list string := match l with [] => [] | x :: l' => value_texts x ++ go l' end) l
  | _ => []
  end.
Fixpoint key_texts (v : pyval) : list string :=
  match v with
  | PDict d => (fix go (d : pydict) : list string := match d with [] => [] | (k, x) :: d' => k :: key_texts x ++ go d' end) d
  | PList l => (fix go (l : list pyval) : list string := match l with [] => [] | x :: l' => key_texts x ++ go l' end) l
  | _ => []
  end.

Definition lbracket : Ascii.ascii := Ascii.ascii_of_nat 91.
Definition rbracket : Ascii.ascii := Ascii.ascii_of_nat 93.

(** A credential that cannot be pieced together from the mark: no square brackets and not a
    part of the word between them. *)
Definition distinct_from_mark (credential : string) : Prop :=
  credential ≠ "" ∧ str_forall (λ a, negb (Ascii.eqb a lbracket) && negb (Ascii.eqb a rbracket)) credential = true ∧
  occurs credential "REDACTED" = false.

Definition without (c : Ascii.ascii) (s : string) : Prop := str_forall (λ a, negb (Ascii.eqb a c)) s = true.

Lemma starts_with_cons a b s t : starts_with (String a s) (String b t) = Ascii.eqb a b && starts_with s t.
Proof.
  unfold starts_with. cbn [String.prefix].
  destruct (Ascii.ascii_dec a b) as [->|Hne]; [by rewrite Ascii.eqb_refl|].
  by rewrite (proj2 (Ascii.eqb_neq a b)).
Qed.

Lemma starts_with_stop c t w u : without c t → starts_with t (w +:+ String c u) = starts_with t w.
Proof.
  unfold without. revert w. induction t as [|a t IH]; intros w; [by destruct w|].
  cbn [str_forall]. intros [Ha Ht]%andb_true_iff. apply negb_true_iff in Ha.
  destruct w as [|b w].
  - change ("" +:+ String c u) with (String c u). rewrite starts_with_cons, Ha. done.
  - change (String b w +:+ String c u) with (String b (w +:+ String c u)). rewrite !starts_with_cons. by rewrite IH.
Qed.

Lemma occurs_stop c t w u : t ≠ "" → without c t → occurs t (w +:+ String c u) = occurs t w || occurs t u.
Proof.
  intros Hne Hc. induction w as [|a w IH].
  - change ("" +:+ String c u) with (String c u). cbn [occurs]. destruct t as [|b t]; [done|].
    rewrite starts_with_cons. unfold without in Hc. cbn [str_forall] in Hc. apply andb_true_iff in Hc as [Hb _].
    apply negb_true_iff in Hb as ->. done.
  - change (String a w +:+ String c u) with (String a (w +:+ String c u)). cbn [occurs]. rewrite IH.
    change (String a (w +:+ String c u)) with (String a w +:+ String c u). rewrite starts_with_stop by done.
    by rewrite orb_assoc.
Qed.

Section redaction.
Context (old : string) (old_ok : distinct_from_mark old).

Lemma old_no_brackets : without lbracket old ∧ without rbracket old.
Proof.
  destruct old_ok as (_ & Hb & _). unfold without. clear old_ok. revert Hb.
  induction old as [|a s IH]; [done|]. cbn [str_forall]. intros [Ha Hs]%andb_true_iff.
  apply andb_true_iff in Ha as [H1 H2]. destruct (IH Hs) as [-> ->]. by rewrite H1, H2.
Qed.

Lemma replace_prefix t s :
  without lbracket t → starts_with t (replace_from old redacted_mark 0 s) = true → starts_with t s = true.
Proof.
  unfold without. revert s. induction t as [|a t IH]; intros s; [by destruct s|].
  cbn [str_forall]. intros [Ha Ht]%andb_true_iff. destruct s as [|b s]; [done|]. cbn [replace_from].
  destruct (starts_with old (String b s)).
  - change (redacted_mark +:+ ?x) with (String lbracket ("REDACTED]" +:+ x)). rewrite starts_with_cons.
    apply negb_true_iff in Ha as ->. done.
  - rewrite !starts_with_cons. intros [? ?]%andb_true_iff. apply andb_true_iff. auto.
Qed.

Lemma replace_clean skip s : occurs old (replace_from old redacted_mark skip s) = false.
Proof.
  pose proof old_no_brackets as [Hl Hr]. destruct old_ok as (Hne & _ & Hm).
  revert skip. induction s as [|a s IH]; intros skip; cbn [replace_from]; [by destruct old|].
  destruct skip as [|k]; [|apply IH]. destruct (starts_with old (String a s)) eqn:E.
  - change (redacted_mark +:+ ?x) with ("" +:+ String lbracket ("REDACTED" +:+ String rbracket x)).
    rewrite !occurs_stop by done. rewrite Hm, IH. by destruct old.
  - cbn [occurs]. rewrite IH, orb_false_r. apply not_true_iff_false. intros Hs.
    apply not_true_iff_false in E. apply E. clear E IH. destruct old as [|b t] eqn:Eo; [done|].
    rewrite starts_with_cons in Hs |- *. apply andb_true_iff in Hs as [-> Hs]. cbn [andb].
    unfold without in Hl. cbn [str_forall] in Hl. apply andb_true_iff in Hl as [_ Hl].
    revert Hs. rewrite <-Eo. by apply replace_prefix.
Qed.

Lemma redact_walk_clean v : Forall (λ s, occurs old s = false) (value_texts (redact_walk old v)).
Proof.
  induction v as [| | | |s|l IH|d IH] using pyval_nested_ind; cbn [redact_walk value_texts]; try constructor.
  - apply replace_clean.
  - done.
  - induction IH as [|x l Hx Hl IH]; cbn; [constructor|]. apply Forall_app. auto.
  - induction IH as [|[k x] d Hx Hd IH]; cbn; [constructor|]. apply Forall_app. auto.
Qed.

(** The keys are left as they are. *)
Lemma redact_walk_keys v : key_texts (redact_walk old v) = key_texts v.
Proof.
  induction v as [| | | |s|l IH|d IH] using pyval_nested_ind; cbn [redact_walk key_texts]; try done.
  - induction IH as [|x l Hx Hl IH]; cbn; [done|]. by rewrite Hx, IH.
  - induction IH as [|[k x] d Hx Hd IH]; cbn; [done|]. cbn in Hx. by rewrite Hx, IH.
Qed.
End redaction.

(** No string value inside a redacted provider response contains the credential, at any depth, for
    every credential without square brackets that is not itself a piece of the redaction mark. *)
Theorem credential_never_relayed credential v s :
  distinct_from_mark credential → s ∈ value_texts (redact_credential v credential) → occurs credential s = false.
Proof.
  intros Hc. unfold redact_credential. rewrite bool_decide_eq_false_2 by apply Hc.
  exact (proj1 (Forall_forall _ _) (redact_walk_clean credential Hc v) s).
Qed.

Lemma credential_never_relayed_witness :
  let v := PDict [("a", PList [PStr "x sk-1 sk-1"; PInt 3]); ("b", PStr "sk-sk-1")] in
  value_texts (redact_credential v "sk-1") = ["x [REDACTED] [REDACTED]"; "sk-[REDACTED]"] ∧ occurs "sk-1" "sk-[REDACTED]" = false.
Proof.
  intros v. assert (value_texts (redact_credential v "sk-1") = ["x [REDACTED] [REDACTED]"; "sk-[REDACTED]"]) as Ht by (vm_compute; reflexivity).
  split; [exact Ht|]. apply (credential_never_relayed "sk-1" v); [|rewrite Ht; right; left].
  split; [discriminate|]. split; vm_compute; reflexivity.
Defined.

(** A dictionary key is not redacted: a provider that echoes the credential as a key has it relayed to the harness. *)
Theorem credential_in_key_relayed :
  redact_credential (PDict [("sk-1", PStr "sk-1")]) "sk-1" = PDict [("sk-1", PStr "[REDACTED]")] ∧
  key_texts (redact_credential (PDict [("sk-1", PStr "sk-1")]) "sk-1") = ["sk-1"].
Proof. split; reflexivity. Qed.

(** ** Flattened tools and their calls *)

Section bridge_proofs.
Context `{PyRepr}.

(** The function tools a namespace declares, and the name of a plain tool. *)
Definition child_decl (namespace : string) (child : pyval) : list (string * string) :=
  match child with
  | PDict c =>
      if is_text (pget "type" c) "function" then
        match pget "name" c with PStr ((String _ _) as n) => [(namespace, n)] | _ => [] end
      else []
  | _ => []
  end.

Definition tool_decls (tool : pyval) : list (string * string) :=
  match tool with
  | PDict t =>
      if is_text (pget "type" t) "namespace" then
        match pget "name" t, pget "tools" t with
        | PStr namespace, PList children => children ≫= child_decl namespace
        | _, _ => []
        end
      else []
  | _ => []
  end.

Definition plain_name (tool : pyval) : list string :=
  match tool with
  | PDict t =>
      if is_text (pget "type" t) "namespace" then []
      else match pget "name" t with PStr ((String _ _) as n) => [n] | _ => [] end
  | _ => []
  end.

Definition entry (p : string * string) : string * (string * string) := (flat_name p.1 p.2, p).

Definition flats (st : flatten_state) : dict string (string * string) := nb_flat_to_namespaced (fl_bridge st).
Definition reserved (st : flatten_state) : list string := nb_reserved_tool_names (fl_bridge st).

(** Flat names and reserved names are apart; the used names are both together. *)
Definition flatten_inv (st : flatten_state) : Prop :=
  dict_wf (flats st) ∧ (∀ n, n ∈ reserved st → dget n (flats st) = None) ∧
  (∀ n, n ∈ fl_used_names st ↔ n ∈ reserved st ∨ is_Some (dget n (flats st))).

Lemma elem_set_add x y l : x ∈ set_add y l ↔ x = y ∨ x ∈ l.
Proof. unfold set_add. case_bool_decide; set_solver. Qed.

(** What a step adds: bridge entries, reserved names, and one flat tool per new entry. *)
Definition adds (ds : list (string * string)) (ns : list string) (st st' : flatten_state) : Prop :=
  flats st' = flats st ++ (entry <$> ds) ∧ (∀ n, n ∈ reserved st' ↔ n ∈ ns ∨ n ∈ reserved st) ∧
  ∃ out, fl_flattened st' = fl_flattened st ++ out ∧
    ∀ d, d ∈ ds → ∃ t, PDict t ∈ out ∧ pget "name" t = PStr (flat_name d.1 d.2).

Lemma adds_nil st : adds [] [] st st.
Proof. split_and!; [by rewrite app_nil_r|set_solver|]. exists []. rewrite app_nil_r. set_solver. Qed.

Lemma adds_trans ds1 ns1 ds2 ns2 st1 st2 st3 :
  adds ds1 ns1 st1 st2 → adds ds2 ns2 st2 st3 → adds (ds1 ++ ds2) (ns1 ++ ns2) st1 st3.
Proof.
  intros (F1 & R1 & o1 & O1 & N1) (F2 & R2 & o2 & O2 & N2). split_and!.
  - by rewrite F2, F1, fmap_app, (assoc_L (++)).
  - intros n. rewrite R2, R1. set_solver.
  - exists (o1 ++ o2). rewrite O2, O1, (assoc_L (++)). split; [done|].
    intros d [Hd|Hd]%elem_of_app; [destruct (N1 d Hd) as (t & ? & ?)|destruct (N2 d Hd) as (t & ? & ?)]; exists t; set_solver.
Qed.

Lemma flat_tool_name c flat desc : pget "name" (flat_tool c flat desc) = PStr flat.
Proof. unfold flat_tool, pget. case_bool_decide; rewrite ?dget_dset_ne by done; by rewrite dget_dset_eq. Qed.

Lemma flatten_child_spec ns nd child st st' :
  flatten_inv st → flatten_child ns nd child st = Ok st' → flatten_inv st' ∧ adds (child_decl ns child) [] st st'.
Proof.
  intros (Hw & Hr & Hu). unfold flatten_child, child_decl. destruct child as [| | | | | |c];
    try (intros [= <-]; split; [done|apply adds_nil]).
  destruct (is_text (pget "type" c) "function"); [|intros [= <-]; split; [done|apply adds_nil]].
  destruct (pget "name" c) as [| | | |[|a n]| |]; try (intros [= <-]; split; [done|apply adds_nil]).
  set (nm := String a n). set (flat := flat_name ns nm).
  destruct (bool_decide (flat ∈ fl_used_names st)) eqn:E1; [done|]. cbn [orb].
  destruct (dmem flat (nb_flat_to_namespaced (fl_bridge st))) eqn:E2; [done|]. bsimp. intros [= <-].
  assert (dget flat (flats st) = None) as Hn by (unfold dmem in E2; unfold flats; by destruct (dget flat _)).
  split.
  - unfold flatten_inv, flats, reserved in *. cbn. split_and!; [by apply dict_wf_dset| |].
    + intros m Hm. rewrite dget_dset_ne; [by apply Hr|]. intros ->. apply E1, Hu. by left.
    + intros m. rewrite elem_set_add, dget_dset, Hu. case_decide; subst; [|tauto]. split; [|by left]. eauto.
  - unfold adds, flats, reserved in *. cbn. split_and!; [by rewrite dset_new|set_solver|].
    eexists. split; [done|]. intros d ->%list_elem_of_singleton. eexists. split; [by left|]. apply flat_tool_name.
Qed.

Lemma flatten_children_spec ns nd children st st' :
  flatten_inv st → flatten_children ns nd children st = Ok st' →
  flatten_inv st' ∧ adds (children ≫= child_decl ns) [] st st'.
Proof.
  revert st. induction children as [|c children IH]; intros st Hi; cbn [flatten_children].
  { intros [= <-]. split; [done|apply adds_nil]. }
  intros (st1 & H1 & H2)%bind_Ok. destruct (flatten_child_spec _ _ _ _ _ Hi H1) as [Hi1 A1].
  destruct (IH st1 Hi1 H2) as [Hi2 A2]. split; [done|]. exact (adds_trans _ [] _ [] _ _ _ A1 A2).
Qed.

Lemma flatten_tool_spec tool st st' :
  flatten_inv st → flatten_tool tool st = Ok st' → flatten_inv st' ∧ adds (tool_decls tool) (plain_name tool) st st'.
Proof.
  intros Hi. unfold flatten_tool, tool_decls, plain_name.
  assert (∀ t st0, adds [] [] st0 (append_tool t st0)) as Happ.
  { intros t st0. split_and!; [by rewrite app_nil_r|set_solver|]. exists [t]. split; [done|set_solver]. }
  destruct tool as [| | | | | |t]; try (intros [= <-]; split; [done|apply Happ]).
  destruct (is_text (pget "type" t) "namespace"); cbn [negb].
  - destruct (pget "name" t) as [| | | |ns| |]; try (intros [= <-]; split; [done|apply adds_nil]).
    destruct (pget "tools" t) as [| | | | |children|]; try (intros [= <-]; split; [done|apply adds_nil]).
    by apply flatten_children_spec.
  - intros (st1 & H1 & [= <-])%bind_Ok.
    enough (flatten_inv st1 ∧ adds [] (match pget "name" t with PStr (String _ _ as n) => [n] | _ => [] end) st st1) as [Hi1 A1].
    { split; [done|]. replace (match pget "name" t with PStr (String _ _ as n) => [n] | _ => [] end) with
        ((match pget "name" t with PStr (String _ _ as n) => [n] | _ => [] end) ++ []) by apply app_nil_r.
      exact (adds_trans [] _ [] [] _ _ _ A1 (Happ (PDict t) st1)). }
    destruct (pget "name" t) as [| | | |[|a n]| |]; cbn in H1; simplify_eq; try (split; [done|apply adds_nil]).
    destruct Hi as (Hw & Hr & Hu). destruct (dmem (String a n) (nb_flat_to_namespaced (fl_bridge st))) eqn:E; simplify_eq.
    assert (dget (String a n) (flats st) = None) as Hn by (unfold dmem in E; unfold flats; by destruct (dget (String a n) _)).
    split.
    + unfold flatten_inv, flats, reserved in *. cbn. split_and!; [done| |].
      * intros m [->|?]%elem_set_add; [done|by apply Hr].
      * intros m. rewrite !elem_set_add, Hu. tauto.
    + unfold adds, flats, reserved. cbn. split_and!; [by rewrite app_nil_r| |].
      * intros m. rewrite elem_set_add. set_solver.
      * exists []. rewrite app_nil_r. set_solver.
Qed.

Lemma flatten_tools_spec tools st st' :
  flatten_inv st → flatten_tools tools st = Ok st' →
  flatten_inv st' ∧ adds (tools ≫= tool_decls) (tools ≫= plain_name) st st'.
Proof.
  revert st. induction tools as [|t tools IH]; intros st Hi; cbn [flatten_tools].
  { intros [= <-]. split; [done|apply adds_nil]. }
  intros (st1 & H1 & H2)%bind_Ok. destruct (flatten_tool_spec _ _ _ Hi H1) as [Hi1 A1].
  destruct (IH st1 Hi1 H2) as [Hi2 A2]. split; [done|]. by eapply adds_trans.
Qed.

(** The bridge of a request: exactly the declared tools, apart from the plain names. *)
Lemma bridge_exact tools out bridge :
  flatten_namespace_tools tools empty_bridge = Ok (out, bridge) →
  (∀ flat ns c, dget flat (nb_flat_to_namespaced bridge) = Some (ns, c) ↔
     flat = flat_name ns c ∧ (ns, c) ∈ (tools ≫= tool_decls)) ∧
  (∀ n, n ∈ (tools ≫= plain_name) → dget n (nb_flat_to_namespaced bridge) = None) ∧
  (∀ ns c, (ns, c) ∈ (tools ≫= tool_decls) → ∃ t, PDict t ∈ out ∧ pget "name" t = PStr (flat_name ns c)).
Proof.
  unfold flatten_namespace_tools. intros (st & Hst & [= <- <-])%bind_Ok.
  assert (flatten_inv (mkFlatten empty_bridge [] [])) as Hi.
  { split_and!; [apply dict_wf_nil|set_solver|]. intros n. cbn. split; [set_solver|intros [?|[]]; set_solver]. }
  destruct (flatten_tools_spec _ _ _ Hi Hst) as [(Hw & Hr & _) (Hf & Hns & o & Ho & Hn)].
  unfold flats, reserved in *. cbn in Hf, Ho. split_and!.
  - intros flat ns c. rewrite <-elem_dget_iff by done. rewrite Hf, list_elem_of_fmap. unfold entry. split.
    + intros ([ns' c'] & [= -> -> ->] & Hin). done.
    + intros [-> Hin]. by exists (ns, c).
  - intros n Hin. apply Hr, Hns. by left.
  - intros ns c Hin. destruct (Hn _ Hin) as (t & ? & ?). exists t. rewrite Ho. done.
Qed.

(** A field of a call that holds no dictionary or list. *)
Definition scalar (v : pyval) : bool := match v with PDict _ | PList _ => false | _ => true end.

Lemma flatten_scalar bridge v : scalar v = true → flatten_call_value bridge v = Ok v.
Proof. by destruct v. Qed.

Lemma flatten_call_scalars bridge d ns c :
  Forall (λ kv, scalar kv.2 = true) d → namespaced_call d = Some (ns, c) → check_call bridge (ns, c) = Ok tt →
  flatten_call_value bridge (PDict d) = Ok (PDict (dset "name" (PStr (flat_name ns c)) (ddel "namespace" d))).
Proof.
  intros Hs Hn Hc. cbn [flatten_call_value]. rewrite Hn.
  match goal with |- (?w ≫= _) = _ => assert (w = Ok (ddel "namespace" d)) as -> end.
  { clear Hn. induction Hs as [|[k v] d Hv Hd IH]; cbn [ddel]; [done|]. cbn [andb].
    destruct (decide ("namespace" = k)) as [<-|Hk].
    - rewrite bool_decide_eq_true_2 by done. exact IH.
    - rewrite bool_decide_eq_false_2 by congruence. rewrite flatten_scalar by done. cbn. rewrite IH. done. }
  cbn. by rewrite Hc.
Qed.

(** When a request's tools are flattened, every tool of a namespace is offered under exactly one
    flat name; a call the provider answers with under that name gets back the declared
    namespace and tool name, and a call of a plain tool is never given a namespace.  A
    namespaced call of the conversation that was flattened for the provider is restored to
    the same fields. *)
Theorem namespaced_calls_roundtrip tools out bridge :
  flatten_namespace_tools tools empty_bridge = Ok (out, bridge) →
  (∀ ns c, (ns, c) ∈ (tools ≫= tool_decls) →
    (∃ t, PDict t ∈ out ∧ pget "name" t = PStr (flat_name ns c)) ∧
    (∀ ns' c', (ns', c') ∈ (tools ≫= tool_decls) → flat_name ns c = flat_name ns' c' → (ns, c) = (ns', c')) ∧
    (∀ d, is_text (pget "type" d) "function_call" = true → pget "name" d = PStr (flat_name ns c) →
       restore_call_value bridge (PDict d) = PDict (dset "name" (PStr c) (dset "namespace" (PStr ns) d))) ∧
    (∀ d, Forall (λ kv, scalar kv.2 = true) d → dict_wf d → namespaced_call d = Some (ns, c) →
       ∃ e r, flatten_call_value bridge (PDict d) = Ok (PDict e) ∧ dmem "namespace" e = false ∧
              restore_call_value bridge (PDict e) = PDict r ∧ dict_eq r d)) ∧
  (∀ n d, n ∈ (tools ≫= plain_name) → is_text (pget "type" d) "function_call" = true → pget "name" d = PStr n →
     ∃ r, restore_call_value bridge (PDict d) = PDict r ∧ dkeys r = dkeys d ∧ pget "name" r = PStr n).
Proof.
  intros Hf. destruct (bridge_exact _ _ _ Hf) as (Hb & Hp & Ho). split.
  - intros ns c Hin. assert (dget (flat_name ns c) (nb_flat_to_namespaced bridge) = Some (ns, c)) as Hd by by apply Hb.
    assert (∀ d, is_text (pget "type" d) "function_call" = true → pget "name" d = PStr (flat_name ns c) →
       restore_call_value bridge (PDict d) = PDict (dset "name" (PStr c) (dset "namespace" (PStr ns) d))) as Hres.
    { intros d Ht Hn. cbn [restore_call_value]. by rewrite Ht, Hn, Hd. }
    split_and!; [by apply Ho| |exact Hres|].
    + intros ns' c' Hin' Heq. assert (dget (flat_name ns' c') (nb_flat_to_namespaced bridge) = Some (ns', c')) as Hd' by by apply Hb.
      rewrite Heq in Hd. congruence.
    + intros d Hs Hw Hc. eexists _, _.
      assert (check_call bridge (ns, c) = Ok tt) as Hck by (unfold check_call; cbn; rewrite Hd; by rewrite bool_decide_eq_true_2).
      split; [by apply flatten_call_scalars|]. unfold namespaced_call in Hc.
      destruct (is_text (pget "type" d) "function_call") eqn:Et; [|done].
      destruct (pget "namespace" d) as [| | | |ns0| |] eqn:En; try done.
      destruct (pget "name" d) as [| | | |c0| |] eqn:Ec; simplify_eq.
      set (e := dset "name" (PStr (flat_name ns c)) (ddel "namespace" d)).
      assert (∀ k, k ≠ "name" → k ≠ "namespace" → dget k e = dget k d) as Hk.
      { intros k H1 H2. unfold e. by rewrite dget_dset_ne, dget_ddel_ne. }
      split; [|split].
      * unfold dmem, e. rewrite dget_dset_ne, dget_ddel_eq by done. done.
      * apply Hres; unfold pget; [by rewrite Hk|]. unfold e. by rewrite dget_dset_eq.
      * intros k. rewrite !dget_dset. unfold pget in En, Ec. destruct (decide (k = "name")) as [->|H1].
        { destruct (dget "name" d); cbn in Ec; congruence. }
        destruct (decide (k = "namespace")) as [->|H2]; [|by apply dget_ddel_ne].
        destruct (dget "namespace" d); cbn in En; congruence.
  - intros n d Hin Ht Hn. cbn [restore_call_value]. rewrite Ht, Hn, (Hp n Hin). eexists. split; [done|].
    assert (pget "name" d = PStr n) as Hn' by done. clear Ht Hn. split.
    + clear Hn'. unfold dkeys. induction d as [|[k v] d IH]; [done|]. csimpl. by f_equal.
    + unfold pget in *. induction d as [|[k v] d IH]; [done|]. cbn [dget] in *. case_decide; [|by apply IH].
      cbn in Hn'. by subst v.
Qed.
End bridge_proofs.

Module BridgeExamples.
#[local] Instance repr : PyRepr := λ _, "".

Definition tools : list pyval :=
  [PDict [("type", PStr "namespace"); ("name", PStr "fs"); ("description", PStr "files");
          ("tools", PList [PDict [("type", PStr "function"); ("name", PStr "read"); ("description", PStr "read one")]])];
   PDict [("type", PStr "function"); ("name", PStr "fetch")]].

Definition call : pydict :=
  [("type", PStr "function_call"); ("namespace", PStr "fs"); ("name", PStr "read"); ("call_id", PStr "c1")].

Lemma namespaced_calls_roundtrip_witness :
  ∃ out bridge, flatten_namespace_tools tools empty_bridge = Ok (out, bridge) ∧
    ∃ e r, flatten_call_value bridge (PDict call) = Ok (PDict e) ∧ pget "name" e = PStr "fs__read" ∧
           restore_call_value bridge (PDict e) = PDict r ∧ dict_eq r call.
Proof.
  eexists _, _. split; [vm_compute; reflexivity|].
  match goal with |- context [restore_call_value ?b _] => set (bridge := b) end.
  assert (flatten_namespace_tools tools empty_bridge =
    Ok (match flatten_namespace_tools tools empty_bridge with Ok p => p.1 | Raise _ => [] end, bridge)) as Hf
    by (vm_compute; reflexivity).
  destruct (namespaced_calls_roundtrip tools _ bridge Hf) as [Hns _].
  destruct (Hns "fs" "read") as (_ & _ & _ & Hcall); [vm_compute; left|].
  destruct (Hcall call) as (e & r & He & _ & Hr & Heq).
  - repeat constructor.
  - apply (bool_decide_eq_true_1 (NoDup (dkeys call))). vm_compute. reflexivity.
  - vm_compute. reflexivity.
  - exists e, r. split_and!; [exact He| |exact Hr|exact Heq].
    assert (flatten_call_value bridge (PDict call) =
      Ok (PDict [("type", PStr "function_call"); ("name", PStr "fs__read"); ("call_id", PStr "c1")])) as Hc
      by (vm_compute; reflexivity).
    rewrite Hc in He. injection He as <-. vm_compute. reflexivity.
Defined.
End BridgeExamples.
