(* ===== verification/ModelProxy.v ===== *)
(** * The model proxy (haas/model_proxy/proxy.py)

    Authentication of runtime tokens, authorization of model and endpoint, the request with
    its retries, error diagnostics, and the relay of a provider's event stream.  What the
    HTTP client, the credential resolver and the clock answer are arguments. *)

From Stdlib Require Import Ascii.
From S2P Require Import Prelude Errors Dict PyVal Redact Policy Encoding RuntimeTokens ModelRoute ToolBridge.

#[local] Open Scope string_scope.
#[local] Open Scope list_scope.
#[local] Open Scope Z_scope.

(** ** Interfaces *)

(** The parts of [urllib.parse.urlsplit(url)] that may not be there; [None] when it raises [ValueError]. *)
Record url_extras := mkExtras { ue_username : option string; ue_password : option string; ue_query : string; ue_fragment : string }.
Class UrlExtras := urlsplit_extras : string → option url_extras.

(** ** State *)

Record ModelProxy := mkModelProxy {
  px_tokens : RuntimeTokenManager;
  px_audit : list (string * pydict);
}.
#[export] Instance eta_model_proxy : Eta ModelProxy := λ p, mkModelProxy (px_tokens p) (px_audit p).

Notation proxy_m := (M ModelProxy).

(** Run a computation on a part of the state. *)
Definition zoom {S T A} (get : S → T) (set : T → S → S) (m : M T A) : M S A := λ s,
  let (t, r) := m (get s) in (set t s, r).

Definition on_tokens {A} (m : tokens_m A) : proxy_m A := zoom px_tokens (λ t p, p <| px_tokens := t |>) m.

Definition ALLOWED_AUDIT_FIELDS : list string := ["sessionId"; "harnessId"; "providerCode"; "statusCode"; "latencyMs"].

(** [_audit] *)
Definition audit (event : string) (fields : pydict) : proxy_m unit :=
  modify (λ p, p <| px_audit := px_audit p ++ [(event, keep (λ kv, bool_decide (kv.1 ∈ ALLOWED_AUDIT_FIELDS)) fields)] |>).

(** [except RuntimeTokenError as exc: raise ModelProxyError(str(exc))] *)
Definition proxy_error {A} (m : proxy_m A) : proxy_m A :=
  catch m (λ e, match e with RuntimeTokenError msg => raise (ModelProxyError msg) | _ => raise e end).

(** ** Authentication *)

Definition bearer_token (authorization : string) : string :=
  if bool_decide (authorization = "") then "" else strip (removeprefix "Bearer " authorization).

Definition authenticate (now : Z) (latency : pyval) (authorization : string) : proxy_m RuntimeTokenScope :=
  let token := bearer_token authorization in
  sc ← catch (on_tokens (validate now token)) (λ e,
         match e with
         | RuntimeTokenError msg =>
             session_id ← lift (token_session_id token);
             _ ← audit "model_proxy_auth_failed"
                   [("sessionId", opt_str_val session_id); ("statusCode", PStr msg); ("latencyMs", latency)];
             raise (ModelProxyError msg)
         | _ => raise e
         end);
  if negb (bool_decide (ts_audience sc = "model_proxy")) then
    _ ← audit "model_proxy_auth_failed"
          [("sessionId", PStr (ts_sessionId sc)); ("harnessId", PStr (ts_harnessId sc));
           ("statusCode", PStr "invalid_credential"); ("latencyMs", latency)];
    raise (ModelProxyError "invalid_credential")
  else mret sc.

Definition recover_expired_scope (now : Z) (token : string) : proxy_m RuntimeTokenScope :=
  proxy_error (on_tokens (token_scope now token true)).

Definition recover_session_id (token : string) : result (option string) := token_session_id token.

Definition renew_token (now : Z) (token : string) : proxy_m RuntimeTokenScope :=
  proxy_error (on_tokens (renew now token None)).

Definition adopt_token (now now' : Z) (token : string) (sc : RuntimeTokenScope) : proxy_m RuntimeTokenScope :=
  proxy_error (_ ← on_tokens (adopt now now' token sc None); on_tokens (validate now' token)).

(** ** Authorization *)

Definition authorize_model (sc : RuntimeTokenScope) (model : string) : result unit :=
  ensure (bool_decide (ts_allowedModels sc = []) || bool_decide (model ∈ ts_allowedModels sc))
    (ModelProxyError "model_not_allowed").

Definition authorize_url `{NetLib} `{UrlExtras} (policy : EffectivePolicy) (url : string) : result unit :=
  match urlsplit_extras url with
  | None => Raise (ValueError "Invalid URL")
  | Some parsed =>
      if is_some (ue_username parsed) || is_some (ue_password parsed) ||
         negb (bool_decide (ue_query parsed = "")) || negb (bool_decide (ue_fragment parsed = ""))
      then Raise (ModelProxyError "provider_url_not_allowed")
      else
        decision ← authorize_network policy url;
        ensure (pd_allowed decision) (ModelProxyError ("provider_url_not_allowed: " +:+ pd_safeReason decision))
  end.

(** ** Requests and retries *)

Record http_response := mkResponse {
  hr_status : Z; hr_retry_after : option string; hr_content_type : string; hr_json : option pyval;
}.

(** The outcome of one attempt: a response, one of the three timeouts, or another transport error. *)
Inductive http_reply := Reply (r : http_response) | TimedOut | TransportError.

Definition retryable_status (status : Z) : bool := bool_decide (status ∈ [429; 502; 503; 504]).

Definition float_mul (a b : spec_float) : spec_float := SFmul 53 1024 a b.
Definition float_add (a b : spec_float) : spec_float := SFadd 53 1024 a b.
Definition float_zero : spec_float := S754_zero false.
Definition float_two : spec_float := float_of_Z 2.
(** [max(a, b)] and [min(a, b)]: the first argument unless the second is greater (less). *)
Definition py_max (a b : spec_float) : spec_float := if SFltb a b then b else a.
Definition py_min (a b : spec_float) : spec_float := if SFltb b a then b else a.

(** [model_proxy_retry_delay_seconds] *)
Definition retry_delay_seconds `{FloatText} (retry_after : option string) (retry_index : nat) (jitter : spec_float) : spec_float :=
  match retry_after ≫= float_of_text with
  | Some t => py_min (py_max t float_zero) float_two
  | None =>
      py_min (float_add (float_mul (float_div (float_of_Z 1) (float_of_Z 20)) (float_of_Z (2 ^ Z.of_nat retry_index)))
                (float_mul jitter (float_div (float_of_Z 1) (float_of_Z 40)))) float_two
  end.

(** The loop of [_post_json_with_retry] and [_send_stream_with_retry] from attempt [retry_index] on with [left]
    attempts to go: the delays slept and the response. *)
Fixpoint retry_loop `{FloatText} (left retry_index : nat) (replies : nat → http_reply) (jitter : nat → spec_float)
    : list spec_float * result http_response :=
  match left with
  | O => ([], Raise (ModelProxyError "provider_unavailable"))
  | S left' =>
      let again delay := let (ds, r) := retry_loop left' (S retry_index) replies jitter in (delay :: ds, r) in
      match replies retry_index with
      | TransportError => ([], Raise (ModelProxyError "provider_unavailable"))
      | TimedOut =>
          if bool_decide (left' = O) then ([], Raise (ModelProxyError "provider_unavailable"))
          else again (retry_delay_seconds None retry_index (jitter retry_index))
      | Reply r =>
          if negb (retryable_status (hr_status r)) || bool_decide (left' = O) then ([], Ok r)
          else again (retry_delay_seconds (hr_retry_after r) retry_index (jitter retry_index))
      end
  end.

Definition max_attempts : nat := 3.

Definition post_json_with_retry `{FloatText} (replies : nat → http_reply) (jitter : nat → spec_float)
    : list spec_float * result http_response := retry_loop max_attempts 0 replies jitter.
Definition send_stream_with_retry `{FloatText} (replies : nat → http_reply) (jitter : nat → spec_float)
    : list spec_float * result http_response := retry_loop max_attempts 0 replies jitter.

(** ** Error diagnostics *)

Definition PROVIDER_ERROR_FIELDS : list string := ["code"; "type"; "param"; "message"].

Definition hex_digit (n : nat) : ascii := default "0"%char (String.get n "0123456789abcdef").

(** One byte of a JSON string with [ensure_ascii=False]. *)
Definition json_escape (a : ascii) : string :=
  let n := nat_of_ascii a in
  let bs c := String (ascii_of_nat 92) (String c "") in
  if (n =? 34)%nat then bs (ascii_of_nat 34)
  else if (n =? 92)%nat then bs (ascii_of_nat 92)
  else if (n =? 10)%nat then bs "n"%char
  else if (n =? 13)%nat then bs "r"%char
  else if (n =? 9)%nat then bs "t"%char
  else if (n =? 12)%nat then bs "f"%char
  else if (n =? 8)%nat then bs "b"%char
  else if (n <? 32)%nat then bs "u"%char +:+ "00" +:+ String (hex_digit (n / 16)) (String (hex_digit (n mod 16)) "")
  else String a "".

Fixpoint json_chars (s : string) : string :=
  match s with EmptyString => "" | String a s' => json_escape a +:+ json_chars s' end.

Definition dquote : string := String (ascii_of_nat 34) "".
Definition json_string (s : string) : string := dquote +:+ json_chars s +:+ dquote.

(** [json.dumps(d, ensure_ascii=False, separators=(",", ":"))] of a dictionary of texts *)
Definition json_text_dict (d : dict string string) : string :=
  "{" +:+ join_with "," ((λ kv : string * string, json_string kv.1 +:+ ":" +:+ json_string kv.2) <$> d) +:+ "}".

(** The fields of a provider error that may be shown. *)
Definition provider_diagnostic `{PyRepr} (raw_error : pyval) : option (dict string string) :=
  match raw_error with
  | PStr s => Some [("message", s)]
  | PDict e =>
      Some (omap (λ field, match pget field e with
                           | (PStr _ | PInt _ | PFloat _ | PBool _) as v => Some (field, py_str v)
                           | _ => None end) PROVIDER_ERROR_FIELDS)
  | _ => None
  end.

(** The text of the diagnostic with the credential replaced, before it is redacted and truncated. *)
Definition diagnostic_text (diagnostic : dict string string) (credential : string) : string :=
  let encoded := json_text_dict diagnostic in
  if bool_decide (credential = "") then encoded else str_replace credential redacted_mark encoded.

(** [_provider_http_error] *)
Definition provider_http_error `{PyRepr} `{RegexEngine} (response : http_response) (credential : string) : exn :=
  let prefix := "provider HTTP " +:+ pretty (hr_status response) in
  match hr_json response with
  | Some (PDict payload) =>
      match provider_diagnostic (pget "error" payload) with
      | None | Some [] => ModelProxyError prefix
      | Some diagnostic =>
          ModelProxyError (prefix +:+ ": " +:+ safe_upstream_body (diagnostic_text diagnostic credential) 512)
      end
  | _ => ModelProxyError prefix
  end.

(** ** Responses *)

Section responses.
Context `{PyRepr} `{RegexEngine} `{NetLib} `{UrlExtras} `{FloatText} `{JsonLib}.

(** The checks both entry points make before they resolve the credential. *)
Definition admit_request (now : Z) (latency : pyval) (route : ModelRoute) (authorization : string)
    (policy : EffectivePolicy) : proxy_m RuntimeTokenScope :=
  sc ← authenticate now latency authorization;
  _ ← lift (authorize_model sc (mr_model route));
  _ ← catch (lift (authorize_url policy (mr_baseUrl route))) (λ e,
        match e with
        | ModelProxyError _ =>
            _ ← audit "model_proxy_url_denied" [("sessionId", PStr (ts_sessionId sc)); ("harnessId", PStr (ts_harnessId sc))];
            raise e
        | _ => raise e
        end);
  mret sc.

(** [except ValueError as exc: raise ModelProxyError(str(exc))] *)
Definition value_error {A} (r : result A) : result A :=
  match r with Raise (ValueError msg) => Raise (ModelProxyError msg) | _ => r end.

Definition audit_provider_error (sc : RuntimeTokenScope) (route : ModelRoute) (status : Z) (latency : pyval) : proxy_m unit :=
  audit "model_proxy_provider_error"
    [("sessionId", PStr (ts_sessionId sc)); ("harnessId", PStr (ts_harnessId sc)); ("providerCode", PStr (mr_provider route));
     ("statusCode", PInt status); ("latencyMs", latency)].

(** [proxy_responses]; [credential] is what the resolver answered. *)
Definition proxy_responses (now : Z) (latency latency' : pyval) (route : ModelRoute) (body : pydict)
    (authorization : string) (policy : EffectivePolicy) (credential : result string)
    (replies : nat → http_reply) (jitter : nat → spec_float) : proxy_m (pydict * option Usage) :=
  sc ← admit_request now latency route authorization policy;
  credential ← lift credential;
  jb ← lift (value_error (responses_body route body));
  resp ← lift (post_json_with_retry replies jitter).2;
  if 300 <=? hr_status resp then
    _ ← audit_provider_error sc route (hr_status resp) latency';
    raise (provider_http_error resp credential)
  else
    match hr_json resp with
    | None => raise (ModelProxyError "provider returned non-JSON response")
    | Some (PDict data) =>
        let data := redact_credential (PDict (restore_namespace_tool_calls data jb.2)) credential in
        mret (as_dict data, normalize_usage (mr_provider route) data)
    | Some _ => raise (ModelProxyError "provider returned invalid JSON object")
    end.

(** What [stream_responses] leaves in the response's extensions. *)
Record stream_handle := mkStream {
  sh_credential : string; sh_bridge : NamespaceToolBridge; sh_audit : pydict;
}.

Definition stream_responses (now : Z) (latency latency' : pyval) (route : ModelRoute) (body : pydict)
    (authorization : string) (policy : EffectivePolicy) (credential : result string)
    (replies : nat → http_reply) (jitter : nat → spec_float) : proxy_m stream_handle :=
  sc ← admit_request now latency route authorization policy;
  credential ← lift credential;
  jb ← lift (value_error (responses_body route body));
  resp ← lift (send_stream_with_retry replies jitter).2;
  if 300 <=? hr_status resp then
    _ ← audit_provider_error sc route (hr_status resp) latency';
    raise (provider_http_error resp credential)
  else if negb (starts_with "text/event-stream" (hr_content_type resp)) then raise (ModelProxyError "provider_stream_invalid")
  else mret (mkStream credential jb.2
         [("sessionId", PStr (ts_sessionId sc)); ("harnessId", PStr (ts_harnessId sc)); ("providerCode", PStr (mr_provider route))]).

(** ** The event stream *)

(** What reading the provider's stream gives next: a line, or a transport error. *)
Inductive line_event := Line (l : string) | ReadError.

Definition provider_error_payload : pydict :=
  [("type", PStr "error"); ("code", PStr "haas_provider_error"); ("message", PStr "Provider request failed")].
Definition response_failed_payload : pydict :=
  [("type", PStr "response.failed");
   ("response", PDict [("status", PStr "failed");
      ("error", PDict [("code", PStr "haas_provider_error"); ("message", PStr "Provider request failed")])])].

Definition newline : string := String (ascii_of_nat 10) "".

(** The line yielded after a failure. *)
Definition stream_failed_line : string :=
  let q := dquote in
  "data: {" +:+ q +:+ "type" +:+ q +:+ ":" +:+ q +:+ "error" +:+ q +:+ "," +:+ q +:+ "code" +:+ q +:+ ":" +:+ q +:+
  "haas_provider_error" +:+ q +:+ "," +:+ q +:+ "message" +:+ q +:+ ":" +:+ q +:+ "Provider stream failed" +:+ q +:+ "}" +:+
  newline +:+ newline.

(** The payload relayed for a decoded frame. *)
Definition relay_payload (bridge : NamespaceToolBridge) (payload : pydict) : pydict :=
  if is_text (pget "type" payload) "error" then provider_error_payload
  else if is_text (pget "type" payload) "response.failed" then response_failed_payload
  else restore_namespace_tool_calls payload bridge.

Definition relay_line (credential : string) (bridge : NamespaceToolBridge) (line : string) : result string :=
  if 4 * 1024 * 1024 <? Z.of_nat (cp_length line) then Raise (ValueError "provider frame too large")
  else if starts_with "data:" line && negb (bool_decide (strip (drop_str 5 line) = "[DONE]")) then
    match json_loads (drop_str 5 line) with
    | None => Raise (ValueError "invalid JSON")
    | Some (PDict payload) =>
        Ok ("data: " +:+ json_compact (redact_credential (PDict (relay_payload bridge payload)) credential))
    | Some _ => Raise (ValueError "provider frame invalid")
    end
  else Ok (if bool_decide (credential = "") then line else str_replace credential redacted_mark line).

Fixpoint relay_lines (credential : string) (bridge : NamespaceToolBridge) (events : list line_event) : list string * bool :=
  match events with
  | [] => ([], false)
  | ReadError :: _ => ([stream_failed_line], true)
  | Line line :: events' =>
      match relay_line credential bridge line with
      | Raise _ => ([stream_failed_line], true)
      | Ok out => let (outs, failed) := relay_lines credential bridge events' in ((out +:+ newline) :: outs, failed)
      end
  end.

(** [relay_stream]: the lines yielded, and the audit event of an interrupted stream. *)
Definition relay_stream (h : stream_handle) (events : list line_event) : proxy_m (list string) :=
  let (outs, failed) := relay_lines (sh_credential h) (sh_bridge h) events in
  if failed then
    _ ← audit "model_proxy_stream_interrupted" (dset "statusCode" (PStr "stream_failed") (sh_audit h)); mret outs
  else mret outs.

End responses.

(** ** Retries *)

Definition transient (r : http_reply) : Prop :=
  match r with Reply x => retryable_status (hr_status x) = true | TimedOut => True | TransportError => False end.

Lemma SFltb_irrefl f : SFltb f f = false.
Proof. unfold SFltb, SFcompare. destruct f as [|[]| |s m e]; try done. destruct s; rewrite Z.compare_refl, Pos.compare_cont_refl; done. Qed.

Lemma delay_at_most_two `{FloatText} ra i j : SFltb float_two (retry_delay_seconds ra i j) = false.
Proof.
  unfold retry_delay_seconds. destruct (ra ≫= float_of_text); unfold py_min at 1;
    match goal with |- context [if SFltb float_two ?x then _ else _] => destruct (SFltb float_two x) eqn:E end;
    by rewrite ?SFltb_irrefl.
Qed.

Lemma retry_loop_spec `{FloatText} left i replies jitter :
  let res := retry_loop left i replies jitter in
  (length res.1 <= left - 1)%nat ∧ Forall (λ d, SFltb float_two d = false) res.1 ∧
  (∀ j, (j < length res.1)%nat → transient (replies (i + j)%nat)) ∧
  match res.2 with
  | Ok r => replies (i + length res.1)%nat = Reply r ∧
            (retryable_status (hr_status r) = false ∨ S (length res.1) = left)
  | Raise e => e = ModelProxyError "provider_unavailable" ∧
               (left = O ∨ replies (i + length res.1)%nat = TransportError ∨
                (S (length res.1) = left ∧ replies (i + length res.1)%nat = TimedOut))
  end.
Proof.
  cbv zeta. revert i. induction left as [|left IH]; intros i; cbn [retry_loop].
  { cbn. split_and!; [lia|constructor|lia|done|by left]. }
  assert (∀ d, SFltb float_two d = false → transient (replies i) → left ≠ O →
    let res := (let (ds, r) := retry_loop left (S i) replies jitter in (d :: ds, r)) in
    (length res.1 <= S left - 1)%nat ∧ Forall (λ d, SFltb float_two d = false) res.1 ∧
    (∀ j, (j < length res.1)%nat → transient (replies (i + j)%nat)) ∧
    match res.2 with
    | Ok r => replies (i + length res.1)%nat = Reply r ∧
              (retryable_status (hr_status r) = false ∨ S (length res.1) = S left)
    | Raise e => e = ModelProxyError "provider_unavailable" ∧
                 (S left = O ∨ replies (i + length res.1)%nat = TransportError ∨
                  (S (length res.1) = S left ∧ replies (i + length res.1)%nat = TimedOut))
    end) as Hagain.
  { intros d Hd Ht Hl. specialize (IH (S i)). destruct (retry_loop left (S i) replies jitter) as [ds r]. cbn in *.
    rewrite Nat.add_succ_r. destruct IH as (H1 & H2 & H3 & H4). split_and!.
    - lia.
    - by constructor.
    - intros [|j] Hj; [by rewrite Nat.add_0_r|]. rewrite Nat.add_succ_r. apply H3. lia.
    - destruct r; destruct H4 as [H4 H5]; split; try done; [destruct H5; auto|].
      destruct H5 as [?|[?|[? ?]]]; [done|auto|]. right. right. split; [by f_equal|done]. }
  destruct (replies i) as [r| |] eqn:Er.
  - destruct (negb (retryable_status (hr_status r)) || bool_decide (left = O)) eqn:E.
    + cbn. rewrite Nat.add_0_r. split_and!; [lia|constructor|lia|done|].
      apply orb_true_iff in E as [E|E]; bsimp; [by left|right; by subst].
    + apply orb_false_iff in E as [E1 E2]. bsimp. apply Hagain; [apply delay_at_most_two|done|done].
  - destruct (bool_decide (left = O)) eqn:E; bsimp.
    + cbn. rewrite Nat.add_0_r. split_and!; [lia|constructor|lia|done|]. right. right. by subst.
    + apply Hagain; [apply delay_at_most_two|done|done].
  - cbn. rewrite Nat.add_0_r. split_and!; [lia|constructor|lia|done|]. auto.
Qed.

(** A provider request is tried at most three times, sleeping at most twice and never more than two
    seconds.  It is repeated only after a timeout or one of the statuses 429, 502, 503 and 504;
    the response returned is the first other one, or the third.  The only error is
    [provider_unavailable], after a transport error or a third timeout. *)
Theorem retries_bounded `{FloatText} replies jitter :
  let res := post_json_with_retry replies jitter in
  (length res.1 <= 2)%nat ∧ Forall (λ d, SFltb float_two d = false) res.1 ∧
  (∀ j, (j < length res.1)%nat → transient (replies j)) ∧
  match res.2 with
  | Ok r => replies (length res.1) = Reply r ∧ (retryable_status (hr_status r) = false ∨ length res.1 = 2%nat)
  | Raise e => e = ModelProxyError "provider_unavailable" ∧
               (replies (length res.1) = TransportError ∨ (length res.1 = 2%nat ∧ replies 2%nat = TimedOut))
  end.
Proof.
  pose proof (retry_loop_spec max_attempts 0 replies jitter) as Hs. cbv zeta in *. unfold post_json_with_retry.
  destruct (retry_loop max_attempts 0 replies jitter) as [ds r]. unfold max_attempts in Hs. cbn in *.
  destruct Hs as (H1 & H2 & H3 & H4). split_and!; [lia|done|done|].
  destruct r; destruct H4 as [H4 H5]; split; try done.
  - destruct H5 as [?|?]; [by left|right; lia].
  - destruct H5 as [?|[?|[Hl ?]]]; [done|by left|right]. injection Hl as Hl. by rewrite Hl in *.
Qed.

(** ** The relayed stream *)

(** A line the relay may send on. *)
Inductive relayed_line `{JsonLib} (credential : string) (bridge : NamespaceToolBridge) : string → Prop :=
  | relayed_failure : relayed_line credential bridge stream_failed_line
  | relayed_frame payload v :
      v = redact_credential (PDict (relay_payload bridge payload)) credential →
      (∀ s, s ∈ value_texts v → occurs credential s = false) →
      relayed_line credential bridge ("data: " +:+ json_compact v +:+ newline)
  | relayed_other l : occurs credential l = false → relayed_line credential bridge (l +:+ newline).

Lemma relay_line_ok `{JsonLib} credential bridge line out :
  distinct_from_mark credential → relay_line credential bridge line = Ok out →
  relayed_line credential bridge (out +:+ newline).
Proof.
  intros Hc. unfold relay_line. destruct (4 * 1024 * 1024 <? Z.of_nat (cp_length line)); [done|].
  destruct (starts_with "data:" line && negb (bool_decide (strip (drop_str 5 line) = "[DONE]"))).
  - destruct (json_loads (drop_str 5 line)) as [[| | | | | |payload]|]; try done. intros [= <-].
    rewrite <-str_app_assoc. eapply relayed_frame; [done|].
    assert (redact_credential (PDict (relay_payload bridge payload)) credential =
      redact_walk credential (PDict (relay_payload bridge payload))) as ->.
    { unfold redact_credential. by rewrite bool_decide_eq_false_2 by apply Hc. }
    intros s. exact (proj1 (Forall_forall _ _) (redact_walk_clean credential Hc _) s).
  - rewrite bool_decide_eq_false_2 by apply Hc. intros [= <-]. constructor. by apply replace_clean.
Qed.

Lemma relayed_lines `{JsonLib} credential bridge events outs failed :
  distinct_from_mark credential → relay_lines credential bridge events = (outs, failed) → Forall (relayed_line credential bridge) outs.
Proof.
  intros Hc. revert outs failed. induction events as [|[l|] events IH]; cbn [relay_lines]; intros outs failed; [by intros [= <- _]| |].
  - destruct (relay_line credential bridge l) as [out|e] eqn:El; [|intros [= <- _]; repeat constructor].
    destruct (relay_lines credential bridge events) as [outs' failed'] eqn:Es. intros [= <- _].
    constructor; [by eapply relay_line_ok|by eapply IH].
  - intros [= <- _]. repeat constructor.
Qed.

(** Every line relayed to the harness is one of three: a frame whose string values do not contain the
    credential, another line that does not contain it, or the fixed failure line, which only
    ends a stream.  Of a provider's error frames nothing is relayed but a fixed payload. *)
Theorem relay_hides_credential `{JsonLib} credential bridge events outs failed :
  distinct_from_mark credential → relay_lines credential bridge events = (outs, failed) →
  Forall (relayed_line credential bridge) outs ∧ (length outs <= length events)%nat ∧
  (failed = true ↔ last outs = Some stream_failed_line ∧ ∃ i, (events !! i = Some ReadError ∨
     ∃ l e, events !! i = Some (Line l) ∧ relay_line credential bridge l = Raise e) ∧ length outs = S i) ∧
  (∀ payload, is_text (pget "type" payload) "error" = true → relay_payload bridge payload = provider_error_payload) ∧
  (∀ payload, is_text (pget "type" payload) "response.failed" = true →
     relay_payload bridge payload = response_failed_payload).
Proof.
  intros Hc Hr. split; [by eapply relayed_lines|]. split_and!.
  4: { intros payload Ht. unfold relay_payload. rewrite Ht. destruct (pget "type" payload) as [| | | |s| |]; try done.
    unfold is_text in *. bsimp. by subst s. }
  3: { intros payload Ht. unfold relay_payload. by rewrite Ht. }
  all: revert outs failed Hr; induction events as [|[l|] events IH]; cbn [relay_lines]; intros outs failed Hr.
  all: try (destruct (relay_line credential bridge l) as [out|e] eqn:El);
    try (destruct (relay_lines credential bridge events) as [outs' failed'] eqn:Es); simplify_eq.
  all: try specialize (IH _ _ eq_refl).
  - cbn. lia.
  - cbn. lia.
  - cbn. lia.
  - cbn. lia.
  - split; [done|intros (? & ? & ? & ?); done].
  - rewrite IH. split.
    + intros (Hl & i & Hi & Hlen). split; [destruct outs'; [done|exact Hl]|]. exists (S i). cbn. split; [done|by f_equal].
    + intros (Hl & [|i] & Hi & Hlen); cbn in *.
      * exfalso. destruct Hi as [?|(l' & e & [= <-] & ?)]; congruence.
      * injection Hlen as Hlen. split; [destruct outs'; [done|exact Hl]|]. by exists i.
  - split; [|done]. intros _. split; [done|]. exists 0%nat. split; [right; by exists l, e|done].
  - split; [|done]. intros _. split; [done|]. exists 0%nat. by split; [left|].
Qed.

(** ** What a request needs to reach the provider *)

Lemma validate_Ok now token m m' sc : validate now token m = (m', Ok sc) →
  m' = m ∧ dget token (tm_tokens m) = Some sc ∧ expired now sc = false.
Proof.
  unfold validate, token_scope, mbind, M_bind, guard_or, mret, M_ret.
  destruct (dget token (tm_tokens m)) as [sc'|]; [|done]. cbn.
  destruct (expired now sc') eqn:E; cbn; [done|]. by intros [= <- <-].
Qed.

Lemma authenticate_Ok now lat auth p p' sc : authenticate now lat auth p = (p', Ok sc) →
  p' = p ∧ dget (bearer_token auth) (tm_tokens (px_tokens p)) = Some sc ∧ expired now sc = false ∧
  ts_audience sc = "model_proxy".
Proof.
  unfold authenticate. intros (sc' & p1 & H1 & H2)%M_bind_Ok.
  assert (p1 = p ∧ dget (bearer_token auth) (tm_tokens (px_tokens p)) = Some sc' ∧ expired now sc' = false) as (-> & Hd & He).
  { unfold catch, on_tokens, zoom in H1. destruct (validate now (bearer_token auth) (px_tokens p)) as [m [s|e]] eqn:Ev.
    - apply validate_Ok in Ev as (-> & ? & ?). simplify_eq. by destruct p.
    - destruct e; try done; by apply M_bind_Ok in H1 as (? & ? & _ & (? & ? & _ & [=])%M_bind_Ok). }
  destruct (bool_decide (ts_audience sc' = "model_proxy")) eqn:Ea; cbn [negb] in H2; bsimp.
  - unfold mret, M_ret in H2. by simplify_eq.
  - apply M_bind_Ok in H2 as (? & ? & _ & [=]).
Qed.

Section admission.
Context `{PyRepr} `{RegexEngine} `{NetLib} `{UrlExtras} `{FloatText} `{JsonLib}.

Lemma authorize_url_Ok policy url u : authorize_url policy url = Ok u → network_grant policy url.
Proof.
  unfold authorize_url. destruct (urlsplit_extras url) as [x|]; [|done]. destruct (_ || _); [done|].
  intros (d & Hd & Ha%ensure_Ok)%bind_Ok. apply authorize_network_granted. by exists d.
Qed.

Lemma admit_request_Ok now lat route auth policy p p' sc : admit_request now lat route auth policy p = (p', Ok sc) →
  p' = p ∧ dget (bearer_token auth) (tm_tokens (px_tokens p)) = Some sc ∧ expired now sc = false ∧
  ts_audience sc = "model_proxy" ∧ (ts_allowedModels sc = [] ∨ mr_model route ∈ ts_allowedModels sc) ∧
  network_grant policy (mr_baseUrl route).
Proof.
  unfold admit_request. intros (sc' & p1 & Ha & (u & p2 & Hm & (u' & p3 & Hu & [= <- <-])%M_bind_Ok)%M_bind_Ok)%M_bind_Ok.
  apply authenticate_Ok in Ha as (-> & ? & ? & ?). unfold lift in Hm. injection Hm as <- Hm.
  unfold authorize_model in Hm. apply ensure_Ok, orb_true_iff in Hm. rewrite !bool_decide_eq_true in Hm.
  unfold catch, lift in Hu. destruct (authorize_url policy (mr_baseUrl route)) as [v|e] eqn:Eu.
  - injection Hu as <- <-. apply authorize_url_Ok in Eu. done.
  - destruct e; try done; by apply M_bind_Ok in Hu as (? & ? & _ & [=]).
Qed.

(** The redacted answer: its string values are free of the credential, its keys are the answer's. *)
Lemma redact_answer cred answer : distinct_from_mark cred →
  let data := as_dict (redact_credential (PDict answer) cred) in
  (∀ s, s ∈ value_texts (PDict data) → occurs cred s = false) ∧ key_texts (PDict data) = key_texts (PDict answer).
Proof.
  intros Hd data. assert (∃ e, redact_walk cred (PDict answer) = PDict e) as [e He] by (by eexists).
  assert (PDict data = redact_walk cred (PDict answer)) as ->.
  { subst data. unfold redact_credential. rewrite bool_decide_eq_false_2 by apply Hd. by rewrite He. }
  split; [intros s; exact (proj1 (Forall_forall _ _) (redact_walk_clean cred Hd _) s)|apply redact_walk_keys].
Qed.

(** What a request must have been for a provider's answer to reach the harness. *)
Definition admitted (now : Z) (route : ModelRoute) (auth : string) (policy : EffectivePolicy) (credential : result string)
    (replies : nat → http_reply) (jitter : nat → spec_float) (p : ModelProxy) (cred : string) (r : http_response) : Prop :=
  (∃ sc, dget (bearer_token auth) (tm_tokens (px_tokens p)) = Some sc ∧ expired now sc = false ∧
     ts_audience sc = "model_proxy" ∧ (ts_allowedModels sc = [] ∨ mr_model route ∈ ts_allowedModels sc)) ∧
  network_granted policy (mr_baseUrl route) ∧ credential = Ok cred ∧
  (post_json_with_retry replies jitter).2 = Ok r ∧ hr_status r < 300.

(** C40: A provider answer reaches the harness only for a live token of the model-proxy audience whose
    scope allows the model, and an endpoint the policy grants, after a response below 300; the tokens are unchanged.  Of the
    credential that was used, if it has no square bracket and is no part of the word in the placeholder, nothing is
    left in any string value: not in those of a whole answer, and of a streamed one, however its lines go on, every line
    relayed is a frame whose string values are free of it, another line free of it, or the fixed failure line.  Dictionary keys are
    relayed as the provider wrote them (as the namespace bridge restores them), so it is the string values that are free of it. *)
Theorem proxied_response_authorized now lat lat' route body auth policy credential replies jitter p p' :
  (∀ data usage,
     proxy_responses now lat lat' route body auth policy credential replies jitter p = (p', Ok (data, usage)) →
     ∃ cred r answer bridge, admitted now route auth policy credential replies jitter p cred r ∧ p' = p ∧
       hr_json r = Some (PDict answer) ∧
       (distinct_from_mark cred →
          (∀ s, s ∈ value_texts (PDict data) → occurs cred s = false) ∧
          key_texts (PDict data) = key_texts (PDict (restore_namespace_tool_calls answer bridge)))) ∧
  (∀ h, stream_responses now lat lat' route body auth policy credential replies jitter p = (p', Ok h) →
     ∃ cred r, admitted now route auth policy credential replies jitter p cred r ∧ p' = p ∧
       starts_with "text/event-stream" (hr_content_type r) = true ∧
       ∀ events q q' outs, relay_stream h events q = (q', Ok outs) → distinct_from_mark cred →
         px_tokens q' = px_tokens q ∧ Forall (relayed_line cred (sh_bridge h)) outs).
Proof.
  split.
  - intros data usage. unfold proxy_responses.
    intros (sc & p1 & Ha & (cred & p2 & Hc & (jb & p3 & Hb & (r & p4 & Hr & Hres)%M_bind_Ok)%M_bind_Ok)%M_bind_Ok)%M_bind_Ok.
    apply admit_request_Ok in Ha as (-> & ? & ? & ? & ? & ?). unfold lift in Hc, Hb, Hr.
    injection Hc as <- Hc. injection Hb as <- Hb. injection Hr as <- Hr.
    destruct (Z.leb_spec 300 (hr_status r)) as [Hs|Hs]; [by apply M_bind_Ok in Hres as (? & ? & _ & [=])|].
    destruct (hr_json r) as [[| | | | | |d]|] eqn:Ej; try done. unfold mret, M_ret in Hres. injection Hres as <- <- _.
    exists cred, r, d, jb.2. split; [|split; [done|split; [done|]]].
    + split; [by exists sc|]. by rewrite authorize_network_granted.
    + intros Hd. by apply redact_answer.
  - intros h. unfold stream_responses.
    intros (sc & p1 & Ha & (cred & p2 & Hc & (jb & p3 & Hb & (r & p4 & Hr & Hres)%M_bind_Ok)%M_bind_Ok)%M_bind_Ok)%M_bind_Ok.
    apply admit_request_Ok in Ha as (-> & ? & ? & ? & ? & ?). unfold lift in Hc, Hb, Hr.
    injection Hc as <- Hc. injection Hb as <- Hb. injection Hr as <- Hr.
    destruct (Z.leb_spec 300 (hr_status r)) as [Hs|Hs]; [by apply M_bind_Ok in Hres as (? & ? & _ & [=])|].
    destruct (starts_with "text/event-stream" (hr_content_type r)) eqn:Ect; [|done]. cbn [negb] in Hres.
    unfold mret, M_ret in Hres. injection Hres as <- <-. exists cred, r. split; [|split; [done|split; [done|]]].
    + split; [by exists sc|]. by rewrite authorize_network_granted.
    + intros events q q' outs Hrel Hd. unfold relay_stream in Hrel. cbn [sh_credential sh_bridge] in *.
      destruct (relay_lines cred jb.2 events) as [outs' failed] eqn:El. pose proof (relayed_lines cred jb.2 events outs' failed Hd El) as Hf.
      destruct failed; [apply M_bind_Ok in Hrel as (? & ? & Hau & Hrel); unfold audit, modify in Hau; injection Hau as <-|];
        unfold mret, M_ret in Hrel; by injection Hrel as <- <-.
Qed.
End admission.

Module ProxyExamples.
#[local] Instance repr : PyRepr := λ _, "".
#[local] Instance engine : RegexEngine := {|
  pattern := unit; re_sub _ _ s := s; re_search _ _ := false; inline_credential_sub s := s; TOKEN_PATTERNS := [];
  CREDENTIAL_FIELD := tt; ABSOLUTE_PATH_RE := tt |}.
#[local] Program Instance net : NetLib := {| urlparse _ := Ok (mkUrlParts "https" (Some "api.example") (Some None)); ip_special _ := None |}.
Next Obligation. done. Qed.
#[local] Instance extras : UrlExtras := λ _, Some (mkExtras None None "" "").
#[local] Instance no_floats : FloatText := λ t, if bool_decide (t = "nan") then Some S754_nan else None.
#[local] Instance json : JsonLib := {| json_loads _ := Some (PDict [("type", PStr "x sk-1")]); json_compact v := default "" (head (value_texts v)) |}.

Definition scope1 : RuntimeTokenScope := mkScope "model_proxy" "s-1" "" "h1" "" 1 5 [] 100.
Definition proxy1 : ModelProxy := mkModelProxy (mkTokens 60 [("haas_mp_cy0x.1.n", scope1)]) [].
Definition route1 : ModelRoute := mkRoute "ark" "https://api.example" "m" "p1" "ark" "responses" "responses" "ref" "" "" 300000 300000.
Definition open_policy : EffectivePolicy :=
  mkEffectivePolicy "" 1 (mkPolicyScope "" "" "" "") default_workspace default_network default_tools default_model.
Definition busy_then_ok (n : nat) : http_reply :=
  match n with
  | O => Reply (mkResponse 503 (Some "nan") "" None)
  | _ => Reply (mkResponse 200 None "" (Some (PDict [("text", PStr "ok sk-1")])))
  end.

Lemma proxied_response_authorized_witness :
  ∃ data usage, proxy_responses 50 PNone PNone route1 [] "Bearer haas_mp_cy0x.1.n" open_policy (Ok "sk-1") busy_then_ok
      (λ _, float_zero) proxy1 = (proxy1, Ok (data, usage)) ∧ ∀ s, s ∈ value_texts (PDict data) → occurs "sk-1" s = false.
Proof.
  eexists _, _. split; [vm_compute; reflexivity|].
  destruct (proj1 (proxied_response_authorized 50 PNone PNone route1 [] "Bearer haas_mp_cy0x.1.n" open_policy (Ok "sk-1") busy_then_ok
    (λ _, float_zero) proxy1 proxy1) [("text", PStr "ok [REDACTED]")] None) as (cred & r & answer & bridge & (_ & _ & Hc & _) & _ & _ & Ht);
    [vm_compute; reflexivity|]. injection Hc as <-. apply Ht. split; [discriminate|]. split; vm_compute; reflexivity.
Defined.

Lemma relay_hides_credential_witness :
  ∃ outs, relay_lines "sk-1" empty_bridge [Line "data: {}"; Line "event: sk-1"; ReadError] = (outs, true) ∧
    Forall (relayed_line "sk-1" empty_bridge) outs.
Proof.
  eexists. split; [vm_compute; reflexivity|].
  match goal with |- Forall _ ?o => set (outs := o) end.
  apply (relay_hides_credential "sk-1" empty_bridge [Line "data: {}"; Line "event: sk-1"; ReadError] outs true).
  - split; [discriminate|]. split; vm_compute; reflexivity.
  - vm_compute. reflexivity.
Defined.

(** A header that parses to a NaN passes through both bounds. *)
Lemma nan_delay : retry_delay_seconds (Some "nan") 0 float_zero = S754_nan.
Proof. reflexivity. Qed.

(** The session part of a presented token is decoded without catching the error for non-ASCII text:
    authentication of such a token raises [ValueError] instead of reporting an invalid token, and
    no audit entry is written. *)
Theorem non_ascii_token_not_rejected :
  let bad := "Bearer haas_mp_" +:+ String (ascii_of_nat 195) (String (ascii_of_nat 169) ".1.x") in
  authenticate 50 PNone bad proxy1 =
    (proxy1, Raise (ValueError "string argument should contain only ASCII characters")) ∧
  (authenticate 50 PNone "Bearer haas_mp_YQ.1.x" proxy1).2 = Raise (ModelProxyError "invalid_token").
Proof. split; vm_compute; reflexivity. Qed.

(** The diagnostic of a provider error replaces the credential in the JSON text, where a
    quotation mark is escaped: a credential with a quotation mark that the provider echoes
    is not replaced, although the relay of a response body replaces it. *)
Theorem escaped_credential_survives_diagnostic :
  let cred := "k" +:+ dquote +:+ "1" in
  diagnostic_text [("message", "bad key " +:+ cred)] cred = json_text_dict [("message", "bad key " +:+ cred)] ∧
  occurs (json_chars cred) (diagnostic_text [("message", "bad key " +:+ cred)] cred) = true ∧
  value_texts (redact_credential (PDict [("message", PStr ("bad key " +:+ cred))]) cred) = ["bad key [REDACTED]"].
Proof. split; [|split]; vm_compute; reflexivity. Qed.
End ProxyExamples.
