(* ===== verification/Profiles.v ===== *)
(** * Harness profile lifecycle (haas/profiles.py)

    Versioned profiles: drafts are edited and validated, activation retires the profile
    that was active before, and a profile that has left draft is frozen.  The content hash
    ([json.dumps] and SHA-256) and [urllib.parse.urlsplit] are interfaces; identifiers and
    clock readings are arguments. *)

From S2P Require Import Prelude Errors Dict PyVal Paths Records Store SessionStore Identity Registry.

#[local] Open Scope string_scope.
#[local] Open Scope list_scope.
#[local] Open Scope Z_scope.

Definition CONTENT_FIELDS : list string :=
  ["harnessId"; "base"; "name"; "provider"; "mcpServers"; "skills"; "agentsMd"; "workspace"; "policy";
   "budget"; "metadata"].

(** [_fingerprint]: the hash of the canonical JSON text. *)
Class Hashing := fingerprint : pydict → string.

(** [urlsplit(s)]: scheme and host name; a malformed authority raises. *)
Class UrlSplit := urlsplit : string → result (string * option string).

(** ** Credential-free content *)

(** [without_credentials], the inner function of [execution_intent_fingerprint]. *)
Fixpoint without_credentials (v : pyval) : pyval :=
  match v with
  | PDict d =>
      PDict ((fix go (d : pydict) : pydict :=
         match d with
         | [] => []
         | (key, item) :: d' =>
             if bool_decide (key = "credentialRef") then go d' else (key, without_credentials item) :: go d'
         end) d)
  | PList l =>
      PList ((fix go (l : list pyval) : list pyval :=
         match l with [] => [] | x :: l' => without_credentials x :: go l' end) l)
  | _ => v
  end.

(** [execution_intent_fingerprint] *)
Definition execution_intent_fingerprint `{Hashing} (content : pydict) : string :=
  fingerprint (as_dict (without_credentials (PDict content))).

(** ** Iteration over a value *)

(** The characters of a text: a byte with the continuation bytes that follow it. *)
Fixpoint chars (s : string) : list string :=
  match s with
  | EmptyString => []
  | String a s' =>
      match chars s' with
      | (String b _ as c) :: cs =>
          if (128 <=? ord b)%nat && (ord b <? 192)%nat then String a c :: cs else String a "" :: c :: cs
      | cs => String a "" :: cs
      end
  end.

(** [list(v)] *)
Definition py_list (v : pyval) : result (list pyval) :=
  match v with
  | PList l => Ok l
  | PDict d => Ok (PStr <$> dkeys d)
  | PStr s => Ok (PStr <$> chars s)
  | _ => Raise TypeError
  end.

(** [_error] *)
Definition finding_error (code reason field : string) : pydict :=
  [("severity", PStr "error"); ("code", PStr code); ("safeReason", PStr reason); ("field", PStr field)].

(** [_safe_relative_path] *)
Definition safe_relative_path (path : pyval) : bool :=
  match path with
  | PStr p =>
      negb (bool_decide (p = "")) && negb (starts_with "/" p) &&
      negb (str_exists (Ascii.eqb (Ascii.ascii_of_nat 92)) p) &&
      str_forall (λ a, (32 <=? ord a)%nat && negb (ord a =? 127)%nat) p &&
      negb (bool_decide (normpath p ∈ ["."; ".."])) && negb (starts_with "../" (normpath p)) &&
      negb (bool_decide (".." ∈ split_on slash p))
  | _ => false
  end.

Section profiles.
Context {repr : PyRepr} {hashing : Hashing} {splitter : UrlSplit}.

(** [v not in {None, ...}] *)
Definition in_none_or (v : pyval) (l : list string) : result bool :=
  if is_none v then Ok true else in_str_set v l.

(** The finding on [wireApi] and [apiType]. *)
Definition wire_findings (wire_api api_type : pyval) : result (list pydict) :=
  first ← (if py_eqb wire_api (PStr "responses")
           then b ← in_none_or api_type ["responses"]; Ok (negb b) else Ok false);
  if first : bool then
    Ok [finding_error "haas_provider_invalid" "responses requires responses apiType" "provider.apiType"]
  else
    other ← in_str_set wire_api ["openai-compatible"; "agent-plan"];
    second ← (if other : bool then b ← in_str_set api_type ["responses"; "chat_completions"]; Ok (negb b)
              else Ok false);
    if second : bool then
      Ok [finding_error "haas_provider_invalid" "apiType is required" "provider.apiType"]
    else
      known ← in_str_set wire_api ["responses"; "openai-compatible"; "agent-plan"];
      Ok (if known : bool then []
          else [finding_error "haas_provider_invalid" "wireApi is unsupported" "provider.wireApi"]).

(** The finding on [baseUrl]. *)
Definition url_findings (base_url : pyval) : result (list pydict) :=
  if is_none base_url then Ok []
  else
    parsed ← urlsplit (py_str base_url);
    if negb (bool_decide (parsed.1 = "https")) || bool_decide (default "" parsed.2 = "")
    then Ok [finding_error "haas_provider_invalid" "provider URL must use https" "provider.baseUrl"]
    else Ok [].

(** The finding on [skills]: only [SkillBundleInvalidError] is caught. *)
Definition skills_findings (skills : pyval) : result (list pydict) :=
  items ← py_list skills;
  match validate_skills items with
  | Ok _ => Ok []
  | Raise (SkillBundleInvalidError _) =>
      Ok [finding_error "haas_skill_source_invalid" "skill source is invalid" "skills"]
  | Raise e => Raise e
  end.

(** The findings on [agentsMd]: one per unsafe source path. *)
Definition agents_md_findings (agents_md : pyval) : result (list pydict) :=
  match agents_md with
  | PNone => Ok []
  | PDict d =>
      if negb (py_eqb (pget "mode" d) (PStr "snapshot"))
      then Ok [finding_error "haas_agents_md_invalid" "AGENTS.md mode is invalid" "agentsMd"]
      else
        sources ← py_list (default (PList []) (dget "sources" d));
        Ok (omap (λ source,
              let path := match source with PDict src => pget "path" src | _ => PNone end in
              if safe_relative_path path then None
              else Some (finding_error "haas_agents_md_invalid" "AGENTS.md path is invalid" "agentsMd.sources"))
            (sources : list pyval))
  | _ => Ok [finding_error "haas_agents_md_invalid" "AGENTS.md mode is invalid" "agentsMd"]
  end.

Definition required_provider_fields : list string := ["providerId"; "name"; "model"; "credentialRef"; "wireApi"].

(** [_findings] *)
Definition findings (content : pydict) : result (list pydict) :=
  match dget "provider" content with
  | None => Raise (KeyError "provider")
  | Some (PDict provider) =>
      let bad := existsb (λ key, match pget key provider with PStr (String _ _) => false | _ => true end)
                   required_provider_fields in
      let f1 := if bad then [finding_error "haas_provider_invalid" "provider fields are invalid" "provider"]
                else [] in
      let f2 := if starts_with "secret://" (py_str (default (PStr "") (dget "credentialRef" provider))) then []
                else [finding_error "haas_provider_invalid" "credentialRef must be a secret reference"
                        "provider.credentialRef"] in
      f3 ← wire_findings (pget "wireApi" provider) (pget "apiType" provider);
      f4 ← url_findings (pget "baseUrl" provider);
      f5 ← skills_findings (default (PList []) (dget "skills" content));
      f6 ← agents_md_findings (pget "agentsMd" content);
      Ok (f1 ++ f2 ++ f3 ++ f4 ++ f5 ++ f6)
  | Some _ => Raise AttributeError
  end.

(** ** The service *)

(** [_scoped] *)
Definition scoped_profile (p : Principal) (profile_id : string) (s : MemoryStore) : result ProfileRecord :=
  match get_profile profile_id s with
  | Some profile =>
      if bool_decide (profile_account_key profile = account_of p) then Ok profile
      else Raise (ProfileNotFoundError profile_id)
  | None => Raise (ProfileNotFoundError profile_id)
  end.

(** [_normalize_body] *)
Definition normalize_body (p : Principal) (body : pydict) (s : MemoryStore) : result pydict :=
  _ ← ensure (forallb (λ k, bool_decide (k ∈ CONTENT_FIELDS)) (dkeys body)) (ValueError "unknown profile field");
  match pget "harnessId" body, pget "base" body, pget "provider" body with
  | PStr harness_id, PStr base, PDict provider =>
      harness ← match get_scoped p harness_id s with
                | Ok h => Ok h
                | Raise (HarnessNotFoundError _) => Raise (ProfileNotFoundError harness_id)
                | Raise e => Raise e
                end;
      _ ← ensure (bool_decide (h_base harness = base)) (ValueError "profile base does not match harness");
      mcp ← py_list (py_or (pget "mcpServers" body) (PList []));
      skills ← py_list (py_or (pget "skills" body) (PList []));
      let content := [("harnessId", PStr harness_id); ("base", PStr base); ("provider", PDict provider);
                      ("mcpServers", PList mcp); ("skills", PList skills)] in
      Ok (foldl (λ c field, match dget field body with Some v => dset field v c | None => c end) content
            ["name"; "agentsMd"; "workspace"; "policy"; "budget"; "metadata"])
  | _, _, _ => Raise (ValueError "missing profile fields")
  end.

(** [max((...), default=0)] *)
Definition max_version (l : list ProfileRecord) : Z := foldr (λ r m, Z.max (p_version r) m) 0 l.

(** [create]; [hex] is the fresh identifier's text. *)
Definition create_profile (now : Z) (hex : string) (p : Principal) (body : pydict) : store_m ProfileRecord :=
  normalized ← gets (normalize_body p body);
  content ← lift normalized;
  let harness_id := py_str (pget "harnessId" content) in
  revisions ← gets (list_profiles None (Some harness_id) None);
  save_profile now
    (mkProfile ("hprof_" +:+ hex) harness_id (py_str (pget "base" content)) (max_version revisions + 1) content
       (fingerprint content) "draft" None (pr_tenantId p) (pr_workspaceId p) "harness_profile" 1 now now None).

(** [list] *)
Definition list_profiles_scoped (p : Principal) (harness_id status : option string) (s : MemoryStore)
    : result (list ProfileRecord) :=
  _ ← ensure (match status with
              | Some st => bool_decide (st ∈ ["draft"; "active"; "retired"]) | None => true end)
        (ValueError "invalid profile status");
  Ok (list_profiles (Some (account_of p)) harness_id status s).

(** [update] *)
Definition update_profile (now : Z) (p : Principal) (profile_id : string) (body : pydict) : store_m ProfileRecord :=
  found ← gets (scoped_profile p profile_id);
  current ← lift found;
  _ ← guard_or (bool_decide (p_status current = "draft")) (ProfileConflictError profile_id);
  normalized ← gets (normalize_body p body);
  content ← lift normalized;
  _ ← guard_or (py_eqb (pget "harnessId" content) (PStr (p_harnessId current)) &&
                py_eqb (pget "base" content) (PStr (p_base current))) (ProfileConflictError profile_id);
  save_profile now (current <| p_content := content |> <| p_profileFingerprint := fingerprint content |>
                            <| p_validation := None |>).

(** [validate] *)
Definition validate_profile (now : Z) (p : Principal) (profile_id : string) : store_m pydict :=
  found ← gets (scoped_profile p profile_id);
  current ← lift found;
  fs ← lift (findings (p_content current));
  let validation := [("profileId", PStr (p_id current));
                     ("valid", PBool (negb (existsb (λ f, py_eqb (pget "severity" f) (PStr "error")) fs)));
                     ("findings", PList (PDict <$> fs))] in
  _ ← save_profile now (current <| p_validation := Some validation |>);
  mret validation.

(** [not current.validation or not current.validation["valid"]]: [true] when activation may go on. *)
Definition validated (v : option pydict) : result bool :=
  match v with
  | None | Some [] => Ok false
  | Some d => match dget "valid" d with Some b => Ok (truthy b) | None => Raise (KeyError "valid") end
  end.

Fixpoint retire_all (now : Z) (l : list ProfileRecord) : store_m unit :=
  match l with
  | [] => mret tt
  | previous :: l' => _ ← save_profile now (previous <| p_status := "retired" |>); retire_all now l'
  end.

(** [activate]; [clock] is the wall-clock reading of the activation time, [now] the store's. *)
Definition activate_profile (now clock : Z) (p : Principal) (profile_id : string) : store_m ProfileRecord :=
  found ← gets (scoped_profile p profile_id);
  current ← lift found;
  if bool_decide (p_status current = "active") then mret current
  else
    _ ← guard_or (bool_decide (p_status current = "draft")) (ProfileConflictError profile_id);
    ok ← lift (validated (p_validation current));
    _ ← guard_or ok (ProfileConflictError profile_id);
    _ ← guard_or (bool_decide (p_profileFingerprint current = fingerprint (p_content current)))
          (ProfileConflictError profile_id);
    active ← gets (list_profiles (Some (account_of p)) (Some (p_harnessId current)) (Some "active"));
    _ ← guard_or (match active with
                  | [] => true
                  | a :: l => foldr (λ r m, Z.max (p_version r) m) (p_version a) l <? p_version current
                  end) (ProfileConflictError profile_id);
    _ ← retire_all now active;
    save_profile now (current <| p_status := "active" |> <| p_activatedAtMs := Some clock |>).

(** [resolve_ref] *)
Definition resolve_ref (p : Principal) (harness_id : string) (profile_ref : pydict) (s : MemoryStore)
    : result ProfileRecord :=
  profile ← scoped_profile p (str_or (pget "profileId" profile_ref) "") s;
  if negb (bool_decide (p_harnessId profile = harness_id)) ||
     negb (py_eqb (PInt (p_version profile)) (pget "profileVersion" profile_ref)) ||
     negb (py_eqb (PStr (p_profileFingerprint profile)) (pget "profileFingerprint" profile_ref))
  then Raise (ProfileNotFoundError (p_id profile))
  else Ok profile.

(** [execution_snapshot]; [clock] is [resolvedAtMs]. *)
Definition execution_snapshot (clock : Z) (profile : ProfileRecord) : result pydict :=
  if negb (bool_decide (p_status profile ∈ ["active"; "retired"])) ||
     negb (truthy (pget "valid" (default [] (p_validation profile))))
  then Raise (ProfileConflictError "profile not validated")
  else Ok (dset "resolvedAtMs" (PInt clock)
            (dset "profileFingerprint" (PStr (p_profileFingerprint profile))
              (dset "profileVersion" (PInt (p_version profile))
                (dset "profileId" (PStr (p_id profile)) (p_content profile))))).

End profiles.

(** [profile_to_dict]: later keys override the earlier ones, in place. *)
Definition profile_to_dict (p : ProfileRecord) : pydict :=
  foldl (λ d kv, dset kv.1 kv.2 d) [("id", PStr (p_id p)); ("object", PStr (p_object p))]
    (p_content p ++
     [("version", PInt (p_version p)); ("status", PStr (p_status p));
      ("profileFingerprint", PStr (p_profileFingerprint p)); ("validation", opt_dict_val (p_validation p));
      ("createdAtMs", PInt (p_createdAtMs p)); ("updatedAtMs", PInt (p_updatedAtMs p));
      ("activatedAtMs", opt_int_val (p_activatedAtMs p))]).

(** ** Credential handles do not reach the execution intent *)

(** No dictionary inside the value has a [credentialRef] key. *)
Fixpoint credential_free (v : pyval) : bool :=
  match v with
  | PDict d =>
      (fix go (d : pydict) : bool :=
         match d with
         | [] => true
         | (key, item) :: d' => negb (bool_decide (key = "credentialRef")) && credential_free item && go d'
         end) d
  | PList l =>
      (fix go (l : list pyval) : bool :=
         match l with [] => true | x :: l' => credential_free x && go l' end) l
  | _ => true
  end.

Lemma without_credentials_free v : credential_free (without_credentials v) = true.
Proof.
  induction v as [| | | | |l IH|d IH] using pyval_nested_ind; try done; cbn.
  - induction IH as [|x l Hx _ IHl]; cbn; [done|]. by rewrite Hx, IHl.
  - induction IH as [|[k x] d Hx _ IHd]; cbn; [done|].
    destruct (bool_decide (k = "credentialRef")) eqn:E; cbn; [done|]. cbn in Hx. by rewrite E, Hx, IHd.
Qed.

Lemma without_credentials_id v : credential_free v = true → without_credentials v = v.
Proof.
  induction v as [| | | | |l IH|d IH] using pyval_nested_ind; try done; cbn; intros Hc; f_equal.
  - induction IH as [|x l Hx _ IHl]; cbn in *; [done|]. apply andb_true_iff in Hc as [H1 H2].
    rewrite Hx by done. f_equal. by apply IHl.
  - induction IH as [|[k x] d Hx _ IHd]; cbn in *; [done|].
    apply andb_true_iff in Hc as [[H1 H2]%andb_true_iff H3]. apply negb_true_iff in H1. rewrite H1, Hx by done.
    f_equal. by apply IHd.
Qed.

Lemma without_credentials_idemp v : without_credentials (without_credentials v) = without_credentials v.
Proof. apply without_credentials_id, without_credentials_free. Qed.

(** ** Lifecycle invariant *)

Definition same_slot (p q : ProfileRecord) : Prop :=
  profile_account_key p = profile_account_key q ∧ p_harnessId p = p_harnessId q.

Section lifecycle.
Context {repr : PyRepr} {hashing : Hashing} {splitter : UrlSplit}.

Definition profile_ok (p : ProfileRecord) : Prop :=
  p_status p ∈ ["draft"; "active"; "retired"] ∧ p_profileFingerprint p = fingerprint (p_content p).

Definition profile_inv (s : MemoryStore) : Prop :=
  dict_wf (st_profiles s) ∧
  (∀ k p, dget k (st_profiles s) = Some p → p_id p = k ∧ profile_ok p) ∧
  (∀ k1 k2 p q, dget k1 (st_profiles s) = Some p → dget k2 (st_profiles s) = Some q →
     p_harnessId p = p_harnessId q → p_version p = p_version q → k1 = k2) ∧
  (∀ k1 k2 p q, dget k1 (st_profiles s) = Some p → dget k2 (st_profiles s) = Some q →
     same_slot p q → p_status p = "active" → p_status q = "active" → k1 = k2).

Lemma profile_inv_init ttl : profile_inv (MemoryStore_init ttl).
Proof. split_and!; [constructor|done..]. Qed.

(** What a later store may do to a stored profile: identity, version and scope stay; once it has
    left draft its content is frozen, it never goes back, and a retired one stays retired. *)
Definition profile_kept (p q : ProfileRecord) : Prop :=
  p_id q = p_id p ∧ p_harnessId q = p_harnessId p ∧ p_base q = p_base p ∧ p_version q = p_version p ∧
  profile_account_key q = profile_account_key p ∧ p_createdAtMs q = p_createdAtMs p ∧
  (p_status p ≠ "draft" →
     p_status q ≠ "draft" ∧ p_content q = p_content p ∧ p_profileFingerprint q = p_profileFingerprint p) ∧
  (p_status p = "retired" → p_status q = "retired").

Definition profiles_evolve (s s' : MemoryStore) : Prop :=
  ∀ k p, dget k (st_profiles s) = Some p → ∃ q, dget k (st_profiles s') = Some q ∧ profile_kept p q.

#[export] Instance profile_kept_preorder : PreOrder profile_kept.
Proof.
  split; [by intros p; split_and!|].
  intros p q r (?&?&?&?&?&?&H7&H8) (?&?&?&?&?&?&K7&K8). split_and!; try congruence; [|naive_solver].
  intros Hd. destruct (H7 Hd) as (Hq & ? & ?), (K7 Hq) as (? & ? & ?). split_and!; congruence.
Qed.

#[export] Instance profiles_evolve_preorder : PreOrder profiles_evolve.
Proof.
  split; [by intros s k p ?; exists p|].
  intros s1 s2 s3 H12 H23 k p Hp. destruct (H12 _ _ Hp) as (q & Hq & ?), (H23 _ _ Hq) as (r & Hr & ?).
  exists r. split; [done|by etrans].
Qed.

(** Saving a changed version of a stored profile. *)
Lemma save_profile_existing now p q s :
  dget (p_id p) (st_profiles s) = Some p → p_id q = p_id p → p_createdAtMs q = p_createdAtMs p →
  save_profile now q s =
  (s <| st_profiles := dset (p_id p) (q <| p_updatedAtMs := now |>) (st_profiles s) |>, Ok (q <| p_updatedAtMs := now |>)).
Proof.
  intros Hp Hid Hc. unfold save_profile. rewrite Hid, Hp, <-Hc.
  assert (q <| p_createdAtMs := p_createdAtMs q |> = q) as -> by (by destruct q). cbn. by rewrite Hid.
Qed.

Definition put_profile (k : string) (q : ProfileRecord) (s : MemoryStore) : MemoryStore :=
  s <| st_profiles := dset k q (st_profiles s) |>.

Lemma put_profile_evolve k p q s :
  dget k (st_profiles s) = Some p → profile_kept p q → profiles_evolve s (put_profile k q s).
Proof.
  intros Hp Hk k' p' Hp'. cbn. rewrite dget_dset. case_decide; [|by exists p'].
  subst. simplify_eq. by exists q.
Qed.

Lemma put_profile_inv k p q s :
  profile_inv s → dget k (st_profiles s) = Some p → profile_kept p q → profile_ok q →
  (p_status q = "active" → ∀ k' p', dget k' (st_profiles s) = Some p' → same_slot q p' →
     p_status p' = "active" → k' = k) →
  profile_inv (put_profile k q s).
Proof.
  intros (Hwf & Hid & Hver & Hact) Hp (Hqi & Hqh & _ & Hqv & Hqa & _) Hok Huniq. split_and!.
  - by apply dict_wf_dset.
  - intros k' p'. cbn. rewrite dget_dset. case_decide; [|by apply Hid]. intros [= <-]. subst.
    split; [|done]. rewrite Hqi. by apply Hid.
  - intros k1 k2 p1 p2. cbn. rewrite !dget_dset. repeat case_decide; subst; intros; simplify_eq; try done.
    + eapply (Hver k k2); [exact Hp|done|congruence..].
    + eapply (Hver k1 k); [done|exact Hp|congruence..].
    + by eapply Hver.
  - intros k1 k2 p1 p2. cbn. rewrite !dget_dset. repeat case_decide; subst; intros; simplify_eq; try done.
    + symmetry. by eapply Huniq.
    + eapply Huniq; try done. match goal with Hs : same_slot _ _ |- _ => by destruct Hs end.
    + by eapply Hact.
Qed.

(** ** Each operation *)

Lemma scoped_profile_Ok p id s r :
  scoped_profile p id s = Ok r ↔ dget id (st_profiles s) = Some r ∧ profile_account_key r = account_of p.
Proof.
  unfold scoped_profile, get_profile. destruct (dget id (st_profiles s)) as [r'|]; [|naive_solver].
  case_bool_decide; naive_solver congruence.
Qed.

Lemma max_version_ge l r : r ∈ l → p_version r <= max_version l.
Proof.
  unfold max_version. induction l as [|x l IH]; [by intros ?%not_elem_of_nil|]. cbn.
  intros [->|Hin]%elem_of_cons; [lia|]. specialize (IH Hin). lia.
Qed.

Lemma elem_list_profiles a h st r s :
  profile_inv s →
  r ∈ list_profiles a h st s ↔
  dget (p_id r) (st_profiles s) = Some r ∧ (∀ x, a = Some x → profile_account_key r = x) ∧
  (∀ x, h = Some x → p_harnessId r = x) ∧ (∀ x, st = Some x → p_status r = x).
Proof.
  intros (Hwf & Hid & _). unfold list_profiles. rewrite elem_of_py_sorted.
  assert (r ∈ dvalues (st_profiles s) ↔ dget (p_id r) (st_profiles s) = Some r) as Hv.
  { rewrite (elem_dvalues_dget _ _ Hwf). split; [|eauto]. intros [k Hk]. destruct (Hid _ _ Hk) as [-> _]. done. }
  destruct a, h, st; rewrite ?elem_of_keep, ?bool_decide_eq_true, ?Hv; naive_solver.
Qed.

Lemma list_profiles_NoDup a h st s : profile_inv s → NoDup (p_id <$> list_profiles a h st s).
Proof.
  intros (Hwf & Hid & _). unfold list_profiles.
  assert (NoDup (p_id <$> dvalues (st_profiles s))) as Hnd.
  { assert (p_id <$> dvalues (st_profiles s) = dkeys (st_profiles s)) as ->; [|done].
    unfold dvalues, dkeys. rewrite <-list_fmap_compose. apply list_fmap_ext. intros i [k r] Hi.
    apply (Hid k). apply elem_dget; [done|]. by eapply list_elem_of_lookup_2. }
  rewrite py_sorted_perm. destruct a, h, st; repeat apply keep_NoDup_fmap; done.
Qed.

(** At most one profile of an account's harness is active. *)
Lemma list_active_profiles a h s :
  profile_inv s → list_profiles (Some a) (Some h) (Some "active") s = [] ∨
  ∃ r, list_profiles (Some a) (Some h) (Some "active") s = [r].
Proof.
  intros Hi. pose proof (list_profiles_NoDup (Some a) (Some h) (Some "active") s Hi) as Hnd.
  pose proof (λ r, proj1 (elem_list_profiles (Some a) (Some h) (Some "active") r s Hi)) as Hel.
  destruct (list_profiles _ _ _ _) as [|r1 [|r2 l]]; [by left|right; eauto|exfalso].
  destruct (Hel r1) as (H1 & Ha1 & Hh1 & Hs1); [by left|].
  destruct (Hel r2) as (H2 & Ha2 & Hh2 & Hs2); [by right; left|].
  destruct Hi as (_ & _ & _ & Hact).
  assert (p_id r1 = p_id r2) as Heq.
  { eapply Hact; [exact H1|exact H2| |by apply Hs1|by apply Hs2].
    split; [by rewrite (Ha1 _ eq_refl), (Ha2 _ eq_refl)|by rewrite (Hh1 _ eq_refl), (Hh2 _ eq_refl)]. }
  cbn in Hnd. apply NoDup_cons in Hnd as [Hnin _]. apply Hnin. rewrite Heq. by left.
Qed.

(** The result of an operation on the profile table. *)
Definition profile_step_ok (s s' : MemoryStore) : Prop := profile_inv s' ∧ profiles_evolve s s'.

Lemma profile_step_refl s : profile_inv s → profile_step_ok s s.
Proof. by split. Qed.

Lemma profile_step_put k p q s :
  profile_inv s → dget k (st_profiles s) = Some p → profile_kept p q → profile_ok q →
  (p_status q = "active" → p_status p = "active") → profile_step_ok s (put_profile k q s).
Proof.
  intros Hi Hp Hk Hok Hst. split; [|by eapply put_profile_evolve].
  eapply put_profile_inv; [done|exact Hp|done|done|]. intros Hq k' p' Hp' [Ha Hh] Hs'.
  destruct Hi as (_ & _ & _ & Hact). destruct Hk as (_ & Hkh & _ & _ & Hka & _).
  eapply Hact; [exact Hp'|exact Hp| |done|by apply Hst]. split; congruence.
Qed.

Lemma create_profile_step now hex p body s :
  profile_inv s → dget ("hprof_" +:+ hex) (st_profiles s) = None →
  profile_step_ok s (create_profile now hex p body s).1.
Proof.
  intros Hi Hf. unfold create_profile, mbind, M_bind, gets, lift.
  destruct (normalize_body p body s) as [content|e]; [|by apply profile_step_refl].
  unfold save_profile. cbn [p_id]. rewrite Hf. cbn [fst]. pose proof Hi as (Hwf & Hid & Hver & Hact).
  match goal with |- context [mkProfile ?i ?h ?b ?v] => set (hid := h); set (ver := v) end.
  assert (∀ k r, dget k (st_profiles s) = Some r → p_harnessId r = hid → p_version r < ver) as Hlt.
  { intros k r Hr Hh. unfold ver. apply Zle_lt_succ, max_version_ge, elem_list_profiles; [done|].
    destruct (Hid _ _ Hr) as [-> _]. split_and!; try done. by intros x [= <-]. }
  split.
  - split_and!.
    + by apply dict_wf_dset.
    + intros k r. cbn. rewrite dget_dset. case_decide; [|by apply Hid]. intros [= <-]. subst.
      split; [done|]. split; [by left|done].
    + intros k1 k2 p1 p2. cbn. rewrite !dget_dset. repeat case_decide; subst; intros; simplify_eq; cbn in *; try done.
      * exfalso. pose proof (Hlt k2 p2). naive_solver lia.
      * exfalso. pose proof (Hlt k1 p1). naive_solver lia.
      * by eapply Hver.
    + intros k1 k2 p1 p2. cbn. rewrite !dget_dset. repeat case_decide; subst; intros; simplify_eq; cbn in *; try done.
      by eapply Hact.
  - intros k r Hr. cbn. rewrite dget_dset_ne by congruence. by exists r.
Qed.

Lemma update_profile_step now p id body s :
  profile_inv s → profile_step_ok s (update_profile now p id body s).1.
Proof.
  intros Hi. unfold update_profile, mbind, M_bind, gets, lift, guard_or.
  destruct (scoped_profile p id s) as [r|e] eqn:Es; [|by apply profile_step_refl].
  apply scoped_profile_Ok in Es as [Hr _]. pose proof (proj1 (proj2 Hi) _ _ Hr) as [Hid Hok].
  case_bool_decide as Hd; cbn [ensure]; [|by apply profile_step_refl].
  destruct (normalize_body p body s) as [content|e]; [|by apply profile_step_refl].
  destruct (_ && _); cbn [ensure]; [|by apply profile_step_refl]. subst id.
  erewrite (save_profile_existing now r); [|done..]. cbn [fst].
  eapply profile_step_put; [done|exact Hr| | |done].
  - by split_and!.
  - split; [cbn; rewrite Hd; by left|done].
Qed.

Lemma validate_profile_step now p id s :
  profile_inv s → profile_step_ok s (validate_profile now p id s).1.
Proof.
  intros Hi. unfold validate_profile, mbind, M_bind, gets, lift.
  destruct (scoped_profile p id s) as [r|e] eqn:Es; [|by apply profile_step_refl].
  apply scoped_profile_Ok in Es as [Hr _]. pose proof (proj1 (proj2 Hi) _ _ Hr) as [Hid Hok].
  destruct (findings (p_content r)) as [fs|e]; [|by apply profile_step_refl]. subst id.
  erewrite (save_profile_existing now r); [|done..]. cbn [fst mret M_ret].
  eapply profile_step_put; [done|exact Hr| |done|done]. by split_and!.
Qed.

(** [activate] in one step: either the store is unchanged, or the draft became the active
    profile, the one active before (if any) is retired, and its version was smaller. *)
Definition activates (now clock : Z) (p : Principal) (cur : ProfileRecord) (s s' : MemoryStore) : Prop :=
  p_status cur = "draft" ∧ validated (p_validation cur) = Ok true ∧
  let act := cur <| p_status := "active" |> <| p_activatedAtMs := Some clock |> <| p_updatedAtMs := now |> in
  (list_profiles (Some (account_of p)) (Some (p_harnessId cur)) (Some "active") s = [] ∧
   s' = put_profile (p_id cur) act s) ∨
  (∃ prev, list_profiles (Some (account_of p)) (Some (p_harnessId cur)) (Some "active") s = [prev] ∧
     p_version prev < p_version cur ∧
     s' = put_profile (p_id cur) act
            (put_profile (p_id prev) (prev <| p_status := "retired" |> <| p_updatedAtMs := now |>) s)).

Lemma activate_profile_cases now clock p id s s' r :
  profile_inv s → activate_profile now clock p id s = (s', r) →
  (s' = s ∧ ((∃ e, r = Raise e) ∨ ∃ cur, r = Ok cur ∧ scoped_profile p id s = Ok cur ∧ p_status cur = "active")) ∨
  (∃ cur, scoped_profile p id s = Ok cur ∧ activates now clock p cur s s' ∧
          r = Ok (cur <| p_status := "active" |> <| p_activatedAtMs := Some clock |> <| p_updatedAtMs := now |>)).
Proof.
  intros Hi. unfold activate_profile, mbind, M_bind, gets, lift, guard_or.
  destruct (scoped_profile p id s) as [cur|e] eqn:Es; [|intros [= <- <-]; left; eauto].
  destruct (proj1 (scoped_profile_Ok _ _ _ _) Es) as [Hr Ha]. pose proof (proj1 (proj2 Hi) _ _ Hr) as [Hid Hok].
  case_bool_decide as Hact; [intros [= <- <-]; left; split; [done|right; eauto]|].
  case_bool_decide as Hd; cbn [ensure]; [|intros [= <- <-]; left; eauto].
  destruct (validated (p_validation cur)) as [[]|e] eqn:Ev; cbn [ensure]; [|intros [= <- <-]; left; eauto..].
  unfold ensure. case_bool_decide; [|intros [= <- <-]; left; eauto]. subst id.
  destruct (list_active_profiles (account_of p) (p_harnessId cur) s Hi) as [El|[prev El]].
  - rewrite El. cbn [retire_all mret M_ret]. erewrite (save_profile_existing now cur); [|done..].
    intros [= <- <-]. right. exists cur. split_and!; [done| |done]. split_and!; [done..|]. left. by rewrite El.
  - rewrite El. cbn [foldr]. destruct (Z.ltb_spec (p_version prev) (p_version cur)); [|intros [= <- <-]; left; eauto].
    assert (prev ∈ list_profiles (Some (account_of p)) (Some (p_harnessId cur)) (Some "active") s) as Hin
      by (rewrite El; by left).
    apply elem_list_profiles in Hin as (Hp & _ & _ & Hst); [|done]. specialize (Hst _ eq_refl).
    cbn [retire_all]. unfold mbind, M_bind. erewrite (save_profile_existing now prev); [|done..].
    cbn [mret M_ret]. erewrite (save_profile_existing now cur); [| |done|done].
    2: { cbn. rewrite dget_dset_ne; [done|]. intros Heq. rewrite Heq in Hr. congruence. }
    intros [= <- <-]. right. exists cur. split_and!; [done| |done]. split_and!; [done..|]. right. by exists prev.
Qed.

Lemma activates_step now clock p cur s s' :
  profile_inv s → dget (p_id cur) (st_profiles s) = Some cur → profile_account_key cur = account_of p →
  activates now clock p cur s s' → profile_step_ok s s'.
Proof.
  intros Hi Hc Ha (Hd & _ & Hcase). set (act := cur <| p_status := "active" |> <| p_activatedAtMs := Some clock |>
    <| p_updatedAtMs := now |>) in *.
  pose proof (proj1 (proj2 Hi) _ _ Hc) as [_ Hok].
  assert (profile_kept cur act) as Hkept by (split_and!; try done; rewrite Hd; done).
  assert (profile_ok act) as Hokact by (split; [set_solver|apply Hok]).
  pose proof (λ r, proj2 (elem_list_profiles (Some (account_of p)) (Some (p_harnessId cur)) (Some "active") r s Hi)) as Hel.
  destruct Hcase as [[El ->]|(prev & El & Hlt & ->)].
  - split; [|by eapply put_profile_evolve]. eapply put_profile_inv; [done|exact Hc|done|done|].
    intros _ k' p' Hp' [Hs1 Hs2] Hst. exfalso. pose proof (proj1 (proj2 Hi) _ _ Hp') as [<- _].
    assert (p' ∈ list_profiles (Some (account_of p)) (Some (p_harnessId cur)) (Some "active") s) as Hin.
    { apply Hel. split_and!; [done|..]; intros x [= <-]; [by rewrite <-Ha|done|done]. }
    rewrite El in Hin. by apply not_elem_of_nil in Hin.
  - assert (prev ∈ list_profiles (Some (account_of p)) (Some (p_harnessId cur)) (Some "active") s) as Hin
      by (rewrite El; by left).
    apply elem_list_profiles in Hin as (Hp & _ & _ & Hst); [|done]. specialize (Hst _ eq_refl).
    pose proof (proj1 (proj2 Hi) _ _ Hp) as [_ Hokp].
    assert (p_id cur ≠ p_id prev) as Hne by (intros Heq; rewrite Heq in Hc; congruence).
    destruct (profile_step_put (p_id prev) prev (prev <| p_status := "retired" |> <| p_updatedAtMs := now |>) s)
      as [Hi1 He1]; [done|done| | |done|].
    { by split_and!. }
    { split; [set_solver|apply Hokp]. }
    assert (dget (p_id cur) (st_profiles (put_profile (p_id prev)
      (prev <| p_status := "retired" |> <| p_updatedAtMs := now |>) s)) = Some cur) as Hc1
      by (cbn; by rewrite dget_dset_ne).
    split; [|etrans; [exact He1|by eapply put_profile_evolve]].
    eapply put_profile_inv; [done|exact Hc1|done|done|].
    intros _ k' p' Hp' [Hs1 Hs2] Hst'. exfalso. cbn in Hp'. rewrite dget_dset in Hp'. case_decide as Hk; [by simplify_eq|].
    pose proof (proj1 (proj2 Hi) _ _ Hp') as [<- _].
    assert (p' ∈ list_profiles (Some (account_of p)) (Some (p_harnessId cur)) (Some "active") s) as Hin.
    { apply Hel. split_and!; [done|..]; intros x [= <-]; [by rewrite <-Ha|done|done]. }
    rewrite El in Hin. apply list_elem_of_singleton in Hin as ->. done.
Qed.

Inductive profile_op :=
  | PCreate (now : Z) (hex : string) (p : Principal) (body : pydict)
  | PUpdate (now : Z) (p : Principal) (id : string) (body : pydict)
  | PValidate (now : Z) (p : Principal) (id : string)
  | PActivate (now clock : Z) (p : Principal) (id : string).

Definition run_profile (op : profile_op) (s : MemoryStore) : MemoryStore :=
  match op with
  | PCreate now hex p body => (create_profile now hex p body s).1
  | PUpdate now p id body => (update_profile now p id body s).1
  | PValidate now p id => (validate_profile now p id s).1
  | PActivate now clock p id => (activate_profile now clock p id s).1
  end.

(** Created identifiers are new. *)
Definition fresh_profile (op : profile_op) (s : MemoryStore) : Prop :=
  match op with PCreate _ hex _ _ => dget ("hprof_" +:+ hex) (st_profiles s) = None | _ => True end.

Lemma run_profile_step op s : profile_inv s → fresh_profile op s → profile_step_ok s (run_profile op s).
Proof.
  intros Hi Hf. destruct op as [now hex p body|now p id body|now p id|now clock p id]; cbn in *.
  - by apply create_profile_step.
  - by apply update_profile_step.
  - by apply validate_profile_step.
  - destruct (activate_profile now clock p id s) as [s' r] eqn:E.
    apply activate_profile_cases in E as [[-> _]|(cur & Hs & Hact & _)]; [by apply profile_step_refl| |done].
    apply scoped_profile_Ok in Hs as [Hc Ha]. destruct (proj1 (proj2 Hi) _ _ Hc) as [<- _].
    by eapply activates_step.
Qed.

(** Any sequence of operations, each with a fresh identifier where it creates one. *)
Inductive profile_steps : MemoryStore → MemoryStore → Prop :=
  | ps_done s : profile_steps s s
  | ps_step op s s' : fresh_profile op s → profile_steps (run_profile op s) s' → profile_steps s s'.

Lemma profile_steps_ok s s' : profile_steps s s' → profile_inv s → profile_step_ok s s'.
Proof.
  induction 1 as [s|op s s' Hf _ IH]; intros Hi; [by apply profile_step_refl|].
  destruct (run_profile_step op s Hi Hf) as [Hi1 He1]. destruct (IH Hi1) as [Hi2 He2].
  split; [done|]. by etrans.
Qed.

(** A list of operations, run in order. *)
Definition run_profiles (ops : list profile_op) (s : MemoryStore) : MemoryStore :=
  foldl (λ s op, run_profile op s) s ops.

Fixpoint all_fresh (ops : list profile_op) (s : MemoryStore) : Prop :=
  match ops with [] => True | op :: ops' => fresh_profile op s ∧ all_fresh ops' (run_profile op s) end.

Lemma profile_steps_run ops s : all_fresh ops s → profile_steps s (run_profiles ops s).
Proof.
  revert s. induction ops as [|op ops IH]; intros s; [constructor|]. intros [Hf Ha].
  econstructor; [exact Hf|]. by apply IH.
Qed.

(** C34: The profile lifecycle.  After any sequence of create, update, validate and activate calls
    by any principals, an account's harness has at most one active profile, versions of a
    harness are never reused, fingerprints match contents, and every profile stored before
    is still there with its id, harness, base, version, scope and creation time; if it had
    left draft its content is unchanged and it has not gone back, and a retired one is
    still retired. *)
Theorem profile_lifecycle s s' :
  profile_inv s → profile_steps s s' →
  profile_inv s' ∧ profiles_evolve s s' ∧
  ∀ k1 k2 p q, dget k1 (st_profiles s') = Some p → dget k2 (st_profiles s') = Some q →
    same_slot p q → p_status p = "active" → p_status q = "active" → p = q.
Proof.
  intros Hi Hs. destruct (profile_steps_ok s s' Hs Hi) as [Hi' He]. split_and!; [done..|].
  intros k1 k2 p q Hp Hq Hss Hap Haq. assert (k1 = k2) as -> by (by eapply (proj2 (proj2 (proj2 Hi')))).
  congruence.
Qed.

(** Activation.  It succeeds only on a scoped profile that is already active (and then changes
    nothing) or on a validated draft whose version is above the active one's; then the
    draft is the harness's active profile, the previous one is retired, and every other
    profile is as it was.  A refused activation changes nothing. *)
Theorem activate_profile_spec now clock p id s s' r :
  profile_inv s → activate_profile now clock p id s = (s', r) →
  match r with
  | Raise _ => s' = s
  | Ok new =>
      dget id (st_profiles s') = Some new ∧ p_status new = "active" ∧
      (s' = s ∨ ∃ cur, dget id (st_profiles s) = Some cur ∧ p_status cur = "draft" ∧
         validated (p_validation cur) = Ok true ∧
         ∀ k q, k ≠ id → dget k (st_profiles s) = Some q →
           (p_status q = "active" ∧ same_slot cur q ∧ p_version q < p_version cur ∧
            dget k (st_profiles s') = Some (q <| p_status := "retired" |> <| p_updatedAtMs := now |>)) ∨
           (¬ (p_status q = "active" ∧ same_slot cur q) ∧ dget k (st_profiles s') = Some q))
  end.
Proof.
  intros Hi E. apply activate_profile_cases in E as [[-> [[e ->]|(cur & -> & Hs & Ha)]]|(cur & Hs & Hact & ->)]; [done| | |done].
  { apply scoped_profile_Ok in Hs as [? _]. by split_and!; [..|left]. }
  apply scoped_profile_Ok in Hs as [Hc Ha]. destruct (proj1 (proj2 Hi) _ _ Hc) as [Hid _].
  destruct Hact as (Hd & Hv & Hcase). split_and!.
  - destruct Hcase as [[_ ->]|(prev & _ & _ & ->)]; cbn; by rewrite Hid, dget_dset_eq.
  - done.
  - right. exists cur. split_and!; [done..|]. intros k q Hne Hq.
    pose proof (proj1 (proj2 Hi) _ _ Hq) as [Hqid _].
    pose proof (elem_list_profiles (Some (account_of p)) (Some (p_harnessId cur)) (Some "active") q s Hi) as Hel.
    rewrite Hqid in Hel.
    assert (p_status q = "active" ∧ same_slot cur q ↔
            q ∈ list_profiles (Some (account_of p)) (Some (p_harnessId cur)) (Some "active") s) as Hiff.
    { rewrite Hel. unfold same_slot. rewrite Ha. split.
      - intros (? & ? & ?). split_and!; [done|..]; by intros x [= <-].
      - intros (_ & Hx & Hy & Hz). split_and!; [by apply Hz|by rewrite (Hx _ eq_refl)|by rewrite (Hy _ eq_refl)]. }
    rewrite Hiff. destruct Hcase as [[El ->]|(prev & El & Hlt & ->)]; rewrite El; cbn; rewrite Hid, dget_dset_ne by done.
    + right. split; [apply not_elem_of_nil|done].
    + assert (dget (p_id prev) (st_profiles s) = Some prev) as Hp.
      { assert (prev ∈ list_profiles (Some (account_of p)) (Some (p_harnessId cur)) (Some "active") s) as Hin
          by (rewrite El; by left).
        by apply elem_list_profiles in Hin as (Hp & _). }
      rewrite list_elem_of_singleton. destruct (decide (k = p_id prev)) as [Hk|Hk].
      * left. assert (q = prev) as -> by congruence. destruct Hiff as [_ Hiff]. rewrite El in Hiff.
        destruct Hiff as [? ?]; [by left|]. split_and!; [done..|]. by rewrite Hk, dget_dset_eq.
      * right. split; [congruence|]. by rewrite dget_dset_ne.
Qed.

(** Credential handles do not reach the execution intent.  The hashed content has no
    [credentialRef] at any depth, and two contents that differ only in such entries have
    the same execution-intent fingerprint. *)
Theorem execution_intent_ignores_credentials c1 c2 :
  credential_free (without_credentials (PDict c1)) = true ∧
  (without_credentials (PDict c1) = without_credentials (PDict c2) →
   execution_intent_fingerprint c1 = execution_intent_fingerprint c2) ∧
  execution_intent_fingerprint (as_dict (without_credentials (PDict c1))) = execution_intent_fingerprint c1.
Proof.
  split_and!.
  - apply without_credentials_free.
  - unfold execution_intent_fingerprint. by intros ->.
  - unfold execution_intent_fingerprint.
    assert (PDict (as_dict (without_credentials (PDict c1))) = without_credentials (PDict c1)) as -> by done.
    by rewrite without_credentials_idemp.
Qed.

End lifecycle.

(** ** Example: two revisions of one harness's profile *)

Module ProfileExamples.
Import RegistryExamples.

#[export] Instance toy_hash : Hashing := λ content, pretty (N.of_nat (length content)).
#[export] Instance toy_split : UrlSplit := λ _, Ok ("https", Some "api.example").

Definition profile_body : pydict :=
  [("harnessId", PStr "chrn_a"); ("base", PStr "codex");
   ("provider", PDict [("providerId", PStr "p"); ("name", PStr "n"); ("model", PStr "m");
                       ("credentialRef", PStr "secret://k"); ("wireApi", PStr "responses")])].

Definition two_revisions : list profile_op :=
  [PCreate 1 "1" alice profile_body; PValidate 2 alice "hprof_1"; PActivate 3 3 alice "hprof_1";
   PCreate 4 "2" alice profile_body; PValidate 5 alice "hprof_2"].

Definition before_second : MemoryStore := run_profiles two_revisions only_alice.

Lemma before_second_steps : profile_steps only_alice before_second.
Proof.
  apply profile_steps_run. vm_compute. repeat split.
Qed.

Lemma only_alice_profiles : profile_inv only_alice.
Proof. split_and!; [constructor|done..]. Qed.

Lemma profile_lifecycle_witness : profile_inv before_second.
Proof. apply (profile_lifecycle only_alice before_second only_alice_profiles before_second_steps). Defined.

Lemma activate_profile_spec_witness :
  ∃ new old, dget "hprof_2" (st_profiles (activate_profile 6 6 alice "hprof_2" before_second).1) = Some new ∧
    p_status new = "active" ∧
    dget "hprof_1" (st_profiles (activate_profile 6 6 alice "hprof_2" before_second).1) = Some old ∧
    p_status old = "retired".
Proof.
  destruct (activate_profile 6 6 alice "hprof_2" before_second) as [s' r] eqn:E.
  pose proof (activate_profile_spec 6 6 alice "hprof_2" before_second s' r
                (proj1 (profile_steps_ok _ _ before_second_steps only_alice_profiles)) E) as Hspec.
  assert (is_ok r = true) as Hr by (change r with (s', r).2; rewrite <-E; vm_compute; reflexivity).
  destruct r as [new|]; [|discriminate Hr].
  destruct Hspec as (Hn & Hs & _). exists new. eexists. split; [exact Hn|]. split; [exact Hs|].
  change s' with (s', Ok new).1. rewrite <-E. split; vm_compute; reflexivity.
Defined.

Lemma execution_intent_ignores_credentials_witness :
  execution_intent_fingerprint [("provider", PDict [("credentialRef", PStr "a"); ("model", PStr "m")])] =
  execution_intent_fingerprint [("provider", PDict [("credentialRef", PStr "b"); ("model", PStr "m")])].
Proof. apply execution_intent_ignores_credentials. vm_compute. reflexivity. Defined.

End ProfileExamples.
