(* ===== verification/SessionPolicy.v ===== *)
(** * Session state and revisioned policy (haas/sessions.py)

    The deep merge of state deltas, and the revisioned policy of a session: a mutation names
    the revision it expects, is validated domain by domain, and is applied at once on an
    idle session or left pending while a turn runs. *)

From S2P Require Import Prelude Errors Dict PyVal Records Store SessionStore.

#[local] Open Scope string_scope.
#[local] Open Scope list_scope.
#[local] Open Scope Z_scope.

(** ** Deep merge *)

(** The value [_deep_merge] leaves under a key: dictionaries merge, anything else replaces. *)
Fixpoint merge_value (old : option pyval) (v : pyval) : pyval :=
  match v with
  | PDict delta =>
      match old with
      | Some (PDict base) =>
          PDict ((fix go (delta : pydict) (out : pydict) : pydict :=
             match delta with
             | [] => out
             | (key, value) :: delta' => go delta' (dset key (merge_value (dget key out) value) out)
             end) delta base)
      | _ => v
      end
  | _ => v
  end.

(** [_deep_merge] *)
Fixpoint deep_merge (base delta : pydict) : pydict :=
  match delta with
  | [] => base
  | (key, value) :: delta' => deep_merge (dset key (merge_value (dget key base) value) base) delta'
  end.

Lemma merge_value_dicts base delta : merge_value (Some (PDict base)) (PDict delta) = PDict (deep_merge base delta).
Proof. cbn. f_equal. revert base. induction delta as [|[k v] d IH]; intros base; cbn; [done|]. by rewrite IH. Qed.

(** Keys are unique at every depth, as in any Python value. *)
Fixpoint deep_wf (v : pyval) : Prop :=
  match v with
  | PDict d =>
      dict_wf d ∧ (fix go (d : pydict) : Prop := match d with [] => True | (_, x) :: d' => deep_wf x ∧ go d' end) d
  | PList l => (fix go (l : list pyval) : Prop := match l with [] => True | x :: l' => deep_wf x ∧ go l' end) l
  | _ => True
  end.

Lemma deep_wf_dict d : deep_wf (PDict d) ↔ dict_wf d ∧ Forall (λ kv, deep_wf kv.2) d.
Proof.
  cbn. f_equiv. induction d as [|[k x] d IH]; cbn; [by split; constructor|].
  rewrite Forall_cons, IH. done.
Qed.

Lemma dget_deep_merge k base delta :
  dict_wf delta →
  dget k (deep_merge base delta) =
  match dget k delta with Some v => Some (merge_value (dget k base) v) | None => dget k base end.
Proof.
  revert base. induction delta as [|[k' v] delta IH]; intros base; [done|]. cbn [deep_merge dget].
  intros [Hni Hwf]%NoDup_cons. rewrite IH by done. rewrite dget_dset.
  destruct (decide (k = k')) as [->|Hne]; [|done].
  assert (dget k' delta = None) as -> by by apply dget_None. done.
Qed.

Lemma deep_merge_wf base delta : dict_wf base → dict_wf (deep_merge base delta).
Proof.
  revert base. induction delta as [|[k v] delta IH]; intros base Hwf; [done|]. cbn. by apply IH, dict_wf_dset.
Qed.

(** Merging what is already merged changes nothing, not even the order of keys. *)
Lemma deep_merge_absorb base delta :
  (∀ k v, (k, v) ∈ delta → ∃ w, dget k base = Some w ∧ merge_value (Some w) v = w) → deep_merge base delta = base.
Proof.
  induction delta as [|[k v] delta IH]; intros Hd; [done|]. cbn [deep_merge].
  destruct (Hd k v) as (w & Hw & Hm); [by left|]. rewrite Hw, Hm, dset_same by done.
  apply IH. intros k' v' Hin. apply Hd. by right.
Qed.

Lemma merge_value_None v : merge_value None v = v.
Proof. by destruct v. Qed.

Lemma merge_value_idemp v old : deep_wf v → merge_value (Some (merge_value old v)) v = merge_value old v.
Proof.
  revert old. induction v as [| | | | |l _|d IH] using pyval_nested_ind; intros old Hwf; try done.
  apply deep_wf_dict in Hwf as [Hwf Hall]. rewrite Forall_forall in IH, Hall.
  assert (∀ base, deep_merge (deep_merge base d) d = deep_merge base d) as Hdm.
  { intros base. apply deep_merge_absorb. intros k v Hin. exists (merge_value (dget k base) v).
    rewrite dget_deep_merge by done. rewrite (elem_dget _ _ _ Hwf Hin). split; [done|].
    apply (IH (k, v)); [done|]. by apply (Hall (k, v)). }
  assert (deep_merge d d = d) as Hself.
  { apply deep_merge_absorb. intros k v Hin. exists v. rewrite (elem_dget _ _ _ Hwf Hin). split; [done|].
    pose proof (IH (k, v) Hin None (Hall (k, v) Hin)) as Hi. cbn [snd] in Hi. by rewrite merge_value_None in Hi. }
  assert (merge_value old (PDict d) = PDict d ∨ ∃ b, merge_value old (PDict d) = PDict (deep_merge b d)) as [-> | [b ->]].
  { destruct old as [[| | | | | |b]|]; try by left. right. exists b. apply merge_value_dicts. }
  - by rewrite merge_value_dicts, Hself.
  - by rewrite merge_value_dicts, Hdm.
Qed.

(** State deltas merge deeply and idempotently.  Under every key the merge holds the old value
    where the delta says nothing, the recursive merge where both sides are dictionaries and
    the delta's value otherwise, so applying a delta a second time changes nothing. *)
Theorem deep_merge_spec base delta :
  deep_wf (PDict delta) →
  (∀ k, dget k (deep_merge base delta) =
     match dget k delta, dget k base with
     | None, old => old
     | Some (PDict d), Some (PDict b) => Some (PDict (deep_merge b d))
     | Some v, _ => Some v
     end) ∧
  deep_merge (deep_merge base delta) delta = deep_merge base delta ∧
  (dict_wf base → dict_wf (deep_merge base delta)).
Proof.
  intros Hwf. pose proof (proj1 (deep_wf_dict delta) Hwf) as [Hd _]. split_and!.
  - intros k. rewrite dget_deep_merge by done. destruct (dget k delta) as [v|]; [|by destruct (dget k base)].
    destruct v as [| | | | | |d], (dget k base) as [[| | | | | |b0]|]; try done. by rewrite merge_value_dicts.
  - pose proof (merge_value_idemp (PDict delta) (Some (PDict base)) Hwf) as Hi.
    rewrite !merge_value_dicts in Hi. by injection Hi.
  - apply deep_merge_wf.
Qed.

Lemma deep_merge_spec_witness :
  dget "a" (deep_merge [("a", PDict [("x", PInt 1)])] [("a", PDict [("y", PInt 2)])]) =
  Some (PDict [("x", PInt 1); ("y", PInt 2)]).
Proof.
  assert (deep_wf (PDict [("a", PDict [("y", PInt 2)])])) as Hwf.
  { apply deep_wf_dict. split; [apply NoDup_singleton|]. repeat constructor. set_solver. }
  destruct (deep_merge_spec [("a", PDict [("x", PInt 1)])] [("a", PDict [("y", PInt 2)])] Hwf) as [Hg _].
  rewrite Hg. vm_compute. reflexivity.
Defined.

(** ** Policy domains *)

Definition all_strs (p : string → bool) (l : list pyval) : bool :=
  forallb (λ item, match item with PStr s => p s | _ => false end) l.

(** [_validate_policy_domain] *)
Definition validate_policy_domain (domain : string) (value : pyval) : result unit :=
  let bad := PolicyUpdateInvalidError domain in
  match value with
  | PDict d =>
      if bool_decide (domain = "workspace") then
        _ ← ensure (keys_are d ["mode"; "root"; "writableRoots"]) bad;
        known ← in_str_set (pget "mode" d) ["read-only"; "workspace-write"; "danger-full-access"];
        _ ← ensure known bad;
        _ ← ensure (match pget "root" d with PStr r => starts_with "/" r | _ => false end) bad;
        ensure (match pget "writableRoots" d with PList l => all_strs (starts_with "/") l | _ => false end) bad
      else if bool_decide (domain = "network") then
        _ ← ensure (keys_are d ["defaultAction"; "allow"]) bad;
        known ← in_str_set (pget "defaultAction" d) ["deny"; "allow"];
        _ ← ensure known bad;
        ensure (match pget "allow" d with PList l => all_strs (λ _, true) l | _ => false end) bad
      else if bool_decide (domain = "tools") then
        _ ← ensure (keys_are d ["disabled"; "approvalMode"]) bad;
        known ← in_str_set (pget "approvalMode" d) ["never"; "on-request"; "always"];
        _ ← ensure known bad;
        ensure (match pget "disabled" d with PList l => all_strs (λ _, true) l | _ => false end) bad
      else Ok tt
  | _ => Raise bad
  end.

Definition POLICY_DOMAINS : list string := ["workspace"; "network"; "tools"].

(** The loop of [update_policy]: validate a domain, then overlay it. *)
Fixpoint overlay_policy (candidate delta : pydict) : result pydict :=
  match delta with
  | [] => Ok candidate
  | (domain, value) :: delta' =>
      _ ← validate_policy_domain domain value;
      overlay_policy (dset domain value candidate) delta'
  end.

(** [_apply_desired_policy] *)
Definition apply_desired_policy (r : SessionRecord) : SessionRecord :=
  r <| s_appliedPolicy := s_desiredPolicy r |>
    <| s_appliedRevision := s_desiredRevision r |>
    <| s_policyStatus := "applied" |>
    <| s_lastPolicyUpdateResult := Some [("revision", PInt (s_desiredRevision r)); ("status", PStr "applied")] |>
    <| s_pendingPolicyUpdate := None |>.

Definition BUSY_STATES : list string := ["running"; "pausing"; "cancelling"; "resuming"].

(** The session [update_policy] leaves behind a successful mutation; [wall] is its time. *)
Definition updated_policy (wall : Z) (candidate delta : pydict) (r : SessionRecord) : SessionRecord :=
  let revision := s_desiredRevision r + 1 in
  let r := r <| s_desiredRevision := revision |> <| s_desiredPolicy := candidate |>
             <| s_pendingPolicyUpdate :=
                  Some [("revision", PInt revision);
                        ("fields", PList (PStr <$> py_sorted String.leb (dkeys delta)));
                        ("requestedAtMs", PInt wall)] |> in
  if bool_decide (s_controlState r ∈ BUSY_STATES) then r <| s_policyStatus := "pending" |>
  else apply_desired_policy r.

(** [update_policy] *)
Definition update_policy (now wall : Z) (session : loc) (expected_revision : Z) (delta : pydict) : store_m loc :=
  r ← load_session session;
  _ ← guard_or (expected_revision =? s_desiredRevision r) (PolicyRevisionConflictError (s_id r));
  _ ← guard_or (match delta with [] => false | _ => true end &&
                forallb (λ k, bool_decide (k ∈ POLICY_DOMAINS)) (dkeys delta)) (PolicyUpdateInvalidError (s_id r));
  candidate ← lift (overlay_policy (s_desiredPolicy r) delta);
  _ ← assign_session session (updated_policy wall candidate delta);
  put_session now session.

(** The policy fields of [current], copied into a session. *)
Definition copy_policy_state (current r : SessionRecord) : SessionRecord :=
  r <| s_desiredPolicy := s_desiredPolicy current |> <| s_appliedPolicy := s_appliedPolicy current |>
    <| s_desiredRevision := s_desiredRevision current |> <| s_appliedRevision := s_appliedRevision current |>
    <| s_policyStatus := s_policyStatus current |>
    <| s_pendingPolicyUpdate := s_pendingPolicyUpdate current |>
    <| s_lastPolicyUpdateResult := s_lastPolicyUpdateResult current |>.

(** [_refresh_policy_state]: [is] compares references; the caller's object is updated in place. *)
Definition refresh_policy_state (session : loc) (key : SessionKey) : store_m loc :=
  current ← get_session key;
  match current with
  | None => mret session
  | Some current =>
      if bool_decide (current = session) then mret session
      else
        c ← load_session current;
        _ ← assign_session session (copy_policy_state c);
        mret session
  end.

(** [{**v, k: x}]: only a dictionary can be unpacked. *)
Definition with_entry (v : pyval) (k : string) (x : pyval) : result pyval :=
  match v with PDict d => Ok (PDict (dset k x d)) | _ => Raise TypeError end.

Definition default_domain (k : string) : pyval := pget k default_session_policy.

(** [_initial_policy] *)
Definition initial_policy (sandbox policy : pydict) : result pydict :=
  let dw := as_dict (default_domain "workspace") in
  let workspace := PDict [("mode", default (pget "mode" dw) (dget "mode" sandbox));
                          ("root", default (pget "root" dw) (dget "workspaceRoot" sandbox));
                          ("writableRoots", default (pget "writableRoots" dw) (dget "writableRoots" sandbox))] in
  let network := default (default (default_domain "network") (dget "network" sandbox)) (dget "network" policy) in
  let tools := default (default_domain "tools") (dget "tools" policy) in
  legacy ← in_str_set (pget "approvalPolicy" policy) ["never"; "on-request"; "always"];
  tools ← (if legacy : bool then with_entry tools "approvalMode" (pget "approvalPolicy" policy) else Ok tools);
  _ ← validate_policy_domain "workspace" workspace;
  _ ← validate_policy_domain "network" network;
  _ ← validate_policy_domain "tools" tools;
  Ok [("workspace", workspace); ("network", network); ("tools", tools)].

(** ** The policy invariant of a session *)

(** All three domains are there and validated, and nothing else. *)
Definition policy_valid (p : pydict) : Prop :=
  ∀ k, match dget k p with
       | Some v => k ∈ POLICY_DOMAINS ∧ validate_policy_domain k v = Ok tt
       | None => k ∉ POLICY_DOMAINS
       end.

Definition session_policy_ok (r : SessionRecord) : Prop :=
  policy_valid (s_desiredPolicy r) ∧ policy_valid (s_appliedPolicy r) ∧
  1 <= s_appliedRevision r <= s_desiredRevision r ∧
  (s_appliedRevision r = s_desiredRevision r →
     s_appliedPolicy r = s_desiredPolicy r ∧ s_policyStatus r = "applied" ∧ s_pendingPolicyUpdate r = None) ∧
  (s_appliedRevision r < s_desiredRevision r → s_policyStatus r = "pending" ∧ s_pendingPolicyUpdate r ≠ None).

Lemma policy_valid_three v1 v2 v3 :
  validate_policy_domain "workspace" v1 = Ok tt → validate_policy_domain "network" v2 = Ok tt →
  validate_policy_domain "tools" v3 = Ok tt →
  policy_valid [("workspace", v1); ("network", v2); ("tools", v3)].
Proof.
  intros H1 H2 H3 k. cbn [dget]. unfold POLICY_DOMAINS. repeat case_decide; subst; [by split; [set_solver|]..|set_solver].
Qed.

Lemma default_policy_valid : policy_valid default_session_policy.
Proof. by apply policy_valid_three. Qed.

Lemma initial_policy_valid sandbox policy p : initial_policy sandbox policy = Ok p → policy_valid p.
Proof.
  unfold initial_policy. intros (legacy & _ & (tools & _ & ([] & H1 & ([] & H2 & ([] & H3 &
    [= <-])%bind_Ok)%bind_Ok)%bind_Ok)%bind_Ok)%bind_Ok. by apply policy_valid_three.
Qed.

Lemma new_session_policy_ok id app user now : session_policy_ok (new_session id app user now).
Proof. split_and!; cbn; try apply default_policy_valid; lia || done. Qed.

Lemma apply_desired_policy_ok r :
  policy_valid (s_desiredPolicy r) → 1 <= s_desiredRevision r → session_policy_ok (apply_desired_policy r).
Proof. intros. split_and!; cbn; done || lia. Qed.

Lemma copy_policy_state_ok c r : session_policy_ok c → session_policy_ok (copy_policy_state c r).
Proof. done. Qed.

Lemma overlay_policy_valid base delta cand :
  forallb (λ k, bool_decide (k ∈ POLICY_DOMAINS)) (dkeys delta) = true →
  policy_valid base → overlay_policy base delta = Ok cand → policy_valid cand.
Proof.
  revert base. induction delta as [|[k v] delta IH]; intros base; cbn; [by intros _ ? [= <-]|].
  intros [Hk Hks]%andb_true_iff Hv ([] & Hval & Ho)%bind_Ok. eapply IH; [done| |exact Ho].
  intros k'. rewrite dget_dset. destruct (decide (k' = k)) as [->|]; [|apply Hv].
  apply bool_decide_eq_true in Hk. by split.
Qed.

Lemma overlay_policy_get base delta cand k :
  dict_wf delta → overlay_policy base delta = Ok cand →
  dget k cand = match dget k delta with Some v => Some v | None => dget k base end.
Proof.
  revert base. induction delta as [|[k' v] delta IH]; intros base; [by intros _ [= <-]|].
  intros [Hni Hwf]%NoDup_cons ([] & _ & Ho)%bind_Ok. rewrite (IH _ Hwf Ho), dget_dset. cbn [dget].
  destruct (decide (k = k')) as [->|]; [|done].
  assert (dget k' delta = None) as -> by by apply dget_None. done.
Qed.

Lemma updated_policy_ok wall cand delta r :
  policy_valid cand → session_policy_ok r → session_policy_ok (updated_policy wall cand delta r).
Proof.
  intros Hc (_ & Ha & Hr & _). unfold updated_policy. case_bool_decide.
  - split_and!; cbn; try done; lia.
  - apply apply_desired_policy_ok; cbn; [done|lia].
Qed.

Lemma updated_policy_control wall cand delta r :
  s_controlState (updated_policy wall cand delta r) = s_controlState r ∧
  session_key (updated_policy wall cand delta r) = session_key r.
Proof. unfold updated_policy. by case_bool_decide. Qed.

Lemma update_policy_eq now wall l rev delta s r :
  st_session_objs s !! l = Some r → known_control_state (s_controlState r) = true →
  update_policy now wall l rev delta s =
  if negb (rev =? s_desiredRevision r) then (s, Raise (PolicyRevisionConflictError (s_id r)))
  else if negb (match delta with [] => false | _ => true end &&
                forallb (λ k, bool_decide (k ∈ POLICY_DOMAINS)) (dkeys delta))
  then (s, Raise (PolicyUpdateInvalidError (s_id r)))
  else match overlay_policy (s_desiredPolicy r) delta with
       | Raise e => (s, Raise e)
       | Ok cand =>
           let r' := updated_policy wall cand delta r in
           (s <| st_session_objs := alter (updated_policy wall cand delta) l (st_session_objs s) ++
                   [r' <| s_updatedAtMs := now |>] |>
              <| st_sessions := dset (session_key r) (length (st_session_objs s)) (st_sessions s) |>,
            Ok (length (st_session_objs s)))
       end.
Proof.
  intros Hl Hk. unfold update_policy, mbind, M_bind, load_session, guard_or, lift, assign_session, modify.
  rewrite Hl. unfold ensure. destruct (rev =? s_desiredRevision r); cbn [negb]; [|done].
  destruct (_ && _); cbn [negb]; [|done].
  destruct (overlay_policy (s_desiredPolicy r) delta) as [cand|e]; [|done].
  rewrite put_session_eq. cbn. rewrite list_lookup_alter_eq, Hl. cbn.
  destruct (updated_policy_control wall cand delta r) as [-> ->]. rewrite Hk, length_alter. done.
Qed.

(** The revisioned policy mutation.  It is refused, leaving the store as it is, unless it names
    the current desired revision, is a non-empty subset of the three domains and every
    domain validates.  Otherwise the desired revision grows by one, the desired policy is
    the old one with exactly the given domains replaced, and the policy in force changes
    only when no turn is running; a running turn leaves it pending.  The session's
    invariant (applied revision at most the desired one, equal revisions mean equal
    policies, both policies valid) is kept. *)
Theorem update_policy_spec now wall l rev delta s r s' res :
  st_session_objs s !! l = Some r → known_control_state (s_controlState r) = true →
  session_policy_ok r → dict_wf delta →
  update_policy now wall l rev delta s = (s', res) →
  match res with
  | Raise e =>
      s' = s ∧
      (rev ≠ s_desiredRevision r ∧ e = PolicyRevisionConflictError (s_id r) ∨
       rev = s_desiredRevision r ∧
         (e = PolicyUpdateInvalidError (s_id r) ∨ overlay_policy (s_desiredPolicy r) delta = Raise e))
  | Ok l' =>
      rev = s_desiredRevision r ∧ delta ≠ [] ∧
      ∃ r', st_session_objs s' !! l' = Some r' ∧ session_at (session_key r) s' = Some r' ∧ session_policy_ok r' ∧
        s_desiredRevision r' = s_desiredRevision r + 1 ∧ s_controlState r' = s_controlState r ∧
        (∀ k, dget k (s_desiredPolicy r') =
              match dget k delta with Some v => Some v | None => dget k (s_desiredPolicy r) end) ∧
        (if bool_decide (s_controlState r ∈ BUSY_STATES)
         then s_appliedPolicy r' = s_appliedPolicy r ∧ s_appliedRevision r' = s_appliedRevision r ∧
              s_policyStatus r' = "pending"
         else s_appliedPolicy r' = s_desiredPolicy r' ∧ s_appliedRevision r' = s_desiredRevision r' ∧
              s_policyStatus r' = "applied")
  end.
Proof.
  intros Hl Hk Hok Hwf. rewrite (update_policy_eq _ _ _ _ _ _ r) by done.
  destruct (Z.eqb_spec rev (s_desiredRevision r)) as [->|Hne]; cbn [negb];
    [|intros [= <- <-]; split; [done|by left]].
  destruct (_ && _) eqn:Eg; cbn [negb]; [|intros [= <- <-]; split; [done|right; split; [done|by left]]].
  destruct (overlay_policy (s_desiredPolicy r) delta) as [cand|e] eqn:Eo;
    [|intros [= <- <-]; split; [done|right; split; [done|by right]]].
  intros [= <- <-]. apply andb_true_iff in Eg as [Hne Hdom]. split_and!; [done|by destruct delta|].
  assert (policy_valid cand) as Hc by (exact (overlay_policy_valid _ _ _ Hdom (proj1 Hok) Eo)).
  pose proof (updated_policy_ok wall cand delta r Hc Hok) as Hok'.
  exists ((updated_policy wall cand delta r) <| s_updatedAtMs := now |>).
  assert ((alter (updated_policy wall cand delta) l (st_session_objs s) ++
    [(updated_policy wall cand delta r) <| s_updatedAtMs := now |>]) !! length (st_session_objs s) =
    Some ((updated_policy wall cand delta r) <| s_updatedAtMs := now |>)) as Hlast.
  { rewrite lookup_app_r; rewrite length_alter; [|done]. by rewrite Nat.sub_diag. }
  split_and!; [exact Hlast| |exact Hok'|..].
  - unfold session_at. cbn. rewrite dget_dset_eq. cbn. exact Hlast.
  - unfold updated_policy. by case_bool_decide.
  - apply (updated_policy_control wall cand delta r).
  - intros k. assert (s_desiredPolicy ((updated_policy wall cand delta r) <| s_updatedAtMs := now |>) = cand) as ->.
    { unfold updated_policy. by case_bool_decide. }
    by apply overlay_policy_get.
  - unfold updated_policy. cbn [s_controlState upd]. destruct (bool_decide (s_controlState r ∈ BUSY_STATES)); done.
Qed.

Module SessionPolicyExamples.

Definition running : SessionRecord := (new_session "s1" "app" "u" 1) <| s_controlState := "running" |>.
Definition store_running : MemoryStore :=
  (MemoryStore_init 1000) <| st_session_objs := [running] |> <| st_sessions := [(("app", "u", "s1"), 0%nat)] |>.
Definition deny_network : pydict :=
  [("network", PDict [("defaultAction", PStr "deny"); ("allow", PList [])])].

Lemma update_policy_spec_witness :
  ∃ r', session_at ("app", "u", "s1") (update_policy 5 5 0%nat 1 deny_network store_running).1 = Some r' ∧
        s_appliedRevision r' = 1 ∧ s_desiredRevision r' = 2 ∧ s_policyStatus r' = "pending".
Proof.
  destruct (update_policy 5 5 0%nat 1 deny_network store_running) as [s' res] eqn:E.
  pose proof (update_policy_spec 5 5 0%nat 1 deny_network store_running running s' res eq_refl
                ltac:(vm_compute; reflexivity) (new_session_policy_ok "s1" "app" "u" 1)
                ltac:(apply NoDup_singleton) E) as Hspec.
  assert (is_ok res = true) as Hr by (change res with (s', res).2; rewrite <-E; vm_compute; reflexivity).
  destruct res as [l'|]; [|discriminate Hr].
  destruct Hspec as (_ & _ & r' & _ & Hat & _ & Hd & _ & _ & Hb). exists r'. split; [exact Hat|].
  change (bool_decide (s_controlState running ∈ BUSY_STATES)) with true in Hb. destruct Hb as (_ & Ha & Hs).
  split; [exact Ha|]. split; [exact Hd|exact Hs].
Defined.

End SessionPolicyExamples.
