(* ===== verification/Sessions.v ===== *)
(** * Session runtime: records, terminals and control (haas/sessions.py)

    The synchronous operations of [SessionRuntime] and the control calls (pause, cancel,
    continue, readback).  The runtime state is the store plus the table of active turns,
    whose entries are objects shared between the driving task and the control calls.
    A call that awaits is split at its awaits: each segment runs without interleaving, and
    one clock reading [now] serves a segment.  Artifact storage and the model proxy are
    other components; the calls made to them are recorded in order. *)

From S2P Require Import Prelude Errors Dict PyVal Records Store Leases Idempotency SessionStore EventStore Redact.
From S2P Require Import Events SessionPolicy.

#[local] Open Scope string_scope.
#[local] Open Scope list_scope.
#[local] Open Scope Z_scope.

(** [_ActiveTurn]; [at_terminal_status] is the future's result, [at_locked] the control lock. *)
Record ActiveTurn := mkActive {
  at_turn_id : string;
  at_session_id : string;
  at_terminal_status : option string;
  at_control_intent : option string;
  at_interrupt_dispatched : bool;
  at_locked : bool;
}.
#[export] Instance eta_ActiveTurn : Eta ActiveTurn := λ r, mkActive
  (at_turn_id r) (at_session_id r) (at_terminal_status r) (at_control_intent r)
  (at_interrupt_dispatched r) (at_locked r).

(** Calls to the artifact store and the model proxy. *)
Inductive external_call :=
  | ArtifactsDelete (session_id app_name user_id : string)
  | ProxyRevoke (session_id : string)
  | ProxyEnd (invocation_id : string).

Record Runtime := mkRuntime {
  rt_store : MemoryStore;
  rt_active_objs : list ActiveTurn;
  rt_active : dict string loc;
  rt_external : list external_call;
}.
#[export] Instance eta_Runtime : Eta Runtime := λ r, mkRuntime
  (rt_store r) (rt_active_objs r) (rt_active r) (rt_external r).

(** The construction parameters of [SessionRuntime]. *)
Record RuntimeConfig := mkConfig {
  cf_lease_ttl_ms : Z;
  cf_lease_renew_interval_ms : Z;
  cf_turn_timeout_s : spec_float;
  cf_adapter_id : string;
  cf_adapter_base : string;
  cf_artifacts : bool;
  cf_model_proxy : bool;
}.
#[export] Instance eta_RuntimeConfig : Eta RuntimeConfig := λ r, mkConfig
  (cf_lease_ttl_ms r) (cf_lease_renew_interval_ms r) (cf_turn_timeout_s r) (cf_adapter_id r)
  (cf_adapter_base r) (cf_artifacts r) (cf_model_proxy r).

(** ** Timeouts *)

Definition is_finite (f : spec_float) : bool :=
  match f with S754_zero _ | S754_finite _ _ _ => true | _ => false end.

(** [_effective_timeout_seconds] *)
Definition effective_timeout_seconds (value : option spec_float) (dflt : spec_float) : result spec_float :=
  match value with
  | None => Ok dflt
  | Some v =>
      if negb (is_finite v) then Raise (ValueError "timeout_seconds must be finite")
      else if SFleb v (S754_zero false) then Raise (ValueError "timeout_seconds must be positive")
      else Ok (if SFltb (float_of_Z 86400) v then float_of_Z 86400 else v)
  end.

(** [SessionRuntime.__post_init__] *)
Definition runtime_post_init (c : RuntimeConfig) : result RuntimeConfig :=
  _ ← ensure (0 <? cf_lease_ttl_ms c) (ValueError "lease_ttl_ms must be positive");
  _ ← ensure (0 <? cf_lease_renew_interval_ms c) (ValueError "lease_renew_interval_ms must be positive");
  timeout ← effective_timeout_seconds (Some (cf_turn_timeout_s c)) (float_of_Z 86400);
  _ ← ensure (negb (cf_lease_ttl_ms c <=? cf_lease_renew_interval_ms c * 2))
        (ValueError "lease_renew_interval_ms must be less than half of lease_ttl_ms");
  _ ← ensure (negb (SFleb timeout (float_div (float_of_Z (cf_lease_ttl_ms c)) (float_of_Z 1000))))
        (ValueError "turn_timeout_s must be greater than lease_ttl_ms");
  Ok (c <| cf_turn_timeout_s := timeout |>).

(** [int(x * 1000)] of a finite float: truncation. *)
Definition float_trunc (f : spec_float) : Z :=
  match f with
  | S754_finite s m e =>
      let a := if 0 <=? e then Z.pos m * 2 ^ e else Z.pos m / 2 ^ (- e) in if s then - a else a
  | _ => 0
  end.
Definition seconds_to_ms (f : spec_float) : Z := float_trunc (SFmul 53 1024 f (float_of_Z 1000)).

(** ** The runtime monad *)

Notation rt_m A := (M Runtime A).

(** A store operation on the runtime's store. *)
Definition st {A} (m : store_m A) : rt_m A := λ rt,
  let (s', r) := m (rt_store rt) in (rt <| rt_store := s' |>, r).

Definition load_active (l : loc) : rt_m ActiveTurn := λ rt,
  match rt_active_objs rt !! l with Some a => (rt, Ok a) | None => (rt, Raise DanglingReference) end.
Definition assign_active (l : loc) (f : ActiveTurn → ActiveTurn) : rt_m unit :=
  modify (λ rt, rt <| rt_active_objs := alter f l (rt_active_objs rt) |>).

(** [self._active.get(invocation_id)] and the object it refers to. *)
Definition get_active (invocation_id : string) : rt_m (option loc) := gets (λ rt, dget invocation_id (rt_active rt)).
Definition active_at (invocation_id : string) (rt : Runtime) : option ActiveTurn :=
  dget invocation_id (rt_active rt) ≫= λ l, rt_active_objs rt !! l.

(** [if not active.terminal_status.done(): active.terminal_status.set_result(status)] *)
Definition set_terminal (l : loc) (status : string) : rt_m unit :=
  assign_active l (λ a, match at_terminal_status a with
                        | Some _ => a
                        | None => a <| at_terminal_status := Some status |>
                        end).

Definition external (c : external_call) : rt_m unit :=
  modify (λ rt, rt <| rt_external := rt_external rt ++ [c] |>).

Section sessions.
Context `{PyRepr} `{RegexEngine} (cfg : RuntimeConfig).

(** ** Session reads and state *)

(** [get_session]: raises when the key is unknown. *)
Definition require_session (app_name user_id session_id : string) : rt_m loc :=
  found ← st (get_session (app_name, user_id, session_id));
  match found with Some l => mret l | None => raise (SessionNotFoundError session_id) end.

(** Assign the merged state. *)
Definition merge_state (session : loc) (delta : pydict) : rt_m unit :=
  st (assign_session session (λ r, r <| s_state := deep_merge (s_state r) delta |>)).

(** [apply_state_delta] *)
Definition apply_state_delta (now : Z) (app_name user_id session_id : string) (delta : pydict) : rt_m loc :=
  session ← require_session app_name user_id session_id;
  _ ← merge_state session delta;
  st (put_session now session).

(** [SessionRuntime.delete_session] *)
Definition runtime_delete_session (app_name user_id session_id : string) : rt_m unit :=
  _ ← require_session app_name user_id session_id;
  _ ← st (delete_session (app_name, user_id, session_id));
  _ ← (if cf_artifacts cfg then external (ArtifactsDelete session_id app_name user_id) else mret tt);
  if cf_model_proxy cfg then external (ProxyRevoke session_id) else mret tt.

(** ** Events of a turn *)

(** [_append_harness_event] *)
Definition append_leased (now : Z) (event : HarnessEvent) (app_id : string) (invocation : loc)
    (key : SessionKey) (holder : string) (token : Z) : rt_m CanonicalEventRecord :=
  _ ← st (assert_lease now key holder token);
  i ← st (load_invocation invocation);
  st (append_harness_event now event app_id (i_userId i) app_id (cf_adapter_id cfg)).

(** [_terminal_event] *)
Definition terminal_event (status : string) (i : InvocationRecord) (t : TurnRecord)
    (reason code : option string) (retryable : option bool) : HarnessEvent :=
  let state_delta := [("status", PStr status)] in
  let state_delta := match reason with Some r => dset "reason" (PStr r) state_delta | None => state_delta end in
  let state_delta := match code with Some c => dset "code" (PStr c) state_delta | None => state_delta end in
  let state_delta := match retryable with Some b => dset "retryable" (PBool b) state_delta | None => state_delta end in
  mkHarnessEvent ("harness.turn." +:+ status) (i_id i) (i_sessionId i) (t_id t) (cf_adapter_base cfg)
    [("role", PStr "model"); ("parts", PList [])] [("stateDelta", PDict state_delta)] None None.

(** The control fields a terminal writes. *)
Definition paused_by (status : string) (active : option ActiveTurn) : bool :=
  bool_decide (status = "interrupted") &&
  match active with Some a => bool_decide (at_control_intent a = Some "pause") | None => false end.

Definition set_control (state : string) (supports : bool) (resumable : option string) (r : SessionRecord) : SessionRecord :=
  r <| s_controlState := state |> <| s_supportsResume := supports |> <| s_resumableInvocationId := resumable |>.

Definition terminal_control (paused : bool) (invocation_id : string) : SessionRecord → SessionRecord :=
  if paused then set_control "paused" true (Some invocation_id) else set_control "idle" false None.

(** The first half of [_persist_terminal_event]: compute the final records in memory, then write
    them; the result is the active turn, if any, and the session object that was written. *)
Definition stage_terminal (now : Z) (terminal : HarnessEvent) (status : string) (invocation turn session : loc)
    (key : SessionKey) (holder : string) (token : Z) (merge_session_state : bool) : rt_m (option loc * loc) :=
  _ ← st (assert_lease now key holder token);
  _ ← (match pget "stateDelta" (he_actions terminal) with
       | PDict delta => if merge_session_state then merge_state session delta else mret tt
       | _ => mret tt
       end);
  _ ← st (assign_invocation invocation (λ i, i <| i_status := status |> <| i_completedAtMs := Some now |>));
  _ ← st (assign_turn turn (λ t, t <| t_status := status |> <| t_completedAtMs := Some now |>));
  session ← st (refresh_policy_state session key);
  i ← st (load_invocation invocation);
  active ← get_active (i_id i);
  record ← gets (active_at (i_id i));
  _ ← st (assign_session session (terminal_control (paused_by status record) (i_id i)));
  latest ← st (get_session key);
  session ← (match latest with
             | Some latest_session =>
                 r ← st (load_session latest_session);
                 if s_appliedRevision r <? s_desiredRevision r then
                   _ ← st (assign_session latest_session apply_desired_policy);
                   mret latest_session
                 else mret session
             | None => mret session
             end);
  _ ← st (put_invocation now invocation);
  _ ← st (put_turn turn);
  session ← st (put_session now session);
  mret (active, session).

(** The second half, once the event is appended. *)
Definition seal_terminal (now : Z) (invocation turn : loc) (active : option loc) (status : string)
    (event : CanonicalEventRecord) : rt_m unit :=
  _ ← st (assign_invocation invocation (λ i, i <| i_completedAtMs := Some (e_observedAtMs event) |>));
  _ ← st (assign_turn turn (λ t, t <| t_completedAtMs := Some (e_observedAtMs event) |>));
  _ ← st (put_invocation now invocation);
  _ ← st (put_turn turn);
  match active with Some l => set_terminal l status | None => mret tt end.

(** [_persist_terminal_event] *)
Definition persist_terminal_event (now : Z) (terminal : HarnessEvent) (status app_id : string)
    (invocation turn session : loc) (key : SessionKey) (holder : string) (token : Z) (merge_session_state : bool)
    : rt_m (CanonicalEventRecord * loc) :=
  staged ← stage_terminal now terminal status invocation turn session key holder token merge_session_state;
  event ← append_leased now terminal app_id invocation key holder token;
  _ ← seal_terminal now invocation turn staged.1 status event;
  mret (event, staged.2).

(** [_persist_failure_terminal] *)
Definition persist_failure_terminal (now : Z) (app_id : string) (invocation turn session : loc) (key : SessionKey)
    (holder : string) (token : Z) (reason code : option string) (retryable : option bool) : rt_m CanonicalEventRecord :=
  i ← st (load_invocation invocation);
  t ← st (load_turn turn);
  p ← persist_terminal_event now (terminal_event "failed" i t reason code retryable) "failed" app_id
        invocation turn session key holder token true;
  mret p.1.

(** [_merge_actions] *)
Definition merge_actions (now : Z) (session : loc) (event : CanonicalEventRecord) (key : SessionKey)
    (holder : string) (token : Z) : rt_m loc :=
  _ ← st (assert_lease now key holder token);
  match pget "stateDelta" (e_actions event) with
  | PDict delta =>
      _ ← merge_state session delta;
      session ← st (refresh_policy_state session key);
      st (put_session now session)
  | _ => mret session
  end.

(** [_store_native_session_ref] *)
Definition store_native_session_ref (now : Z) (session : loc) (native_ref : pydict) (key : SessionKey)
    (holder : string) (token : Z) : rt_m loc :=
  match native_ref with
  | [] => mret session
  | _ =>
      _ ← st (assert_lease now key holder token);
      _ ← st (assign_session session (λ r, r <| s_nativeSessionRef := Some native_ref |>));
      session ← st (refresh_policy_state session key);
      st (put_session now session)
  end.

(** [_has_native_resume_ref] *)
Definition has_native_resume_ref (native_ref : option pydict) : bool :=
  match native_ref with
  | None | Some [] => false
  | Some d =>
      if match pget "nonResumable" d with PBool true => true | _ => false end then false
      else match pget "threadId" d with PStr (String _ _) => true | _ => false end
  end.

(** ** Readback of an orphaned invocation *)

(** [_complete_idempotency_from_history] *)
Definition complete_idempotency_from_history (now : Z) (invocation : loc) : rt_m unit :=
  i ← st (load_invocation invocation);
  match i_idempotencyKeyHash i with
  | None => mret tt
  | Some key_hash =>
      pending ← gets (λ rt, is_pending key_hash (rt_store rt));
      if negb pending then mret tt
      else
        events ← gets (λ rt, project_adk <$>
          read_invocation (i_appName i, i_userId i, i_sessionId i) (i_id i) (-1) (rt_store rt));
        st (complete now key_hash
          (Some (PDict [("events", PList (PDict <$> events));
                        ("idempotency_expires_at_ms", opt_int_val (i_idempotencyExpiresAtMs i));
                        ("invocation_id", PStr (i_id i)); ("session_id", PStr (i_sessionId i))])))
  end.

(** [self.store.get_invocation(invocation_id)], [None] or of another session: not found. *)
Definition find_invocation (session_id invocation_id : string) : rt_m loc :=
  found ← st (get_invocation invocation_id);
  match found with
  | None => raise (InvocationNotFoundError invocation_id)
  | Some l =>
      i ← st (load_invocation l);
      if bool_decide (i_sessionId i = session_id) then mret l else raise (InvocationNotFoundError invocation_id)
  end.

(** The turn, session and harness a forced terminal needs, or not found. *)
Definition terminal_parties (session_id invocation_id : string) (key : SessionKey) (i : InvocationRecord)
    : rt_m (loc * loc * HarnessRecord) :=
  turn ← st (get_turn (i_turnId i));
  session ← st (get_session key);
  app ← gets (λ rt, get_harness (i_appName i) (rt_store rt));
  match turn, session, app with
  | Some turn, Some session, Some app =>
      t ← st (load_turn turn);
      if bool_decide (t_invocationId t = i_id i) && bool_decide (t_sessionId t = session_id)
      then mret (turn, session, app) else raise (InvocationNotFoundError invocation_id)
  | _, _, _ => raise (InvocationNotFoundError invocation_id)
  end.

(** [session.state.get("status") in {...}] *)
Definition superseded (statuses : list string) (r : SessionRecord) : result bool :=
  in_str_set (pget "status" (s_state r)) statuses.

(** The part of [reconcile_invocation_readback] that runs under the lease. *)
Definition reconcile_leased (now : Z) (session_id invocation_id : string) (key : SessionKey) (holder : string) (token : Z)
    : rt_m loc :=
  invocation ← find_invocation session_id invocation_id;
  i ← st (load_invocation invocation);
  if negb (bool_decide (i_status i = "running")) then
    _ ← complete_idempotency_from_history now invocation; mret invocation
  else
    active ← get_active invocation_id;
    match active with
    | Some _ => mret invocation
    | None =>
        p ← terminal_parties session_id invocation_id key i;
        let '(turn, session, app) := p in
        t ← st (load_turn turn);
        r ← st (load_session session);
        let reason := "sidecar_restart_execution_lost" in
        was_superseded ← lift (superseded TERMINAL_STATUSES r);
        _ ← persist_terminal_event now (terminal_event "incomplete" i t (Some reason) (Some reason) (Some true))
              "incomplete" (h_id app) invocation turn session key holder token (negb was_superseded);
        _ ← complete_idempotency_from_history now invocation;
        mret invocation
    end.

(** [reconcile_invocation_readback]; [hex] completes the lease holder's name. *)
Definition reconcile_invocation_readback (now : Z) (hex session_id invocation_id : string) : rt_m loc :=
  invocation ← find_invocation session_id invocation_id;
  i ← st (load_invocation invocation);
  if negb (bool_decide (i_status i = "running")) then
    _ ← complete_idempotency_from_history now invocation; mret invocation
  else
    active ← get_active invocation_id;
    match active with
    | Some _ => mret invocation
    | None =>
        let key := (i_appName i, i_userId i, session_id) in
        let holder := "readback_" +:+ hex in
        lease ← (catch (l ← st (acquire_lease now key holder (cf_lease_ttl_ms cfg)); mret (Some l))
                   (λ e, match e with LeaseConflictError _ _ => mret None | _ => raise e end) : rt_m (option Lease));
        match lease with
        | None => mret invocation
        | Some lease =>
            finally (reconcile_leased now session_id invocation_id key holder (l_token lease))
              (st (release_lease key holder (Some (l_token lease))))
        end
    end.

(** ** Pause *)

(** Where [pause_invocation] is: about to take the control lock, awaiting the adapter's
    [cancel_turn] under it, or awaiting the turn's terminal status. *)
Inductive pause_pc :=
  | PauseLock (invocation session active : loc)
  | PauseCancel (invocation active : loc)
  | PauseWait (active : loc)
  | PauseReturn (invocation : loc).

(** Up to the lock. *)
Definition pause_start (session_id invocation_id : string) : rt_m pause_pc :=
  invocation ← find_invocation session_id invocation_id;
  i ← st (load_invocation invocation);
  if bool_decide (i_status i = "interrupted") then mret (PauseReturn invocation)
  else if negb (bool_decide (i_status i = "running")) then raise (InvocationNotRunningError invocation_id)
  else
    active ← get_active invocation_id;
    match active with
    | None => raise (InvocationNotRunningError invocation_id)
    | Some active =>
        session ← st (get_session (i_appName i, i_userId i, session_id));
        match session with
        | None => raise (InvocationNotFoundError invocation_id)
        | Some session => mret (PauseLock invocation session active)
        end
    end.

(** With the lock taken, up to the adapter call or the wait. *)
Definition pause_locked (now : Z) (invocation_id : string) (invocation session active : loc) : rt_m pause_pc :=
  a ← load_active active;
  if bool_decide (at_control_intent a = Some "cancel") then raise (InvocationNotRunningError invocation_id)
  else
    _ ← assign_active active (λ a, a <| at_control_intent := Some "pause" |>);
    _ ← st (assign_session session (set_control "pausing" false None));
    _ ← st (put_session now session);
    if at_interrupt_dispatched a then mret (PauseWait active)
    else
      _ ← assign_active active (λ a, a <| at_interrupt_dispatched := true |> <| at_locked := true |>);
      mret (PauseCancel invocation active).

(** The [except] clause of the adapter call: put the session back and report. *)
Definition undo_interrupt (now : Z) (from_state session_id invocation_id : string) (invocation active : loc) {A} : rt_m A :=
  _ ← assign_active active (λ a, a <| at_interrupt_dispatched := false |> <| at_control_intent := None |>
                                   <| at_locked := false |>);
  i ← st (load_invocation invocation);
  current ← st (get_session (i_appName i, i_userId i, session_id));
  _ ← (match current with
       | Some current_session =>
           r ← st (load_session current_session);
           if bool_decide (s_controlState r = from_state) then
             _ ← st (assign_session current_session (λ r, r <| s_controlState := "running" |>));
             _ ← st (put_session now current_session); mret tt
           else mret tt
       | None => mret tt
       end);
  raise (AdapterTurnError invocation_id).

(** The adapter's answer to [cancel_turn]: its status, or an exception. *)
Definition interrupt_ok (reply : result string) : bool :=
  match reply with Ok status => negb (bool_decide (status = "unsupported")) | Raise _ => false end.

Definition pause_replied (now : Z) (session_id invocation_id : string) (invocation active : loc) (reply : result string)
    : rt_m pause_pc :=
  if interrupt_ok reply then
    _ ← assign_active active (λ a, a <| at_locked := false |>);
    mret (PauseWait active)
  else undo_interrupt now "pausing" session_id invocation_id invocation active.

(** After [await asyncio.shield(active.terminal_status)]. *)
Definition pause_finish (invocation_id terminal_status : string) : rt_m loc :=
  current ← st (get_invocation invocation_id);
  match current with
  | None => raise (InvocationNotFoundError invocation_id)
  | Some current =>
      if bool_decide (terminal_status = "interrupted") then mret current
      else if bool_decide (terminal_status = "control_failed") then raise (AdapterTurnError invocation_id)
      else raise (InvocationNotRunningError invocation_id)
  end.

(** ** Cancel *)

Inductive cancel_pc :=
  | CancelLock (invocation active : loc)
  | CancelCancel (invocation active : loc)
  | CancelReturn (invocation : loc).

(** The forced cancellation of an invocation no task drives, under the lease. *)
Definition cancel_leased (now : Z) (session_id invocation_id : string) (key : SessionKey) (holder : string) (token : Z)
    : rt_m loc :=
  invocation ← find_invocation session_id invocation_id;
  i ← st (load_invocation invocation);
  if negb (bool_decide (i_status i = "running")) then mret invocation
  else
    p ← terminal_parties session_id invocation_id key i;
    let '(turn, session, app) := p in
    t ← st (load_turn turn);
    r ← st (load_session session);
    was_superseded ← lift (superseded ["completed"; "failed"; "incomplete"; "cancelled"] r);
    _ ← persist_terminal_event now (terminal_event "cancelled" i t None None None) "cancelled" (h_id app)
          invocation turn session key holder token (negb was_superseded);
    mret invocation.

(** Up to the lock, or to the end when no task drives the invocation. *)
Definition cancel_start (now : Z) (hex session_id invocation_id : string) : rt_m cancel_pc :=
  invocation ← find_invocation session_id invocation_id;
  i ← st (load_invocation invocation);
  let key := (i_appName i, i_userId i, session_id) in
  if bool_decide (i_status i = "interrupted") then
    session ← st (get_session key);
    _ ← (match session with
         | Some session =>
             r ← st (load_session session);
             if s_supportsResume r && bool_decide (s_resumableInvocationId r = Some invocation_id) then
               _ ← st (assign_session session (set_control "cancelled" false None));
               _ ← st (put_session now session); mret tt
             else mret tt
         | None => mret tt
         end);
    mret (CancelReturn invocation)
  else if negb (bool_decide (i_status i = "running")) then mret (CancelReturn invocation)
  else
    active ← get_active invocation_id;
    match active with
    | Some active => mret (CancelLock invocation active)
    | None =>
        let holder := "cancel_" +:+ hex in
        lease ← catch (st (acquire_lease now key holder (cf_lease_ttl_ms cfg)))
                  (λ e, match e with LeaseConflictError _ _ => raise (SessionBusyError session_id) | _ => raise e end);
        result ← finally (cancel_leased now session_id invocation_id key holder (l_token lease))
                   (st (release_lease key holder (Some (l_token lease))));
        mret (CancelReturn result)
    end.

(** The read of the current record that ends the call. *)
Definition cancel_readback (invocation_id : string) : rt_m cancel_pc :=
  current ← st (get_invocation invocation_id);
  match current with
  | None => raise (InvocationNotFoundError invocation_id)
  | Some current => mret (CancelReturn current)
  end.

(** With the lock taken. *)
Definition cancel_locked (now : Z) (session_id invocation_id : string) (invocation active : loc) : rt_m cancel_pc :=
  _ ← assign_active active (λ a, a <| at_control_intent := Some "cancel" |>);
  i ← st (load_invocation invocation);
  session ← st (get_session (i_appName i, i_userId i, session_id));
  _ ← (match session with
       | Some session =>
           _ ← st (assign_session session (set_control "cancelling" false None));
           _ ← st (put_session now session); mret tt
       | None => mret tt
       end);
  a ← load_active active;
  if at_interrupt_dispatched a then cancel_readback invocation_id
  else
    _ ← assign_active active (λ a, a <| at_interrupt_dispatched := true |> <| at_locked := true |>);
    mret (CancelCancel invocation active).

Definition cancel_replied (now : Z) (session_id invocation_id : string) (invocation active : loc) (reply : result string)
    : rt_m cancel_pc :=
  if interrupt_ok reply then
    _ ← assign_active active (λ a, a <| at_locked := false |>);
    cancel_readback invocation_id
  else undo_interrupt now "cancelling" session_id invocation_id invocation active.

(** ** Continue *)

(** [RunRequest] *)
Record RunRequest := mkRunRequest {
  rq_app : HarnessRecord;
  rq_user_id : string;
  rq_message : pydict;
  rq_session_id : option string;
  rq_timeout_seconds : option spec_float;
  rq_sandbox : pydict;
  rq_policy : pydict;
  rq_effective_profile : option pydict;
  rq_principal_id : string;
  rq_continued_from_invocation_id : option string;
  rq_continued_from_turn_id : option string;
}.

(** [dict(v or {})] *)
Definition dict_or_empty (v : pyval) : result pydict := dict_of (py_or v (PDict [])).

(** [continue_stream]: validate the source and build the request that is then driven. *)
Definition continue_request (session_id invocation_id : string) (instruction : option string) : rt_m RunRequest :=
  source ← find_invocation session_id invocation_id;
  i ← st (load_invocation source);
  session ← st (get_session (i_appName i, i_userId i, session_id));
  ok ← (match session with
        | None => mret false
        | Some session =>
            r ← st (load_session session);
            mret (bool_decide (i_status i = "interrupted") && bool_decide (s_controlState r = "paused") &&
                  s_supportsResume r && bool_decide (s_resumableInvocationId r = Some (i_id i)))
        end : rt_m bool);
  if negb ok then raise (InvocationNotResumableError invocation_id)
  else
    app ← gets (λ rt, get_harness (i_appName i) (rt_store rt));
    match app with
    | None => raise (InvocationNotFoundError invocation_id)
    | Some app =>
        sandbox ← lift (dict_or_empty (pget "sandbox" (i_executionContext i)));
        policy ← lift (dict_or_empty (pget "policy" (i_executionContext i)));
        mret (mkRunRequest app (i_userId i)
          [("role", PStr "user");
           ("parts", PList match instruction with None => [] | Some t => [PDict [("text", PStr t)]] end)]
          (Some session_id) None sandbox policy None (str_or (pget "principalId" (i_executionContext i)) "")
          (Some (i_id i)) (Some (i_turnId i)))
    end.

End sessions.
