(* ===== verification/ProxyRuntime.v ===== *)
(** * Session capabilities of the model proxy (haas/model_proxy/runtime.py, app.py)

    A session's runs share one runtime token, tied to the session, its harness and its provider
    route.  [begin] hands it out, [refresh] and [apply_refresh] rotate it, [revoke_session] ends
    it, and the loopback endpoint authenticates it, recovering expired and restarted
    tokens.  Capabilities, routes and refresh marks are keyed by the bare session id, as in the code. *)

From Stdlib Require Import Ascii.
From S2P Require Import Prelude Errors Dict PyVal Records Store SessionStore Policy Encoding RuntimeTokens ModelRoute.
From S2P Require Import Redact ToolBridge ModelProxy SessionPolicy Sessions.

#[local] Open Scope string_scope.
#[local] Open Scope list_scope.
#[local] Open Scope Z_scope.

(** [_SessionCapability] *)
Record SessionCapability := mkCapability {
  cp_session_id : string; cp_harness_id : string; cp_provider_scope_key : string; cp_active_token : string;
  cp_active_generation : Z; cp_route : pydict; cp_allowed_models : list string;
  cp_grace_token_fingerprints : list string;
}.
#[export] Instance eta_capability : Eta SessionCapability := λ c,
  mkCapability (cp_session_id c) (cp_harness_id c) (cp_provider_scope_key c) (cp_active_token c)
    (cp_active_generation c) (cp_route c) (cp_allowed_models c) (cp_grace_token_fingerprints c).

Record RuntimeModelProxy := mkRuntimeProxy {
  rp_proxy : ModelProxy;
  rp_routes : dict string pydict;
  rp_capabilities : dict string SessionCapability;
  rp_refresh_attempted : list (string * Z);
  rp_base_url : string;
  rp_resolver_available : bool;
  rp_cleanup_margin_seconds : Z;
  rp_store : option MemoryStore;
}.
#[export] Instance eta_runtime_proxy : Eta RuntimeModelProxy := λ r,
  mkRuntimeProxy (rp_proxy r) (rp_routes r) (rp_capabilities r) (rp_refresh_attempted r) (rp_base_url r)
    (rp_resolver_available r) (rp_cleanup_margin_seconds r) (rp_store r).

Notation rp_m := (M RuntimeModelProxy).

Definition rp_tokens (r : RuntimeModelProxy) : RuntimeTokenManager := px_tokens (rp_proxy r).
Definition on_proxy {A} (m : proxy_m A) : rp_m A := zoom rp_proxy (λ p r, r <| rp_proxy := p |>) m.
Definition on_rp_tokens {A} (m : tokens_m A) : rp_m A := on_proxy (on_tokens m).

(** A store call when a store is configured. *)
Definition on_store (m : store_m unit) : rp_m unit := λ r,
  match rp_store r with
  | None => (r, Ok tt)
  | Some s => let (s', res) := m s in (r <| rp_store := Some s' |>, res)
  end.

(** ** The stored capability summary *)

(** [store.list_sessions()], with the objects it refers to. *)
Definition listed_sessions (s : MemoryStore) : list (loc * SessionRecord) :=
  py_sorted (λ x y : loc * SessionRecord, session_ge x.2 y.2)
    (omap (λ l : loc, (λ r, (l, r)) <$> st_session_objs s !! l) (dvalues (st_sessions s))).

Section summary.
Context `{Sha256}.

(** [_persist_capability_summary_for_session] *)
Definition persist_capability_summary (now : Z) (session_id provider_scope_key token : string) (generation : Z) : rp_m unit :=
  on_store (λ s,
    match List.find (λ x, bool_decide (s_id x.2 = session_id)) (listed_sessions s) with
    | None => (s, Ok tt)
    | Some (l, session) =>
        let summary := PDict [("providerScopeKey", PStr provider_scope_key); ("activeGeneration", PInt generation);
                              ("activeTokenFingerprint", PStr (fingerprint token))] in
        (_ ← assign_session l (λ o, o <| s_state := dset "modelProxy" summary (s_state session) |>);
         _ ← put_session now l; mret tt) s
    end).

(** [_stored_token_fingerprints]: the first session of that id whose summary is a dictionary. *)
Fixpoint first_summary (session_id : string) (sessions : list (loc * SessionRecord)) : list string :=
  match sessions with
  | [] => []
  | (_, session) :: sessions' =>
      if negb (bool_decide (s_id session = session_id)) then first_summary session_id sessions'
      else match pget "modelProxy" (s_state session) with
           | PDict d => match pget "activeTokenFingerprint" d with PStr f => [f] | _ => [] end
           | _ => first_summary session_id sessions'
           end
  end.

Definition stored_token_fingerprints (session_id : string) (r : RuntimeModelProxy) : list string :=
  match rp_store r with None => [] | Some s => first_summary session_id (listed_sessions s) end.

(** [_clear_capability_summary] *)
Fixpoint clear_summaries (now : Z) (session_id : string) (sessions : list (loc * SessionRecord)) : store_m unit :=
  match sessions with
  | [] => mret tt
  | (l, session) :: sessions' =>
      if negb (bool_decide (s_id session = session_id)) then clear_summaries now session_id sessions'
      else
        _ ← assign_session l (λ o, o <| s_state := ddel "modelProxy" (s_state session) |>);
        _ ← put_session now l;
        clear_summaries now session_id sessions'
  end.

Definition clear_capability_summary (now : Z) (session_id : string) : rp_m unit :=
  on_store (λ s, clear_summaries now session_id (listed_sessions s) s).

End summary.

(** ** Routes, scopes and revocation *)

Definition route (session_id : string) (r : RuntimeModelProxy) : option pydict := dget session_id (rp_routes r).

Section runtime.
Context `{Sha256} `{PyRepr} `{ScopeDigest}.

(** [scope]: what a token that the table does not hold may be adopted as. *)
Definition session_scope (now : Z) (session_id token : string) (r : RuntimeModelProxy) : option RuntimeTokenScope :=
  match dget session_id (rp_capabilities r) with
  | None => None
  | Some capability =>
      if bool_decide (cp_active_token capability = token) ||
         bool_decide (fingerprint token ∈ cp_grace_token_fingerprints capability ++ stored_token_fingerprints session_id r)
      then Some (mkScope "model_proxy" (cp_session_id capability) "" (cp_harness_id capability)
                   (cp_provider_scope_key capability) (cp_active_generation capability) now
                   (cp_allowed_models capability) 0)
      else None
  end.

Definition set_route (session_id : string) (d : pydict) : rp_m unit :=
  modify (λ r, r <| rp_routes := dset session_id d (rp_routes r) |>).
Definition set_capability (session_id : string) (c : SessionCapability) : rp_m unit :=
  modify (λ r, r <| rp_capabilities := dset session_id c (rp_capabilities r) |>).

(** [RuntimeModelProxy.revoke_session] *)
Definition revoke_proxy_session (now : Z) (session_id : string) : rp_m unit :=
  _ ← on_rp_tokens (revoke_session session_id);
  _ ← modify (λ r, r <| rp_routes := ddel session_id (rp_routes r) |>
                     <| rp_capabilities := ddel session_id (rp_capabilities r) |>
                     <| rp_refresh_attempted := keep (λ k, negb (bool_decide (k.1 = session_id))) (rp_refresh_attempted r) |>);
  clear_capability_summary now session_id.

(** ** begin *)

(** [int(startedAtMs + (min(float(timeout or 86400), 86400) + margin) * 1000)] *)
Definition capability_expiry (started : Z) (timeout : option spec_float) (margin : Z) : Z :=
  let day := float_of_Z 86400 in
  let t := match timeout with Some ((S754_zero _)) | None => day | Some f => f end in
  let t := py_min t day in
  float_trunc (float_add (float_of_Z started) (float_mul (float_add t (float_of_Z margin)) (float_of_Z 1000))).

(** [profile["provider"]] as the frozen route. *)
Definition profile_provider (profile : pydict) : result (option pydict) :=
  match dget "provider" profile with
  | None => Raise (KeyError "provider")
  | Some (PDict d) => Ok (Some d)
  | Some PNone => Ok None
  | Some _ => Raise AttributeError
  end.

Record credentials := mkCredentials { cr_baseUrl : string; cr_token : string }.

(** What [begin] holds while it waits for the resolver. *)
Record begin_pending := mkPending {
  bp_session_id : string; bp_route : ModelRoute; bp_scope : RuntimeTokenScope; bp_expires_at_ms : Z;
}.

(** [begin] up to its await: the credentials of a live capability, or what it asks the resolver for. *)
Definition begin_start (now : Z) (harness : HarnessRecord) (invocation : InvocationRecord) (profile : pydict)
    : rp_m (credentials + begin_pending) :=
  let sid := i_sessionId invocation in
  r0 ← gets id;
  _ ← guard_or (negb (bool_decide (rp_base_url r0 = "")) && rp_resolver_available r0)
        (SecretResolutionError "model proxy unavailable");
  frozen ← lift (profile_provider profile);
  rt ← lift (resolve_model_route harness None frozen);
  _ ← guard_or (bool_decide (mr_apiType rt = "responses")) (SecretResolutionError "provider API unsupported");
  let key := provider_scope_key (route_asdict rt) in
  let expires := capability_expiry (i_startedAtMs invocation) (i_timeoutSeconds invocation) (rp_cleanup_margin_seconds r0) in
  let fresh := mkPending sid rt (mkScope "model_proxy" sid "" (h_id harness) key 1 now [] 0) expires in
  match dget sid (rp_capabilities r0) with
  | Some capability =>
      if bool_decide (cp_harness_id capability = h_id harness) && bool_decide (cp_provider_scope_key capability = key) then
        _ ← set_route sid (route_asdict rt);
        _ ← set_capability sid (capability <| cp_route := route_asdict rt |>);
        _ ← on_rp_tokens (renew now (cp_active_token capability) (Some expires));
        mret (inl (mkCredentials (rp_base_url r0) (cp_active_token capability)))
      else
        _ ← revoke_proxy_session now sid;
        mret (inr fresh)
  | None => mret (inr fresh)
  end.

(** [begin] after the resolver answered. *)
Definition begin_finish (now : Z) (nonce : string) (b : begin_pending) (resolved : result string) : rp_m credentials :=
  let sid := bp_session_id b in
  let sc := bp_scope b in
  _ ← lift resolved;
  token ← on_rp_tokens (issue now now nonce sc (Some (bp_expires_at_ms b)));
  _ ← set_route sid (route_asdict (bp_route b));
  grace ← gets (stored_token_fingerprints sid);
  _ ← set_capability sid
        (mkCapability sid (ts_harnessId sc) (ts_providerScopeKey sc) token (ts_generation sc) (route_asdict (bp_route b)) [] grace);
  _ ← persist_capability_summary now sid (ts_providerScopeKey sc) token 1;
  _ ← modify (λ r, r <| rp_refresh_attempted := keep (λ k, negb (bool_decide (k = (sid, ts_generation sc)))) (rp_refresh_attempted r) |>);
  url ← gets rp_base_url;
  mret (mkCredentials url token).

(** ** Rotation *)

(** [refresh] *)
Definition refresh_token (now now' : Z) (nonce : string) (invocation : InvocationRecord) (token : string) : rp_m credentials :=
  let sid := i_sessionId invocation in
  sc ← on_rp_tokens (token_scope now token true);
  capability ← gets (λ r, dget sid (rp_capabilities r));
  let key := (sid, ts_generation sc) in
  attempted ← gets (λ r, bool_decide (key ∈ rp_refresh_attempted r));
  _ ← guard_or (negb attempted) (RuntimeTokenError "refresh_already_attempted");
  match capability with
  | None => raise (RuntimeTokenError "invalid_token")
  | Some capability =>
      _ ← guard_or (bool_decide (ts_sessionId sc = sid) && bool_decide (cp_active_token capability = token) &&
                    bool_decide (ts_harnessId sc = cp_harness_id capability) &&
                    bool_decide (ts_providerScopeKey sc = cp_provider_scope_key capability))
            (RuntimeTokenError "invalid_token");
      _ ← modify (λ r, r <| rp_refresh_attempted := rp_refresh_attempted r ++ [key] |>);
      rt ← gets (route sid);
      _ ← guard_or (is_some rt) (RuntimeTokenError "invalid_token");
      let generation := cp_active_generation capability + 1 in
      let replacement_scope := mkScope "model_proxy" (ts_sessionId sc) "" (ts_harnessId sc) (ts_providerScopeKey sc)
                                 generation now (ts_allowedModels sc) 0 in
      ttl ← gets (λ r, ttl_ms (rp_tokens r));
      replacement ← on_rp_tokens (issue now now' nonce replacement_scope (Some (Z.max (ts_expiresAtMs sc) (now' + ttl))));
      _ ← set_capability sid (capability <| cp_active_token := replacement |> <| cp_active_generation := generation |>
                                <| cp_allowed_models := ts_allowedModels replacement_scope |>);
      _ ← persist_capability_summary now' sid (ts_providerScopeKey sc) replacement generation;
      url ← gets rp_base_url;
      mret (mkCredentials url replacement)
  end.

(** [apply_refresh] *)
Definition apply_refresh (now : Z) (invocation : InvocationRecord) (previous_token replacement_token : string) : rp_m unit :=
  let sid := i_sessionId invocation in
  _ ← guard_or (negb (bool_decide (previous_token = replacement_token))) (RuntimeTokenError "invalid_token");
  previous ← on_rp_tokens (validate now previous_token);
  replacement ← on_rp_tokens (validate now replacement_token);
  _ ← guard_or (bool_decide (ts_audience replacement = ts_audience previous) &&
                bool_decide (ts_sessionId replacement = ts_sessionId previous) &&
                bool_decide (ts_harnessId replacement = ts_harnessId previous) &&
                bool_decide (ts_providerScopeKey replacement = ts_providerScopeKey previous) &&
                bool_decide (ts_allowedModels replacement = ts_allowedModels previous) &&
                bool_decide (ts_sessionId replacement = sid))
        (RuntimeTokenError "invalid_token");
  capability ← gets (λ r, dget sid (rp_capabilities r));
  _ ← guard_or (match capability with Some c => bool_decide (cp_active_token c = replacement_token) | None => false end)
        (RuntimeTokenError "invalid_token");
  on_rp_tokens (revoke previous_token).

(** ** The loopback endpoint *)

(** [_validate_provider_scope] against a stored route, and against a resolved one. *)
Definition validate_provider_scope (sc : RuntimeTokenScope) (rt : option pydict) : result unit :=
  match rt with
  | Some d => ensure (bool_decide (ts_providerScopeKey sc = "") || bool_decide (provider_scope_key d = ts_providerScopeKey sc))
                (ModelProxyError "invalid_token")
  | None => Ok tt
  end.

Definition scope_fields (rt : ModelRoute) : pydict :=
  [("providerId", PStr (mr_providerId rt)); ("name", PStr (mr_name rt)); ("baseUrl", PStr (mr_baseUrl rt));
   ("wireApi", PStr (mr_wireApi rt)); ("apiType", PStr (mr_apiType rt)); ("credentialRef", PStr (mr_credentialRef rt))].

(** [_authenticate_with_recovery] *)
Definition authenticate_with_recovery (now : Z) (latency : pyval) (authorization : string)
    : rp_m (RuntimeTokenScope * string) :=
  catch (sc ← on_proxy (authenticate now latency authorization); mret (sc, authorization)) (λ exc,
    let token := bearer_token authorization in
    sc ← match exc with
         | ModelProxyError msg =>
             if bool_decide (msg = "token_expired") then on_proxy (recover_expired_scope now token)
             else if bool_decide (msg = "invalid_token") then
               sid ← lift (recover_session_id token);
               sc ← gets (λ r, sid ≫= λ sid, session_scope now sid token r);
               match sc with Some sc => mret sc | None => raise exc end
             else raise exc
         | _ => raise exc
         end;
    rt ← gets (route (ts_sessionId sc));
    _ ← guard_or (is_some rt) exc;
    _ ← lift (validate_provider_scope sc rt);
    sc ← catch (on_proxy (renew_token now token)) (λ e,
           match e with ModelProxyError _ => on_proxy (adopt_token now now token sc) | _ => raise e end);
    mret (sc, "Bearer " +:+ token)).

End runtime.

(** ** Requests *)

Definition INTERNAL_ERROR_CODES : dict string string :=
  [("invalid_token", "haas_model_proxy_token_invalid"); ("token_expired", "haas_model_proxy_token_expired");
   ("invalid_credential", "haas_model_proxy_credential_invalid"); ("harness_not_found", "haas_model_proxy_harness_not_found");
   ("model_not_allowed", "haas_model_proxy_model_not_allowed"); ("provider_url_not_allowed", "haas_model_proxy_url_not_allowed");
   ("provider_api_unsupported", "haas_model_proxy_api_unsupported");
   ("invocation_route_unavailable", "haas_model_proxy_route_unavailable"); ("invalid_input", "haas_model_proxy_invalid_input");
   ("provider_unavailable", "haas_model_proxy_provider_unavailable"); ("provider_stream_invalid", "haas_model_proxy_stream_invalid")].

Definition AUTH_ERROR_CODES : list string := ["invalid_token"; "token_expired"].

(** What the endpoint answers: an error document, the provider's answer, or its stream. *)
Inductive proxy_answer :=
  | AnswerError (status : Z) (content : pydict)
  | AnswerData (data : pydict)
  | AnswerStream (h : stream_handle).

(** The [except] clauses of [_handle_responses]; [None] for an exception that leaves the handler. *)
Definition error_answer (e : exn) : option proxy_answer :=
  match e with
  | ModelProxyError error =>
      Some (if starts_with "provider HTTP " error then AnswerError 400 [("error", PStr error)]
            else
              let bare := (partition ":"%char error).1 in
              match dget bare INTERNAL_ERROR_CODES with
              | None => AnswerError 502 [("error", PStr "haas_model_proxy_internal_error")]
              | Some mapped =>
                  if bool_decide (bare ∈ AUTH_ERROR_CODES) then
                    AnswerError 401 [("error", PDict [("type", PStr "authentication_error"); ("code", PStr mapped);
                      ("safeReason", PStr (removeprefix "haas_" mapped)); ("retryable", PBool true)])]
                  else AnswerError 400 [("error", PStr mapped)]
              end)
  | ModelRouteError _ _ | SecretResolutionError _ => Some (AnswerError 502 [("error", PStr "haas_provider_error")])
  | _ => None
  end.

Section handler.
Context `{Sha256} `{PyRepr} `{ScopeDigest} `{RegexEngine} `{PathResolver} `{NetLib} `{UrlExtras} `{FloatText} `{JsonLib}.

(** [_lookup_harness] *)
Definition lookup_harness (harness_id : string) (s : MemoryStore) : result HarnessRecord :=
  match get_harness harness_id s with
  | Some h => if bool_decide (h_status h = "active") then Ok h else Raise (ModelProxyError "harness_not_found")
  | None => Raise (ModelProxyError "harness_not_found")
  end.

(** The policy resolver that [lifespan] installs: the route's own endpoint is the allowlist. *)
Definition route_policy (policy_id : string) (rt : ModelRoute) : result EffectivePolicy :=
  compile policy_id (mkPolicyCompileInput (mkPolicyScope "" "" "" "")
    [mkPolicyLayer "manager" None (Some (mkNetworkPolicy "allow" [mr_baseUrl rt])) None None false]).

(** The body of [_handle_responses]; [registry] is the store behind the harness registry. *)
Definition serve_responses (now : Z) (latency latency' : pyval) (policy_id : string) (registry : MemoryStore)
    (authorization : string) (body : pyval) (credential : result string)
    (replies : nat → http_reply) (jitter : nat → spec_float) : rp_m proxy_answer :=
  sa ← authenticate_with_recovery now latency authorization;
  let '(sc, authorization) := sa in
  match body with
  | PDict b =>
      harness ← lift (lookup_harness (ts_harnessId sc) registry);
      frozen ← gets (route (ts_sessionId sc));
      _ ← guard_or (is_some frozen) (ModelProxyError "invocation_route_unavailable");
      rt ← lift (resolve_model_route harness None frozen);
      _ ← lift (validate_provider_scope sc (Some (scope_fields rt)));
      policy ← lift (route_policy policy_id rt);
      _ ← guard_or (bool_decide (mr_apiType rt = "responses")) (ModelProxyError "provider_api_unsupported");
      match pget "stream" b with
      | PBool true =>
          h ← on_proxy (stream_responses now latency latency' rt b authorization policy credential replies jitter);
          mret (AnswerStream h)
      | _ =>
          du ← on_proxy (proxy_responses now latency latency' rt b authorization policy credential replies jitter);
          mret (AnswerData du.1)
      end
  | _ => raise (ModelProxyError "invalid_input")
  end.

Definition handle_responses (now : Z) (latency latency' : pyval) (policy_id : string) (registry : MemoryStore)
    (authorization : string) (body : pyval) (credential : result string)
    (replies : nat → http_reply) (jitter : nat → spec_float) : rp_m proxy_answer :=
  catch (serve_responses now latency latency' policy_id registry authorization body credential replies jitter) (λ e,
    match error_answer e with Some a => mret a | None => raise e end).

End handler.

(** ** White space around a token *)

Lemma lstrip_head s : match lstrip s with String a _ => is_space a = false | EmptyString => True end.
Proof. induction s as [|a s IH]; cbn; [done|]. by destruct (is_space a) eqn:E. Qed.

Lemma lstrip_id s : match s with String a _ => is_space a = false | EmptyString => True end → lstrip s = s.
Proof. destruct s as [|a s]; [done|]. cbn. by intros ->. Qed.

Lemma rstrip_cons a s : is_space a = false → rstrip (String a s) = String a (rstrip s).
Proof. intros Ha. cbn. destruct (rstrip s); [by rewrite Ha|done]. Qed.

Lemma rstrip_idemp s : rstrip (rstrip s) = rstrip s.
Proof.
  induction s as [|a s IH]; cbn; [done|]. destruct (rstrip s) as [|b t] eqn:E.
  - destruct (is_space a) eqn:Ea; [done|]. cbn. by rewrite Ea.
  - change (rstrip (String a (String b t))) with
      (match rstrip (String b t) with EmptyString => if is_space a then "" else String a "" | t => String a t end).
    by rewrite IH.
Qed.

Lemma rstrip_app s t : rstrip t = t → t ≠ "" → rstrip (s +:+ t) = s +:+ t.
Proof.
  intros Ht Hne. induction s as [|a s IH]; [done|]. change (String a s +:+ t) with (String a (s +:+ t)). cbn [rstrip].
  rewrite IH. destruct (s +:+ t) eqn:E; [|done]. destruct s; [by destruct t|done].
Qed.

Lemma rstrip_solid s : str_forall (λ a, negb (is_space a)) s = true → rstrip s = s.
Proof.
  induction s as [|a s IH]; [done|]. cbn [str_forall]. intros [Ha Hs]%andb_true_iff. apply negb_true_iff in Ha.
  rewrite rstrip_cons by done. by rewrite IH.
Qed.

Lemma strip_idemp s : strip (strip s) = strip s.
Proof.
  unfold strip. pose proof (lstrip_head s) as Hh. destruct (lstrip s) as [|a t]; [done|].
  rewrite (rstrip_cons a t Hh). rewrite lstrip_id by done. by rewrite <-rstrip_cons, rstrip_idemp.
Qed.

Lemma bearer_token_strip auth : strip (bearer_token auth) = bearer_token auth.
Proof. unfold bearer_token. case_bool_decide; [done|apply strip_idemp]. Qed.

Lemma bearer_token_of token : strip token = token → bearer_token ("Bearer " +:+ token) = token.
Proof.
  intros Ht. unfold bearer_token. rewrite bool_decide_eq_false_2 by done. by rewrite removeprefix_app.
Qed.

(** ** The capability invariant *)

Section invariant.
Context `{Sha256} `{PyRepr} `{ScopeDigest}.

(** What the invariant is about: the tokens, the routes and the capabilities. *)
Definition core (r : RuntimeModelProxy) : dict string RuntimeTokenScope * dict string pydict * dict string SessionCapability :=
  (tm_tokens (rp_tokens r), rp_routes r, rp_capabilities r).

(** A token names the session of its scope, or no session; and reading it from a header gives it back. *)
Definition token_named (token : string) (sc : RuntimeTokenScope) : Prop :=
  (token_session_id token = Ok (Some (ts_sessionId sc)) ∨ token_session_id token = Ok None) ∧ strip token = token.

Definition capability_backed (tokens : dict string RuntimeTokenScope) (routes : dict string pydict)
    (sid : string) (c : SessionCapability) : Prop :=
  cp_session_id c = sid ∧
  (∃ sc, dget (cp_active_token c) tokens = Some sc ∧ ts_audience sc = "model_proxy" ∧ ts_sessionId sc = sid ∧
         ts_harnessId sc = cp_harness_id c ∧ ts_providerScopeKey sc = cp_provider_scope_key c ∧
         ts_generation sc = cp_active_generation c) ∧
  (∃ d, dget sid routes = Some d ∧ provider_scope_key d = cp_provider_scope_key c).

Definition core_inv (k : dict string RuntimeTokenScope * dict string pydict * dict string SessionCapability) : Prop :=
  dict_wf k.1.1 ∧ (∀ token sc, dget token k.1.1 = Some sc → token_named token sc) ∧
  (∀ sid c, dget sid k.2 = Some c → capability_backed k.1.1 k.1.2 sid c).

Definition proxy_inv (r : RuntimeModelProxy) : Prop := core_inv (core r).

(** A computation that leaves the core alone keeps the invariant. *)
Definition keeps_core {A} (m : rp_m A) : Prop := ∀ r, core (m r).1 = core r.

Lemma keeps_core_preserves {A} (m : rp_m A) : keeps_core m → preserves proxy_inv m.
Proof. intros Hm r Hr. unfold proxy_inv. by rewrite Hm. Qed.

Lemma on_store_core m : keeps_core (on_store m).
Proof. intros r. unfold on_store. destruct (rp_store r) as [s|]; [|done]. by destruct (m s). Qed.

Lemma gets_core {A} (f : RuntimeModelProxy → A) : keeps_core (gets f).
Proof. done. Qed.

Lemma bind_core {A B} (m : rp_m A) (f : A → rp_m B) : keeps_core m → (∀ a, keeps_core (f a)) → keeps_core (m ≫= f).
Proof.
  intros Hm Hf r. unfold mbind, M_bind. specialize (Hm r). destruct (m r) as [r' [a|e]]; [|done]. by rewrite Hf.
Qed.

Lemma on_proxy_core {A} (m : proxy_m A) : (∀ p, tm_tokens (px_tokens (m p).1) = tm_tokens (px_tokens p)) → keeps_core (on_proxy m).
Proof.
  intros Hm r. unfold on_proxy, zoom. specialize (Hm (rp_proxy r)). destruct (m (rp_proxy r)) as [p res]. cbn in *.
  unfold core, rp_tokens. cbn. by rewrite Hm.
Qed.

Lemma token_scope_tokens now token ae m : (token_scope now token ae m).1 = m.
Proof. unfold token_scope. destruct (dget token (tm_tokens m)); [|done]. by destruct (_ && _). Qed.

Lemma validate_tokens now token m : (validate now token m).1 = m.
Proof.
  unfold validate, mbind, M_bind. pose proof (token_scope_tokens now token true m) as Ht.
  destruct (token_scope now token true m) as [m' [sc|e]]; [|done]. cbn in Ht. subst m'.
  unfold guard_or. by destruct (negb (expired now sc)).
Qed.

Lemma on_tokens_core {A} (m : tokens_m A) : (∀ t, (m t).1 = t) → keeps_core (on_rp_tokens m).
Proof.
  intros Hm. apply on_proxy_core. intros p. unfold on_tokens, zoom. specialize (Hm (px_tokens p)).
  by destruct (m (px_tokens p)) as [t res]; cbn in *; subst.
Qed.

Lemma authenticate_tokens now lat auth p : px_tokens (authenticate now lat auth p).1 = px_tokens p.
Proof.
  assert (∀ ev f q, px_tokens (audit ev f q).1 = px_tokens q) as Hau by done.
  unfold authenticate, mbind at 1, M_bind, catch, on_tokens, zoom.
  pose proof (validate_tokens now (bearer_token auth) (px_tokens p)) as Hv.
  destruct (validate now (bearer_token auth) (px_tokens p)) as [t [sc|e]]; cbn in Hv; subst t.
  - destruct (negb (bool_decide (ts_audience sc = "model_proxy"))); done.
  - destruct e; try done. unfold mbind, M_bind, lift. by destruct (token_session_id (bearer_token auth)).
Qed.

Lemma authenticate_core now lat auth : keeps_core (on_proxy (authenticate now lat auth)).
Proof. apply on_proxy_core. intros p. by rewrite authenticate_tokens. Qed.

(** *** Writes *)

(** Adding or replacing one token keeps the backing of capabilities when its identity fields stay. *)
Definition same_grant (sc sc' : RuntimeTokenScope) : Prop :=
  ts_audience sc' = ts_audience sc ∧ ts_sessionId sc' = ts_sessionId sc ∧ ts_harnessId sc' = ts_harnessId sc ∧
  ts_providerScopeKey sc' = ts_providerScopeKey sc ∧ ts_generation sc' = ts_generation sc.

Lemma core_set_token tokens routes caps token sc :
  core_inv (tokens, routes, caps) → token_named token sc →
  (∀ old, dget token tokens = Some old → same_grant old sc) → core_inv (dset token sc tokens, routes, caps).
Proof.
  intros (Hw & Hn & Hc) Ht Hold. split_and!; cbn in *.
  - by apply dict_wf_dset.
  - intros t sc'. rewrite dget_dset. case_decide; [intros [= <-]; by subst|apply Hn].
  - intros sid c Hsid. destruct (Hc sid c Hsid) as (? & (sc' & Hsc & ? & ? & ? & ? & ?) & ?). split_and!; [done| |done].
    rewrite dget_dset. case_decide as Htok; [|by exists sc'].
    subst token. destruct (Hold sc' Hsc) as (? & ? & ? & ? & ?). exists sc. split_and!; congruence.
Qed.

(** Tokens that no capability uses may go. *)
Lemma core_drop_tokens tokens tokens' routes caps :
  core_inv (tokens, routes, caps) → dict_wf tokens' → (∀ t sc, dget t tokens' = Some sc → dget t tokens = Some sc) →
  (∀ sid c, dget sid caps = Some c → dget (cp_active_token c) tokens' = dget (cp_active_token c) tokens) →
  core_inv (tokens', routes, caps).
Proof.
  intros (Hw & Hn & Hc) Hw' Hsub Hact. split_and!; cbn in *; [done|by intros t sc ?%Hsub; apply Hn|].
  intros sid c Hsid. destruct (Hc sid c Hsid) as (? & Hsc & ?). split_and!; [done| |done]. by rewrite (Hact sid c Hsid).
Qed.

Lemma core_drop_session tokens routes caps sid :
  core_inv (tokens, routes, caps) → core_inv (tokens, ddel sid routes, ddel sid caps).
Proof.
  intros (Hw & Hn & Hc). split_and!; cbn in *; [done|done|].
  intros sid' c. rewrite dget_ddel. case_decide; [done|]. intros Hs. destruct (Hc sid' c Hs) as (? & ? & Hd).
  split_and!; [done..|]. by rewrite dget_ddel_ne.
Qed.

Lemma core_set_capability tokens routes caps sid c d :
  core_inv (tokens, routes, caps) → capability_backed tokens (dset sid d routes) sid c →
  core_inv (tokens, dset sid d routes, dset sid c caps).
Proof.
  intros (Hw & Hn & Hc) Hb. split_and!; cbn in *; [done|done|].
  intros sid' c'. rewrite dget_dset. case_decide; [intros [= <-]; by subst|]. intros Hs.
  destruct (Hc sid' c' Hs) as (? & ? & Hd). split_and!; [done..|]. by rewrite dget_dset_ne.
Qed.

(** *** Tokens made by the manager *)

Lemma token_session_id_issued nonce sc :
  token_session_id (token_for nonce sc) = Ok (Some (ts_sessionId sc)) ∨ token_session_id (token_for nonce sc) = Ok None.
Proof.
  destruct (decide (ts_sessionId sc = "")) as [E|Hne].
  - right. unfold token_session_id, token_for. rewrite E. change (rstrip_pad (urlsafe_b64encode "")) with "".
    rewrite starts_with_app, removeprefix_app. cbn [negb]. change ("" +:+ ?x) with x. change ("." +:+ ?x) with (String "."%char x).
    done.
  - unfold token_session_id, token_for. rewrite rstrip_b64encode, starts_with_app, removeprefix_app. cbn [negb].
    change ("." +:+ ?x) with (String "."%char x).
    rewrite partition_at by (apply b64raw_forall; intros x; by rewrite b64_char_not_dot).
    rewrite bool_decide_eq_false_2 by by apply b64raw_nonempty.
    rewrite has_space_ascii by (apply b64raw_forall, b64_char_no_space). cbn [orb].
    rewrite b64decode_roundtrip by done. destruct (utf8_decode (ts_sessionId sc)); [|by right].
    destruct (_ || _); auto.
Qed.

Definition clean_nonce (nonce : string) : Prop := nonce ≠ "" ∧ str_forall (λ a, negb (is_space a)) nonce = true.

Lemma token_for_strip nonce sc : clean_nonce nonce → strip (token_for nonce sc) = token_for nonce sc.
Proof.
  intros [Hne Hc]. unfold token_for, strip.
  assert (∀ x, lstrip (MODEL_PROXY_TOKEN_PREFIX +:+ x) = MODEL_PROXY_TOKEN_PREFIX +:+ x) as -> by reflexivity.
  rewrite !str_app_assoc. apply rstrip_app; [by apply rstrip_solid|done].
Qed.

Lemma token_for_named nonce sc sc' : clean_nonce nonce → ts_sessionId sc' = ts_sessionId sc → token_named (token_for nonce sc) sc'.
Proof. intros Hc Hs. split; [rewrite Hs; apply token_session_id_issued|by apply token_for_strip]. Qed.

(** A nonce that no token of the table carries yet. *)
Definition fresh_nonce (nonce : string) (r : RuntimeModelProxy) : Prop :=
  clean_nonce nonce ∧ ∀ sc, dget (token_for nonce sc) (tm_tokens (rp_tokens r)) = None.

(** The state with another token table. *)
Definition set_tokens (t : dict string RuntimeTokenScope) (r : RuntimeModelProxy) : RuntimeModelProxy :=
  r <| rp_proxy := (rp_proxy r) <| px_tokens := (rp_tokens r) <| tm_tokens := t |> |> |>.

Lemma set_tokens_same r : r <| rp_proxy := (rp_proxy r) <| px_tokens := rp_tokens r |> |> = r.
Proof. by destruct r as [[]]. Qed.

Lemma stamp_issued_grant now sc exp : same_grant sc ((stamp_issued now sc) <| ts_expiresAtMs := exp |>).
Proof. unfold stamp_issued. by destruct (ts_issuedAtMs sc =? 0). Qed.

Lemma stamp_token now nonce sc : token_for nonce (stamp_issued now sc) = token_for nonce sc.
Proof. unfold stamp_issued. by destruct (ts_issuedAtMs sc =? 0). Qed.

Lemma issue_run now now' nonce sc exp r :
  on_rp_tokens (issue now now' nonce sc (Some exp)) r =
  (set_tokens (dset (token_for nonce sc) ((stamp_issued now sc) <| ts_expiresAtMs := exp |>) (tm_tokens (rp_tokens r))) r,
   Ok (token_for nonce sc)).
Proof. rewrite <-(stamp_token now nonce sc). reflexivity. Qed.

Lemma renew_run now token exp r :
  on_rp_tokens (renew now token exp) r =
  match dget token (tm_tokens (rp_tokens r)) with
  | Some sc => let sc' := sc <| ts_expiresAtMs := expiry now exp (rp_tokens r) |> in
               (set_tokens (dset token sc' (tm_tokens (rp_tokens r))) r, Ok sc')
  | None => (r, Raise (RuntimeTokenError "invalid_token"))
  end.
Proof.
  unfold on_rp_tokens, on_proxy, on_tokens, zoom, renew, token_scope, mbind, M_bind. fold (rp_tokens r).
  destruct (dget token (tm_tokens (rp_tokens r))); [reflexivity|]. cbn. by rewrite set_tokens_same.
Qed.

Lemma renew_token_run now token r :
  on_proxy (renew_token now token) r =
  match dget token (tm_tokens (rp_tokens r)) with
  | Some sc => let sc' := sc <| ts_expiresAtMs := expiry now None (rp_tokens r) |> in
               (set_tokens (dset token sc' (tm_tokens (rp_tokens r))) r, Ok sc')
  | None => (r, Raise (ModelProxyError "invalid_token"))
  end.
Proof.
  pose proof (renew_run now token None r) as Hr. unfold on_rp_tokens, on_proxy, zoom in Hr.
  unfold on_proxy, zoom, renew_token, proxy_error, catch.
  destruct (on_tokens (renew now token None) (rp_proxy r)) as [p [sc|e]].
  - rewrite Hr. by destruct (dget token (tm_tokens (rp_tokens r))).
  - destruct (dget token (tm_tokens (rp_tokens r))); [done|]. injection Hr as Hp ->. cbn. by rewrite Hp.
Qed.

Lemma adopt_token_cases now now' token sc r :
  (∃ e, on_proxy (adopt_token now now' token sc) r = (r, Raise e)) ∨
  (token_session_id token = Ok (Some (ts_sessionId sc)) ∧
   let sc' := (stamp_issued now sc) <| ts_expiresAtMs := expiry now' None (rp_tokens r) |> in
   (on_proxy (adopt_token now now' token sc) r).1 = set_tokens (dset token sc' (tm_tokens (rp_tokens r))) r ∧
   (expired now' sc' = false → (on_proxy (adopt_token now now' token sc) r).2 = Ok sc')).
Proof.
  unfold on_proxy, zoom, adopt_token, proxy_error, catch, mbind, M_bind, on_tokens, zoom, adopt, mbind, M_bind, guard_or,
    lift, gets, set_token, modify. fold (rp_tokens r).
  destruct (starts_with MODEL_PROXY_TOKEN_PREFIX token); cbn; [|left; eexists; by rewrite set_tokens_same].
  destruct (token_session_id token) as [sid|e] eqn:Es; cbn.
  2: { left. destruct e; cbn; eexists; by rewrite set_tokens_same. }
  destruct (bool_decide (sid = Some (ts_sessionId sc))) eqn:Eb; cbn; [|left; eexists; by rewrite set_tokens_same].
  right. bsimp. subst. split; [done|]. unfold validate, token_scope, mbind, M_bind, guard_or. cbn. rewrite dget_dset_eq. cbn.
  split; [|intros ->; done]. destruct (expired now' _); done.
Qed.

(** *** Operations keep the invariant *)

Lemma set_tokens_inv t r : core_inv (t, rp_routes r, rp_capabilities r) → proxy_inv (set_tokens t r).
Proof. done. Qed.

Lemma renew_inv now token exp : preserves proxy_inv (on_rp_tokens (renew now token exp)).
Proof.
  intros r Hr. rewrite renew_run. destruct (dget token (tm_tokens (rp_tokens r))) as [sc|] eqn:E; [|done].
  apply set_tokens_inv, core_set_token; [exact Hr| |by intros old ?; simplify_eq].
  destruct Hr as (_ & Hn & _). exact (Hn token sc E).
Qed.

Lemma renew_or_adopt_inv now token sc : strip token = token →
  preserves proxy_inv (catch (on_proxy (renew_token now token)) (λ e,
    match e with ModelProxyError _ => on_proxy (adopt_token now now token sc) | _ => raise e end)).
Proof.
  intros Hs r Hr. unfold catch. rewrite renew_token_run.
  destruct (dget token (tm_tokens (rp_tokens r))) as [sc0|] eqn:E.
  - apply set_tokens_inv, core_set_token; [exact Hr| |by intros old ?; simplify_eq].
    destruct Hr as (_ & Hn & _). exact (Hn token sc0 E).
  - destruct (adopt_token_cases now now token sc r) as [[e ->]|(Hid & -> & _)]; [done|].
    apply set_tokens_inv, core_set_token; [exact Hr| |by intros old ?; congruence].
    split; [|done]. left. unfold stamp_issued. by destruct (ts_issuedAtMs sc =? 0).
Qed.

Lemma recover_core now token : keeps_core (on_proxy (recover_expired_scope now token)).
Proof.
  apply on_proxy_core. intros p. unfold recover_expired_scope, proxy_error, catch, on_tokens, zoom.
  pose proof (token_scope_tokens now token true (px_tokens p)) as Ht.
  destruct (token_scope now token true (px_tokens p)) as [t [sc|e]]; cbn in *; subst; [done|]. by destruct e.
Qed.

Lemma authenticate_with_recovery_inv now lat auth : preserves proxy_inv (authenticate_with_recovery now lat auth).
Proof.
  unfold authenticate_with_recovery. apply preserves_catch.
  { apply preserves_bind; [apply keeps_core_preserves, authenticate_core|auto with haas]. }
  intros e. apply preserves_bind.
  { destruct e; auto with haas. destruct (bool_decide (msg = "token_expired")); [apply keeps_core_preserves, recover_core|].
    destruct (bool_decide (msg = "invalid_token")); [|auto with haas].
    apply preserves_bind; [auto with haas|]. intros sid. apply preserves_bind; [auto with haas|].
    intros [sc|]; auto with haas. }
  intros sc. apply preserves_bind; [auto with haas|]. intros rt. apply preserves_bind; [auto with haas|]. intros _.
  apply preserves_bind; [auto with haas|]. intros _.
  apply preserves_bind; [apply renew_or_adopt_inv, bearer_token_strip|auto with haas].
Qed.

Lemma revoke_session_run sid r :
  (on_rp_tokens (revoke_session sid) r).1 =
  set_tokens (ddel_all (tokens_where (λ sc, bool_decide (ts_sessionId sc = sid)) (rp_tokens r)) (tm_tokens (rp_tokens r))) r.
Proof. done. Qed.

(** The core after a revocation. *)
Definition revoked_core (sid : string) (r : RuntimeModelProxy) :
    dict string RuntimeTokenScope * dict string pydict * dict string SessionCapability :=
  (ddel_all (tokens_where (λ sc, bool_decide (ts_sessionId sc = sid)) (rp_tokens r)) (tm_tokens (rp_tokens r)),
   ddel sid (rp_routes r), ddel sid (rp_capabilities r)).

Lemma revoke_proxy_session_core now sid r : core (revoke_proxy_session now sid r).1 = revoked_core sid r.
Proof.
  unfold revoke_proxy_session, mbind at 1, M_bind. cbn [on_rp_tokens].
  destruct (on_rp_tokens (revoke_session sid) r) as [r1 [[]|e]] eqn:E; [|done].
  assert (r1 = set_tokens (ddel_all (tokens_where (λ sc, bool_decide (ts_sessionId sc = sid)) (rp_tokens r)) (tm_tokens (rp_tokens r))) r)
    as -> by (by rewrite <-revoke_session_run, E).
  unfold mbind, M_bind, modify. unfold clear_capability_summary. rewrite on_store_core. done.
Qed.

Lemma revoked_core_inv sid r : proxy_inv r → core_inv (revoked_core sid r).
Proof.
  intros Hr. unfold revoked_core. pose proof Hr as (Hw & Hn & Hc).
  eapply core_drop_tokens; [apply (core_drop_session _ _ _ sid Hr)| | |].
  - apply dict_wf_ddel_all, Hw.
  - intros t sc. rewrite (dget_tokens_where _ (rp_tokens r)) by apply Hw.
    destruct (dget t (tm_tokens (rp_tokens r))) as [sc'|]; [|done]. by destruct (bool_decide _); [|intros [= ->]].
  - intros sid' c. rewrite dget_ddel. case_decide as Hne; [done|]. intros Hs.
    destruct (Hc sid' c Hs) as (_ & (sc & Hsc & _ & Hsid & _) & _). rewrite (dget_tokens_where _ (rp_tokens r)) by apply Hw.
    cbn in Hsc. rewrite Hsc. rewrite bool_decide_eq_false_2; [done|]. congruence.
Qed.

Lemma revoke_proxy_session_inv now sid : preserves proxy_inv (revoke_proxy_session now sid).
Proof. intros r Hr. unfold proxy_inv. rewrite revoke_proxy_session_core. by apply revoked_core_inv. Qed.

Lemma persist_core now sid key token gen : keeps_core (persist_capability_summary now sid key token gen).
Proof. apply on_store_core. Qed.

Lemma core_same_capability tokens routes caps sid c c' d :
  core_inv (tokens, routes, caps) → dget sid caps = Some c → provider_scope_key d = cp_provider_scope_key c →
  cp_session_id c' = cp_session_id c → cp_active_token c' = cp_active_token c → cp_harness_id c' = cp_harness_id c →
  cp_provider_scope_key c' = cp_provider_scope_key c → cp_active_generation c' = cp_active_generation c →
  core_inv (tokens, dset sid d routes, dset sid c' caps).
Proof.
  intros Hi Hc Hk E1 E2 E3 E4 E5. pose proof Hi as (_ & _ & Hb). destruct (Hb sid c Hc) as (? & (sc & ?) & ?).
  apply core_set_capability; [done|]. split_and!; [congruence| |].
  - exists sc. by rewrite E2, E3, E4, E5.
  - exists d. rewrite dget_dset_eq, E4. done.
Qed.

(** What [begin] keeps across its await. *)
Definition pending_ok (b : begin_pending) : Prop :=
  let sc := bp_scope b in
  ts_audience sc = "model_proxy" ∧ ts_sessionId sc = bp_session_id b ∧ ts_generation sc = 1 ∧
  ts_providerScopeKey sc = provider_scope_key (route_asdict (bp_route b)).

Lemma begin_start_inv now h inv profile r : proxy_inv r →
  proxy_inv (begin_start now h inv profile r).1 ∧
  (∀ b, (begin_start now h inv profile r).2 = Ok (inr b) → pending_ok b).
Proof.
  intros Hr. unfold begin_start, mbind, M_bind, gets, guard_or, lift.
  destruct (negb (bool_decide (rp_base_url (id r) = "")) && rp_resolver_available (id r)); [|done]. cbn [ensure].
  destruct (profile_provider profile) as [frozen|]; [|done].
  destruct (resolve_model_route h None frozen) as [rt|]; [|done].
  destruct (bool_decide (mr_apiType rt = "responses")); [|done]. cbn [ensure]. unfold id.
  set (key := provider_scope_key (route_asdict rt)).
  destruct (dget (i_sessionId inv) (rp_capabilities r)) as [c|] eqn:Ec.
  2: { split; [done|]. by intros b [= <-]. }
  destruct (bool_decide (cp_harness_id c = h_id h) && bool_decide (cp_provider_scope_key c = key)) eqn:E.
  - bsimp. unfold set_route, set_capability, modify.
    match goal with |- context [on_rp_tokens ?m ?st] => set (r2 := st) end.
    assert (proxy_inv r2) as Hr2.
    { unfold proxy_inv, core. cbn. by eapply core_same_capability. }
    pose proof (renew_inv now (cp_active_token c) (Some (capability_expiry (i_startedAtMs inv) (i_timeoutSeconds inv)
      (rp_cleanup_margin_seconds r))) r2 Hr2) as Hn.
    destruct (on_rp_tokens _ r2) as [r3 [x|x]]; done.
  - pose proof (revoke_proxy_session_inv now (i_sessionId inv) r Hr) as Hv.
    destruct (revoke_proxy_session now (i_sessionId inv) r) as [r2 [x|x]]; [|done]. split; [done|]. by intros b [= <-].
Qed.

Lemma begin_finish_inv now nonce b resolved r :
  pending_ok b → fresh_nonce nonce r → proxy_inv r → proxy_inv (begin_finish now nonce b resolved r).1.
Proof.
  intros (Ha & Hs & Hg & Hk) [Hc Hf] Hr. unfold begin_finish, mbind at 1, M_bind, lift.
  destruct resolved as [v|]; [|done]. unfold mbind at 1, M_bind. rewrite issue_run.
  unfold mbind at 1, M_bind, set_route, modify. unfold mbind at 1, M_bind, gets. unfold mbind at 1, M_bind, set_capability, modify.
  apply keeps_core_preserves.
  { repeat (apply bind_core; [|intros ?]); [apply persist_core|done..]. }
  unfold proxy_inv, core. cbn. apply core_set_capability.
  - apply core_set_token; [exact Hr| |intros old Hold; specialize (Hf (bp_scope b)); congruence].
    apply token_for_named; [done|]. unfold stamp_issued. by destruct (_ =? 0).
  - split_and!; [done| |].
    + exists ((stamp_issued now (bp_scope b)) <| ts_expiresAtMs := bp_expires_at_ms b |>). cbn [cp_active_token]. rewrite dget_dset_eq.
      destruct (stamp_issued_grant now (bp_scope b) (bp_expires_at_ms b)) as (-> & -> & -> & -> & ->). done.
    + exists (route_asdict (bp_route b)). rewrite dget_dset_eq. done.
Qed.

Lemma refresh_token_inv now now' nonce inv token r :
  fresh_nonce nonce r → proxy_inv r → proxy_inv (refresh_token now now' nonce inv token r).1.
Proof.
  intros [Hc Hf] Hr. unfold refresh_token, mbind at 1, M_bind.
  pose proof (on_tokens_core (token_scope now token true) (token_scope_tokens now token true) r) as Ht.
  destruct (on_rp_tokens (token_scope now token true) r) as [r1 [sc|e]] eqn:E1;
    [|cbn [fst] in *; unfold proxy_inv; by rewrite Ht].
  assert (r1 = r ∧ dget token (tm_tokens (rp_tokens r)) = Some sc) as [-> Hsc].
  { unfold on_rp_tokens, on_proxy, on_tokens, zoom, token_scope in E1. fold (rp_tokens r) in E1.
    destruct (dget token (tm_tokens (rp_tokens r))); cbn in E1; simplify_eq. by rewrite set_tokens_same. }
  unfold mbind at 1, M_bind, gets. unfold mbind at 1, M_bind. unfold mbind at 1, M_bind, guard_or.
  destruct (bool_decide _); [done|]. cbn [negb ensure].
  destruct (dget (i_sessionId inv) (rp_capabilities r)) as [c|] eqn:Ec; [|done].
  unfold mbind at 1, M_bind.
  destruct (bool_decide (ts_sessionId sc = i_sessionId inv) && bool_decide (cp_active_token c = token) &&
    bool_decide (ts_harnessId sc = cp_harness_id c) && bool_decide (ts_providerScopeKey sc = cp_provider_scope_key c)) eqn:Eg; [|done].
  bsimp. cbn [ensure]. unfold mbind at 1, M_bind, modify. unfold mbind at 1, M_bind. unfold mbind at 1, M_bind.
  destruct (is_some _); [|done]. cbn [ensure]. unfold mbind at 1, M_bind. unfold mbind at 1, M_bind. rewrite issue_run.
  unfold mbind at 1, M_bind, set_capability, modify.
  apply keeps_core_preserves.
  { repeat (apply bind_core; [|intros ?]); [apply persist_core|done..]. }
  pose proof Hr as (_ & _ & Hb). destruct (Hb _ c Ec) as (Hcs & (sc0 & _ & Haud & _) & (d & Hd & Hdk)). cbn in Hd.
  unfold proxy_inv, core. cbn. rewrite <-(dset_same _ _ _ Hd). apply core_set_capability.
  - apply core_set_token; [exact Hr| |intros old Hold; cbn in Hold; rewrite Hf in Hold; done].
    apply token_for_named; [done|]. unfold stamp_issued. by destruct (_ =? 0).
  - split_and!; [done| |].
    + eexists. cbn [cp_active_token upd]. rewrite dget_dset_eq. split; [done|].
      unfold stamp_issued. destruct (_ =? 0); cbn; by simplify_eq.
    + exists d. rewrite dget_dset_eq. done.
Qed.

Lemma on_validate now token r r' sc :
  on_rp_tokens (validate now token) r = (r', Ok sc) → r' = r ∧ dget token (tm_tokens (rp_tokens r)) = Some sc ∧ expired now sc = false.
Proof.
  unfold on_rp_tokens, on_proxy, on_tokens, zoom. fold (rp_tokens r).
  destruct (validate now token (rp_tokens r)) as [m [x|x]] eqn:E; [|done]. apply validate_Ok in E as (-> & ? & ?).
  rewrite set_tokens_same. by intros [= <- <-].
Qed.

Lemma on_validate_core now token : keeps_core (on_rp_tokens (validate now token)).
Proof. apply on_tokens_core, validate_tokens. Qed.

(** [apply_refresh] raises with the core as it was, or drops exactly the previous token. *)
Lemma apply_refresh_core now inv prev repl r r' res : apply_refresh now inv prev repl r = (r', res) →
  (∃ e, res = Raise e ∧ core r' = core r) ∨
  (∃ c sc, res = Ok tt ∧ r' = set_tokens (ddel prev (tm_tokens (rp_tokens r))) r ∧
     prev ≠ repl ∧ dget (i_sessionId inv) (rp_capabilities r) = Some c ∧ cp_active_token c = repl ∧
     dget prev (tm_tokens (rp_tokens r)) = Some sc ∧ ts_sessionId sc = i_sessionId inv).
Proof.
  unfold apply_refresh, mbind at 1, M_bind, guard_or.
  destruct (bool_decide (prev = repl)) eqn:E0; [intros [= <- <-]; left; by eexists|]. bsimp. cbn [negb ensure].
  unfold mbind at 1, M_bind. pose proof (on_validate_core now prev r) as Hk.
  destruct (on_rp_tokens (validate now prev) r) as [r1 [scp|e]] eqn:E1; [|intros [= <- <-]; left; by eexists].
  apply on_validate in E1 as (-> & Hp & _). clear Hk. unfold mbind at 1, M_bind. pose proof (on_validate_core now repl r) as Hk.
  destruct (on_rp_tokens (validate now repl) r) as [r1 [scr|e]] eqn:E1; [|intros [= <- <-]; left; by eexists].
  apply on_validate in E1 as (-> & Hq & _). unfold mbind at 1, M_bind.
  destruct (_ && bool_decide (ts_sessionId scr = i_sessionId inv)) eqn:Eg; [|intros [= <- <-]; left; by eexists]. bsimp.
  cbn [ensure]. unfold mbind at 1, M_bind, gets. unfold mbind, M_bind.
  destruct (dget (i_sessionId inv) (rp_capabilities r)) as [c|] eqn:Ec; [|intros [= <- <-]; left; by eexists].
  destruct (bool_decide (cp_active_token c = repl)) eqn:Ea; [|intros [= <- <-]; left; by eexists]. bsimp.
  intros [= <- <-]. right. exists c, scp. split_and!; try done. congruence.
Qed.

Lemma apply_refresh_inv now inv prev repl : preserves proxy_inv (apply_refresh now inv prev repl).
Proof.
  intros r Hr. destruct (apply_refresh now inv prev repl r) as [r' res] eqn:E.
  apply apply_refresh_core in E as [(e & _ & Hk)|(c & sc & _ & -> & Hne & Hc & Ha & Hp & Hs)];
    [unfold proxy_inv; cbn; by rewrite Hk|].
  pose proof Hr as (Hw & Hn & Hb). apply set_tokens_inv. eapply core_drop_tokens; [exact Hr|apply dict_wf_ddel, Hw| |].
  - intros t sc'. rewrite dget_ddel. by case_decide.
  - intros sid' c' Hc'. rewrite dget_ddel_ne; [done|]. intros Heq. destruct (Hb sid' c' Hc') as (_ & (sc' & Hsc' & _ & Hsid & _) & _).
    cbn in *. congruence.
Qed.

(** ** Histories *)

(** Calls in any order; a [begin] in progress waits in the list of pending ones. *)
Inductive proxy_reachable : RuntimeModelProxy → list begin_pending → Prop :=
  | proxy_init ttl margin store url avail :
      proxy_reachable (mkRuntimeProxy (mkModelProxy (mkTokens ttl []) []) [] [] [] url avail margin store) []
  | proxy_begin now h inv profile r ps :
      proxy_reachable r ps →
      proxy_reachable (begin_start now h inv profile r).1
        (match (begin_start now h inv profile r).2 with Ok (inr b) => b :: ps | _ => ps end)
  | proxy_finish now nonce b resolved r ps ps' :
      proxy_reachable r ps → ps ≡ₚ b :: ps' → fresh_nonce nonce r →
      proxy_reachable (begin_finish now nonce b resolved r).1 ps'
  | proxy_refresh now now' nonce inv token r ps :
      proxy_reachable r ps → fresh_nonce nonce r → proxy_reachable (refresh_token now now' nonce inv token r).1 ps
  | proxy_apply now inv prev repl r ps :
      proxy_reachable r ps → proxy_reachable (apply_refresh now inv prev repl r).1 ps
  | proxy_revoke now sid r ps : proxy_reachable r ps → proxy_reachable (revoke_proxy_session now sid r).1 ps
  | proxy_authenticate now lat auth r ps :
      proxy_reachable r ps → proxy_reachable (authenticate_with_recovery now lat auth r).1 ps.

Lemma proxy_reachable_inv r ps : proxy_reachable r ps → proxy_inv r ∧ Forall pending_ok ps.
Proof.
  induction 1 as [| |now nonce b res r ps ps' _ [IH Hps] Hperm Hf| | | |]; destruct_and?.
  - split; [|constructor]. split_and!; [apply dict_wf_nil|done|done].
  - match goal with Hr : proxy_inv r |- _ => destruct (begin_start_inv now h inv profile r Hr) as [Hi Hb] end.
    split; [done|]. destruct (begin_start now h inv profile r).2 as [[|b]|]; auto.
  - rewrite Hperm in Hps. apply Forall_cons in Hps as [Hb Hps]. split; [by apply begin_finish_inv|done].
  - split; [by apply refresh_token_inv|done].
  - split; [by apply apply_refresh_inv|done].
  - split; [by apply revoke_proxy_session_inv|done].
  - split; [by apply authenticate_with_recovery_inv|done].
Qed.
End invariant.

(** ** What the capability guarantees *)

Section guarantees.
Context `{Sha256} `{PyRepr} `{ScopeDigest}.

(** Authentication of a token the table holds, live or expired. *)
Lemma authenticate_held now lat token sc r :
  dget token (tm_tokens (rp_tokens r)) = Some sc → token_named token sc → ts_audience sc = "model_proxy" →
  ∃ r', core r' = core r ∧
    on_proxy (authenticate now lat ("Bearer " +:+ token)) r =
      (r', if expired now sc then Raise (ModelProxyError "token_expired") else Ok sc).
Proof.
  intros Hd [Hn Hs] Ha. pose proof (authenticate_core now lat ("Bearer " +:+ token) r) as Hk.
  exists (on_proxy (authenticate now lat ("Bearer " +:+ token)) r).1. split; [done|].
  clear Hk. apply injective_projections; [done|]. cbn [snd]. unfold on_proxy, zoom, authenticate. rewrite bearer_token_of by done.
  unfold mbind, M_bind, catch, on_tokens, zoom, validate, mbind, M_bind, token_scope. fold (rp_tokens r). rewrite Hd.
  unfold guard_or. destruct (expired now sc) eqn:E; cbn.
  - rewrite E. cbn. destruct Hn as [-> | ->]; done.
  - rewrite ?E. cbn. rewrite bool_decide_eq_true_2 by done. done.
Qed.

(** Authentication of a token the table does not hold. *)
Lemma authenticate_unknown now lat auth token sid r :
  bearer_token auth = token → dget token (tm_tokens (rp_tokens r)) = None → token_session_id token = Ok sid →
  ∃ r', core r' = core r ∧ rp_store r' = rp_store r ∧
    on_proxy (authenticate now lat auth) r = (r', Raise (ModelProxyError "invalid_token")).
Proof.
  intros Hb Hd Hn. pose proof (authenticate_core now lat auth r) as Hk.
  exists (on_proxy (authenticate now lat auth) r).1. split; [done|]. clear Hk.
  split; [unfold on_proxy, zoom; by destruct (authenticate now lat _ _)|].
  apply injective_projections; [done|]. cbn [snd]. unfold on_proxy, zoom, authenticate. rewrite Hb.
  unfold mbind, M_bind, catch, on_tokens, zoom, validate, mbind, M_bind, token_scope. fold (rp_tokens r). rewrite Hd.
  cbn. by rewrite Hn.
Qed.

(** A token of a live capability is served, whatever the clock says. *)
Lemma backed_token_serves now lat r sid c :
  proxy_inv r → dget sid (rp_capabilities r) = Some c →
  ∃ r' sc auth, authenticate_with_recovery now lat ("Bearer " +:+ cp_active_token c) r = (r', Ok (sc, auth)) ∧
    bearer_token auth = cp_active_token c ∧ ts_sessionId sc = sid ∧ ts_harnessId sc = cp_harness_id c ∧
    ts_providerScopeKey sc = cp_provider_scope_key c.
Proof.
  intros Hr Hc. pose proof Hr as (_ & Hn & Hb). destruct (Hb sid c Hc) as (_ & (sc & Hd & Ha & Hs & Hh & Hk & _) & (d & Hrt & Hdk)).
  cbn in Hd, Hrt. set (token := cp_active_token c) in *. pose proof (Hn token sc Hd) as Hnm.
  assert (bearer_token ("Bearer " +:+ token) = token) as Hbt by (apply bearer_token_of, Hnm).
  destruct (authenticate_held now lat token sc r Hd Hnm Ha) as (r1 & Hcore & Hau).
  unfold authenticate_with_recovery, catch. unfold mbind at 1, M_bind. rewrite Hau.
  destruct (expired now sc) eqn:E; [|by exists r1, sc, ("Bearer " +:+ token)].
  assert (tm_tokens (rp_tokens r1) = tm_tokens (rp_tokens r) ∧ rp_routes r1 = rp_routes r) as [Ht1 Hr1].
  { unfold core in Hcore. by simplify_eq. }
  rewrite Hbt. change (bool_decide ("token_expired" = "token_expired")) with true. cbn [mbind].
  unfold mbind at 1, M_bind.
  assert (on_proxy (recover_expired_scope now token) r1 = (r1, Ok sc)) as ->.
  { unfold on_proxy, zoom, recover_expired_scope, proxy_error, catch, on_tokens, zoom, token_scope. fold (rp_tokens r1).
    rewrite Ht1, Hd. cbn. by rewrite set_tokens_same. }
  unfold mbind at 1, M_bind, gets, route. rewrite Hr1, Hs, Hrt. unfold mbind at 1, M_bind, guard_or. cbn [is_some ensure].
  unfold mbind at 1, M_bind, lift, validate_provider_scope. rewrite Hdk, <-Hk.
  rewrite (bool_decide_eq_true_2 (ts_providerScopeKey sc = ts_providerScopeKey sc)) by done. rewrite orb_true_r. cbn [ensure].
  unfold mbind, M_bind, catch. rewrite renew_token_run, Ht1, Hd. eexists _, _, _. split; [reflexivity|].
  rewrite Hbt. cbn. by rewrite Hk.
Qed.

(** A token that is neither held nor recoverable is rejected. *)
Lemma unknown_token_rejected now lat auth token sid r :
  bearer_token auth = token → dget token (tm_tokens (rp_tokens r)) = None → token_session_id token = Ok sid →
  (∀ s r', sid = Some s → core r' = core r → rp_store r' = rp_store r → session_scope now s token r' = None) →
  ∃ r', authenticate_with_recovery now lat auth r = (r', Raise (ModelProxyError "invalid_token")) ∧
    core r' = core r ∧ rp_store r' = rp_store r.
Proof.
  intros Hb Hd Hn Hsc. destruct (authenticate_unknown now lat auth token sid r Hb Hd Hn) as (r1 & Hc1 & Hst & Hau).
  unfold authenticate_with_recovery, catch. unfold mbind at 1, M_bind. rewrite Hau, Hb.
  change (bool_decide ("invalid_token" = "token_expired")) with false. change (bool_decide ("invalid_token" = "invalid_token")) with true.
  cbn match. unfold mbind at 1, M_bind. unfold mbind at 1, M_bind, lift, recover_session_id. rewrite Hn.
  unfold mbind at 1, M_bind, gets. exists r1. destruct sid as [s|]; cbn; [|done]. by rewrite (Hsc s r1).
Qed.

(** In every state that runs, rotations, revocations and requests can lead to, the active token of a
    session's capability authenticates at any time, expired or not, as that session, harness
    and provider; so the renewal in [begin] never fails. *)
Theorem active_token_serves now lat r ps sid c :
  proxy_reachable r ps → dget sid (rp_capabilities r) = Some c →
  (∃ r' sc auth, authenticate_with_recovery now lat ("Bearer " +:+ cp_active_token c) r = (r', Ok (sc, auth)) ∧
    bearer_token auth = cp_active_token c ∧ ts_sessionId sc = sid ∧ ts_harnessId sc = cp_harness_id c ∧
    ts_providerScopeKey sc = cp_provider_scope_key c) ∧
  (∀ exp, is_ok (on_rp_tokens (renew now (cp_active_token c) exp) r).2 = true).
Proof.
  intros [Hr _]%proxy_reachable_inv Hc. split; [by apply backed_token_serves|]. intros exp. rewrite renew_run.
  pose proof Hr as (_ & _ & Hb). destruct (Hb sid c Hc) as (_ & (sc & Hd & _) & _). cbn in Hd. by rewrite Hd.
Qed.

(** *** What a revocation leaves in the store *)

(** The fingerprint a session's stored summary names. *)
Definition summary_fingerprint (s : SessionRecord) : option string :=
  match pget "modelProxy" (s_state s) with
  | PDict d => match pget "activeTokenFingerprint" d with PStr f => Some f | _ => None end
  | _ => None
  end.

(** No session with this id has a summary that names the fingerprint. *)
Definition unrecorded (sid f : string) (st : MemoryStore) : Prop :=
  ∀ l s, l ∈ dvalues (st_sessions st) → st_session_objs st !! l = Some s → s_id s = sid → summary_fingerprint s ≠ Some f.

Lemma elem_listed st l s : (l, s) ∈ listed_sessions st ↔ l ∈ dvalues (st_sessions st) ∧ st_session_objs st !! l = Some s.
Proof.
  unfold listed_sessions. rewrite py_sorted_perm, list_elem_of_omap. split.
  - intros (l' & Hl & Hm). destruct (st_session_objs st !! l') as [s'|] eqn:E; cbn in Hm; [|done]. by injection Hm as <- <-.
  - intros [Hl Hs]. exists l. by rewrite Hs.
Qed.

Lemma first_summary_elem sid f sessions : f ∈ first_summary sid sessions →
  ∃ l s, (l, s) ∈ sessions ∧ s_id s = sid ∧ summary_fingerprint s = Some f.
Proof.
  induction sessions as [|[l s] sessions IH]; cbn [first_summary]; [by intros ?%elem_of_nil|].
  assert (Hr : f ∈ first_summary sid sessions → ∃ l' s', (l', s') ∈ (l, s) :: sessions ∧ s_id s' = sid ∧ summary_fingerprint s' = Some f).
  { intros Hf. destruct (IH Hf) as (l' & s' & ? & ?). exists l', s'. split; [by right|done]. }
  case_bool_decide as Hid; cbn [negb]; [|done].
  destruct (pget "modelProxy" (s_state s)) as [| | | | | |d] eqn:Em; try done. intros Hf. exists l, s. split; [by left|]. split; [done|].
  unfold summary_fingerprint. rewrite Em. destruct (pget "activeTokenFingerprint" d); try by apply elem_of_nil in Hf.
  by apply list_elem_of_singleton in Hf as ->.
Qed.

Lemma unrecorded_stored sid f r : (∀ st, rp_store r = Some st → unrecorded sid f st) → f ∉ stored_token_fingerprints sid r.
Proof.
  intros Hu Hf. unfold stored_token_fingerprints in Hf. destruct (rp_store r) as [st|] eqn:Es; [|by apply elem_of_nil in Hf].
  apply first_summary_elem in Hf as (l & s & [Hl Ho]%elem_listed & Hid & Hs). by apply (Hu st eq_refl l s).
Qed.

Lemma elem_dvalues_dset {K V} `{EqDecision K} (k : K) (v x : V) d : x ∈ dvalues (dset k v d) → x = v ∨ x ∈ dvalues d.
Proof.
  unfold dvalues. induction d as [|[k' v'] d IH]; cbn [dset].
  - intros ->%list_elem_of_singleton. by left.
  - case_decide; cbn; rewrite !elem_of_cons; [naive_solver|]. intros [->|Hx]; [by right; left|]. destruct (IH Hx); auto.
Qed.

(** Writing the state of a session's object and storing it: an object seen in the table afterwards is
    the one written, or one that was there. *)
Definition write_state (now : Z) (l : loc) (state : pydict) : store_m unit :=
  _ ← assign_session l (λ o, o <| s_state := state |>); _ ← put_session now l; mret tt.

Lemma write_state_objects now l state st :
  let st' := (write_state now l state st).1 in
  (∀ l' s', l' ∈ dvalues (st_sessions st') → st_session_objs st' !! l' = Some s' →
     (l' ∈ dvalues (st_sessions st) ∧ l' ≠ l ∧ st_session_objs st !! l' = Some s') ∨
     (∃ o, st_session_objs st !! l = Some o ∧ s_id s' = s_id o ∧ s_state s' = state)) ∧
  (∀ l' s', st_session_objs st !! l' = Some s' → ∃ s'', st_session_objs st' !! l' = Some s'' ∧ s_id s'' = s_id s').
Proof.
  cbv zeta. unfold write_state, assign_session, put_session, modify, load_session, mbind, M_bind, mret, M_ret, lift, alloc_session.
  cbn [st_session_objs upd]. set (g := λ o : SessionRecord, o <| s_state := state |>).
  assert (Hkeep : ∀ l' s', st_session_objs st !! l' = Some s' → ∃ s'', alter g l (st_session_objs st) !! l' = Some s'' ∧ s_id s'' = s_id s').
  { intros l' s' Hs. destruct (decide (l' = l)) as [->|Hn]; [rewrite list_lookup_alter_eq, Hs; by eexists|].
    rewrite list_lookup_alter_ne by done. eauto. }
  assert (Halter : ∀ l' s', alter g l (st_session_objs st) !! l' = Some s' →
    (l' ≠ l ∧ st_session_objs st !! l' = Some s') ∨ ∃ o, st_session_objs st !! l = Some o ∧ s_id s' = s_id o ∧ s_state s' = state).
  { intros l' s' Hs. destruct (decide (l' = l)) as [->|Hn].
    - rewrite list_lookup_alter_eq in Hs. destruct (st_session_objs st !! l) as [o|]; [|done]. injection Hs as <-. right. by exists o.
    - rewrite list_lookup_alter_ne in Hs by done. by left. }
  destruct (alter g l (st_session_objs st) !! l) as [o|] eqn:Eo; cbn.
  2: { split; [|done]. intros l' s' Hl Hs. destruct (Halter l' s' Hs) as [[? ?]|?]; auto. }
  unfold session_post_init. cbn. destruct (known_control_state (s_controlState o)); cbn.
  2: { split; [|done]. intros l' s' Hl Hs. destruct (Halter l' s' Hs) as [[? ?]|?]; auto. }
  split.
  - intros l' s' Hl Hs. apply lookup_snoc_Some in Hs as [[_ Hs]|[-> <-]].
    + destruct (Halter l' s' Hs) as [[? ?]|?]; [|auto]. apply elem_dvalues_dset in Hl as [->|Hl]; [|auto].
      apply lookup_lt_Some in Hs. rewrite length_alter in Hs. lia.
    + right. destruct (Halter l o Eo) as [[? _]|(o' & ? & ? & ?)]; [done|]. by exists o'.
  - intros l' s' Hs. destruct (Hkeep l' s' Hs) as (s'' & Hs'' & Hid). exists s''. split; [|done]. by apply lookup_app_l_Some.
Qed.

Lemma write_state_unrecorded now l state sid f st :
  (∀ o, st_session_objs st !! l = Some o → s_id o = sid → summary_fingerprint (o <| s_state := state |>) ≠ Some f) →
  unrecorded sid f st → unrecorded sid f (write_state now l state st).1.
Proof.
  intros Hf Hu l' s' Hl Hs Hid. destruct (proj1 (write_state_objects now l state st) l' s' Hl Hs) as [(Hl' & _ & Hs')|(o & Ho & Hi & Hst)].
  - by apply (Hu l' s').
  - specialize (Hf o Ho ltac:(congruence)). unfold summary_fingerprint in *. rewrite Hst. exact Hf.
Qed.

Lemma no_summary (o : SessionRecord) state : summary_fingerprint (o <| s_state := ddel "modelProxy" state |>) = None.
Proof. unfold summary_fingerprint, pget. cbn. by rewrite dget_ddel_eq. Qed.

Lemma clear_summaries_cons now sid l session sessions st : clear_summaries now sid ((l, session) :: sessions) st =
  if negb (bool_decide (s_id session = sid)) then clear_summaries now sid sessions st
  else (_ ← write_state now l (ddel "modelProxy" (s_state session)); clear_summaries now sid sessions) st.
Proof.
  cbn [clear_summaries]. case_bool_decide; cbn [negb]; [|done].
  unfold write_state, mbind, M_bind. destruct (assign_session _ _ st) as [st1 [[]|e]]; [|done].
  by destruct (put_session now l st1) as [st2 [l'|e]].
Qed.

(** Clearing records nothing. *)
Lemma clear_summaries_unrecorded now sid sessions sid' f st :
  unrecorded sid' f st → unrecorded sid' f (clear_summaries now sid sessions st).1.
Proof.
  revert st. induction sessions as [|[l s] sessions IH]; intros st Hu; [done|]. rewrite clear_summaries_cons.
  case_bool_decide; cbn [negb]; [|by apply IH]. apply bind_at; [|intros _ st'; apply IH].
  apply write_state_unrecorded; [|done]. intros o _ _. by rewrite no_summary.
Qed.

(** When it ends without an exception, no listed session of the id names anything. *)
Lemma clear_summaries_done now sid sessions f st st' :
  (∀ l s, (l, s) ∈ sessions → ∃ o, st_session_objs st !! l = Some o ∧ s_id o = s_id s) →
  (∀ l s, l ∈ dvalues (st_sessions st) → st_session_objs st !! l = Some s → s_id s = sid →
     l ∈ sessions.*1 ∨ summary_fingerprint s ≠ Some f) →
  clear_summaries now sid sessions st = (st', Ok tt) → unrecorded sid f st'.
Proof.
  revert st. induction sessions as [|[l s] sessions IH]; intros st Hsame Hall.
  - intros [= <-] l s Hl Hs Hid. by destruct (Hall l s Hl Hs Hid) as [?%elem_of_nil|?].
  - rewrite clear_summaries_cons. destruct (Hsame l s ltac:(by left)) as (o & Ho & Hid). case_bool_decide as Hs; cbn [negb].
    + intros (u & st1 & Hw & Hc)%M_bind_Ok. pose proof (write_state_objects now l (ddel "modelProxy" (s_state s)) st) as [Hobj Hkeep].
      rewrite Hw in Hobj, Hkeep. cbn [fst] in Hobj, Hkeep. apply (IH st1); [| |exact Hc].
      * intros l' s' Hin. destruct (Hsame l' s' ltac:(by right)) as (o' & Ho' & Hid'). destruct (Hkeep l' o' Ho') as (o'' & ? & ?).
        exists o''. split; [done|congruence].
      * intros l' s' Hl Hs' Hi. destruct (Hobj l' s' Hl Hs') as [(Hl' & Hne & Hs'')|(o' & _ & _ & Hst)].
        -- destruct (Hall l' s' Hl' Hs'' Hi) as [Hin|?]; [|by right]. left. cbn in Hin. by apply elem_of_cons in Hin as [?|?].
        -- right. unfold summary_fingerprint, pget. rewrite Hst, dget_ddel_eq. done.
    + intros Hc. apply (IH st); [| |exact Hc].
      * intros l' s' Hin. apply Hsame. by right.
      * intros l' s' Hl Hs' Hi. destruct (Hall l' s' Hl Hs' Hi) as [Hin|?]; [|by right]. left.
        cbn in Hin. apply elem_of_cons in Hin as [->|?]; [|done]. rewrite Ho in Hs'. injection Hs' as <-. congruence.
Qed.

(** *** A token that is out *)

(** The token is not in the table, no capability of its session knows it, and no stored summary names it. *)
Definition locked (sid token : string) (r : RuntimeModelProxy) : Prop :=
  dget token (tm_tokens (rp_tokens r)) = None ∧
  (∀ c, dget sid (rp_capabilities r) = Some c →
     cp_active_token c ≠ token ∧ fingerprint token ∉ cp_grace_token_fingerprints c) ∧
  (∀ st, rp_store r = Some st → unrecorded sid (fingerprint token) st).

Lemma locked_rejected now lat sid token auth r :
  locked sid token r → token_session_id token = Ok (Some sid) → bearer_token auth = token →
  ∃ r', authenticate_with_recovery now lat auth r = (r', Raise (ModelProxyError "invalid_token")) ∧ core r' = core r ∧ rp_store r' = rp_store r.
Proof.
  intros (Ht & Hc & Hst) Hn Hb. eapply unknown_token_rejected; [exact Hb|exact Ht|exact Hn|].
  intros s r' [= <-] Hcore Hsto. unfold session_scope. unfold core in Hcore. injection Hcore as _ _ ->.
  destruct (dget sid (rp_capabilities r)) as [c|] eqn:Ec; [|done]. destruct (Hc c eq_refl) as [Ha Hg].
  rewrite bool_decide_eq_false_2 by done. rewrite bool_decide_eq_false_2; [done|]. intros [?|Hf]%elem_of_app; [done|].
  revert Hf. apply unrecorded_stored. by rewrite Hsto.
Qed.

Section locking.
Context (sid token : string).
Notation lock := (locked sid token).

Lemma lock_same r r' : core r' = core r → rp_store r' = rp_store r → lock r → lock r'.
Proof. unfold core, locked. intros [= -> _ ->] ->. done. Qed.

(** Part of the proxy's own state. *)
Lemma lock_on_proxy {A} (m : proxy_m A) :
  (∀ p, dget token (tm_tokens (px_tokens p)) = None → dget token (tm_tokens (px_tokens (m p).1)) = None) → preserves lock (on_proxy m).
Proof.
  intros Hm r (Ht & Hc & Hs). unfold on_proxy, zoom. specialize (Hm (rp_proxy r) Ht). destruct (m (rp_proxy r)) as [p res].
  by split_and!.
Qed.
Lemma lock_on_tokens {A} (m : tokens_m A) :
  (∀ t, dget token (tm_tokens t) = None → dget token (tm_tokens (m t).1) = None) → preserves lock (on_rp_tokens m).
Proof.
  intros Hm. apply lock_on_proxy. intros p Hp. unfold on_tokens, zoom. specialize (Hm (px_tokens p) Hp).
  by destruct (m (px_tokens p)).
Qed.
Lemma lock_renew now t exp : preserves lock (on_rp_tokens (renew now t exp)).
Proof.
  intros r Hl. rewrite renew_run. destruct (dget t (tm_tokens (rp_tokens r))) as [sc|] eqn:E; [|done].
  destruct Hl as (Ht & ?). split; [|done]. cbn. rewrite dget_dset_ne by congruence. exact Ht.
Qed.
Lemma lock_store m : (∀ st, unrecorded sid (fingerprint token) st → unrecorded sid (fingerprint token) (m st).1) → preserves lock (on_store m).
Proof.
  intros Hm r (Ht & Hc & Hs). unfold on_store. destruct (rp_store r) as [st|] eqn:Es; [|split; [exact Ht|split; [exact Hc|]]; cbn; intros st; rewrite Es; done].
  specialize (Hm st (Hs st eq_refl)). destruct (m st) as [st' res]. split_and!; [done..|]. by intros ? [= <-].
Qed.
Lemma lock_persist now sid' key t gen : fingerprint t ≠ fingerprint token → preserves lock (persist_capability_summary now sid' key t gen).
Proof.
  intros Hne. apply lock_store. intros st Hu. destruct (List.find _ _) as [[l session]|]; [|done]. cbv zeta.
  set (state := dset "modelProxy" _ (s_state session)). apply (write_state_unrecorded now l state); [|done]. intros o _ _. unfold summary_fingerprint, pget. subst state. cbn. rewrite dget_dset_eq.
  change (Some (fingerprint t) ≠ Some (fingerprint token)). congruence.
Qed.
Lemma lock_revoke now sid' : preserves lock (revoke_proxy_session now sid').
Proof.
  unfold revoke_proxy_session. apply preserves_bind.
  - apply lock_on_tokens. intros t Ht. cbn. rewrite dget_ddel_all. by case_decide.
  - intros _. apply preserves_bind; [|intros _; apply lock_store; intros st; apply clear_summaries_unrecorded].
    intros r (Ht & Hc & Hs). split_and!; [done| |done]. cbn. intros c. rewrite dget_ddel. case_decide; [done|]. apply Hc.
Qed.
Lemma lock_set_route sid' d : preserves lock (set_route sid' d).
Proof. by intros r. Qed.
Lemma lock_set_capability sid' c : (sid' = sid → cp_active_token c ≠ token ∧ fingerprint token ∉ cp_grace_token_fingerprints c) →
  preserves lock (set_capability sid' c).
Proof.
  intros Hn r (Ht & Hc & Hs). split_and!; [done| |done]. cbn. intros c'. rewrite dget_dset. case_decide as E; [|apply Hc].
  intros [= <-]. by apply Hn.
Qed.

(** A nonce from which no issued token has the fingerprint of this one. *)
Definition other_nonce (nonce : string) : Prop := ∀ sc, fingerprint (token_for nonce sc) ≠ fingerprint token.

(** One step, with what it returned. *)
Lemma lock_bind {A B} (m : rp_m A) (f : A → rp_m B) r :
  lock (m r).1 → (∀ a r', m r = (r', Ok a) → lock r' → lock (f a r').1) → lock ((m ≫= f) r).1.
Proof. unfold mbind, M_bind. destruct (m r) as [r1 [a|e]]; [|done]. intros Hm Hf. by apply Hf. Qed.
Lemma lock_gets {A B} (g : RuntimeModelProxy → A) (f : A → rp_m B) r : lock (f (g r) r).1 → lock ((gets g ≫= f) r).1.
Proof. done. Qed.
Lemma lock_pure {A B} (x : result A) (f : A → rp_m B) r : lock r → (∀ a, x = Ok a → lock (f a r).1) → lock ((lift x ≫= f) r).1.
Proof. intros Hl Hf. destruct x as [a|e]; [by apply Hf|exact Hl]. Qed.
Lemma lock_guard {B} b e (f : unit → rp_m B) r : lock r → lock (f tt r).1 → lock ((guard_or b e ≫= f) r).1.
Proof. intros Hl Hf. by destruct b. Qed.

Lemma lock_issue now now' nonce sc exp : other_nonce nonce → preserves lock (on_rp_tokens (issue now now' nonce sc (Some exp))).
Proof.
  intros Ho r (Ht & Hl). rewrite issue_run. split; [|exact Hl].
  cbn. rewrite dget_dset_ne; [done|]. intros E. apply (Ho sc). by rewrite E.
Qed.
Lemma issue_value now now' nonce sc exp r r' t : on_rp_tokens (issue now now' nonce sc (Some exp)) r = (r', Ok t) → t = token_for nonce sc.
Proof. rewrite issue_run. intros Hi. injection Hi as _ <-. done. Qed.

Lemma lock_begin_start now h inv profile : preserves lock (begin_start now h inv profile).
Proof.
  intros r Hl. unfold begin_start. apply lock_gets, lock_guard; [done|]. apply lock_pure; [done|]. intros frozen _. apply lock_pure; [done|]. intros rt _.
  apply lock_guard; [done|]. unfold id. destruct (dget (i_sessionId inv) (rp_capabilities r)) as [c|] eqn:Ec; [|done].
  destruct (_ && _); [|apply lock_bind; [by apply lock_revoke|by intros]].
  apply lock_bind; [exact Hl|]. intros [] r1 [= <-] Hl1. apply lock_bind; [|intros [] r2 _ Hl2; apply lock_bind; [by apply lock_renew|by intros]].
  apply lock_set_capability; [|exact Hl1]. intros Hsid. rewrite Hsid in Ec. exact (proj1 (proj2 Hl) c Ec).
Qed.

Lemma lock_begin_finish now nonce b resolved : other_nonce nonce → preserves lock (begin_finish now nonce b resolved).
Proof.
  intros Ho r Hl. apply lock_pure; [done|]. intros v _. apply lock_bind; [by apply lock_issue|]. intros t r1 ->%issue_value Hl1.
  apply lock_bind; [exact Hl1|]. intros [] r2 [= <-] Hl2. apply lock_gets, lock_bind.
  - apply lock_set_capability; [|exact Hl2]. intros E. cbn. split; [intros Et; apply (Ho (bp_scope b)); by rewrite Et|].
    rewrite E. apply unrecorded_stored. apply Hl2.
  - intros [] r3 _ Hl3. apply lock_bind; [apply lock_persist; [apply Ho|done]|]. by intros [] r4 _ Hl4.
Qed.

Lemma lock_refresh now now' nonce inv t : other_nonce nonce → preserves lock (refresh_token now now' nonce inv t).
Proof.
  intros Ho r Hl. apply lock_bind.
  { apply lock_on_tokens; [|done]. intros m Hm. by rewrite token_scope_tokens. }
  intros sc r1 _ Hl1. apply lock_gets, lock_gets, lock_guard; [done|].
  destruct (dget (i_sessionId inv) (rp_capabilities r1)) as [c|] eqn:Ec; [|done].
  apply lock_guard; [done|]. apply lock_bind; [exact Hl1|]. intros [] r2 [= <-] Hl2.
  apply lock_gets, lock_guard; [done|]. apply lock_gets, lock_bind; [by apply lock_issue|]. intros t' r3 ->%issue_value Hl3.
  apply lock_bind; [apply lock_set_capability; [|exact Hl3]|].
  - intros E. cbn. rewrite E in Ec. split; [|exact (proj2 (proj1 (proj2 Hl1) c Ec))]. intros Et. eapply Ho. by rewrite <-Et.
  - intros [] r4 _ Hl4. apply lock_bind; [apply lock_persist; [apply Ho|done]|]. by intros [] r5 _ Hl5.
Qed.

Lemma lock_apply_refresh now inv prev repl : preserves lock (apply_refresh now inv prev repl).
Proof.
  assert (Hv : ∀ t, preserves lock (on_rp_tokens (validate now t))).
  { intros t. apply lock_on_tokens. intros m Hm. by rewrite validate_tokens. }
  unfold apply_refresh. repeat (apply preserves_bind; [first [apply Hv|apply preserves_guard|apply preserves_gets]|intros ?]).
  apply lock_on_tokens. intros m Hm. cbn. rewrite dget_ddel. by case_decide.
Qed.

Lemma lock_authenticate now lat auth : token_session_id token = Ok (Some sid) → preserves lock (authenticate_with_recovery now lat auth).
Proof.
  intros Hn r Hl. destruct (decide (bearer_token auth = token)) as [Hb|Hb].
  { destruct (locked_rejected now lat sid token auth r Hl Hn Hb) as (r' & -> & Hc & Hs). cbn. by apply (lock_same r). }
  revert r Hl. change (preserves lock (authenticate_with_recovery now lat auth)). unfold authenticate_with_recovery. apply preserves_catch.
  { apply preserves_bind; [|intros ?; apply preserves_ret]. apply lock_on_proxy. intros p Hp. by rewrite authenticate_tokens. }
  intros e. apply preserves_bind.
  { destruct e; try apply preserves_raise. destruct (bool_decide (msg = "token_expired")).
    - intros r Hl. apply (lock_same r); [apply recover_core| |done]. unfold on_proxy, zoom. by destruct (recover_expired_scope _ _ _).
    - destruct (bool_decide (msg = "invalid_token")); [|apply preserves_raise].
      apply preserves_bind; [apply preserves_lift|]. intros s. apply preserves_bind; [apply preserves_gets|].
      intros [sc|]; [apply preserves_ret|apply preserves_raise]. }
  intros sc. apply preserves_bind; [apply preserves_gets|]. intros rt. apply preserves_bind; [apply preserves_guard|]. intros _.
  apply preserves_bind; [apply preserves_lift|]. intros _. apply preserves_bind; [|intros ?; apply preserves_ret].
  apply preserves_catch.
  - intros r Hl. rewrite renew_token_run. destruct (dget _ _) as [sc0|]; [|done]. destruct Hl as (Ht & ?). split; [|done].
    cbn. rewrite dget_dset_ne; [exact Ht|done].
  - intros e'. destruct e'; try apply preserves_raise. intros r Hl.
    destruct (adopt_token_cases now now (bearer_token auth) sc r) as [[e' ->]|(_ & -> & _)]; [done|].
    destruct Hl as (Ht & ?). split; [|done]. cbn. rewrite dget_dset_ne; [exact Ht|done].
Qed.

(** What may happen to the proxy afterwards: every operation, for any session, and restarts, which keep nothing but the
    store; what is issued is another token. *)
Inductive proxy_call : RuntimeModelProxy → RuntimeModelProxy → Prop :=
  | call_begin now h inv profile r : proxy_call r (begin_start now h inv profile r).1
  | call_finish now nonce b resolved r : other_nonce nonce → proxy_call r (begin_finish now nonce b resolved r).1
  | call_refresh now now' nonce inv t r : other_nonce nonce → proxy_call r (refresh_token now now' nonce inv t r).1
  | call_apply now inv prev repl r : proxy_call r (apply_refresh now inv prev repl r).1
  | call_revoke now sid' r : proxy_call r (revoke_proxy_session now sid' r).1
  | call_authenticate now lat auth r : proxy_call r (authenticate_with_recovery now lat auth r).1
  | call_restart ttl margin url avail r :
      proxy_call r (mkRuntimeProxy (mkModelProxy (mkTokens ttl []) []) [] [] [] url avail margin (rp_store r)).

Lemma lock_call r r' : token_session_id token = Ok (Some sid) → proxy_call r r' → lock r → lock r'.
Proof.
  intros Hn [ | | | | | | ] Hl;
    [by apply lock_begin_start|by apply lock_begin_finish|by apply lock_refresh|by apply lock_apply_refresh|by apply lock_revoke|by apply lock_authenticate|].
  destruct Hl as (_ & _ & Hs). by split_and!.
Qed.
End locking.

(** A revocation that returns has cleared every summary of the session. *)
Lemma revoke_unrecorded now sid r r1 f st :
  revoke_proxy_session now sid r = (r1, Ok tt) → rp_store r1 = Some st → unrecorded sid f st.
Proof.
  unfold revoke_proxy_session. intros (u & ra & _ & (u' & rb & _ & Hc)%M_bind_Ok)%M_bind_Ok. unfold clear_capability_summary, on_store in Hc.
  destruct (rp_store rb) as [s|] eqn:Es; [|injection Hc as <-; by rewrite Es].
  destruct (clear_summaries now sid (listed_sessions s) s) as [s' res] eqn:Hs. injection Hc as <- ->. cbn. intros [= <-].
  eapply clear_summaries_done; [| |exact Hs].
  - intros l x [_ Hx]%elem_listed. by exists x.
  - intros l x Hl Hx _. left. apply list_elem_of_fmap. exists (l, x). split; [done|]. by apply elem_listed.
Qed.


(** A completed rotation retires the previous token: the replacement authenticates, and the
    previous one is rejected unless its fingerprint is one of those kept from before a restart. *)
Theorem rotation_retires_previous now now' lat r ps inv prev repl r' :
  proxy_reachable r ps → apply_refresh now inv prev repl r = (r', Ok tt) →
  (∃ r2 sc auth, authenticate_with_recovery now' lat ("Bearer " +:+ repl) r' = (r2, Ok (sc, auth)) ∧
     ts_sessionId sc = i_sessionId inv) ∧
  ((∀ c, dget (i_sessionId inv) (rp_capabilities r') = Some c →
      fingerprint prev ∉ cp_grace_token_fingerprints c ++ stored_token_fingerprints (i_sessionId inv) r') →
   ∃ r2, authenticate_with_recovery now' lat ("Bearer " +:+ prev) r' = (r2, Raise (ModelProxyError "invalid_token"))).
Proof.
  intros Hre Ha. pose proof (proxy_reachable_inv _ _ Hre) as [Hr _]. pose proof (apply_refresh_inv now inv prev repl r Hr) as Hr'.
  rewrite Ha in Hr'. cbn in Hr'. apply apply_refresh_core in Ha as [(e & ? & _)|(c & sc & _ & -> & Hne & Hc & Hact & Hp & Hs)]; [done|].
  split.
  - destruct (backed_token_serves now' lat _ (i_sessionId inv) c Hr' Hc) as (r2 & sc2 & auth & Hau & _ & Hs2 & _).
    rewrite Hact in Hau. by exists r2, sc2, auth.
  - intros Hfp. pose proof Hr as (_ & Hnm & _). destruct (Hnm prev sc Hp) as [Hid Hst]. rewrite Hs in Hid.
    assert (∃ sid, token_session_id prev = Ok sid ∧ (sid = Some (i_sessionId inv) ∨ sid = None)) as (sid & Hsid & Hor)
      by (destruct Hid as [-> | ->]; eauto).
    edestruct (unknown_token_rejected now' lat ("Bearer " +:+ prev) prev sid) as (r2 & Hrej & _); [by apply bearer_token_of|..|by exists r2].
    + cbn. by rewrite dget_ddel_eq.
    + done.
    + intros s r2 -> Hcore Hsto. destruct Hor as [[= ->]|?]; [|done].
      unfold session_scope, stored_token_fingerprints. rewrite Hsto. unfold core in Hcore. injection Hcore as _ _ ->. cbn.
      rewrite Hc, Hact, bool_decide_eq_false_2 by done. rewrite bool_decide_eq_false_2; [done|]. exact (Hfp c Hc).
Qed.
End guarantees.

(** ** Concrete histories *)

Lemma append_suffix s s' n n' : String.length n = String.length n' → s +:+ n = s' +:+ n' → n = n'.
Proof.
  intros Hl. revert s'. induction s as [|a s IH]; intros [|a' s'] Heq.
  - done.
  - change ("" +:+ n) with n in Heq. subst n. change (String a' s' +:+ n') with (String a' (s' +:+ n')) in Hl.
    cbn in Hl. rewrite string_length_app in Hl. lia.
  - change ("" +:+ n') with n' in Heq. subst n'. change (String a s +:+ n) with (String a (s +:+ n)) in Hl.
    cbn in Hl. rewrite string_length_app in Hl. lia.
  - change (String a s +:+ n) with (String a (s +:+ n)) in Heq. change (String a' s' +:+ n') with (String a' (s' +:+ n')) in Heq.
    injection Heq as _ Heq. by eapply IH.
Qed.

Lemma token_for_nonce nonce nonce' sc sc' :
  String.length nonce = String.length nonce' → token_for nonce sc = token_for nonce' sc' → nonce = nonce'.
Proof. intros Hl. unfold token_for. rewrite !str_app_assoc. by apply append_suffix. Qed.

Module CapabilityExamples.
#[local] Instance sha : Sha256 := λ s, s.
#[local] Instance repr : PyRepr := λ _, "".
#[local] Instance digest : ScopeDigest := λ d,
  join_with "|" ((λ kv : string * pyval, match kv.2 with PStr s => s | _ => "" end) <$> d).

Definition harness (id : string) : HarnessRecord :=
  mkHarness id "h" "codex" "active" None "" None None None [] [] [] None None 1 0 0.
Definition profile (provider : string) : pydict :=
  [("provider", PDict [("providerId", PStr provider); ("name", PStr provider); ("baseUrl", PStr "https://x.example");
     ("wireApi", PStr "responses"); ("apiType", PStr "responses"); ("model", PStr "m")])].
Definition invocation (id user : string) : InvocationRecord :=
  mkInvocation id "s" "app" "t" user "running" None None None 1 1000 None None None None None [] None.

(** A store with Alice's session [s] in it. *)
Definition store0 : MemoryStore :=
  (MemoryStore_init 0) <| st_session_objs := [new_session "s" "app" "alice" 900] |> <| st_sessions := [(("app", "alice", "s"), 0%nat)] |>.

Definition proxy0 : RuntimeModelProxy :=
  mkRuntimeProxy (mkModelProxy (mkTokens 86400 []) []) [] [] [] "http://127.0.0.1:1/v1" true 30 (Some store0).

Definition pending_of (res : result (credentials + begin_pending)) : option begin_pending :=
  match res with Ok (inr b) => Some b | _ => None end.

(** Alice's run of session [s] on harness [h1]. *)
Definition started : RuntimeModelProxy * result (credentials + begin_pending) :=
  begin_start 1000 (harness "h1") (invocation "i1" "alice") (profile "p1") proxy0.
Definition alice_proxy : RuntimeModelProxy :=
  match pending_of started.2 with Some b => (begin_finish 1000 "n1" b (Ok "key") started.1).1 | None => proxy0 end.
Definition alice_token : string := "haas_mp_cw.1.n1".

Lemma alice_reachable : proxy_reachable alice_proxy [].
Proof.
  unfold alice_proxy. destruct (pending_of started.2) as [b|] eqn:E; [|exact (proxy_init 86400 30 (Some store0) _ _)].
  apply (proxy_finish 1000 "n1" b (Ok "key") started.1 [b] []); [|done|].
  - pose proof (proxy_begin 1000 (harness "h1") (invocation "i1" "alice") (profile "p1") proxy0 [] (proxy_init 86400 30 (Some store0) _ _)) as Hb.
    fold started in Hb. unfold pending_of in E. by destruct started.2 as [[|b']|]; simplify_eq.
  - split; [by vm_compute|]. intros sc. vm_compute. reflexivity.
Qed.

(** The token a year later. *)
Lemma active_token_serves_witness :
  ∃ r' sc auth, authenticate_with_recovery 31536000000000 PNone ("Bearer " +:+ alice_token) alice_proxy = (r', Ok (sc, auth)) ∧
    ts_sessionId sc = "s" ∧ ts_harnessId sc = "h1".
Proof.
  destruct (dget "s" (rp_capabilities alice_proxy)) as [c|] eqn:Ec; [|vm_compute in Ec; discriminate].
  destruct (active_token_serves 31536000000000 PNone alice_proxy [] "s" c alice_reachable Ec)
    as [(r' & sc & auth & Hau & _ & Hs & Hh & _) _].
  assert (cp_active_token c = alice_token ∧ cp_harness_id c = "h1") as [Ht Hh1] by (vm_compute in Ec; injection Ec as <-; split; reflexivity).
  exists r', sc, auth. rewrite <-Ht, <-Hh1. split; [exact Hau|]. split; [exact Hs|exact Hh].
Defined.

(** Alice's token is recorded in the store; after the revocation it is rejected, and still after
    the session has begun again with another token, which is accepted. *)
Definition revoked : RuntimeModelProxy := (revoke_proxy_session 1001 "s" alice_proxy).1.
Definition again : RuntimeModelProxy * result (credentials + begin_pending) :=
  begin_start 1002 (harness "h1") (invocation "i2" "alice") (profile "p1") revoked.
Definition again_proxy : RuntimeModelProxy :=
  match pending_of again.2 with Some b => (begin_finish 1002 "n2" b (Ok "key") again.1).1 | None => again.1 end.

Lemma other_token : other_nonce alice_token "n2".
Proof.
  intros sc E. unfold fingerprint, sha256_hex, sha in E. apply (inj (String.append "sha256:")) in E.
  assert (alice_token = token_for "n1" (mkScope "" "s" "" "" "" 1 0 [] 0)) as Ha by (vm_compute; reflexivity).
  rewrite Ha in E. by apply token_for_nonce in E.
Qed.

Lemma again_later : rtc (proxy_call alice_token) revoked again_proxy.
Proof.
  assert (proxy_call alice_token revoked again.1) as Hb by (unfold again; apply call_begin).
  apply (rtc_l _ _ _ _ Hb). unfold again_proxy.
  destruct (pending_of again.2); [apply rtc_once, call_finish, other_token|apply rtc_refl].
Qed.


(** A rotation of Alice's token. *)
Definition rotated : RuntimeModelProxy := (refresh_token 1002 1002 "n2" (invocation "i1" "alice") alice_token alice_proxy).1.

Lemma rotated_reachable : proxy_reachable rotated [].
Proof.
  apply proxy_refresh; [apply alice_reachable|]. split; [by vm_compute|]. intros sc.
  assert (tm_tokens (rp_tokens alice_proxy) =
    [(token_for "n1" (mkScope "" "s" "" "" "" 1 0 [] 0), mkScope "model_proxy" "s" "" "h1" "p1|p1|https://x.example|responses|responses|" 1 1000 [] 86431000)])
    as -> by (vm_compute; reflexivity).
  cbn [dget]. rewrite decide_False; [done|]. intros ?%token_for_nonce; done.
Qed.

Lemma rotation_retires_previous_witness :
  ∃ r' r2, apply_refresh 1003 (invocation "i1" "alice") alice_token "haas_mp_cw.2.n2" rotated = (r', Ok tt) ∧
    authenticate_with_recovery 1004 PNone ("Bearer " +:+ alice_token) r' = (r2, Raise (ModelProxyError "invalid_token")).
Proof.
  destruct (apply_refresh 1003 (invocation "i1" "alice") alice_token "haas_mp_cw.2.n2" rotated) as [r' res] eqn:Ea.
  assert (res = Ok tt ∧ (∀ c, dget "s" (rp_capabilities r') = Some c →
    fingerprint alice_token ∉ cp_grace_token_fingerprints c ++ stored_token_fingerprints "s" r')) as [-> Hfp].
  { vm_compute in Ea. injection Ea as <- <-. split; [reflexivity|]. intros c [= <-]. vm_compute. change (fingerprint alice_token ∉ ["sha256:haas_mp_cw.2.n2"]).
    rewrite list_elem_of_singleton. discriminate. }
  destruct (rotation_retires_previous 1003 1004 PNone rotated [] (invocation "i1" "alice") alice_token "haas_mp_cw.2.n2" r'
    rotated_reachable Ea) as [_ Hprev]. destruct (Hprev Hfp) as [r2 Hr2]. exists r', r2. split; [reflexivity|exact Hr2].
Defined.

(** Bob's run of his own session [s] on harness [h2], while Alice's is running. *)
Definition bob_started : RuntimeModelProxy * result (credentials + begin_pending) :=
  begin_start 1005 (harness "h2") (invocation "i2" "bob") (profile "p2") alice_proxy.

(** Capabilities are keyed by the bare session id, although sessions are identified by app, user and
    session id: when a second user starts a run of a session with the same id on another
    harness or provider, the first user's running session loses its route and its token,
    which is no longer accepted; on the same harness and provider both users get the same token. *)
Theorem same_session_id_revokes_other_user :
  dmem "s" (rp_capabilities bob_started.1) = false ∧
  (authenticate_with_recovery 1006 PNone ("Bearer " +:+ alice_token) alice_proxy).2 =
    Ok (mkScope "model_proxy" "s" "" "h1" "p1|p1|https://x.example|responses|responses|" 1 1000 [] 86431000,
        "Bearer " +:+ alice_token) ∧
  (authenticate_with_recovery 1006 PNone ("Bearer " +:+ alice_token) bob_started.1).2 = Raise (ModelProxyError "invalid_token") ∧
  (begin_start 1005 (harness "h1") (invocation "i2" "bob") (profile "p1") alice_proxy).2 =
    Ok (inl (mkCredentials "http://127.0.0.1:1/v1" alice_token)).
Proof. split_and!; vm_compute; reflexivity. Qed.
End CapabilityExamples.
