(* ===== verification/Driver.v ===== *)
(** * The turn driver (haas/sessions.py, [SessionRuntime._drive])

    [_drive] is an async generator.  It is modelled as a state machine: its local variables are
    a record, the point where it is suspended (an await or a yield) is a program counter,
    and one step runs the code from there to the next suspension, given what the await
    returned or raised.  Exceptions go through the [except] clauses and the [finally] block
    exactly as written. *)

From S2P Require Import Prelude Errors Dict PyVal Records Store Leases SessionStore Redact Events SessionPolicy.
From S2P Require Import Sessions.

#[local] Open Scope string_scope.
#[local] Open Scope list_scope.
#[local] Open Scope Z_scope.

(** [type(exc).__name__] *)
Definition exn_class (e : exn) : string :=
  match e with
  | ValueError _ => "ValueError" | KeyError _ => "KeyError" | RuntimeError _ => "RuntimeError"
  | AttributeError => "AttributeError" | TypeError => "TypeError" | TimeoutError => "TimeoutError"
  | IdempotencyConflictError _ => "IdempotencyConflictError"
  | IdempotencyExpiredError _ _ _ => "IdempotencyExpiredError"
  | CursorNotFoundError _ => "CursorNotFoundError"
  | DelegatedSessionNotFoundError _ => "DelegatedSessionNotFoundError"
  | ApprovalNotFoundError _ => "ApprovalNotFoundError"
  | ApprovalStateConflictError _ => "ApprovalStateConflictError"
  | InputRequestNotFoundError _ => "InputRequestNotFoundError"
  | InputRequestStateConflictError _ => "InputRequestStateConflictError"
  | LeaseConflictError _ _ => "LeaseConflictError" | LeaseFencingError => "LeaseFencingError"
  | MissingCredentialError => "MissingCredentialError" | InvalidCredentialError => "InvalidCredentialError"
  | AppNotFoundError _ => "AppNotFoundError" | HarnessNotFoundError _ => "HarnessNotFoundError"
  | UnsupportedBaseError _ => "UnsupportedBaseError" | ImmutableFieldError _ => "ImmutableFieldError"
  | SkillBundleInvalidError _ => "SkillBundleInvalidError"
  | ProfileNotFoundError _ => "ProfileNotFoundError" | ProfileConflictError _ => "ProfileConflictError"
  | PolicyWideningRejected _ => "PolicyWideningRejected" | PolicyInvalid _ => "PolicyInvalid"
  | SessionNotFoundError _ => "SessionNotFoundError" | SessionBusyError _ => "SessionBusyError"
  | InvocationNotFoundError _ => "InvocationNotFoundError"
  | InvocationNotRunningError _ => "InvocationNotRunningError"
  | InvocationNotResumableError _ => "InvocationNotResumableError"
  | ResumeRequiredError _ => "ResumeRequiredError"
  | PolicyRevisionConflictError _ => "PolicyRevisionConflictError"
  | PolicyUpdateInvalidError _ => "PolicyUpdateInvalidError"
  | AdapterTurnError _ => "AdapterTurnError" | AdapterTurnTimeoutError _ => "AdapterTurnTimeoutError"
  | AdapterTurnStartError _ _ _ => "AdapterTurnStartError"
  | ArtifactPathRejected _ => "ArtifactPathRejected" | ArtifactNotFoundError _ => "ArtifactNotFoundError"
  | ArtifactQuotaExceeded _ => "ArtifactQuotaExceeded"
  | RuntimeTokenError _ => "RuntimeTokenError" | SecretResolutionError _ => "SecretResolutionError"
  | ModelRouteError _ _ => "ModelRouteError" | ModelProxyError _ => "ModelProxyError"
  | McpValidationError _ => "McpValidationError"
  | SkillMaterializationError _ => "SkillMaterializationError"
  | SandboxWideningRejected _ => "SandboxWideningRejected" | PrivateWorkerError _ => "PrivateWorkerError"
  | BrokerUnavailable _ => "BrokerUnavailable"
  | DelegatedContainerUnavailable _ => "DelegatedContainerUnavailable"
  | SandboxPolicyError _ => "SandboxPolicyError" | HaaSTurnInputInvalid _ => "HaaSTurnInputInvalid"
  | OtherError cls _ => cls
  | DanglingReference => "DanglingReference"
  end.

(** [getattr(exc, "code", None)], when it is a non-empty string. *)
Definition exn_code (e : exn) : option string :=
  match e with
  | AdapterTurnStartError (String _ _ as code) _ _ | OtherError _ (Some (String _ _ as code))
  | ModelRouteError _ (Some (String _ _ as code)) => Some code
  | HaaSTurnInputInvalid _ => Some "haas_input_invalid"
  | _ => None
  end.

(** The stable code of a residual failure. *)
Definition failure_code (e : exn) : string :=
  match exn_code e with
  | Some code => code
  | None =>
      if bool_decide (exn_class e ∈ ["ModelRouteError"; "SecretResolutionError"; "RuntimeTokenError"])
      then "haas_provider_error" else "haas_adapter_error"
  end.

(** [StartTurnRequest], the fields that come from the session. *)
Record StartTurnRequest := mkStartTurn {
  sr_invocationId : string;
  sr_sessionId : string;
  sr_turnId : string;
  sr_appName : string;
  sr_input : list pydict;
  sr_model : pyval;
  sr_instructions : option string;
  sr_timeoutSeconds : spec_float;
  sr_sandbox : pydict;
  sr_policy : pydict;
  sr_credentials : dict string string;
  sr_mcpServers : pyval;
  sr_principalId : string;
  sr_userId : string;
}.

(** The local variables of the generator. *)
Record Drive := mkDrive {
  d_req : RunRequest;
  d_session_id : string;
  d_holder : string;
  d_token : Z;
  d_session : loc;
  d_invocation : loc;
  d_turn : loc;
  d_effective : pydict;
  d_sandbox : pydict;
  d_policy : pydict;
  d_credentials : dict string string;
  d_timeout : spec_float;
  d_streamed : option CanonicalEventRecord;
  d_clean : bool;
}.
#[export] Instance eta_Drive : Eta Drive := λ r, mkDrive
  (d_req r) (d_session_id r) (d_holder r) (d_token r) (d_session r) (d_invocation r) (d_turn r)
  (d_effective r) (d_sandbox r) (d_policy r) (d_credentials r) (d_timeout r) (d_streamed r) (d_clean r).

Definition d_app (d : Drive) : string := h_id (rq_app (d_req d)).
Definition d_key (d : Drive) : SessionKey := (d_app d, rq_user_id (d_req d), d_session_id d).

(** What follows the last yield of a batch. *)
Inductive after_yield := ThenEvents | ThenDone | ThenRaise (e : exn).

(** Where the generator is suspended. *)
Inductive drive_pc :=
  | AtProxy                                    (* await model_proxy.begin *)
  | AtPrepare (resume : bool)                  (* await prepare_session / resume_session *)
  | AtStart (request : StartTurnRequest)       (* await start_turn *)
  | AtEvent                                    (* await anext(adapter_events) *)
  | AtArtifacts (event : HarnessEvent) (status : string)       (* await list_artifacts, streamed terminal *)
  | AtFinalize                                 (* await finalize_turn *)
  | AtFinalArtifacts (terminal : HarnessEvent) (status : string)   (* await list_artifacts, final terminal *)
  | AtYield (events : list CanonicalEventRecord) (next : after_yield)
  | AtRenew (outcome : result unit)            (* await renew_task, in the finally block *)
  | Finished (outcome : result unit).

(** A listed artifact with bytes as content (a reference without content is skipped before the
    lease check, so it has no outcome), as far as the session store goes: not registered
    (unchanged or refused by the artifact store), or newly registered with the metadata of its event. *)
Inductive artifact_outcome := ArtifactSkipped | ArtifactCreated (haas : pydict).

(** What an await returns. *)
Inductive reply :=
  | RCredentials (credentials : dict string string)
  | RNativeRef (native_ref : pydict)
  | RHandle (opaque : pydict)
  | REvent (event : HarnessEvent)
  | RStop
  | RFinal (status : string) (terminal : option HarnessEvent)
  | RArtifacts (outcomes : list artifact_outcome)
  | RNext
  | RRaise (e : exn)
  | RCancelled.

(** The generator's code: it reads and writes the runtime and its local variables. *)
Notation drive_m A := (M (Runtime * Drive) A).

Definition rt {A} (m : rt_m A) : drive_m A := λ '(r, d), let (r', res) := m r in ((r', d), res).
Definition local {A} (f : Drive → A) : drive_m A := gets (λ s, f s.2).
Definition set_local (f : Drive → Drive) : drive_m unit := modify (λ '(r, d), (r, f d)).

Section driver.
Context `{PyRepr} `{RegexEngine} (cfg : RuntimeConfig).

(** ** Before the first await *)

(** The session a run starts from: the stored object, or a new one that no table holds yet;
    refused runs release the lease first. *)
Definition refuse_run {A} (key : SessionKey) (holder : string) (token : Z) (e : exn) : rt_m A :=
  _ ← st (release_lease key holder (Some token)); raise e.

Definition admit_session (now : Z) (req : RunRequest) (session_id : string) (key : SessionKey) (holder : string) (token : Z)
    : rt_m loc :=
  stored ← st (get_session key);
  session ← (match stored with
    | None =>
        session ← st (alloc_session (new_session session_id (h_id (rq_app req)) (rq_user_id req) now));
        initial ← lift (initial_policy (rq_sandbox req) (rq_policy req));
        _ ← st (assign_session session (λ r, r <| s_desiredPolicy := initial |> <| s_appliedPolicy := initial |>));
        mret session
    | Some session =>
        r ← st (load_session session);
        if s_appliedRevision r <? s_desiredRevision r
        then refuse_run key holder token (SessionBusyError "configuration_update_pending")
        else if bool_decide (s_controlState r = "paused") && negb (is_some (rq_continued_from_invocation_id req))
        then refuse_run key holder token (ResumeRequiredError session_id)
        else mret session
    end : rt_m loc);
  r ← st (load_session session);
  _ ← (match rq_continued_from_invocation_id req with
       | Some source =>
           if negb (bool_decide (s_controlState r = "paused")) || negb (s_supportsResume r) ||
              negb (bool_decide (s_resumableInvocationId r = Some source))
           then refuse_run key holder token (InvocationNotResumableError source)
           else st (assign_session session (λ r, r <| s_controlState := "resuming" |>))
       | None => st (assign_session session (set_control "running" false None))
       end);
  _ ← (match rq_effective_profile req with
       | Some profile =>
           st (assign_session session (λ r, match s_effectiveProfile r with
                                            | None => r <| s_effectiveProfile := Some profile |>
                                            | Some _ => r
                                            end))
       | None => mret tt
       end);
  st (put_session now session).

(** [d["a"]["b"]] of a policy. *)
Definition policy_field (domain field : string) (p : pydict) : result pyval :=
  match dget domain p with
  | Some (PDict d) => match dget field d with Some v => Ok v | None => Raise (KeyError field) end
  | Some _ => Raise TypeError
  | None => Raise (KeyError domain)
  end.

(** [effective_sandbox] and [adapter_policy], from the applied policy. *)
Definition effective_sandbox (policy : pydict) : result pydict :=
  mode ← policy_field "workspace" "mode" policy;
  root ← policy_field "workspace" "root" policy;
  roots ← policy_field "workspace" "writableRoots" policy;
  network ← match dget "network" policy with Some n => Ok n | None => Raise (KeyError "network") end;
  Ok [("mode", mode); ("workspaceRoot", root); ("writableRoots", roots); ("network", network)].

Definition adapter_policy (policy : pydict) : result pydict :=
  approval ← policy_field "tools" "approvalMode" policy;
  Ok (dset "approvalPolicy" approval policy).

(** The fresh identifiers of a run. *)
Record run_ids := mkRunIds { ri_session : string; ri_holder : string; ri_invocation : string; ri_turn : string }.

(** The session id of a run: the caller's, or a fresh one. *)
Definition run_session_id (ids : run_ids) (req : RunRequest) : string :=
  match rq_session_id req with
  | Some (String _ _ as sid) => sid
  | _ => "hsess_" +:+ ri_session ids
  end.

(** With the lease taken, to the end of the code before [try]: the session, the invocation and
    turn records and the deadline. *)
Definition drive_begin (now : Z) (ids : run_ids) (req : RunRequest) (session_id : string) (key : SessionKey)
    (holder : string) (token : Z) : rt_m Drive :=
  let app_id := h_id (rq_app req) in
  session ← admit_session now req session_id key holder token;
  r ← st (load_session session);
  let effective := default [] (s_effectiveProfile r) in
  sandbox ← lift (effective_sandbox (s_appliedPolicy r));
  policy ← lift (adapter_policy (s_appliedPolicy r));
  let inv_id := "inv_" +:+ ri_invocation ids in
  let turn_id := "turn_" +:+ ri_turn ids in
  invocation ← st (alloc_invocation
    (mkInvocation inv_id session_id app_id turn_id (rq_user_id req) "running" None None None 1 now None None None
       (rq_continued_from_invocation_id req) (rq_continued_from_turn_id req)
       [("sandbox", PDict sandbox); ("policy", PDict policy); ("policyRevision", PInt (s_appliedRevision r));
        ("principalId", PStr (rq_principal_id req))] None));
  turn ← st (alloc_turn (mkTurn turn_id inv_id session_id "running" 1 now None
    (rq_continued_from_invocation_id req) (rq_continued_from_turn_id req) None));
  _ ← st (put_invocation now invocation);
  _ ← st (put_turn turn);
  timeout ← lift (effective_timeout_seconds (rq_timeout_seconds req) (cf_turn_timeout_s cfg));
  _ ← st (assign_invocation invocation (λ i, i <| i_timeoutSeconds := Some timeout |>
            <| i_deadlineAtMs := Some (i_startedAtMs i + seconds_to_ms timeout) |>));
  _ ← st (put_invocation now invocation);
  mret (mkDrive req session_id holder token session invocation turn effective sandbox policy [] timeout None false).

(** From the call to the end of the code before [try]. *)
Definition drive_start (now : Z) (ids : run_ids) (req : RunRequest) : rt_m Drive :=
  let session_id := run_session_id ids req in
  let key := (h_id (rq_app req), rq_user_id req, session_id) in
  let holder := "run_" +:+ ri_holder ids in
  lease ← catch (st (acquire_lease now key holder (cf_lease_ttl_ms cfg)))
            (λ e, match e with LeaseConflictError _ _ => raise (SessionBusyError session_id) | _ => raise e end);
  drive_begin now ids req session_id key holder (l_token lease).

(** ** Inside [try] *)

(** [_guarded_adapter_call]: the lease is asserted before the call and after it. *)
Definition assert_own_lease (now : Z) : drive_m unit :=
  d ← local (λ d, d);
  rt (st (assert_lease now (d_key d) (d_holder d) (d_token d))).

(** Go to the preparation call. *)
Definition to_prepare (now : Z) : drive_m drive_pc :=
  d ← local (λ d, d);
  r ← rt (st (load_session (d_session d)));
  _ ← assert_own_lease now;
  mret (AtPrepare (is_some (rq_continued_from_invocation_id (d_req d)) || has_native_resume_ref (s_nativeSessionRef r))).

(** The first step inside [try]. *)
Definition drive_enter (now : Z) : drive_m drive_pc := if cf_model_proxy cfg then mret AtProxy else to_prepare now.

(** The request handed to [start_turn]. *)
Definition start_request (d : Drive) (i : InvocationRecord) (t : TurnRecord) : result StartTurnRequest :=
  model ← vget "model" (default (PDict []) (dget "provider" (d_effective d)));
  let app := rq_app (d_req d) in
  Ok (mkStartTurn (i_id i) (d_session_id d) (t_id t) (h_id app) [rq_message (d_req d)]
        (py_or model (opt_str_val (h_defaultModel app)))
        (match h_systemPrompt app with EmptyString => None | p => Some p end)
        (d_timeout d) (d_sandbox d) (d_policy d) (d_credentials d)
        (py_or (pget "mcpServers" (d_effective d)) (PList []))
        (rq_principal_id (d_req d)) (rq_user_id (d_req d))).

(** After [prepare_session] or [resume_session]. *)
Definition after_prepare (now : Z) (native_ref : pydict) : drive_m drive_pc :=
  _ ← assert_own_lease now;
  d ← local (λ d, d);
  session ← rt (store_native_session_ref now (d_session d) native_ref (d_key d) (d_holder d) (d_token d));
  _ ← set_local (λ d, d <| d_session := session |>);
  _ ← assert_own_lease now;
  i ← rt (st (load_invocation (d_invocation d)));
  t ← rt (st (load_turn (d_turn d)));
  request ← lift (start_request d i t);
  mret (AtStart request).

(** After [start_turn]: record the native references, then register the active turn. *)
Definition after_start (now : Z) (opaque : pydict) : drive_m drive_pc :=
  _ ← assert_own_lease now;
  d ← local (λ d, d);
  _ ← rt (st (assign_invocation (d_invocation d) (λ i, i <| i_nativeTurnRef := Some opaque |>)));
  _ ← rt (st (assign_turn (d_turn d) (λ t, t <| t_nativeTurnRef := Some opaque |>)));
  _ ← (match pget "threadId" opaque with
       | PStr (String _ _ as thread_id) =>
           r ← rt (st (load_session (d_session d)));
           let prior := ddel "nonResumable" (default [] (s_nativeSessionRef r)) in
           let native_ref := dset "adapterId" (PStr (cf_adapter_id cfg)) (dset "threadId" (PStr thread_id) prior) in
           session ← rt (store_native_session_ref now (d_session d) native_ref (d_key d) (d_holder d) (d_token d));
           set_local (λ d, d <| d_session := session |>)
       | _ => mret tt
       end);
  _ ← rt (st (put_invocation now (d_invocation d)));
  _ ← rt (st (put_turn (d_turn d)));
  i ← rt (st (load_invocation (d_invocation d)));
  t ← rt (st (load_turn (d_turn d)));
  _ ← rt (modify (λ r, r <| rt_active_objs := rt_active_objs r ++
                              [mkActive (t_id t) (d_session_id d) None None false false] |>
                         <| rt_active := dset (i_id i) (length (rt_active_objs r)) (rt_active r) |>));
  mret AtEvent.

(** A turn event that ends the turn: its status. *)
Definition terminal_status (event : HarnessEvent) : option string :=
  let status := removeprefix "harness.turn." (he_type event) in
  if starts_with "harness.turn." (he_type event) && bool_decide (status ∈ TERMINAL_STATUSES)
  then Some status else None.

(** The events [_publish_turn_artifacts] appends, one per newly registered artifact; a failed
    append is skipped, a lost lease is not. *)
Fixpoint publish_artifacts (now : Z) (outcomes : list artifact_outcome) : drive_m (list CanonicalEventRecord) :=
  match outcomes with
  | [] => mret []
  | outcome :: outcomes' =>
      d ← local (λ d, d);
      published ← (catch
        (_ ← assert_own_lease now;
         match outcome with
         | ArtifactSkipped => mret []
         | ArtifactCreated haas =>
             i ← rt (st (load_invocation (d_invocation d)));
             t ← rt (st (load_turn (d_turn d)));
             e ← rt (st (append_typed now "haas.artifact.registered" (d_app d) (i_userId i) (Some (i_id i))
                           (i_sessionId i) (Some (t_id t)) (d_app d) (cf_adapter_id cfg) "haas"
                           [("role", PStr "model"); ("parts", PList [])] [("artifactDelta", PDict [])] haas));
             mret [e]
         end)
        (λ e, match e with LeaseFencingError => raise e | _ => mret [] end) : drive_m (list CanonicalEventRecord));
      rest ← publish_artifacts now outcomes';
      mret (published ++ rest)
  end.

(** Persist a terminal with the driver's own records. *)
Definition persist_own_terminal (now : Z) (terminal : HarnessEvent) (status : string) : drive_m CanonicalEventRecord :=
  d ← local (λ d, d);
  p ← rt (persist_terminal_event cfg now terminal status (d_app d) (d_invocation d) (d_turn d) (d_session d)
            (d_key d) (d_holder d) (d_token d) true);
  _ ← set_local (λ d, d <| d_session := p.2 |>);
  mret p.1.

(** After the artifacts of a streamed terminal are listed: an interrupt that was asked for as
    a cancellation becomes one. *)
Definition stream_terminal (now : Z) (event : HarnessEvent) (status : string) (artifacts : list CanonicalEventRecord)
    : drive_m drive_pc :=
  d ← local (λ d, d);
  i ← rt (st (load_invocation (d_invocation d)));
  t ← rt (st (load_turn (d_turn d)));
  active ← rt (gets (active_at (i_id i)));
  let cancelled := bool_decide (status = "interrupted") &&
    match active with Some a => bool_decide (at_control_intent a = Some "cancel") | None => false end in
  let status' := if cancelled then "cancelled" else status in
  let event' := if cancelled then terminal_event cfg "cancelled" i t None None None else event in
  e ← persist_own_terminal now event' status';
  _ ← set_local (λ d, d <| d_streamed := Some e |>);
  mret (AtYield (artifacts ++ [e]) ThenEvents).

(** After [anext]. *)
Definition after_event (now : Z) (event : HarnessEvent) : drive_m drive_pc :=
  _ ← assert_own_lease now;
  d ← local (λ d, d);
  match terminal_status event with
  | Some status =>
      match d_streamed d with
      | Some _ => mret AtEvent
      | None =>
          if cf_artifacts cfg then
            _ ← assert_own_lease now; mret (AtArtifacts event status)
          else stream_terminal now event status []
      end
  | None =>
      e ← rt (append_leased cfg now event (d_app d) (d_invocation d) (d_key d) (d_holder d) (d_token d));
      session ← rt (merge_actions now (d_session d) e (d_key d) (d_holder d) (d_token d));
      _ ← set_local (λ d, d <| d_session := session |>);
      mret (AtYield [e] ThenEvents)
  end.

(** Persist and yield the final terminal. *)
Definition final_terminal (now : Z) (terminal : HarnessEvent) (status : string) (artifacts : list CanonicalEventRecord)
    : drive_m drive_pc :=
  e ← persist_own_terminal now terminal status;
  mret (AtYield (artifacts ++ [e]) ThenDone).

(** [try] ends: nothing was raised. *)
Definition finish_clean : drive_m unit := set_local (λ d, d <| d_clean := true |>).

(** After [finalize_turn]; [None] when the body of [try] is over. *)
Definition after_finalize (now : Z) (status : string) (terminal : option HarnessEvent) : drive_m (option drive_pc) :=
  _ ← assert_own_lease now;
  d ← local (λ d, d);
  match d_streamed d with
  | Some _ => _ ← finish_clean; mret None
  | None =>
      i ← rt (st (load_invocation (d_invocation d)));
      t ← rt (st (load_turn (d_turn d)));
      let terminal := default (terminal_event cfg status i t None None None) terminal in
      if cf_artifacts cfg then
        _ ← assert_own_lease now; mret (Some (AtFinalArtifacts terminal status))
      else pc ← final_terminal now terminal status []; mret (Some pc)
  end.

(** ** [except] *)

(** Persist the failure and yield it; the caller then gets [e]. *)
Definition fail_turn (now : Z) (reason code : string) (retryable : bool) (e : exn) : drive_m drive_pc :=
  d ← local (λ d, d);
  event ← rt (persist_failure_terminal cfg now (d_app d) (d_invocation d) (d_turn d) (d_session d) (d_key d)
                (d_holder d) (d_token d) (Some reason) (Some code) (Some retryable));
  session ← rt (require_session (d_app d) (rq_user_id (d_req d)) (d_session_id d));
  _ ← set_local (λ d, d <| d_session := session |>);
  mret (AtYield [event] (ThenRaise e)).

(** The [except] clauses; [None] when the exception is swallowed after a committed terminal. *)
Definition handle (now : Z) (e : exn) : drive_m (option drive_pc) :=
  d ← local (λ d, d);
  i ← rt (st (load_invocation (d_invocation d)));
  let unless_streamed (m : drive_m drive_pc) : drive_m (option drive_pc) :=
    match d_streamed d with
    | Some _ => _ ← finish_clean; mret None
    | None => pc ← m; mret (Some pc)
    end in
  match e with
  | TimeoutError =>
      unless_streamed (fail_turn now "long_task_deadline_exceeded" "haas_request_timeout" true
                         (AdapterTurnTimeoutError (i_id i)))
  | AdapterTurnStartError code retryable detail =>
      unless_streamed (fail_turn now
        (match detail with Some (String _ _ as t) => t | _ => "adapter_turn_start_failed" end) code retryable
        (AdapterTurnError (i_id i)))
  | LeaseFencingError => raise (AdapterTurnError (i_id i))
  | _ => unless_streamed (fail_turn now (exn_class e) (failure_code e) false (AdapterTurnError (i_id i)))
  end.

(** ** [finally] *)

(** Up to the await of the renewal task. *)
Definition enter_finally (outcome : result unit) : drive_m drive_pc :=
  d ← local (λ d, d);
  i ← rt (st (load_invocation (d_invocation d)));
  _ ← (if cf_model_proxy cfg then rt (external (ProxyEnd (i_id i))) else mret tt);
  active ← rt (get_active (i_id i));
  _ ← rt (modify (λ r, r <| rt_active := ddel (i_id i) (rt_active r) |>));
  _ ← (match active with Some l => rt (set_terminal l "control_failed") | None => mret tt end);
  mret (AtRenew outcome).

(** After it: mark an unfinished turn failed, write the records if the lease is still ours,
    and release it. *)
Definition leave_finally (now : Z) (outcome : result unit) : drive_m drive_pc :=
  d ← local (λ d, d);
  i ← rt (st (load_invocation (d_invocation d)));
  _ ← (if negb (d_clean d) && bool_decide (i_status i = "running") then
         _ ← rt (st (assign_invocation (d_invocation d) (λ i, i <| i_status := "failed" |>)));
         _ ← rt (st (assign_turn (d_turn d) (λ t, t <| t_status := "failed" |>)));
         r ← rt (st (load_session (d_session d)));
         if bool_decide (s_controlState r ∈ BUSY_STATES)
         then rt (st (assign_session (d_session d) (set_control "idle" false None))) else mret tt
       else mret tt);
  _ ← catch
    (_ ← assert_own_lease now;
     _ ← rt (st (put_invocation now (d_invocation d)));
     _ ← rt (st (put_turn (d_turn d)));
     session ← rt (st (refresh_policy_state (d_session d) (d_key d)));
     _ ← set_local (λ d, d <| d_session := session |>);
     _ ← rt (st (put_session now session)); mret tt)
    (λ e, match e with LeaseFencingError => mret tt | _ => raise e end);
  _ ← rt (st (release_lease (d_key d) (d_holder d) (Some (d_token d))));
  mret (Finished outcome).

(** ** One step *)

(** Run a piece of the [try] body: its exceptions go to [handle], and both a normal end and
    an exception that is not handled go to [finally]. *)
Definition in_try (now : Z) (body : drive_m (option drive_pc)) : drive_m drive_pc := λ s,
  match body s with
  | (s1, Ok (Some pc)) => (s1, Ok pc)
  | (s1, Ok None) => enter_finally (Ok tt) s1
  | (s1, Raise e) =>
      match handle now e s1 with
      | (s2, Ok (Some pc)) => (s2, Ok pc)
      | (s2, Ok None) => enter_finally (Ok tt) s2
      | (s2, Raise e') => enter_finally (Raise e') s2
      end
  end.

Definition stay (m : drive_m drive_pc) : drive_m (option drive_pc) := pc ← m; mret (Some pc).

(** An await of the [try] body was cancelled: [CancelledError] is not an [Exception]. *)
Definition cancelled_error : exn := OtherError "CancelledError" None.

(** The step from a suspension with the await's outcome; [None] when the outcome does not
    fit the suspension. *)
Definition drive_step (now : Z) (pc : drive_pc) (r : reply) : option (drive_m drive_pc) :=
  match pc, r with
  | Finished _, _ => None
  | AtRenew outcome, _ => Some (leave_finally now outcome)
  | _, RCancelled => Some (enter_finally (Raise cancelled_error))
  | AtYield (_ :: (_ :: _) as rest) next, RNext => Some (mret (AtYield (tail rest) next))
  | AtYield _ ThenEvents, RNext => Some (mret AtEvent)
  | AtYield _ ThenDone, RNext => Some (_ ← finish_clean; enter_finally (Ok tt))
  | AtYield _ (ThenRaise e), RNext => Some (enter_finally (Raise e))
  | AtYield _ _, _ => None
  | (AtArtifacts _ _ | AtFinalArtifacts _ _), RRaise e =>
      (* listing artifacts is best effort, a lost lease apart *)
      Some (in_try now (match e with
        | LeaseFencingError => raise e
        | _ => stay (match pc with
                     | AtArtifacts event status => stream_terminal now event status []
                     | AtFinalArtifacts terminal status => final_terminal now terminal status []
                     | _ => mret pc
                     end)
        end))
  | _, RRaise e => Some (in_try now (raise e))
  | AtProxy, RCredentials c =>
      Some (in_try now (stay (_ ← set_local (λ d, d <| d_credentials := c |>); to_prepare now)))
  | AtPrepare _, RNativeRef native_ref => Some (in_try now (stay (after_prepare now native_ref)))
  | AtStart _, RHandle opaque => Some (in_try now (stay (after_start now opaque)))
  | AtEvent, REvent event => Some (in_try now (stay (after_event now event)))
  | AtEvent, RStop => Some (in_try now (stay (_ ← assert_own_lease now; mret AtFinalize)))
  | AtArtifacts event status, RArtifacts outcomes =>
      Some (in_try now (stay
        (_ ← assert_own_lease now;
         published ← publish_artifacts now outcomes;
         stream_terminal now event status published)))
  | AtFinalize, RFinal status terminal => Some (in_try now (after_finalize now status terminal))
  | AtFinalArtifacts terminal status, RArtifacts outcomes =>
      Some (in_try now (stay
        (_ ← assert_own_lease now;
         published ← publish_artifacts now outcomes;
         final_terminal now terminal status published)))
  | _, _ => None
  end.

(** [_renew_lease_until_done]: one tick of the renewal task; a lost lease ends the task. *)
Definition renew_tick (now : Z) (d : Drive) : rt_m bool :=
  catch (_ ← st (renew_lease now now (d_key d) (d_holder d) (d_token d) (cf_lease_ttl_ms cfg)); mret true)
    (λ e, match e with LeaseFencingError => mret false | _ => raise e end).

(** The whole start: the code before [try], then the first step inside it. *)
Definition drive_open (now : Z) (ids : run_ids) (req : RunRequest) (r : Runtime) : (Runtime * result (Drive * drive_pc)) :=
  match drive_start now ids req r with
  | (r1, Raise e) => (r1, Raise e)
  | (r1, Ok d) =>
      match in_try now (stay (drive_enter now)) (r1, d) with
      | ((r2, d2), Ok pc) => (r2, Ok (d2, pc))
      | ((r2, d2), Raise e) => (r2, Raise e)
      end
  end.

End driver.
