(* ===== verification/Adapter.v ===== *)
(** * The Codex harness adapter (haas/harnesses/codex_app_server/adapter.py)

    The adapter drives one Codex app server for all sessions: it keeps a native thread per
    session, starts turns on it, streams a turn's messages as harness events until exactly one
    terminal, records native prompts for the caller to answer and keeps command output as
    evidence.  Its coroutines are resumptions ([Async]); the event generator is a machine over its
    suspension points.  Turn contexts are objects shared by the table and the generator that
    streams them, so they live in a heap. *)

From stdpp Require Import gmap.
From S2P Require Import Prelude Errors Dict PyVal PyInt PyText Records Store Interactions Encoding Redact Events Sandbox Evidence Normalizer.
From S2P Require Import CodexRpc CodexTurn Async ModelProxy.
From S2P Require Driver.

#[local] Open Scope string_scope.
#[local] Open Scope list_scope.
#[local] Open Scope Z_scope.

(** ** State *)

Definition DEFAULT_CWD : string := "/workspace".
Definition DEFAULT_APPROVAL_POLICY : string := "on-request".
Definition BUILTIN_COWORK_RECALL_MCP_NAME : string := "manager-cowork-recall".

(** [SessionScope]: application, user, session. *)
Definition SessionScope : Type := string * string * string.
(** The key of a command's evidence: turn and tool call. *)
Definition EvidenceKey : Type := string * string.

(** [CodexAdapter]'s attributes; [ad_contexts] holds every turn context created, the tables refer to
    them by position.  The two [bind] flags say whether the stores are set. *)
Record CodexAdapter := mkAdapter {
  ad_session_threads : dict SessionScope string;
  ad_contexts : list TurnContext;
  ad_turn_contexts : dict string nat;
  ad_turn_index : dict string string;
  ad_session_cwds : dict SessionScope string;
  ad_generation : Z;
  ad_non_resumable : gset SessionScope;
  ad_interaction_store : bool;
  ad_pending_interactions : gset string;
  ad_execution_evidence : bool;
  ad_command_evidence_refs : dict EvidenceKey string;
  ad_command_evidence_output : dict EvidenceKey string;
  ad_command_evidence_truncated : gset EvidenceKey;
}.
#[export] Instance eta_CodexAdapter : Eta CodexAdapter := λ a, mkAdapter
  (ad_session_threads a) (ad_contexts a) (ad_turn_contexts a) (ad_turn_index a) (ad_session_cwds a) (ad_generation a)
  (ad_non_resumable a) (ad_interaction_store a) (ad_pending_interactions a) (ad_execution_evidence a)
  (ad_command_evidence_refs a) (ad_command_evidence_output a) (ad_command_evidence_truncated a).

(** [CodexAdapter.__init__] *)
Definition new_adapter : CodexAdapter := mkAdapter [] [] [] [] [] 0 ∅ false ∅ false [] [] ∅.

(** What the adapter's code reads and writes: itself, the RPC client, the store of prompts, the
    evidence store and the counters of unknown notifications. *)
Record Host := mkHost {
  ho_adapter : CodexAdapter;
  ho_rpc : CodexJsonRpc;
  ho_store : MemoryStore;
  ho_evidence : dict string ExecutionEvidenceRecord;
  ho_counts : dict string Z;
}.
#[export] Instance eta_Host : Eta Host := λ h, mkHost (ho_adapter h) (ho_rpc h) (ho_store h) (ho_evidence h) (ho_counts h).

Definition on_adapter (f : CodexAdapter → CodexAdapter) (h : Host) : Host := h <| ho_adapter := f (ho_adapter h) |>.

(** [bind_interaction_store], [bind_execution_evidence_store] *)
Definition bind_interaction_store (h : Host) : Host := on_adapter (λ a, a <| ad_interaction_store := true |>) h.
Definition bind_execution_evidence_store (h : Host) : Host := on_adapter (λ a, a <| ad_execution_evidence := true |>) h.

Definition host_m (A : Type) : Type := M Host A.
Definition on_store {A} (m : store_m A) : host_m A := λ h, let (s, r) := m (ho_store h) in (h <| ho_store := s |>, r).
Definition on_evidence {A} (m : evidence_m A) : host_m A := λ h, let (s, r) := m (ho_evidence h) in (h <| ho_evidence := s |>, r).
Definition on_counts {A} (m : M (dict string Z) A) : host_m A := λ h, let (s, r) := m (ho_counts h) in (h <| ho_counts := s |>, r).
Definition adapter_is {A} (f : CodexAdapter → A) : host_m A := gets (λ h, f (ho_adapter h)).

(** A context object, and assigning to it. *)
Definition context_at (l : nat) (h : Host) : option TurnContext := ad_contexts (ho_adapter h) !! l.
Definition set_context (l : nat) (c : TurnContext) (h : Host) : Host := on_adapter (λ a, a <| ad_contexts := <[l := c]> (ad_contexts a) |>) h.
Definition load_context (l : nat) : host_m TurnContext := λ h,
  (h, match context_at l h with Some c => Ok c | None => Raise DanglingReference end).

(** ** Exceptions and awaited calls *)

(** What the adapter's code can raise: an exception of the sidecar or of the RPC client. *)
Inductive adapter_exn := Py (e : exn) | Rpc (e : rpc_exn).

(** [except CodexConnectionError]: every exception of the RPC client but a cancellation. *)
Definition is_connection_error (e : adapter_exn) : bool :=
  match e with Rpc CancelledError | Py _ => false | Rpc _ => true end.

(** What a coroutine awaits: the connection lock, connecting, a request, a response, closing. *)
Inductive rpc_call :=
  | CallLock
  | CallConnect
  | CallRequest (method : string) (params : pydict)
  | CallRespond (request_id : pyval) (res : pydict)
  | CallClose.
Definition rpc_reply (c : rpc_call) : Type :=
  match c with
  | CallLock | CallClose => unit
  | CallConnect | CallRespond _ _ => unit + adapter_exn
  | CallRequest _ _ => pydict + adapter_exn
  end.

Notation adapter_task A := (task Host adapter_exn rpc_call rpc_reply A).

Definition fails {A} (e : adapter_exn) : adapter_task A := throw e.
(** The answer, or the exception, of an awaited call. *)
Definition settle {A} (r : A + adapter_exn) : adapter_task A := match r with inl a => mret a | inr e => fails e end.
(** Synchronous code inside a coroutine. *)
Definition sync {A} (m : host_m A) : adapter_task A := λ h,
  let (h', r) := m h in (h', Done match r with Ok a => inl a | Raise e => inr (Py e) end).
Definition see {A} (f : Host → A) : adapter_task A := look f.
Definition update (f : CodexAdapter → CodexAdapter) : adapter_task unit := alter (on_adapter f).

Definition rpc_request (method : string) (params : pydict) : adapter_task pydict :=
  r ← (await (CallRequest method params) : adapter_task _); settle r.

(** [str(exc)] of an exception of the RPC client. *)
Definition rpc_text (e : rpc_exn) : string :=
  match e with
  | CodexNotReadyError => "codex app-server is not connected"
  | CodexConnectionError msg | CodexSubscriberOverloaded msg => msg
  | CodexRequestTimeout method => "request " +:+ method +:+ " timed out"
  | CodexRPCError method _ safe_message => "jsonrpc_error:" +:+ method +:+ ":" +:+ safe_message
  | CancelledError => ""
  end.

(** [_is_thread_not_found] *)
Definition is_thread_not_found (e : adapter_exn) : bool :=
  match e with Rpc e => str_in "thread not found" (lower (rpc_text e)) | Py _ => false end.

(** [d.update(other)] *)
Definition dict_update (d other : pydict) : pydict := foldl (λ d kv, dset kv.1 kv.2 d) d other.
(** [d.get(k, v)] *)
Definition pget_or (k : string) (v : pyval) (d : pydict) : pyval := default v (dget k d).

(** ** Scopes *)

Definition scope_session (s : SessionScope) : string := s.2.

(** The scopes the adapter knows, as the set comprehension collects them. *)
Definition known_scopes (a : CodexAdapter) : list SessionScope :=
  dkeys (ad_session_threads a) ++ dkeys (ad_session_cwds a) ++ elements (ad_non_resumable a).

(** [_request_scope] *)
Definition request_scope (session_id app_name user_id : string) (a : CodexAdapter) : SessionScope :=
  let requested := (app_name, user_id, session_id) in
  if negb (bool_decide (app_name = "")) || negb (bool_decide (user_id = "")) then requested
  else match remove_dups (keep (λ s, bool_decide (scope_session s = session_id)) (known_scopes a)) with
       | [scope] => scope
       | _ => requested
       end.

(** [_ensure_connected]: connect, or reconnect under a new generation. *)
Definition connected_ready (h : Host) : bool := rpc_connected (ho_rpc h) && rpc_initialized (ho_rpc h).
Definition ensure_connected : adapter_task unit :=
  ready ← see connected_ready;
  if ready : bool then mret tt
  else
    _ ← (await CallLock : adapter_task unit);
    ready ← see connected_ready;
    if ready : bool then mret tt
    else
      _ ← update (λ a, a <| ad_generation := ad_generation a + 1 |>);
      r ← (await CallConnect : adapter_task (unit + adapter_exn));
      settle r.

(** ** Requests *)

(** [SandboxSpec] and [StartTurnRequest], as the adapter reads them ([harnesses/base.py]). *)
Record TurnSandbox := mkTurnSandbox {
  tb_mode : string; tb_network : pyval; tb_workspaceRoot : option string; tb_writableRoots : pyval;
}.
Record TurnRequest := mkTurnRequest {
  tr_invocationId : string; tr_sessionId : string; tr_turnId : string; tr_appName : string;
  tr_input : list pyval; tr_model : option string; tr_instructions : option string; tr_timeoutSeconds : spec_float;
  tr_sandbox : TurnSandbox; tr_policy : pydict; tr_credentials : pydict; tr_mcpServers : list pyval;
  tr_principalId : string; tr_userId : string;
}.

(** [TurnHandle] *)
Record TurnHandle := mkTurnHandle { th_turnId : string; th_sessionId : string; th_invocationId : string; th_opaque : pydict }.

(** [PreparedSession], [SessionInspection] *)
Record PreparedSession := mkPrepared { ps_sessionId : string; ps_nativeRef : pydict }.
Record SessionInspection := mkInspection { si_status : string; si_nativeRef : pydict }.

Definition request_of_scope (r : TurnRequest) : SessionScope := (tr_appName r, tr_userId r, tr_sessionId r).

Section requests.
Context `{PyRepr} `{FloatText}.

(** [float(v)] *)
Definition py_float (v : pyval) : result spec_float :=
  match v with
  | PFloat f => Ok f
  | PBool b => Ok (float_of_Z (if b then 1 else 0))
  | PInt z => match float_of_Z z with
              | S754_infinity _ => Raise (OtherError "OverflowError" None)
              | f => Ok f
              end
  | PStr s => match float_of_text s with
              | Some f => Ok f
              | None => Raise (ValueError "could not convert string to float")
              end
  | _ => Raise TypeError
  end.

(** The pairs of strings among the headers. *)
Definition text_headers (headers : pydict) : pydict := keep (λ kv : string * pyval, is_str kv.2) headers.

(** Whether a declared server is the built-in recall server on the loopback address. *)
Definition recall_server (data : pydict) : bool :=
  py_eqb (pget "name" data) (PStr BUILTIN_COWORK_RECALL_MCP_NAME) &&
  match pget "haas_builtin" data with PBool true => true | _ => false end &&
  py_eqb (pget "transport" data) (PStr "http").

(** One iteration of [_mcp_server_overrides]; a [McpServerConfig] is its JSON dump. *)
Definition mcp_override (servers : pydict) (server : pyval) : result pydict :=
  match server with
  | PDict data =>
      if negb (recall_server data) then Ok servers
      else
        match pget "url" data, pget "headers" data with
        | PStr url, PDict headers =>
            if negb (starts_with "http://127.0.0.1:" url) then Ok servers
            else
              match nonempty_text (pget "X-HaaS-Session-ID" headers), nonempty_text (pget "X-HaaS-Recall-Token" headers) with
              | Some _, Some _ =>
                  timeout ← py_float (py_or (pget "timeoutSeconds" data) (PInt 10));
                  Ok (dset BUILTIN_COWORK_RECALL_MCP_NAME (PDict
                       [("url", PStr url); ("http_headers", PDict (text_headers headers));
                        ("enabled", PBool (truthy (pget_or "enabled" (PBool true) data)));
                        ("required", PBool (truthy (pget_or "required" (PBool false) data)));
                        ("tool_timeout_sec", PFloat timeout); ("enabled_tools", PList [PStr "recall"]);
                        ("default_tools_approval_mode", PStr "approve")]) servers)
              | _, _ => Ok servers
              end
        | _, _ => Ok servers
        end
  | _ => Ok servers
  end.

Fixpoint mcp_overrides_go (servers : pydict) (l : list pyval) : result pydict :=
  match l with [] => Ok servers | server :: l' => servers ← mcp_override servers server; mcp_overrides_go servers l' end.

(** [_mcp_server_overrides] *)
Definition mcp_server_overrides (request : TurnRequest) : result pydict := mcp_overrides_go [] (tr_mcpServers request).

(** [d["k"]] *)
Definition item_of (k : string) (d : pydict) : result pyval :=
  match dget k d with Some v => Ok v | None => Raise (KeyError k) end.

(** [_model_overrides] *)
Definition model_overrides (request : TurnRequest) : result pydict :=
  if bool_decide (tr_credentials request = []) then Ok []
  else
    base_url ← item_of "baseUrl" (tr_credentials request);
    token ← item_of "token" (tr_credentials request);
    Ok [("model", opt_str_val (tr_model request)); ("modelProvider", PStr "haas");
        ("config", PDict
          [("features.multi_agent", PBool false);
           ("features.default_mode_request_user_input",
              PBool (py_eqb (pget "approvalPolicy" (tr_policy request)) (PStr DEFAULT_APPROVAL_POLICY)));
           ("web_search", PStr "disabled"); ("model_reasoning_summary", PStr "auto");
           ("model_providers.haas", PDict
              [("name", PStr "HaaS"); ("base_url", base_url); ("wire_api", PStr "responses");
               ("requires_openai_auth", PBool false);
               ("http_headers", PDict [("Authorization", PStr ("Bearer " +:+ py_str token))])])])].

(** The overrides of a thread request: model settings, then the servers in its configuration. *)
Definition with_overrides (params : pydict) (request : TurnRequest) : result pydict :=
  overrides ← model_overrides request;
  let params := dict_update params overrides in
  servers ← mcp_server_overrides request;
  Ok (if bool_decide (servers = []) then params
      else match pget_or "config" (PDict []) params with
           | PDict config => dset "config" (PDict (dset "mcp_servers" (PDict servers) config)) params
           | _ => params
           end).

(** [str(thread.get("id", ""))] of the answer to a thread request. *)
Definition answered_thread (res : pydict) : string :=
  match pget_or "thread" (PDict []) res with
  | PDict thread => py_str (pget_or "id" (PStr "") thread)
  | _ => ""
  end.

(** [_start_thread] *)
Definition start_thread (scope : SessionScope) (cwd mode : string) (request : TurnRequest) : adapter_task string :=
  sandbox ← sync (lift (to_thread_sandbox_mode mode));
  params ← sync (lift (with_overrides
    ([("cwd", PStr cwd); ("sandbox", PStr sandbox);
      ("approvalPolicy", pget_or "approvalPolicy" (PStr DEFAULT_APPROVAL_POLICY) (tr_policy request))] ++
     match tr_model request with Some (String a s) => [("model", PStr (String a s))] | _ => [] end) request));
  res ← rpc_request "thread/start" params;
  let thread_id := answered_thread res in
  if bool_decide (thread_id = "") then fails (Rpc (CodexConnectionError "thread/start returned no thread id"))
  else
    _ ← update (λ a, a <| ad_session_threads := dset scope thread_id (ad_session_threads a) |>
                       <| ad_non_resumable := ad_non_resumable a ∖ {[scope]} |>);
    mret thread_id.

(** [_resume_thread] *)
Definition resume_thread (thread_id : string) (scope : SessionScope) (cwd : string) (request : option TurnRequest) : adapter_task string :=
  let params := [("threadId", PStr thread_id); ("cwd", PStr cwd); ("excludeTurns", PBool true)] in
  params ← (match request with
            | None => mret params
            | Some request =>
                _ ← (if bool_decide (tr_credentials request = []) then mret []
                     else rpc_request "thread/unsubscribe" [("threadId", PStr thread_id)]);
                sync (lift (with_overrides params request))
            end : adapter_task pydict);
  res ← rpc_request "thread/resume" params;
  let resumed := answered_thread res in
  if bool_decide (resumed = "") then mret thread_id
  else
    _ ← update (λ a, a <| ad_session_threads := dset scope resumed (ad_session_threads a) |>);
    mret resumed.

(** [_resume_or_drop_thread] *)
Definition resume_or_drop_thread (thread_id : string) (scope : SessionScope) (cwd : string) (request : TurnRequest) : adapter_task string :=
  task_try (resume_thread thread_id scope cwd (Some request))
    (λ e, if is_connection_error e && is_thread_not_found e then
            _ ← update (λ a, a <| ad_session_threads := ddel scope (ad_session_threads a) |>);
            mret ""
          else fails e).

(** ** Sessions *)

(** [prepare_session] *)
Definition prepare_session (session_id : string) : adapter_task PreparedSession :=
  _ ← ensure_connected;
  generation ← see (λ h, ad_generation (ho_adapter h));
  mret (mkPrepared session_id [("connected", PBool true); ("generation", PInt generation)]).

(** The thread of a scope, empty if there is none. *)
Definition thread_of (scope : SessionScope) (a : CodexAdapter) : string := default "" (dget scope (ad_session_threads a)).

(** [_resume_thread], with a connection error read as no thread. *)
Definition resumed_or_none (thread_id : string) (scope : SessionScope) : adapter_task string :=
  task_try (resume_thread thread_id scope DEFAULT_CWD None) (λ e, if is_connection_error e then mret "" else fails e).

(** [resume_session] *)
Definition resume_session (session_id app_name user_id : string) (opaque : pydict) : adapter_task PreparedSession :=
  _ ← ensure_connected;
  scope ← see (λ h, request_scope session_id app_name user_id (ho_adapter h));
  known ← see (λ h, thread_of scope (ho_adapter h));
  let thread_id := if bool_decide (known = "") then py_str (pget_or "threadId" (PStr "") opaque) else known in
  resumed ← (if bool_decide (thread_id = "") then mret "" else resumed_or_none thread_id scope : adapter_task string);
  generation ← see (λ h, ad_generation (ho_adapter h));
  mret (mkPrepared session_id
    (if bool_decide (resumed = "") then [("nonResumable", PBool true); ("generation", PInt generation)]
     else [("threadId", PStr resumed); ("generation", PInt generation)])).

(** [inspect_session] *)
Definition inspect_session (session_id app_name user_id : string) : adapter_task SessionInspection :=
  scope ← see (λ h, request_scope session_id app_name user_id (ho_adapter h));
  thread_id ← see (λ h, thread_of scope (ho_adapter h));
  gone ← see (λ h, bool_decide (scope ∈ ad_non_resumable (ho_adapter h)));
  if gone : bool then mret (mkInspection "non_resumable" [])
  else if bool_decide (thread_id = "") then mret (mkInspection "unknown" [])
  else
    resumed ← task_try (_ ← ensure_connected; resume_thread thread_id scope DEFAULT_CWD None)
                (λ e, if is_connection_error e then mret "" else fails e);
    if bool_decide (resumed = "") then
      _ ← update (λ a, a <| ad_non_resumable := {[scope]} ∪ ad_non_resumable a |>);
      mret (mkInspection "non_resumable" [])
    else
      generation ← see (λ h, ad_generation (ho_adapter h));
      mret (mkInspection "active" [("threadId", PStr resumed); ("generation", PInt generation)]).

(** [cleanup_session] *)
Definition cleanup_session (session_id app_name user_id : string) : host_m string :=
  scope ← adapter_is (request_scope session_id app_name user_id);
  _ ← modify (on_adapter (λ a, a <| ad_session_threads := ddel scope (ad_session_threads a) |>
                                 <| ad_session_cwds := ddel scope (ad_session_cwds a) |>
                                 <| ad_non_resumable := ad_non_resumable a ∖ {[scope]} |>));
  mret "cleaned".

End requests.

(** ** Starting a turn *)

Definition REASONING_GUIDANCE : string :=
  "Write safe reasoning summaries in the language of the user's latest message. " +:+
  "For Chinese input, use concise Simplified Chinese intent or progress descriptions. " +:+
  "Before every tool-call batch, emit exactly one short sentence describing the current goal " +:+
  "or progress, and emit a new sentence before a later tool-call batch. " +:+
  "Describe the goal or observed progress; do not echo literal tool names, commands, paths, " +:+
  "or transport labels. Do not reveal raw chain-of-thought.".

Definition blank_line : string := String (Ascii.ascii_of_nat 10) (String (Ascii.ascii_of_nat 10) "").

(** The instructions of a turn: the session's, the guidance, the notice of disabled tools. *)
Definition turn_instructions (instructions : option string) (policy : pydict) : string :=
  let guided := match instructions with
                | Some (String a s) => String a s +:+ blank_line +:+ REASONING_GUIDANCE
                | _ => REASONING_GUIDANCE
                end in
  match disabled_tools policy with
  | [] => guided
  | names => guided +:+ blank_line +:+ "Do not use the following tools: " +:+ join_with ", " names +:+ ". They are disabled by policy."
  end.

(** [_map_native_rpc_error] *)
Definition map_native_rpc_error (code : pyval) : string * bool :=
  if py_eqb code (PInt (-32601)) || py_eqb code (PInt (-32602)) then ("haas_adapter_config_error", false)
  else if is_int code && (py_eqb code (PInt (-32603)) || ((-32099 <=? int_of code) && (int_of code <=? -32000)))
  then ("haas_adapter_unavailable", true)
  else ("haas_codex_rpc_error", true).

Section turns.
Context `{PyRepr} `{FloatText}.

(** The [except] clauses around each phase of [start_turn]; [_safe_rpc_detail] is the detail of a
    native error. *)
Definition start_error (timed_out unavailable : string) (e : adapter_exn) : adapter_exn :=
  match e with
  | Rpc (CodexRequestTimeout _) => Py (AdapterTurnStartError "haas_request_timeout" true (Some timed_out))
  | Rpc (CodexRPCError method code _) =>
      let (stable, retryable) := map_native_rpc_error code in
      Py (AdapterTurnStartError stable retryable (Some ("codex_rpc:" +:+ method +:+ ":" +:+ py_str code)))
  | Rpc CancelledError | Py _ => e
  | Rpc _ => Py (AdapterTurnStartError "haas_adapter_unavailable" true (Some unavailable))
  end.
Definition mapped {A} (timed_out unavailable : string) (m : adapter_task A) : adapter_task A :=
  task_try m (λ e, fails (start_error timed_out unavailable e)).

(** The scope migration of [start_turn]: what was kept under the session alone moves to the full scope. *)
Definition adopt_legacy (scope legacy : SessionScope) (cwd : string) (a : CodexAdapter) : CodexAdapter :=
  let a := match dget scope (ad_session_threads a), dget legacy (ad_session_threads a) with
           | None, Some thread => a <| ad_session_threads := dset scope thread (ddel legacy (ad_session_threads a)) |>
           | _, _ => a
           end in
  let a := if negb (bool_decide (scope ∈ ad_non_resumable a)) && bool_decide (legacy ∈ ad_non_resumable a)
           then a <| ad_non_resumable := {[scope]} ∪ (ad_non_resumable a ∖ {[legacy]}) |> else a in
  a <| ad_session_cwds := dset scope cwd (ad_session_cwds a) |>.

(** The writable roots as texts up to the first that has no text, and whether there is one:
    [not root] skips what is empty, [root.startswith] raises on the rest. *)
Fixpoint root_texts (roots : list pyval) : list string * bool :=
  match roots with
  | [] => ([], false)
  | PStr s :: roots' => let (l, bad) := root_texts roots' in (s :: l, bad)
  | v :: roots' => if truthy v then ([], true) else root_texts roots'
  end.

(** [sandbox.writableRoots or [cwd]], a list or [[cwd]]. *)
Definition turn_roots (sandbox : TurnSandbox) (cwd : string) : list pyval :=
  match py_or (tb_writableRoots sandbox) (PList [PStr cwd]) with PList l => l | _ => [PStr cwd] end.

Definition turn_sandbox_policy (sandbox : TurnSandbox) (cwd : string) (policy : pydict) : result pydict :=
  let net := match tb_network sandbox with PNone => pget "network" policy | v => v end in
  let (roots, bad) := root_texts (turn_roots sandbox cwd) in
  projected ← to_turn_sandbox_policy (tb_mode sandbox) roots (NetValue net);
  if bad && py_eqb (pget "type" projected) (PStr "workspaceWrite") then Raise AttributeError else Ok projected.

(** [str(sandbox.workspaceRoot or DEFAULT_CWD)] *)
Definition turn_cwd (sandbox : TurnSandbox) : string :=
  match tb_workspaceRoot sandbox with Some (String a s) => String a s | _ => DEFAULT_CWD end.

(** [turn_params] *)
Definition turn_params (thread_id : string) (request : TurnRequest) : result pydict :=
  let sandbox := tr_sandbox request in
  let cwd := turn_cwd sandbox in
  input ← to_codex_input (tr_input request) false;
  policy ← turn_sandbox_policy sandbox cwd (tr_policy request);
  Ok ([("threadId", PStr thread_id); ("input", PList (PDict <$> input)); ("sandboxPolicy", PDict policy);
       ("approvalPolicy", pget_or "approvalPolicy" (PStr DEFAULT_APPROVAL_POLICY) (tr_policy request)); ("cwd", PStr cwd)] ++
      [("instructions", PStr (turn_instructions (tr_instructions request) (tr_policy request)))] ++
      match tr_model request with Some (String a s) => [("model", PStr (String a s))] | _ => [] end).

(** The native turn id an answer names, or the caller's. *)
Definition answered_turn (res : pydict) (turn_id : string) : string :=
  match pget_or "turn" (PDict []) res with
  | PDict turn => match py_str (pget_or "id" (PStr turn_id) turn) with EmptyString => turn_id | s => s end
  | _ => turn_id
  end.

(** The context [start_turn] creates. *)
Definition turn_context (request : TurnRequest) (thread_id codex_turn_id : string) (started_at : spec_float)
    (notification_cursor server_request_cursor : Z) : TurnContext :=
  mkTurnContext (tr_turnId request) (tr_sessionId request) (tr_invocationId request) thread_id codex_turn_id
    (tr_timeoutSeconds request) started_at None None (tr_principalId request) (tr_userId request) (tr_appName request)
    0 None notification_cursor server_request_cursor false false false ∅ [] [].

(** The thread a turn runs on: the session's, validated, or a new one. *)
Definition turn_thread (request : TurnRequest) : adapter_task string :=
  let scope := request_of_scope request in
  let cwd := turn_cwd (tr_sandbox request) in
  known ← see (λ h, thread_of scope (ho_adapter h));
  thread_id ← (if bool_decide (known = "") then mret "" else resume_or_drop_thread known scope cwd request : adapter_task string);
  if bool_decide (thread_id = "") then start_thread scope cwd (tb_mode (tr_sandbox request)) request else mret thread_id.

(** The end of [start_turn]: the context and its indices. *)
Definition register_turn (request : TurnRequest) (c : TurnContext) (a : CodexAdapter) : CodexAdapter :=
  a <| ad_contexts := ad_contexts a ++ [c] |>
    <| ad_turn_contexts := dset (tr_turnId request) (length (ad_contexts a)) (ad_turn_contexts a) |>
    <| ad_turn_index := dset (tc_codex_turn_id c) (tr_turnId request) (ad_turn_index a) |>.

(** [start_turn]; [started_at] is the clock when the context is created. *)
Definition start_turn (started_at : spec_float) (request : TurnRequest) : adapter_task TurnHandle :=
  _ ← mapped "codex connect timed out" "codex connect/transport failure" ensure_connected;
  _ ← update (adopt_legacy (request_of_scope request) ("", "", tr_sessionId request) (turn_cwd (tr_sandbox request)));
  thread_id ← mapped "thread lifecycle timed out" "thread lifecycle connection failure" (turn_thread request);
  params ← sync (lift (turn_params thread_id request));
  notification_cursor ← see (λ h, ch_sequence (rpc_notifications (ho_rpc h)));
  server_request_cursor ← see (λ h, ch_sequence (rpc_server_requests (ho_rpc h)));
  res ← mapped "turn/start did not respond in time" "turn/start connection failure" (rpc_request "turn/start" params);
  let codex_turn_id := answered_turn res (tr_turnId request) in
  _ ← update (register_turn request
               (turn_context request thread_id codex_turn_id started_at notification_cursor server_request_cursor));
  generation ← see (λ h, ad_generation (ho_adapter h));
  mret (mkTurnHandle (tr_turnId request) (tr_sessionId request) (tr_invocationId request)
         [("adapterId", PStr "codex-app-server"); ("threadId", PStr thread_id); ("codexTurnId", PStr codex_turn_id);
          ("generation", PInt generation)]).

(** [cancel_turn]: a best-effort interrupt. *)
Definition cancel_turn (turn_id : string) : adapter_task string :=
  target ← see (λ h, match dget turn_id (ad_turn_contexts (ho_adapter h)) with Some l => context_at l h | None => None end);
  connected ← see (λ h, rpc_connected (ho_rpc h));
  match target with
  | Some c =>
      if negb connected then mret "accepted"
      else
        task_try (_ ← rpc_request "turn/interrupt" [("threadId", PStr (tc_thread_id c)); ("turnId", PStr (tc_codex_turn_id c))];
                  mret "accepted")
          (λ e, if is_connection_error e then mret "accepted" else fails e)
  | None => mret "accepted"
  end.

End turns.

(** ** Command evidence *)

(** [_clear_command_evidence_state] *)
Definition clear_command_evidence_state (turn_id : string) (a : CodexAdapter) : CodexAdapter :=
  let keys := keep (λ k : EvidenceKey, bool_decide (k.1 = turn_id)) (dkeys (ad_command_evidence_output a)) in
  a <| ad_command_evidence_output := ddel_all keys (ad_command_evidence_output a) |>
    <| ad_command_evidence_truncated := ad_command_evidence_truncated a ∖ list_to_set keys |>
    <| ad_command_evidence_refs := ddel_all keys (ad_command_evidence_refs a) |>.

(** The clocks and generated names a piece reads. *)
Record tick := mkTick {
  tk_mono : spec_float;      (* time.monotonic() *)
  tk_wall : spec_float;      (* time.time() *)
  tk_ms0 : Z; tk_ms1 : Z;    (* the evidence store's two readings *)
  tk_created : Z;            (* the creation time of a prompt *)
  tk_ref : string;           (* a generated evidence reference *)
}.

Definition EVIDENCE_TAIL : string := TRUNCATED_MARKER.

(** The accumulated output of a command after a delta, and whether it was cut. *)
Definition grow_output (accumulated delta : string) : string * bool :=
  let raw := accumulated +:+ delta in
  if MAX_EVIDENCE_BYTES <? Z.of_nat (String.length raw)
  then (decode_ignore (slice_to (MAX_EVIDENCE_BYTES - 18) raw) +:+ EVIDENCE_TAIL, true) else (raw, false).

Section events.
Context `{PyRepr} `{RegexEngine} `{EvidenceLib}.

Definition normalize (n : pydict) (c : TurnContext) (call ref : option string) (expires : option Z) : host_m (option HarnessEvent) :=
  on_counts (normalize_notification n
    (mkNormalizeArgs (tc_invocation_id c) (tc_session_id c) (tc_turn_id c) "codex" call ref expires)).

(** The command item of a notification: its id and command, where both are there. *)
Definition command_item (n : pydict) : option (pydict * string * string) :=
  match pget "params" n with
  | PDict params =>
      match pget "item" params with
      | PDict item =>
          if py_eqb (pget "type" item) (PStr "commandExecution") then
            let tool_call_id := str_or (pget "id" item) "" in
            let command := command_text (pget "command" item) in
            if negb (bool_decide (tool_call_id = "")) && negb (bool_decide (command = "")) then Some (item, tool_call_id, command) else None
          else None
      | _ => None
      end
  | _ => None
  end.

(** A command item with an evidence store: its record is written, and the reference is shown. *)
Definition command_event (t : tick) (n : pydict) (c : TurnContext) (call : option string) (item : pydict) (tool_call_id command : string) :
    host_m (option HarnessEvent) :=
  let key := (tc_turn_id c, tool_call_id) in
  let method := notification_method n in
  _ ← (if bool_decide (method = "item/started") then
         modify (on_adapter (λ a, a <| ad_command_evidence_output := dset key "" (ad_command_evidence_output a) |>
                                    <| ad_command_evidence_truncated := ad_command_evidence_truncated a ∖ {[key]} |>))
       else mret tt);
  accumulated ← adapter_is (λ a, default "" (dget key (ad_command_evidence_output a)));
  let aggregated := match pget "aggregatedOutput" item with PStr s => s | _ => "" end in
  let output := if (String.length accumulated <? String.length aggregated)%nat then aggregated else accumulated in
  ref ← adapter_is (λ a, dget key (ad_command_evidence_refs a));
  record ← on_evidence (Evidence.put (tk_ms0 t) (tk_ms1 t) (tk_ref t)
    (mkPutArgs (tc_principal_id c) (tc_app_name c) (tc_user_id c) (tc_session_id c) (tc_invocation_id c) tool_call_id command
       (str_or (pget "cwd" item) DEFAULT_CWD) output ref None));
  _ ← modify (on_adapter (λ a, a <| ad_command_evidence_refs := dset key (er_evidenceRef record) (ad_command_evidence_refs a) |>));
  _ ← (if bool_decide (method = "item/completed") then
         modify (on_adapter (λ a, a <| ad_command_evidence_output := ddel key (ad_command_evidence_output a) |>
                                    <| ad_command_evidence_truncated := ad_command_evidence_truncated a ∖ {[key]} |>
                                    <| ad_command_evidence_refs := ddel key (ad_command_evidence_refs a) |>))
       else mret tt);
  normalize n c call (Some (er_evidenceRef record)) (Some (er_expiresAtMs record)).

(** An output delta with an evidence store: the accumulated output grows, unless it was cut before. *)
Definition record_delta (t : tick) (n : pydict) (c : TurnContext) : host_m unit :=
  let params := notification_params n in
  let tool_call_id := str_or (pget "itemId" params) "" in
  let key := (tc_turn_id c, tool_call_id) in
  ref ← adapter_is (λ a, default "" (dget key (ad_command_evidence_refs a)));
  match pget "delta" params with
  | PStr (String x s) =>
      if bool_decide (ref = "") then mret tt
      else
        cut ← adapter_is (λ a, bool_decide (key ∈ ad_command_evidence_truncated a));
        if cut : bool then mret tt
        else
          accumulated ← adapter_is (λ a, default "" (dget key (ad_command_evidence_output a)));
          let (output, now_cut) := grow_output accumulated (String x s) in
          _ ← modify (on_adapter (λ a, a <| ad_command_evidence_truncated := if now_cut then {[key]} ∪ ad_command_evidence_truncated a
                                                                            else ad_command_evidence_truncated a |>
                                         <| ad_command_evidence_output := dset key output (ad_command_evidence_output a) |>));
          _ ← on_evidence (Evidence.update_output (tk_ms0 t) (tk_ms1 t) ref output);
          mret tt
  | _ => mret tt
  end.

(** [_to_harness_event] after the notification has been filed under a model call. *)
Definition filed_event (t : tick) (n : pydict) (c : TurnContext) (call : option string) : host_m (option HarnessEvent) :=
  evidence ← adapter_is ad_execution_evidence;
  match (if evidence : bool then command_item n else None) with
  | Some (item, tool_call_id, command) => command_event t n c call item tool_call_id command
  | None =>
      _ ← (if evidence && bool_decide (notification_method n = "item/commandExecution/outputDelta")
           then record_delta t n c else mret tt);
      event ← normalize n c call None None;
      _ ← (if dmem (notification_method n) TERMINAL_METHODS then modify (on_adapter (clear_command_evidence_state (tc_turn_id c)))
           else mret tt);
      mret event
  end.

(** [_to_harness_event] *)
Definition to_harness_event (t : tick) (l : nat) (n : pydict) : host_m (option HarnessEvent) :=
  c ← load_context l;
  _ ← modify (set_context l (model_call_id n c).1);
  filed_event t n (model_call_id n c).1 (model_call_id n c).2.

End events.

(** ** Native prompts *)

Definition APPROVAL_METHODS : dict string string :=
  [("item/commandExecution/requestApproval", "command"); ("item/fileChange/requestApproval", "file")].

(** The id of a server request.  JSON-RPC ids are texts or integers; another value is outside the
    model and counts as no id. *)
Definition native_request_id (v : pyval) : option request_id :=
  match v with PStr s => Some (RidStr s) | PInt z => Some (RidInt z) | _ => None end.
Definition request_id_text (r : request_id) : string := match r with RidStr s => s | RidInt z => pretty z end.
Definition request_id_val (r : request_id) : pyval := match r with RidStr s => PStr s | RidInt z => PInt z end.

(** The entries of a question that are shown. *)
Definition QUESTION_KEYS : list string := ["id"; "header"; "question"; "options"; "isSecret"].
Definition safe_question (question : pyval) : option pydict :=
  match question with
  | PDict d => Some (omap (λ k, (λ v, (k, v)) <$> dget k d) QUESTION_KEYS)
  | _ => None
  end.
Definition safe_questions (params : pydict) : list pydict :=
  match pget "questions" params with PList l => omap safe_question l | _ => [] end.

(** [int(time.time() * 1000 + remaining * 1000)] *)
Definition expires_at_ms (t : tick) (c : TurnContext) : result Z :=
  let remaining := py_max float_zero (SFsub 53 1024 (float_add (tc_started_at c) (tc_timeout_seconds c)) (tk_mono t)) in
  py_int (PFloat (float_add (float_mul (tk_wall t) (float_of_Z 1000)) (float_mul remaining (float_of_Z 1000)))).

Definition prompt_event (c : TurnContext) (type_ : string) (haas : pydict) : HarnessEvent :=
  mkHarnessEvent type_ (tc_invocation_id c) (tc_session_id c) (tc_turn_id c) "codex"
    [("role", PStr "model"); ("parts", PList [])] [("haas", PDict haas)] None None.

Definition add_pending (id : string) : host_m unit :=
  modify (on_adapter (λ a, a <| ad_pending_interactions := {[id]} ∪ ad_pending_interactions a |>)).

Section prompts.
Context `{PyRepr} `{Sha256}.

(** [hashlib.sha256(...).hexdigest()[:20]] *)
Definition prompt_digest (generation : Z) (c : TurnContext) (native_id : request_id) (method : string) : string :=
  take_bytes 20 (sha256_hex (pretty generation +:+ ":" +:+ tc_invocation_id c +:+ ":" +:+ request_id_text native_id +:+ ":" +:+ method)).

Definition approval_of (t : tick) (c : TurnContext) (generation expires : Z) (native_id : request_id) (method kind : string) : ApprovalRecord :=
  mkApproval ("appr_" +:+ prompt_digest generation c native_id method) (tc_session_id c) (tc_invocation_id c) (tc_turn_id c) "waiting"
    [("kind", PStr kind); ("safeSummary", PStr (if starts_with "item/command" method then "Run command" else "Change files"));
     ("availableDecisions", PList [PStr "approved"; PStr "denied"; PStr "cancelled"]);
     ("policyReason", PStr "harness_requested"); ("expiresAtMs", PInt expires)]
    None (Some native_id) (Some generation) (Some expires) 1 (tk_created t) None.

Definition input_request_of (t : tick) (c : TurnContext) (generation expires : Z) (native_id : request_id) (method : string) (params : pydict) :
    InputRequestRecord :=
  mkInputRequest ("inreq_" +:+ prompt_digest generation c native_id method) (tc_session_id c) (tc_invocation_id c) (tc_turn_id c)
    (safe_questions params) native_id generation "waiting" (truthy (pget_or "isBlocking" (PBool true) params)) None (Some expires)
    1 (tk_created t) None.

(** [_persist_server_request] *)
Definition persist_server_request (t : tick) (l : nat) (request : pydict) : host_m (option HarnessEvent) :=
  c ← load_context l;
  bound ← adapter_is ad_interaction_store;
  if negb bound || negb (belongs_to_turn request c) then mret None
  else
    match native_request_id (pget "id" request) with
    | None => mret None
    | Some native_id =>
        let method := str_or (pget "method" request) "" in
        let params := as_dict (pget "params" request) in
        generation ← adapter_is ad_generation;
        expires ← lift (expires_at_ms t c);
        match dget method APPROVAL_METHODS with
        | Some kind =>
            record ← on_store (put_approval (approval_of t c generation expires native_id method kind));
            _ ← add_pending (a_id record);
            mret (Some (prompt_event c "haas.approval.required" (dict_update [("approvalId", PStr (a_id record))] (a_request record))))
        | None =>
            if bool_decide (method = "item/tool/requestUserInput") then
              record ← on_store (put_input_request (input_request_of t c generation expires native_id method params));
              _ ← add_pending (q_id record);
              mret (Some (prompt_event c "haas.input.required"
                [("inputRequestId", PStr (q_id record)); ("questions", PList (PDict <$> safe_questions params));
                 ("blocking", PBool (q_blocking record)); ("expiresAtMs", PInt expires)]))
            else mret None
        end
    end.

End prompts.

(** ** Answers *)

(** An approval or an input request. *)
Inductive interaction := Approval (r : ApprovalRecord) | Input (r : InputRequestRecord).
Definition interaction_id (i : interaction) : string := match i with Approval r => a_id r | Input r => q_id r end.
Definition interaction_generation (i : interaction) : option Z :=
  match i with Approval r => a_adapterGeneration r | Input r => Some (q_adapterGeneration r) end.
Definition interaction_native_id (i : interaction) : pyval :=
  match i with
  | Approval r => match a_nativeRequestId r with Some id => request_id_val id | None => PNone end
  | Input r => request_id_val (q_nativeRequestId r)
  end.

Definition DECISIONS : dict string string := [("approved", "accept"); ("denied", "decline"); ("cancelled", "cancel")].

(** [{"answers": value.get("values", [])}] of a supplied answer. *)
Definition native_answer (kv : string * pyval) : option (string * pyval) :=
  match kv.2 with PDict d => Some (kv.1, PDict [("answers", pget_or "values" (PList []) d)]) | _ => None end.

(** The answer sent for an interaction; an unhashable decision raises [TypeError], answers that
    are not a dictionary have no [items]. *)
Definition native_result (i : interaction) (payload : pydict) : pydict + adapter_exn :=
  match i with
  | Approval _ =>
      match in_str_set (pget "decision" payload) (dkeys DECISIONS) with
      | Raise e => inr (Py e)
      | Ok known =>
          match pget "decision" payload with
          | PStr s => match dget s DECISIONS with
                      | Some d => inl [("decision", PStr d)]
                      | None => inr (Rpc (CodexConnectionError "invalid_interaction_decision"))
                      end
          | _ => inr (Rpc (CodexConnectionError "invalid_interaction_decision"))
          end
      end
  | Input _ =>
      match py_or (pget "answers" payload) (PDict []) with
      | PDict supplied => inl [("answers", PDict (omap native_answer supplied))]
      | _ => inr (Py AttributeError)
      end
  end.

(** [respond_interaction] *)
Definition respond_interaction (i : interaction) (payload : pydict) : adapter_task unit :=
  generation ← see (λ h, ad_generation (ho_adapter h));
  pending ← see (λ h, bool_decide (interaction_id i ∈ ad_pending_interactions (ho_adapter h)));
  if negb (bool_decide (interaction_generation i = Some generation)) then
    fails (Rpc (CodexConnectionError "interaction adapter generation is stale"))
  else if negb pending then fails (Rpc (CodexConnectionError "interaction is not pending on this connection"))
  else
    res ← settle (native_result i payload);
    sent ← (await (CallRespond (interaction_native_id i) res) : adapter_task (unit + adapter_exn));
    _ ← settle sent;
    update (λ a, a <| ad_pending_interactions := ad_pending_interactions a ∖ {[interaction_id i]} |>).

(** ** The event stream of a turn *)

(** What the awaited [anext] of a subscription gives: a message or an exception. *)
Inductive stream_item := Item (m : pydict) | ItemFails (e : adapter_exn).

(** The outcome of the wait: nothing within the timeout, the request task done (whatever the
    other), or only the notification task. *)
Inductive wait_outcome := NothingDone | RequestDone (i : stream_item) | NotificationDone (i : stream_item).

(** Where the generator is suspended: about to enter the loop (at its start or after a yield), at
    the interrupt request, at the wait, in the [finally] block after the loop was left, or at its end. *)
Inductive stream_pc :=
  | SHead
  | SInterrupt
  | SWait (timeout : spec_float)
  | SLeave
  | SEnd (raised : option adapter_exn).

Inductive stream_input := Resume | Interrupted (r : pydict + adapter_exn) | Waited (w : wait_outcome) | Left.

(** A terminal: it is recorded in the context and yielded. *)
Definition finish (l : nat) (status : string) (d : terminal_details) : host_m (option HarnessEvent * stream_pc) :=
  c ← load_context l;
  let terminal := terminal_harness_event c status d in
  _ ← modify (set_context l (c <| tc_terminal_status := Some status |> <| tc_terminal_event := Some terminal |>));
  mret (Some terminal, SEnd None).

Definition deadline_details : terminal_details :=
  mkDetails (Some "haas_request_timeout") (Some "long_task_deadline_exceeded") (Some true).
Definition overload_details : terminal_details :=
  mkDetails (Some "haas_adapter_overloaded") (Some "Codex event consumer could not keep up") (Some true).
Definition disconnect_details (reason : option string) : terminal_details :=
  mkDetails (Some "haas_adapter_unavailable")
    (Some match reason with Some (String a s) => String a s | _ => "Codex app-server connection ended before the turn completed" end) (Some true).

(** The time a turn has left. *)
Definition remaining_seconds (c : TurnContext) (now : spec_float) : spec_float :=
  SFsub 53 1024 (float_add (tc_started_at c) (tc_timeout_seconds c)) now.

(** An exception inside the loop ends the generator. *)
Definition raised (e : adapter_exn) : host_m (option HarnessEvent * stream_pc) := mret (None, SEnd (Some e)).
Definition or_raised (m : host_m (option HarnessEvent * stream_pc)) : host_m (option HarnessEvent * stream_pc) := λ h,
  match m h with (h', Raise e) => (h', Ok (None, SEnd (Some (Py e)))) | res => res end.

Section stream.
Context `{PyRepr} `{RegexEngine} `{EvidenceLib} `{Sha256}.

(** A finished task's exception: an overloaded subscription ends the turn, any other the generator. *)
Definition item_fails (l : nat) (e : adapter_exn) : host_m (option HarnessEvent * stream_pc) :=
  match e with
  | Rpc (CodexSubscriberOverloaded _) => finish l "failed" overload_details
  | _ => raised e
  end.

(** The loop from its head to the next suspension. *)
Definition stream_head (l : nat) (t : tick) : host_m (option HarnessEvent * stream_pc) :=
  c ← load_context l;
  let remaining := remaining_seconds c (tk_mono t) in
  connected ← gets (λ h, rpc_connected (ho_rpc h));
  mret (None, if SFleb remaining float_zero then SInterrupt
              else if negb connected then SLeave else SWait (py_min remaining (float_of_Z 5))).

(** A notification. *)
Definition stream_notification (l : nat) (t : tick) (n : pydict) : host_m (option HarnessEvent * stream_pc) :=
  c ← load_context l;
  if negb (belongs_to_turn n c) then mret (None, SHead)
  else
    match native_terminal_status n with
    | Some status =>
        finish l status
          (if bool_decide (status = "failed") then
             let '(code, reason, retryable) := terminal_failure_details n in mkDetails (Some code) (Some reason) (Some retryable)
           else no_details)
    | None =>
        event ← to_harness_event t l n;
        mret (event, SHead)
    end.

(** One piece of [stream_events], on the context [l]; [None] when the input is not what it waits for. *)
Definition stream_step (l : nat) (t : tick) (pc : stream_pc) (i : stream_input) : option (host_m (option HarnessEvent * stream_pc)) :=
  match pc, i with
  | SHead, Resume => Some (stream_head l t)
  | SInterrupt, Interrupted (inr e) =>
      Some (if is_connection_error e then finish l "failed" deadline_details else raised e)
  | SInterrupt, Interrupted (inl _) => Some (finish l "failed" deadline_details)
  | SWait _, Waited NothingDone => Some (mret (None, SHead))
  | SWait _, Waited (RequestDone (ItemFails e)) => Some (item_fails l e)
  | SWait _, Waited (RequestDone (Item m)) =>
      Some (or_raised (event ← persist_server_request t l m; mret (event, SHead)))
  | SWait _, Waited (NotificationDone (ItemFails e)) => Some (item_fails l e)
  | SWait _, Waited (NotificationDone (Item n)) => Some (or_raised (stream_notification l t n))
  | SLeave, Left =>
      Some (reason ← gets (λ h, rpc_failure (ho_rpc h)); finish l "incomplete" (disconnect_details reason))
  | _, _ => None
  end.

(** [stream_events] up to its loop: the context of the handle. *)
Definition stream_open (turn_id : string) (h : Host) : nat + adapter_exn :=
  match dget turn_id (ad_turn_contexts (ho_adapter h)) with
  | Some l => inl l
  | None => inr (Rpc (CodexConnectionError ("unknown turn handle: " +:+ turn_id)))
  end.

End stream.

(** [finalize_turn]: status and terminal event. *)
Definition finalize_turn (turn_id : string) : host_m (string * option HarnessEvent) :=
  found ← adapter_is (λ a, dget turn_id (ad_turn_contexts a));
  _ ← modify (on_adapter (λ a, clear_command_evidence_state turn_id (a <| ad_turn_contexts := ddel turn_id (ad_turn_contexts a) |>)));
  match found with
  | None => mret ("incomplete", None)
  | Some l =>
      c ← load_context l;
      _ ← modify (on_adapter (λ a, a <| ad_turn_index := ddel (tc_codex_turn_id c) (ad_turn_index a) |>));
      mret match tc_terminal_status c with
           | Some status => (status, tc_terminal_event c)
           | None => ("incomplete", None)
           end
  end.

(** [close] *)
Definition close : adapter_task unit :=
  _ ← (await CallClose : adapter_task unit);
  update (λ a, a <| ad_turn_contexts := [] |> <| ad_turn_index := [] |> <| ad_command_evidence_output := [] |>
                 <| ad_command_evidence_truncated := ∅ |> <| ad_command_evidence_refs := [] |>).

(** ** Readiness *)

(** [CodexEndpoint], as far as the probe reads it. *)
Record CodexEndpoint := mkEndpoint { ep_transport : string; ep_listen_url : string }.

(** [AdapterProbe] *)
Record AdapterProbe := mkProbe {
  pb_adapterId : string; pb_base : string; pb_status : string; pb_runtimeVersion : string; pb_transport : string;
  pb_capabilities : pydict; pb_safeDetails : pydict;
}.

(** [_capabilities] *)
Definition capabilities : pydict :=
  [("streaming", PBool true); ("sessionContinuation", PStr "native"); ("pausing", PStr "native"); ("cancellation", PStr "best_effort");
   ("approval", PStr "human_bridge"); ("input", PStr "human_bridge"); ("toolRestriction", PStr "advisory");
   ("mcp", PStr "builtin_recall_only"); ("skills", PStr "unsupported"); ("files", PStr "unsupported"); ("usage", PStr "native")].

(** [sandbox_declaration] *)
Definition sandbox_declaration : HarnessSandboxDecl := mkSandboxDecl DEFAULT_CWD [DEFAULT_CWD] DEFAULT_APPROVAL_POLICY.

(** [_endpoint_unavailable_reason]; [path_exists] is [os.path.exists]. *)
Definition endpoint_unavailable_reason (path_exists : string → bool) (e : CodexEndpoint) : option string :=
  if negb (bool_decide (ep_transport e ∈ ["unix_websocket"; "unix"])) then None
  else
    let listen_url := ep_listen_url e in
    match (if starts_with "unix://" listen_url then drop_str (String.length "unix://") listen_url else "") with
    | EmptyString => Some "codex_socket_not_configured"
    | path => if path_exists path then None else Some "codex_socket_unavailable"
    end.

Definition probed (e : CodexEndpoint) (version : string) (details : pydict) : AdapterProbe :=
  mkProbe "codex-app-server" "codex" (if dmem "safeReason" details then "unavailable" else "ready") version (ep_transport e)
    capabilities details.

(** The handshake of a fresh client, if nothing is known against it yet; [connects] says whether it succeeds. *)
Definition with_handshake (connects : bool) (details : pydict) : pydict :=
  if dmem "safeReason" details || connects then details else details ++ [("safeReason", PStr "codex_readiness_probe_failed")].
Definition with_endpoint (path_exists : string → bool) (e : CodexEndpoint) (details : pydict) : pydict :=
  match endpoint_unavailable_reason path_exists e with
  | Some reason => if dmem "safeReason" details then details else details ++ [("safeReason", PStr reason)]
  | None => details
  end.

(** [probe_readiness] *)
Definition probe_readiness (path_exists : string → bool) (connects : bool) (e : CodexEndpoint) : AdapterProbe :=
  probed e "unknown" (with_handshake connects (with_endpoint path_exists e [])).

(** The comparison of the installed protocol schema with the recorded one: the differences, no
    recording, or the text of another exception. *)
Inductive schema_check := Drift (differences : list string) | NoFixture | SchemaFails (text : string).

(** [probe]; [version] is the installed version or the text of the exception. *)
Definition probe (path_exists : string → bool) (connects : bool) (version : string + string) (schema : schema_check) (e : CodexEndpoint) :
    AdapterProbe :=
  match version with
  | inr text => probed e "unknown" [("safeReason", PStr ("codex_binary_unavailable: " +:+ text))]
  | inl v =>
      let details := match schema with
                     | Drift [] => []
                     | Drift l => [("safeReason", PStr "schema_mismatch"); ("schemaDrift", PList (PStr <$> take 20 l))]
                     | NoFixture => [("schemaCheck", PStr "skipped")]
                     | SchemaFails text => [("safeReason", PStr ("schema_probe_failed: " +:+ text))]
                     end in
      probed e ("codex-cli " +:+ v) (with_handshake connects (with_endpoint path_exists e details))
  end.

(** ** What the pieces of a stream do to a context *)

Definition terminal_type (e : HarnessEvent) : bool := is_some (Driver.terminal_status e).

(** A piece keeps the identity of the context, and its terminal fields. *)
Definition same_turn (c c' : TurnContext) : Prop :=
  tc_turn_id c' = tc_turn_id c ∧ tc_session_id c' = tc_session_id c ∧ tc_invocation_id c' = tc_invocation_id c ∧
  tc_thread_id c' = tc_thread_id c ∧ tc_codex_turn_id c' = tc_codex_turn_id c ∧
  tc_terminal_status c' = tc_terminal_status c ∧ tc_terminal_event c' = tc_terminal_event c.
#[export] Instance same_turn_preorder : PreOrder same_turn.
Proof. split; [done|]. intros a b c (?&?&?&?&?&?&?) (?&?&?&?&?&?&?). repeat split; congruence. Qed.

(** An event carries the turn's identifiers. *)
Definition of_turn (c : TurnContext) (e : HarnessEvent) : Prop :=
  he_invocationId e = tc_invocation_id c ∧ he_sessionId e = tc_session_id c ∧ he_turnId e = tc_turn_id c.

Lemma of_turn_same c c' e : same_turn c c' → of_turn c' e → of_turn c e.
Proof. intros (?&?&?&_) (?&?&?). unfold of_turn. repeat split; congruence. Qed.

(** Assigning to the context at [l] and nothing else of the adapter's contexts. *)
Lemma context_at_set l c c0 h : context_at l h = Some c0 → context_at l (set_context l c h) = Some c.
Proof. unfold context_at, set_context. cbn. intros Hl. apply list_lookup_insert_eq. by eapply lookup_lt_Some. Qed.

(** What leaves the contexts alone. *)
Definition keeps_contexts {A} (m : host_m A) : Prop := ∀ h, ad_contexts (ho_adapter (m h).1) = ad_contexts (ho_adapter h).

Lemma keeps_ret {A} (a : A) : keeps_contexts (mret a).
Proof. done. Qed.
Lemma keeps_turn_bind {A B} (m : host_m A) (f : A → host_m B) : keeps_contexts m → (∀ a, keeps_contexts (f a)) → keeps_contexts (m ≫= f).
Proof.
  intros Hm Hf h. unfold mbind, M_bind. specialize (Hm h). destruct (m h) as [h1 [a|e]]; cbn in *; [|done]. by rewrite (Hf a h1).
Qed.
Lemma keeps_gets {A} (f : Host → A) : keeps_contexts (gets f).
Proof. done. Qed.
Lemma keeps_adapter_is {A} (f : CodexAdapter → A) : keeps_contexts (adapter_is f).
Proof. done. Qed.
Lemma keeps_lift {A} (r : result A) : keeps_contexts (lift r).
Proof. done. Qed.
Lemma keeps_turn_load l : keeps_contexts (load_context l).
Proof. done. Qed.
Lemma keeps_store {A} (m : store_m A) : keeps_contexts (on_store m).
Proof. intros h. unfold on_store. by destruct (m _). Qed.
Lemma keeps_evidence {A} (m : evidence_m A) : keeps_contexts (on_evidence m).
Proof. intros h. unfold on_evidence. by destruct (m _). Qed.
Lemma keeps_counts {A} (m : M (dict string Z) A) : keeps_contexts (on_counts m).
Proof. intros h. unfold on_counts. by destruct (m _). Qed.
Lemma keeps_modify (f : CodexAdapter → CodexAdapter) : (∀ a, ad_contexts (f a) = ad_contexts a) → keeps_contexts (modify (on_adapter f)).
Proof. intros Hf h. apply Hf. Qed.

#[local] Hint Resolve keeps_ret keeps_turn_bind keeps_gets keeps_adapter_is keeps_lift keeps_turn_load keeps_store keeps_evidence keeps_counts keeps_modify : keeps.

(** Walk through a computation that leaves the contexts alone. *)
Ltac keeps :=
  repeat first
    [ apply keeps_turn_bind; [|intros ?]
    | progress auto with keeps
    | match goal with |- keeps_contexts (match ?x with _ => _ end) => destruct x end
    | match goal with |- keeps_contexts (let (_, _) := ?x in _) => destruct x end ].

Section keeps.
Context `{PyRepr} `{RegexEngine} `{EvidenceLib} `{Sha256}.

Lemma keeps_persist t l request : keeps_contexts (persist_server_request t l request).
Proof. unfold persist_server_request, add_pending. keeps. Qed.

Lemma keeps_command_event t n c call item id command : keeps_contexts (command_event t n c call item id command).
Proof. unfold command_event, normalize. keeps. Qed.

Lemma keeps_record_delta t n c : keeps_contexts (record_delta t n c).
Proof. unfold record_delta. keeps. Qed.

End keeps.

(** ** What a piece yields *)

Section yields.
Context `{PyRepr} `{RegexEngine} `{EvidenceLib} `{Sha256}.

Lemma model_call_same n c : same_turn c (model_call_id n c).1.
Proof.
  assert (∀ c, same_turn c (ensure_model_call c)) as Hens by (intros c0; unfold ensure_model_call; by case_bool_decide).
  assert (∀ (b : bool) c, same_turn c (if b then open_model_call c else c)) as Hopen by (by intros [] c0).
  assert (∀ id v c c0, same_turn c c0 → same_turn c (file_item id v c0)) as Hi by (intros; unfold file_item; by case_bool_decide).
  assert (∀ id v c c0, same_turn c c0 → same_turn c (file_tool id v c0)) as Ht by (intros; unfold file_tool; by case_bool_decide).
  assert (∀ id c, same_turn c (tool_call_of id c).1) as Htc.
  { intros id c0. unfold tool_call_of. destruct (known_nonempty _ _); cbn [fst]; apply Ht; [done|apply Hens]. }
  unfold model_call_id.
  case_bool_decide.
  { unfold message_call. destruct (known_call _ _); [done|]. cbn [fst]. apply Hi. by etrans; [|apply Hens]. }
  case_bool_decide.
  { unfold usage_call. cbn [fst]. specialize (Hens c). destruct (ensure_model_call c). cbn. by destruct (_ && _). }
  destruct (_ && _).
  { unfold tool_started_call. destruct (known_call _ _); [done|]. cbn [fst].
    set (c1 := ensure_model_call _). assert (same_turn c c1) as Hc1 by (by etrans; [|apply Hens]).
    case_bool_decide; [done|]. pose proof (Ht (notified_id n) (current_call c1) c c1 Hc1) as Hf. by destruct (file_tool _ _ c1). }
  destruct (_ && _).
  { unfold tool_completed_call. specialize (Htc (notified_id n) c). destruct (tool_call_of _ c) as [c1 v]. cbn [fst] in *.
    case_bool_decide; by destruct c1. }
  case_bool_decide; [specialize (Htc (notified_id n) c); by destruct (tool_call_of _ c)|].
  destruct (_ && _); [|done]. unfold message_completed_call. destruct (known_nonempty _ _); [done|]. apply Hens.
Qed.

(** A yield that is of the turn and does not end it. *)
Definition inner_event (c : TurnContext) (e : HarnessEvent) : Prop := of_turn c e ∧ terminal_type e = false.

Lemma not_terminal ty inv sid turn author content actions native usage :
  ty ∈ ["haas.approval.required"; "haas.input.required"] ++ NORMALIZED_TYPES →
  terminal_type (mkHarnessEvent ty inv sid turn author content actions native usage) = false.
Proof.
  intros Hty. unfold terminal_type, Driver.terminal_status. cbn [he_type]. unfold NORMALIZED_TYPES in Hty. cbn [app] in Hty.
  repeat (apply elem_of_cons in Hty as [->|Hty]); [..|by apply elem_of_nil in Hty]; by vm_compute.
Qed.

Lemma normalize_inner n c call ref expires h h' e : normalize n c call ref expires h = (h', Ok (Some e)) → inner_event c e.
Proof.
  unfold normalize, on_counts. set (a := mkNormalizeArgs _ _ _ _ _ _ _). destruct (normalize_notification n a (ho_counts h)) as [counts r] eqn:E.
  intros [= <- ->]. destruct (normalized_carries n a (ho_counts h) e) as [(? & ? & ? & _ & _ & Hty) _]; [by rewrite E|].
  split; [by repeat split|]. destruct e. apply not_terminal. by apply elem_of_app; right.
Qed.

(** The last part of a computation decides what it yields. *)
Lemma yields_bind {A} (P : HarnessEvent → Prop) (m : host_m A) (f : A → host_m (option HarnessEvent)) h h' e :
  (∀ a h h', f a h = (h', Ok (Some e)) → P e) → (m ≫= f) h = (h', Ok (Some e)) → P e.
Proof. intros Hf (a & h1 & _ & Ha)%M_bind_Ok. by eapply Hf. Qed.

Lemma command_event_inner t n c call item id command h h' e :
  command_event t n c call item id command h = (h', Ok (Some e)) → inner_event c e.
Proof.
  unfold command_event. do 6 (apply yields_bind; intros ? ? ?). apply normalize_inner.
Qed.

Lemma keeps_filed_event t n c call : keeps_contexts (filed_event t n c call).
Proof.
  unfold filed_event, normalize. apply keeps_turn_bind; [done|]. intros evidence. destruct (if evidence then _ else _) as [[[item id] command]|].
  - apply keeps_command_event.
  - apply keeps_turn_bind; [case_if; [apply keeps_record_delta|done]|intros _]. keeps.
Qed.

Lemma filed_event_inner t n c call h h' e : filed_event t n c call h = (h', Ok (Some e)) → inner_event c e.
Proof.
  unfold filed_event. apply yields_bind. intros evidence h1 h1'. destruct (if evidence then _ else _) as [[[item id] command]|].
  - apply command_event_inner.
  - apply yields_bind. intros _ h2 h2' (ev & h3 & Hn & (? & h4 & _ & [= <- ->])%M_bind_Ok)%M_bind_Ok. by eapply normalize_inner.
Qed.

Lemma to_harness_event_spec t l n h c :
  context_at l h = Some c →
  ∃ c', same_turn c c' ∧ context_at l (to_harness_event t l n h).1 = Some c' ∧
    (∀ e, (to_harness_event t l n h).2 = Ok (Some e) → inner_event c e).
Proof.
  intros Hc. pose proof (model_call_same n c) as Hsame.
  assert (to_harness_event t l n h = filed_event t n (model_call_id n c).1 (model_call_id n c).2 (set_context l (model_call_id n c).1 h)) as ->.
  { unfold to_harness_event, load_context, mbind, M_bind, modify. by rewrite Hc. }
  destruct (model_call_id n c) as [c' call]. cbn [fst snd] in *. exists c'. split_and!; [done| |].
  - unfold context_at. rewrite keeps_filed_event. by eapply context_at_set.
  - intros e He. destruct (filed_event t n c' call (set_context l c' h)) as [h2 r] eqn:E. cbn in He. subst r.
    apply filed_event_inner in E as [Ho Ht]. split; [by eapply of_turn_same|done].
Qed.

End yields.

(** ** The stream as a transition system *)

Section streams.
Context `{PyRepr} `{RegexEngine} `{EvidenceLib} `{Sha256}.

(** A run of the generator on the context [l].  Between two pieces other tasks may change the
    whole host but this context object, which only the generator writes. *)
Inductive streams (l : nat) : Host → stream_pc → list HarnessEvent → Host → stream_pc → Prop :=
  | streams_refl h pc : streams l h pc [] h pc
  | streams_step h pc t i m h1 yielded pc1 h2 events h3 pc3 :
      stream_step l t pc i = Some m → m h = (h1, Ok (yielded, pc1)) → context_at l h2 = context_at l h1 →
      streams l h2 pc1 events h3 pc3 →
      streams l h pc (match yielded with Some e => e :: events | None => events end) h3 pc3.

(** The record of a terminal in a context. *)
Definition records_terminal (c : TurnContext) (status : string) (e : HarnessEvent) : Prop :=
  tc_terminal_status c = Some status ∧ tc_terminal_event c = Some e.

(** The four outcomes of a piece, for an open context. *)
Definition piece_ok (c : TurnContext) (l : nat) (h1 : Host) (yielded : option HarnessEvent) (pc1 : stream_pc) : Prop :=
  ∃ c1, context_at l h1 = Some c1 ∧
  match pc1 with
  | SEnd None => ∃ e status, yielded = Some e ∧ of_turn c e ∧ Driver.terminal_status e = Some status ∧ records_terminal c1 status e
  | SEnd (Some _) => yielded = None ∧ same_turn c c1
  | _ => same_turn c c1 ∧ ∀ e, yielded = Some e → inner_event c e
  end.

Definition STATUSES : list string := ["completed"; "failed"; "interrupted"; "cancelled"; "incomplete"].

Lemma terminal_event_status c status d : status ∈ STATUSES → Driver.terminal_status (terminal_harness_event c status d) = Some status.
Proof.
  intros Hs. unfold Driver.terminal_status, terminal_harness_event. cbn [he_type]. unfold STATUSES in Hs.
  repeat (apply elem_of_cons in Hs as [->|Hs]); [..|by apply elem_of_nil in Hs]; by vm_compute.
Qed.

Lemma native_status_known n status : native_terminal_status n = Some status → status ∈ STATUSES.
Proof.
  unfold native_terminal_status.
  assert (∀ s, bool_decide (s ∈ STATUSES) = true → s ∈ STATUSES) as Hin by (by intros ? ?%bool_decide_eq_true).
  case_bool_decide.
  - intros [= <-]. set (raw := match params_turn n with Some _ => _ | None => _ end). case_bool_decide as Hr.
    + unfold STATUSES. set_solver +Hr.
    + case_bool_decide; by apply Hin.
  - unfold TERMINAL_METHODS. cbn [dget]. repeat case_decide; intros [= <-]; by apply Hin.
Qed.

Lemma finish_ok l status d h c :
  context_at l h = Some c → status ∈ STATUSES → ∃ h1 e, finish l status d h = (h1, Ok (Some e, SEnd None)) ∧ piece_ok c l h1 (Some e) (SEnd None).
Proof.
  intros Hc Hs. unfold finish, load_context, mbind, M_bind, modify. rewrite Hc. eexists _, _. split; [reflexivity|].
  eexists. split; [by eapply context_at_set|]. eexists _, status. split_and!; [done|done|by apply terminal_event_status|done].
Qed.

Lemma raised_ok l e h c : context_at l h = Some c → piece_ok c l h None (SEnd (Some e)).
Proof. intros Hc. exists c. by split_and!. Qed.

(** A piece, as it goes. *)
Definition goes (l : nat) (c : TurnContext) (m : host_m (option HarnessEvent * stream_pc)) (h : Host) : Prop :=
  ∃ h1 yielded pc1, m h = (h1, Ok (yielded, pc1)) ∧ piece_ok c l h1 yielded pc1.

Lemma item_fails_ok l e h c : context_at l h = Some c → goes l c (item_fails l e) h.
Proof.
  intros Hc. assert (goes l c (raised e) h) as Hr by (eexists _, _, _; split; [done|by apply raised_ok]).
  destruct e as [|[]]; try apply Hr. destruct (finish_ok l "failed" overload_details h c) as (h1 & e & ? & ?); [done|set_solver|].
  by eexists _, _, _.
Qed.

(** What [or_raised] makes of a computation that yields an inner event or raises. *)
Lemma or_raised_ok l (m : host_m (option HarnessEvent)) h c c1 :
  same_turn c c1 → context_at l (m h).1 = Some c1 → (∀ e, (m h).2 = Ok (Some e) → inner_event c e) →
  goes l c (or_raised (event ← m; mret (event, SHead))) h.
Proof.
  intros Hs Hc1 Hev. unfold goes, or_raised, mbind, M_bind. destruct (m h) as [h1 [ev|e]]; cbn [fst snd] in *;
    eexists _, _, _; (split; [reflexivity|]); exists c1; split_and!; try done. intros e [= ->]. by apply Hev.
Qed.

Lemma persist_inner t l request h h' e c :
  context_at l h = Some c → persist_server_request t l request h = (h', Ok (Some e)) → inner_event c e.
Proof.
  intros Hc. unfold persist_server_request. unfold mbind at 1. unfold M_bind at 1. unfold load_context. rewrite Hc.
  apply yields_bind. intros bound h1 h1'. destruct (_ || _); [done|]. destruct (native_request_id _) as [native_id|]; [|done].
  assert (∀ ty haas, ty ∈ ["haas.approval.required"; "haas.input.required"] → inner_event c (prompt_event c ty haas)) as Hp.
  { intros ty haas Hty. split; [done|]. apply not_terminal. set_solver +Hty. }
  apply yields_bind. intros generation h2 h2'. apply yields_bind. intros expires h3 h3'.
  destruct (dget _ APPROVAL_METHODS) as [kind|].
  - apply yields_bind. intros record h4 h4'. apply yields_bind. intros _ h5 h5' [= _ <-]. apply Hp. set_solver +.
  - case_bool_decide; [|done]. apply yields_bind. intros record h4 h4'. apply yields_bind. intros _ h5 h5' [= _ <-]. apply Hp. set_solver +.
Qed.

Lemma stream_notification_ok l t n h c : context_at l h = Some c → goes l c (or_raised (stream_notification l t n)) h.
Proof.
  intros Hc.
  assert (stream_notification l t n h =
    (if negb (belongs_to_turn n c) then (h, Ok (None, SHead))
     else match native_terminal_status n with
          | Some status => finish l status (if bool_decide (status = "failed") then
              let '(code, reason, retryable) := terminal_failure_details n in mkDetails (Some code) (Some reason) (Some retryable) else no_details) h
          | None => (event ← to_harness_event t l n; mret (event, SHead)) h
          end)) as Heq.
  { unfold stream_notification, load_context, mbind at 1, M_bind at 1. rewrite Hc. destruct (negb _); [done|]. by destruct (native_terminal_status n). }
  unfold goes, or_raised. rewrite Heq. destruct (negb _).
  { eexists _, _, _. split; [done|]. exists c. by split_and!. }
  destruct (native_terminal_status n) as [status|] eqn:Hst.
  - destruct (finish_ok l status (if bool_decide (status = "failed") then
              let '(code, reason, retryable) := terminal_failure_details n in mkDetails (Some code) (Some reason) (Some retryable) else no_details) h c)
      as (h1 & e & -> & Hp); [done|by eapply native_status_known|]. by eexists _, _, _.
  - destruct (to_harness_event_spec t l n h c Hc) as (c1 & Hs & Hc1 & Hev). by apply (or_raised_ok l (to_harness_event t l n) h c c1).
Qed.

Lemma stream_step_ok l t pc i m h c : context_at l h = Some c → stream_step l t pc i = Some m → goes l c m h.
Proof.
  intros Hc. assert (∀ status d, bool_decide (status ∈ STATUSES) = true → goes l c (finish l status d) h) as Hfin.
  { intros status d Hs%bool_decide_eq_true. destruct (finish_ok l status d h c Hc Hs) as (h1 & e & ? & ?). by eexists _, _, _. }
  assert (∀ pc1, match pc1 with SEnd _ => false | _ => true end = true → piece_ok c l h None pc1) as Hidle.
  { intros [] ?; try done; exists c; by split_and!. }
  destruct pc as [| |timeout| |o], i as [|[r|e]|[|[n|e]|[n|e]]|]; cbn [stream_step]; intros [= <-]; try by apply item_fails_ok.
  - unfold goes, stream_head, load_context, mbind, M_bind, gets. rewrite Hc. eexists _, _, _. split; [reflexivity|].
    destruct (SFleb _ _); [by apply Hidle|]. destruct (negb _); by apply Hidle.
  - by apply Hfin.
  - destruct (is_connection_error e); [by apply Hfin|]. eexists _, _, _. split; [reflexivity|by apply raised_ok].
  - eexists _, _, _. split; [reflexivity|by apply Hidle].
  - apply (or_raised_ok l _ h c c); [done|by unfold context_at; rewrite keeps_persist|].
    intros e He. destruct (persist_server_request t l n h) as [h1 r] eqn:E. cbn in He. subst r. by eapply persist_inner.
  - by apply stream_notification_ok.
  - exact (Hfin "incomplete" (disconnect_details (rpc_failure (ho_rpc h))) eq_refl).
Qed.

End streams.

Lemma SFltb_asym a b : SFltb a b = true → SFltb b a = false.
Proof.
  unfold SFltb, SFcompare.
  assert (Hcmp : ∀ p q, Pos.compare_cont Eq q p = CompOpp (Pos.compare_cont Eq p q)) by (intros; by rewrite Pos.compare_cont_antisym).
  destruct a as [|[]| |[] m e], b as [|[]| |[] m' e']; try done; rewrite (Z.compare_antisym e e'), (Hcmp m m'); destruct (Z.compare e e'); try done; by destruct (Pos.compare_cont Eq m m').
Qed.

(** ** Claims: the stream *)

Section stream_claims.
Context `{PyRepr} `{RegexEngine} `{EvidenceLib} `{Sha256}.

Definition ended (pc : stream_pc) : bool := match pc with SEnd _ => true | _ => false end.

Lemma streams_spec l h pc events h' pc' c :
  streams l h pc events h' pc' → ended pc = false → context_at l h = Some c →
  ∃ c', context_at l h' = Some c' ∧
  match pc' with
  | SEnd None => ∃ pre e status, events = pre ++ [e] ∧ Forall (inner_event c) pre ∧ of_turn c e ∧
      Driver.terminal_status e = Some status ∧ records_terminal c' status e
  | _ => same_turn c c' ∧ Forall (inner_event c) events
  end.
Proof.
  intros Hs. revert c. induction Hs as [h pc|h pc t i m h1 yielded pc1 h2 events h3 pc3 Hstep Hm Hctx Hrest IH]; intros c Hend Hc.
  { exists c. split; [done|]. by destruct pc. }
  pose proof (stream_step_ok l t pc i m h c Hc Hstep) as (h1' & y' & pc1' & Hm' & c1 & Hc1 & Hp). rewrite Hm in Hm'. injection Hm' as <- <- <-.
  rewrite <-Hctx in Hc1.
  assert (Hgo : ended pc1 = false → same_turn c c1 ∧ (∀ e, yielded = Some e → inner_event c e)) by (destruct pc1; done).
  destruct (ended pc1) eqn:Epc.
  - destruct pc1 as [| | | |o]; try done. inversion Hrest as [|? ? ? ? ? ? ? ? ? ? ? ? Hstep']; subst; [|by destruct i0].
    exists c1. split; [done|]. destruct o as [e|].
    + destruct Hp as [-> Hs]. by split.
    + destruct Hp as (e & status & -> & Ho & Ht & Hr). exists [], e, status. by split_and!.
  - destruct (Hgo eq_refl) as [Hs1 Hy]. destruct (IH c1 eq_refl Hc1) as (c' & Hc' & Hres). exists c'. split; [done|].
    assert (Hin : ∀ e, inner_event c1 e → inner_event c e) by (intros e [Ho Ht]; split; [by eapply of_turn_same|done]).
    assert (Hcons : ∀ l, Forall (inner_event c1) l → Forall (inner_event c) (match yielded with Some e => e :: l | None => l end)).
    { intros l0 Hl. apply (Forall_impl _ _ _ Hl) in Hin. destruct yielded as [e|]; [|done]. constructor; [by apply Hy|done]. }
    assert (Hany : same_turn c1 c' ∧ Forall (inner_event c1) events →
      same_turn c c' ∧ Forall (inner_event c) (match yielded with Some e => e :: events | None => events end)).
    { intros [Hs2 Hl]. split; [by etrans|by apply Hcons]. }
    destruct pc3 as [| | | |[o|]]; try by apply Hany.
    destruct Hres as (pre & e & status & -> & Hpre & Ho & Ht & Hr). exists (match yielded with Some y => y :: pre | None => pre end), e, status.
    split_and!; [by destruct yielded|by apply Hcons|by eapply of_turn_same|done|done].
Qed.

(** C13: A turn's stream ends once.  However other tasks interleave, whatever Codex sends and whatever
    fails: every event carries the turn's identifiers; the generator returns only after a terminal event,
    which is its last event and its only terminal; the driver reads the terminal's status from it, and
    [finalize_turn] gives the same status and event; and while it runs, or when it raises, no terminal
    was yielded and none is recorded. *)
Theorem stream_ends_once l h events h' pc c :
  context_at l h = Some c → tc_terminal_status c = None → streams l h SHead events h' pc →
  Forall (of_turn c) events ∧
  match pc with
  | SEnd None => ∃ pre terminal status, events = pre ++ [terminal] ∧ Forall (λ e, Driver.terminal_status e = None) pre ∧
      Driver.terminal_status terminal = Some status ∧
      ∀ turn_id, dget turn_id (ad_turn_contexts (ho_adapter h')) = Some l → (finalize_turn turn_id h').2 = Ok (status, Some terminal)
  | _ => Forall (λ e, Driver.terminal_status e = None) events ∧ ∃ c', context_at l h' = Some c' ∧ tc_terminal_status c' = None
  end.
Proof.
  intros Hc Hopen Hs. destruct (streams_spec _ _ _ _ _ _ _ Hs eq_refl Hc) as (c' & Hc' & Hres).
  assert (Hinner : ∀ l, Forall (inner_event c) l → Forall (of_turn c) l ∧ Forall (λ e, Driver.terminal_status e = None) l).
  { intros l0 Hl. split; apply (Forall_impl _ _ _ Hl); intros e [Ho Ht]; [done|]. unfold terminal_type in Ht. by destruct (Driver.terminal_status e). }
  assert (Hidle : same_turn c c' ∧ Forall (inner_event c) events →
    Forall (of_turn c) events ∧ Forall (λ e, Driver.terminal_status e = None) events ∧ ∃ c', context_at l h' = Some c' ∧ tc_terminal_status c' = None).
  { intros [(_ & _ & _ & _ & _ & Hst & _) Hl]. apply Hinner in Hl as [? ?]. split_and!; [done..|]. exists c'. split; [done|congruence]. }
  destruct pc as [| | | |[e|]]; try by apply Hidle.
  destruct Hres as (pre & e & status & -> & Hpre & Ho & Ht & Hr & He). apply Hinner in Hpre as [Hof Hno].
  split; [by apply Forall_app; split; [|constructor]|]. exists pre, e, status. split_and!; [done..|].
  intros turn_id Hl. unfold finalize_turn, mbind, M_bind, adapter_is, gets, modify, load_context. rewrite Hl.
  unfold context_at in *. cbn. rewrite Hc'. cbn. by rewrite Hr, He.
Qed.

(** What the stream does, branch by branch.  Past its deadline the turn is interrupted and ends as
    failed with a timeout, whatever the interrupt answers; on a lost connection it ends as incomplete;
    otherwise it waits, at most five seconds and never beyond the deadline.  A message of another thread
    or turn changes nothing; a notification that ends the turn ends it with its status, and with a code
    exactly if it failed; a subscriber that falls behind ends it as failed. *)
Theorem stream_branches l t h c :
  context_at l h = Some c →
  let remaining := remaining_seconds c (tk_mono t) in
  let goes_to (m : option (host_m (option HarnessEvent * stream_pc))) pc := ∃ f, m = Some f ∧ f h = (h, Ok (None, pc)) in
  let ends_with (m : option (host_m (option HarnessEvent * stream_pc))) status d := ∃ f h1, m = Some f ∧
    f h = (h1, Ok (Some (terminal_harness_event c status d), SEnd None)) in
  (SFleb remaining float_zero = true →
     goes_to (stream_step l t SHead Resume) SInterrupt ∧
     ∀ r, match r with inr e => is_connection_error e = true | inl _ => True end →
       ends_with (stream_step l t SInterrupt (Interrupted r)) "failed" deadline_details) ∧
  (SFleb remaining float_zero = false → rpc_connected (ho_rpc h) = false →
     goes_to (stream_step l t SHead Resume) SLeave ∧
     ends_with (stream_step l t SLeave Left) "incomplete" (disconnect_details (rpc_failure (ho_rpc h)))) ∧
  (SFleb remaining float_zero = false → rpc_connected (ho_rpc h) = true →
     ∃ timeout, goes_to (stream_step l t SHead Resume) (SWait timeout) ∧
       SFltb (float_of_Z 5) timeout = false ∧ SFltb remaining timeout = false) ∧
  (∀ timeout m, belongs_to_turn m c = false →
     goes_to (stream_step l t (SWait timeout) (Waited (NotificationDone (Item m)))) SHead ∧
     goes_to (stream_step l t (SWait timeout) (Waited (RequestDone (Item m)))) SHead) ∧
  (∀ timeout n status, belongs_to_turn n c = true → native_terminal_status n = Some status →
     ∃ d, ends_with (stream_step l t (SWait timeout) (Waited (NotificationDone (Item n)))) status d ∧
       (is_some (td_code d) = bool_decide (status = "failed"))) ∧
  (∀ timeout msg, ends_with (stream_step l t (SWait timeout) (Waited (NotificationDone (ItemFails (Rpc (CodexSubscriberOverloaded msg))))))
     "failed" overload_details).
Proof.
  intros Hc remaining goes_to ends_with.
  assert (Hfin : ∀ status d, ∃ h1, finish l status d h = (h1, Ok (Some (terminal_harness_event c status d), SEnd None))).
  { intros status d. unfold finish, load_context, mbind, M_bind, modify. rewrite Hc. by eexists. }
  assert (Hhead : stream_head l t h = (h, Ok (None, if SFleb remaining float_zero then SInterrupt
              else if negb (rpc_connected (ho_rpc h)) then SLeave else SWait (py_min remaining (float_of_Z 5))))).
  { unfold stream_head, load_context, mbind, M_bind, gets. by rewrite Hc. }
  unfold goes_to, ends_with. cbn [stream_step]. split_and!.
  - intros Hr. split; [eexists; split; [reflexivity|by rewrite Hhead, Hr]|]. intros [r|e] He; [|rewrite He];
      destruct (Hfin "failed" deadline_details) as [h1 Hf]; by eexists _, h1.
  - intros Hr Hcon. split; [eexists; split; [reflexivity|by rewrite Hhead, Hr, Hcon]|].
    destruct (Hfin "incomplete" (disconnect_details (rpc_failure (ho_rpc h)))) as [h1 Hf]. by eexists _, h1.
  - intros Hr Hcon. eexists. split; [eexists; split; [reflexivity|by rewrite Hhead, Hr, Hcon]|]. unfold py_min.
    destruct (SFltb (float_of_Z 5) remaining) eqn:E; [split; [apply SFltb_irrefl|]|split; [done|apply SFltb_irrefl]].
    by apply SFltb_asym.
  - intros timeout m Hm. split; (eexists; split; [reflexivity|]); unfold or_raised, stream_notification, persist_server_request, load_context, mbind, M_bind;
      rewrite Hc, Hm; [done|]. cbn. by rewrite orb_true_r.
  - intros timeout n status Hn Hst.
    exists (if bool_decide (status = "failed") then let '(code, reason, retryable) := terminal_failure_details n in
              mkDetails (Some code) (Some reason) (Some retryable) else no_details).
    split; [|destruct (bool_decide _); [by destruct (terminal_failure_details n) as [[]]|done]].
    eexists. destruct (Hfin status (if bool_decide (status = "failed") then let '(code, reason, retryable) := terminal_failure_details n in
              mkDetails (Some code) (Some reason) (Some retryable) else no_details)) as [h1 Hf].
    exists h1. split; [reflexivity|]. unfold or_raised, stream_notification, load_context, mbind, M_bind. rewrite Hc, Hn, Hst. cbn [negb]. by rewrite Hf.
  - intros timeout msg. destruct (Hfin "failed" overload_details) as [h1 Hf]. by eexists _, h1.
Qed.

End stream_claims.

(** ** Starting a turn *)

Section starts.
Context `{PyRepr} `{FloatText}.

(** The one server a turn may bring: the built-in recall server, on the loopback address, with one tool. *)
Definition recall_override (servers : pydict) : Prop :=
  servers = [] ∨ ∃ url headers enabled required timeout,
    starts_with "http://127.0.0.1:" url = true ∧
    servers = [(BUILTIN_COWORK_RECALL_MCP_NAME, PDict
      [("url", PStr url); ("http_headers", PDict (text_headers headers)); ("enabled", PBool enabled); ("required", PBool required);
       ("tool_timeout_sec", PFloat timeout); ("enabled_tools", PList [PStr "recall"]); ("default_tools_approval_mode", PStr "approve")])].

Lemma mcp_override_recall servers server servers' : recall_override servers → mcp_override servers server = Ok servers' → recall_override servers'.
Proof.
  intros Hs. unfold mcp_override. destruct server as [| | | | | |data]; try (by intros [= <-]).
  destruct (negb (recall_server data)); [by intros [= <-]|].
  destruct (pget "url" data) as [| | | |url| |]; try (by intros [= <-]). destruct (pget "headers" data) as [| | | | | |headers]; try (by intros [= <-]).
  destruct (starts_with _ url) eqn:Hurl; cbn [negb]; [|by intros [= <-]].
  destruct (nonempty_text (pget "X-HaaS-Session-ID" headers)) as [sid|], (nonempty_text (pget "X-HaaS-Recall-Token" headers)) as [tok|];
    try (by intros [= <-]).
  intros (timeout & _ & [= <-])%bind_Ok. right. eexists url, headers, _, _, timeout. split; [done|].
  destruct Hs as [->|(? & ? & ? & ? & ? & _ & ->)]; reflexivity.
Qed.

Lemma mcp_overrides_go_recall l servers servers' : recall_override servers → mcp_overrides_go servers l = Ok servers' → recall_override servers'.
Proof.
  revert servers. induction l as [|server l IH]; intros servers Hs; cbn [mcp_overrides_go]; [by intros [= <-]|].
  intros (servers1 & H1 & H2)%bind_Ok. by eapply IH; [eapply mcp_override_recall|].
Qed.

(** The configuration of a thread names no tool server but the recall server. *)
Definition only_recall (params : pydict) : Prop :=
  ∀ config, pget "config" params = PDict config →
    pget "mcp_servers" config = PNone ∨ ∃ servers, pget "mcp_servers" config = PDict servers ∧ recall_override servers.

Lemma with_overrides_recall base request params : dget "config" base = None → with_overrides base request = Ok params → only_recall params.
Proof.
  unfold with_overrides. intros Hb (overrides & Ho & (servers & Hs & [= <-])%bind_Ok)%bind_Ok config.
  assert (Hc : ∀ config, pget "config" (dict_update base overrides) = PDict config → pget "mcp_servers" config = PNone).
  { clear config. unfold model_overrides in Ho. intros config. case_bool_decide; [injection Ho as <-; cbn; unfold pget, pget_or; by rewrite Hb|].
    apply bind_Ok in Ho as (url & _ & (token & _ & [= <-])%bind_Ok). unfold dict_update. cbn [foldl fst snd].
    unfold pget at 1, pget_or. rewrite dget_dset_eq. by intros [= <-]. }
  case_bool_decide as Hn; [by intros E; left; apply Hc|].
  destruct (pget_or "config" (PDict []) (dict_update base overrides)) as [| | | | | |config'] eqn:E'.
  all: try (intros E; left; by apply Hc).
  unfold pget at 1, pget_or. rewrite dget_dset_eq. intros [= <-]. right. exists servers. unfold pget, pget_or. rewrite dget_dset_eq.
  split; [done|]. apply (mcp_overrides_go_recall (tr_mcpServers request) []); [by left|exact Hs].
Qed.

(** The model of a request that names one. *)
Definition named_model (request : TurnRequest) : pydict :=
  match tr_model request with Some (String a s) => [("model", PStr (String a s))] | _ => [] end.

(** What the calls of [start_turn] may be. *)
Definition start_call (request : TurnRequest) (c : rpc_call) : Prop :=
  let cwd := turn_cwd (tr_sandbox request) in
  match c with
  | CallLock | CallConnect => True
  | CallRequest method params =>
      match method with
      | "thread/unsubscribe" => tr_credentials request ≠ [] ∧ ∃ thread_id, thread_id ≠ "" ∧ params = [("threadId", PStr thread_id)]
      | "thread/resume" => ∃ thread_id, thread_id ≠ "" ∧
          with_overrides [("threadId", PStr thread_id); ("cwd", PStr cwd); ("excludeTurns", PBool true)] request = Ok params ∧
          only_recall params
      | "thread/start" => ∃ sandbox, to_thread_sandbox_mode (tb_mode (tr_sandbox request)) = Ok sandbox ∧
          with_overrides
            ([("cwd", PStr cwd); ("sandbox", PStr sandbox);
              ("approvalPolicy", pget_or "approvalPolicy" (PStr DEFAULT_APPROVAL_POLICY) (tr_policy request))] ++ named_model request)
            request = Ok params ∧
          only_recall params
      | "turn/start" => ∃ thread_id, thread_id ≠ "" ∧ turn_params thread_id request = Ok params
      | _ => False
      end
  | CallRespond _ _ | CallClose => False
  end.

(** The exceptions that the request itself makes the code raise. *)
Definition request_error (request : TurnRequest) (e : exn) : Prop :=
  to_thread_sandbox_mode (tb_mode (tr_sandbox request)) = Raise e ∨ model_overrides request = Raise e ∨
  mcp_server_overrides request = Raise e ∨ to_codex_input (tr_input request) false = Raise e ∨
  turn_sandbox_policy (tr_sandbox request) (turn_cwd (tr_sandbox request)) (tr_policy request) = Raise e.

(** What a refused start raises, [raised] being the Python exceptions that calls have raised: a cancellation, a start error with a stable
    code, or what the request or a call raised. *)
Definition start_refusal (request : TurnRequest) (raised : list exn) (e : adapter_exn) : Prop :=
  match e with
  | Rpc e => e = CancelledError
  | Py e =>
      (∃ code retryable detail, e = AdapterTurnStartError code retryable (Some detail) ∧
         code ∈ ["haas_request_timeout"; "haas_adapter_unavailable"; "haas_adapter_config_error"; "haas_codex_rpc_error"]) ∨
      request_error request e ∨ e ∈ raised
  end.

(** The Python exceptions that calls raise, in order. *)
Definition raised_step (raised : list exn) (c : rpc_call) : rpc_reply c → option (list exn) :=
  match c return rpc_reply c → option (list exn) with
  | CallConnect | CallRespond _ _ => λ r, Some (match r with inr (Py e) => raised ++ [e] | _ => raised end)
  | CallRequest _ _ => λ r, Some (match r with inr (Py e) => raised ++ [e] | _ => raised end)
  | CallLock | CallClose => λ _, Some raised
  end.

(** The tables of turns are as before. *)
Definition same_tables (h h' : Host) : Prop :=
  ad_contexts (ho_adapter h') = ad_contexts (ho_adapter h) ∧ ad_turn_contexts (ho_adapter h') = ad_turn_contexts (ho_adapter h) ∧
  ad_turn_index (ho_adapter h') = ad_turn_index (ho_adapter h).
#[local] Instance same_tables_preorder : PreOrder same_tables.
Proof. split; [done|]. intros a b c (?&?&?) (?&?&?). repeat split; congruence. Qed.

Context (request : TurnRequest).

(** A part of the coroutine that leaves the tables alone and returns values in [P]. *)
Definition part_post {A} (P : A → Prop) (h h' : Host) (r : A + adapter_exn) : Prop :=
  same_tables h h' ∧ match r with inl a => P a | inr _ => True end.
Definition part {A} (P : A → Prop) (m : adapter_task A) : Prop := task_obeys (start_call request) same_tables (part_post P) m.

Lemma part_after {A} (P : A → Prop) : after_G same_tables (part_post P).
Proof. intros s s1 s2 r Hg [Hg' Hr]. split; [by etrans|done]. Qed.

Lemma part_bind {A B} (P : A → Prop) (P' : B → Prop) (m : adapter_task A) (f : A → adapter_task B) :
  part P m → (∀ a, P a → part P' (f a)) → part P' (m ≫= f).
Proof.
  intros Hm Hf. apply (obeys_bind _ _ (part_post P) (part_post P') P); [apply part_after| |by intros ? ? ? [? _]|done|done].
  by intros ? ? ? [? ?].
Qed.
Lemma part_try {A} (P : A → Prop) (m : adapter_task A) (h : adapter_exn → adapter_task A) :
  part P m → (∀ e, part P (h e)) → part P (task_try m h).
Proof.
  intros Hm Hh. apply (obeys_try _ _ (part_post P)); [apply part_after|done|by intros ? ? ? [? _]|done|].
  intros e _. apply Hh.
Qed.
Lemma part_ret {A} (P : A → Prop) a : P a → part P (mret a : adapter_task A).
Proof. intros HP. by apply obeys_ret. Qed.
Lemma part_fails {A} (P : A → Prop) e : part P (fails e : adapter_task A).
Proof. by apply obeys_throw. Qed.
Lemma part_settle {A} (P : A → Prop) (r : A + adapter_exn) : match r with inl a => P a | inr _ => True end → part P (settle r).
Proof. destruct r; [apply part_ret|intros _; apply part_fails]. Qed.
Lemma part_see {A} (f : Host → A) : part (λ _, True) (see f).
Proof. by apply obeys_look. Qed.
Lemma part_update f :
  (∀ a, ad_contexts (f a) = ad_contexts a ∧ ad_turn_contexts (f a) = ad_turn_contexts a ∧ ad_turn_index (f a) = ad_turn_index a) →
  part (λ _, True) (update f).
Proof. intros Hf. apply obeys_alter. intros h. split; [apply Hf|done]. Qed.
Lemma part_sync {A} (r : result A) : part (λ a, r = Ok a) (sync (lift r)).
Proof. intros h. cbn. split; [done|]. by destruct r. Qed.
Lemma part_await c : start_call request c → part (λ _, True) (await c : adapter_task _).
Proof. intros Hc. by apply (obeys_await _ _ (λ c, part_post (λ _, True))). Qed.

Lemma part_request method params : start_call request (CallRequest method params) → part (λ _, True) (rpc_request method params).
Proof. intros Hc. eapply part_bind; [by apply part_await|]. intros [r|e] _; [by apply part_ret|apply part_fails]. Qed.

Lemma part_weaken {A} (P P' : A → Prop) (m : adapter_task A) : (∀ a, P a → P' a) → part P m → part P' m.
Proof. intros HP. apply obeys_task_weaken. intros s s1 [a|e] [? ?]; split; auto. Qed.

Lemma part_ensure_connected : part (λ _, True) ensure_connected.
Proof.
  unfold ensure_connected. eapply part_bind; [apply part_see|]. intros [] _; [by apply part_ret|].
  eapply part_bind; [by apply part_await|]. intros _ _. eapply part_bind; [apply part_see|]. intros [] _; [by apply part_ret|].
  eapply part_bind; [by apply part_update|]. intros _ _. eapply part_bind; [by apply part_await|].
  intros r _. apply part_settle. by destruct r.
Qed.

Lemma part_start_thread scope : part (λ s, s ≠ "") (start_thread scope (turn_cwd (tr_sandbox request)) (tb_mode (tr_sandbox request)) request).
Proof.
  unfold start_thread. eapply part_bind; [apply part_sync|]. intros sandbox Hs. eapply part_bind; [apply part_sync|]. intros params Hp.
  eapply part_bind; [apply part_request; exists sandbox; split; [exact Hs|split; [exact Hp|]]|].
  { eapply with_overrides_recall; [|exact Hp]. cbn. by destruct (tr_model request) as [[]|]. }
  intros res _. case_bool_decide as Hid; [apply part_fails|].
  eapply part_bind; [by apply part_update|]. intros _ _. by apply part_ret.
Qed.

Lemma part_resume_thread thread_id scope :
  thread_id ≠ "" → part (λ s, s ≠ "") (resume_thread thread_id scope (turn_cwd (tr_sandbox request)) (Some request)).
Proof.
  intros Hid. unfold resume_thread.
  apply (part_bind (λ params, with_overrides [("threadId", PStr thread_id); ("cwd", PStr (turn_cwd (tr_sandbox request))); ("excludeTurns", PBool true)] request = Ok params)).
  - apply (part_bind (λ _, True)); [|intros _ _; apply part_sync]. case_bool_decide as Hc; [by apply part_ret|]. apply part_request. split; [done|]. by exists thread_id.
  - intros params Hp. eapply part_bind; [apply part_request; exists thread_id; split; [done|]; split; [exact Hp|by eapply with_overrides_recall; [|exact Hp]]|].
    intros res _. case_bool_decide; [by apply part_ret|].
    eapply part_bind; [by apply part_update|]. intros _ _. by apply part_ret.
Qed.

Lemma part_turn_thread : part (λ s, s ≠ "") (turn_thread request).
Proof.
  unfold turn_thread. eapply part_bind; [apply part_see|]. intros known _. apply (part_bind (λ _, True)).
  - case_bool_decide; [by apply part_ret|]. unfold resume_or_drop_thread. apply part_try.
    + by eapply part_weaken; [|by apply part_resume_thread].
    + intros e. destruct (_ && _); [|apply part_fails]. eapply part_bind; [by apply part_update|]. intros _ _. by apply part_ret.
  - intros thread_id _. case_bool_decide; [apply part_start_thread|by apply part_ret].
Qed.

Definition safe_post {A} (P : A → Prop) (h h' : Host) (r : A + adapter_exn) : Prop :=
  same_tables h h' ∧ match r with inl a => P a | inr _ => True end.
Definition safe {A} (P : A → Prop) (m : adapter_task A) : Prop := task_obeys (start_call request) same_tables (safe_post P) m.

Lemma safe_mapped {A} (P : A → Prop) timed_out unavailable (m : adapter_task A) : part P m → safe P (mapped timed_out unavailable m).
Proof.
  intros Hm. apply (obeys_try _ _ (part_post P) (safe_post P)); [|done|by intros ? ? ? [? _]|done|].
  - intros s s1 s2 r Hg [Hg' Hr]. split; [by etrans|done].
  - intros e _. by apply obeys_throw.
Qed.
Lemma safe_sync {A} (r : result A) : safe (λ a, r = Ok a) (sync (lift r)).
Proof. intros h. cbn. split; [done|]. by destruct r. Qed.
Lemma safe_see {A} (f : Host → A) : safe (λ _, True) (see f).
Proof. by apply obeys_look. Qed.
Lemma safe_update f :
  (∀ a, ad_contexts (f a) = ad_contexts a ∧ ad_turn_contexts (f a) = ad_turn_contexts a ∧ ad_turn_index (f a) = ad_turn_index a) →
  safe (λ _, True) (update f).
Proof. intros Hf. apply obeys_alter. intros h. split; [apply Hf|done]. Qed.

(** What the end of [start_turn] establishes, over its last piece. *)
Definition start_post (started_at : spec_float) (h h' : Host) (r : TurnHandle + adapter_exn) : Prop :=
  match r with
  | inl handle => ∃ thread_id codex_turn_id n m,
      let c := turn_context request thread_id codex_turn_id started_at n m in
      thread_id ≠ "" ∧ th_turnId handle = tr_turnId request ∧
      th_opaque handle = [("adapterId", PStr "codex-app-server"); ("threadId", PStr thread_id); ("codexTurnId", PStr codex_turn_id);
                          ("generation", PInt (ad_generation (ho_adapter h')))] ∧
      ad_contexts (ho_adapter h') = ad_contexts (ho_adapter h) ++ [c] ∧
      dget (tr_turnId request) (ad_turn_contexts (ho_adapter h')) = Some (length (ad_contexts (ho_adapter h))) ∧
      dget codex_turn_id (ad_turn_index (ho_adapter h')) = Some (tr_turnId request)
  | inr _ => same_tables h h'
  end.

Lemma start_after started_at : after_G same_tables (start_post started_at).
Proof.
  intros s s1 s2 [handle|e] (Hc & Ht & Hi); cbn [start_post].
  - intros (th & ct & n & m & ? & ? & ? & Hctx & Hl & ?). exists th, ct, n, m. rewrite Hctx, Hl, Hc. by split_and!.
  - intros (? & ? & ?). repeat split; congruence.
Qed.

Lemma start_bind {A} started_at (P : A → Prop) (m : adapter_task A) (f : A → adapter_task TurnHandle) :
  safe P m → (∀ a, P a → task_obeys (start_call request) same_tables (start_post started_at) (f a)) →
  task_obeys (start_call request) same_tables (start_post started_at) (m ≫= f).
Proof.
  intros Hm Hf. apply (obeys_bind _ _ (safe_post P) _ P); [apply start_after|by intros ? ? ? [? ?]|by intros ? ? ? [? ?]|done|done].
Qed.

(** *** The exceptions *)

(** A part raises what the RPC client raises, or what the request or a call raises. *)
Definition raises {A} (m : adapter_task A) : Prop :=
  ∀ raised, task_follows raised_step
    (λ raised' r, match r with inr (Py e) => request_error request e ∨ e ∈ raised' | _ => True end) raised m.

Lemma raises_bind {A B} (m : adapter_task A) (f : A → adapter_task B) : raises m → (∀ a, raises (f a)) → raises (m ≫= f).
Proof.
  intros Hm Hf raised. apply task_follows_bind. eapply task_follows_weaken; [|apply Hm]. intros raised' [a|[e|e]] Hr; [apply Hf|exact Hr|done].
Qed.
Lemma raises_ret {A} (a : A) : raises (mret a : adapter_task A).
Proof. intros raised. by apply task_follows_ret. Qed.
Lemma raises_rpc {A} e : raises (fails (Rpc e) : adapter_task A).
Proof. intros raised. by apply task_follows_throw. Qed.
Lemma raises_see {A} (f : Host → A) : raises (see f).
Proof. intros raised. by apply task_follows_look. Qed.
Lemma raises_update f : raises (update f).
Proof. intros raised. by apply task_follows_alter. Qed.
Lemma raises_sync {A} (r : result A) : (∀ e, r = Raise e → request_error request e) → raises (sync (lift r)).
Proof. intros Hr raised h. cbn. destruct r as [a|e]; [done|]. left. by apply Hr. Qed.
Lemma raises_request method params : raises (rpc_request method params).
Proof.
  intros raised. apply task_follows_bind. intros s r s'. cbn. destruct r as [r|[e|e]]; [done| |done].
  right. apply elem_of_app. right. by left.
Qed.
Lemma raises_connect : raises ensure_connected.
Proof.
  unfold ensure_connected. apply raises_bind; [apply raises_see|]. intros []; [apply raises_ret|].
  apply raises_bind; [intros raised s r s'; done|]. intros _. apply raises_bind; [apply raises_see|]. intros []; [apply raises_ret|].
  apply raises_bind; [apply raises_update|]. intros _ raised. apply task_follows_bind. intros s r s'. cbn.
  destruct r as [[]|[e|e]]; [done| |done]. right. apply elem_of_app. right. by left.
Qed.

Lemma with_overrides_raises base e : with_overrides base request = Raise e → request_error request e.
Proof.
  unfold with_overrides, request_error. destruct (model_overrides request) as [o|]; [|intros [= ->]; by right; left].
  cbn. destruct (mcp_server_overrides request); [done|]. intros [= ->]. by right; right; left.
Qed.
Lemma turn_params_raises thread_id e : turn_params thread_id request = Raise e → request_error request e.
Proof.
  unfold turn_params, request_error. destruct (to_codex_input _ _); [|intros [= ->]; by auto 6].
  cbn. destruct (turn_sandbox_policy _ _ _); [done|]. intros [= ->]. by auto 6.
Qed.

Lemma raises_turn_thread : raises (turn_thread request).
Proof.
  unfold turn_thread. apply raises_bind; [apply raises_see|]. intros known. apply raises_bind.
  - case_bool_decide; [apply raises_ret|]. unfold resume_or_drop_thread. intros raised. apply task_follows_try.
    assert (Hr : raises (resume_thread known (request_of_scope request) (turn_cwd (tr_sandbox request)) (Some request))).
    { unfold resume_thread. apply raises_bind.
      - apply raises_bind; [case_bool_decide; [apply raises_ret|apply raises_request]|]. intros _. apply raises_sync. intros e. apply with_overrides_raises.
      - intros params. apply raises_bind; [apply raises_request|]. intros res. case_bool_decide; [apply raises_ret|].
        apply raises_bind; [apply raises_update|]. intros _. apply raises_ret. }
    eapply task_follows_weaken; [|apply Hr]. intros raised' [a|e] He; [done|]. destruct (_ && _).
    + apply (raises_bind (update _) (λ _, mret "")); [apply raises_update|intros _; apply raises_ret].
    + apply task_follows_throw. by destruct e.
  - intros thread_id. case_bool_decide; [|apply raises_ret]. unfold start_thread.
    apply raises_bind; [apply raises_sync; intros e; by left|]. intros sandbox.
    apply raises_bind; [apply raises_sync; intros e; apply with_overrides_raises|]. intros params. apply raises_bind; [apply raises_request|].
    intros res. case_bool_decide; [apply raises_rpc|]. apply raises_bind; [apply raises_update|]. intros _. apply raises_ret.
Qed.

(** The same for a whole start: what the RPC client raises is mapped. *)
Definition refuses {A} (m : adapter_task A) : Prop :=
  ∀ raised, task_follows raised_step (λ raised' r, match r with inr e => start_refusal request raised' e | inl _ => True end) raised m.

Lemma refuses_bind {A B} (m : adapter_task A) (f : A → adapter_task B) : refuses m → (∀ a, refuses (f a)) → refuses (m ≫= f).
Proof.
  intros Hm Hf raised. apply task_follows_bind. eapply task_follows_weaken; [|apply Hm]. intros raised' [a|e] Hr; [apply Hf|exact Hr].
Qed.
Lemma start_error_stable timed_out unavailable raised e :
  match e with Py e => request_error request e ∨ e ∈ raised | Rpc _ => True end →
  start_refusal request raised (start_error timed_out unavailable e).
Proof.
  destruct e as [e|e]; [by right|]. intros _. destruct e; cbn [start_error]; try done.
  all: try (left; eexists _, _, _; split; [reflexivity|set_solver]).
  unfold map_native_rpc_error. repeat case_match; simplify_eq; left; eexists _, _, _; (split; [reflexivity|set_solver]).
Qed.

Lemma refuses_mapped {A} timed_out unavailable (m : adapter_task A) : raises m → refuses (mapped timed_out unavailable m).
Proof.
  intros Hm raised. apply task_follows_try. eapply task_follows_weaken; [|apply Hm]. intros raised' [a|e] Hr; [done|].
  apply task_follows_throw. apply start_error_stable. by destruct e.
Qed.

Lemma refuses_start_turn started_at : refuses (start_turn started_at request).
Proof.
  unfold start_turn. apply refuses_bind; [apply refuses_mapped, raises_connect|]. intros _.
  apply refuses_bind; [intros raised; by apply task_follows_alter|]. intros _.
  apply refuses_bind; [apply refuses_mapped, raises_turn_thread|]. intros thread_id.
  apply refuses_bind.
  { intros raised h. cbn. destruct (turn_params thread_id request) as [params|e] eqn:Hp; [done|]. right. left. by eapply turn_params_raises. }
  intros params. apply refuses_bind; [intros raised; by apply task_follows_look|]. intros n.
  apply refuses_bind; [intros raised; by apply task_follows_look|]. intros m.
  apply refuses_bind; [apply refuses_mapped, raises_request|]. intros res.
  apply refuses_bind; [intros raised; by apply task_follows_alter|]. intros _.
  apply refuses_bind; [intros raised; by apply task_follows_look|]. intros g raised. by apply task_follows_ret.
Qed.

(** C14: A turn starts whole or not at all, and only with what the request allows.  Under every
    interleaving and every answer: the calls are the connection, thread requests and [turn/start].  A new thread gets the request's directory,
    the sandbox of its mode, its approval policy and model, a resumed one its own id and the
    directory, both with the request's model overrides and no tool server but the built-in recall server; [turn/start] names a
    thread and has the parameters of [turn_params].  The turn is registered exactly when a handle is
    returned, under a fresh context that names the thread of the handle.  What a start that
    fails raises is a cancellation, a start error with one of the four stable codes (all that the RPC client raises,
    cancellations apart, becomes one), an exception that a malformed request raises, or one that is not
    of the RPC client and that a call raised. *)
Theorem turn_starts_whole started_at :
  task_obeys (start_call request) same_tables (start_post started_at) (start_turn started_at request) ∧
  task_follows raised_step (λ raised r, match r with inr e => start_refusal request raised e | inl _ => True end) []
    (start_turn started_at request).
Proof.
  split; [|apply refuses_start_turn].
  unfold start_turn. eapply start_bind; [apply safe_mapped, part_ensure_connected|]. intros _ _.
  eapply start_bind; [apply safe_update|].
  { intros a. unfold adopt_legacy. by repeat case_match. }
  intros _ _. eapply start_bind; [apply safe_mapped, part_turn_thread|]. intros thread_id Hid.
  eapply start_bind; [apply safe_sync|]. intros params Hp.
  eapply start_bind; [apply safe_see|]. intros n _. eapply start_bind; [apply safe_see|]. intros m _.
  eapply start_bind; [apply safe_mapped, part_request; by exists thread_id|]. intros res _ h. cbn.
  exists thread_id, (answered_turn res (tr_turnId request)), n, m. split_and!; try done; exact (dget_dset_eq _ _ _).
Qed.

End starts.

(** ** What a turn is started with *)

Section narrow.
Context `{PyRepr} `{FloatText}.

Lemma codex_items_text item l : codex_items false item = Ok l → ∃ texts, l = text_item <$> texts.
Proof.
  unfold codex_items. destruct item as [| | | | | |d]; try (intros [= <-]; by exists []).
  destruct (dmem "type" d); [done|]. destruct (pget "parts" d) as [| | | | |parts|].
  6: { case_match; [done|]. intros [= <-]. by eexists. }
  all: destruct (pget "text" d) as [| | | |txt| |]; intros [= <-]; first [by exists [txt]|by exists []].
Qed.

Lemma codex_items_all_text items l : codex_items_all false items = Ok l → ∃ texts, l = text_item <$> texts.
Proof.
  revert l. induction items as [|item items IH]; intros l; cbn [codex_items_all]; [intros [= <-]; by exists []|].
  intros (here & Hh & (rest & Hr & [= <-])%bind_Ok)%bind_Ok. apply codex_items_text in Hh as [t1 ->]. apply IH in Hr as [t2 ->].
  exists (t1 ++ t2). by rewrite fmap_app.
Qed.

(** Codex gets no more than the request allows.  The input of a turn is text and never empty, native
    items are refused; a policy's disabled tools are named in its instructions; and the only tool
    server a thread can be given, whatever servers the request lists, is the built-in recall server
    on the loopback address with its one tool. *)
Theorem native_request_narrow request thread_id :
  (∀ params, turn_params thread_id request = Ok params →
     ∃ texts instructions, texts ≠ [] ∧ pget "input" params = PList (PDict <$> (text_item <$> texts)) ∧
       pget "instructions" params = PStr instructions ∧
       (disabled_tools (tr_policy request) ≠ [] → ∃ before, instructions = before +:+
          "Do not use the following tools: " +:+ join_with ", " (disabled_tools (tr_policy request)) +:+ ". They are disabled by policy.")) ∧
  (∀ item d, item ∈ tr_input request → item = PDict d → dmem "type" d = true → ∀ params, turn_params thread_id request ≠ Ok params) ∧
  (∀ servers, mcp_server_overrides request = Ok servers → recall_override servers).
Proof.
  split_and!.
  - intros params. unfold turn_params, to_codex_input. cbn zeta.
    intros (input & (l & Hl & [= <-])%bind_Ok & (policy & _ & [= <-])%bind_Ok)%bind_Ok. apply codex_items_all_text in Hl as [texts ->].
    exists (match texts with [] => [""] | _ => texts end), (turn_instructions (tr_instructions request) (tr_policy request)).
    split_and!; [by destruct texts|by destruct texts|done|]. unfold turn_instructions.
    destruct (disabled_tools (tr_policy request)) as [|name names]; [done|]. intros _.
    set (guided := match tr_instructions request with Some _ => _ | None => _ end). exists (guided +:+ blank_line). by rewrite str_app_assoc.
  - intros item d Hin -> Hd params. unfold turn_params, to_codex_input. cbn zeta.
    intros (input & (l & Hl & _)%bind_Ok & _)%bind_Ok. revert l Hl. induction (tr_input request) as [|x items IH]; [by apply elem_of_nil in Hin|].
    cbn [codex_items_all]. intros l (here & Hh & (rest & Hr & _)%bind_Ok)%bind_Ok.
    apply elem_of_cons in Hin as [<-|Hin]; [|by eapply IH]. unfold codex_items in Hh. by rewrite Hd in Hh.
  - intros servers. apply mcp_overrides_go_recall. by left.
Qed.

End narrow.

(** ** Command output *)

Section output.
Context `{PyRepr} `{RegexEngine} `{EvidenceLib}.

(** An output delta of the command [id]. *)
Definition output_delta (id d : string) (n : pydict) : Prop :=
  notification_method n = "item/commandExecution/outputDelta" ∧ command_item n = None ∧
  str_or (pget "itemId" (notification_params n)) "" = id ∧ pget "delta" (notification_params n) = PStr d.

(** The output accumulated so far and whether it was cut, after some deltas. *)
Definition grow_once (acc : string * bool) (d : string) : string * bool := if acc.2 then acc else grow_output acc.1 d.
Definition accumulate (acc : string * bool) (deltas : list string) : string * bool := foldl grow_once acc deltas.

(** What the tables say of a command's output. *)
Definition output_state (key : EvidenceKey) (a : CodexAdapter) : string * bool :=
  (default "" (dget key (ad_command_evidence_output a)), bool_decide (key ∈ ad_command_evidence_truncated a)).

Definition within (s : string) : Prop := Z.of_nat (String.length s) <= MAX_EVIDENCE_BYTES.

Lemma grow_output_within acc d : within (grow_output acc d).1.
Proof.
  unfold grow_output, within. destruct (Z.ltb_spec MAX_EVIDENCE_BYTES (Z.of_nat (String.length (acc +:+ d)))) as [Hlt|Hle]; [|done].
  cbn [fst]. rewrite string_length_app.
  pose proof (decode_ignore_length (slice_to (MAX_EVIDENCE_BYTES - 18) (acc +:+ d))) as Hd.
  pose proof (slice_to_length (MAX_EVIDENCE_BYTES - 18) (acc +:+ d)) as Hs.
  change (String.length EVIDENCE_TAIL) with 16%nat. change MAX_EVIDENCE_BYTES with 8388608 in *. specialize (Hs ltac:(lia)). lia.
Qed.

Lemma accumulate_spec acc deltas :
  within acc →
  within (accumulate (acc, false) deltas).1 ∧
  (Z.of_nat (String.length (acc +:+ join_with "" deltas)) <= MAX_EVIDENCE_BYTES →
   accumulate (acc, false) deltas = (acc +:+ join_with "" deltas, false)).
Proof.
  assert (Hnil : ∀ s : string, s +:+ "" = s) by (induction s as [|a s IH]; [done|]; exact (f_equal (String a) IH)).
  assert (Hjoin : ∀ d l, join_with "" (d :: l) = d +:+ join_with "" l) by (by intros d [|x l]; cbn [join_with]; rewrite ?Hnil).
  assert (Hcut : ∀ l s, accumulate (s, true) l = (s, true)) by (induction l as [|d l IH]; intros s; [done|apply IH]).
  revert acc. induction deltas as [|d deltas IH]; intros acc Hacc.
  { split; [done|]. intros _. cbn [join_with]. by rewrite Hnil. }
  unfold accumulate. cbn [foldl]. fold (accumulate (grow_once (acc, false) d) deltas). unfold grow_once. cbn [fst snd].
  pose proof (grow_output_within acc d) as Hw. destruct (grow_output acc d) as [s cut] eqn:Hg. cbn [fst] in Hw. rewrite Hjoin, str_app_assoc.
  destruct cut.
  - rewrite Hcut. split; [done|]. intros Hle. exfalso. unfold grow_output in Hg.
    destruct (Z.ltb_spec MAX_EVIDENCE_BYTES (Z.of_nat (String.length (acc +:+ d)))) as [Hlt|?]; [|done].
    rewrite string_length_app in Hle. lia.
  - unfold grow_output in Hg. destruct (_ <? _); [done|]. injection Hg as <-. by apply IH.
Qed.

(** The effect of a delta on the adapter's tables. *)
Definition delta_effect (key : EvidenceKey) (d : string) (a : CodexAdapter) : CodexAdapter :=
  let (output, now_cut) := grow_output (default "" (dget key (ad_command_evidence_output a))) d in
  a <| ad_command_evidence_truncated := if now_cut then {[key]} ∪ ad_command_evidence_truncated a else ad_command_evidence_truncated a |>
    <| ad_command_evidence_output := dset key output (ad_command_evidence_output a) |>.

Lemma record_delta_adapter t n c h id x d :
  output_delta id (String x d) n →
  default "" (dget (tc_turn_id c, id) (ad_command_evidence_refs (ho_adapter h))) ≠ "" →
  ho_adapter (record_delta t n c h).1 =
    (if bool_decide ((tc_turn_id c, id) ∈ ad_command_evidence_truncated (ho_adapter h)) then ho_adapter h
     else delta_effect (tc_turn_id c, id) (String x d) (ho_adapter h)).
Proof.
  intros (_ & _ & Hid & Hd) Href. unfold record_delta. rewrite Hid, Hd. set (key := (tc_turn_id c, id)) in *.
  unfold adapter_is, gets, mbind at 1, M_bind at 1. rewrite bool_decide_eq_false_2 by done.
  unfold mbind at 1, M_bind at 1. case_bool_decide; [done|]. unfold mbind at 1, M_bind at 1. unfold delta_effect.
  destruct (grow_output _ _) as [output now_cut]. unfold mbind, M_bind, modify, on_evidence.
  by destruct (update_output _ _ _ _ _) as [s [r|e]].
Qed.

Lemma record_delta_step t l n h c id x d :
  context_at l h = Some c → ad_execution_evidence (ho_adapter h) = true → output_delta id (String x d) n →
  default "" (dget (tc_turn_id c, id) (ad_command_evidence_refs (ho_adapter h))) ≠ "" →
  let h' := (to_harness_event t l n h).1 in
  (∃ c', same_turn c c' ∧ context_at l h' = Some c') ∧ ad_execution_evidence (ho_adapter h') = true ∧
  ad_command_evidence_refs (ho_adapter h') = ad_command_evidence_refs (ho_adapter h) ∧
  output_state (tc_turn_id c, id) (ho_adapter h') = grow_once (output_state (tc_turn_id c, id) (ho_adapter h)) (String x d) ∧
  ∀ key, key ≠ (tc_turn_id c, id) → output_state key (ho_adapter h') = output_state key (ho_adapter h).
Proof.
  intros Hc Hev Hd Href h'. split.
  { destruct (to_harness_event_spec t l n h c Hc) as (c' & ? & ? & _). by exists c'. }
  pose proof (model_call_same n c) as Hsame.
  assert (to_harness_event t l n h = filed_event t n (model_call_id n c).1 (model_call_id n c).2 (set_context l (model_call_id n c).1 h)) as Heq.
  { unfold to_harness_event, load_context, mbind, M_bind, modify. by rewrite Hc. }
  subst h'. rewrite Heq. clear Heq. destruct (model_call_id n c) as [c1 call]. cbn [fst snd] in *. destruct Hsame as (Hturn & _).
  set (h1 := set_context l c1 h).
  assert (ho_adapter (filed_event t n c1 call h1).1 = ho_adapter (record_delta t n c1 h1).1) as ->.
  { pose proof Hd as (Hm & Hci & _). unfold filed_event, adapter_is, gets, mbind, M_bind. cbn [ho_adapter]. change (ad_execution_evidence _) with (ad_execution_evidence (ho_adapter h)).
    rewrite Hev, Hci, Hm. change (bool_decide _) with true. change (dmem _ TERMINAL_METHODS) with false. cbn [andb].
    destruct (record_delta t n c1 h1) as [h2 [u|e]]; [|done]. unfold normalize, on_counts.
    by destruct (normalize_notification _ _ _) as [counts [ev|e]]. }
  rewrite (record_delta_adapter t n c1 h1 id x d) by (rewrite ?Hturn; done). rewrite Hturn.
  change (ho_adapter h1) with ((ho_adapter h) <| ad_contexts := <[l := c1]> (ad_contexts (ho_adapter h)) |>). cbn. unfold output_state, delta_effect, grow_once. cbn.
  destruct (decide ((tc_turn_id c, id) ∈ ad_command_evidence_truncated (ho_adapter h))) as [Hcut|Hcut].
  { rewrite !(bool_decide_eq_true_2 _ Hcut). by split_and!. }
  rewrite !(bool_decide_eq_false_2 _ Hcut). destruct (grow_output _ _) as [output now_cut]. cbn. split_and!; try done.
  - rewrite dget_dset_eq. cbn. f_equal.
    destruct now_cut; [apply bool_decide_eq_true_2; set_solver|by apply bool_decide_eq_false_2].
  - intros key Hkey. rewrite dget_dset_ne by done. f_equal. destruct now_cut; [|done]. apply bool_decide_ext. set_solver.
Qed.

(** C19: A command's evidence is its output.  After any sequence of output deltas of a command whose
    evidence was opened, the output kept for it is what was kept before with every delta behind it, as long as that fits
    in 8 MiB; it never exceeds 8 MiB whatever comes; and no other command's output changes. *)
Theorem command_output_accumulates l h c id acc deltas (notes : list (tick * pydict)) :
  context_at l h = Some c → ad_execution_evidence (ho_adapter h) = true →
  default "" (dget (tc_turn_id c, id) (ad_command_evidence_refs (ho_adapter h))) ≠ "" →
  output_state (tc_turn_id c, id) (ho_adapter h) = (acc, false) → within acc →
  Forall2 (λ d tn, d ≠ "" ∧ output_delta id d tn.2) deltas notes →
  let h' := foldl (λ h tn, (to_harness_event tn.1 l tn.2 h).1) h notes in
  within (output_state (tc_turn_id c, id) (ho_adapter h')).1 ∧
  (Z.of_nat (String.length (acc +:+ join_with "" deltas)) <= MAX_EVIDENCE_BYTES →
   output_state (tc_turn_id c, id) (ho_adapter h') = (acc +:+ join_with "" deltas, false)) ∧
  ∀ key, key ≠ (tc_turn_id c, id) → output_state key (ho_adapter h') = output_state key (ho_adapter h).
Proof.
  intros Hc Hev Href Hst Hw Hall h'.
  assert (Hgo : output_state (tc_turn_id c, id) (ho_adapter h') = accumulate (output_state (tc_turn_id c, id) (ho_adapter h)) deltas ∧
    ∀ key, key ≠ (tc_turn_id c, id) → output_state key (ho_adapter h') = output_state key (ho_adapter h)).
  { subst h'. clear Hst Hw acc. revert h c Hc Hev Href. induction Hall as [|d [t n] deltas notes [Hne Hd] Hall IH]; intros h c Hc Hev Href; [done|].
    destruct d as [|x d]; [done|]. cbn [foldl fst snd].
    destruct (record_delta_step t l n h c id x d Hc Hev Hd Href) as ((c1 & Hs & Hc1) & Hev1 & Href1 & Hout & Hoth).
    assert (tc_turn_id c1 = tc_turn_id c) as Ht by (by destruct Hs). rewrite <-Ht in *.
    destruct (IH _ c1 Hc1 Hev1) as [IHo IHk]; [by rewrite Href1|]. rewrite IHo, Hout. split; [done|].
    intros key Hkey. rewrite IHk by done. by apply Hoth. }
  destruct Hgo as [Hout Hoth]. rewrite Hst in Hout. rewrite Hout. destruct (accumulate_spec acc deltas Hw) as [Hb Heq].
  split_and!; [done|done|done].
Qed.

End output.

(** ** Answers to native prompts *)

(** Whether the adapter still waits for an answer to this interaction on this connection. *)
Definition answerable (i : interaction) (h : Host) : bool :=
  bool_decide (interaction_generation i = Some (ad_generation (ho_adapter h))) &&
  bool_decide (interaction_id i ∈ ad_pending_interactions (ho_adapter h)).

Definition forget (i : interaction) (h : Host) : Host :=
  on_adapter (λ a, a <| ad_pending_interactions := ad_pending_interactions a ∖ {[interaction_id i]} |>) h.

(** Where an answer that may be sent is sent, and what follows. *)
Lemma respond_sends i payload h res :
  answerable i h = true → native_result i payload = inl res →
  ∃ k, respond_interaction i payload h = (h, Await (CallRespond (interaction_native_id i) res) k) ∧
    (∀ e h', k (inr e) h' = (h', Done (inr e))) ∧ ∀ h', k (inl tt) h' = (forget i h', Done (inl tt)).
Proof.
  intros Ha Hr. apply andb_true_iff in Ha as [Hg Hp]. unfold respond_interaction, mbind, task_mbind, task_bind, see, look.
  cbn [async_bind]. rewrite Hg, Hp, Hr. cbn. eexists. by split; [reflexivity|].
Qed.

(** One response with [res] under the native request's id: a failed send leaves the prompt pending, a completed one takes it from the
    pending ones. *)
Definition sends (i : interaction) (payload : pydict) (h : Host) (res : pydict) : Prop :=
  ∃ k, respond_interaction i payload h = (h, Await (CallRespond (interaction_native_id i) res) k) ∧
    (∀ e h', k (inr e) h' = (h', Done (inr e))) ∧
    ∀ h', ∃ h2, k (inl tt) h' = (h2, Done (inl tt)) ∧ answerable i h2 = false ∧ ho_store h2 = ho_store h'.

Lemma answer_sends i payload h res : answerable i h = true → native_result i payload = inl res → sends i payload h res.
Proof.
  intros Ha Hr. destruct (respond_sends i payload h res Ha Hr) as (k & Hk & He & Hs). exists k. split_and!; [done..|].
  intros h'. exists (forget i h'). split_and!; [done| |done]. apply andb_false_iff. right. apply bool_decide_eq_false_2. cbn. set_solver.
Qed.
Lemma answer_fails i payload h e : answerable i h = true → native_result i payload = inr e → respond_interaction i payload h = (h, Done (inr e)).
Proof.
  intros Ha Hr. apply andb_true_iff in Ha as [Hg Hp]. unfold respond_interaction, mbind, task_mbind, task_bind, see, look.
  cbn [async_bind]. by rewrite Hg, Hp, Hr.
Qed.

(** C20: An answer goes to the connection that asked.  If the prompt is not pending, or was asked on another
    generation of the connection, nothing is sent and nothing changes.  Otherwise, for an approval, the decision's native word is sent
    if it is one of the three known decisions, and nothing is sent and nothing changes if it is not; for an input
    request the answers are sent whatever questions they name, each answer that is a dictionary with its values (a secret reference
    with none) and the others left out, and only what is no dictionary of answers is refused (that
    answers fit their questions is checked before, by the routes).  What is sent is one response under the id of the native
    request; a failed send leaves the prompt pending, and once the send has returned the prompt
    takes no other answer (one that starts while it is in flight is sent too). *)
Theorem answers_reach_their_request i payload h :
  (answerable i h = false →
     ∃ msg, respond_interaction i payload h = (h, Done (inr (Rpc (CodexConnectionError msg))))) ∧
  (answerable i h = true → ∀ r, i = Approval r →
     (∃ decision native, pget "decision" payload = PStr decision ∧
        (decision, native) ∈ [("approved", "accept"); ("denied", "decline"); ("cancelled", "cancel")] ∧
        sends i payload h [("decision", PStr native)]) ∨
     ((∀ decision, pget "decision" payload = PStr decision → decision ∉ ["approved"; "denied"; "cancelled"]) ∧
      ∃ e, respond_interaction i payload h = (h, Done (inr e)))) ∧
  (answerable i h = true → ∀ r, i = Input r →
     (∃ answers, py_or (pget "answers" payload) (PDict []) = PDict answers ∧
        sends i payload h [("answers", PDict (omap (λ kv : string * pyval,
          match kv.2 with PDict d => Some (kv.1, PDict [("answers", pget_or "values" (PList []) d)]) | _ => None end) answers))]) ∨
     ((∀ answers, py_or (pget "answers" payload) (PDict []) ≠ PDict answers) ∧
      ∃ e, respond_interaction i payload h = (h, Done (inr e)))).
Proof.
  split_and!.
  - unfold answerable. intros Ha. unfold respond_interaction. unfold mbind, task_mbind, task_bind, see, look. cbn [async_bind].
    destruct (bool_decide (interaction_generation i = _)); cbn [negb andb] in *; [rewrite Ha|]; by eexists.
  - intros Ha r ->. destruct (native_result (Approval r) payload) as [res|e] eqn:Hn.
    + left. pose proof Hn as Hn'. cbn [native_result] in Hn'. destruct (in_str_set _ _); [|done].
      destruct (pget "decision" payload) as [| | | |s| |]; try done. destruct (dget s DECISIONS) as [d|] eqn:Hd; [|done].
      injection Hn' as <-. exists s, d. split_and!; [done|by apply dget_Some_elem|by apply answer_sends].
    + right. split; [|exists e; by apply answer_fails]. intros s Hs Hin. cbn [native_result] in Hn. rewrite Hs in Hn. cbn in Hn.
      rewrite !elem_of_cons in Hin. destruct Hin as [-> | [-> | [-> | []%not_elem_of_nil]]]; done.
  - intros Ha r ->. destruct (native_result (Input r) payload) as [res|e] eqn:Hn.
    + left. pose proof Hn as Hn'. cbn [native_result] in Hn'. destruct (py_or _ _) as [| | | | | |supplied] eqn:Hp; try done. injection Hn' as <-.
      exists supplied. split; [done|]. by apply answer_sends.
    + right. split; [|exists e; by apply answer_fails]. intros answers Hp. cbn [native_result] in Hn. by rewrite Hp in Hn.
Qed.

(** ** Readiness fails closed *)

(** What a probe adds leaves a reason there, and adds one exactly when something is wrong. *)
Lemma dmem_snoc (k k' : string) (v : pyval) (d : pydict) : dmem k (d ++ [(k', v)]) = dmem k d || bool_decide (k = k').
Proof.
  unfold dmem. induction d as [|[k0 v0] d IH]; cbn [app dget].
  - destruct (decide (k = k')) as [Hk|Hk]; [by rewrite bool_decide_eq_true_2|by rewrite bool_decide_eq_false_2].
  - destruct (decide (k = k0)); [done|exact IH].
Qed.

Lemma checks_reason path_exists connects e details :
  dmem "safeReason" (with_handshake connects (with_endpoint path_exists e details)) =
  dmem "safeReason" details || is_some (endpoint_unavailable_reason path_exists e) || negb connects.
Proof.
  assert (Hs : ∀ v d, dmem "safeReason" (d ++ [("safeReason", v)]) = true) by (intros; by rewrite dmem_snoc, orb_true_r).
  unfold with_handshake, with_endpoint. destruct (endpoint_unavailable_reason path_exists e) as [reason|].
  - destruct (dmem "safeReason" details) eqn:E; cbn [is_some orb]; rewrite ?Hs, ?E; cbn [orb]; by rewrite ?Hs, ?E.
  - cbn [is_some]. rewrite orb_false_r. destruct (dmem "safeReason" details) eqn:E; cbn [orb]; [done|].
    destruct connects; cbn [negb]; by rewrite ?E, ?Hs.
Qed.

(** A service is ready only when nothing speaks against it: the binary answers, its schema is the
    recorded one or none is recorded, the endpoint is usable and the handshake succeeds. *)
Theorem probe_fails_closed path_exists connects version schema e :
  pb_status (probe path_exists connects version schema e) = "ready" ↔
  is_Some (match version with inl v => Some v | inr _ => None end) ∧ (schema = Drift [] ∨ schema = NoFixture) ∧
  endpoint_unavailable_reason path_exists e = None ∧ connects = true.
Proof.
  destruct version as [v|text]; [|split; [done|]; by intros ([? [=]] & _)].
  unfold probe, probed. cbn [pb_status]. rewrite checks_reason.
  assert (Hn : is_some (endpoint_unavailable_reason path_exists e) = false ↔ endpoint_unavailable_reason path_exists e = None)
    by (by destruct (endpoint_unavailable_reason path_exists e)).
  rewrite <-Hn. clear Hn. set (b := is_some _). clearbody b.
  destruct schema as [[|x l]| |text], b, connects; cbn; split; try done; try (by intros (_ & [?|?] & ? & ?)); try (by intros (_ & _ & ? & ?));
    intros _; split_and!; try done; eauto.
Qed.

(** ** Runs and divergences *)

Module AdapterExamples.
#[local] Existing Instance RedactExamples.engine.
#[local] Existing Instance EvidenceExamples.tiny.
#[local] Instance no_repr : PyRepr := λ _, "".
#[local] Instance no_floats : FloatText := λ _, None.
#[local] Instance digest : Sha256 := λ s, s.

Definition time_of (z : Z) : tick := mkTick (float_of_Z z) (float_of_Z z) 0 0 0 "evd_1".
Definition live_rpc : CodexJsonRpc := (new_rpc 8) <| rpc_transport := true |> <| rpc_connected := true |> <| rpc_initialized := true |>.
Definition host0 : Host :=
  bind_interaction_store (bind_execution_evidence_store (mkHost new_adapter live_rpc (MemoryStore_init 0) [] [])).

Definition request : TurnRequest :=
  mkTurnRequest "inv_1" "s" "turn_1" "app" [PDict [("role", PStr "user"); ("parts", PList [PDict [("text", PStr "hi")]])]] None None
    (float_of_Z 60) (mkTurnSandbox "workspace-write" PNone (Some "/workspace") PNone) [] [] [] "p" "u".

(** A Codex that answers every request. *)
Definition codex (c : rpc_call) : rpc_reply c :=
  match c with
  | CallLock | CallClose => tt
  | CallConnect | CallRespond _ _ => inl tt
  | CallRequest method _ =>
      inl (if bool_decide (method = "turn/start") then [("turn", PDict [("id", PStr "ct_1")])] else [("thread", PDict [("id", PStr "th_1")])])
  end.

Definition started : Host := (play codex (start_turn (float_of_Z 0) request) host0).1.

Example turn_started :
  (play codex (start_turn (float_of_Z 0) request) host0).2 =
  inl (mkTurnHandle "turn_1" "s" "inv_1" [("adapterId", PStr "codex-app-server"); ("threadId", PStr "th_1");
         ("codexTurnId", PStr "ct_1"); ("generation", PInt 0)]) ∧
  context_at 0 started = Some (turn_context request "th_1" "ct_1" (float_of_Z 0) 0 0).
Proof. by vm_compute. Qed.

Definition note (method : string) (params : pydict) : pydict :=
  [("method", PStr method); ("params", PDict ([("threadId", PStr "th_1"); ("turnId", PStr "ct_1")] ++ params))].
Definition delta : pydict := note "item/agentMessage/delta" [("delta", PStr "hello")].
Definition completed : pydict := note "turn/completed" [].

(** Pieces one after the other, with what other tasks do in between. *)
Fixpoint play_stream (l : nat) (pc : stream_pc) (script : list (tick * stream_input * (Host → Host))) (h : Host) :
    list HarnessEvent * Host * stream_pc :=
  match script with
  | [] => ([], h, pc)
  | (t, i, other) :: script' =>
      match stream_step l t pc i with
      | Some m =>
          match m h with
          | (h1, Ok (y, pc1)) =>
              let '(events, h2, pc2) := play_stream l pc1 script' (other h1) in
              (match y with Some e => e :: events | None => events end, h2, pc2)
          | (_, Raise _) => ([], h, pc)
          end
      | None => ([], h, pc)
      end
  end.

Lemma play_stream_sound l script : ∀ pc h, Forall (λ x, ∀ h, context_at l (x.2 h) = context_at l h) script →
  let '(events, h', pc') := play_stream l pc script h in streams l h pc events h' pc'.
Proof.
  induction script as [|[[t i] other] script IH]; intros pc h Hall; cbn [play_stream]; [constructor|].
  inversion Hall as [|? ? Ho Hrest]; subst. cbn [snd] in Ho.
  destruct (stream_step l t pc i) as [m|] eqn:Hst; [|constructor].
  destruct (m h) as [h1 [[y pc1]|e]] eqn:Hm; [|constructor].
  specialize (IH pc1 (other h1) Hrest). destruct (play_stream l pc1 script (other h1)) as [[events h2] pc2].
  eapply streams_step; [exact Hst|exact Hm|apply Ho|exact IH].
Qed.

Definition nothing (h : Host) : Host := h.
Definition one_turn : list (tick * stream_input * (Host → Host)) :=
  [(time_of 1, Resume, nothing); (time_of 1, Waited (NotificationDone (Item delta)), nothing); (time_of 2, Resume, nothing);
   (time_of 3, Waited (NotificationDone (Item completed)), nothing)].

Lemma stream_ends_once_witness :
  let '(events, h', pc) := play_stream 0 SHead one_turn started in
  map he_type events = ["harness.text.delta"; "harness.turn.completed"] ∧ pc = SEnd None ∧
  ∃ terminal, (finalize_turn "turn_1" h').2 = Ok ("completed", Some terminal).
Proof.
  destruct (play_stream 0 SHead one_turn started) as [[events h'] pc] eqn:E.
  assert (streams 0 started SHead events h' pc) as Hs.
  { pose proof (play_stream_sound 0 one_turn SHead started) as Hs. rewrite E in Hs. apply Hs. by repeat constructor. }
  assert (pc = SEnd None ∧ map he_type events = ["harness.text.delta"; "harness.turn.completed"] ∧
          dget "turn_1" (ad_turn_contexts (ho_adapter h')) = Some 0%nat ∧ map Driver.terminal_status events = [None; Some "completed"])
    as (-> & Hty & Hl & Hst) by (revert E; vm_compute; intros [= <- <- <-]; by split_and!).
  split; [done|]. split; [done|].
  destruct (stream_ends_once 0 started events h' (SEnd None) (turn_context request "th_1" "ct_1" (float_of_Z 0) 0 0)) as (_ & pre & terminal & status & He & _ & Ht & Hfin);
    [by vm_compute|done|done|].
  exists terminal. rewrite (Hfin "turn_1" Hl). assert (status = "completed") as ->; [|done].
  rewrite He, map_app in Hst. cbn [map] in Hst. rewrite Ht in Hst. destruct pre as [|? [|? pre]]; cbn in Hst; [done|congruence|]. by destruct pre.
Defined.

Definition context0 : TurnContext := turn_context request "th_1" "ct_1" (float_of_Z 0) 0 0.

Lemma stream_branches_witness :
  ∃ f, stream_step 0 (time_of 61) SHead Resume = Some f ∧ f started = (started, Ok (None, SInterrupt)).
Proof.
  destruct (stream_branches 0 (time_of 61) started context0) as (Hdeadline & _); [by vm_compute|].
  by apply Hdeadline.
Defined.

(** A command that starts, and what it prints. *)
Definition command_started : pydict :=
  note "item/started" [("item", PDict [("id", PStr "c1"); ("type", PStr "commandExecution"); ("command", PStr "make")])].
Definition printed (s : string) : pydict := note "item/commandExecution/outputDelta" [("itemId", PStr "c1"); ("delta", PStr s)].
Definition command_running : Host := (to_harness_event (time_of 1) 0 command_started started).1.

Lemma command_output_accumulates_witness :
  output_state ("turn_1", "c1")
    (ho_adapter (foldl (λ h tn, (to_harness_event tn.1 0 tn.2 h).1) command_running [(time_of 2, printed "ab"); (time_of 3, printed "c")])) =
  ("abc", false).
Proof.
  destruct (context_at 0 command_running) as [c|] eqn:Hc; [|by vm_compute in Hc].
  assert (tc_turn_id c = "turn_1") as Ht by (revert Hc; vm_compute; by intros [= <-]).
  pose proof (command_output_accumulates 0 command_running c "c1" "" ["ab"; "c"] [(time_of 2, printed "ab"); (time_of 3, printed "c")] Hc) as Hacc.
  rewrite Ht in Hacc. destruct Hacc as (_ & Hfit & _); [by vm_compute|by vm_compute|by vm_compute|by vm_compute|by repeat constructor|].
  apply Hfit. by vm_compute.
Defined.

(** A prompt Codex asks, and the store that keeps it. *)
Definition prompt : pydict :=
  [("id", PInt 7)] ++ note "item/commandExecution/requestApproval" [].
Definition prompted : Host := (persist_server_request (time_of 1) 0 prompt started).1.
Definition asked : interaction :=
  match dvalues (st_approvals (ho_store prompted)) with r :: _ => Approval r | [] => Approval (mkApproval "" "" "" "" "" [] None None None None 0 0 None) end.

Definition approve : pydict := [("decision", PStr "approved")].
Definition deny : pydict := [("decision", PStr "denied")].

Example prompt_waits : answerable asked prompted = true ∧ native_result asked approve = inl [("decision", PStr "accept")].
Proof. by vm_compute. Qed.

(** A prompt stays pending while its answer is being sent: a second, contradicting answer is sent as well. *)
Theorem prompt_answered_twice :
  ∃ k1 k2 : rpc_reply (CallRespond (PInt 7) []) → Host → Host * async Host adapter_exn rpc_call rpc_reply unit,
    respond_interaction asked approve prompted = (prompted, Await (CallRespond (PInt 7) [("decision", PStr "accept")]) k1) ∧
    respond_interaction asked deny prompted = (prompted, Await (CallRespond (PInt 7) [("decision", PStr "decline")]) k2) ∧
    (k2 (inl tt) (k1 (inl tt) prompted).1).2 = Done (inl tt).
Proof.
  destruct (respond_sends asked approve prompted [("decision", PStr "accept")]) as (k1 & E1 & _ & Hk1); [by vm_compute..|].
  destruct (respond_sends asked deny prompted [("decision", PStr "decline")]) as (k2 & E2 & _ & Hk2); [by vm_compute..|].
  change (interaction_native_id asked) with (PInt 7) in k1, k2, E1, E2.
  exists k1, k2. split_and!; [done|done|]. by rewrite Hk2.
Qed.

(** The connection is lost while the terminal notification is in the subscription's queue. *)
Definition lose_connection (h : Host) : Host :=
  h <| ho_rpc := (ho_rpc h) <| rpc_connected := false |> <| rpc_queues := [[completed]; []] |> |>.

(** The loop looks at the connection before it takes what has arrived: the turn that Codex has
    reported completed ends as incomplete. *)
Theorem queued_terminal_lost :
  let '(events, h', pc) := play_stream 0 SHead
    [(time_of 1, Resume, nothing); (time_of 1, Waited (NotificationDone (Item delta)), lose_connection);
     (time_of 2, Resume, nothing); (time_of 2, Left, nothing)] started in
  map he_type events = ["harness.text.delta"; "harness.turn.incomplete"] ∧ pc = SEnd None ∧
  rpc_queues (ho_rpc h') = [[completed]; []] ∧ native_terminal_status completed = Some "completed".
Proof. by vm_compute. Qed.

(** A Codex that does not answer in time. *)
Definition slow (c : rpc_call) : rpc_reply c :=
  match c with
  | CallLock | CallClose => tt
  | CallConnect | CallRespond _ _ => inl tt
  | CallRequest method _ => inr (Rpc (CodexRequestTimeout method))
  end.

(** One timeout while a session is inspected marks it as not resumable for good: turns that start
    on its thread afterwards do not clear the mark. *)
Theorem timeout_marks_non_resumable :
  let inspect o := play o (inspect_session "s" "app" "u") in
  let h1 := (inspect slow started).1 in
  let h2 := (play codex (start_turn (float_of_Z 5) request) h1).1 in
  (inspect codex started).2 = inl (mkInspection "active" [("threadId", PStr "th_1"); ("generation", PInt 0)]) ∧
  (inspect slow started).2 = inl (mkInspection "non_resumable" []) ∧
  is_some (dget "turn_1" (ad_turn_contexts (ho_adapter h2))) = true ∧ length (ad_contexts (ho_adapter h2)) = 2%nat ∧
  (inspect codex h2).2 = inl (mkInspection "non_resumable" []).
Proof. by vm_compute. Qed.

(** The code of a native error is passed on as it is, a text included. *)
Theorem native_code_text_passed_on method secret :
  start_error "" "" (Rpc (CodexRPCError method (PStr secret) "")) =
  Py (AdapterTurnStartError "haas_codex_rpc_error" true (Some ("codex_rpc:" +:+ method +:+ ":" +:+ secret))).
Proof. done. Qed.

(** An answer given as a secret reference, which the API accepts, reaches Codex as no answer. *)
Theorem secret_reference_answers_nothing r question ref :
  native_result (Input r) [("answers", PDict [(question, PDict [("secretRef", PStr ref)])])] =
  inl [("answers", PDict [(question, PDict [("answers", PList [])])])].
Proof. done. Qed.

(** A thread without an id counts as the thread [None]. *)
Theorem null_thread_id_is_text : answered_thread [("thread", PDict [("id", PNone)])] = "None".
Proof. done. Qed.

End AdapterExamples.
