(* ===== verification/Api.v ===== *)
(** * The HTTP layer: services, errors and idempotency keys (haas/api.py)

    A request handler is a coroutine ([Async]) whose calls are the services it uses.  Every use of a
    shared component is a call, also where the code does not await: the replies are arbitrary, so
    what is proved holds for any behaviour of the store, the runtime and the harness and under every
    interleaving with other requests.  [serve] answers the calls of the store by the modelled store,
    and a protocol ([follows]) says in which order a handler may make its calls. *)

From S2P Require Import Prelude Errors Dict PyVal Records Store Leases Idempotency Interactions SessionStore EventStore Identity Redact Events Registry Policy SessionPolicy Sessions Admission.
From S2P Require Import PyInt Encoding DelegatedApi Evidence CodexRpc Async Adapter.

#[local] Open Scope string_scope.
#[local] Open Scope list_scope.
#[local] Open Scope Z_scope.

(** ** Errors *)

(** [HaasError] *)
Record HaasError := mkHaasError { x_status_code : Z; x_type : string; x_code : string; x_safe_reason : string; x_retryable : bool }.

(** [HaasError.__init__]; the type of almost every error is [invalid_request_error]. *)
Definition new_haas_error (status : Z) (type_ code : string) (safe_reason : option string) (retryable : bool) : HaasError :=
  mkHaasError status type_ code (match safe_reason with Some (String a s) => String a s | _ => code end) retryable.
Definition invalid_request (status : Z) (code : string) : HaasError := new_haas_error status "invalid_request_error" code None false.

(** What a handler raises: an answer to the caller, or any other exception. *)
Inductive api_exn := Http (e : HaasError) | Other (e : adapter_exn).

(** [_haas_error_content]; [trace] is the fresh trace id. *)
Definition haas_error_content (trace : string) (e : HaasError) : pydict :=
  [("detail", PStr (x_safe_reason e));
   ("haasError", PDict [("type", PStr (x_type e)); ("code", PStr (x_code e)); ("param", PNone);
                        ("safeReason", PStr (x_safe_reason e)); ("retryable", PBool (x_retryable e)); ("traceId", PStr trace)])].

(** The helpers modelled elsewhere raise their not-found errors as [haas_error]. *)
Definition not_found_http (e : exn) : api_exn :=
  match e with
  | OtherError "HaasError" (Some code) => Http (invalid_request 404 code)
  | _ => Other (Py e)
  end.

(** ** Services *)

(** The generator a handler drives: a new run, or the continuation of a paused one. *)
Inductive generator := RunStream (r : RunRequest) | ContinueStream (session_id invocation_id : string) (instruction : option string).

(** A frame of an event stream: an event's projection, the keep-alive comment, or the error that the
    subscriber fell behind, with the last event's id.  Their texts (JSON) are left out. *)
Inductive sse_frame := EventFrame (adk : pydict) | Heartbeat | BackpressureFrame (last_id : pyval).

(** The variables the producer of a run's stream shares with its frames: a bounded queue ([None] is
    the stop mark) and two flags; a run that does not stream has none of this. *)
Record SseState := mkSse {
  ss_queue : list (option sse_frame);
  ss_maxsize : nat;              (* 0: unbounded *)
  ss_disconnected : bool;
  ss_backpressure : bool;
  ss_last_id : pyval;
  ss_done : option (unit + adapter_exn);   (* the producer's result *)
}.
#[export] Instance eta_SseState : Eta SseState := λ s, mkSse (ss_queue s) (ss_maxsize s) (ss_disconnected s) (ss_backpressure s) (ss_last_id s) (ss_done s).
Definition no_stream : SseState := mkSse [] 0 false false PNone None.

(** What a handler waits for or uses.  Sessions and invocations are objects, named by their location;
    they are read when the code reads them. *)
Inductive service :=
  | ReadBody                                                    (* await request.json() *)
  | ResolveSession (p : Principal) (session_id : string)
  | ResolveInvocation (p : Principal) (session_id invocation_id : string)
  | HasSessionAccess (p : Principal) (session_id : string)
  | LoadSession (l : loc)
  | LoadInvocation (l : loc)
  | GetSession (key : SessionKey)
  | GetInvocation (invocation_id : string)
  | GetDelegated (session_id : string)
  | EnsureDelegated (p : Principal) (r : DelegatedSessionRecord)
  | Reserve (key_hash request_hash : string)
  | IsPending (key_hash : string)
  | Replay (key_hash : string)
  | Release (key_hash : string)
  | Complete (key_hash : string) (res : pydict)                 (* true: the database refuses the write *)
  | Accept (key_hash invocation_id : string)
  | StampInvocation (l : loc) (key_hash : string) (accepted expires : option Z)
  | Monotonic                                                   (* time.monotonic(), in nanoseconds *)
  | Sleep                                                       (* await asyncio.sleep(0.01) *)
  | ReconcilePrompts (session_id : string)
  | GetApproval (id : string)
  | GetInputRequest (id : string)
  | ResolveApproval (id : string) (decision : pydict)
  | ResolveInput (id : string) (answers : pydict)
  | Respond (i : interaction) (payload : pydict)                (* await adapter.respond_interaction *)
  | AppendResolved (type_ : string) (s : SessionRecord) (invocation_id turn_id : string) (haas : pydict)
  | UpdatePolicy (l : loc) (expected_revision : Z) (delta : pydict)
  | CancelDelegated (r : DelegatedSessionRecord) (invocation_id : string)
  | CancelInvocation (session_id invocation_id : string)        (* await sessions.cancel_invocation *)
  | PauseInvocation (session_id invocation_id : string)         (* await sessions.pause_invocation *)
  | ReconcileInvocation (session_id invocation_id : string)
  | FindSession (app_name user_id session_id : string)
  | ApplyStateDelta (app_name user_id session_id : string) (delta : pydict)
  | DestroyDelegated (r : DelegatedSessionRecord) (reason : string)   (* await delegated_containers.destroy *)
  | UpdateDelegatedRuntime (id : string) (runtime : DelegatedRuntimeRecord)
  | ReleaseWorkspace (path delegated_id : string)
  | DeleteSession (app_name user_id session_id : string)
  | DeleteEvidence (session_id : string)
  | NextEvent (g : generator)                                   (* await anext *)
  | Yield (f : sse_frame)                                       (* yield; true: the subscriber is gone *)
  | ResolveApp (p : Principal) (app_name : string)
  | ReadSession (key : SessionKey) (after : option string)
  | ReadInvocation (key : SessionKey) (invocation_id : string)
  | AdmitRun (i : AdmissionInput)
  | ReleaseRun (lease_id : string)
  | EffectiveProfile (p : Principal) (app : HarnessRecord) (user_id : string) (session_id : option string) (body : pydict)
  | RunToEnd (r : RunRequest)                                   (* await sessions.run *)
  | QueueSlot                                                   (* await of a free slot, half a second at most *)
  | QueueGet                                                    (* await queue.get(), a heartbeat at most *)
  | Now                                                         (* int(time.time() * 1000) *)
  | AcquireLease (key : SessionKey) (holder : string)
  | ReleaseLease (key : SessionKey) (holder : string) (token : Z)
  | StoreSession (r : SessionRecord)                            (* put_session; None: the database refuses the write *)
  | MergeState (l : loc) (delta : pydict)                       (* session.state = _deep_merge(session.state, delta) *)
  | StoreInvocation (r : InvocationRecord)                      (* put_invocation of a new object *)
  | StoreTurn (r : TurnRecord)
  | EndTurn (invocation turn : loc) (status : string)           (* both objects' status *)
  | CompleteTurn (invocation turn : loc) (now : Z)              (* both objects' completedAtMs *)
  | PutInvocation (l : loc)                                     (* true: the database refuses the write *)
  | PutTurn (l : loc)
  | AcquireWorkspace (path delegated_id access : string) (ttl_ms : Z)
  | RestoreDelegated (r : DelegatedSessionRecord)               (* await delegated_containers.restore *)
  | NextWorkerEvent (r : DelegatedSessionRecord) (body : pydict)   (* await anext of delegated_containers.run_stream *)
  | AppendEvent (author : string) (content actions : pydict)    (* event_log.append, with the turn's ids *)
  | GetDelegatedById (id : string)
  | ReconcilePolicy (id : string)
  | AppendPolicyEvent (type_ : string) (metadata : pydict).

(** [RunResult], as far as the API reads it: the events and the invocation. *)
Record RunResult := mkRunResult { rr_events : list CanonicalEventRecord; rr_invocation : loc }.

(** The outcome of [anext] on a worker's stream. *)
Inductive worker_event := WorkerEvent (v : pyval) | WorkerEnd | WorkerFails (e : exn).

(** The outcome of [anext]: an event, the end, or an exception. *)
Inductive next_event := Event (e : CanonicalEventRecord) | StopIteration | Fails (e : exn).

Definition reply (c : service) : Type :=
  match c with
  | ReadBody => result pyval
  | ResolveSession _ _ | ResolveInvocation _ _ _ => result loc
  | HasSessionAccess _ _ | IsPending _ | Complete _ _ => bool
  | LoadSession _ => SessionRecord
  | LoadInvocation _ => InvocationRecord
  | GetSession _ => option SessionRecord
  | GetInvocation _ => option loc
  | GetDelegated _ => option DelegatedSessionRecord
  | EnsureDelegated _ _ => result unit
  | Reserve _ _ => result IdempotencyReservation
  | Replay _ => option pyval
  | Release _ | Sleep => unit
  | StampInvocation _ _ _ _ | ReconcilePrompts _ => result unit
  | Accept _ _ => result IdempotencyRecord
  | Monotonic => Z
  | GetApproval _ => option ApprovalRecord
  | GetInputRequest _ => option InputRequestRecord
  | ResolveApproval _ _ => result ApprovalRecord
  | ResolveInput _ _ => result InputRequestRecord
  | Respond _ _ => unit + adapter_exn
  | AppendResolved _ _ _ _ _ => result unit
  | UpdatePolicy _ _ _ => result loc
  | CancelDelegated _ _ => result unit
  | CancelInvocation _ _ | PauseInvocation _ _ => result loc
  | ReconcileInvocation _ _ | FindSession _ _ _ | ApplyStateDelta _ _ _ _ => result loc
  | DestroyDelegated _ _ => result DelegatedRuntimeRecord
  | UpdateDelegatedRuntime _ _ => result DelegatedSessionRecord
  | DeleteSession _ _ _ => result unit
  | ReleaseWorkspace _ _ | DeleteEvidence _ => unit
  | NextEvent _ => next_event
  | Yield _ | QueueSlot | QueueGet => bool
  | ResolveApp _ _ => result HarnessRecord
  | ReadSession _ _ => result (list CanonicalEventRecord)
  | ReadInvocation _ _ => list CanonicalEventRecord
  | AdmitRun _ => AdmissionDecision
  | ReleaseRun _ => unit
  | EffectiveProfile _ _ _ _ _ => option pydict + api_exn
  | RunToEnd _ => result RunResult
  | Now => Z
  | AcquireLease _ _ => result Lease
  | ReleaseLease _ _ _ | MergeState _ _ | EndTurn _ _ _ | CompleteTurn _ _ _ => unit
  | StoreSession _ | StoreInvocation _ | StoreTurn _ => option loc
  | PutInvocation _ | PutTurn _ => bool
  | AcquireWorkspace _ _ _ _ => result WorkspaceLockResult
  | RestoreDelegated _ => result DelegatedRuntimeRecord
  | NextWorkerEvent _ _ => worker_event
  | AppendEvent _ _ _ => result CanonicalEventRecord
  | GetDelegatedById _ => option DelegatedSessionRecord
  | ReconcilePolicy _ => result (option DelegatedSessionRecord)
  | AppendPolicyEvent _ _ => result unit
  end.

Notation api_task A := (task SseState api_exn service reply A).

Definition ask (c : service) : api_task (reply c) := await c.
Definition refuse {A} (e : HaasError) : api_task A := throw (Http e).
(** A reply that may be an exception. *)
Definition unless_raised {A} (r : result A) : api_task A := match r with Ok a => mret a | Raise e => throw (Other (Py e)) end.
(** The same, of a helper that raises [HaasError]. *)
Definition unless_refused {A} (r : result A) : api_task A := match r with Ok a => mret a | Raise e => throw (not_found_http e) end.

Definition invalid_input : HaasError := invalid_request 400 "invalid_input".
Definition session_busy : HaasError := new_haas_error 409 "invalid_request_error" "session_busy" None true.

(** ** Idempotency keys *)

(** [json.dumps(body, sort_keys=True, default=str)] *)
Class SortedJson := json_sorted : pydict → string.

(** The request as the key handling reads it: method, path and the [Idempotency-Key] header. *)
Record ApiRequest := mkApiRequest { ar_method : string; ar_path : string; ar_idempotency_key : option string }.

Definition idempotency_key (r : ApiRequest) : option string :=
  match ar_idempotency_key r with Some EmptyString => None | k => k end.

Definition keyed_by (r : ApiRequest) : bool := is_some (idempotency_key r).

(** The bound on the events a model of a stream goes through. *)
Definition events_exhausted : api_exn := Other (Py (OtherError "events exhausted" None)).

(** The bound of the polling loop: a poll sleeps ten milliseconds and the wait ends after thirty seconds. *)
Definition WAIT_NS : Z := 30 * 10 ^ 9.
Definition POLL_NS : Z := 10 ^ 7.
Definition WAIT_POLLS : nat := 3002.
Definition polls_exhausted : api_exn := Other (Py (OtherError "polls exhausted" None)).

Fixpoint wait_poll (n : nat) (key_hash : string) (deadline : Z) : api_task unit :=
  match n with
  | O => throw polls_exhausted
  | S n =>
      pending ← (ask (IsPending key_hash) : api_task bool);
      if negb pending then mret tt
      else
        now ← (ask Monotonic : api_task Z);
        if deadline <? now then refuse session_busy
        else
          _ ← (ask Sleep : api_task unit);
          wait_poll n key_hash deadline
  end.

(** [_wait_for_idempotency] *)
Definition wait_for_idempotency (key_hash : string) : api_task (option pyval) :=
  start ← (ask Monotonic : api_task Z);
  _ ← wait_poll WAIT_POLLS key_hash (start + WAIT_NS);
  (ask (Replay key_hash) : api_task (option pyval)).

(** A call whose reply may be an exception. *)
Definition attempt {A} (c : service) (as_result : reply c → result A) : api_task A :=
  r ← (ask c : api_task (reply c)); unless_raised (as_result r).

Section keys.
Context `{Sha256} `{SortedJson}.

(** The hashes a request is reserved under. *)
Definition key_hash_of (p : Principal) (key : string) : string := sha256_hex (pr_principalId p +:+ ":" +:+ key).
Definition request_hash_of (r : ApiRequest) (body : pydict) : string :=
  sha256_hex (ar_method r +:+ ":" +:+ ar_path r +:+ ":" +:+ json_sorted body).

(** The errors of a reservation. *)
Definition reservation_error (e : exn) : api_exn :=
  match e with
  | IdempotencyExpiredError _ _ _ => Http (invalid_request 410 "haas_idempotency_expired")
  | IdempotencyConflictError _ => Http (invalid_request 409 "haas_idempotency_conflict")
  | e => Other (Py e)
  end.
Definition reserve_key (key_hash request_hash : string) : api_task IdempotencyReservation :=
  r ← (ask (Reserve key_hash request_hash) : api_task (result IdempotencyReservation));
  match r with Ok r => mret r | Raise e => throw (reservation_error e) end.

(** [_reserve_mutation] *)
Definition reserve_mutation (r : ApiRequest) (body : pydict) (p : Principal) : api_task (option string * option pydict) :=
  match idempotency_key r with
  | None => mret (None, None)
  | Some key =>
      let key_hash := key_hash_of p key in
      reservation ← reserve_key key_hash (request_hash_of r body);
      if negb (kr_replay reservation) then mret (Some key_hash, None)
      else
        res ← (match kr_result reservation with
               | Some v => mret (Some v)
               | None => wait_for_idempotency key_hash
               end : api_task (option pyval));
        mret (Some key_hash, match res with Some (PDict d) => Some d | _ => None end)
  end.

End keys.

(** [if key_hash: runtime.store.release(key_hash)] and the like. *)
Definition release_key (key : option string) : api_task unit :=
  match key with Some k => (ask (Release k) : api_task unit) | None => mret tt end.
Definition write_failed : api_exn := Other (Py (OtherError "OperationalError" None)).
Definition complete_key (key : option string) (res : pydict) : api_task unit :=
  match key with
  | Some k => failed ← (ask (Complete k res) : api_task bool); if failed : bool then throw write_failed else mret tt
  | None => mret tt
  end.

(** The [except] clauses of a mutation: the errors it answers release the key first. *)
Definition releasing {A} (key : option string) (answer : api_exn → option HaasError) (m : api_task A) : api_task A :=
  task_try m (λ e, match answer e with
                   | Some x => _ ← release_key key; refuse x
                   | None => throw e
                   end).

(** [_accept_idempotency] *)
Definition accept_idempotency (key : option string) (invocation_id : string) : api_task (option Z) :=
  match key with
  | None => mret None
  | Some k =>
      r ← (ask (Accept k invocation_id) : api_task (result IdempotencyRecord));
      record ← unless_raised r;
      found ← (ask (GetInvocation invocation_id) : api_task (option loc));
      _ ← (match found with
           | Some l => r ← (ask (StampInvocation l k (k_acceptedAtMs record) (k_expiresAtMs record)) : api_task (result unit));
                       unless_raised r
           | None => mret tt
           end);
      mret (k_expiresAtMs record)
  end.

Section answers.
Context `{PyRepr}.

(** [_idempotency_headers], [_accepted_headers] *)
Definition idempotency_headers (expires_at_ms : pyval) : dict string string :=
  match expires_at_ms with PNone => [] | v => [("Idempotency-Expires-At", py_str v)] end.
Definition accepted_headers (invocation_id session_id : option string) (expires_at_ms : pyval) : dict string string :=
  idempotency_headers expires_at_ms ++
  match invocation_id with Some (String a s) => [("X-HaaS-Invocation-ID", String a s)] | _ => [] end ++
  match session_id with Some (String a s) => [("X-HaaS-Session-ID", String a s)] | _ => [] end.

(** An answer: a JSON document, a stream with the coroutine of its frames, or a stream whose events
    a task of its own produces. *)
Inductive response :=
  | JsonResponse (status : Z) (content : pyval) (headers : dict string string)
  | StreamResponse (headers : dict string string) (frames : api_task unit)
  | ProducedResponse (headers : dict string string) (producer frames : api_task unit).

(** An exception at a [yield] whose subscriber is gone. *)
Definition generator_exit : api_exn := Other (Py (OtherError "GeneratorExit" None)).
Definition yield (f : sse_frame) : api_task unit :=
  gone ← (ask (Yield f) : api_task bool); if gone : bool then throw generator_exit else mret tt.
Fixpoint yield_all (fs : list sse_frame) : api_task unit :=
  match fs with [] => mret tt | f :: fs => _ ← yield f; yield_all fs end.

(** The events of a stored result; what is no list has no events to iterate over, or raises. *)
Definition cached_frame (v : pyval) : sse_frame := EventFrame (as_dict v).

Definition text_of (v : pyval) : option string := match v with PStr s => Some s | _ => None end.

(** [_render_cached], of a stored result that is a dictionary. *)
Definition render_cached (cached : pydict) (streaming : bool) : result response :=
  status_code ← py_int (pget_or "status_code" (PInt 200) cached);
  let events := pget_or "events" (PList []) cached in
  let body := pget "body" cached in
  let headers := accepted_headers (text_of (pget "invocation_id" cached)) (text_of (pget "session_id" cached))
                   (pget "idempotency_expires_at_ms" cached) in
  if 400 <=? status_code then
    Ok (JsonResponse status_code (match body with PDict _ => body | _ => PDict [("detail", PStr "request_failed")] end) headers)
  else if negb streaming then Ok (JsonResponse 200 events headers)
  else Ok (StreamResponse headers
             (items ← unless_raised (iter_items events); yield_all ((cached_frame <$> items) ++ [Heartbeat]))).

End answers.

(** [try: m  finally: f] *)
Definition finally_do {A} (m : api_task A) (f : api_task unit) : api_task A :=
  res ← task_try (a ← m; mret (inl a)) (λ e, mret (inr e));
  _ ← f;
  match res with inl a => mret a | inr e => throw e end.

(** [_json_object] *)
Definition json_object : api_task pydict :=
  body ← (ask ReadBody : api_task (result pyval));
  match body with
  | Ok (PDict d) => mret d
  | Ok _ | Raise (ValueError _) | Raise TypeError => refuse invalid_input
  | Raise e => throw (Other (Py e))
  end.

(** ** Resources *)

(** [_resolve_visible_session] over the store: exactly one visible session has the id. *)
Definition resolve_visible_session (p : Principal) (session_id : string) (s : MemoryStore) : result SessionRecord :=
  let visible_apps := h_id <$> list_harnesses (Some (account_of p)) s in
  match keep (λ r, bool_decide (s_id r = session_id) && bool_decide (s_appName r ∈ visible_apps)) (list_sessions None (pr_userIds p) s) with
  | [r] => Ok r
  | _ => Raise (haas_error "session_not_found")
  end.

(** [_has_session_access] *)
Definition has_session_access (p : Principal) (session_id : string) (s : MemoryStore) : bool :=
  let visible_apps := h_id <$> list_active p s in
  existsb (λ r, bool_decide (s_id r = session_id) && bool_decide (s_appName r ∈ visible_apps)) (list_sessions None (pr_userIds p) s).

Definition visible_session (p : Principal) (session_id : string) : api_task loc :=
  r ← (ask (ResolveSession p session_id) : api_task (result loc)); unless_refused r.
Definition visible_invocation (p : Principal) (session_id invocation_id : string) : api_task loc :=
  r ← (ask (ResolveInvocation p session_id invocation_id) : api_task (result loc)); unless_refused r.
Definition delegated_access (p : Principal) (r : DelegatedSessionRecord) : api_task unit :=
  r ← (ask (EnsureDelegated p r) : api_task (result unit)); unless_refused r.

(** [_session_control] *)
Definition session_control (r : SessionRecord) : pydict :=
  [("controlState", PStr (s_controlState r)); ("supportsResume", PBool (s_supportsResume r));
   ("resumableInvocationId", opt_str_val (s_resumableInvocationId r))].

(** [_session_policy_revision] *)
Definition session_policy_revision (r : SessionRecord) : pydict :=
  let res := default [] (s_lastPolicyUpdateResult r) in
  [("sessionId", PStr (s_id r)); ("desiredRevision", PInt (s_desiredRevision r)); ("appliedRevision", PInt (s_appliedRevision r));
   ("status", PStr (s_policyStatus r)); ("desiredPolicy", PDict (s_desiredPolicy r)); ("appliedPolicy", PDict (s_appliedPolicy r))] ++
  (if bool_decide (s_policyStatus r = "failed")
   then [("code", pget_or "code" (PStr "haas_internal_error") res); ("safeReason", pget_or "safeReason" (PStr "policy_apply_failed") res)]
   else []).

Definition opt_float_val (o : option spec_float) : pyval := match o with Some f => PFloat f | None => PNone end.

(** [_invocation_envelope] *)
Definition invocation_envelope (trace : string) (l : loc) : api_task pydict :=
  i ← (ask (LoadInvocation l) : api_task InvocationRecord);
  session ← (ask (GetSession (i_appName i, i_userId i, i_sessionId i)) : api_task (option SessionRecord));
  match session with
  | None => refuse (invalid_request 404 "haas_invocation_not_found")
  | Some session =>
      mret [("data", PDict
        [("id", PStr (i_id i)); ("sessionId", PStr (i_sessionId i)); ("turnId", PStr (i_turnId i)); ("appName", PStr (i_appName i));
         ("status", PStr (i_status i)); ("continuedFromInvocationId", opt_str_val (i_continuedFromInvocationId i));
         ("continuedFromTurnId", opt_str_val (i_continuedFromTurnId i)); ("sessionControl", PDict (session_control session));
         ("acceptedAtMs", opt_int_val (i_acceptedAtMs i)); ("startedAtMs", PInt (i_startedAtMs i));
         ("completedAtMs", opt_int_val (i_completedAtMs i)); ("timeoutSeconds", opt_float_val (i_timeoutSeconds i));
         ("deadlineAtMs", opt_int_val (i_deadlineAtMs i)); ("idempotencyExpiresAtMs", opt_int_val (i_idempotencyExpiresAtMs i))]);
        ("traceId", PStr trace)]
  end.

(** ** The protocol of an idempotency key *)

(** What a handler knows of its key: not asked for, held by another request, granted to it, given
    back by its holder without a result, answered by an earlier result; and, once granted, given back
    or completed. *)
Inductive key_state :=
  | Unkeyed
  | Awaited (k : string)
  | Granted (k : string)
  | Abandoned (k : string)
  | Stored (d : pydict)
  | Released
  | Completed (v : pydict).

(** The calls that change something for the caller. *)
Definition effect (c : service) : bool :=
  match c with
  | Respond _ _ | ResolveApproval _ _ | ResolveInput _ _ | UpdatePolicy _ _ _ | CancelDelegated _ _ | CancelInvocation _ _
  | PauseInvocation _ _ | NextEvent _ | RunToEnd _ | AcquireLease _ _ | NextWorkerEvent _ _ => true
  | _ => false
  end.

Definition stored_or_abandoned (k : string) (v : option pyval) : key_state :=
  match v with Some (PDict d) => Stored d | _ => Abandoned k end.

(** [keyed]: the request names a key.  [adopts]: an abandoned key may be used as if it were granted. *)
Definition may_act (keyed adopts : bool) (p : key_state) : bool :=
  match p with Unkeyed => negb keyed | Granted _ => true | Abandoned _ => adopts | _ => false end.

(** Closing the key: only its owner does, once. *)
Definition close_key (adopts : bool) (k : string) (closed p : key_state) : option key_state :=
  match p with
  | Granted k' => if bool_decide (k = k') then Some closed else None
  | Abandoned k' => if adopts && bool_decide (k = k') then Some closed else None
  | _ => None
  end.

Definition key_step (keyed adopts : bool) (p : key_state) (c : service) : reply c → option key_state :=
  match c return reply c → option key_state with
  | Reserve k _ => λ r,
      match p with
      | Unkeyed | Awaited _ | Abandoned _ =>
          match r with
          | Ok res => Some (if kr_replay res then match kr_result res with None => Awaited k | v => stored_or_abandoned k v end else Granted k)
          | Raise _ => Some p
          end
      | _ => None
      end
  | Replay k => λ r, match p with Awaited _ => Some (stored_or_abandoned k r) | _ => None end
  | Release k => λ _, close_key adopts k Released p
  | Complete k v => λ _, close_key adopts k (Completed v) p
  | Accept k _ => λ _, match close_key adopts k Released p with Some _ => Some p | None => None end
  | c => λ _, if effect c && negb (may_act keyed adopts p) then None else Some p
  end.

(** What may be left of a key at the end: nothing reserved for this request, or reserved and closed. *)
Definition key_closed (p : key_state) : bool := match p with Granted _ => false | _ => true end.

Section rules.
Context {P : Type} (step : P → ∀ c : service, reply c → option P).

Lemma follows_mbind {A B} (Q : P → B + api_exn → Prop) p (m : api_task A) (f : A → api_task B) :
  task_follows step (λ p' r, match r with inl a => task_follows step Q p' (f a) | inr e => Q p' (inr e) end) p m →
  task_follows step Q p (m ≫= f).
Proof. apply task_follows_bind. Qed.

Lemma follows_mret {A} (Q : P → A + api_exn → Prop) p a : Q p (inl a) → task_follows step Q p (mret a : api_task A).
Proof. apply task_follows_ret. Qed.

Lemma follows_ask (c : service) (Q : P → reply c + api_exn → Prop) p :
  (∀ r, match step p c r with Some p' => Q p' (inl r) | None => False end) → task_follows step Q p (ask c).
Proof. intros HQ s r s1. specialize (HQ r). by destruct (step p c r). Qed.

Lemma follows_refuse {A} (Q : P → A + api_exn → Prop) p e : Q p (inr (Http e)) → task_follows step Q p (refuse e : api_task A).
Proof. apply task_follows_throw. Qed.

(** A [try] whose [except] clauses release the key. *)
Lemma follows_releasing {A} (Q : P → A + api_exn → Prop) p key answer (m : api_task A) :
  task_follows step (λ p' r, match r with
                             | inl a => Q p' (inl a)
                             | inr e => match answer e with
                                        | Some x => task_follows step (λ p'' r, match r with inl _ => Q p'' (inr (Http x)) | inr e => Q p'' (inr e) end) p' (release_key key)
                                        | None => Q p' (inr e)
                                        end
                             end) p m →
  task_follows step Q p (releasing key answer m).
Proof.
  intros Hm. apply task_follows_try. eapply task_follows_weaken; [|exact Hm]. intros p' [a|e]; [done|].
  cbn beta iota. destruct (answer e) as [x|]; [|apply task_follows_throw]. intros Hr. apply follows_mbind.
  eapply task_follows_weaken; [|exact Hr]. intros p'' [u|e']; [apply follows_refuse|done].
Qed.

Lemma follows_finally {A} (Q : P → A + api_exn → Prop) p (m : api_task A) (f : api_task unit) :
  task_follows step (λ p' r, task_follows step (λ p'' u, match u with inl _ => Q p'' r | inr e => Q p'' (inr e) end) p' f) p m →
  task_follows step Q p (finally_do m f).
Proof.
  intros Hm. unfold finally_do. apply follows_mbind. apply task_follows_try. apply follows_mbind.
  eapply task_follows_weaken; [|exact Hm]. intros p' [a|e] Hf.
  - apply follows_mret. apply follows_mbind. eapply task_follows_weaken; [|exact Hf]. intros p'' [u|e]; [apply follows_mret|done].
  - apply follows_mret. apply follows_mbind. eapply task_follows_weaken; [|exact Hf]. intros p'' [u|e']; [apply task_follows_throw|done].
Qed.

End rules.

(** Walk through a handler: one rule per construct, a case per answer. *)
Ltac follow_step :=
  match goal with
  | |- task_follows _ _ _ (mbind _ _) => apply follows_mbind
  | |- task_follows _ _ _ (mret _) => apply follows_mret
  | |- task_follows _ _ _ (ask _) => apply follows_ask; intros ?; cbn
  | |- task_follows _ _ _ (refuse _) => apply follows_refuse
  | |- task_follows _ _ _ (throw _) => apply task_follows_throw
  | |- task_follows _ _ _ (look _) => apply task_follows_look; intros ?
  | |- task_follows _ _ _ (alter _) => apply task_follows_alter
  | |- task_follows _ _ _ (releasing _ _ _) => apply follows_releasing
  | |- task_follows _ _ _ (finally_do _ _) => apply follows_finally
  | |- task_follows _ _ _ (task_try _ _) => apply task_follows_try
  | |- task_follows _ _ _ (attempt _ _) => unfold attempt
  | |- task_follows _ _ _ (unless_raised ?r) => destruct r eqn:?; cbn [unless_raised]
  | |- task_follows _ _ _ (unless_refused ?r) => destruct r eqn:?; cbn [unless_refused]
  | |- task_follows _ _ _ (match ?x with _ => _ end) => destruct x eqn:?
  end.

Section shared.
Context {P : Type} (step : P → ∀ c : service, reply c → option P).

(** A call the protocol takes no notice of. *)
Definition inert (c : service) : Prop := ∀ p r, step p c r = Some p.

Lemma follows_inert (c : service) (Q : P → reply c + api_exn → Prop) p : inert c → (∀ r, Q p (inl r)) → task_follows step Q p (ask c).
Proof. intros Hc HQ. apply follows_ask. intros r. by rewrite Hc. Qed.

Lemma follows_wait_poll (Q : P → unit + api_exn → Prop) p n k deadline :
  inert (IsPending k) → inert Monotonic → inert Sleep →
  Q p (inl tt) → Q p (inr (Http session_busy)) → Q p (inr polls_exhausted) →
  task_follows step Q p (wait_poll n k deadline).
Proof.
  intros Hp Hm Hs Hok Hbusy Hout. induction n as [|n IH]; cbn [wait_poll]; [by apply task_follows_throw|].
  apply follows_mbind, follows_inert; [done|]. intros [|]; cbn [negb]; [|by apply follows_mret].
  apply follows_mbind, follows_inert; [done|]. intros now. case_match; [by apply follows_refuse|].
  apply follows_mbind, follows_inert; [done|]. intros _. apply IH.
Qed.

Lemma follows_wait (Q : P → option pyval + api_exn → Prop) p k :
  inert (IsPending k) → inert Monotonic → inert Sleep →
  task_follows step Q p (ask (Replay k)) → Q p (inr (Http session_busy)) → Q p (inr polls_exhausted) →
  task_follows step Q p (wait_for_idempotency k).
Proof.
  intros Hp Hm Hs Hr Hbusy Hout. unfold wait_for_idempotency. apply follows_mbind, follows_inert; [done|]. intros start.
  apply follows_mbind. apply follows_wait_poll; try done.
Qed.

End shared.

(** ** The protocol of a mutation: its key, and whether it has acted *)

Definition mutation_step (keyed : bool) (p : key_state * bool) (c : service) (r : reply c) : option (key_state * bool) :=
  (λ k, (k, p.2 || effect c)) <$> key_step keyed true p.1 c r.

(** How a mutation may end: an answer is the stored one, or is stored; an error leaves no open key
    unless the mutation has acted already. *)
Definition mutation_ends {A} (keyed : bool) (envelope : A → pydict) (p : key_state * bool) (r : A + api_exn) : Prop :=
  match r with
  | inl a => match p.1 with Completed v | Stored v => v = envelope a | Unkeyed => keyed = false | _ => False end
  | inr (Http _) => key_closed p.1 = true ∨ p.2 = true
  | inr (Other _) => True
  end.

Section mutation.
Context `{Sha256} `{SortedJson}.

Lemma follows_reserve_mutation request body p (Q : key_state * bool → option string * option pydict + api_exn → Prop) :
  let keyed := keyed_by request in
  (keyed = false → Q (Unkeyed, false) (inl (None, None))) →
  (∀ k s, s = Granted k ∨ s = Abandoned k → Q (s, false) (inl (Some k, None))) →
  (∀ k d, Q (Stored d, false) (inl (Some k, Some d))) →
  (∀ s x, key_closed s = true → Q (s, false) (inr (Http x))) → (∀ s e, Q (s, false) (inr (Other e))) →
  task_follows (mutation_step keyed) Q (Unkeyed, false) (reserve_mutation request body p).
Proof.
  intros keyed Hnone Hown Hst Hhttp Hother. subst keyed. unfold keyed_by, reserve_mutation in *. destruct (idempotency_key request) as [key|]; [|by apply follows_mret, Hnone].
  cbn [is_some]. set (k := key_hash_of p key). apply follows_mbind. unfold reserve_key. apply follows_mbind, follows_ask. intros [res|e].
  2: { cbn. apply task_follows_throw. unfold reservation_error. destruct e; first [by apply Hhttp|by apply Hother]. }
  cbn. apply follows_mret. destruct (kr_replay res); cbn [negb]; [|by apply follows_mret, Hown; left].
  apply follows_mbind. destruct (kr_result res) as [v|].
  { apply follows_mret. cbn. destruct v; try (by apply follows_mret, Hown; right); by apply follows_mret, Hst. }
  apply follows_wait; [by intros [s acted] r; cbn; rewrite orb_false_r..| |by apply Hhttp|by apply Hother]. apply follows_ask. intros [v|]; cbn.
  - destruct v; try (by apply follows_mret, Hown; right); by apply follows_mret, Hst.
  - apply follows_mret, Hown. by right.
Qed.

End mutation.

(** Releasing or completing a key of ours. *)
Lemma follows_release keyed p key (Q : key_state * bool → unit + api_exn → Prop) :
  match key with Some k => (p.1 = Granted k ∨ p.1 = Abandoned k) ∧ Q (Released, p.2) (inl tt) | None => Q p (inl tt) end →
  task_follows (mutation_step keyed) Q p (release_key key).
Proof.
  destruct key as [k|]; [|by apply follows_mret]. destruct p as [s acted]. intros [Hs HQ]. apply follows_ask. intros []. cbn in *.
  destruct Hs as [-> | ->]; cbn; rewrite bool_decide_eq_true_2 by done; cbn; by rewrite orb_false_r.
Qed.

Lemma follows_complete keyed p key v (Q : key_state * bool → unit + api_exn → Prop) :
  match key with
  | Some k => (p.1 = Granted k ∨ p.1 = Abandoned k) ∧ Q (Completed v, p.2) (inl tt) ∧ Q (Completed v, p.2) (inr write_failed)
  | None => Q p (inl tt)
  end →
  task_follows (mutation_step keyed) Q p (complete_key key v).
Proof.
  destruct key as [k|]; [|by apply follows_mret]. destruct p as [s acted]. intros (Hs & HQ & He). apply follows_mbind, follows_ask. intros r. cbn in *.
  destruct Hs as [-> | ->]; cbn; rewrite bool_decide_eq_true_2 by done; cbn; rewrite orb_false_r;
    (destruct r; cbn; [by apply task_follows_throw|by apply follows_mret]).
Qed.

(** ** Waiting for another request ends *)

(** The clock along a run: it never goes back, and a sleep takes at least its ten milliseconds. *)
Fixpoint clock_runs (now : Z) (tr : list {c : service & reply c}) : Prop :=
  match tr with
  | [] => True
  | existT c r :: tr =>
      match c return reply c → Prop with
      | Monotonic => λ t, now <= t ∧ clock_runs t tr
      | Sleep => λ _, clock_runs (now + POLL_NS) tr
      | _ => λ _, clock_runs now tr
      end r
  end.

Lemma clock_runs_app now tr tr' : clock_runs now (tr ++ tr') → clock_runs now tr.
Proof. revert now. induction tr as [|[c r] tr IH]; intros now; [done|]. destruct c; cbn; try apply IH. intros [? ?]. split; [done|by apply IH]. Qed.

(** How a wait with a deadline ends: the key is no longer pending, or it is and the clock is past the deadline. *)
Definition wait_ended (k : string) (deadline : Z) (tr : list {c : service & reply c}) (r : unit + api_exn) : Prop :=
  (r = inl tt ∧ ∃ tr0, tr = tr0 ++ [existT (IsPending k) false]) ∨
  (r = inr (Http session_busy) ∧ ∃ tr0 t, tr = tr0 ++ [existT (IsPending k) true; existT Monotonic t] ∧ deadline < t).

Lemma wait_ended_later k deadline c x tr r : wait_ended k deadline tr r → wait_ended k deadline (existT c x :: tr) r.
Proof. intros [(-> & tr0 & ->)|(-> & tr0 & t & -> & Ht)]; [left|right]; (split; [done|]); exists (existT c x :: tr0); eauto. Qed.

Lemma wait_poll_ends n k deadline now s tr r :
  (0 < n)%nat → deadline < now + (Z.of_nat n - 1) * POLL_NS → runs (wait_poll n k deadline s).2 tr r → clock_runs now tr →
  wait_ended k deadline tr r ∧ (length tr ≤ 3 * n)%nat.
Proof.
  revert now s tr. induction n as [|n IH]; intros now s tr Hn Hd Hr Hc; [lia|].
  apply runs_inv in Hr as (pending & s1 & tr1 & -> & Hr). cbn in Hr, Hc. destruct pending; cbn [negb] in Hr.
  2: { apply runs_inv in Hr as [-> ->]. split; [|cbn; lia]. left. split; [done|]. by exists []. }
  apply runs_inv in Hr as (t & s2 & tr2 & -> & Hr). cbn in Hr, Hc. destruct Hc as [Ht Hc].
  destruct (Z.ltb_spec deadline t) as [Hlt|Hge].
  { apply runs_inv in Hr as [-> ->]. split; [|cbn; lia]. right. split; [done|]. by exists [], t. }
  apply runs_inv in Hr as ([] & s3 & tr3 & -> & Hr). cbn in Hr, Hc.
  destruct (IH (t + POLL_NS) s3 tr3) as [He Hl]; [destruct n; [unfold POLL_NS in *; lia|lia]|unfold POLL_NS in *; lia|exact Hr|exact Hc|].
  split; [by do 3 apply wait_ended_later|]. cbn. lia.
Qed.

(** C30: Waiting for another request's result ends.  If the clock does not go back and a sleep of ten
    milliseconds lasts at least that long, a wait for a key that another request holds ends after at most 3002 polls
    (the bound of the definition's loop is never what ends it): with what the key's replay gives, read right after the
    key was seen not to be pending; or with the error that the session is busy, and then the key was seen
    pending and the clock read more than thirty seconds after the start. *)
Theorem wait_for_idempotency_ends k now s tr r :
  runs (wait_for_idempotency k s).2 tr r → clock_runs now tr →
  (length tr ≤ 2 + 3 * 3002)%nat ∧
  ∃ start tr0, tr = existT Monotonic start :: tr0 ∧
    ((∃ v tr1, r = inl v ∧ tr0 = tr1 ++ [existT (IsPending k) false; existT (Replay k) v]) ∨
     (∃ t tr1, r = inr (Http session_busy) ∧ tr0 = tr1 ++ [existT (IsPending k) true; existT Monotonic t] ∧
        start + 30 * 10 ^ 9 < t)).
Proof.
  intros (start & s1 & tr1 & -> & Hr)%runs_inv [Hnow Hc].
  change (runs (async_bind (λ _, (ask (Replay k) : api_task (option pyval))) (wait_poll WAIT_POLLS k (start + WAIT_NS) s1).1
                  (wait_poll WAIT_POLLS k (start + WAIT_NS) s1).2).2 tr1 r) in Hr.
  apply runs_bind in Hr as (tr2 & r2 & tr3 & -> & Hr2 & Hrest). apply clock_runs_app in Hc.
  apply (wait_poll_ends WAIT_POLLS k (start + WAIT_NS) start) in Hr2 as [He Hl];
    [|unfold WAIT_POLLS; lia|unfold WAIT_POLLS, WAIT_NS, POLL_NS; lia|done].
  unfold WAIT_POLLS in Hl. destruct He as [(-> & tr0 & ->)|(-> & tr0 & t & -> & Ht)].
  - destruct Hrest as [s2 (v & s3 & tr4 & -> & Hr)%runs_inv]. apply runs_inv in Hr as [-> ->].
    rewrite length_app in Hl. cbn in Hl. split; [rewrite length_cons, !length_app; cbn; lia|].
    exists start, ((tr0 ++ [existT (IsPending k) false]) ++ [existT (Replay k) v]). split; [done|].
    left. exists v, tr0. by rewrite <-app_assoc.
  - destruct Hrest as [-> ->]. rewrite app_nil_r. rewrite length_app in Hl. cbn in Hl.
    split; [rewrite length_cons, length_app; cbn; lia|]. eexists _, _. split; [done|]. right. exists t, tr0. done.
Qed.

(** ** Examples *)

Module ApiExamples.

Definition no_session : SessionRecord := new_session "s" "app" "u" 0.
Definition paused : InvocationRecord :=
  mkInvocation "inv_1" "s" "app" "turn_1" "u" "interrupted" None None None 1 0 None None None None None [] None.
Definition an_event : CanonicalEventRecord :=
  mkEvent "evt_1" (Some "inv_1") "s" (Some "turn_1") "codex" 1 [] [] "message.delta" [] 2 0 true "app" "codex" "app" "u".
Definition caller : Principal := mkPrincipal "p" None None [] None.

(** Services where everything succeeds and nothing is found. *)
Definition quiet (c : service) : reply c :=
  match c return reply c with
  | ReadBody => Ok (PDict [])
  | ResolveSession _ _ | ResolveInvocation _ _ _ | UpdatePolicy _ _ _ | CancelInvocation _ _ | PauseInvocation _ _
  | ReconcileInvocation _ _ | FindSession _ _ _ | ApplyStateDelta _ _ _ _ => Ok 0%nat
  | HasSessionAccess _ _ => true
  | IsPending _ | Complete _ _ | Yield _ | QueueSlot | QueueGet => false
  | LoadSession _ => no_session
  | LoadInvocation _ => paused
  | GetSession _ => Some no_session
  | GetInvocation _ => None
  | GetDelegated _ => None
  | EnsureDelegated _ _ | CancelDelegated _ _ | StampInvocation _ _ _ _ | ReconcilePrompts _
  | DeleteSession _ _ _ | AppendResolved _ _ _ _ _ => Ok tt
  | UpdateDelegatedRuntime id _ => Raise (DelegatedSessionNotFoundError id)
  | Reserve k _ => Ok (mkReservation k false None)
  | Replay _ => None
  | Release _ | Sleep | ReleaseRun _ | ReleaseWorkspace _ _ | DeleteEvidence _ => tt
  | Accept k _ => Ok (fresh_idempotency k "" 0)
  | Monotonic => 0
  | GetApproval _ => None
  | GetInputRequest _ => None
  | ResolveApproval id _ => Raise (ApprovalNotFoundError id)
  | ResolveInput id _ => Raise (InputRequestNotFoundError id)
  | Respond _ _ => inl tt
  | DestroyDelegated _ _ => Raise (DelegatedContainerUnavailable "none")
  | NextEvent _ => StopIteration
  | ResolveApp _ name => Raise (AppNotFoundError name)
  | ReadSession _ _ => Ok []
  | ReadInvocation _ _ => []
  | AdmitRun _ => mkAdmissionDecision true false (Some "adm_1") None None None None None
  | EffectiveProfile _ _ _ _ _ => inl None
  | RunToEnd r => Ok (mkRunResult [] 0%nat)
  | Now => 0
  | AcquireLease _ holder => Ok (mkLease holder 30000 1)
  | ReleaseLease _ _ _ | MergeState _ _ | EndTurn _ _ _ | CompleteTurn _ _ _ => tt
  | StoreSession _ | StoreInvocation _ | StoreTurn _ => Some 0%nat
  | PutInvocation _ | PutTurn _ => false
  | AcquireWorkspace _ id _ _ => Ok (mkLockResult true (Some id) None)
  | RestoreDelegated _ => Raise (DelegatedContainerUnavailable "none")
  | NextWorkerEvent _ _ => WorkerEnd
  | AppendEvent _ _ _ => Ok an_event
  | GetDelegatedById _ => None
  | ReconcilePolicy _ => Ok None
  | AppendPolicyEvent _ _ => Ok tt
  end.

(** The calls of a coroutine that is served by [o]. *)
Fixpoint calls_from (o : ∀ c, reply c) {A} (s : SseState) (t : async SseState api_exn service reply A) : list service :=
  match t with
  | Done _ => []
  | Await c k => c :: calls_from o (k (o c) s).1 (k (o c) s).2
  end.
Definition calls (o : ∀ c, reply c) {A} (m : api_task A) (s : SseState) : list service := calls_from o (m s).1 (m s).2.

(** A holder that finishes between two polls. *)
Definition polled : list {c : service & reply c} :=
  [existT Monotonic 0; existT (IsPending "k") true; existT Monotonic (5 * 10 ^ 6); existT Sleep tt; existT (IsPending "k") false;
   existT (Replay "k") (Some (PStr "done"))].

Lemma wait_for_idempotency_ends_witness :
  runs (wait_for_idempotency "k" no_stream).2 polled (inl (Some (PStr "done"))) ∧
  ∃ start tr0, polled = existT Monotonic start :: tr0 ∧
    ((∃ v tr1, inl (Some (PStr "done")) = inl v :> option pyval + api_exn ∧ tr0 = tr1 ++ [existT (IsPending "k") false; existT (Replay "k") v]) ∨
     (∃ t tr1, inl (Some (PStr "done")) = inr (Http session_busy) :> option pyval + api_exn ∧
        tr0 = tr1 ++ [existT (IsPending "k") true; existT Monotonic t] ∧ start + 30 * 10 ^ 9 < t)).
Proof.
  assert (Hr : runs (wait_for_idempotency "k" no_stream).2 polled (inl (Some (PStr "done")))).
  { unfold polled. repeat (eapply (runs_call _ _ _ no_stream); cbn). constructor. }
  split; [exact Hr|]. apply (wait_for_idempotency_ends "k" 0 no_stream polled _ Hr). vm_compute. repeat split; discriminate.
Defined.

(** Two sessions of different users share an id. *)
Definition shared_id : MemoryStore :=
  (RegistryExamples.only_alice)
    <| st_session_objs := [new_session "s" "chrn_a" "u1" 0; new_session "s" "chrn_a" "u2" 0] |>
    <| st_sessions := [(("chrn_a", "u1", "s"), 0%nat); (("chrn_a", "u2", "s"), 1%nat)] |>.

(** A caller who sees two sessions with one id has access to the session, and cannot have it resolved. *)
Example access_without_resolution :
  has_session_access RegistryExamples.alice "s" shared_id = true ∧
  resolve_visible_session RegistryExamples.alice "s" shared_id = Raise (haas_error "session_not_found").
Proof. by vm_compute. Qed.

End ApiExamples.
