(* ===== verification/ControlApi.v ===== *)
(** * Session routes of the HTTP layer (haas/api.py)

    Reading, patching and deleting a session, and the mutations of a running one: cancel, pause,
    continue, policy, approvals and answers.  A mutation runs at most once per [Idempotency-Key]. *)

From S2P Require Import Prelude Errors Dict PyVal Records Store SessionStore EventStore Identity Redact Events Sessions.
From S2P Require Import Docker Encoding CodexRpc Async Adapter Api.

#[local] Open Scope string_scope.
#[local] Open Scope list_scope.
#[local] Open Scope Z_scope.

(** ** Which errors a mutation answers *)

Definition not_found (code : string) : HaasError := invalid_request 404 code.
Definition adapter_failed : HaasError := new_haas_error 502 "invalid_request_error" "haas_adapter_error" (Some "adapter_error") true.

(** [except AdapterTurnError], the timeout included. *)
Definition is_turn_error (e : exn) : bool := match e with AdapterTurnError _ | AdapterTurnTimeoutError _ => true | _ => false end.

Definition cancel_errors (e : api_exn) : option HaasError :=
  match e with
  | Http x => Some x
  | Other (Py (DelegatedContainerUnavailable _)) =>
      Some (new_haas_error 503 "invalid_request_error" "haas_delegation_backend_unavailable" (Some "delegation_cancel_unavailable") true)
  | Other (Py (InvocationNotFoundError _)) => Some (not_found "haas_invocation_not_found")
  | Other (Py (SessionBusyError _)) => Some session_busy
  | Other (Py e) => if is_turn_error e then Some adapter_failed else None
  | Other (Rpc _) => None
  end.

(** [pause_invocation] and [continue_invocation] do not catch [HaasError]. *)
Definition pause_errors (e : api_exn) : option HaasError :=
  match e with
  | Other (Py (InvocationNotFoundError _)) => Some (not_found "haas_invocation_not_found")
  | Other (Py (InvocationNotRunningError _)) => Some (invalid_request 409 "haas_invocation_not_running")
  | Other (Py e) => if is_turn_error e then Some adapter_failed else None
  | _ => None
  end.

Definition continue_errors (e : api_exn) : option HaasError :=
  match e with
  | Other (Py (InvocationNotFoundError _)) => Some (not_found "haas_invocation_not_found")
  | Other (Py (InvocationNotResumableError _)) => Some (invalid_request 409 "haas_invocation_not_resumable")
  | Other (Py (SessionBusyError _)) => Some session_busy
  | Other (Py (OtherError "StopAsyncIteration" _)) => Some (invalid_request 502 "haas_adapter_error")
  | _ => None
  end.

Definition policy_errors (e : api_exn) : option HaasError :=
  match e with
  | Http x => Some x
  | Other (Py (PolicyRevisionConflictError _)) => Some (invalid_request 409 "haas_policy_revision_conflict")
  | Other (Py (PolicyUpdateInvalidError _)) => Some invalid_input
  | _ => None
  end.

(** [conflict] is the state conflict of the kind of prompt. *)
Definition approval_errors (e : api_exn) : option HaasError :=
  match e with
  | Http x => Some x
  | Other (Py (ApprovalNotFoundError _)) => Some (not_found "haas_approval_not_found")
  | Other (Py (ApprovalStateConflictError _)) => Some (invalid_request 409 "haas_approval_state_conflict")
  | Other e => if is_connection_error e then Some (invalid_request 409 "haas_approval_state_conflict") else None
  end.
Definition input_errors (e : api_exn) : option HaasError :=
  match e with
  | Http x => Some x
  | Other (Py (InputRequestNotFoundError _)) => Some (not_found "haas_input_request_not_found")
  | Other (Py (InputRequestStateConflictError _)) => Some (invalid_request 409 "haas_input_request_state_conflict")
  | Other e => if is_connection_error e then Some (invalid_request 409 "haas_input_request_state_conflict") else None
  end.

(** ** Reading, patching, deleting *)

(** [get_invocation] *)
Definition get_invocation_route (trace : string) (p : Principal) (session_id invocation_id : string) : api_task pydict :=
  l ← visible_invocation p session_id invocation_id;
  i ← (ask (LoadInvocation l) : api_task InvocationRecord);
  l ← attempt (ReconcileInvocation session_id (i_id i)) id;
  invocation_envelope trace l.

(** [_ensure_owns] *)
Definition ensure_owns (p : Principal) (user_id : string) : api_task unit :=
  if owns p None None (Some user_id) then mret tt else refuse (not_found "session_not_found").

(** [except SessionNotFoundError] *)
Definition session_or_404 {A} (m : api_task A) : api_task A :=
  task_try m (λ e, match e with
                   | Other (Py (SessionNotFoundError _)) => refuse (not_found "session_not_found")
                   | e => throw e
                   end).

(** The head of a session's projection. *)
Definition session_head (r : SessionRecord) : pydict :=
  [("id", PStr (s_id r)); ("appName", PStr (s_appName r)); ("userId", PStr (s_userId r)); ("state", PDict (s_state r));
   ("lastUpdateTime", PFloat (float_div (float_of_Z (s_updatedAtMs r)) (float_of_Z 1000)))].

(** [patch_session]; a body that is no JSON is not answered. *)
Definition patch_session (p : Principal) (app_name user_id session_id : string) : api_task pydict :=
  _ ← ensure_owns p user_id;
  body ← attempt ReadBody id;
  match body with
  | PDict body =>
      match pget_or "stateDelta" (PDict []) body with
      | PDict delta =>
          l ← session_or_404 (attempt (ApplyStateDelta app_name user_id session_id delta) id);
          r ← (ask (LoadSession l) : api_task SessionRecord);
          mret (session_head r)
      | _ => refuse invalid_input
      end
  | _ => refuse invalid_input
  end.

(** The workspace path a delegated session holds. *)
Definition workspace_path (r : DelegatedSessionRecord) : result (option string) :=
  match py_or (pget "primaryWorkspace" (ds_mountManifest r)) (PDict []) with
  | PDict d => Ok (match pget "hostPathCanonical" d with PStr s => Some s | _ => None end)
  | _ => Raise AttributeError
  end.

(** [delete_session] *)
Definition delete_session_route (p : Principal) (app_name user_id session_id : string) : api_task unit :=
  _ ← ensure_owns p user_id;
  session_or_404 (
    delegated ← (ask (GetDelegated session_id) : api_task (option DelegatedSessionRecord));
    _ ← (match delegated with
         | None => mret tt
         | Some r =>
             _ ← delegated_access p r;
             destroyed ← attempt (DestroyDelegated r "session_deleted") id;
             _ ← attempt (UpdateDelegatedRuntime (ds_id r) destroyed) id;
             path ← unless_raised (workspace_path r);
             match path with
             | Some path => (ask (ReleaseWorkspace path (ds_id r)) : api_task unit)
             | None => mret tt
             end
         end : api_task unit);
    _ ← attempt (DeleteSession app_name user_id session_id) id;
    (ask (DeleteEvidence session_id) : api_task unit)).

Section mutations.
Context `{PyRepr} `{Sha256} `{SortedJson} (trace : string) (p : Principal) (request : ApiRequest).

(** ** Cancel and pause *)

(** [cancel_invocation] *)
Definition cancel_invocation (session_id invocation_id : string) : api_task pydict :=
  invocation ← visible_invocation p session_id invocation_id;
  kr ← reserve_mutation request [] p;
  match kr with
  | (_, Some replay) => mret replay
  | (key, None) =>
      invocation ← releasing key cancel_errors (
        delegated ← (ask (GetDelegated session_id) : api_task (option DelegatedSessionRecord));
        i ← (ask (LoadInvocation invocation) : api_task InvocationRecord);
        match delegated with
        | Some r =>
            if bool_decide (i_status i = "running") then
              _ ← delegated_access p r;
              _ ← attempt (CancelDelegated r invocation_id) id;
              mret invocation
            else attempt (CancelInvocation session_id invocation_id) id
        | None => attempt (CancelInvocation session_id invocation_id) id
        end);
      envelope ← invocation_envelope trace invocation;
      _ ← complete_key key envelope;
      mret envelope
  end.

(** [pause_invocation] *)
Definition pause_invocation (session_id invocation_id : string) : api_task pydict :=
  _ ← visible_invocation p session_id invocation_id;
  kr ← reserve_mutation request [] p;
  match kr with
  | (_, Some replay) => mret replay
  | (key, None) =>
      invocation ← releasing key pause_errors (attempt (PauseInvocation session_id invocation_id) id);
      envelope ← invocation_envelope trace invocation;
      _ ← complete_key key envelope;
      mret envelope
  end.

(** ** Continue *)

(** The stored result of a run: its events so far, and its ids. *)
Definition run_result (events : list pydict) (expires : option Z) (invocation_id session_id : string) : pydict :=
  [("events", PList (PDict <$> events)); ("idempotency_expires_at_ms", opt_int_val expires);
   ("invocation_id", PStr invocation_id); ("session_id", PStr session_id)].

(** The events after the first: shown, and what ended the loop but for its end and a failed turn. *)
Fixpoint continue_rest (n : nat) (g : generator) (events : list pydict) : api_task (list pydict * option api_exn) :=
  match n with
  | O => mret (events, Some events_exhausted)
  | S n =>
      next ← (ask (NextEvent g) : api_task next_event);
      match next with
      | Event e =>
          let events := events ++ [project_adk e] in
          gone ← (ask (Yield (EventFrame (project_adk e))) : api_task bool);
          if gone : bool then mret (events, Some generator_exit) else continue_rest n g events
      | StopIteration => mret (events, None)
      | Fails e => mret (events, if is_turn_error e then None else Some (Other (Py e)))
      end
  end.

(** The frames of [continue_invocation]: the first event outside the [try], the rest inside it. *)
Definition continue_frames (n : nat) (g : generator) (key : option string) (expires : option Z) (first : pydict)
    (invocation_id session_id : string) : api_task unit :=
  _ ← yield (EventFrame first);
  res ← continue_rest n g [first];
  let (events, failed) := res : list pydict * option api_exn in
  _ ← complete_key key (run_result events expires invocation_id session_id);
  match failed with Some e => throw e | None => mret tt end.

(** [additionalInstruction]: a text of at most four thousand code points, or none. *)
Definition instruction_of (body : pydict) : option (option string) :=
  match pget "additionalInstruction" body with
  | PNone => Some None
  | PStr s => if 4000 <? Z.of_nat (cp_length s) then None else Some (Some s)
  | _ => None
  end.

(** The first event of a generator; its end is an exception. *)
Definition first_event (g : generator) : api_task CanonicalEventRecord :=
  next ← (ask (NextEvent g) : api_task next_event);
  match next with
  | Event e => mret e
  | StopIteration => throw (Other (Py (OtherError "StopAsyncIteration" None)))
  | Fails e => throw (Other (Py e))
  end.

(** The answer once the continued run has shown its first event. *)
Definition continue_started (n : nat) (g : generator) (key : option string) (first : CanonicalEventRecord) : api_task response :=
  match e_invocationId first with
  | None => _ ← release_key key; refuse (new_haas_error 503 "service_unavailable" "haas_store_unavailable" None false)
  | Some inv =>
      expires ← accept_idempotency key inv;
      mret (StreamResponse (accepted_headers (Some inv) (Some (e_sessionId first)) (opt_int_val expires))
              (continue_frames n g key expires (project_adk first) inv (e_sessionId first)))
  end.

(** [continue_invocation] *)
Definition continue_invocation (n : nat) (session_id invocation_id : string) : api_task response :=
  _ ← visible_invocation p session_id invocation_id;
  body ← json_object;
  match instruction_of body with
  | None => refuse invalid_input
  | Some instruction =>
      kr ← reserve_mutation request body p;
      match kr with
      | (_, Some replay) => unless_raised (render_cached replay true)
      | (key, None) =>
          let g := ContinueStream session_id invocation_id instruction in
          first ← releasing key continue_errors (first_event g);
          continue_started n g key first
      end
  end.

(** ** Policy *)

(** The answer of a policy mutation: applied or accepted. *)
Definition policy_status (applied : bool) : Z := if applied then 200 else 202.
Definition replayed_policy (replay : pydict) : result Z :=
  match pget_or "data" (PDict []) replay with
  | PDict data => Ok (policy_status (py_eqb (pget "status" data) (PStr "applied")))
  | _ => Raise AttributeError
  end.

(** [isinstance(v, int)], not a boolean, and at least one. *)
Definition revision_of (v : pyval) : option Z := match v with PInt z => if 1 <=? z then Some z else None | _ => None end.

(** [update_session_policy] *)
Definition update_session_policy (session_id : string) : api_task (Z * pydict) :=
  body ← json_object;
  match idempotency_key request with
  | None => refuse invalid_input
  | Some _ =>
      kr ← reserve_mutation request body p;
      match kr with
      | (_, Some replay) => status ← unless_raised (replayed_policy replay); mret (status, replay)
      | (key, None) =>
          updated ← releasing key policy_errors (
            session ← visible_session p session_id;
            match revision_of (pget "expectedRevision" body), pget "policy" body with
            | Some expected, PDict policy => attempt (UpdatePolicy session expected policy) id
            | _, _ => throw (Other (Py (PolicyUpdateInvalidError session_id)))
            end);
          r ← (ask (LoadSession updated) : api_task SessionRecord);
          let envelope := [("data", PDict (session_policy_revision r)); ("traceId", PStr trace)] in
          _ ← complete_key key envelope;
          mret (policy_status (bool_decide (s_policyStatus r = "applied")), envelope)
      end
  end.

(** ** Prompts *)

(** What follows a resolved prompt: its event, its envelope and the end of the key. *)
Definition prompt_resolved (key : option string) (session_id type_ invocation_id turn_id : string) (haas data : pydict) : api_task pydict :=
  l ← visible_session p session_id;
  session ← (ask (LoadSession l) : api_task SessionRecord);
  _ ← attempt (AppendResolved type_ session invocation_id turn_id haas) id;
  let envelope := [("data", PDict data); ("traceId", PStr trace)] in
  _ ← complete_key key envelope;
  mret envelope.

(** What the guarded part of a prompt's route gives: the prompt was answered before by the same
    body, or it is now. *)
Inductive prompt_outcome (A : Type) := AlreadyAnswered (envelope : pydict) | NowResolved (r : A).
Arguments AlreadyAnswered {A} _.
Arguments NowResolved {A} _.

(** An answer that repeats the stored one is answered again, without an effect. *)
Definition answered_before {A} (key : option string) (data : pydict) : api_task (prompt_outcome A) :=
  let envelope := [("data", PDict data); ("traceId", PStr trace)] in
  _ ← complete_key key envelope;
  mret (AlreadyAnswered envelope).

Definition respond (i : interaction) (payload : pydict) : api_task unit :=
  r ← (ask (Respond i payload) : api_task (unit + adapter_exn));
  match r with inl _ => mret tt | inr e => throw (Other e) end.

(** [decision not in {"approved", "denied"}]; an unhashable decision raises. *)
Definition decision_known (body : pydict) : result bool := in_str_set (pget "decision" body) ["approved"; "denied"].

(** [resolve_approval], the guarded part; [responds] says whether the adapter can answer. *)
Definition approve (responds : bool) (key : option string) (session_id approval_id : string) (body : pydict) :
    api_task (prompt_outcome ApprovalRecord) :=
  let missing := not_found "haas_approval_not_found" in
  _ ← attempt (ReconcilePrompts session_id) id;
  found ← (ask (GetApproval approval_id) : api_task (option ApprovalRecord));
  match found with
  | None => refuse missing
  | Some approval =>
      if negb (bool_decide (a_sessionId approval = session_id)) then refuse missing
      else
        access ← (ask (HasSessionAccess p session_id) : api_task bool);
        if negb access then refuse missing
        else
          known ← unless_raised (decision_known body);
          if negb known || negb (py_eqb (pget "scope" body) (PStr "action")) then refuse invalid_input
          else if negb (bool_decide (a_status approval = "waiting")) then
            if py_eqb (PStr (a_status approval)) (pget "decision" body) && py_eqb (opt_dict_val (a_decision approval)) (PDict body)
            then answered_before key (approval_to_dict approval)
            else refuse (invalid_request 409 "haas_approval_state_conflict")
          else
            _ ← (if responds && is_some (a_nativeRequestId approval) then respond (Approval approval) body else mret tt);
            r ← attempt (ResolveApproval approval_id body) id;
            mret (NowResolved r)
  end.

Definition resolve_approval (responds : bool) (session_id approval_id : string) : api_task pydict :=
  body ← json_object;
  kr ← reserve_mutation request body p;
  match kr with
  | (_, Some replay) => mret replay
  | (key, None) =>
      outcome ← releasing key approval_errors (approve responds key session_id approval_id body);
      match outcome with
      | AlreadyAnswered envelope => mret envelope
      | NowResolved r =>
          prompt_resolved key session_id "haas.approval.resolved" (a_invocationId r) (a_turnId r)
            [("approvalId", PStr approval_id); ("status", PStr (a_status r))] (approval_to_dict r)
      end
  end.

(** The answers fit the questions: one for each, with values or a secret reference. *)
Definition answer_ok (v : pyval) : bool :=
  match v with PDict d => (match pget "values" d with PList _ => true | _ => false end) || is_str (pget "secretRef" d) | _ => false end.
Definition answers_fit (questions : list pydict) (answers : pydict) : bool :=
  let expected_ids := (λ q, py_str (pget "id" q)) <$> questions in
  forallb (λ k, bool_decide (k ∈ expected_ids)) (dkeys answers) && forallb (λ k, bool_decide (k ∈ dkeys answers)) expected_ids &&
  forallb answer_ok (dvalues answers).

Definition answer (responds : bool) (key : option string) (session_id input_request_id : string) (body : pydict) :
    api_task (prompt_outcome InputRequestRecord) :=
  match pget "answers" body with
  | PDict answers =>
      _ ← attempt (ReconcilePrompts session_id) id;
      found ← (ask (GetInputRequest input_request_id) : api_task (option InputRequestRecord));
      match found with
      | None => refuse (not_found "haas_input_request_not_found")
      | Some record =>
          if negb (bool_decide (q_sessionId record = session_id)) then refuse (not_found "haas_input_request_not_found")
          else if negb (answers_fit (q_questions record) answers) then refuse invalid_input
          else if negb (bool_decide (q_status record = "waiting")) then
            if bool_decide (q_status record = "answered") && py_eqb (opt_dict_val (q_answers record)) (PDict body)
            then answered_before key (input_to_dict record)
            else refuse (invalid_request 409 "haas_input_request_state_conflict")
          else
            _ ← (if responds then respond (Input record) body else mret tt);
            r ← attempt (ResolveInput input_request_id body) id;
            mret (NowResolved r)
      end
  | _ => refuse invalid_input
  end.

(** [answer_input_request] *)
Definition answer_input_request (responds : bool) (session_id input_request_id : string) : api_task pydict :=
  _ ← visible_session p session_id;
  body ← json_object;
  kr ← reserve_mutation request body p;
  match kr with
  | (_, Some replay) => mret replay
  | (key, None) =>
      outcome ← releasing key input_errors (answer responds key session_id input_request_id body);
      match outcome with
      | AlreadyAnswered envelope => mret envelope
      | NowResolved r =>
          prompt_resolved key session_id "haas.input.resolved" (q_invocationId r) (q_turnId r)
            [("inputRequestId", PStr input_request_id); ("status", PStr (q_status r))] (input_to_dict r)
      end
  end.

End mutations.

(** ** Every mutation keeps to its key *)

Section protocol.
Context `{PyRepr} `{Sha256} `{SortedJson}.

Section lemmas.
Context (keyed : bool).
Notation follows_key := (task_follows (mutation_step keyed)).

Lemma mutation_inert c : effect c = false → (∀ s r, key_step keyed true s c r = Some s) → inert (mutation_step keyed) c.
Proof. intros He Hk [s acted] r. unfold mutation_step. rewrite Hk, He. cbn. by rewrite orb_false_r. Qed.

(** A call that only reads. *)
Lemma follows_read (c : service) (Q : key_state * bool → reply c + api_exn → Prop) p :
  effect c = false → (∀ s r, key_step keyed true s c r = Some s) → (∀ r, Q p (inl r)) → follows_key Q p (ask c).
Proof. intros He Hk HQ. apply follows_inert; [by apply mutation_inert|done]. Qed.

(** A read that may be refused or raise. *)
Lemma follows_attempt {A} (c : service) (f : reply c → result A) (Q : key_state * bool → A + api_exn → Prop) p :
  effect c = false → (∀ s r, key_step keyed true s c r = Some s) → (∀ a, Q p (inl a)) → (∀ e, Q p (inr (Other e))) →
  follows_key Q p (attempt c f).
Proof.
  intros He Hk Hok Hex. apply follows_mbind, follows_read; [done..|]. intros r. destruct (f r); [by apply follows_mret|by apply task_follows_throw].
Qed.

(** An effect under a granted key, an abandoned one, or without one. *)
Lemma follows_effect {A} (c : service) (f : reply c → result A) (Q : key_state * bool → A + api_exn → Prop) s acted :
  may_act keyed true s = true → effect c = true → (∀ r, key_step keyed true s c r = Some s) →
  (∀ a, Q (s, true) (inl a)) → (∀ e, Q (s, true) (inr (Other e))) →
  follows_key Q (s, acted) (attempt c f).
Proof.
  intros Hs He Hk Hok Hex. apply follows_mbind, follows_ask. intros r. unfold mutation_step. cbn [fst snd]. rewrite Hk, He, orb_true_r.
  cbn. destruct (f r); [by apply follows_mret|by apply task_follows_throw].
Qed.

Lemma not_found_http_cases e : (∃ x, not_found_http e = Http x) ∨ ∃ e', not_found_http e = Other e'.
Proof.
  unfold not_found_http. repeat case_match; first [by left; eexists|by right; eexists].
Qed.

Lemma follows_refusable {A} (Q : key_state * bool → A + api_exn → Prop) p (r : result A) :
  (∀ a, Q p (inl a)) → (∀ x, Q p (inr (Http x))) → (∀ e, Q p (inr (Other e))) → follows_key Q p (unless_refused r).
Proof.
  intros Hok Hx He. destruct r as [a|e]; [by apply follows_mret|]. apply task_follows_throw.
  by destruct (not_found_http_cases e) as [[x ->]|[e' ->]].
Qed.

Lemma follows_envelope trace l (Q : key_state * bool → pydict + api_exn → Prop) p :
  (∀ d, Q p (inl d)) → (∀ x, Q p (inr (Http x))) → follows_key Q p (invocation_envelope trace l).
Proof.
  intros Hok Hx. apply follows_mbind, follows_read; [done..|]. intros i. apply follows_mbind, follows_read; [done..|].
  intros [r|]; [by apply follows_mret|by apply follows_refuse].
Qed.

Lemma follows_json_object (Q : key_state * bool → pydict + api_exn → Prop) p :
  (∀ d, Q p (inl d)) → (∀ x, Q p (inr (Http x))) → (∀ e, Q p (inr (Other e))) → follows_key Q p json_object.
Proof.
  intros Hok Hx He. apply follows_mbind, follows_read; [done..|]. intros [v|e].
  - destruct v; first [by apply follows_refuse|by apply follows_mret].
  - destruct e; first [by apply follows_refuse|by apply task_follows_throw].
Qed.

(** The state of a key a mutation may act under, and the key it then closes. *)
Definition acts_under (key : option string) (s : key_state) : Prop :=
  match key with Some k => s = Granted k ∨ s = Abandoned k | None => s = Unkeyed ∧ keyed = false end.

Lemma acts_under_may key s : acts_under key s → may_act keyed true s = true.
Proof. destruct key as [k|]; [by intros [-> | ->]|]. by intros [-> ->]. Qed.

(** The guarded part of a mutation: what it answers releases the key. *)
Lemma follows_guarded {A} (Q : key_state * bool → A + api_exn → Prop) key answer (m : api_task A) p :
  follows_key (λ p r, match r with
                      | inl a => Q p (inl a)
                      | inr e => match answer e with
                                 | Some x => acts_under key p.1 ∧ Q (match key with Some _ => Released | None => p.1 end, p.2) (inr (Http x))
                                 | None => Q p (inr e)
                                 end
                      end) p m →
  follows_key Q p (releasing key answer m).
Proof.
  intros Hm. apply follows_releasing. eapply task_follows_weaken; [|exact Hm]. intros [s acted] [a|e]; [done|]. cbn [fst snd].
  destruct (answer e) as [x|]; [|done]. intros [Hs HQ]. apply follows_release. by destruct key as [k|].
Qed.

(** The end of a mutation: the answer is stored. *)
Lemma follows_answer {A} (envelope : A → pydict) key (a : A) s acted :
  acts_under key s → follows_key (mutation_ends keyed envelope) (s, acted) (_ ← complete_key key (envelope a); mret a).
Proof.
  intros Hs. apply follows_mbind, follows_complete. destruct key as [k|].
  - split_and!; [exact Hs|by apply follows_mret|done].
  - destruct Hs as [-> Hk]. by apply follows_mret.
Qed.

(** An error after the key was released, or none was there. *)
Lemma ends_refused {A} (envelope : A → pydict) key s acted x :
  acts_under key s → mutation_ends keyed envelope (match key with Some _ => Released | None => s end, acted) (inr (Http x)).
Proof. intros Hs. left. destruct key as [k|]; [done|]. by destruct Hs as [-> _]. Qed.

End lemmas.

(** The protocol of a continued run also keeps the events the generator gave, as they are shown, and the events shown. *)
Definition history : Type := list pydict * list pydict.
Definition watch (h : history) (c : service) : reply c → history :=
  match c return reply c → history with
  | NextEvent _ => λ r, match r with Event e => (h.1 ++ [project_adk e], h.2) | _ => h end
  | Yield x => λ _, match x with EventFrame e => (h.1, h.2 ++ [e]) | _ => h end
  | _ => λ _, h
  end.
Definition continue_step (keyed : bool) (p : (key_state * bool) * history) (c : service) (r : reply c) : option ((key_state * bool) * history) :=
  (λ q, (q, watch p.2 c r)) <$> mutation_step keyed p.1 c r.

Section routes.
Context (trace : string) (p : Principal) (request : ApiRequest).
Notation keyed := (keyed_by request).

(** A mutation from its reservation on: an earlier answer is given again; else it acts, under its key
    if it has one. *)
Lemma follows_mutation {A} (envelope : A → pydict) body (again : pydict → api_task A) (act : option string → api_task A) :
  (∀ d, task_follows (mutation_step keyed) (mutation_ends keyed envelope) (Stored d, false) (again d)) →
  (∀ key s, acts_under keyed key s → task_follows (mutation_step keyed) (mutation_ends keyed envelope) (s, false) (act key)) →
  task_follows (mutation_step keyed) (mutation_ends keyed envelope) (Unkeyed, false)
    (kr ← reserve_mutation request body p; match kr with (_, Some replay) => again replay | (key, None) => act key end).
Proof.
  intros Hagain Hact. apply follows_mbind. apply follows_reserve_mutation.
  - intros Hk. apply Hact. by split.
  - intros k s Hs. by apply Hact.
  - intros k d. apply Hagain.
  - intros s x Hs. by left.
  - done.
Qed.

Lemma follows_visible_invocation (Q : key_state * bool → loc + api_exn → Prop) q sid iid :
  (∀ l, Q q (inl l)) → (∀ x, Q q (inr (Http x))) → (∀ e, Q q (inr (Other e))) →
  task_follows (mutation_step keyed) Q q (visible_invocation p sid iid).
Proof. intros Hok Hx He. apply follows_mbind, follows_read; [done..|]. intros r. by apply follows_refusable. Qed.

Lemma follows_visible_session (Q : key_state * bool → loc + api_exn → Prop) q sid :
  (∀ l, Q q (inl l)) → (∀ x, Q q (inr (Http x))) → (∀ e, Q q (inr (Other e))) →
  task_follows (mutation_step keyed) Q q (visible_session p sid).
Proof. intros Hok Hx He. apply follows_mbind, follows_read; [done..|]. intros r. by apply follows_refusable. Qed.

Lemma follows_stored d : task_follows (mutation_step keyed) (mutation_ends keyed (λ d, d)) (Stored d, false) (mret d : api_task pydict).
Proof. by apply follows_mret. Qed.

(** The guarded part of a mutation and what follows: every error it answers comes under the key it acts with. *)
Lemma follows_act {A B} (envelope : A → pydict) key answer (m : api_task B) (after : B → api_task A) s :
  acts_under keyed key s →
  task_follows (mutation_step keyed)
    (λ q r, match r with
            | inl b => task_follows (mutation_step keyed) (mutation_ends keyed envelope) q (after b)
            | inr (Http x) => q.1 = s ∧ is_some (answer (Http x)) = true
            | inr e => q.1 = s ∨ answer e = None
            end) (s, false) m →
  task_follows (mutation_step keyed) (mutation_ends keyed envelope) (s, false) (b ← releasing key answer m; after b).
Proof.
  intros Hs Hm. apply follows_mbind, follows_guarded. eapply task_follows_weaken; [|exact Hm]. clear Hm.
  intros [s' acted] [b|e]; [done|]. cbn [fst snd].
  destruct e as [x|e]; [intros [-> Ha]; destruct (answer (Http x)); [split; [done|by apply ends_refused]|done]|].
  destruct (answer (Other e)) eqn:Ha; [|done]. intros [->|?]; [|done]. split; [done|by apply ends_refused].
Qed.

(** An effect under the key. *)
Lemma follows_acting {A} (c : service) (f : reply c → result A) key s acted (Q : key_state * bool → A + api_exn → Prop) :
  acts_under keyed key s → effect c = true → (∀ r, key_step keyed true s c r = if effect c && negb (may_act keyed true s) then None else Some s) →
  (∀ a, Q (s, true) (inl a)) → (∀ e, Q (s, true) (inr (Other e))) →
  task_follows (mutation_step keyed) Q (s, acted) (attempt c f).
Proof.
  intros Hs He Hk Hok Hex. pose proof (acts_under_may _ _ _ Hs) as Hmay. apply follows_effect; try done.
  intros r. by rewrite Hk, He, Hmay.
Qed.

Lemma follows_enveloped key s l : acts_under keyed key s →
  task_follows (mutation_step keyed) (mutation_ends keyed (λ d, d)) (s, true)
    (envelope ← invocation_envelope trace l; _ ← complete_key key envelope; mret envelope).
Proof. intros Hs. apply follows_mbind, follows_envelope; [|by right]. intros d. by apply (follows_answer keyed (λ d, d)). Qed.

Lemma cancel_follows sid iid : task_follows (mutation_step keyed) (mutation_ends keyed (λ d, d)) (Unkeyed, false) (cancel_invocation trace p request sid iid).
Proof.
  apply follows_mbind, follows_visible_invocation; [|by left|done]. intros l. apply follows_mutation; [apply follows_stored|].
  intros key s Hs. apply follows_act; [done|]. apply follows_mbind, follows_read; [done..|]. intros delegated.
  apply follows_mbind, follows_read; [done..|]. intros i.
  assert (Hplain : ∀ Q : key_state * bool → loc + api_exn → Prop, (∀ l, Q (s, true) (inl l)) → (∀ e, Q (s, true) (inr (Other e))) →
    task_follows (mutation_step keyed) Q (s, false) (attempt (CancelInvocation sid iid) id)).
  { intros Q Hok He. by apply (follows_acting _ _ key). }
  destruct delegated as [r|]; [case_bool_decide|]; [|by apply Hplain; [intros l'; by apply follows_enveloped|left]..].
  apply follows_mbind, follows_mbind, follows_read; [done..|]. intros access. apply follows_refusable; [|done|by left].
  intros _. apply follows_mbind. apply (follows_acting _ _ key); [done..| |by left]. intros _. apply follows_mret. by apply follows_enveloped.
Qed.

Lemma pause_follows sid iid : task_follows (mutation_step keyed) (mutation_ends keyed (λ d, d)) (Unkeyed, false) (pause_invocation trace p request sid iid).
Proof.
  apply follows_mbind, follows_visible_invocation; [|by left|done]. intros l. apply follows_mutation; [apply follows_stored|].
  intros key s Hs. apply follows_act; [done|]. apply (follows_acting _ _ key); [done..| |by left]. intros l'. by apply follows_enveloped.
Qed.

Lemma policy_follows sid : task_follows (mutation_step keyed) (mutation_ends keyed snd) (Unkeyed, false) (update_session_policy trace p request sid).
Proof.
  apply follows_mbind, follows_json_object; [|by left|done]. intros body. destruct (idempotency_key request) as [k|] eqn:Hk.
  2: { apply follows_refuse. by left. }
  apply follows_mutation.
  - intros d. apply follows_mbind. destruct (replayed_policy d) as [status|e]; [by apply follows_mret, follows_mret|by apply task_follows_throw].
  - intros key s Hs. apply follows_act; [done|]. apply follows_mbind, follows_visible_session; [|done|by left]. intros l.
    assert (Hbad : task_follows (mutation_step keyed) (λ q r, match r with
      | inl b => task_follows (mutation_step keyed) (mutation_ends keyed snd) q
          (r ← (ask (LoadSession b) : api_task SessionRecord);
           _ ← complete_key key [("data", PDict (session_policy_revision r)); ("traceId", PStr trace)];
           mret (policy_status (bool_decide (s_policyStatus r = "applied")), [("data", PDict (session_policy_revision r)); ("traceId", PStr trace)]))
      | inr (Http x) => q.1 = s ∧ is_some (policy_errors (Http x)) = true
      | inr e => q.1 = s ∨ policy_errors e = None end) (s, false) (throw (Other (Py (PolicyUpdateInvalidError sid))) : api_task loc)).
    { apply task_follows_throw. by left. }
    destruct (revision_of _) as [expected|]; [|exact Hbad]. destruct (pget "policy" body); try exact Hbad.
    apply (follows_acting _ _ key); [done..| |by left]. intros l'. apply follows_mbind, follows_read; [done..|]. intros r.
    by apply (follows_answer keyed snd key (policy_status (bool_decide (s_policyStatus r = "applied")), _)).
Qed.

(** ** Prompts *)

Lemma follows_resolved key s sid type_ iid tid haas data : acts_under keyed key s →
  task_follows (mutation_step keyed) (mutation_ends keyed (λ d, d)) (s, true) (prompt_resolved trace p key sid type_ iid tid haas data).
Proof.
  intros Hs. apply follows_mbind, follows_visible_session; [|by right|done]. intros l. apply follows_mbind, follows_read; [done..|]. intros r.
  apply follows_mbind, follows_attempt; [done..| |done]. intros _. by apply (follows_answer keyed (λ d, d)).
Qed.

(** What the guarded part of a prompt's route leaves, for [follows_act]. *)
Definition prompt_part {A} (answer : api_exn → option HaasError) (after : prompt_outcome A → api_task pydict) s (q : key_state * bool) (r : prompt_outcome A + api_exn) : Prop :=
  match r with
  | inl b => task_follows (mutation_step keyed) (mutation_ends keyed (λ d, d)) q (after b)
  | inr (Http x) => q.1 = s ∧ is_some (answer (Http x)) = true
  | inr e => q.1 = s ∨ answer e = None
  end.

Lemma follows_answered_before {A} key (answer : api_exn → option HaasError) (after : prompt_outcome A → api_task pydict) s data :
  acts_under keyed key s → answer write_failed = None → (∀ d, after (AlreadyAnswered _ d) = mret d) →
  task_follows (mutation_step keyed) (prompt_part answer after s) (s, false) (answered_before trace key data).
Proof.
  intros Hs Ha Hafter. apply follows_mbind, follows_complete. destruct key as [k|].
  - split_and!; [exact Hs| |by right]. apply follows_mret. cbn. rewrite Hafter. by apply follows_mret.
  - apply follows_mret. cbn. rewrite Hafter. apply follows_mret. destruct Hs as [-> Hk]. exact Hk.
Qed.

Lemma follows_respond {Q : key_state * bool → unit + api_exn → Prop} key s acted i payload :
  acts_under keyed key s → (∀ a, Q (s, true) (inl a)) → (∀ e, Q (s, true) (inr (Other e))) →
  task_follows (mutation_step keyed) Q (s, acted) (respond i payload).
Proof.
  intros Hs Hok He. pose proof (acts_under_may _ _ _ Hs) as Hmay. apply follows_mbind, follows_ask. intros r. unfold mutation_step. cbn.
  rewrite Hmay. cbn. rewrite orb_true_r. destruct r; [by apply follows_mret|by apply task_follows_throw].
Qed.

Lemma approval_follows responds sid id :
  task_follows (mutation_step keyed) (mutation_ends keyed (λ d, d)) (Unkeyed, false) (resolve_approval trace p request responds sid id).
Proof.
  apply follows_mbind, follows_json_object; [|by left|done]. intros body. apply follows_mutation; [apply follows_stored|].
  intros key s Hs. apply follows_act; [done|].
  match goal with |- task_follows _ ?Q _ _ => change Q with (prompt_part approval_errors
    (λ outcome, match outcome with AlreadyAnswered _ envelope => mret envelope | NowResolved _ r =>
       prompt_resolved trace p key sid "haas.approval.resolved" (a_invocationId r) (a_turnId r)
         [("approvalId", PStr id); ("status", PStr (a_status r))] (approval_to_dict r) end) s) end.
  apply follows_mbind, follows_attempt; [done..| |by left]. intros _. apply follows_mbind, follows_read; [done..|]. intros [a|]; [|by apply follows_refuse].
  case_match; [by apply follows_refuse|]. apply follows_mbind, follows_read; [done..|]. intros [|]; cbn [negb]; [|by apply follows_refuse].
  apply follows_mbind. destruct (decision_known body) as [known|e]; [apply follows_mret|apply task_follows_throw; by left].
  case_match; [by apply follows_refuse|]. case_match.
  { case_match; [by apply follows_answered_before|by apply follows_refuse]. }
  assert (Hres : ∀ acted, task_follows (mutation_step keyed) (prompt_part approval_errors
    (λ outcome, match outcome with AlreadyAnswered _ envelope => mret envelope | NowResolved _ r =>
       prompt_resolved trace p key sid "haas.approval.resolved" (a_invocationId r) (a_turnId r)
         [("approvalId", PStr id); ("status", PStr (a_status r))] (approval_to_dict r) end) s) (s, acted)
    (r ← attempt (ResolveApproval id body) (λ r, r); mret (NowResolved _ r))).
  { intros acted. apply follows_mbind. apply (follows_acting _ _ key); [done..| |by left]. intros r. apply follows_mret. by apply follows_resolved. }
  apply follows_mbind. case_match; [|apply follows_mret, Hres]. apply (follows_respond key); [done|intros _; apply Hres|by left].
Qed.

Lemma input_follows responds sid id :
  task_follows (mutation_step keyed) (mutation_ends keyed (λ d, d)) (Unkeyed, false) (answer_input_request trace p request responds sid id).
Proof.
  apply follows_mbind, follows_visible_session; [|by left|done]. intros l0.
  apply follows_mbind, follows_json_object; [|by left|done]. intros body. apply follows_mutation; [apply follows_stored|].
  intros key s Hs. apply follows_act; [done|].
  match goal with |- task_follows _ ?Q _ _ => change Q with (prompt_part input_errors
    (λ outcome, match outcome with AlreadyAnswered _ envelope => mret envelope | NowResolved _ r =>
       prompt_resolved trace p key sid "haas.input.resolved" (q_invocationId r) (q_turnId r)
         [("inputRequestId", PStr id); ("status", PStr (q_status r))] (input_to_dict r) end) s) end.
  unfold answer. destruct (pget "answers" body) as [| | | | | |answers]; try by apply follows_refuse.
  apply follows_mbind, follows_attempt; [done..| |by left]. intros _. apply follows_mbind, follows_read; [done..|]. intros [a|]; [|by apply follows_refuse].
  case_match; [by apply follows_refuse|]. case_match; [by apply follows_refuse|]. case_match.
  { case_match; [by apply follows_answered_before|by apply follows_refuse]. }
  assert (Hres : ∀ acted, task_follows (mutation_step keyed) (prompt_part input_errors
    (λ outcome, match outcome with AlreadyAnswered _ envelope => mret envelope | NowResolved _ r =>
       prompt_resolved trace p key sid "haas.input.resolved" (q_invocationId r) (q_turnId r)
         [("inputRequestId", PStr id); ("status", PStr (q_status r))] (input_to_dict r) end) s) (s, acted)
    (r ← attempt (ResolveInput id body) (λ r, r); mret (NowResolved _ r))).
  { intros acted. apply follows_mbind. apply (follows_acting _ _ key); [done..| |by left]. intros r. apply follows_mret. by apply follows_resolved. }
  apply follows_mbind. case_match; [|apply follows_mret, Hres]. apply (follows_respond key); [done|intros _; apply Hres|by left].
Qed.

(** ** Continue *)

(** A call that the events of a run go through; the other calls leave the history as it is. *)
Definition watched (c : service) : bool := match c with NextEvent _ | Yield _ => true | _ => false end.
Definition unwatched (u : unit) (c : service) (_ : reply c) : option unit := if watched c then None else Some u.
Notation quiet := (task_follows unwatched (λ _ _, True) tt).

Lemma follows_lift {A} Q q h (m : api_task A) :
  quiet m → task_follows (mutation_step keyed) Q q m → task_follows (continue_step keyed) (λ p' r, p'.2 = h ∧ Q p'.1 r) (q, h) m.
Proof.
  intros Hq Hm s. specialize (Hq s). specialize (Hm s). destruct (m s) as [s1 t]. clear s s1. revert q Hm.
  induction t as [r|c k IH] using async_nested_ind; intros q Hm; cbn [follows] in *; [done|].
  intros r s. specialize (Hm r s). specialize (Hq r s). specialize (IH r s). unfold unwatched in Hq.
  destruct (watched c) eqn:Hw; [done|]. unfold continue_step at 1. cbn [fst snd].
  destruct (mutation_step keyed q c r) as [q'|]; [|done]. cbn [fmap option_fmap option_map].
  assert (watch h c r = h) as -> by (by destruct c). destruct (k r s) as [s' t']. by apply IH.
Qed.

Ltac hush := repeat (follow_step; try done); done.

Lemma quiet_wait k : quiet (wait_for_idempotency k).
Proof. by apply follows_wait. Qed.
Lemma quiet_visible sid iid : quiet (visible_invocation p sid iid).
Proof. unfold visible_invocation. hush. Qed.
Lemma quiet_json : quiet json_object.
Proof. unfold json_object. hush. Qed.
Lemma quiet_reserve body : quiet (reserve_mutation request body p).
Proof.
  unfold reserve_mutation, reserve_key. destruct (idempotency_key request) as [key|]; [|done].
  apply follows_mbind, follows_mbind, follows_inert; [done|]. intros [res|e]; [apply follows_mret|by apply task_follows_throw].
  case_match; [by apply follows_mret|]. apply follows_mbind. destruct (kr_result res) as [v|]; [by apply follows_mret, follows_mret|].
  eapply task_follows_weaken; [|apply quiet_wait]. intros [] [v|e] _; [by apply follows_mret|done].
Qed.
Lemma quiet_release key : quiet (release_key key).
Proof. unfold release_key. hush. Qed.
Lemma quiet_complete key v : quiet (complete_key key v).
Proof. unfold complete_key. hush. Qed.
Lemma quiet_accept key inv : quiet (accept_idempotency key inv).
Proof. unfold accept_idempotency. hush. Qed.

(** How the frames of a continued run may end: every event of the generator was shown, and the key was closed with exactly the
    shown events; or the subscriber was gone and the key is open. *)
Definition frames_end (inv sid : string) (expires : option Z) (p : (key_state * bool) * history) (r : unit + api_exn) : Prop :=
  p.2.1 = p.2.2 ∧
  match p.1.1 with
  | Completed v => v = run_result p.2.2 expires inv sid
  | Unkeyed => keyed = false
  | Granted _ | Abandoned _ => r = inr generator_exit ∧ length p.2.2 = 1%nat
  | _ => False
  end.

(** How [continue_invocation] may end: with the replay of an earlier result, or with the stream of the ids it closes its key
    with, when the generator's first event is there to be shown. *)
Definition continue_ends (p : (key_state * bool) * history) (r : response + api_exn) : Prop :=
  match r with
  | inl answer =>
      match p.1.1 with
      | Stored d => render_cached d true = Ok answer
      | _ => p.1.2 = true ∧ length p.2.1 = 1%nat ∧ p.2.2 = [] ∧ ∃ inv sid expires frames,
               answer = StreamResponse (accepted_headers (Some inv) (Some sid) (opt_int_val expires)) frames ∧
               task_follows (continue_step keyed) (frames_end inv sid expires) p frames
      end
  | inr (Http _) => key_closed p.1.1 = true ∨ p.1.2 = true
  | inr (Other _) => True
  end.

Lemma follows_show e q h (Q : _ → unit + api_exn → Prop) :
  Q (q, (h.1, h.2 ++ [e])) (inl tt) → Q (q, (h.1, h.2 ++ [e])) (inr generator_exit) →
  task_follows (continue_step keyed) Q (q, h) (yield (EventFrame e)).
Proof.
  intros Hok Hgone. apply follows_mbind, follows_ask. intros gone. unfold continue_step, mutation_step. cbn. rewrite orb_false_r.
  destruct q. destruct gone; [by apply task_follows_throw|by apply follows_mret].
Qed.

(** The loop has shown what it was given, and returns it. *)
Lemma follows_rest n g events key s (Q : _ → list pydict * option api_exn + api_exn → Prop) :
  acts_under keyed key s → (∀ events failed, Q (s, true, (events, events)) (inl (events, failed))) →
  task_follows (continue_step keyed) Q (s, true, (events, events)) (continue_rest n g events).
Proof.
  intros Hs HQ. pose proof (acts_under_may _ _ _ Hs) as Hmay. revert events. induction n as [|n IH]; intros events; cbn [continue_rest]; [by apply follows_mret|].
  apply follows_mbind, follows_ask. intros next. unfold continue_step at 1, mutation_step. cbn. rewrite Hmay. cbn.
  destruct next as [e| |e]; [|by apply follows_mret..].
  apply follows_mbind, follows_ask. intros gone. unfold continue_step at 1, mutation_step. cbn. destruct gone; [by apply follows_mret|apply IH].
Qed.

Lemma follows_frames n g key s expires first inv sid :
  acts_under keyed key s →
  task_follows (continue_step keyed) (frames_end inv sid expires) (s, true, ([first], [])) (continue_frames n g key expires first inv sid).
Proof.
  intros Hs. apply follows_mbind, follows_show; cbn [fst snd app].
  2: { split; [done|]. cbn. destruct key as [k|]; [by destruct Hs as [-> | ->]; split|by destruct Hs as [-> Hk]]. }
  apply follows_mbind. apply (follows_rest _ _ _ key); [done|]. intros events failed. apply follows_mbind.
  eapply task_follows_weaken; [|apply follows_lift; [apply quiet_complete|]].
  2: { apply (follows_complete keyed (s, true) key (run_result events expires inv sid)
         (λ q _, frames_end inv sid expires (q, (events, events)) (inl tt) ∧ key_closed q.1 = true)).
       destruct key as [k|]; [by split_and!|]. by destruct Hs as [-> Hk]. }
  intros [q h] r [Hh [[_ Hq] Hc]]. cbn [fst snd] in *. subst h.
  assert (Hend : ∀ r, frames_end inv sid expires (q, (events, events)) r) by (intros r'; split; [done|]; cbn; by destruct q as [[] ?]; try destruct Hq).
  destruct r as [u|e]; [|apply Hend]. destruct failed; [by apply task_follows_throw|by apply follows_mret].
Qed.

Lemma follows_accept key s acted inv (Q : key_state * bool → option Z + api_exn → Prop) :
  acts_under keyed key s → (∀ z, Q (s, acted) (inl z)) → (∀ e, Q (s, acted) (inr (Other e))) →
  task_follows (mutation_step keyed) Q (s, acted) (accept_idempotency key inv).
Proof.
  intros Hs Hok He. destruct key as [k|]; [|by apply follows_mret]. cbn [accept_idempotency]. apply follows_mbind, follows_ask. intros r.
  assert (mutation_step keyed (s, acted) (Accept k inv) r = Some (s, acted)) as ->.
  { unfold mutation_step. destruct Hs as [-> | ->]; cbn; rewrite bool_decide_eq_true_2 by done; cbn; by rewrite orb_false_r. }
  destruct r as [record|e]; cbn [unless_raised]; apply follows_mbind; [apply follows_mret|by apply task_follows_throw].
  apply follows_mbind, follows_read; [done..|]. intros [l|]; apply follows_mbind; [|by apply follows_mret, follows_mret].
  apply follows_mbind, follows_read; [done..|]. intros [[]|e]; [by apply follows_mret, follows_mret|by apply task_follows_throw].
Qed.

Lemma continue_started_follows n g key s e :
  acts_under keyed key s →
  task_follows (continue_step keyed) continue_ends (s, true, ([project_adk e], [])) (continue_started n g key e).
Proof.
  intros Hs. unfold continue_started. destruct (e_invocationId e) as [inv|].
  - apply follows_mbind. eapply task_follows_weaken; [|apply follows_lift; [apply quiet_accept|]].
    2: { apply (follows_accept key _ _ _ (λ q r, q = (s, true) ∧ match r with inr (Http _) => False | _ => True end)); [done..|by split]. }
    intros [q h] [z|[x|e']] [Hh [Hq Hr]]; [|done..]. cbn [fst snd] in *. subst. apply follows_mret.
    pose proof (follows_frames n g key s z (project_adk e) inv (e_sessionId e) Hs) as Hf.
    assert (Hend : ∃ inv' sid expires frames, _ = StreamResponse (accepted_headers (Some inv') (Some sid) (opt_int_val expires)) frames ∧
      task_follows (continue_step keyed) (frames_end inv' sid expires) (s, true, ([project_adk e], [])) frames)
      by (eexists _, _, _, _; split; [reflexivity|exact Hf]).
    cbn. destruct s; try (by split_and!). by destruct key as [k|]; [destruct Hs|destruct Hs].
  - apply follows_mbind. eapply task_follows_weaken; [|apply follows_lift; [apply quiet_release|]].
    2: { apply (follows_release keyed (s, true) key (λ q r, q.2 = true ∧ r = inl tt)). by destruct key as [k|]. }
    intros [q h] [u|e'] (_ & Hq & Hr); [|done]. apply follows_refuse. by right.
Qed.

Lemma continue_act_follows n g key s :
  acts_under keyed key s →
  task_follows (continue_step keyed) continue_ends (s, false, ([], [])) (first ← releasing key continue_errors (first_event g); continue_started n g key first).
Proof.
  intros Hs. pose proof (acts_under_may _ _ _ Hs) as Hmay.
  assert (Hc : ∀ x, task_follows (continue_step keyed)
    (λ p'' r, match r with inl _ => continue_ends p'' (inr (Http x)) | inr e => continue_ends p'' (inr e) end) (s, true, ([], [])) (release_key key)).
  { intros x. eapply task_follows_weaken; [|apply follows_lift; [apply quiet_release|]].
    2: { apply (follows_release keyed (s, true) key (λ q r, q.2 = true ∧ r = inl tt)). by destruct key as [k|]. }
    intros [q h] [u|e'] (_ & Hq & Hr); [by right|done]. }
  apply follows_mbind, follows_releasing, follows_mbind, follows_ask. intros next. unfold continue_step at 1, mutation_step. cbn. rewrite Hmay. cbn.
  destruct next as [e| |e]; [by apply follows_mret, continue_started_follows|apply task_follows_throw..].
  - exact (Hc session_busy).
  - destruct (continue_errors (Other (Py e))); [exact (Hc session_busy)|done].
Qed.

Lemma continue_follows n sid iid :
  task_follows (continue_step keyed) continue_ends (Unkeyed, false, ([], [])) (continue_invocation p request n sid iid).
Proof.
  apply follows_mbind. eapply task_follows_weaken; [|apply follows_lift; [apply quiet_visible|]].
  2: { apply (follows_visible_invocation (λ q r, q = (Unkeyed, false))); done. }
  intros [q h] r (Hh & Hq). cbn [fst snd] in *. subst. destruct r as [l|[x|e]]; [|by left|done].
  apply follows_mbind. eapply task_follows_weaken; [|apply follows_lift; [apply quiet_json|]].
  2: { apply (follows_json_object keyed (λ q r, q = (Unkeyed, false))); done. }
  intros [q h] r (Hh & Hq). cbn [fst snd] in *. subst. destruct r as [body|[x|e]]; [|by left|done].
  destruct (instruction_of body) as [instruction|]; [|apply follows_refuse; by left].
  apply follows_mbind. eapply task_follows_weaken; [|apply follows_lift; [apply quiet_reserve|]].
  2: { apply (follows_reserve_mutation request body p (λ q r,
         q.2 = false ∧ match r with
         | inl (key, None) => acts_under keyed key q.1
         | inl (_, Some d) => q.1 = Stored d
         | inr (Http _) => key_closed q.1 = true
         | inr (Other _) => True
         end)); try done. }
  intros [[s acted] h] r (Hh & Ha & Hr). cbn [fst snd] in *. subst. destruct r as [[key [d|]]|[x|e]]; [|by apply continue_act_follows|by left|done].
  subst. destruct (render_cached d true) as [answer|e] eqn:Hd; cbn [unless_raised]; [by apply follows_mret|by apply task_follows_throw].
Qed.

(** C8: Every mutation keeps to its key.  Whatever the store, the runtime and the harness answer and
    whatever other requests do: a mutation acts only without an [Idempotency-Key], under a key granted
    to it, or under one whose holder gave it back; it never touches a key it does not act under, and
    closes it once; what it answers is the stored answer of an earlier request (for a continued run: the rendering of the stored
    result), or is stored as the key's; an error it answers leaves no key open unless the mutation has acted.  A
    continued run answers with a stream, whose frames show every event the generator gives, in its
    order, and close the key with exactly the events shown and the ids of the stream's headers; only when the subscriber is
    gone at the first event does the key stay open. *)
Theorem mutations_keep_their_key :
  (∀ sid iid, task_follows (mutation_step keyed) (mutation_ends keyed (λ d, d)) (Unkeyed, false) (cancel_invocation trace p request sid iid)) ∧
  (∀ sid iid, task_follows (mutation_step keyed) (mutation_ends keyed (λ d, d)) (Unkeyed, false) (pause_invocation trace p request sid iid)) ∧
  (∀ responds sid id, task_follows (mutation_step keyed) (mutation_ends keyed (λ d, d)) (Unkeyed, false) (resolve_approval trace p request responds sid id)) ∧
  (∀ responds sid id, task_follows (mutation_step keyed) (mutation_ends keyed (λ d, d)) (Unkeyed, false) (answer_input_request trace p request responds sid id)) ∧
  (∀ sid, task_follows (mutation_step keyed) (mutation_ends keyed snd) (Unkeyed, false) (update_session_policy trace p request sid)) ∧
  (∀ n sid iid, task_follows (continue_step keyed) continue_ends (Unkeyed, false, ([], [])) (continue_invocation p request n sid iid)).
Proof.
  split_and!; [apply cancel_follows|apply pause_follows|apply approval_follows|apply input_follows|apply policy_follows|apply continue_follows].
Qed.

End routes.

(** ** What reaches the harness is checked *)

(** The prompt last read with the id it was asked by, if it waits in this session; whether the caller
    may see the session; and whether the harness has taken an answer. *)
Record prompt_state := mkPromptState { pp_found : option (string * interaction); pp_access : bool; pp_sent : bool }.

(** An answer that fits its prompt. *)
Definition payload_fits (i : interaction) (payload : pydict) : bool :=
  match i with
  | Approval _ => match decision_known payload with Ok known => known | Raise _ => false end && py_eqb (pget "scope" payload) (PStr "action")
  | Input r => match pget "answers" payload with PDict answers => answers_fit (q_questions r) answers | _ => false end
  end.
Definition takes_native (i : interaction) : bool := match i with Approval a => is_some (a_nativeRequestId a) | Input _ => true end.

Definition waits_in (session_id : string) (i : interaction) : bool :=
  match i with
  | Approval a => bool_decide (a_status a = "waiting") && bool_decide (a_sessionId a = session_id)
  | Input a => bool_decide (q_status a = "waiting") && bool_decide (q_sessionId a = session_id)
  end.
Definition read_prompt (session_id id : string) (found : option interaction) (q : prompt_state) : prompt_state :=
  mkPromptState (match found with Some i => if waits_in session_id i then Some (id, i) else None | None => None end) (pp_access q) false.

(** Sending needs the waiting prompt, the caller's access and an answer that fits; resolving the
    record needs the same and, where the harness waits, that it took the answer. *)
Definition may_send (q : prompt_state) (i : interaction) (payload : pydict) : bool :=
  match pp_found q with
  | Some (_, i') => bool_decide (interaction_id i' = interaction_id i) && pp_access q && payload_fits i' payload && negb (pp_sent q)
  | None => false
  end.
Definition may_resolve (responds : bool) (q : prompt_state) (id : string) (payload : pydict) : bool :=
  match pp_found q with
  | Some (id', i) => bool_decide (id' = id) && pp_access q && payload_fits i payload && (pp_sent q || negb (responds && takes_native i))
  | None => false
  end.

Definition prompt_step (responds : bool) (session_id : string) (q : prompt_state) (c : service) : reply c → option prompt_state :=
  match c return reply c → option prompt_state with
  | GetApproval id => λ r, Some (read_prompt session_id id (Approval <$> r) q)
  | GetInputRequest id => λ r, Some (read_prompt session_id id (Input <$> r) q)
  | HasSessionAccess _ sid => λ r, Some (mkPromptState (pp_found q) (r && bool_decide (sid = session_id)) (pp_sent q))
  | ResolveSession _ sid => λ r, Some (mkPromptState (pp_found q) (is_ok r && bool_decide (sid = session_id)) (pp_sent q))
  | Respond i payload => λ r,
      if may_send q i payload then Some (mkPromptState (pp_found q) (pp_access q) (match r with inl _ => true | inr _ => false end)) else None
  | ResolveApproval id payload => λ _, if may_resolve responds q id payload then Some q else None
  | ResolveInput id payload => λ _, if may_resolve responds q id payload then Some q else None
  | UpdatePolicy _ _ _ | CancelDelegated _ _ | CancelInvocation _ _ | PauseInvocation _ _ | NextEvent _ | RunToEnd _ => λ _, None
  | _ => λ _, Some q
  end.

Section checked.
Context (trace : string) (p : Principal) (request : ApiRequest) (responds : bool) (sid : string).
Notation follows_prompt := (task_follows (prompt_step responds sid)).

Definition anyhow {A} (q : prompt_state) (r : A + api_exn) : Prop := True.

Lemma follows_calm {A} (c : service) (f : reply c → result A) Q q :
  inert (prompt_step responds sid) c → (∀ r, Q q r) → follows_prompt Q q (attempt c f).
Proof. intros Hc HQ. apply follows_mbind, follows_inert; [done|]. intros r. destruct (f r); [by apply follows_mret|by apply task_follows_throw]. Qed.

Lemma calm_release key (Q : prompt_state → unit + api_exn → Prop) q : (∀ r, Q q r) → follows_prompt Q q (release_key key).
Proof. intros HQ. destruct key as [k|]; [by apply follows_inert|by apply follows_mret]. Qed.
Lemma calm_complete key v (Q : prompt_state → unit + api_exn → Prop) q : (∀ r, Q q r) → follows_prompt Q q (complete_key key v).
Proof.
  intros HQ. destruct key as [k|]; [|by apply follows_mret]. apply follows_mbind, follows_inert; [done|].
  intros [|]; [by apply task_follows_throw|by apply follows_mret].
Qed.

Lemma calm_json (Q : prompt_state → pydict + api_exn → Prop) q : (∀ r, Q q r) → follows_prompt Q q json_object.
Proof.
  intros HQ. apply follows_mbind, follows_inert; [done|]. intros [v|e].
  - destruct v; first [by apply follows_refuse|by apply follows_mret].
  - destruct e; first [by apply follows_refuse|by apply task_follows_throw].
Qed.

Lemma calm_reserve body (Q : prompt_state → option string * option pydict + api_exn → Prop) q :
  (∀ r, Q q r) → follows_prompt Q q (reserve_mutation request body p).
Proof.
  intros HQ. unfold reserve_mutation. destruct (idempotency_key request) as [key|]; [|by apply follows_mret].
  apply follows_mbind, follows_mbind, follows_inert; [done|]. intros [res|e]; [apply follows_mret|by apply task_follows_throw].
  case_match; [by apply follows_mret|]. apply follows_mbind. destruct (kr_result res) as [v|]; [by apply follows_mret, follows_mret|].
  apply follows_wait; [done..| |done|done]. apply follows_inert; [done|]. intros r. by apply follows_mret.
Qed.

Lemma calm_guarded {A} key answer (m : api_task A) Q q :
  follows_prompt (λ q r, match r with inl a => Q q (inl a) | inr _ => True end) q m → (∀ q e, Q q (inr e)) → follows_prompt Q q (releasing key answer m).
Proof.
  intros Hm HQ. apply follows_releasing. eapply task_follows_weaken; [|exact Hm]. intros q' [a|e] Ha; [done|].
  destruct (answer e); [|by apply HQ]. apply calm_release. intros [u|e']; apply HQ.
Qed.

Lemma calm_resolved key type_ iid tid haas data q : follows_prompt anyhow q (prompt_resolved trace p key sid type_ iid tid haas data).
Proof.
  apply follows_mbind, follows_mbind, follows_ask. intros [l|e]; cbn; [apply follows_mret|by apply task_follows_throw].
  apply follows_mbind, follows_inert; [done|]. intros r. apply follows_mbind, follows_calm; [done|]. intros [u|e]; [|done].
  apply follows_mbind, calm_complete. intros [u'|e]; [by apply follows_mret|done].
Qed.

Lemma read_waiting id i q : waits_in sid i = true → read_prompt sid id (Some i) q = mkPromptState (Some (id, i)) (pp_access q) false.
Proof. intros Hw. unfold read_prompt. by rewrite Hw. Qed.

Lemma calm_before {A} key data q : follows_prompt (λ q (r : prompt_outcome A + api_exn), match r with inl (AlreadyAnswered _ d) => True | inl _ => False | inr _ => True end) q (answered_before trace key data).
Proof. apply follows_mbind, calm_complete. intros [u|e]; [by apply follows_mret|done]. Qed.

End checked.

Section prompts.
Context (trace : string) (p : Principal) (request : ApiRequest) (responds : bool) (sid : string).
Notation follows_prompt := (task_follows (prompt_step responds sid)).

(** C9: What reaches the harness is checked.  Whatever the services answer and other requests do, the
    routes for prompts send an answer to the harness only for a prompt they have just read as
    waiting in this session, once, for a caller who may see the session, and only if it fits the prompt
    (a known decision for the action; values or a reference for every question asked and no other);
    the record is resolved only after the same checks, and not before the harness took the answer. *)
Theorem prompt_answers_checked access id :
  follows_prompt anyhow (mkPromptState None access false) (resolve_approval trace p request responds sid id) ∧
  follows_prompt anyhow (mkPromptState None access false) (answer_input_request trace p request responds sid id).
Proof.
  split.
  - apply follows_mbind, calm_json. intros [body|e]; [|done]. apply follows_mbind, calm_reserve. intros [[key [d|]]|e]; [by apply follows_mret| |done].
    apply follows_mbind, calm_guarded; [|done]. apply follows_mbind, follows_calm; [done|]. intros [u|e]; [|done].
    apply follows_mbind, follows_ask. intros [a|]; [|by apply follows_refuse]. cbn [prompt_step fmap option_fmap option_map read_prompt].
    case_match eqn:Hsid; [by apply follows_refuse|]. apply negb_false_iff in Hsid.
    apply follows_mbind, follows_ask. intros acc. cbn [prompt_step pp_found pp_sent]. destruct acc; cbn [negb]; [|by apply follows_refuse].
    apply follows_mbind. destruct (decision_known body) as [known|e] eqn:Hk; [apply follows_mret|by apply task_follows_throw].
    case_match eqn:Hfit; [by apply follows_refuse|]. apply orb_false_iff in Hfit as [Hk'%negb_false_iff Hscope%negb_false_iff].
    case_match eqn:Hw.
    { case_match; [|by apply follows_refuse]. eapply task_follows_weaken; [|apply calm_before]. intros q [[d|r]|e]; [by intros _; apply follows_mret|done|done]. }
    apply negb_false_iff in Hw. rewrite read_waiting by (cbn; by rewrite Hw, Hsid). cbn [pp_found pp_access pp_sent].
    rewrite (bool_decide_eq_true_2 (sid = sid)) by done. cbn [andb].
    assert (Hok : payload_fits (Approval a) body = true) by (cbn; by rewrite Hk, Hk', Hscope).
    apply follows_mbind. case_match eqn:Hn.
    + apply follows_mbind, follows_ask. intros r. cbn [prompt_step]. unfold may_send. cbn [pp_found pp_access pp_sent].
      rewrite bool_decide_eq_true_2, Hok by done. cbn [andb negb]. destruct r as [u'|e]; [apply follows_mret|by apply task_follows_throw].
      apply follows_mbind, follows_mbind, follows_ask. intros r. cbn [prompt_step]. unfold may_resolve. cbn [pp_found pp_access pp_sent].
      rewrite bool_decide_eq_true_2, Hok by done. cbn [andb orb]. destruct r; [by apply follows_mret, follows_mret, calm_resolved|by apply task_follows_throw].
    + apply follows_mret, follows_mbind, follows_mbind, follows_ask. intros r. cbn [prompt_step]. unfold may_resolve. cbn [pp_found pp_access pp_sent].
      rewrite bool_decide_eq_true_2, Hok by done. cbn [takes_native]. rewrite Hn. cbn [andb orb negb].
      destruct r; [by apply follows_mret, follows_mret, calm_resolved|by apply task_follows_throw].
  - apply follows_mbind, follows_mbind, follows_ask. intros [l|e]; cbn [prompt_step is_ok unless_refused]; [apply follows_mret|by apply task_follows_throw].
    rewrite (bool_decide_eq_true_2 (sid = sid)) by done. cbn [andb].
    apply follows_mbind, calm_json. intros [body|e]; [|done]. apply follows_mbind, calm_reserve. intros [[key [d|]]|e]; [by apply follows_mret| |done].
    apply follows_mbind, calm_guarded; [|done]. unfold answer. destruct (pget "answers" body) as [| | | | | |answers] eqn:Hans; try by apply follows_refuse.
    apply follows_mbind, follows_calm; [done|]. intros [u|e]; [|done].
    apply follows_mbind, follows_ask. intros [a|]; [|by apply follows_refuse]. cbn [prompt_step fmap option_fmap option_map read_prompt].
    case_match eqn:Hsid; [by apply follows_refuse|]. apply negb_false_iff in Hsid.
    case_match eqn:Hfit; [by apply follows_refuse|]. apply negb_false_iff in Hfit.
    case_match eqn:Hw.
    { case_match; [|by apply follows_refuse]. eapply task_follows_weaken; [|apply calm_before]. intros q [[d|r]|e]; [by intros _; apply follows_mret|done|done]. }
    apply negb_false_iff in Hw. rewrite read_waiting by (cbn; by rewrite Hw, Hsid). cbn [pp_found pp_access pp_sent].
    assert (Hok : payload_fits (Input a) body = true) by (cbn; by rewrite Hans).
    apply follows_mbind. destruct responds.
    + apply follows_mbind, follows_ask. intros r. cbn [prompt_step]. unfold may_send. cbn [pp_found pp_access pp_sent].
      rewrite bool_decide_eq_true_2, Hok by done. cbn [andb negb]. destruct r as [u'|e]; [apply follows_mret|by apply task_follows_throw].
      apply follows_mbind, follows_mbind, follows_ask. intros r. cbn [prompt_step]. unfold may_resolve. cbn [pp_found pp_access pp_sent].
      rewrite bool_decide_eq_true_2, Hok by done. cbn [andb orb]. destruct r; [by apply follows_mret, follows_mret, calm_resolved|by apply task_follows_throw].
    + apply follows_mret, follows_mbind, follows_mbind, follows_ask. intros r. cbn [prompt_step]. unfold may_resolve. cbn [pp_found pp_access pp_sent].
      rewrite bool_decide_eq_true_2, Hok by done. cbn [andb orb negb]. destruct r; [by apply follows_mret, follows_mret, calm_resolved|by apply task_follows_throw].
Qed.

End prompts.

End protocol.

(** ** Examples *)

Module ControlExamples.
Import ApiExamples.
#[local] Instance no_repr : PyRepr := λ _, "".
#[local] Instance digest : Sha256 := λ s, s.
#[local] Instance sorted : SortedJson := λ _, "{}".

Definition keyed_request : ApiRequest := mkApiRequest "POST" "/path" (Some "key").

(** A request without a key, whose prompt, body and so on are what the override says. *)
Definition waiting : ApprovalRecord := mkApproval "appr_1" "s" "inv_1" "turn_1" "waiting" [] None (Some (RidInt 1)) (Some 1) None 1 0 None.
Definition approve_body (decision : pyval) : pydict := [("decision", decision); ("scope", PStr "action")].

(** *** A key given back is used by everyone who waited for it

    The holder of a key gave it back without a result.  Every request that waited for the key goes on
    and acts, with no reservation of its own. *)
Definition given_back (c : service) : reply c :=
  match c return reply c with
  | Reserve k _ => Ok (mkReservation k true None)
  | PauseInvocation _ iid => Raise (InvocationNotRunningError iid)
  | c => quiet c
  end.
Example waiters_act_without_the_key :
  (play given_back (pause_invocation "tr" caller keyed_request "s" "inv_1") no_stream).2 =
  inr (Http (invalid_request 409 "haas_invocation_not_running")).
Proof. by vm_compute. Qed.

(** *** A resolved prompt is answered with not found

    The prompt is answered and resolved; then its session cannot be resolved, because two sessions share
    the id ([ApiExamples.access_without_resolution]).  The caller gets a 404 and the key stays open. *)
Definition ambiguous (c : service) : reply c :=
  match c return reply c with
  | ReadBody => Ok (PDict (approve_body (PStr "approved")))
  | GetApproval _ => Some waiting
  | ResolveApproval _ _ => Ok (waiting <| a_status := "approved" |>)
  | ResolveSession _ _ => Raise (DelegatedApi.haas_error "session_not_found")
  | Release _ => tt
  | c => quiet c
  end.
Example resolved_prompt_not_found :
  (play ambiguous (resolve_approval "tr" caller keyed_request true "s" "appr_1") no_stream).2 = inr (Http (not_found "session_not_found")) ∧
  ∀ key s, acts_under true key s → task_follows (mutation_step true) (λ q r, q = (s, true) ∨ (∃ d, q = (Completed d, true)) ∨ ∃ d, q.1 = Unkeyed ∧ r = inl d) (s, true)
    (prompt_resolved "tr" caller key "s" "haas.approval.resolved" "inv_1" "turn_1" [] []).
Proof.
  split; [by vm_compute|]. intros key s Hs.
  apply follows_mbind. unfold visible_session. apply follows_mbind, follows_read; [done..|]. intros r. apply follows_refusable; [|by left..].
  intros l. apply follows_mbind, follows_read; [done..|]. intros rec. apply follows_mbind, follows_attempt; [done..| |by left]. intros u.
  apply follows_mbind, follows_complete. destruct key as [k|]; [split_and!; [exact Hs| |]|].
  - apply follows_mret. right. left. by eexists.
  - right. left. by eexists.
  - apply follows_mret. right. right. eexists. split; [by destruct Hs|reflexivity].
Qed.

(** *** An unhashable decision leaves the key open

    A decision that is a list raises [TypeError], which no clause catches. *)
Definition listed (c : service) : reply c :=
  match c return reply c with
  | ReadBody => Ok (PDict (approve_body (PList [])))
  | GetApproval _ => Some waiting
  | c => quiet c
  end.
Example unhashable_decision_raises :
  (play listed (resolve_approval "tr" caller keyed_request true "s" "appr_1") no_stream).2 = inr (Other (Py TypeError)).
Proof. by vm_compute. Qed.

(** *** Deleting a session that does not exist destroys a container

    The container is found by the bare session id and destroyed before the session is looked for; with
    another application name in the path the answer is a 404. *)
Definition delegated : DelegatedSessionRecord := DockerExamples.session_with [] DockerExamples.never_started.
Definition other_app (c : service) : reply c :=
  match c return reply c with
  | GetDelegated _ => Some delegated
  | DestroyDelegated r _ => Ok (ds_runtime r)
  | UpdateDelegatedRuntime _ _ => Ok delegated
  | DeleteSession _ _ sid => Raise (SessionNotFoundError sid)
  | c => quiet c
  end.
Example missing_session_destroys_container :
  (play other_app (delete_session_route caller "other" "u" "s") no_stream).2 = inr (Http (not_found "session_not_found")) ∧
  (play (λ c, match c return reply c with DestroyDelegated _ _ => Raise (DelegatedContainerUnavailable "asked") | c => other_app c end)
     (delete_session_route caller "other" "u" "s") no_stream).2 = inr (Other (Py (DelegatedContainerUnavailable "asked"))).
Proof. by vm_compute. Qed.

(** *** A subscriber that leaves decides what a replay shows

    A subscriber of a continued run that leaves at the first event leaves the key open for good; one that
    leaves later closes it with the events shown so far, which every retry then gets as the whole run. *)
Definition endless (gone_at : bool) (c : service) : reply c :=
  match c return reply c with
  | NextEvent _ => Event an_event
  | Yield _ => gone_at
  | c => quiet c
  end.
Example leaving_subscriber_keeps_key_open expires :
  ∀ n g first, (play (endless true) (continue_frames n g (Some "k") expires first "inv_1" "s") no_stream).2 = inr generator_exit ∧
    task_follows (continue_step (keyed_by keyed_request)) (frames_end keyed_request "inv_1" "s" expires) (Granted "k", true, ([first], []))
      (continue_frames n g (Some "k") expires first "inv_1" "s").
Proof. intros n g first. split; [done|]. apply follows_frames. by left. Qed.

End ControlExamples.
