(* ===== verification/RunProtocol.v ===== *)
(** * What the two kinds of runs share (haas/api.py)

    The queue between a run's producer and its frames, the admission lease, and the protocol of a run:
    its idempotency key, its admission lease, the session lease of a delegated run and its events. *)

From S2P Require Import Prelude Errors Dict PyVal Records Store Events Sessions Admission.
From S2P Require Import CodexTurn Async Adapter Api ControlApi.

#[local] Open Scope string_scope.
#[local] Open Scope list_scope.
#[local] Open Scope Z_scope.

(** ** The queue and the lease *)

Definition queue_full (s : SseState) : bool := negb (bool_decide (ss_maxsize s = 0%nat)) && (ss_maxsize s <=? length (ss_queue s))%nat.
Definition push (f : option sse_frame) (s : SseState) : SseState := s <| ss_queue := ss_queue s ++ [f] |>.

Definition release_lease (lease : option string) : api_task unit :=
  match lease with Some l => (ask (ReleaseRun l) : api_task unit) | None => mret tt end.

Definition settle_and_refuse {A} (key lease : option string) (e : HaasError) : api_task A :=
  _ ← release_key key; _ ← release_lease lease; refuse e.

(** [except HaasError: release both; raise] *)
Definition settling {A} (key lease : option string) (m : api_task A) : api_task A :=
  task_try m (λ e, match e with Http x => settle_and_refuse key lease x | e => throw e end).

(** The [finally] of the frames: the producer's exception is raised where the stream ends. *)
Definition frames_end : api_task unit :=
  _ ← alter (λ s, s <| ss_disconnected := true |>);
  done ← look ss_done;
  match done with Some (inr e) => throw (Other e) | _ => mret tt end.

(** ** The protocol of a run *)

(** The admission lease: not asked for, refused, held (some admissions have no lease id), given back. *)
Inductive lease_state := NotAdmitted | Refused | Leased (l : option string) | Returned.

(** The session lease of a delegated run: not taken, held under a token, given back. *)
Inductive session_lease := NoLease | Held (key : SessionKey) (holder : string) (token : Z) | GivenBack.
#[export] Instance session_lease_eq : EqDecision session_lease := ltac:(solve_decision).

(** A delegated run: its lease, whether it holds the workspace, the status it ended with, and whether
    it is closing. *)
Record turn_state := mkTurnState { ts_lease : session_lease; ts_locked : bool; ts_status : option string; ts_closing : bool }.
#[export] Instance eta_turn_state : Eta turn_state := λ t, mkTurnState (ts_lease t) (ts_locked t) (ts_status t) (ts_closing t).
Definition no_turn : turn_state := mkTurnState NoLease false None false.

Record run_state := mkRunState { rp_key : key_state; rp_lease : lease_state; rp_events : list pydict; rp_turn : turn_state }.
#[export] Instance eta_run_state : Eta run_state := λ s, mkRunState (rp_key s) (rp_lease s) (rp_events s) (rp_turn s).

(** The key a run has, as its coroutines carry it. *)
Definition own (keyed : bool) (key : option string) (s : key_state) : Prop :=
  match key with Some k => s = Granted k | None => s = Unkeyed ∧ keyed = false end.

Definition lease_step (s : run_state) (c : service) : reply c → option lease_state :=
  match c return reply c → option lease_state with
  | AdmitRun _ => λ d, match rp_lease s with
                       | NotAdmitted => Some (if ad_allowed d then Leased (ad_leaseId d) else Refused)
                       | _ => None
                       end
  | ReleaseRun x => λ _, match rp_lease s with Leased (Some x') => if bool_decide (x = x') then Some Returned else None | _ => None end
  | NextEvent _ | RunToEnd _ | AcquireLease _ _ | NextWorkerEvent _ _ =>
      λ _, match rp_lease s with Leased l => Some (Leased l) | _ => None end
  | _ => λ _, Some (rp_lease s)
  end.

Definition held (t : turn_state) : bool := match ts_lease t with Held _ _ _ => true | _ => false end.

(** A session is written, its container started and its worker heard only under the session's lease;
    the container runs only while the workspace is locked. *)
Definition turn_step (t : turn_state) (c : service) : reply c → option turn_state :=
  match c return reply c → option turn_state with
  | AcquireLease key holder => λ r,
      match ts_lease t with
      | NoLease => Some (match r with Ok l => t <| ts_lease := Held key holder (l_token l) |> | Raise _ => t end)
      | _ => None
      end
  | ReleaseLease key holder token => λ _,
      if bool_decide (ts_lease t = Held key holder token) then Some (t <| ts_lease := GivenBack |>) else None
  | StoreSession _ | StoreInvocation _ | StoreTurn _ | MergeState _ _ | PutInvocation _ | PutTurn _ | AppendEvent _ _ _
  | UpdateDelegatedRuntime _ _ => λ _, if held t then Some t else None
  | AcquireWorkspace _ _ _ _ => λ r,
      if held t && negb (ts_locked t) then Some (match r with Ok l => t <| ts_locked := w_acquired l |> | Raise _ => t end) else None
  | ReleaseWorkspace _ _ => λ _, if held t && ts_locked t then Some (t <| ts_locked := false |>) else None
  | RestoreDelegated _ | NextWorkerEvent _ _ => λ _, if held t && ts_locked t then Some t else None
  | EndTurn _ _ status => λ _, if held t then Some (t <| ts_status := Some status |>) else None
  | CompleteTurn _ _ _ => λ _, if held t then Some (t <| ts_closing := true |>) else None
  | _ => λ _, Some t
  end.

Section protocol.
Context `{PyRepr} (keyed : bool).

Definition seen_events (s : run_state) (c : service) : reply c → list pydict :=
  match c return reply c → list pydict with
  | NextEvent _ => λ r, match r with Event e => rp_events s ++ [project_adk e] | _ => rp_events s end
  | AppendEvent _ _ _ => λ r, match r with Ok e => rp_events s ++ [project_adk e] | Raise _ => rp_events s end
  | _ => λ _, rp_events s
  end.

(** Nothing is admitted before the key is the request's own, and nothing runs before it is admitted. *)
Definition run_step (s : run_state) (c : service) (r : reply c) : option run_state :=
  match key_step keyed false (rp_key s) c r, lease_step s c r, turn_step (rp_turn s) c r with
  | Some k, Some l, Some t =>
      if match c with AdmitRun _ => may_act keyed false (rp_key s) | _ => true end
      then Some (mkRunState k l (seen_events s c r) t) else None
  | _, _, _ => None
  end.

Definition lease_settled (s : run_state) : bool := match rp_lease s with Leased (Some _) => false | _ => true end.

(** How a turn may end. *)
Definition END_STATUSES : list string := ["completed"; "failed"; "cancelled"; "incomplete"].
Definition turn_over (t : turn_state) : bool :=
  match ts_lease t with
  | NoLease => true
  | Held _ _ _ => false
  | GivenBack => match ts_status t with Some status => bool_decide (status ∈ END_STATUSES) | None => false end
  end.
Definition settled (s : run_state) : bool := lease_settled s && key_closed (rp_key s) && turn_over (rp_turn s).

(** The producer of a stream ends with the admission lease given back; and, if nothing but a failed
    turn ended the loop over its events, with its turn over and the key closed by the events it has seen. *)
Definition producer_ends (s : run_state) (r : unit + api_exn) : Prop :=
  lease_settled s = true ∧
  (r = inl tt → turn_over (rp_turn s) = true ∧
                match rp_key s with
                | Completed v => pget "events" v = PList (PDict <$> rp_events s)
                | k => k = Unkeyed
                end).

Definition run_ends (s : run_state) (r : response + api_exn) : Prop :=
  match r with
  | inl (ProducedResponse _ producer frames) =>
      task_follows run_step producer_ends s producer ∧ task_follows run_step (λ s' _, s' = s) s frames
  | inl _ => settled s = true
  | inr (Http x) => settled s = true ∨ x_code x = "haas_store_unavailable"
  | inr (Other _) => True
  end.

(** ** Rules *)

Notation follows_run := (task_follows run_step).

(** A call that neither the key, the leases nor the events take notice of. *)
Definition run_quiet (c : service) : Prop :=
  (∀ s r, key_step keyed false s c r = Some s) ∧ (∀ s r, lease_step s c r = Some (rp_lease s)) ∧ (∀ t r, turn_step t c r = Some t) ∧
  (∀ s r, seen_events s c r = rp_events s) ∧ match c with AdmitRun _ => False | _ => True end.

Lemma run_inert c : run_quiet c → inert run_step c.
Proof. intros (Hk & Hl & Ht & He & Hc) [k l es t] r. unfold run_step. rewrite Hk, Hl, Ht, He. by destruct c. Qed.

Lemma follows_plain (c : service) (Q : run_state → reply c + api_exn → Prop) s :
  (∀ s r, key_step keyed false s c r = Some s) ∧ (∀ s r, lease_step s c r = Some (rp_lease s)) ∧ (∀ t r, turn_step t c r = Some t) ∧
  (∀ s r, seen_events s c r = rp_events s) ∧ match c with AdmitRun _ => False | _ => True end →
  (∀ r, Q s (inl r)) → follows_run Q s (ask c).
Proof. intros Hc HQ. apply follows_inert; [by apply run_inert|done]. Qed.

Lemma run_release_key key k l es t (Q : run_state → unit + api_exn → Prop) :
  own keyed key k → Q (mkRunState (match key with Some _ => Released | None => k end) l es t) (inl tt) →
  follows_run Q (mkRunState k l es t) (release_key key).
Proof.
  destruct key as [x|]; cbn [own]; [|intros _ HQ; by apply follows_mret]. intros -> HQ. apply follows_ask. intros []. unfold run_step. cbn.
  by rewrite bool_decide_eq_true_2.
Qed.

Definition returned (lease : option string) : lease_state := match lease with Some _ => Returned | None => Leased None end.

Lemma run_release_lease k lease es t (Q : run_state → unit + api_exn → Prop) :
  Q (mkRunState k (returned lease) es t) (inl tt) → follows_run Q (mkRunState k (Leased lease) es t) (release_lease lease).
Proof.
  destruct lease as [x|]; [|intros HQ; by apply follows_mret]. intros HQ. apply follows_ask. intros []. unfold run_step. cbn.
  by rewrite bool_decide_eq_true_2.
Qed.

Lemma run_complete key k l es t v (Q : run_state → unit + api_exn → Prop) :
  own keyed key k → (∀ r, r = inl tt ∨ r = inr write_failed → Q (mkRunState (match key with Some _ => Completed v | None => k end) l es t) r) →
  follows_run Q (mkRunState k l es t) (complete_key key v).
Proof.
  destruct key as [x|]; cbn [own]; [|intros _ HQ; apply follows_mret; apply HQ; by left]. intros -> HQ. apply follows_mbind, follows_ask. intros failed.
  unfold run_step. cbn. rewrite bool_decide_eq_true_2 by done. destruct failed; [apply task_follows_throw; apply HQ; by right|apply follows_mret; apply HQ; by left].
Qed.

Lemma run_accept key k l es t inv (Q : run_state → option Z + api_exn → Prop) :
  own keyed key k → (∀ z, Q (mkRunState k l es t) (inl z)) → (∀ e, Q (mkRunState k l es t) (inr (Other e))) →
  follows_run Q (mkRunState k l es t) (accept_idempotency key inv).
Proof.
  destruct key as [x|]; cbn [own]; [|intros _ Hok _; by apply follows_mret]. intros -> Hok He. apply follows_mbind, follows_ask. intros r.
  unfold run_step. cbn. rewrite bool_decide_eq_true_2 by done. destruct r as [record|e]; cbn [unless_raised]; apply follows_mbind; [apply follows_mret|by apply task_follows_throw].
  apply follows_mbind, follows_plain; [done|]. intros [loc|]; apply follows_mbind; [|by apply follows_mret, follows_mret].
  apply follows_mbind, follows_plain; [done|]. intros [[]|e]; [by apply follows_mret, follows_mret|by apply task_follows_throw].
Qed.

Lemma own_closed key k : own keyed key k → key_closed (match key with Some _ => Released | None => k end) = true.
Proof. destruct key; [done|]. by intros [-> _]. Qed.
Lemma own_completed key k v : own keyed key k → key_closed (match key with Some _ => Completed v | None => k end) = true.
Proof. destruct key; [done|]. by intros [-> _]. Qed.
Lemma own_may key k : own keyed key k → may_act keyed false k = true.
Proof. destruct key; [by intros ->|]. by intros [-> ->]. Qed.

Lemma settled_returned k lease es t : key_closed k = true → turn_over t = true → settled (mkRunState k (returned lease) es t) = true.
Proof. unfold settled, lease_settled, returned. cbn. intros -> ->. by destruct lease. Qed.
Lemma lease_returned k lease es t : lease_settled (mkRunState k (returned lease) es t) = true.
Proof. by destruct lease. Qed.

Lemma run_settle {A} key k lease es t x (Q : run_state → A + api_exn → Prop) :
  own keyed key k → turn_over t = true → (∀ s, settled s = true → Q s (inr (Http x))) →
  follows_run Q (mkRunState k (Leased lease) es t) (settle_and_refuse key lease x).
Proof.
  intros Hk Ht HQ. apply follows_mbind, run_release_key; [done|]. apply follows_mbind, run_release_lease. apply follows_refuse. apply HQ.
  apply settled_returned; [by apply own_closed|done].
Qed.

(** A frame handed to the subscriber. *)
Lemma run_yield f s (Q : run_state → unit + api_exn → Prop) : (∀ r, Q s r) → follows_run Q s (yield f).
Proof. intros HQ. apply follows_mbind, follows_plain; [done|]. intros [|]; [by apply task_follows_throw|by apply follows_mret]. Qed.

Lemma frames_end_follows s (Q : run_state → unit + api_exn → Prop) : (∀ r, Q s r) → follows_run Q s frames_end.
Proof.
  intros HQ. apply follows_mbind, task_follows_alter. apply follows_mbind, task_follows_look. intros st.
  destruct (ss_done st) as [[u|e]|]; [by apply follows_mret|by apply task_follows_throw|by apply follows_mret].
Qed.

(** Frames settle nothing, whatever their loop does. *)
Lemma frames_with_end_follows (m : api_task unit) s :
  follows_run (λ s' _, s' = s) s m → follows_run (λ s' _, s' = s) s (finally_do m frames_end).
Proof.
  intros Hm. apply follows_finally. eapply task_follows_weaken; [|exact Hm]. intros s' r ->. apply frames_end_follows. by intros [].
Qed.

End protocol.
