(* ===== verification/DelegatedHttp.v ===== *)
(** * Runs of a delegated session (haas/api.py)

    [_run_delegated]: one turn of a session that runs in a container.  The session lease is taken, the
    container restored under the workspace lock, its worker's events are appended and shown, and the
    turn is closed whatever happened. *)

From S2P Require Import Prelude Errors Dict PyVal Records Store Leases Identity Registry Events Policy Sessions Admission Docker DelegatedApi.
From S2P Require Import CodexTurn Async Adapter Api ControlApi RunProtocol.

#[local] Open Scope string_scope.
#[local] Open Scope list_scope.
#[local] Open Scope Z_scope.

(** ** The variables of a turn *)

(** What the generator of a turn reassigns, and the events its consumer has taken. *)
Record TurnVars := mkTurnVars {
  tv_delegated : DelegatedSessionRecord;
  tv_session : loc;
  tv_lock_acquired : bool;
  tv_adk_events : list pydict;
}.
#[export] Instance eta_TurnVars : Eta TurnVars := λ v, mkTurnVars (tv_delegated v) (tv_session v) (tv_lock_acquired v) (tv_adk_events v).

(** A piece of the generator: from the variables to the variables and a result or an exception. *)
Definition turn_task (A : Type) : Type := TurnVars → api_task (TurnVars * (A + api_exn)).
#[export] Instance turn_mret : MRet turn_task := λ A a v, mret (v, inl a).
#[export] Instance turn_mbind : MBind turn_task := λ A B f m v,
  res ← m v;
  match res with (v', inl a) => f a v' | (v', inr e) => mret (v', inr e) end.
Definition call_out {A} (m : api_task A) : turn_task A := λ v,
  res ← task_try (a ← m; mret (inl a)) (λ e, mret (inr e)); mret (v, res).
Definition get_var {A} (f : TurnVars → A) : turn_task A := λ v, mret (v, inl (f v)).
Definition set_var (f : TurnVars → TurnVars) : turn_task unit := λ v, mret (f v, inl tt).
Definition fail_turn {A} (e : api_exn) : turn_task A := λ v, mret (v, inr e).
Definition turn_try {A} (m : turn_task A) (h : api_exn → turn_task A) : turn_task A := λ v,
  res ← m v; match res with (v', inl a) => mret (v', inl a) | (v', inr e) => h e v' end.
Definition turn_finally {A} (m : turn_task A) (f : turn_task unit) : turn_task A := λ v,
  res ← m v;
  let (v', r) := res : TurnVars * (A + api_exn) in
  last ← f v';
  match last with (v'', inl _) => mret (v'', r) | (v'', inr e) => mret (v'', inr e) end.

(** A call, a reply that may be an exception, a write the database may refuse. *)
Definition get_reply (c : service) : turn_task (reply c) := call_out (ask c : api_task (reply c)).
Definition of_result {A} (r : result A) : turn_task A := match r with Ok a => mret a | Raise e => fail_turn (Other (Py e)) end.
Definition written {A} (r : option A) : turn_task A := match r with Some a => mret a | None => fail_turn write_failed end.
Definition unless_refused_write (refused : bool) : turn_task unit := if refused then fail_turn write_failed else mret tt.

(** ** One turn *)

Section turn.
Context `{PyRepr} (home : string) (app : HarnessRecord) (user_id session_id : string) (message policy : pydict) (timeout : option spec_float).
Context (invocation turn : loc) (invocation_id : string) (consume : pydict → api_task unit).

(** [replace(session, delegatedSessionRef=...)], stored. *)
Definition with_ref (delegated : DelegatedSessionRecord) (r : SessionRecord) : result SessionRecord :=
  session_post_init (r <| s_delegatedSessionRef := Some (delegated_session_ref delegated) |>).
(** [put_session(session)]: a copy of the object is stored. *)
Definition store_session : turn_task loc :=
  l ← get_var tv_session;
  r ← get_reply (LoadSession l);
  l' ← get_reply (StoreSession r);
  written l'.

(** The event reaches the consumer. *)
Definition show (e : CanonicalEventRecord) : turn_task unit :=
  _ ← set_var (λ v, v <| tv_adk_events := tv_adk_events v ++ [project_adk e] |>);
  call_out (consume (project_adk e)).

Definition append_event (author : string) (content actions : pydict) : turn_task CanonicalEventRecord :=
  r ← get_reply (AppendEvent author content actions); of_result r.

Definition merge_state (delta : pydict) : turn_task unit :=
  l ← get_var tv_session; get_reply (MergeState l delta).

(** [policy["maxContainerLifetimeSeconds"] * 1000] as the lock uses it: read-only access does not. *)
Definition lock_ttl_ms (access : string) (snapshot : pydict) : result Z :=
  v ← vitem "maxContainerLifetimeSeconds" (PDict snapshot);
  match v with
  | PStr _ | PList _ => if bool_decide (access = "ro") then Ok 0 else lifetime_ms snapshot
  | _ => lifetime_ms snapshot
  end.
Definition text_item (k : string) (d : pyval) : result string := v ← vitem k d; match v with PStr s => Ok s | _ => Raise TypeError end.

Definition workspace_busy : HaasError := new_haas_error 409 "invalid_request_error" "haas_workspace_lock_busy" (Some "workspace_lock_busy") true.

(** Lock the workspace, restore the container, give the session its reference. *)
Definition restore_turn (primary_workspace : pyval) : turn_task unit :=
  delegated ← get_var tv_delegated;
  _ ← of_result (validate_mount_manifest home (ds_mountManifest delegated));
  path ← of_result (text_item "hostPathCanonical" primary_workspace);
  access ← of_result (text_item "access" primary_workspace);
  ttl ← of_result (lock_ttl_ms access (ds_delegationPolicySnapshot delegated));
  lock ← get_reply (AcquireWorkspace path (ds_id delegated) access ttl);
  lock ← of_result lock;
  if negb (w_acquired lock) then fail_turn (Http workspace_busy)
  else
    _ ← set_var (λ v, v <| tv_lock_acquired := true |>);
    restored ← get_reply (RestoreDelegated delegated);
    restored ← of_result restored;
    updated ← get_reply (UpdateDelegatedRuntime (ds_id delegated) restored);
    delegated ← of_result updated;
    _ ← set_var (λ v, v <| tv_delegated := delegated |>);
    l ← get_var tv_session;
    r ← get_reply (LoadSession l);
    copy ← of_result (with_ref delegated r);
    l ← get_reply (StoreSession copy);
    l ← written l;
    set_var (λ v, v <| tv_session := l |>).

(** The request the worker gets. *)
Definition worker_body (delegated : DelegatedSessionRecord) : pydict :=
  [("executionId", PStr invocation_id); ("containerGeneration", PInt (dr_containerGeneration (ds_runtime delegated)));
   ("appName", PStr (h_id app)); ("userId", PStr user_id); ("sessionId", PStr session_id); ("newMessage", PDict message);
   ("streaming", PBool true);
   ("timeoutSeconds", py_or (match timeout with Some f => PFloat f | None => PNone end) (PInt 86400));
   ("policy", PDict policy)].

(** One event of the worker: appended, merged into the session's state, shown. *)
Definition dict_or_empty (v : pyval) : pydict := match v with PDict d => d | _ => [] end.
Definition worker_author (delegated : DelegatedSessionRecord) (event : pyval) : string :=
  match event with PDict d => py_str (py_or (pget "author" d) (PStr (ds_harnessBase delegated))) | _ => ds_harnessBase delegated end.
Definition take_worker_event (event : pyval) : turn_task unit :=
  delegated ← get_var tv_delegated;
  let field k := match event with PDict d => dict_or_empty (pget k d) | _ => [] end in
  canonical ← append_event (worker_author delegated event) (field "content") (field "actions");
  _ ← match pget "stateDelta" (e_actions canonical) with
      | PDict delta => _ ← merge_state delta; l ← store_session; set_var (λ v, v <| tv_session := l |>)
      | _ => mret tt
      end;
  show canonical.
Fixpoint worker_events (n : nat) (body : pydict) : turn_task unit :=
  match n with
  | O => fail_turn events_exhausted
  | S n =>
      delegated ← get_var tv_delegated;
      next ← get_reply (NextWorkerEvent delegated body);
      match next with
      | WorkerEvent event => _ ← take_worker_event event; worker_events n body
      | WorkerEnd => mret tt
      | WorkerFails e => fail_turn (Other (Py e))
      end
  end.

(** The status the turn ends with, read from the session's state. *)
Definition final_status (r : SessionRecord) : string :=
  let status := py_str (py_or (pget "status" (s_state r)) (PStr "completed")) in
  if bool_decide (status ∈ END_STATUSES) then status else "completed".

Definition turn_body (n : nat) (primary_workspace : pyval) : turn_task unit :=
  _ ← restore_turn primary_workspace;
  delegated ← get_var tv_delegated;
  _ ← worker_events n (worker_body delegated);
  l ← get_var tv_session;
  r ← get_reply (LoadSession l);
  get_reply (EndTurn invocation turn (final_status r)).

(** What a failed turn answers; other exceptions are not caught. *)
Definition turn_failure (e : api_exn) : option HaasError :=
  match e with
  | Http x => Some (new_haas_error (x_status_code x) "invalid_request_error" (x_code x) (Some (x_safe_reason x)) (x_retryable x))
  | Other (Py (DelegatedContainerUnavailable msg)) =>
      Some (if bool_decide (msg = "haas_policy_unsupported")
            then new_haas_error 422 "invalid_request_error" "haas_policy_unsupported" (Some "network_policy_unsupported") false
            else new_haas_error 503 "invalid_request_error" "haas_delegation_backend_unavailable" (Some "delegation_backend_unavailable") true)
  | Other (Py e) =>
      if is_mount_invalid e
      then Some (new_haas_error 403 "invalid_request_error" "haas_delegation_mount_invalid" (Some "delegation_mount_invalid") false)
      else None
  | Other _ => None
  end.

(** The workspace is given back when no container can be using it. *)
Definition gives_workspace_back (e : api_exn) (v : TurnVars) : bool :=
  tv_lock_acquired v &&
  match e with
  | Other (Py (DelegatedContainerUnavailable _)) => negb (is_some (dr_containerId (ds_runtime (tv_delegated v))))
  | Other (Py e) => is_mount_invalid e
  | _ => false
  end.

(** The [except] clause: the turn fails with a terminal event. *)
Definition turn_failed_with (primary_workspace : pyval) (e : api_exn) : turn_task unit :=
  match turn_failure e with
  | None => fail_turn e
  | Some x =>
      back ← get_var (gives_workspace_back e);
      delegated ← get_var tv_delegated;
      _ ← (if back : bool then
             path ← of_result (text_item "hostPathCanonical" primary_workspace);
             get_reply (ReleaseWorkspace path (ds_id delegated))
           else mret tt);
      _ ← get_reply (EndTurn invocation turn "failed");
      terminal ← append_event (ds_harnessBase delegated) [("role", PStr "model"); ("parts", PList [])]
                   [("stateDelta", PDict [("status", PStr "failed"); ("safeReason", PStr (x_safe_reason x))])];
      delta ← of_result (vitem "stateDelta" (PDict (e_actions terminal)));
      delta ← of_result (match delta with PDict d => Ok d | _ => Raise AttributeError end);
      _ ← merge_state delta;
      _ ← store_session;
      _ ← show terminal;
      fail_turn (Http x)
  end.

(** The event that a pending policy was reconciled. *)
Definition policy_event (pending : pydict) (reconciled : DelegatedSessionRecord) : result (string * pydict) :=
  let res := default [] (ds_lastPolicyUpdateResult reconciled) in
  update_id ← vitem "updateId" (PDict pending);
  revision ← vitem "revision" (PDict pending);
  fields ← vitem "fields" (PDict pending);
  let metadata := [("delegatedSessionId", PStr (ds_id reconciled)); ("updateId", update_id); ("revision", revision); ("fields", fields)] in
  Ok (if py_eqb (pget "status" res) (PStr "applied")
      then ("haas.delegation.policy_update_applied", metadata)
      else ("haas.delegation.policy_update_failed",
            metadata ++ [("code", pget_or "code" (PStr "haas_internal_error") res);
                         ("safeReason", pget_or "safeReason" (PStr "policy_apply_failed") res)])).

(** A runtime that is still running becomes idle, and a pending policy is reconciled. *)
Definition idle_runtime (current : DelegatedSessionRecord) : turn_task unit :=
  now ← get_reply Now;
  updated ← get_reply (UpdateDelegatedRuntime (ds_id current)
              ((ds_runtime current) <| dr_status := "idle" |> <| dr_lastActiveAtMs := Some now |>));
  current ← of_result updated;
  reconciled ← get_reply (ReconcilePolicy (ds_id current));
  reconciled ← of_result reconciled;
  match ds_pendingPolicyUpdate current, reconciled with
  | Some pending, Some reconciled =>
      event ← of_result (policy_event pending reconciled);
      r ← get_reply (AppendPolicyEvent (event.1 : string) (event.2 : pydict));
      of_result r
  | _, _ => mret tt
  end.

(** The [finally] clause. *)
Definition close_turn (key : SessionKey) (holder : string) (token : Z) : turn_task unit :=
  now ← get_reply Now;
  _ ← get_reply (CompleteTurn invocation turn now);
  refused ← get_reply (PutInvocation invocation);
  _ ← unless_refused_write refused;
  refused ← get_reply (PutTurn turn);
  _ ← unless_refused_write refused;
  _ ← store_session;
  delegated ← get_var tv_delegated;
  current ← get_reply (GetDelegatedById (ds_id delegated));
  _ ← match current with
      | Some current => if bool_decide (dr_status (ds_runtime current) = "running") then idle_runtime current else mret tt
      | None => mret tt
      end;
  get_reply (ReleaseLease key holder token).

(** [events]: the primary workspace is read outside the [try]. *)
Definition turn_events (n : nat) (key : SessionKey) (holder : string) (token : Z) : turn_task unit :=
  delegated ← get_var tv_delegated;
  primary_workspace ← of_result (vitem "primaryWorkspace" (PDict (ds_mountManifest delegated)));
  turn_finally (turn_try (turn_body n primary_workspace) (turn_failed_with primary_workspace)) (close_turn key holder token).

End turn.

(** ** The endpoint *)

Section delegated.
Context `{PyRepr}.

(** The subscriber of a stream gets the event unless it is gone; the queue is unbounded. *)
Definition enqueue (adk : pydict) : api_task unit :=
  gone ← look ss_disconnected;
  if gone : bool then mret tt else alter (push (Some (EventFrame adk))).

(** The producer of a stream; [events] is the turn's generator over its variables. *)
Definition delegated_produce (events : turn_task unit) (v : TurnVars) (key lease : option string) (expires : option Z)
    (invocation_id session_id : string) : api_task unit :=
  finally_do
    (res ← events v;
     let (v', r) := res : TurnVars * (unit + api_exn) in
     _ ← complete_key key (run_result (tv_adk_events v') expires invocation_id session_id);
     match r with inl _ | inr (Http _) => mret tt | inr e => throw e end)
    (_ ← release_lease lease;
     gone ← look ss_disconnected;
     _ ← (if gone : bool then mret tt else alter (push (Some Heartbeat)));
     alter (push None)).

(** The frames: what is queued, a heartbeat whenever nothing is. *)
Fixpoint delegated_frames_loop (m : nat) : api_task unit :=
  match m with
  | O => throw events_exhausted
  | S m =>
      got ← (ask QueueGet : api_task bool);
      head ← look (λ s, if got : bool then hd_error (ss_queue s) else None);
      match head with
      | None => _ ← yield Heartbeat; delegated_frames_loop m
      | Some f =>
          _ ← alter (λ s, s <| ss_queue := tl (ss_queue s) |>);
          match f with
          | None => mret tt
          | Some f => _ ← yield f; delegated_frames_loop m
          end
      end
  end.
Definition delegated_frames (m : nat) : api_task unit :=
  finally_do (delegated_frames_loop m) frames_end.

(** A waiting run: the key is completed and the lease given back whatever the turn raised. *)
Definition delegated_waiting (events : turn_task unit) (v : TurnVars) (key lease : option string) (expires : option Z)
    (invocation_id session_id : string) : api_task response :=
  res ← events v;
  let (v', r) := res : TurnVars * (unit + api_exn) in
  _ ← complete_key key (run_result (tv_adk_events v') expires invocation_id session_id);
  _ ← release_lease lease;
  match r with
  | inl _ => mret (JsonResponse 200 (PList (PDict <$> tv_adk_events v'))
                     (accepted_headers (Some invocation_id) (Some session_id) (opt_int_val expires)))
  | inr e => throw e
  end.

Definition stored {A} (r : option A) : api_task A := match r with Some a => mret a | None => throw write_failed end.

(** The fresh ids of a delegated run. *)
Record TurnIds := mkTurnIds { ti_holder : string; ti_invocation : string; ti_turn : string }.

(** The session with its reference, the invocation and the turn, stored. *)
Definition begin_turn (app : HarnessRecord) (user_id session_id : string) (delegated : DelegatedSessionRecord) (ids : TurnIds) :
    api_task (loc * loc * loc) :=
  existing ← (ask (GetSession (h_id app, user_id, session_id)) : api_task (option SessionRecord));
  now ← (ask Now : api_task Z);
  copy ← unless_raised (with_ref delegated (default (new_session session_id (h_id app) user_id now) existing));
  l ← (ask (StoreSession copy) : api_task (option loc));
  session ← stored l;
  l ← (ask (StoreInvocation (mkInvocation (ti_invocation ids) session_id (h_id app) (ti_turn ids) user_id "running" None None None 1 now
                               None None None None None [] None)) : api_task (option loc));
  invocation ← stored l;
  l ← (ask (StoreTurn (mkTurn (ti_turn ids) (ti_invocation ids) session_id "running" 1 now None None None None)) : api_task (option loc));
  turn ← stored l;
  mret (session, invocation, turn).

(** [_run_delegated]; [n] and [m] bound the worker's events and the frames. *)
Definition run_delegated (n m : nat) (home : string) (ids : TurnIds) (app : HarnessRecord) (user_id session_id : string) (message policy : pydict)
    (delegated : DelegatedSessionRecord) (streaming : bool) (key lease : option string) (timeout : option spec_float) : api_task response :=
  let session_key := (h_id app, user_id, session_id) in
  r ← (ask (AcquireLease session_key (ti_holder ids)) : api_task (result Lease));
  match r with
  | Raise (LeaseConflictError _ _) => settle_and_refuse key lease session_busy
  | Raise e => throw (Other (Py e))
  | Ok held =>
      objects ← begin_turn app user_id session_id delegated ids;
      let '(session, invocation, turn) := objects : loc * loc * loc in
      expires ← accept_idempotency key (ti_invocation ids);
      let events consume := turn_events home app user_id session_id message policy timeout invocation turn (ti_invocation ids) consume
                              n session_key (ti_holder ids) (l_token held) in
      let vars := mkTurnVars delegated session false [] in
      if streaming then
        _ ← alter (λ _, mkSse [] 0 false false PNone None);
        mret (ProducedResponse (accepted_headers (Some (ti_invocation ids)) (Some session_id) (opt_int_val expires))
                (delegated_produce (events enqueue) vars key lease expires (ti_invocation ids) session_id)
                (delegated_frames m))
      else delegated_waiting (events (λ _, mret tt)) vars key lease expires (ti_invocation ids) session_id
  end.

End delegated.

(** ** Rules for pieces of a turn *)

Section rules.
Context `{PyRepr} (keyed : bool).

Definition turn_follows {A} (Q : run_state → TurnVars → A + api_exn → Prop) (s : run_state) (m : turn_task A) (v : TurnVars) : Prop :=
  task_follows (run_step keyed) (λ s' res, match res with inl (v', r) => Q s' v' r | inr _ => False end) s (m v).

Lemma turn_ret {A} (Q : run_state → TurnVars → A + api_exn → Prop) s v a : Q s v (inl a) → turn_follows Q s (mret a : turn_task A) v.
Proof. intros HQ. by apply follows_mret. Qed.
Lemma turn_fail {A} (Q : run_state → TurnVars → A + api_exn → Prop) s v e : Q s v (inr e) → turn_follows Q s (fail_turn e : turn_task A) v.
Proof. intros HQ. by apply follows_mret. Qed.
Lemma turn_get {A} (Q : run_state → TurnVars → A + api_exn → Prop) s v f : Q s v (inl (f v)) → turn_follows Q s (get_var f) v.
Proof. intros HQ. by apply follows_mret. Qed.
Lemma turn_set (Q : run_state → TurnVars → unit + api_exn → Prop) s v f : Q s (f v) (inl tt) → turn_follows Q s (set_var f) v.
Proof. intros HQ. by apply follows_mret. Qed.
Lemma turn_result {A} (Q : run_state → TurnVars → A + api_exn → Prop) s v r :
  match r with Ok a => Q s v (inl a) | Raise e => Q s v (inr (Other (Py e))) end → turn_follows Q s (of_result r) v.
Proof. destruct r; [apply turn_ret|apply turn_fail]. Qed.
Lemma turn_written {A} (Q : run_state → TurnVars → A + api_exn → Prop) s v r :
  match r with Some a => Q s v (inl a) | None => Q s v (inr write_failed) end → turn_follows Q s (written r) v.
Proof. destruct r; [apply turn_ret|apply turn_fail]. Qed.

Lemma turn_weaken {A} (Q Q' : run_state → TurnVars → A + api_exn → Prop) s (m : turn_task A) v :
  (∀ s v r, Q s v r → Q' s v r) → turn_follows Q s m v → turn_follows Q' s m v.
Proof. intros HQ. apply task_follows_weaken. intros s' [[v' r]|e]; [apply HQ|done]. Qed.

Lemma turn_bind {A B} (Q : run_state → TurnVars → B + api_exn → Prop) s v (m : turn_task A) (f : A → turn_task B) :
  turn_follows (λ s' v' r, match r with inl a => turn_follows Q s' (f a) v' | inr e => Q s' v' (inr e) end) s m v →
  turn_follows Q s (m ≫= f) v.
Proof.
  intros Hm. apply follows_mbind. eapply task_follows_weaken; [|exact Hm]. intros s' [[v' [a|e]]|e]; [done|by intros HQ; apply follows_mret|done].
Qed.

Lemma turn_call {A} (Q : run_state → TurnVars → A + api_exn → Prop) s v (m : api_task A) :
  task_follows (run_step keyed) (λ s' r, Q s' v r) s m → turn_follows Q s (call_out m) v.
Proof.
  intros Hm. apply follows_mbind, task_follows_try, follows_mbind. eapply task_follows_weaken; [|exact Hm].
  intros s' [a|e] HQ; [by apply follows_mret, follows_mret|by apply follows_mret, follows_mret].
Qed.
Lemma turn_reply (c : service) (Q : run_state → TurnVars → reply c + api_exn → Prop) s v :
  (∀ r, match run_step keyed s c r with Some s' => Q s' v (inl r) | None => False end) → turn_follows Q s (get_reply c) v.
Proof. intros HQ. by apply turn_call, follows_ask. Qed.

Lemma turn_attempt {A} (Q : run_state → TurnVars → A + api_exn → Prop) s v (m : turn_task A) h :
  turn_follows (λ s' v' r, match r with inl a => Q s' v' (inl a) | inr e => turn_follows Q s' (h e) v' end) s m v →
  turn_follows Q s (turn_try m h) v.
Proof.
  intros Hm. apply follows_mbind. eapply task_follows_weaken; [|exact Hm]. intros s' [[v' [a|e]]|e]; [by intros HQ; apply follows_mret|done|done].
Qed.
Lemma turn_closing {A} (Q : run_state → TurnVars → A + api_exn → Prop) s v (m : turn_task A) f :
  turn_follows (λ s' v' r, turn_follows (λ s'' v'' u, match u with inl _ => Q s'' v'' r | inr e => Q s'' v'' (inr e) end) s' f v') s m v →
  turn_follows Q s (turn_finally m f) v.
Proof.
  intros Hm. apply follows_mbind. eapply task_follows_weaken; [|exact Hm]. intros s' [[v' r]|e]; [|done]. intros Hf.
  apply follows_mbind. eapply task_follows_weaken; [|exact Hf]. intros s'' [[v'' [u|e]]|e]; [by intros HQ; apply follows_mret..|done].
Qed.

End rules.

(** One rule per construct; [turn_ask] names the reply. *)
Ltac turn_ask r := apply turn_reply; intros r; unfold run_step; cbn.
Ltac turn_move :=
  match goal with
  | |- turn_follows _ _ _ (mbind _ _) _ => apply turn_bind
  | |- turn_follows _ _ _ (mret _) _ => apply turn_ret
  | |- turn_follows _ _ _ (fail_turn _) _ => apply turn_fail
  | |- turn_follows _ _ _ (get_var _) _ => apply turn_get
  | |- turn_follows _ _ _ (set_var _) _ => apply turn_set
  | |- turn_follows _ _ _ (of_result ?r) _ => apply turn_result; destruct r eqn:?
  | |- turn_follows _ _ _ (written ?r) _ => apply turn_written; destruct r eqn:?
  | |- turn_follows _ _ _ (unless_refused_write ?r) _ => destruct r; cbn [unless_refused_write]
  | |- turn_follows _ _ _ (get_reply _) _ => apply turn_reply; intros ?; unfold run_step; cbn
  end.

(** ** A turn follows the protocol *)

Section follows.
Context `{PyRepr} (keyed : bool) (home : string) (app : HarnessRecord) (user_id session_id : string) (message policy : pydict) (timeout : option spec_float).
Context (invocation turn : loc) (invocation_id : string) (consume : pydict → api_task unit).
Context (k : key_state) (lease : option string) (key : SessionKey) (holder : string) (token : Z).
Context (Hmay : may_act keyed false k = true).
Context (Hconsume : ∀ s adk, task_follows (run_step keyed) (λ s' r, s' = s ∧ r = inl tt) s (consume adk)).
Notation tfollows := (turn_follows keyed).
Notation running es locked status closing := (mkRunState k (Leased lease) es (mkTurnState (Held key holder token) locked status closing)).

(** The state within the turn: the events shown are those appended, unless the turn is left by an
    exception its handler does not take. *)
Definition in_turn {A} (done : option string → Prop) (s : run_state) (v : TurnVars) (r : A + api_exn) : Prop :=
  ∃ es status, s = running es (tv_lock_acquired v) status false ∧
    match r with inl _ => es = tv_adk_events v ∧ done status | inr e => status = None ∧ (is_some (turn_failure e) = true → es = tv_adk_events v) end.

Lemma store_session_follows es locked status closing v (Q : run_state → TurnVars → loc + api_exn → Prop) :
  (∀ l, Q (running es locked status closing) v (inl l)) → Q (running es locked status closing) v (inr write_failed) →
  tfollows Q (running es locked status closing) store_session v.
Proof. intros Hok He. unfold store_session. repeat turn_move; done. Qed.

Lemma show_follows es locked status closing v e (Q : run_state → TurnVars → unit + api_exn → Prop) :
  Q (running es locked status closing) (v <| tv_adk_events := tv_adk_events v ++ [project_adk e] |>) (inl tt) →
  tfollows Q (running es locked status closing) (show consume e) v.
Proof.
  intros HQ. unfold show. do 2 turn_move. apply turn_call. eapply task_follows_weaken; [|apply Hconsume]. by intros s r [-> ->].
Qed.

Lemma restore_follows es v primary :
  tv_lock_acquired v = false → es = tv_adk_events v →
  tfollows (λ s v' r, in_turn (λ st, st = None ∧ tv_lock_acquired v' = true) s v' r) (running es false None false) (restore_turn home primary) v.
Proof.
  intros Hl He.
  assert (Hstop : ∀ (r : unit + api_exn), match r with inl _ => False | inr _ => True end → in_turn (λ st, st = None ∧ tv_lock_acquired v = true) (running es false None false) v r).
  { intros [u|e] Hr; [done|]. exists es, None. by rewrite Hl. }
  assert (Hlate : ∀ v' (r : unit + api_exn), tv_lock_acquired v' = true → tv_adk_events v' = tv_adk_events v →
    in_turn (λ st, st = None ∧ tv_lock_acquired v' = true) (running es true None false) v' r).
  { intros v' r Hv Hv'. exists es, None. rewrite Hv, Hv'. by destruct r. }
  unfold restore_turn. do 2 turn_move. do 4 (turn_move; turn_move; [|by apply Hstop]).
  do 2 turn_move. turn_move. destruct r as [[acquired h u]|e]; cbn [of_result]; [|by turn_move; apply Hstop].
  turn_move. cbn [w_acquired]. destruct acquired; cbn [negb]; [|by turn_move; apply Hstop].
  do 2 turn_move. do 2 turn_move. turn_move. destruct r as [restored|e]; cbn [of_result]; turn_move; [|by apply Hlate].
  do 2 turn_move. turn_move. destruct r as [delegated|e]; cbn [of_result]; turn_move; [|by apply Hlate].
  do 6 turn_move. turn_move. turn_move; [|by apply Hlate]. do 2 turn_move. turn_move. turn_move; [|by apply Hlate]. turn_move. by apply Hlate.
Qed.

Lemma take_follows event v :
  tv_lock_acquired v = true →
  tfollows (λ s v' r, in_turn (λ st, st = None ∧ tv_lock_acquired v' = true) s v' r) (running (tv_adk_events v) true None false)
    (take_worker_event consume event) v.
Proof.
  intros Hl. unfold take_worker_event. do 2 turn_move. turn_move. unfold append_event. do 2 turn_move. destruct r as [e|e]; cbn [of_result].
  2: { turn_move. exists (tv_adk_events v), None. by rewrite Hl. }
  turn_move. turn_move.
  assert (Hshow : ∀ v', tv_lock_acquired v' = true → tv_adk_events v' = tv_adk_events v →
    tfollows (λ s v' r, in_turn (λ st, st = None ∧ tv_lock_acquired v' = true) s v' r) (running (tv_adk_events v ++ [project_adk e]) true None false) (show consume e) v').
  { intros v' Hv' Hes. apply show_follows. exists (tv_adk_events v ++ [project_adk e]), None. cbn. by rewrite Hv', Hes. }
  destruct (pget "stateDelta" (e_actions e)); try (by turn_move; apply Hshow).
  unfold merge_state. do 3 turn_move. turn_move. turn_move. apply store_session_follows.
  - intros l. turn_move. by apply Hshow.
  - exists (tv_adk_events v ++ [project_adk e]), None. by rewrite Hl.
Qed.

Lemma worker_follows n body v :
  tv_lock_acquired v = true →
  tfollows (λ s v' r, in_turn (λ st, st = None ∧ tv_lock_acquired v' = true) s v' r) (running (tv_adk_events v) true None false)
    (worker_events consume n body) v.
Proof.
  assert (Hsame : ∀ v (r : unit + api_exn), tv_lock_acquired v = true →
    in_turn (λ st, st = None ∧ tv_lock_acquired v = true) (running (tv_adk_events v) true None false) v r).
  { intros v0 r Hv. exists (tv_adk_events v0), None. rewrite Hv. by destruct r. }
  revert v. induction n as [|n IH]; intros v Hl; cbn [worker_events]; [turn_move; by apply Hsame|].
  do 3 turn_move. turn_move. rewrite Hmay. cbn. destruct r as [event| |e]; [|by turn_move; apply Hsame..].
  turn_move. eapply turn_weaken; [|by apply take_follows]. intros s v' [u|e] (es & status & -> & Hr).
  - destruct Hr as [-> [-> Hl']]. rewrite Hl'. by apply IH.
  - by exists es, status.
Qed.

Lemma final_status_ends r : final_status r ∈ END_STATUSES.
Proof. unfold final_status. case_bool_decide; [done|]. unfold END_STATUSES. set_solver. Qed.

Lemma body_follows n primary v :
  tv_lock_acquired v = false →
  tfollows (in_turn (λ status, ∃ st, status = Some st ∧ st ∈ END_STATUSES)) (running (tv_adk_events v) false None false)
    (turn_body home app user_id session_id message policy timeout invocation turn invocation_id consume n primary) v.
Proof.
  intros Hl. unfold turn_body. turn_move. eapply turn_weaken; [|by apply restore_follows]. intros s v' [u|e] (es & status & -> & Hr).
  2: { by exists es, status. }
  destruct Hr as (-> & -> & Hl'). rewrite Hl'. do 3 turn_move. eapply turn_weaken; [|by apply worker_follows].
  intros s v'' [u'|e] (es & status & -> & Hr).
  2: { by exists es, status. }
  destruct Hr as (-> & -> & Hl''). rewrite Hl''. do 3 turn_move. turn_move. turn_move.
  eexists _, _. split; [by rewrite Hl''|]. split; [done|]. eexists. split; [done|apply final_status_ends].
Qed.

(** The turn before it is closed. *)
Definition turn_ended (s : run_state) (v : TurnVars) (r : unit + api_exn) : Prop :=
  ∃ es locked status, s = running es locked status false ∧
    match r with inl _ | inr (Http _) => es = tv_adk_events v ∧ ∃ st, status = Some st ∧ st ∈ END_STATUSES | inr (Other _) => True end.

Lemma failed_follows primary e es v :
  (is_some (turn_failure e) = true → es = tv_adk_events v) →
  tfollows turn_ended (running es (tv_lock_acquired v) None false) (turn_failed_with invocation turn consume primary e) v.
Proof.
  intros Hes. unfold turn_failed_with. destruct (turn_failure e) as [x|] eqn:Hx.
  2: { turn_move. eexists _, _, _. split; [done|]. by destruct e. }
  rewrite (Hes eq_refl). clear Hes. do 4 turn_move.
  set (locked := tv_lock_acquired v).
  assert (Hrest : ∀ locked, tfollows turn_ended (running (tv_adk_events v) locked None false)
    (_ ← get_reply (EndTurn invocation turn "failed");
     terminal ← append_event (ds_harnessBase (tv_delegated v)) [("role", PStr "model"); ("parts", PList [])]
                  [("stateDelta", PDict [("status", PStr "failed"); ("safeReason", PStr (x_safe_reason x))])];
     delta ← of_result (vitem "stateDelta" (PDict (e_actions terminal)));
     delta ← of_result (match delta with PDict d => Ok d | _ => Raise AttributeError end);
     _ ← merge_state delta; _ ← store_session; _ ← show consume terminal; fail_turn (Http x)) v).
  { clear locked. intros locked. assert (Hother : ∀ es e, turn_ended (running es locked (Some "failed") false) v (inr (Other e))) by (intros; by eexists _, _, _).
    do 2 turn_move. turn_move. unfold append_event. turn_move. turn_move. destruct r0 as [terminal|e']; cbn [of_result]; turn_move; [|by apply Hother].
    do 2 turn_move; [|by apply Hother]. do 2 turn_move; [|by apply Hother]. turn_move. unfold merge_state. do 3 turn_move.
    turn_move. apply store_session_follows; [|by apply Hother]. intros l. turn_move. apply show_follows. turn_move.
    eexists _, _, _. split; [done|]. split; [done|]. eexists. split; [done|]. unfold END_STATUSES. set_solver. }
  destruct (gives_workspace_back e v) eqn:Hback.
  - turn_move. do 2 turn_move; [|by eexists _, _, _]. turn_move.
    assert (locked = true) as -> by (unfold gives_workspace_back in Hback; by apply andb_true_iff in Hback as [? _]). cbn. apply Hrest.
  - turn_move. turn_move. apply Hrest.
Qed.

(** How the generator ends: given back, or left by an exception of the closing itself. *)
Definition turn_closed (opened : bool) (s : run_state) (v : TurnVars) (r : unit + api_exn) : Prop :=
  ∃ es t, s = mkRunState k (Leased lease) es t ∧
    match r with
    | inl _ | inr (Http _) => es = tv_adk_events v ∧ turn_over t = true
    | inr (Other _) => opened = true → ts_lease t = GivenBack ∨ ts_closing t = true
    end.

Lemma close_follows es locked status v :
  tfollows (λ s v' r, ∃ t, s = mkRunState k (Leased lease) es t ∧ tv_adk_events v' = tv_adk_events v ∧
      match r with inl _ => t = mkTurnState GivenBack locked status true | inr e => ts_closing t = true ∧ ∃ x, e = Other x end)
    (running es locked status false) (close_turn invocation turn key holder token) v.
Proof.
  set (Q := λ _ _ _, _).
  assert (Hother : ∀ e, Q (running es locked status true) v (inr (Other e))) by (intros e; eexists; split_and!; [done..|by eexists]).
  assert (Hend : tfollows Q (running es locked status true) (get_reply (ReleaseLease key holder token)) v).
  { turn_move. rewrite bool_decide_eq_true_2 by done. by eexists. }
  unfold close_turn. do 4 turn_move. do 2 (do 4 turn_move; [turn_move; by apply Hother|]; turn_move).
  turn_move. apply store_session_follows; [|by apply Hother]. intros l. do 3 turn_move. turn_ask current. turn_move.
  destruct current as [current|]; [|by turn_move].
  case_bool_decide; [|by turn_move]. unfold idle_runtime. do 3 turn_move. turn_ask updated. do 2 turn_move; [|by apply Hother].
  do 2 turn_move. do 2 turn_move; [|by apply Hother]. destruct (ds_pendingPolicyUpdate _) as [pending|]; [|by turn_move].
  destruct a0 as [reconciled|]; [|by turn_move]. do 2 turn_move; [|by apply Hother]. turn_move. turn_move. turn_move; [done|by apply Hother].
Qed.

Lemma events_follows n v :
  tv_lock_acquired v = false →
  tfollows (turn_closed (is_some (dget "primaryWorkspace" (ds_mountManifest (tv_delegated v))))) (running (tv_adk_events v) false None false)
    (turn_events home app user_id session_id message policy timeout invocation turn invocation_id consume n key holder token) v.
Proof.
  intros Hl. unfold turn_events. do 3 turn_move. turn_move.
  2: { eexists _, _. split; [done|]. cbn in Heqr. by destruct (dget "primaryWorkspace" (ds_mountManifest (tv_delegated v))). }
  apply turn_closing, turn_attempt. eapply turn_weaken; [|by apply body_follows].
  assert (Hclose : ∀ s v' r, turn_ended s v' r →
    tfollows (λ s'' v'' u, match u with inl _ => turn_closed (is_some (dget "primaryWorkspace" (ds_mountManifest (tv_delegated v)))) s'' v'' r
                           | inr e => turn_closed (is_some (dget "primaryWorkspace" (ds_mountManifest (tv_delegated v)))) s'' v'' (inr e) end)
      s (close_turn invocation turn key holder token) v').
  { intros s v' r (es & locked & status & -> & Hr). eapply turn_weaken; [|apply close_follows]. intros s v'' [u|e] (t & -> & Hadk & Ht).
    - subst t. eexists _, _. split; [done|]. destruct r as [u'|[x|e]]; [| |by left].
      all: destruct Hr as [-> (st & -> & Hst)]; rewrite Hadk; split; [done|]; cbn; by apply bool_decide_eq_true_2.
    - destruct Ht as [Ht [x ->]]. eexists _, _. split; [done|]. by right. }
  intros s v' [u|e] (es & status & -> & Hr).
  - apply Hclose. destruct Hr as [-> Hst]. by eexists _, _, _.
  - destruct Hr as [-> Hr]. eapply turn_weaken; [exact Hclose|by apply failed_follows].
Qed.

End follows.

(** ** The endpoint follows the protocol *)

Section endpoint.
Context `{PyRepr} (keyed : bool).
Notation follows_run := (task_follows (run_step keyed)).

Lemma enqueue_follows s adk : follows_run (λ s' r, s' = s ∧ r = inl tt) s (enqueue adk).
Proof. apply follows_mbind, task_follows_look. intros st. destruct (ss_disconnected st); [by apply follows_mret|by apply task_follows_alter]. Qed.

Lemma delegated_produce_follows k opened (events : turn_task unit) v key lease t0 expires inv sid :
  own keyed key k → turn_follows keyed (turn_closed k lease opened) (mkRunState k (Leased lease) (tv_adk_events v) t0) events v →
  follows_run (producer_ends) (mkRunState k (Leased lease) (tv_adk_events v) t0) (delegated_produce events v key lease expires inv sid).
Proof.
  intros Hk Hev.
  assert (Hend : ∀ k' es t r, (r = inl tt → producer_ends (mkRunState k' (returned lease) es t) r) →
    follows_run (λ s u, match u with inl _ => producer_ends s r | inr e => producer_ends s (inr e) end) (mkRunState k' (Leased lease) es t)
      (_ ← release_lease lease; gone ← look ss_disconnected; _ ← (if gone : bool then mret tt else alter (push (Some Heartbeat))); alter (push None) : api_task unit)).
  { intros k' es t r Hr. apply follows_mbind, run_release_lease, follows_mbind, task_follows_look. intros st. apply follows_mbind.
    assert (Hlast : follows_run (λ s u, match u with inl _ => producer_ends s r | inr e => producer_ends s (inr e) end) (mkRunState k' (returned lease) es t) (alter (push None) : api_task unit)).
    { apply task_follows_alter. destruct r as [[]|e]; [by apply Hr|]. split; [by apply lease_returned|done]. }
    destruct (ss_disconnected st); [by apply follows_mret|by apply task_follows_alter]. }
  apply follows_finally, follows_mbind. eapply task_follows_weaken; [|exact Hev]. intros s [[v' r]|e]; [|done]. intros (es & t & -> & Hr).
  apply follows_mbind, run_complete; [done|]. intros r' [-> | ->]; [|by apply Hend].
  assert (Hdone : es = tv_adk_events v' ∧ turn_over t = true →
    producer_ends (mkRunState (match key with Some _ => Completed (run_result (tv_adk_events v') expires inv sid) | None => k end) (returned lease) es t) (inl tt)).
  { intros [-> Ht]. split; [apply lease_returned|]. intros _. split; [done|]. cbn. destruct key; [done|]. by destruct Hk as [-> _]. }
  destruct r as [u|[x|e]]; [apply follows_mret|apply follows_mret|apply task_follows_throw]; apply Hend; intros Hx; [by apply Hdone..|done].
Qed.

Lemma delegated_frames_follows m s : follows_run (λ s' _, s' = s) s (delegated_frames m).
Proof.
  apply frames_with_end_follows. induction m as [|m IH]; cbn [delegated_frames_loop]; [by apply task_follows_throw|].
  apply follows_mbind, follows_plain; [done|]. intros got. apply follows_mbind, task_follows_look. intros st.
  destruct (if got then hd_error (ss_queue st) else None) as [[f|]|].
  - apply follows_mbind, task_follows_alter. apply follows_mbind, run_yield. by intros [u|e].
  - apply follows_mbind, task_follows_alter. by apply follows_mret.
  - apply follows_mbind, run_yield. by intros [u|e].
Qed.

Lemma delegated_waiting_follows k opened (events : turn_task unit) v key lease t0 expires inv sid :
  own keyed key k → turn_follows keyed (turn_closed k lease opened) (mkRunState k (Leased lease) (tv_adk_events v) t0) events v →
  follows_run (run_ends keyed) (mkRunState k (Leased lease) (tv_adk_events v) t0) (delegated_waiting events v key lease expires inv sid).
Proof.
  intros Hk Hev. apply follows_mbind. eapply task_follows_weaken; [|exact Hev]. intros s [[v' r]|e]; [|done]. intros (es & t & -> & Hr).
  apply follows_mbind, run_complete; [done|]. intros r' [-> | ->]; [|done]. apply follows_mbind, run_release_lease.
  assert (Hset : turn_over t = true → settled (mkRunState (match key with Some _ => Completed (run_result (tv_adk_events v') expires inv sid) | None => k end) (returned lease) es t) = true).
  { intros Ht. apply settled_returned; [by apply (own_completed keyed)|done]. }
  destruct r as [u|[x|e]]; [apply follows_mret, Hset, Hr|apply task_follows_throw; left; apply Hset, Hr|by apply task_follows_throw].
Qed.

Lemma begin_follows app user_id session_id delegated ids s (Q : run_state → loc * loc * loc + api_exn → Prop) :
  held (rp_turn s) = true → (∀ r, Q s (inl r)) → (∀ e, Q s (inr (Other e))) → follows_run Q s (begin_turn app user_id session_id delegated ids).
Proof.
  intros Hs HQ He. destruct s as [k l es t]. cbn in Hs.
  assert (Hput : ∀ (c : service) (Q : run_state → reply c + api_exn → Prop),
    match c with StoreSession _ | StoreInvocation _ | StoreTurn _ => True | _ => False end → (∀ r, Q (mkRunState k l es t) (inl r)) → follows_run Q (mkRunState k l es t) (ask c)).
  { intros c Q' Hc HQ'. apply follows_ask. intros r. unfold run_step. destruct c; try done; cbn; rewrite Hs; apply HQ'. }
  apply follows_mbind, follows_plain; [done|]. intros existing. apply follows_mbind, follows_plain; [done|]. intros now.
  apply follows_mbind. destruct (with_ref _ _) as [copy|e]; cbn [unless_raised]; [apply follows_mret|apply task_follows_throw, He].
  do 3 (apply follows_mbind, Hput; [done|]; intros [?|]; cbn [stored]; apply follows_mbind; [apply follows_mret|apply task_follows_throw, He]).
  by apply follows_mret.
Qed.

Lemma run_delegated_follows n m home ids app user_id session_id message policy delegated streaming key k lease timeout :
  own keyed key k →
  follows_run (run_ends keyed) (mkRunState k (Leased lease) [] no_turn)
    (run_delegated n m home ids app user_id session_id message policy delegated streaming key lease timeout).
Proof.
  intros Hk. pose proof (own_may _ _ _ Hk) as Hmay. unfold run_delegated. apply follows_mbind, follows_ask. intros r. unfold run_step. cbn. rewrite Hmay. cbn.
  destruct r as [held|e]; cbn.
  2: { destruct e; try by apply task_follows_throw. apply run_settle; [done..|]. intros s Hs. by left. }
  apply follows_mbind, begin_follows; [done| |done]. intros [[session invocation] turn]. apply follows_mbind, run_accept; [done| |done]. intros expires.
  assert (Hev : ∀ consume, (∀ s adk, follows_run (λ s' r, s' = s ∧ r = inl tt) s (consume adk)) →
    turn_follows keyed (turn_closed k lease (is_some (dget "primaryWorkspace" (ds_mountManifest delegated))))
      (mkRunState k (Leased lease) [] (mkTurnState (Held (h_id app, user_id, session_id) (ti_holder ids) (l_token held)) false None false))
      (turn_events home app user_id session_id message policy timeout invocation turn (ti_invocation ids) consume n
         (h_id app, user_id, session_id) (ti_holder ids) (l_token held)) (mkTurnVars delegated session false [])).
  { intros consume Hc. by apply (events_follows keyed home app user_id session_id message policy timeout invocation turn (ti_invocation ids) consume k lease _ _ _ Hmay Hc n (mkTurnVars delegated session false [])). }
  destruct streaming.
  - apply follows_mbind, task_follows_alter, follows_mret. split; [|apply delegated_frames_follows].
    eapply (delegated_produce_follows k _ _ (mkTurnVars delegated session false [])); [done|]. apply Hev, enqueue_follows.
  - eapply (delegated_waiting_follows k _ _ (mkTurnVars delegated session false [])); [done|]. apply Hev. intros s adk. by apply follows_mret.
Qed.

End endpoint.

(** ** A turn closes *)

Section closes.
Context `{PyRepr}.

(** C7: A delegated turn closes.  Whatever the store, the container and the worker answer: the session
    is written, the container restored and the worker heard only while the session lease is held, and the
    container only while the workspace is locked.  When the generator ends, or is left by an error of the
    turn, its invocation has one of the four end statuses, the lease is given back and the events shown
    are those appended; left by any other exception, the lease is given back unless the closing itself
    raised. *)
Theorem delegated_turn_closes home app user_id session_id message policy timeout invocation turn invocation_id n k lease key holder token delegated session :
  is_some (dget "primaryWorkspace" (ds_mountManifest delegated)) = true →
  turn_follows true (turn_closed (Granted k) lease true)
    (mkRunState (Granted k) (Leased lease) [] (mkTurnState (Held key holder token) false None false))
    (turn_events home app user_id session_id message policy timeout invocation turn invocation_id enqueue n key holder token)
    (mkTurnVars delegated session false []).
Proof.
  intros Hp.
  pose proof (events_follows true home app user_id session_id message policy timeout invocation turn invocation_id
    enqueue (Granted k) lease key holder token eq_refl (enqueue_follows true) n (mkTurnVars delegated session false [])) as He.
  cbn [tv_delegated] in He. rewrite Hp in He. by apply He.
Qed.

End closes.

(** ** Examples *)

Module DelegatedHttpExamples.
Import ApiExamples.
#[local] Instance no_repr : PyRepr := λ _, "".

Definition worker_app : HarnessRecord := new_harness "chrn_a" "fake" "fake" "active" (account_of caller) 0.
Definition delegated : DelegatedSessionRecord := DockerExamples.session.
Definition running_runtime : DelegatedRuntimeRecord := mkDelegatedRuntime "running" (Some "c1") 1 None None.
Definition its_key : SessionKey := ("chrn_a", "u1", "s1").
Definition one_turn : turn_task unit :=
  turn_events "/home/u" worker_app "u1" "s1" [] [] None 0%nat 0%nat "inv_1" enqueue 3 its_key "run_a" 1.
Definition at_first : TurnVars := mkTurnVars delegated 0%nat false [].

(** A container that starts, and a worker that ends without an event. *)
Definition container (c : service) : reply c :=
  match c return reply c with
  | RestoreDelegated _ => Ok running_runtime
  | UpdateDelegatedRuntime _ runtime => Ok (DockerExamples.session_with DockerExamples.pinned_image runtime)
  | AppendEvent _ content actions => Ok (an_event <| e_content := content |> <| e_actions := actions |>)
  | c => quiet c
  end.
Definition end_status (c : service) : option string := match c with EndTurn _ _ status => Some status | _ => None end.

Lemma delegated_turn_closes_witness :
  is_some (dget "primaryWorkspace" (ds_mountManifest delegated)) = true ∧
  turn_follows true (turn_closed (Granted "k") (Some "adm_1") true)
    (mkRunState (Granted "k") (Leased (Some "adm_1")) [] (mkTurnState (Held its_key "run_a" 1) false None false)) one_turn at_first ∧
  omap end_status (calls container (one_turn at_first) no_stream) = ["completed"].
Proof. split_and!; [vm_compute; reflexivity|apply delegated_turn_closes; vm_compute; reflexivity|vm_compute; reflexivity]. Defined.

(** *** A turn without a status ends with the status of the turn before

    The session's state outlives the turn: after a failed turn, a worker that reports no status leaves its
    turn failed. *)
Definition failed_before (c : service) : reply c :=
  match c return reply c with
  | LoadSession _ => no_session <| s_state := [("status", PStr "failed")] |>
  | c => container c
  end.
Example stale_status_ends_turn : omap end_status (calls failed_before (one_turn at_first) no_stream) = ["failed"].
Proof. by vm_compute. Qed.

(** *** An unexpected exception leaves the invocation running

    A restore whose Docker command does not exist raises [FileNotFoundError]: no status is set, no terminal
    event appended, the workspace stays locked; the invocation is stored as running, with an end time. *)
Definition no_docker (c : service) : reply c :=
  match c return reply c with RestoreDelegated _ => Raise (OtherError "FileNotFoundError" None) | c => container c end.
Definition closing_call (c : service) : option string :=
  match c with
  | EndTurn _ _ _ => Some "ended" | AppendEvent _ _ _ => Some "event" | ReleaseWorkspace _ _ => Some "workspace"
  | CompleteTurn _ _ _ => Some "completedAtMs" | PutInvocation _ => Some "stored" | ReleaseLease _ _ _ => Some "lease" | _ => None
  end.
Example unexpected_exception_stays_running :
  omap closing_call (calls no_docker (one_turn at_first) no_stream) = ["completedAtMs"; "stored"; "lease"] ∧
  ∃ v, (play no_docker (one_turn at_first) no_stream).2 = inl (v, inr (Other (Py (OtherError "FileNotFoundError" None)))).
Proof. split; [by vm_compute|]. eexists. by vm_compute. Qed.

(** *** A failed waiting run is answered as an error and replayed as a success

    The first answer is a 503; the key is completed with the events alone, so a retry gets a 200. *)
Definition unavailable (c : service) : reply c :=
  match c return reply c with RestoreDelegated _ => Raise (DelegatedContainerUnavailable "down") | c => container c end.
Example failed_delegated_run_replays_success :
  let waiting := delegated_waiting one_turn at_first (Some "k") (Some "adm_1") None "inv_1" "s1" in
  (∃ x, (play unavailable waiting no_stream).2 = inr (Http x) ∧ x_status_code x = 503) ∧
  omap (λ c, match c with Complete _ v => Some (match render_cached v false with Ok (JsonResponse status _ _) => status | _ => 0 end) | _ => None end)
    (calls unavailable waiting no_stream) = [200].
Proof. split; [eexists; split; vm_compute; reflexivity|by vm_compute]. Qed.

(** *** The session lease of a delegated run is not renewed

    It lasts thirty seconds ([acquire_lease]'s default); a turn may last a day.  A second run then takes the
    lease and starts in the same container, while the first one still writes. *)
Example second_delegated_run_starts s :
  (∃ lease, (Leases.acquire_lease 0 its_key "run_a" 30000 (s <| st_leases := [] |>)).2 = Ok lease) ∧
  (∃ lease, (Leases.acquire_lease 30000 its_key "run_b" 30000 (Leases.acquire_lease 0 its_key "run_a" 30000 (s <| st_leases := [] |>)).1).2 = Ok lease) ∧
  omap (λ c, match c with AcquireLease _ holder | ReleaseLease _ holder _ => Some holder | _ => None end)
    (calls container (run_delegated 3 3 "/home/u" (mkTurnIds "run_a" "inv_1" "turn_1") worker_app "u1" "s1" [] [] delegated false None None None) no_stream)
  = ["run_a"; "run_a"].
Proof. split_and!; [eexists; vm_compute; reflexivity|eexists; vm_compute; reflexivity|by vm_compute]. Qed.

End DelegatedHttpExamples.
