(* ===== verification/RunApi.v ===== *)
(** * The run endpoint of the HTTP layer (haas/api.py)

    [_run]: a request is checked, its idempotency key reserved, the run admitted, then driven to its end
    or streamed through a bounded queue, or handed to a delegated turn ([DelegatedHttp]).  The admission
    lease and the key are settled on every path the code handles; what it does not handle is stated as
    such. *)

From S2P Require Import Prelude Errors Dict PyVal PyInt Records Store SessionStore EventStore Identity Registry Profiles Events Sessions Admission.
From S2P Require Import Encoding DelegatedApi CodexRpc CodexTurn Async Adapter Api ControlApi RunProtocol DelegatedHttp.

#[local] Open Scope string_scope.
#[local] Open Scope list_scope.
#[local] Open Scope Z_scope.

(** ** The request *)

(** [_timeout_seconds_from_haas] *)
Definition timeout_seconds_from_haas (options : pydict) : result (option spec_float) :=
  match dget "timeoutSeconds" options with
  | None => Ok None
  | Some v =>
      seconds ← match v with
                | PInt z => match float_of_Z z with
                            | S754_infinity _ => Raise (OtherError "OverflowError" None)
                            | f => Ok f
                            end
                | PFloat f => Ok f
                | _ => Raise TypeError
                end;
      if negb (is_finite seconds) then Raise (ValueError "timeoutSeconds must be finite")
      else if SFleb seconds (S754_zero false) then Raise (ValueError "timeoutSeconds must be positive")
      else Ok (Some (if SFltb (float_of_Z 86400) seconds then float_of_Z 86400 else seconds))
  end.

(** The fields of a run's body. *)
Record RunBody := mkRunBody {
  rb_app_name : string; rb_user_id : string; rb_session_id : option string;
  rb_message : pydict; rb_sandbox : pydict; rb_policy : pydict; rb_options : pydict;
}.
Definition run_body (body : pydict) : option RunBody :=
  let empty := PDict [] in
  match pget "appName" body, pget "userId" body,
        pget_or "newMessage" empty body, pget_or "sandbox" empty body, pget_or "policy" empty body, pget_or "haas" empty body with
  | PStr (String a app), PStr (String u user), PDict message, PDict sandbox, PDict policy, PDict options =>
      match pget "sessionId" body with
      | PNone => Some (mkRunBody (String a app) (String u user) None message sandbox policy options)
      | PStr sid => Some (mkRunBody (String a app) (String u user) (Some sid) message sandbox policy options)
      | _ => None
      end
  | _, _, _, _, _, _ => None
  end.

(** [_session_busy_reason] *)
Definition session_busy_reason (text : string) : string :=
  if bool_decide (text = "configuration_update_pending") then "configuration_update_pending" else "session_busy".
Definition busy_error (text : string) : HaasError :=
  new_haas_error 409 "invalid_request_error" "session_busy" (Some (session_busy_reason text)) true.

(** ** The profile of a run *)

Section profile.
Context `{PyRepr}.

(** [_codex_builtin_mcp_only] *)
Definition builtin_recall (server : pyval) : bool :=
  match server with
  | PDict d =>
      py_eqb (pget "name" d) (PStr "manager-cowork-recall") &&
      match pget "haas_builtin" d with PBool true => true | _ => false end &&
      py_eqb (pget "transport" d) (PStr "http") &&
      match pget "url" d with PStr url => starts_with "http://127.0.0.1:" url | _ => false end &&
      match pget "headers" d with
      | PDict headers => nonempty_str (pget "X-HaaS-Session-ID" headers) && nonempty_str (pget "X-HaaS-Recall-Token" headers)
      | _ => false
      end
  | _ => false
  end.
Definition codex_builtin_mcp_only (servers : pyval) : bool :=
  match servers with PList l => forallb builtin_recall l | _ => false end.

(** [_validate_local_materialization] *)
Definition profile_conflict : HaasError := invalid_request 409 "haas_profile_conflict".
Definition validate_local_materialization (base : string) (effective : pydict) : unit + api_exn :=
  let unsupported := existsb (λ f, truthy (pget f effective)) ["skills"; "agentsMd"; "policy"; "workspace"; "budget"] in
  let servers := pget "mcpServers" effective in
  let unsupported := unsupported || (truthy servers && negb (codex_builtin_mcp_only servers)) in
  if bool_decide (base = "codex") && unsupported
  then inr (Http (new_haas_error 409 "invalid_request_error" "haas_profile_conflict" (Some "profile_materialization_unsupported") false))
  else inl tt.

(** The profile a run selects, or the active one; the errors of the profile service are answered. *)
Definition profile_error (e : exn) : api_exn :=
  match e with
  | ProfileNotFoundError _ => Http (invalid_request 404 "haas_profile_not_found")
  | ProfileConflictError _ => Http profile_conflict
  | e => Other (Py e)
  end.
Definition selected_profile (clock : Z) (p : Principal) (app : HarnessRecord) (selection : pydict) (s : MemoryStore) : result (option pydict) :=
  if truthy (pget "profileId" selection) then
    profile ← scoped_profile p (py_str (pget "profileId" selection)) s;
    if negb (bool_decide (p_harnessId profile = h_id app)) || negb (py_eqb (PInt (p_version profile)) (pget "profileVersion" selection))
    then Raise (ProfileNotFoundError (p_id profile))
    else Some <$> execution_snapshot clock profile
  else
    active ← list_profiles_scoped p (Some (h_id app)) (Some "active") s;
    match active with
    | profile :: _ => Some <$> execution_snapshot clock profile
    | [] => Ok None
    end.

(** A session keeps the profile of its first run: another selection conflicts. *)
Definition selection_changes (selection effective : pydict) : result bool :=
  if truthy (pget "profileId" selection) then
    match dget "profileId" effective with
    | None => Raise (KeyError "profileId")
    | Some id =>
        if negb (py_eqb (pget "profileId" selection) id) then Ok true
        else match dget "profileVersion" effective with
             | None => Raise (KeyError "profileVersion")
             | Some version => Ok (negb (py_eqb (pget "profileVersion" selection) version))
             end
    end
  else Ok false.

(** [_local_effective_profile]; [proxy_available] is the state of the model proxy. *)
Definition local_effective_profile (base : string) (proxy_available : bool) (clock : Z) (p : Principal) (app : HarnessRecord) (user_id : string)
    (session_id : option string) (body : pydict) (s : MemoryStore) : option pydict + api_exn :=
  match py_or (pget "haas" body) (PDict []) with
  | PDict selection =>
      let session := match session_id with
                     | Some (String a sid) => dget (h_id app, user_id, String a sid) (st_sessions s) ≫= λ l, st_session_objs s !! l
                     | _ => None
                     end in
      let kept := match session ≫= s_effectiveProfile with Some [] => None | e => e end in
      let chosen : option pydict + api_exn :=
        match kept with
        | Some effective =>
            match selection_changes selection effective with
            | Raise e => inr (Other (Py e))
            | Ok true => inr (Http (invalid_request 409 "haas_profile_rebind_required"))
            | Ok false => inl (Some effective)
            end
        | None =>
            match session ≫= s_effectiveProfile with
            | Some e => inl (Some e)
            | None => match selected_profile clock p app selection s with Ok e => inl e | Raise e => inr (profile_error e) end
            end
        end in
      match chosen with
      | inr e => inr e
      | inl effective =>
          if negb (bool_decide (base = "codex")) then inl effective
          else
            match effective with
            | Some (kv :: e) =>
                if proxy_available then
                  match validate_local_materialization base (kv :: e) with inl _ => inl effective | inr x => inr x end
                else inr (Http (new_haas_error 503 "service_unavailable" "haas_provider_error" (Some "model_proxy_unavailable") false))
            | _ => inr (Http (new_haas_error 503 "service_unavailable" "haas_provider_error" (Some "model_proxy_unavailable") false))
            end
      end
  | _ => inr (Http invalid_input)
  end.

End profile.

(** ** The stream of a run *)

Section streaming.
Context `{PyRepr}.

(** One event of the producer's loop: queued, or the subscriber has fallen behind. *)
Definition offer (adk : pydict) (s : SseState) : SseState :=
  if ss_disconnected s || ss_backpressure s then s
  else
    let s := s <| ss_last_id := py_or (pget "id" adk) (ss_last_id s) |> in
    if queue_full s then s <| ss_backpressure := true |> else push (Some (EventFrame adk)) s.

(** The loop over the run's events: the events so far, and what ended the loop but for its end, a
    failed turn (whose terminal is among the events) and a full queue. *)
Fixpoint produce_events (n : nat) (g : generator) (events : list pydict) : api_task (list pydict * option api_exn) :=
  match n with
  | O => mret (events, Some events_exhausted)
  | S n =>
      next ← (ask (NextEvent g) : api_task next_event);
      match next with
      | Event e =>
          let adk := project_adk e in
          stopped ← look (λ s, ss_backpressure (offer adk s) && negb (ss_disconnected s || ss_backpressure s));
          _ ← alter (offer adk);
          if stopped : bool then mret (events ++ [adk], None) else produce_events n g (events ++ [adk])
      | StopIteration => mret (events, None)
      | Fails e => mret (events, if is_turn_error e then None else Some (Other (Py e)))
      end
  end.

(** [asyncio.wait_for(queue.put(f), 0.5)] *)
Definition put_wait (f : option sse_frame) : api_task bool :=
  full ← look queue_full;
  slot ← (if full : bool then (ask QueueSlot : api_task bool) else mret true);
  _ ← (if slot : bool then alter (push f) else mret tt);
  mret slot.

(** [produce] *)
Definition produce_end (structured : bool) (lease : option string) : api_task unit :=
  _ ← release_lease lease;
  gone ← look ss_disconnected;
  if gone : bool then
    full ← look queue_full;
    (if full : bool then mret tt else alter (push None))
  else
    tail ← look (λ s, if ss_backpressure s && structured then BackpressureFrame (ss_last_id s) else Heartbeat);
    queued ← put_wait (Some tail);
    if queued : bool then _ ← put_wait None; mret tt else mret tt.
Definition produce (n : nat) (structured : bool) (g : generator) (key lease : option string) (expires : option Z)
    (first : pydict) (invocation_id session_id : string) : api_task unit :=
  finally_do
    (res ← produce_events n g [first];
     let (events, failed) := res : list pydict * option api_exn in
     match failed with
     | Some e => throw e
     | None => complete_key key (run_result events expires invocation_id session_id)
     end)
    (produce_end structured lease).

(** The frames the subscriber gets: the first event, then what is queued, a heartbeat whenever
    nothing is queued in time. *)
Fixpoint frames_loop (n : nat) : api_task unit :=
  match n with
  | O => throw events_exhausted
  | S n =>
      got ← (ask QueueGet : api_task bool);
      head ← look (λ s, if got : bool then hd_error (ss_queue s) else None);
      match head with
      | None =>
          done ← look (λ s, is_some (ss_done s));
          if done : bool then mret tt else _ ← yield Heartbeat; frames_loop n
      | Some f =>
          _ ← alter (λ s, s <| ss_queue := tl (ss_queue s) |>);
          match f with
          | None => mret tt
          | Some f => _ ← yield f; frames_loop n
          end
      end
  end.
Definition run_frames (n : nat) (first : pydict) : api_task unit :=
  finally_do (_ ← yield (EventFrame first); frames_loop n) frames_end.

(** ** Streaming and waiting runs *)

Definition resume_required : HaasError := invalid_request 409 "haas_resume_required".
Definition turn_failed : HaasError := new_haas_error 502 "invalid_request_error" "haas_adapter_error" None true.

(** The events of an invocation, as far as it is stored, and its session. *)
Definition stored_events (invocation_id : string) : api_task (list pydict * option string) :=
  found ← (ask (GetInvocation invocation_id) : api_task (option loc));
  match found with
  | None => mret ([], None)
  | Some l =>
      i ← (ask (LoadInvocation l) : api_task InvocationRecord);
      events ← (ask (ReadInvocation (i_appName i, i_userId i, i_sessionId i) invocation_id) : api_task (list CanonicalEventRecord));
      mret (project_adk <$> events, Some (i_sessionId i))
  end.

Definition turn_error_invocation (e : exn) : option string :=
  match e with AdapterTurnError inv | AdapterTurnTimeoutError inv => Some inv | _ => None end.

(** The streaming part of [_run]; [n] and [m] bound the events and the frames. *)
Definition run_streaming (n m maxsize : nat) (structured : bool) (key lease : option string) (req : RunRequest) : api_task response :=
  next ← (ask (NextEvent (RunStream req)) : api_task next_event);
  match next with
  | Fails (SessionBusyError text) => settle_and_refuse key lease (busy_error text)
  | Fails (ResumeRequiredError _) => settle_and_refuse key lease resume_required
  | StopIteration =>
      _ ← complete_key key [("events", PList [])];
      _ ← release_lease lease;
      mret (StreamResponse [] (mret tt))
  | Fails e =>
      match turn_error_invocation e with
      | Some invocation_id =>
          _ ← (match key with
               | Some _ =>
                   stored ← stored_events invocation_id;
                   complete_key key [("events", PList (PDict <$> (stored.1 : list pydict)))]
               | None => mret tt
               end);
          _ ← release_lease lease;
          refuse turn_failed
      | None => throw (Other (Py e))
      end
  | Event e =>
      let first := project_adk e in
      match e_invocationId e with
      | None => refuse (new_haas_error 503 "service_unavailable" "haas_store_unavailable" None true)
      | Some invocation_id =>
          expires ← accept_idempotency key invocation_id;
          _ ← alter (λ _, mkSse [] (if structured then maxsize else 0%nat) false false (pget "id" first) None);
          mret (ProducedResponse (accepted_headers (Some invocation_id) (Some (e_sessionId e)) (opt_int_val expires))
                  (produce n structured (RunStream req) key lease expires first invocation_id (e_sessionId e))
                  (run_frames m first))
      end
  end.

(** The waiting part of [_run], inside its [try]; [session_id] is the request's. *)
Definition run_waiting (trace : string) (key : option string) (session_id : option string) (req : RunRequest) : api_task response :=
  res ← (ask (RunToEnd req) : api_task (result RunResult));
  match res with
  | Raise (SessionBusyError text) => _ ← release_key key; refuse (busy_error text)
  | Raise (ResumeRequiredError _) => _ ← release_key key; refuse resume_required
  | Raise (AdapterTurnTimeoutError invocation_id) =>
      stored ← stored_events invocation_id;
      expires ← accept_idempotency key invocation_id;
      let events := PList (PDict <$> (stored.1 : list pydict)) in
      let sid := match stored.2 with Some s => Some s | None => session_id end in
      _ ← complete_key key [("events", events); ("idempotency_expires_at_ms", opt_int_val expires);
                            ("invocation_id", PStr invocation_id); ("session_id", opt_str_val sid)];
      mret (JsonResponse 200 events (accepted_headers (Some invocation_id) sid (opt_int_val expires)))
  | Raise (AdapterTurnError invocation_id) =>
      match key with
      | None => refuse turn_failed
      | Some _ =>
          stored ← stored_events invocation_id;
          let body := PDict (haas_error_content trace turn_failed) in
          let sid := match stored.2 with Some s => Some s | None => session_id end in
          _ ← complete_key key [("status_code", PInt 502); ("body", body); ("events", PList (PDict <$> (stored.1 : list pydict)));
                                ("invocation_id", PStr invocation_id); ("session_id", opt_str_val sid)];
          mret (JsonResponse 502 body [])
      end
  | Raise e => throw (Other (Py e))
  | Ok r =>
      let events := PList (PDict ∘ project_adk <$> rr_events r) in
      i ← (ask (LoadInvocation (rr_invocation r)) : api_task InvocationRecord);
      expires ← accept_idempotency key (i_id i);
      _ ← complete_key key [("status_code", PInt 200); ("events", events); ("idempotency_expires_at_ms", opt_int_val expires);
                            ("invocation_id", PStr (i_id i)); ("session_id", PStr (i_sessionId i))];
      mret (JsonResponse 200 events (accepted_headers (Some (i_id i)) (Some (i_sessionId i)) (opt_int_val expires)))
  end.

End streaming.

(** ** The endpoint *)

Section endpoint.
Context `{PyRepr} `{Sha256} `{SortedJson}.

(** Replaying a session's events of one invocation after a cursor. *)
Definition replay_stream (key : SessionKey) (after : string) : api_task response :=
  r ← (ask (ReadSession key (Some after)) : api_task (result (list CanonicalEventRecord)));
  match r with
  | Raise (CursorNotFoundError _) => refuse (invalid_request 410 "haas_offset_expired")
  | Raise e => throw (Other (Py e))
  | Ok remaining =>
      all ← attempt (ReadSession key None) id;
      match find (λ e, bool_decide (e_eventId e = after)) all with
      | None => throw (Other (Py (RuntimeError "coroutine raised StopIteration")))
      | Some cursor =>
          let replay := keep (λ e, bool_decide (e_invocationId e = e_invocationId cursor)) remaining in
          mret (StreamResponse [] (yield_all ((EventFrame ∘ project_adk <$> replay) ++ [Heartbeat])))
      end
  end.

(** Taking the key: the stored result of an earlier request, or none once the key is ours.  A holder
    that gave the key back lets the request try again, eight times at most. *)
Fixpoint own_key (n : nat) (key_hash request_hash : string) (r : IdempotencyReservation) : api_task (option pyval) :=
  if negb (kr_replay r) then mret None
  else
    res ← (match kr_result r with Some v => mret (Some v) | None => wait_for_idempotency key_hash end : api_task (option pyval));
    match res with
    | Some v => mret (Some v)
    | None =>
        match n with
        | O => refuse session_busy
        | S n => r ← reserve_key key_hash request_hash; own_key n key_hash request_hash r
        end
    end.

(** The network policy a delegated run is confined to. *)
Definition delegated_policy (policy : pydict) (r : DelegatedSessionRecord) : result pydict :=
  network ← dict_of (py_or (pget "network" (ds_delegationPolicySnapshot r)) (PDict [("defaultAction", PStr "deny"); ("allow", PList [])]));
  Ok (dset "network" (PDict network) policy).

(** Admission refused: the key is given back. *)
Definition admission_error (d : AdmissionDecision) : HaasError :=
  let code := match ad_code d with Some (String a s) => String a s | _ => "haas_rate_limited" end in
  new_haas_error (if bool_decide (code = "haas_queue_full") then 503 else 429) "invalid_request_error" code (ad_safeReason d)
    (bool_decide (code ∈ ["haas_rate_limited"; "haas_quota_exceeded"; "haas_queue_full"])).

(** What the endpoint reads of a request besides its body. *)
Record RunHttp := mkRunHttp {
  rh_request : ApiRequest; rh_authorization : option string; rh_last_event_id : option string; rh_after_event_id : option string;
  rh_streaming : bool; rh_structured : bool;
}.
Definition after_event (h : RunHttp) : option string :=
  match rh_last_event_id h with Some (String a s) => Some (String a s) | _ => rh_after_event_id h end.

(** A run of a delegated session, after admission. *)
Definition run_of_delegated (n m : nat) (home : string) (ids : TurnIds) (p : Principal) (h : RunHttp) (app : HarnessRecord) (b : RunBody)
    (key lease : option string) (timeout : option spec_float) (r : DelegatedSessionRecord) : api_task response :=
  _ ← settling key lease (
    if negb (bool_decide (ds_harnessId r = h_id app)) || negb (bool_decide (ds_haasUserId r = rb_user_id b))
    then refuse (not_found "session_not_found")
    else
      _ ← delegated_access p r;
      if ds_appliedRevision r <? ds_desiredRevision r
      then refuse (new_haas_error 409 "invalid_request_error" "session_busy" (Some "configuration_update_pending") true)
      else mret tt);
  policy ← unless_raised (delegated_policy (rb_policy b) r);
  run_delegated n m home ids app (rb_user_id b) (ds_haasSessionId r) (rb_message b) policy r (rh_streaming h) key lease timeout.

(** [_run] from admission on. *)
Definition run_admitted (n m maxsize : nat) (home trace : string) (ids : TurnIds) (p : Principal) (h : RunHttp) (app : HarnessRecord) (b : RunBody) (body : pydict)
    (key : option string) (timeout : option spec_float) : api_task response :=
  d ← (ask (AdmitRun (mkAdmissionInput (pr_principalId p) (h_id app) (pr_tenantId p) (pr_workspaceId p) "run" 1)) : api_task AdmissionDecision);
  if negb (ad_allowed d) then _ ← release_key key; refuse (admission_error d)
  else
    let lease := ad_leaseId d in
    delegated ← (match rb_session_id b with
                 | Some sid => (ask (GetDelegated sid) : api_task (option DelegatedSessionRecord))
                 | None => mret None
                 end);
    match delegated with
    | Some r => run_of_delegated n m home ids p h app b key lease timeout r
    | None =>
        profile ← settling key lease (
          r ← (ask (EffectiveProfile p app (rb_user_id b) (rb_session_id b) body) : api_task (option pydict + api_exn));
          match r with inl e => mret e | inr e => throw e end);
        let req := mkRunRequest app (rb_user_id b) (rb_message b) (rb_session_id b) timeout (rb_sandbox b) (rb_policy b) profile
                     (pr_principalId p) None None in
        if rh_streaming h then run_streaming n m maxsize (rh_structured h) key lease req
        else finally_do (run_waiting trace key (rb_session_id b) req) (release_lease lease)
    end.

(** [_run] *)
Definition run (tokens : dict string Principal) (n m maxsize : nat) (home trace : string) (ids : TurnIds) (h : RunHttp) : api_task response :=
  body ← attempt ReadBody id;
  match body with
  | PDict body =>
      match run_body body with
      | None => refuse invalid_input
      | Some b =>
          timeout ← (match timeout_seconds_from_haas (rb_options b) with
                     | Ok t => mret t
                     | Raise (ValueError _) | Raise TypeError =>
                         refuse (new_haas_error 400 "invalid_request_error" "invalid_input" (Some "invalid_timeout_seconds") false)
                     | Raise e => throw (Other (Py e))
                     end : api_task (option spec_float));
          p ← (match authenticate tokens (rh_authorization h) with
               | Ok p => mret p
               | Raise MissingCredentialError => refuse (invalid_request 401 "missing_credential")
               | Raise InvalidCredentialError => refuse (invalid_request 401 "invalid_credential")
               | Raise e => throw (Other (Py e))
               end : api_task Principal);
          _ ← ensure_owns p (rb_user_id b);
          found ← (ask (ResolveApp p (rb_app_name b)) : api_task (result HarnessRecord));
          app ← (match found with
                 | Ok app => mret app
                 | Raise (AppNotFoundError _) => refuse (not_found "app_not_found")
                 | Raise e => throw (Other (Py e))
                 end : api_task HarnessRecord);
          match after_event h with
          | Some after =>
              match rh_streaming h, rb_session_id b with
              | true, Some sid => replay_stream (h_id app, rb_user_id b, sid) after
              | _, _ => refuse invalid_input
              end
          | None =>
              match idempotency_key (rh_request h) with
              | None => run_admitted n m maxsize home trace ids p h app b body None timeout
              | Some k =>
                  let key_hash := key_hash_of p k in
                  let request_hash := request_hash_of (rh_request h) body in
                  reservation ← reserve_key key_hash request_hash;
                  stored ← own_key 7 key_hash request_hash reservation;
                  match stored with
                  | Some v => unless_raised (render_cached (as_dict v) (rh_streaming h))
                  | None => run_admitted n m maxsize home trace ids p h app b body (Some key_hash) timeout
                  end
              end
          end
      end
  | _ => refuse invalid_input
  end.

End endpoint.

(** ** A stream follows the protocol *)

Section protocol.
Context `{PyRepr} (keyed : bool).
Notation follows_run := (task_follows (run_step keyed)).
Notation run_at k lease es := (mkRunState k (Leased lease) es no_turn).

Lemma run_stored inv s (Q : run_state → list pydict * option string + api_exn → Prop) : (∀ r, Q s (inl r)) → follows_run Q s (stored_events inv).
Proof.
  intros HQ. apply follows_mbind, follows_plain; [done|]. intros [l|]; [|by apply follows_mret].
  apply follows_mbind, follows_plain; [done|]. intros i. apply follows_mbind, follows_plain; [done|]. intros es. by apply follows_mret.
Qed.

(** An event of the run. *)
Lemma run_next g k lease es (Q : run_state → next_event + api_exn → Prop) :
  may_act keyed false k = true →
  (∀ r, Q (run_at k lease (match r with Event e => es ++ [project_adk e] | _ => es end)) (inl r)) →
  follows_run Q (run_at k lease es) (ask (NextEvent g)).
Proof. intros Hk HQ. apply follows_ask. intros r. unfold run_step. cbn. rewrite Hk. cbn. apply (HQ r). Qed.

(** ** The producer and the frames *)

Lemma produce_events_follows n g k lease es (Q : run_state → list pydict * option api_exn + api_exn → Prop) :
  may_act keyed false k = true →
  (∀ es' o, Q (run_at k lease es') (inl (es', o))) →
  follows_run Q (run_at k lease es) (produce_events n g es).
Proof.
  intros Hk HQ. revert es. induction n as [|n IH]; intros es; cbn [produce_events]; [by apply follows_mret|].
  apply follows_mbind, run_next; [done|]. intros [e| |e]; [|by apply follows_mret..]. cbn zeta.
  apply follows_mbind, task_follows_look. intros s. apply follows_mbind, task_follows_alter. case_match; [by apply follows_mret|apply IH].
Qed.

Lemma put_wait_follows f s (Q : run_state → bool + api_exn → Prop) : (∀ b, Q s (inl b)) → follows_run Q s (put_wait f).
Proof.
  intros HQ. apply follows_mbind, task_follows_look. intros st. apply follows_mbind. destruct (queue_full st).
  - apply follows_plain; [done..|]. intros [|]; apply follows_mbind; [apply task_follows_alter|apply follows_mret]; by apply follows_mret.
  - apply follows_mret, follows_mbind, task_follows_alter. by apply follows_mret.
Qed.

Lemma produce_end_follows structured lease k es (Q : run_state → unit + api_exn → Prop) :
  Q (mkRunState k (returned lease) es no_turn) (inl tt) → follows_run Q (run_at k lease es) (produce_end structured lease).
Proof.
  intros HQ. apply follows_mbind, run_release_lease. apply follows_mbind, task_follows_look. intros st. destruct (ss_disconnected st).
  - apply follows_mbind, task_follows_look. intros st'. case_match; [by apply follows_mret|by apply task_follows_alter].
  - apply follows_mbind, task_follows_look. intros st'. apply follows_mbind, put_wait_follows. intros [|]; [|by apply follows_mret].
    apply follows_mbind, put_wait_follows. intros b. by apply follows_mret.
Qed.

Lemma produce_follows n structured g key k lease expires first inv sid :
  own keyed key k →
  follows_run producer_ends (run_at k lease [first]) (produce n structured g key lease expires first inv sid).
Proof.
  intros Hk. apply follows_finally. apply follows_mbind. apply produce_events_follows; [by eapply own_may|]. intros es [e|].
  - apply task_follows_throw. apply produce_end_follows. split; [apply lease_returned|done].
  - apply run_complete; [done|]. intros r Hr. apply produce_end_follows. split; [apply lease_returned|]. intros ->.
    cbn. destruct key as [x|]; [done|]. destruct Hk as [-> _]. done.
Qed.

Lemma frames_follows m first s : follows_run (λ s' _, s' = s) s (run_frames m first).
Proof.
  apply frames_with_end_follows. apply follows_mbind, run_yield. intros [u|e]; [|done].
  induction m as [|m IH]; cbn [frames_loop]; [by apply task_follows_throw|].
  apply follows_mbind, follows_plain; [done|]. intros got. apply follows_mbind, task_follows_look. intros st.
  destruct (if got then hd_error (ss_queue st) else None) as [[f|]|].
  - apply follows_mbind, task_follows_alter. apply follows_mbind, run_yield. by intros [u'|e].
  - apply follows_mbind, task_follows_alter. by apply follows_mret.
  - apply follows_mbind, task_follows_look. intros st'. case_match; [by apply follows_mret|].
    apply follows_mbind, run_yield. by intros [u'|e].
Qed.

End protocol.

(** ** The endpoint follows the protocol *)

Section run_protocol.
Context `{PyRepr} `{Sha256} `{SortedJson} (h : RunHttp).
Notation keyed := (keyed_by (rh_request h)).
Notation follows_run := (task_follows (run_step keyed)).
Notation run_at k lease es := (mkRunState k (Leased lease) es no_turn).

Lemma streaming_follows n m maxsize structured key k lease req :
  own keyed key k → follows_run (run_ends keyed) (run_at k lease []) (run_streaming n m maxsize structured key lease req).
Proof.
  intros Hk. assert (Hsettle : ∀ (x : HaasError) es, follows_run (run_ends keyed) (run_at k lease es) (settle_and_refuse key lease x)).
  { intros x es. apply run_settle; [done..|]. intros s Hs. by left. }
  assert (Hturn : ∀ inv es, follows_run (run_ends keyed) (run_at k lease es)
    (_ ← (match key with Some _ => stored ← stored_events inv; complete_key key [("events", PList (PDict <$> (stored.1 : list pydict)))] | None => mret tt end);
     _ ← release_lease lease; refuse turn_failed)).
  { intros inv es. assert (Hend : ∀ k', key_closed k' = true → follows_run (run_ends keyed) (run_at k' lease es) (_ ← release_lease lease; refuse turn_failed : api_task response)).
    { intros k' Hc. apply follows_mbind, run_release_lease, follows_refuse. left. by apply settled_returned. }
    apply follows_mbind. destruct key as [x|]; [|apply follows_mret, Hend; by destruct Hk as [-> _]].
    apply follows_mbind, run_stored. intros [es' sid]. apply run_complete; [done|]. intros r [-> | ->]; [by apply Hend|done]. }
  apply follows_mbind, run_next; [by eapply own_may|]. intros [e| |e].
  - destruct (e_invocationId e) as [inv|]; [|apply follows_refuse; by right]. apply follows_mbind, run_accept; [done| |done]. intros z.
    apply follows_mbind, task_follows_alter, follows_mret. split; [by apply produce_follows|apply frames_follows].
  - apply follows_mbind, run_complete; [done|]. intros r [-> | ->]; [|done]. apply follows_mbind, run_release_lease, follows_mret.
    apply settled_returned; [by eapply own_completed|done].
  - destruct e; first [apply Hsettle|apply Hturn|by apply task_follows_throw].
Qed.

Lemma waiting_follows trace key k lease sid req :
  own keyed key k →
  follows_run (λ s r, lease_settled s = true ∧ run_ends keyed s r) (run_at k lease []) (finally_do (run_waiting trace key sid req) (release_lease lease)).
Proof.
  intros Hk. pose proof (own_may _ _ _ Hk) as Hmay. apply follows_finally.
  assert (Hend : ∀ k' es (r : response + api_exn),
    match r with inl (ProducedResponse _ _ _) => False | inl _ | inr (Http _) => key_closed k' = true | inr (Other _) => True end →
    follows_run (λ s u, match u with inl _ => lease_settled s = true ∧ run_ends keyed s r | inr e => lease_settled s = true ∧ run_ends keyed s (inr e) end)
      (run_at k' lease es) (release_lease lease)).
  { intros k' es r Hr. apply run_release_lease. split; [apply lease_returned|]. destruct r as [[]|[]]; try done; try by apply settled_returned.
    left. by apply settled_returned. }
  apply follows_mbind, follows_ask. intros res. unfold run_step. cbn. rewrite Hmay. cbn.
  assert (Hdone : ∀ es d (a : response), match a with ProducedResponse _ _ _ => False | _ => True end →
    follows_run (λ s r, follows_run (λ s' u, match u with inl _ => lease_settled s' = true ∧ run_ends keyed s' r | inr e => lease_settled s' = true ∧ run_ends keyed s' (inr e) end) s (release_lease lease))
      (run_at k lease es) (_ ← complete_key key d; mret a)).
  { intros es d a Ha. apply follows_mbind, run_complete; [done|]. intros r [-> | ->]; [|by apply Hend].
    apply follows_mret, Hend. destruct a; try done; by eapply own_completed. }
  assert (Hgive : ∀ es x, follows_run (λ s (r : response + api_exn), follows_run (λ s' u, match u with inl _ => lease_settled s' = true ∧ run_ends keyed s' r | inr e => lease_settled s' = true ∧ run_ends keyed s' (inr e) end) s (release_lease lease))
      (run_at k lease es) (_ ← release_key key; refuse x)).
  { intros es x. apply follows_mbind, run_release_key; [done|]. apply follows_refuse, Hend. by eapply own_closed. }
  destruct res as [r|e].
  - apply follows_mbind, follows_plain; [done..|]. intros i. apply follows_mbind, run_accept; [done| |by intros e; apply Hend]. intros z. by apply Hdone.
  - destruct e; try first [apply Hgive|by apply task_follows_throw, Hend].
    + destruct key as [x|]; [|apply follows_refuse, Hend; by destruct Hk as [-> _]].
      apply follows_mbind, run_stored. intros [es' s']. by apply (Hdone _ _ (JsonResponse 502 _ [])).
    + apply follows_mbind, run_stored. intros [es' s']. apply follows_mbind, run_accept; [done| |by intros e; apply Hend]. intros z. by apply Hdone.
Qed.

Lemma settling_follows {A} key k lease (m : api_task A) (Q : run_state → A + api_exn → Prop) :
  own keyed key k →
  follows_run (λ s r, s = run_at k lease [] ∧ match r with inl a => Q s (inl a) | inr _ => True end) (run_at k lease []) m →
  (∀ s x, settled s = true → Q s (inr (Http x))) → (∀ s e, Q s (inr (Other e))) →
  follows_run Q (run_at k lease []) (settling key lease m).
Proof.
  intros Hk Hm Hx He. apply task_follows_try. eapply task_follows_weaken; [|exact Hm]. intros s [a|[x|e]] [-> HQ]; [done| |by apply task_follows_throw].
  apply run_settle; [done..|]. intros s. apply Hx.
Qed.

Lemma delegated_follows n m home ids p app b key k lease timeout r :
  own keyed key k → follows_run (run_ends keyed) (run_at k lease []) (run_of_delegated n m home ids p h app b key lease timeout r).
Proof.
  intros Hk. pose proof (own_may _ _ _ Hk) as Hmay. apply follows_mbind. apply (settling_follows _ _ _ _ _ Hk); [|by left|done].
  destruct (negb _ || negb _); [by apply follows_refuse|]. apply follows_mbind. unfold delegated_access. apply follows_mbind, follows_plain; [done..|].
  intros [u|e]; [apply follows_mret|by apply task_follows_throw]. destruct (_ <? _); [by apply follows_refuse|]. apply follows_mret. split; [done|].
  apply follows_mbind. destruct (delegated_policy _ _) as [policy|e]; [apply follows_mret|by apply task_follows_throw]. by apply run_delegated_follows.
Qed.

Lemma admitted_follows n m maxsize home trace ids p app b body key k timeout :
  own keyed key k → follows_run (run_ends keyed) (mkRunState k NotAdmitted [] no_turn) (run_admitted n m maxsize home trace ids p h app b body key timeout).
Proof.
  intros Hk. pose proof (own_may _ _ _ Hk) as Hmay. apply follows_mbind, follows_ask. intros d. unfold run_step. cbn. rewrite Hmay.
  destruct (ad_allowed d); cbn [negb].
  2: { apply follows_mbind, run_release_key; [done|]. apply follows_refuse. left. unfold settled. cbn. rewrite andb_true_r. by eapply own_closed. }
  assert (Hgo : ∀ delegated : option DelegatedSessionRecord, follows_run (run_ends keyed) (run_at k (ad_leaseId d) [])
    (match delegated with
     | Some r => run_of_delegated n m home ids p h app b key (ad_leaseId d) timeout r
     | None =>
        profile ← settling key (ad_leaseId d) (
          r ← (ask (EffectiveProfile p app (rb_user_id b) (rb_session_id b) body) : api_task (option pydict + api_exn));
          match r with inl e => mret e | inr e => throw e end);
        let req := mkRunRequest app (rb_user_id b) (rb_message b) (rb_session_id b) timeout (rb_sandbox b) (rb_policy b) profile
                     (pr_principalId p) None None in
        if rh_streaming h then run_streaming n m maxsize (rh_structured h) key (ad_leaseId d) req
        else finally_do (run_waiting trace key (rb_session_id b) req) (release_lease (ad_leaseId d))
     end)).
  { intros [r|]; [by apply delegated_follows|]. apply follows_mbind. apply (settling_follows _ _ _ _ _ Hk); [|by left|done].
    apply follows_mbind, follows_plain; [done..|]. intros [e|e]; [apply follows_mret|by apply task_follows_throw]. split; [done|]. cbn zeta.
    destruct (rh_streaming h); [by apply streaming_follows|]. eapply task_follows_weaken; [|by apply waiting_follows]. by intros s r [_ Hr]. }
  apply follows_mbind. destruct (rb_session_id b) as [sid|]; [apply follows_plain; [done..|]; exact Hgo|apply follows_mret; exact (Hgo None)].
Qed.

Definition at_start (k : key_state) : run_state := mkRunState k NotAdmitted [] no_turn.

Lemma reserve_follows (Q : run_state → IdempotencyReservation + api_exn → Prop) k0 k rh :
  (k0 = Unkeyed ∨ ∃ k, k0 = Abandoned k) →
  (∀ r, Q (at_start (if kr_replay r then match kr_result r with None => Awaited k | v => stored_or_abandoned k v end else Granted k)) (inl r)) →
  (∀ e, Q (at_start k0) (inr e)) → follows_run Q (at_start k0) (reserve_key k rh).
Proof.
  intros Hk0 Hok He. apply follows_mbind, follows_ask. intros r. unfold run_step.
  destruct Hk0 as [-> |[x ->]]; cbn; (destruct r as [res|e]; cbn; [by apply follows_mret, Hok|by apply task_follows_throw]).
Qed.

Lemma own_key_follows n k rh res (Q : run_state → option pyval + api_exn → Prop) :
  (∀ v s, settled s = true → Q s (inl (Some v))) → Q (at_start (Granted k)) (inl None) →
  (∀ s e, settled s = true → Q s (inr e)) →
  follows_run Q (at_start (if kr_replay res then match kr_result res with None => Awaited k | v => stored_or_abandoned k v end else Granted k))
    (own_key n k rh res).
Proof.
  intros Hst Hown He. revert res. induction n as [|n IH]; intros res; cbn [own_key]; destruct (kr_replay res); cbn [negb]; try by apply follows_mret.
  all: apply follows_mbind; destruct (kr_result res) as [v|]; [apply follows_mret, follows_mret, Hst; by destruct v|].
  all: apply follows_wait; [by apply run_inert..| |by apply He|by apply He]; apply follows_ask; intros v; unfold run_step; cbn.
  all: destruct v as [v|]; [apply follows_mret, Hst; by destruct v|].
  - by apply follows_refuse, He.
  - apply follows_mbind, reserve_follows; [right; by eexists|exact IH|]. intros e. by apply He.
Qed.

(** C6: A run settles what it takes, delegated or not.  Whatever the store, the runtime, the harness and
    the container answer and whatever other requests do: nothing is admitted before the request's key is
    its own, nothing runs before it is admitted, a delegated session is written and its worker heard only
    under the session lease, and no key or lease is closed twice.  When the endpoint answers or refuses, the
    admission lease is back, the key closed and a delegated turn over with its session lease back, unless
    the store is reported unavailable.  A stream's producer ends with the admission lease back; if it returns,
    which it does after the last event, a failed turn or a full queue, its turn is over and the key, if there is
    one, is closed by exactly the events it has seen.  An exception of another kind, from the runtime in mid-stream or from
    the store, ends it without that: the key may stay pending.  The frames settle nothing.  A local run that is waited for
    gives the lease back however it ends. *)
Theorem run_settles tokens n m maxsize home trace ids :
  follows_run (run_ends keyed) (at_start Unkeyed) (run tokens n m maxsize home trace ids h) ∧
  (∀ k lease sid req,
     follows_run (λ s r, lease_settled s = true ∧ run_ends keyed s r) (mkRunState (Granted k) (Leased lease) [] no_turn)
       (finally_do (run_waiting trace (Some k) sid req) (release_lease lease))).
Proof.
  split; [|intros k lease sid req; by apply waiting_follows].
  assert (Hstop : ∀ (x : HaasError), follows_run (run_ends keyed) (at_start Unkeyed) (refuse x : api_task response)) by (intros x; apply follows_refuse; by left).
  apply follows_mbind, follows_mbind, follows_plain; [done..|]. intros [v|e]; [apply follows_mret|by apply task_follows_throw].
  destruct v; try apply Hstop. destruct (run_body d) as [b|]; [|apply Hstop].
  apply follows_mbind. destruct (timeout_seconds_from_haas _) as [timeout|e]; [apply follows_mret|destruct e; first [apply follows_refuse; by left|by apply task_follows_throw]].
  apply follows_mbind. destruct (authenticate _ _) as [p|e]; [apply follows_mret|destruct e; first [apply follows_refuse; by left|by apply task_follows_throw]].
  apply follows_mbind. unfold ensure_owns. destruct (owns _ _ _ _); [apply follows_mret|apply follows_refuse; by left].
  apply follows_mbind, follows_plain; [done..|]. intros found. apply follows_mbind.
  destruct found as [app|e]; [apply follows_mret|destruct e; first [apply follows_refuse; by left|by apply task_follows_throw]].
  destruct (after_event h) as [after|].
  - destruct (rh_streaming h), (rb_session_id b) as [sid|]; try apply Hstop.
    apply follows_mbind, follows_plain; [done..|]. intros [remaining|e]; [|destruct e; first [apply Hstop|by apply task_follows_throw]].
    apply follows_mbind, follows_mbind, follows_plain; [done..|]. intros [all|e]; [apply follows_mret|by apply task_follows_throw].
    destruct (find _ _); [by apply follows_mret|by apply task_follows_throw].
  - unfold keyed_by. destruct (idempotency_key (rh_request h)) as [kt|] eqn:Hkt.
    2: { pose proof (admitted_follows n m maxsize home trace ids p app b d None Unkeyed timeout) as Ha. unfold keyed_by in Ha. rewrite Hkt in Ha. by apply Ha. }
    replace (is_some (Some kt)) with (keyed_by (rh_request h)) by (unfold keyed_by; by rewrite Hkt).
    apply follows_mbind, reserve_follows; [by left| |by intros [x|e]; [left|]]. intros res. apply follows_mbind, own_key_follows.
    + intros v s Hs. destruct (render_cached (as_dict v) (rh_streaming h)) as [r|e] eqn:Hr; cbn [unless_raised]; [|by apply task_follows_throw].
      apply follows_mret. destruct r; try exact Hs. exfalso. revert Hr. unfold render_cached. destruct (py_int _); [|done]. cbn. by repeat case_match.
    + by apply admitted_follows.
    + intros s [x|e] Hs; [by left|done].
Qed.

End run_protocol.

(** ** Examples *)

Module RunExamples.
Import ApiExamples.
#[local] Instance no_repr : PyRepr := λ _, "".
#[local] Instance digest : Sha256 := λ s, s.
#[local] Instance sorted : SortedJson := λ _, "{}".

Definition codex : HarnessRecord := new_harness "chrn_a" "codex" "codex" "active" (account_of caller) 0.
Definition plain_run : RunRequest := mkRunRequest codex "u" [] None None [] [] None "p" None None.
Definition invalid_policy : exn := PolicyUpdateInvalidError "network".

(** *** An exception no clause catches keeps the lease and the key

    A streaming run whose generator raises at once what is none of the four errors handled (an invalid
    policy of the request) makes no other call: the admission lease and the key stay taken.  A waiting
    run gives its lease back, and its key stays pending. *)
Example unhandled_exception_keeps_lease n m maxsize structured trace :
  runs (run_streaming n m maxsize structured (Some "k") (Some "adm_1") plain_run no_stream).2
    [existT (NextEvent (RunStream plain_run)) (Fails invalid_policy)] (inr (Other (Py invalid_policy))) ∧
  runs (finally_do (run_waiting trace (Some "k") None plain_run) (release_lease (Some "adm_1")) no_stream).2
    [existT (RunToEnd plain_run) (Raise invalid_policy); existT (ReleaseRun "adm_1") tt] (inr (Other (Py invalid_policy))).
Proof. split; repeat (eapply (runs_call _ _ _ no_stream); cbn); constructor. Qed.

(** A first event that names no invocation is answered as an unavailable store, with both kept. *)
Definition outside_invocations : CanonicalEventRecord := an_event <| e_invocationId := None |>.
Example stray_first_event_keeps_lease n m maxsize structured :
  ∃ x, runs (run_streaming n m maxsize structured (Some "k") (Some "adm_1") plain_run no_stream).2
    [existT (NextEvent (RunStream plain_run)) (Event outside_invocations)] (inr (Http x)) ∧ x_status_code x = 503.
Proof. eexists. split; [eapply (runs_call _ _ _ no_stream); cbn; constructor|done]. Qed.

(** *** A failed run is not replayed as it was answered

    A waiting run that failed after it was accepted answers 502 and stores that answer; every retry
    with the key gets the 502 and no events, streaming or not.  A streaming run that failed stores the
    events alone, so its retry gets a 200. *)
Definition failed_result : pydict :=
  [("status_code", PInt 502); ("body", PDict (haas_error_content "tr" turn_failed)); ("events", PList []);
   ("invocation_id", PStr "inv_1"); ("session_id", PNone)].
Example failed_run_replays_error :
  runs (run_waiting "tr" (Some "k") None plain_run no_stream).2
    [existT (RunToEnd plain_run) (Raise (AdapterTurnError "inv_1")); existT (GetInvocation "inv_1") None; existT (Complete "k" failed_result) false]
    (inl (JsonResponse 502 (PDict (haas_error_content "tr" turn_failed)) [])) ∧
  (∀ streaming, render_cached failed_result streaming =
     Ok (JsonResponse 502 (PDict (haas_error_content "tr" turn_failed)) [("X-HaaS-Invocation-ID", "inv_1")])) ∧
  ∃ headers, render_cached [("events", PList [])] false = Ok (JsonResponse 200 (PList []) headers).
Proof.
  split_and!; [repeat (eapply (runs_call _ _ _ no_stream); cbn); constructor|done|by eexists].
Qed.

(** *** A slow subscriber decides what a replay shows

    With the queue full, the producer stops at the event it could not queue, leaves the run's generator
    where it is, and stores the events so far as the run's result; the events the run would still give
    are in no replay. *)
Definition next_of (id : string) : CanonicalEventRecord := an_event <| e_eventId := id |>.
Definition full_queue : SseState := mkSse [Some Heartbeat] 1 false false PNone None.
Example slow_subscriber_truncates_replay n structured :
  let seen := run_result [project_adk an_event; project_adk (next_of "evt_2")] None "inv_1" "s" in
  runs (produce (S n) structured (RunStream plain_run) (Some "k") None None (project_adk an_event) "inv_1" "s" full_queue).2
    [existT (NextEvent (RunStream plain_run)) (Event (next_of "evt_2")); existT (Complete "k" seen) false; existT QueueSlot false] (inl tt).
Proof. repeat (eapply (runs_call _ _ _ full_queue); cbn); constructor. Qed.

(** *** Timeouts

    A timeout above a day is a day; an integer no float holds raises [OverflowError], which no clause
    catches. *)
Example huge_timeout_raises :
  timeout_seconds_from_haas [("timeoutSeconds", PInt 100000)] = Ok (Some (float_of_Z 86400)) ∧
  timeout_seconds_from_haas [("timeoutSeconds", PInt (10 ^ 400))] = Raise (OtherError "OverflowError" None).
Proof. by vm_compute. Qed.

End RunExamples.
