(* ===== verification/SessionInv.v ===== *)
(** * Invariants of the session runtime

    Every primitive the runtime uses keeps the store well formed: tables point to live
    objects under their own keys, the event log is dense and uniquely numbered, leases
    carry the latest token, and every session object, stored or held by a task, has a
    consistent policy and control state.  The composite operations inherit this. *)

From S2P Require Import Prelude Errors Dict PyVal Records Store Leases Idempotency Interactions SessionStore.
From S2P Require Import EventStore Redact Events SessionPolicy Sessions Driver.

#[local] Open Scope string_scope.
#[local] Open Scope list_scope.
#[local] Open Scope Z_scope.

(** ** The invariant *)

(** Only a paused session, or the one being resumed, offers a resume, and it names the source. *)
Definition control_ok (r : SessionRecord) : Prop :=
  known_control_state (s_controlState r) = true ∧
  (s_supportsResume r = true →
     (s_controlState r = "paused" ∨ s_controlState r = "resuming") ∧ is_Some (s_resumableInvocationId r)).

Definition session_ok (r : SessionRecord) : Prop := session_policy_ok r ∧ control_ok r.

Definition sessions_inv (s : MemoryStore) : Prop := Forall session_ok (st_session_objs s).

(** What only grows: the lease tokens handed out and the object tables.  The invariant carries
    a lower bound for them, so that keeping it for every bound is monotonicity. *)
Record floor := mkFloor {
  fl_token : SessionKey → Z; fl_sessions : nat; fl_invocations : nat; fl_turns : nat;
}.

Definition floor_of (s : MemoryStore) : floor :=
  mkFloor (λ key, last_token key s) (length (st_session_objs s)) (length (st_invocation_objs s))
    (length (st_turn_objs s)).

Definition above (fl : floor) (s : MemoryStore) : Prop :=
  (∀ key, fl_token fl key <= last_token key s) ∧ (fl_sessions fl <= length (st_session_objs s))%nat ∧
  (fl_invocations fl <= length (st_invocation_objs s))%nat ∧ (fl_turns fl <= length (st_turn_objs s))%nat.

Definition store_inv (fl : floor) (s : MemoryStore) : Prop :=
  objects_inv s ∧ log_inv s ∧ lease_inv s ∧ idem_inv s ∧ interactions_inv s ∧ sessions_inv s ∧ above fl s.

Definition runtime_inv (fl : floor) (r : Runtime) : Prop := store_inv fl (rt_store r).

Lemma above_mono fl s s' :
  above fl s → (∀ key, last_token key s <= last_token key s') →
  (length (st_session_objs s) <= length (st_session_objs s'))%nat →
  (length (st_invocation_objs s) <= length (st_invocation_objs s'))%nat →
  (length (st_turn_objs s) <= length (st_turn_objs s'))%nat → above fl s'.
Proof.
  intros (H1 & H2 & H3 & H4) K1 K2 K3 K4. split_and!; [|lia..]. intros key. specialize (H1 key). specialize (K1 key). lia.
Qed.

(** Close an [above] goal after an assignment or an allocation. *)
Ltac above_tac :=
  match goal with
  | H : above ?fl ?s |- above ?fl _ =>
      apply (above_mono fl s _ H); cbn; intros; rewrite ?length_alter, ?length_app; cbn; solve [reflexivity | lia]
  end.

Lemma above_self s : above (floor_of s) s.
Proof. split_and!; cbn; intros; lia. Qed.

Lemma store_inv_init ttl : store_inv (floor_of (MemoryStore_init ttl)) (MemoryStore_init ttl).
Proof.
  split_and!; [apply objects_inv_init|apply log_inv_init|apply lease_inv_init|apply idem_inv_init
              |apply interactions_inv_init|constructor|apply above_self].
Qed.

(** ** Session records *)

Lemma new_session_ok id app user now : session_ok (new_session id app user now).
Proof. split; [apply new_session_policy_ok|]. by split. Qed.

Lemma set_control_ok state supports resumable r :
  session_ok r → known_control_state state = true →
  (supports = true → (state = "paused" ∨ state = "resuming") ∧ is_Some resumable) →
  session_ok (set_control state supports resumable r).
Proof. intros [Hp _] Hk Hs. split; [exact Hp|]. by split. Qed.

Lemma terminal_control_ok paused inv r : session_ok r → session_ok (terminal_control paused inv r).
Proof.
  intros Hr. unfold terminal_control. destruct paused; apply set_control_ok; try done. intros _. split; [by left|done].
Qed.

Lemma apply_desired_ok r : session_ok r → session_ok (apply_desired_policy r).
Proof. intros [(? & ? & ? & _) Hc]. split; [|exact Hc]. apply apply_desired_policy_ok; [done|lia]. Qed.

Lemma copy_policy_ok c r : session_ok c → session_ok r → session_ok (copy_policy_state c r).
Proof. intros [Hc _] [_ Hr]. split; [exact Hc|exact Hr]. Qed.

(** ** Primitives *)

Lemma sessions_inv_lookup s l r : sessions_inv s → st_session_objs s !! l = Some r → session_ok r.
Proof. intros Hs Hl. by eapply Forall_lookup_1 in Hs. Qed.

Lemma Forall_alter_ok {A} (P : A → Prop) (f : A → A) l i : (∀ x, P x → P (f x)) → Forall P l → Forall P (alter f i l).
Proof.
  intros Hf Hl. apply Forall_lookup_2. intros j y Hy. destruct (decide (i = j)) as [->|Hne].
  - rewrite list_lookup_alter_eq in Hy. destruct (l !! j) as [x|] eqn:E; [|done]. injection Hy as <-.
    apply Hf. by eapply Forall_lookup_1.
  - rewrite list_lookup_alter_ne in Hy by done. by eapply Forall_lookup_1.
Qed.

Lemma store_assign_session {fl} l f :
  (∀ r, session_key (f r) = session_key r) → (∀ r, session_ok r → session_ok (f r)) →
  preserves (store_inv fl) (assign_session l f).
Proof.
  intros Hk Hf s (H1 & H2 & H3 & H4 & H5 & H6 & H7). split_and!; try done.
  - by apply objects_inv_assign_session.
  - by apply Forall_alter_ok.
  - above_tac.
Qed.

Lemma store_assign_invocation {fl} l f : (∀ r, i_id (f r) = i_id r) → preserves (store_inv fl) (assign_invocation l f).
Proof.
  intros Hk s (H1 & H2 & H3 & H4 & H5 & H6 & H7). split_and!; try done; [|above_tac]. by apply objects_inv_assign_invocation.
Qed.

Lemma store_assign_turn {fl} l f : (∀ r, t_id (f r) = t_id r) → preserves (store_inv fl) (assign_turn l f).
Proof. intros Hk s (H1 & H2 & H3 & H4 & H5 & H6 & H7). split_and!; try done; [|above_tac]. by apply objects_inv_assign_turn. Qed.

Lemma store_alloc_session {fl} r : session_ok r → preserves (store_inv fl) (alloc_session r).
Proof.
  intros Hr s (H1 & H2 & H3 & H4 & H5 & H6 & H7). split_and!; try done.
  - by apply objects_inv_alloc_session.
  - apply Forall_app. split; [done|by constructor].
  - above_tac.
Qed.

Lemma store_alloc_invocation {fl} r : preserves (store_inv fl) (alloc_invocation r).
Proof. intros s (H1 & H2 & H3 & H4 & H5 & H6 & H7). split_and!; try done; [|above_tac]. by apply objects_inv_alloc_invocation. Qed.

Lemma store_alloc_turn {fl} r : preserves (store_inv fl) (alloc_turn r).
Proof. intros s (H1 & H2 & H3 & H4 & H5 & H6 & H7). split_and!; try done; [|above_tac]. by apply objects_inv_alloc_turn. Qed.

Lemma store_put_session {fl} now l : preserves (store_inv fl) (put_session now l).
Proof.
  intros s (H1 & H2 & H3 & H4 & H5 & H6 & H7). pose proof (put_session_objects_inv now l s H1) as Ho.
  rewrite put_session_eq in *. destruct (st_session_objs s !! l) as [r|] eqn:E; [|by split_and!].
  destruct (known_control_state (s_controlState r)); [|by split_and!]. split_and!; try done; [|above_tac].
  apply Forall_app. split; [done|]. constructor; [|done]. exact (sessions_inv_lookup s l r H6 E).
Qed.

Lemma store_put_invocation {fl} now l : preserves (store_inv fl) (put_invocation now l).
Proof.
  intros s (H1 & H2 & H3 & H4 & H5 & H6 & H7). pose proof (put_invocation_objects_inv now l s H1) as Ho.
  rewrite put_invocation_eq in *. destruct (st_invocation_objs s !! l) as [r|] eqn:E; [|by split_and!].
  destruct (unanswered_status (i_status r)); split_and!; try done.
  by apply (close_pending_inv (i_id r) _ (s <| st_invocations := dset (i_id r) l (st_invocations s) |>)).
Qed.

Lemma store_put_turn {fl} l : preserves (store_inv fl) (put_turn l).
Proof.
  intros s (H1 & H2 & H3 & H4 & H5 & H6 & H7). pose proof (put_turn_objects_inv l s H1) as Ho.
  unfold put_turn, mbind, M_bind, load_turn, modify, mret, M_ret in *.
  destruct (st_turn_objs s !! l) as [r|] eqn:E; by split_and!.
Qed.

Lemma store_acquire_lease {fl} now key holder ttl : preserves (store_inv fl) (acquire_lease now key holder ttl).
Proof.
  intros s (H1 & H2 & H3 & H4 & H5 & H6 & H7). pose proof (acquire_lease_progress now key holder ttl s) as [Hl Ht]. specialize (Hl H3).
  unfold acquire_lease in *. destruct (dget key (st_leases s)) as [e|]; [destruct (_ && _)|]; split_and!; try done;
    by apply (above_mono fl s _ H7).
Qed.

Lemma store_renew_lease {fl} n1 n2 key holder token ttl : preserves (store_inv fl) (renew_lease n1 n2 key holder token ttl).
Proof.
  intros s (H1 & H2 & H3 & H4 & H5 & H6 & H7).
  pose proof (renew_lease_progress n1 n2 key holder token ttl s) as [Hl Ht]. specialize (Hl H3).
  unfold renew_lease, mbind, M_bind, assert_lease, ensure in *.
  destruct (lease_valid n1 key holder token s); split_and!; try done; by apply (above_mono fl s _ H7).
Qed.

Lemma store_release_lease {fl} key holder token : preserves (store_inv fl) (release_lease key holder token).
Proof.
  intros s (H1 & H2 & H3 & H4 & H5 & H6 & H7). pose proof (release_lease_progress key holder token s) as [Hl Ht]. specialize (Hl H3).
  unfold release_lease in *. destruct (dget key (st_leases s)) as [e|]; [destruct (_ && _)|]; split_and!; try done;
    by apply (above_mono fl s _ H7).
Qed.

Lemma store_assert_lease {fl} now key holder token : preserves (store_inv fl) (assert_lease now key holder token).
Proof. by intros s. Qed.

Lemma store_complete {fl} now k v : preserves (store_inv fl) (complete now k v).
Proof.
  intros s (H1 & H2 & H3 & H4 & H5 & H6 & H7). pose proof (complete_inv now k v s H4) as Hi.
  unfold complete in *. destruct (dget k (st_idempotency s)); by split_and!.
Qed.

Lemma store_load_session {fl} l : preserves (store_inv fl) (load_session l).
Proof. intros s Hs. unfold load_session. by destruct (st_session_objs s !! l). Qed.
Lemma store_load_invocation {fl} l : preserves (store_inv fl) (load_invocation l).
Proof. intros s Hs. unfold load_invocation. by destruct (st_invocation_objs s !! l). Qed.
Lemma store_load_turn {fl} l : preserves (store_inv fl) (load_turn l).
Proof. intros s Hs. unfold load_turn. by destruct (st_turn_objs s !! l). Qed.

Lemma store_append_typed {fl} `{PyRepr} `{RegexEngine} now ty app user inv sid turn hid aid author content actions haas :
  preserves (store_inv fl) (append_typed now ty app user inv sid turn hid aid author content actions haas).
Proof.
  intros s (H1 & H2 & H3 & H4 & H5 & H6 & H7).
  pose proof (append_typed_log now ty app user inv sid turn hid aid author content actions haas s H2) as Hl.
  rewrite append_typed_eq in *. destruct (validate_typed_metadata ty haas); by split_and!.
Qed.

Lemma store_append_harness {fl} `{PyRepr} `{RegexEngine} now ev app user hid aid :
  preserves (store_inv fl) (append_harness_event now ev app user hid aid).
Proof.
  unfold append_harness_event. apply preserves_bind; [apply preserves_lift|intros]. apply store_append_typed.
Qed.

(** A deletion drops the session's own event list and some invocations' lists. *)
Lemma store_delete_session {fl} key : preserves (store_inv fl) (delete_session key).
Proof.
  intros s (H1 & H2 & H3 & H4 & H5 & H6 & H7). pose proof (delete_session_objects_inv key s H1) as Ho.
  unfold delete_session in *. destruct (dget key (st_sessions s)) as [l|]; [|by split_and!].
  split_and!; try done.
  - destruct H2 as (Hids & Hkey & Hdense). split_and!.
    + intros k. unfold session_events. cbn. rewrite dget_ddel. case_decide; [|apply Hids].
      exists []. split_and!; constructor.
    + intros k e. unfold session_events. cbn. rewrite dget_ddel. case_decide; [set_solver|apply Hkey].
    + intros k inv. unfold invocation_events. cbn. rewrite dget_ddel_all. case_decide; [done|apply Hdense].
  - exact (idem_inv_ddel_all s (owned_idempotency (owned_invocations key.2 s) s) H4).
  - destruct H5 as (Hwa & Ha & Hwb & Hb). split_and!; cbn; try by apply dict_wf_ddel_all.
    + intros k r. rewrite dget_ddel_all. case_decide; [done|apply Ha].
    + intros k r. rewrite dget_ddel_all. case_decide; [done|apply Hb].
Qed.

(** The tactic that follows the structure of a computation. *)
#[export] Hint Resolve store_assign_session store_assign_invocation store_assign_turn store_alloc_session
  store_alloc_invocation store_alloc_turn store_put_session store_put_invocation store_put_turn
  store_acquire_lease store_renew_lease store_release_lease store_assert_lease store_complete
  store_load_session store_load_invocation store_load_turn store_append_typed store_append_harness
  store_delete_session : haas.

(** ** Composite operations *)

Lemma preserves_st I {A} (m : store_m A) : preserves I m → preserves (λ r, I (rt_store r)) (st m).
Proof. intros Hm r Hr. unfold st. specialize (Hm _ Hr). revert Hm. destruct (m (rt_store r)). exact id. Qed.

(** Computations on the rest of the runtime. *)
Lemma preserves_store_modify I (f : Runtime → Runtime) :
  (∀ r, rt_store (f r) = rt_store r) → preserves (λ r, I (rt_store r)) (modify f).
Proof. intros Hf r Hr. cbn. by rewrite Hf. Qed.

(** A driver keeps its request, session, lease and records for its whole life. *)
Definition same_run (d0 d : Drive) : Prop :=
  d_req d = d_req d0 ∧ d_session_id d = d_session_id d0 ∧ d_holder d = d_holder d0 ∧ d_token d = d_token d0 ∧
  d_invocation d = d_invocation d0 ∧ d_turn d = d_turn d0.

Definition driver_inv (fl : floor) (d0 : Drive) (s : Runtime * Drive) : Prop := runtime_inv fl s.1 ∧ same_run d0 s.2.

Lemma driver_rt {fl d0 A} (m : rt_m A) : preserves (runtime_inv fl) m → preserves (driver_inv fl d0) (rt m).
Proof.
  intros Hm [r d] [Hr Hd]. unfold rt. specialize (Hm r Hr). revert Hm. cbn. destruct (m r). intros Hm. by split.
Qed.

Lemma driver_set_local {fl d0} f : (∀ d, same_run d0 d → same_run d0 (f d)) → preserves (driver_inv fl d0) (set_local f).
Proof. intros Hf [r d] [Hr Hd]. split; [done|by apply Hf]. Qed.

(** Walk through binds, conditionals and matches, and close the leaves with the lemmas of
    the hint database. *)
Ltac keeps_step :=
  match goal with
  | |- preserves _ (mbind _ _) => apply preserves_bind; [|intros]
  | |- preserves _ (mret _) => apply preserves_ret
  | |- preserves _ (raise _) => apply preserves_raise
  | |- preserves _ (lift _) => apply preserves_lift
  | |- preserves _ (gets _) => apply preserves_gets
  | |- preserves _ (guard_or _ _) => apply preserves_guard
  | |- preserves _ (catch _ _) => apply preserves_catch; [|intros]
  | |- preserves _ (finally _ _) => apply preserves_finally
  | |- preserves (runtime_inv ?fl) (st _) => apply (preserves_st (store_inv fl))
  | |- preserves (driver_inv _ _) (rt _) => apply driver_rt
  | |- preserves (driver_inv _ _) (set_local _) => apply driver_set_local; done
  | |- preserves _ (if ?b then _ else _) => destruct b
  | |- preserves _ (match ?x with _ => _ end) => destruct x
  | |- preserves _ ((match ?x with _ => _ end) _) => destruct x
  | |- preserves _ ((match ?x with _ => _ end) _ _) => destruct x
  end; cbv beta.

Ltac keeps := repeat first [solve [eauto with haas] | keeps_step].

Lemma store_get_session {fl} key : preserves (store_inv fl) (get_session key).
Proof. apply preserves_gets. Qed.
Lemma store_get_invocation {fl} id : preserves (store_inv fl) (get_invocation id).
Proof. apply preserves_gets. Qed.
Lemma store_get_turn {fl} id : preserves (store_inv fl) (get_turn id).
Proof. apply preserves_gets. Qed.
#[export] Hint Resolve store_get_session store_get_invocation store_get_turn : haas.

Lemma store_refresh_policy_state {fl} session key : preserves (store_inv fl) (refresh_policy_state session key).
Proof.
  unfold refresh_policy_state. apply preserves_bind; [keeps|]. intros [current|]; [|keeps].
  destruct (bool_decide (current = session)); [keeps|].
  intros s Hs. unfold mbind, M_bind, load_session. destruct (st_session_objs s !! current) as [c|] eqn:E; [|done].
  pose proof Hs as (_ & _ & _ & _ & _ & Hss & _). pose proof (sessions_inv_lookup _ _ _ Hss E) as Hc.
  apply (store_assign_session session (copy_policy_state c)); [done| |done].
  intros r Hr. by apply copy_policy_ok.
Qed.

Lemma store_update_policy {fl} now wall l rev delta : preserves (store_inv fl) (update_policy now wall l rev delta).
Proof.
  intros s Hs. unfold update_policy, mbind, M_bind, load_session, guard_or, lift.
  destruct (st_session_objs s !! l) as [r|] eqn:E; [|done].
  destruct (ensure (rev =? s_desiredRevision r) _) as [[]|]; [|done].
  destruct (ensure (_ && _) _) as [[]|] eqn:Eg; [|done]. apply ensure_Ok, andb_true_iff in Eg as [_ Hdom].
  destruct (overlay_policy (s_desiredPolicy r) delta) as [cand|] eqn:Eo; [|done].
  pose proof Hs as (_ & _ & _ & _ & _ & Hss & _). pose proof (sessions_inv_lookup _ _ _ Hss E) as [Hp _].
  pose proof (overlay_policy_valid _ _ _ Hdom (proj1 Hp) Eo) as Hc.
  apply (preserves_bind (store_inv fl) (assign_session l (updated_policy wall cand delta)) (λ _, put_session now l)); [|keeps|done].
  apply store_assign_session.
  - intros r0. apply (updated_policy_control wall cand delta r0).
  - intros r0 [Hp0 [Hk Hsup]]. split; [by apply updated_policy_ok|].
    unfold control_ok, updated_policy. case_bool_decide; by split.
Qed.
#[export] Hint Resolve store_refresh_policy_state store_update_policy : haas.

(** Assignments to session fields that neither policy nor control depends on. *)
Lemma store_assign_plain {fl} l f :
  (∀ r, session_key (f r) = session_key r) → (∀ r, session_ok (f r) = session_ok r) →
  preserves (store_inv fl) (assign_session l f).
Proof. intros Hk Hf. apply store_assign_session; [done|]. intros r. by rewrite Hf. Qed.

Lemma store_set_state {fl} l delta :
  preserves (store_inv fl) (assign_session l (λ r, r <| s_state := deep_merge (s_state r) delta |>)).
Proof. by apply store_assign_plain. Qed.

Lemma store_set_native {fl} l v : preserves (store_inv fl) (assign_session l (λ r, r <| s_nativeSessionRef := v |>)).
Proof. by apply store_assign_plain. Qed.

Lemma store_set_profile {fl} l p :
  preserves (store_inv fl) (assign_session l (λ r, match s_effectiveProfile r with
                                              | None => r <| s_effectiveProfile := Some p |>
                                              | Some _ => r
                                              end)).
Proof. apply store_assign_session; intros r; by destruct (s_effectiveProfile r). Qed.

Lemma store_set_control {fl} l state supports resumable :
  known_control_state state = true →
  (supports = true → (state = "paused" ∨ state = "resuming") ∧ is_Some resumable) →
  preserves (store_inv fl) (assign_session l (set_control state supports resumable)).
Proof. intros Hk Hs. apply store_assign_session; [done|]. intros r Hr. by apply set_control_ok. Qed.

Lemma store_set_control_off {fl} l state resumable :
  known_control_state state = true → preserves (store_inv fl) (assign_session l (set_control state false resumable)).
Proof. intros Hk. by apply store_set_control. Qed.

Lemma store_terminal_control {fl} l paused inv : preserves (store_inv fl) (assign_session l (terminal_control paused inv)).
Proof.
  apply store_assign_session; [by destruct paused|]. intros r Hr. by apply terminal_control_ok.
Qed.

Lemma store_apply_desired {fl} l : preserves (store_inv fl) (assign_session l apply_desired_policy).
Proof. apply store_assign_session; [done|]. apply apply_desired_ok. Qed.

(** Going back to running, or on to resuming, from a state in which that is sound. *)
Lemma store_set_control_state {fl} l state (ok : SessionRecord → Prop) :
  known_control_state state = true →
  (∀ r, session_ok r → ok r → session_ok (r <| s_controlState := state |>)) →
  ∀ s, (store_inv fl) s → (∀ r, st_session_objs s !! l = Some r → ok r) →
  (store_inv fl) (assign_session l (λ r, r <| s_controlState := state |>) s).1.
Proof.
  intros Hk Hok s (H1 & H2 & H3 & H4 & H5 & H6 & H7) Hl. split_and!; try done.
  - by apply (objects_inv_assign_session l (λ r, r <| s_controlState := state |>)).
  - change (Forall session_ok (alter (λ r, r <| s_controlState := state |>) l (st_session_objs s))).
    apply Forall_lookup_2. intros j y Hy. destruct (decide (l = j)) as [->|Hne].
    + rewrite list_lookup_alter_eq in Hy. destruct (st_session_objs s !! j) as [x|] eqn:E; [|done].
      injection Hy as <-. apply Hok; [by eapply sessions_inv_lookup|by apply Hl].
    + rewrite list_lookup_alter_ne in Hy by done. by eapply sessions_inv_lookup.
  - above_tac.
Qed.

#[export] Hint Resolve store_set_state store_set_native store_set_profile store_set_control_off
  store_terminal_control store_apply_desired : haas.
#[export] Hint Extern 1 (known_control_state _ = true) => reflexivity : haas.

(** Computations on the active turns leave the store alone. *)
Lemma runtime_modify_active {fl} f :
  (∀ r, rt_store (f r) = rt_store r) → preserves (runtime_inv fl) (modify f).
Proof. apply preserves_store_modify. Qed.

Lemma runtime_assign_active {fl} l f : preserves (runtime_inv fl) (assign_active l f).
Proof. by apply runtime_modify_active. Qed.
Lemma runtime_set_terminal {fl} l v : preserves (runtime_inv fl) (set_terminal l v).
Proof. apply runtime_assign_active. Qed.
Lemma runtime_external {fl} c : preserves (runtime_inv fl) (external c).
Proof. by apply runtime_modify_active. Qed.
Lemma runtime_load_active {fl} l : preserves (runtime_inv fl) (load_active l).
Proof. intros r Hr. unfold load_active. by destruct (rt_active_objs r !! l). Qed.
Lemma runtime_get_active {fl} id : preserves (runtime_inv fl) (get_active id).
Proof. apply preserves_gets. Qed.
#[export] Hint Resolve runtime_assign_active runtime_set_terminal runtime_external runtime_load_active
  runtime_get_active : haas.

Section operations.
Context {repr : PyRepr} {regex : RegexEngine} (cfg : RuntimeConfig).

Lemma runtime_merge_state {fl} l d : preserves (runtime_inv fl) (merge_state l d).
Proof. unfold merge_state. keeps. Qed.
Hint Resolve runtime_merge_state : haas.

Lemma runtime_require_session {fl} a u i : preserves (runtime_inv fl) (require_session a u i).
Proof. unfold require_session. keeps. Qed.
Hint Resolve runtime_require_session : haas.

Lemma runtime_apply_state_delta {fl} now a u i d : preserves (runtime_inv fl) (apply_state_delta now a u i d).
Proof. unfold apply_state_delta. keeps. Qed.

Lemma runtime_delete_keeps {fl} a u i : preserves (runtime_inv fl) (runtime_delete_session cfg a u i).
Proof. unfold runtime_delete_session. keeps. Qed.

Lemma runtime_append_leased {fl} now e a l k h t : preserves (runtime_inv fl) (append_leased cfg now e a l k h t).
Proof. unfold append_leased. keeps. Qed.
Hint Resolve runtime_append_leased : haas.

Lemma runtime_stage_terminal {fl} now ev status i t s k h tok m :
  preserves (runtime_inv fl) (stage_terminal now ev status i t s k h tok m).
Proof. unfold stage_terminal. keeps. Qed.

Lemma runtime_seal_terminal {fl} now i t a status ev : preserves (runtime_inv fl) (seal_terminal now i t a status ev).
Proof. unfold seal_terminal. keeps. Qed.
Hint Resolve runtime_stage_terminal runtime_seal_terminal : haas.

Lemma runtime_persist_terminal {fl} now ev status a i t s k h tok m :
  preserves (runtime_inv fl) (persist_terminal_event cfg now ev status a i t s k h tok m).
Proof. unfold persist_terminal_event. keeps. Qed.
Hint Resolve runtime_persist_terminal : haas.

Lemma runtime_persist_failure {fl} now a i t s k h tok r c b :
  preserves (runtime_inv fl) (persist_failure_terminal cfg now a i t s k h tok r c b).
Proof. unfold persist_failure_terminal. keeps. Qed.
Hint Resolve runtime_persist_failure : haas.

Lemma runtime_merge_actions {fl} now s e k h t : preserves (runtime_inv fl) (merge_actions now s e k h t).
Proof. unfold merge_actions. keeps. Qed.

Lemma runtime_store_native {fl} now s n k h t : preserves (runtime_inv fl) (store_native_session_ref now s n k h t).
Proof. unfold store_native_session_ref. keeps. Qed.
Hint Resolve runtime_merge_actions runtime_store_native : haas.

Lemma runtime_complete_history {fl} now l : preserves (runtime_inv fl) (complete_idempotency_from_history now l).
Proof. unfold complete_idempotency_from_history. keeps. Qed.

Lemma runtime_find_invocation {fl} s i : preserves (runtime_inv fl) (find_invocation s i).
Proof. unfold find_invocation. keeps. Qed.

Lemma runtime_terminal_parties {fl} s i k r : preserves (runtime_inv fl) (terminal_parties s i k r).
Proof. unfold terminal_parties. keeps. Qed.
Hint Resolve runtime_complete_history runtime_find_invocation runtime_terminal_parties : haas.

Lemma runtime_reconcile_leased {fl} now s i k h t : preserves (runtime_inv fl) (reconcile_leased cfg now s i k h t).
Proof. unfold reconcile_leased. keeps. Qed.
Hint Resolve runtime_reconcile_leased : haas.

Lemma runtime_reconcile {fl} now hex s i : preserves (runtime_inv fl) (reconcile_invocation_readback cfg now hex s i).
Proof. unfold reconcile_invocation_readback. keeps. Qed.

Lemma runtime_pause_start {fl} s i : preserves (runtime_inv fl) (pause_start s i).
Proof. unfold pause_start. keeps. Qed.

Lemma runtime_pause_locked {fl} now id i s a : preserves (runtime_inv fl) (pause_locked now id i s a).
Proof. unfold pause_locked. keeps. Qed.

(** Back from an interrupt that failed: a session in a transient state offers no resume. *)
Lemma runtime_undo_interrupt {fl} {A} now from sid inv i a :
  from = "pausing" ∨ from = "cancelling" → preserves (runtime_inv fl) (undo_interrupt now from sid inv i a (A:=A)).
Proof.
  intros Hfrom. unfold undo_interrupt. apply preserves_bind; [keeps|intros []].
  apply preserves_bind; [keeps|intros r]. apply preserves_bind; [keeps|intros [l|]]; [|keeps].
  apply preserves_bind; [|keeps]. intros rt Hrt. unfold mbind, M_bind, st, load_session.
  destruct (st_session_objs (rt_store rt) !! l) as [x|] eqn:E; [|done]. cbn [rt_store upd].
  case_bool_decide as Hx; [|done].
  apply (preserves_bind (runtime_inv fl) (st (put_session now l)) (λ _, mret tt)); [keeps|keeps|].
  apply (store_set_control_state l "running" (λ x, s_controlState x = from) eq_refl); [|done|].
  - intros y [Hp [_ Hs]] Hy. split; [exact Hp|]. split; [done|]. intros Hsup. exfalso.
    destruct (Hs Hsup) as [[Hc|Hc] _]; destruct Hfrom as [Hf|Hf]; congruence.
  - intros y Hy. cbn in Hy. congruence.
Qed.

Lemma runtime_pause_replied {fl} now sid inv i a reply : preserves (runtime_inv fl) (pause_replied now sid inv i a reply).
Proof. unfold pause_replied. destruct (interrupt_ok reply); [keeps|]. apply runtime_undo_interrupt. by left. Qed.

Lemma runtime_pause_finish {fl} inv v : preserves (runtime_inv fl) (pause_finish inv v).
Proof. unfold pause_finish. keeps. Qed.

Lemma runtime_cancel_leased {fl} now s i k h t : preserves (runtime_inv fl) (cancel_leased cfg now s i k h t).
Proof. unfold cancel_leased. keeps. Qed.
Hint Resolve runtime_cancel_leased : haas.

Lemma runtime_cancel_start {fl} now hex s i : preserves (runtime_inv fl) (cancel_start cfg now hex s i).
Proof. unfold cancel_start. keeps. Qed.

Lemma runtime_cancel_readback {fl} i : preserves (runtime_inv fl) (cancel_readback i).
Proof. unfold cancel_readback. keeps. Qed.
Hint Resolve runtime_cancel_readback : haas.

Lemma runtime_cancel_locked {fl} now s i l a : preserves (runtime_inv fl) (cancel_locked now s i l a).
Proof. unfold cancel_locked. keeps. Qed.

Lemma runtime_cancel_replied {fl} now sid inv i a reply : preserves (runtime_inv fl) (cancel_replied now sid inv i a reply).
Proof. unfold cancel_replied. destruct (interrupt_ok reply); [keeps|]. apply runtime_undo_interrupt. by right. Qed.

Lemma runtime_continue {fl} s i t : preserves (runtime_inv fl) (continue_request s i t).
Proof. unfold continue_request. keeps. Qed.

(** ** The driver *)

Lemma runtime_refuse {fl} {A} k h t e : preserves (runtime_inv fl) (refuse_run k h t e (A:=A)).
Proof. unfold refuse_run. keeps. Qed.
Hint Resolve runtime_refuse : haas.

(** A session that a continued run takes over keeps its resume offer while it resumes. *)
Lemma resuming_ok r : session_ok r → s_controlState r = "paused" → session_ok (r <| s_controlState := "resuming" |>).
Proof.
  intros [Hp [_ Hs]] Hc. split; [exact Hp|]. split; [done|]. intros Hsup. destruct (Hs Hsup) as [_ ?].
  split; [by right|done].
Qed.

Lemma store_initial_policy {fl} l p :
  policy_valid p → ∀ s, (store_inv fl) s →
  (∀ r, st_session_objs s !! l = Some r → s_appliedRevision r = s_desiredRevision r) →
  (store_inv fl) (assign_session l (λ r, r <| s_desiredPolicy := p |> <| s_appliedPolicy := p |>) s).1.
Proof.
  intros Hv s (H1 & H2 & H3 & H4 & H5 & H6 & H7) Hl. split_and!; try done.
  - by apply (objects_inv_assign_session l (λ r, r <| s_desiredPolicy := p |> <| s_appliedPolicy := p |>)).
  - change (Forall session_ok (alter (λ r, r <| s_desiredPolicy := p |> <| s_appliedPolicy := p |>) l (st_session_objs s))).
    apply Forall_lookup_2. intros j y Hy. destruct (decide (l = j)) as [->|Hne].
    + rewrite list_lookup_alter_eq in Hy. destruct (st_session_objs s !! j) as [x|] eqn:E; [|done]. injection Hy as <-.
      destruct (sessions_inv_lookup _ _ _ H6 E) as [(_ & _ & Hr & Heq & Hlt) Hc]. split; [|exact Hc].
      specialize (Hl x eq_refl). destruct (Heq Hl) as (_ & ? & ?). split_and!; cbn; try done; try lia.
    + rewrite list_lookup_alter_ne in Hy by done. by eapply sessions_inv_lookup.
  - above_tac.
Qed.

(** The session of a first run: allocated with the request's policy. *)
Lemma runtime_new_session {fl} now req sid :
  preserves (runtime_inv fl)
    (session ← st (alloc_session (new_session sid (h_id (rq_app req)) (rq_user_id req) now));
     initial ← lift (initial_policy (rq_sandbox req) (rq_policy req));
     _ ← st (assign_session session (λ r, r <| s_desiredPolicy := initial |> <| s_appliedPolicy := initial |>));
     mret session).
Proof.
  intros rt Hrt. unfold mbind, M_bind, st, lift, alloc_session, mret, M_ret.
  pose proof (store_alloc_session _ (new_session_ok sid (h_id (rq_app req)) (rq_user_id req) now) _ Hrt) as Ha.
  destruct (initial_policy (rq_sandbox req) (rq_policy req)) as [p|e] eqn:E; [|exact Ha].
  apply initial_policy_valid in E. eapply store_initial_policy; [exact E|exact Ha|].
  intros r. cbn. rewrite lookup_app_r, Nat.sub_diag by done. by intros [= <-].
Qed.

Lemma runtime_admit_session {fl} now req sid k h t : preserves (runtime_inv fl) (admit_session now req sid k h t).
Proof.
  unfold admit_session. apply preserves_bind; [keeps|intros stored]. apply preserves_bind.
  { destruct stored; [keeps|]. apply runtime_new_session. }
  intros l rt Hrt. unfold mbind at 1, M_bind at 1. unfold st at 1, load_session at 1.
  destruct (st_session_objs (rt_store rt) !! l) as [r|] eqn:E; [|done].
  assert (st_session_objs (rt_store (rt <| rt_store := rt_store rt |>)) !! l = Some r) as E' by done.
  assert ((runtime_inv fl) (rt <| rt_store := rt_store rt |>)) as Hrt' by done.
  revert E' Hrt'. generalize (rt <| rt_store := rt_store rt |>). clear rt Hrt E. intros rt E Hrt.
  apply (bind_at (runtime_inv fl)); [|intros; keeps]. destruct (rq_continued_from_invocation_id req) as [src|].
  - destruct (negb _ || _ || _) eqn:Eg; [by apply runtime_refuse|]. bsimp.
    apply (store_set_control_state l "resuming" (λ x, s_controlState x = "paused") eq_refl); [apply resuming_ok|done|].
    intros x Hx. congruence.
  - apply (preserves_st (store_inv fl)); [keeps|done].
Qed.
Hint Resolve runtime_admit_session : haas.

Lemma runtime_drive_begin {fl} now ids req sid k h t : preserves (runtime_inv fl) (drive_begin cfg now ids req sid k h t).
Proof. unfold drive_begin. keeps. Qed.
Hint Resolve runtime_drive_begin : haas.

Lemma runtime_drive_start {fl} now ids req : preserves (runtime_inv fl) (drive_start cfg now ids req).
Proof. unfold drive_start. keeps. Qed.

Lemma driver_assert_own {fl d0} now : preserves (driver_inv fl d0) (assert_own_lease now).
Proof. unfold assert_own_lease, local. keeps. Qed.
Hint Resolve driver_assert_own : haas.

Lemma driver_to_prepare {fl d0} now : preserves (driver_inv fl d0) (to_prepare now).
Proof. unfold to_prepare, local. keeps. Qed.
Hint Resolve driver_to_prepare : haas.

Lemma driver_enter {fl d0} now : preserves (driver_inv fl d0) (drive_enter cfg now).
Proof. unfold drive_enter. keeps. Qed.

Lemma driver_after_prepare {fl d0} now ref : preserves (driver_inv fl d0) (after_prepare now ref).
Proof. unfold after_prepare, local. keeps. Qed.

Lemma driver_after_start {fl d0} now opaque : preserves (driver_inv fl d0) (after_start cfg now opaque).
Proof. unfold after_start, local. keeps. by apply runtime_modify_active. Qed.

Lemma driver_publish {fl d0} now outcomes : preserves (driver_inv fl d0) (publish_artifacts cfg now outcomes).
Proof. induction outcomes as [|o outcomes IH]; cbn [publish_artifacts]; unfold local; keeps. Qed.

Lemma driver_persist_own {fl d0} now ev status : preserves (driver_inv fl d0) (persist_own_terminal cfg now ev status).
Proof. unfold persist_own_terminal, local. keeps. Qed.
Hint Resolve driver_publish driver_persist_own : haas.

Lemma driver_stream_terminal {fl d0} now ev status arts : preserves (driver_inv fl d0) (stream_terminal cfg now ev status arts).
Proof. unfold stream_terminal, local. keeps. Qed.
Hint Resolve driver_stream_terminal : haas.

Lemma driver_after_event {fl d0} now ev : preserves (driver_inv fl d0) (after_event cfg now ev).
Proof. unfold after_event, local. keeps. Qed.

Lemma driver_final_terminal {fl d0} now ev status arts : preserves (driver_inv fl d0) (final_terminal cfg now ev status arts).
Proof. unfold final_terminal. keeps. Qed.

Lemma driver_finish_clean {fl d0} : preserves (driver_inv fl d0) finish_clean.
Proof. unfold finish_clean. keeps. Qed.
Hint Resolve driver_final_terminal driver_finish_clean : haas.

Lemma driver_after_finalize {fl d0} now status ev : preserves (driver_inv fl d0) (after_finalize cfg now status ev).
Proof. unfold after_finalize, local. keeps. Qed.

Lemma driver_fail_turn {fl d0} now reason code b e : preserves (driver_inv fl d0) (fail_turn cfg now reason code b e).
Proof. unfold fail_turn, local. keeps. Qed.
Hint Resolve driver_fail_turn : haas.

Lemma driver_handle {fl d0} now e : preserves (driver_inv fl d0) (handle cfg now e).
Proof.
  unfold handle, local. apply preserves_bind; [keeps|intros d]. apply preserves_bind; [keeps|intros i].
  destruct e, (d_streamed d); keeps.
Qed.

Lemma driver_enter_finally {fl d0} outcome : preserves (driver_inv fl d0) (enter_finally cfg outcome).
Proof. unfold enter_finally, local. keeps. by apply runtime_modify_active. Qed.

Lemma driver_leave_finally {fl d0} now outcome : preserves (driver_inv fl d0) (leave_finally now outcome).
Proof. unfold leave_finally, local. keeps. Qed.

Lemma driver_in_try {fl d0} now body : preserves (driver_inv fl d0) body → preserves (driver_inv fl d0) (in_try cfg now body).
Proof.
  intros Hb s Hs. unfold in_try. specialize (Hb s Hs). destruct (body s) as [s1 [[pc|]|e]]; cbn in *; [done| |].
  - by apply driver_enter_finally.
  - pose proof (driver_handle now e s1 Hb) as Hh. destruct (handle cfg now e s1) as [s2 [[pc|]|e']]; cbn in *; [done| |];
      by apply driver_enter_finally.
Qed.

Lemma driver_stay {fl d0} m : preserves (driver_inv fl d0) m → preserves (driver_inv fl d0) (stay m).
Proof. unfold stay. intros. keeps. Qed.
Hint Resolve driver_in_try driver_stay driver_after_prepare driver_after_start driver_after_event
  driver_after_finalize driver_enter_finally driver_leave_finally driver_enter : haas.

Lemma driver_step {fl d0} now pc r m : drive_step cfg now pc r = Some m → preserves (driver_inv fl d0) m.
Proof.
  unfold drive_step. intros Hm.
  repeat (case_match; try discriminate); injection Hm as <-; keeps; apply driver_in_try, driver_stay; keeps.
Qed.

Lemma runtime_renew_tick {fl} now d : preserves (runtime_inv fl) (renew_tick cfg now d).
Proof. unfold renew_tick. keeps. Qed.

End operations.
