(* ===== verification/System.v ===== *)
(** * The sidecar as a system of interleaved calls

    Runs, control calls and the other components share one store.  A system state is the
    runtime plus the suspended drivers and control calls; a step runs one segment of one of
    them, one renewal tick, or one whole synchronous call.  Every order of segments is
    allowed, so what holds along all steps holds under any scheduling, any adapter
    behaviour and any clock. *)

From S2P Require Import Prelude Errors Dict PyVal Records Store Leases Idempotency Interactions SessionStore.
From S2P Require Import EventStore Admission Redact Events SessionPolicy Sessions Driver SessionInv.

#[local] Open Scope string_scope.
#[local] Open Scope list_scope.
#[local] Open Scope Z_scope.

(** ** Synchronous calls *)

Inductive sync_call :=
  | CUpdatePolicy (now wall : Z) (key : SessionKey) (expected : Z) (delta : pydict)
  | CStateDelta (now : Z) (app user sid : string) (delta : pydict)
  | CDelete (app user sid : string)
  | CReadback (now : Z) (hex sid inv : string)
  | CIdempotency (op : idem_op)
  | CPutApproval (a : ApprovalRecord)
  | CResolveApproval (now : Z) (id : string) (decision : pydict)
  | CPutInput (q : InputRequestRecord)
  | CResolveInput (now : Z) (id : string) (answers : pydict)
  | CReconcileInteractions (clock : Z) (sid : string)
  | CWorkspaceLock (now : Z) (workspace delegated access : string) (ttl : Z)
  | CWorkspaceUnlock (workspace delegated : string)
  | CSaveHarness (now : Z) (h : HarnessRecord)
  | CSaveProfile (clock : Z) (p : ProfileRecord)
  | CPutDelegated (now : Z) (d : DelegatedSessionRecord)
  | CRate (bucket : string) (now window : Z)
  | CQuota (bucket : string) (limit : Z)
  | CQuotaRelease (bucket : string).

Section system.
Context {repr : PyRepr} {regex : RegexEngine} (cfg : RuntimeConfig).

Definition ignore {S A} (m : M S A) : M S unit := _ ← m; mret tt.

(** The policy mutation of the API, on the stored session object. *)
Definition update_stored_policy (now wall : Z) (key : SessionKey) (expected : Z) (delta : pydict) : rt_m unit :=
  found ← st (get_session key);
  match found with
  | Some l => ignore (st (update_policy now wall l expected delta))
  | None => raise (SessionNotFoundError key.2)
  end.

Definition run_sync (c : sync_call) : rt_m unit :=
  match c with
  | CUpdatePolicy now wall key expected delta => update_stored_policy now wall key expected delta
  | CStateDelta now app user sid delta => ignore (apply_state_delta now app user sid delta)
  | CDelete app user sid => runtime_delete_session cfg app user sid
  | CReadback now hex sid inv => ignore (reconcile_invocation_readback cfg now hex sid inv)
  | CIdempotency op => st (modify (exec_idem op))
  | CPutApproval a => ignore (st (put_approval a))
  | CResolveApproval now id d => ignore (st (resolve_approval now id d))
  | CPutInput q => ignore (st (put_input_request q))
  | CResolveInput now id d => ignore (st (resolve_input_request now id d))
  | CReconcileInteractions clock sid => st (reconcile_pending_interactions clock sid)
  | CWorkspaceLock now w d a ttl => ignore (st (acquire_workspace_lock now w d a ttl))
  | CWorkspaceUnlock w d => st (release_workspace_lock w d)
  | CSaveHarness now h => ignore (st (save_harness now h))
  | CSaveProfile clock p => ignore (st (save_profile clock p))
  | CPutDelegated now d => ignore (st (put_delegated_session now d))
  | CRate b now w => ignore (st (incr_window b now w))
  | CQuota b l => ignore (st (acquire_quota b l))
  | CQuotaRelease b => st (release_quota b)
  end.

(** ** System states and steps *)

Record System := mkSystem {
  sy_rt : Runtime;
  sy_drives : list (Drive * drive_pc);
  sy_pauses : list (string * string * pause_pc);
  sy_cancels : list (string * string * cancel_pc);
}.

(** A call that starts and suspends is added to its list; one that raises is gone. *)
Definition opened {A} (r : result A) (l : list A) : list A := match r with Ok a => l ++ [a] | Raise _ => l end.

(** The entry of a control call after a segment: suspended again, or gone. *)
Definition advanced {A} (j : nat) (call : string * string) (r : result A) (l : list (string * string * A))
    : list (string * string * A) :=
  match r with Ok pc => <[j := (call, pc)]> l | Raise _ => delete j l end.

(** The renewal task runs until [finally] cancels it. *)
Definition renewing (pc : drive_pc) : bool := match pc with AtRenew _ | Finished _ => false | _ => true end.

(** What a driver is after a segment: suspended again, or finished by an exception. *)
Definition settled (r : result drive_pc) : drive_pc := match r with Ok pc => pc | Raise e => Finished (Raise e) end.

Inductive sys_step : System → System → Prop :=
  | step_sync c S :
      sys_step S (mkSystem (run_sync c (sy_rt S)).1 (sy_drives S) (sy_pauses S) (sy_cancels S))
  | step_run now ids req S rt' r :
      drive_open cfg now ids req (sy_rt S) = (rt', r) →
      sys_step S (mkSystem rt' (opened r (sy_drives S)) (sy_pauses S) (sy_cancels S))
  | step_continue now ids sid inv instruction req S rt1 rt2 r :
      continue_request sid inv instruction (sy_rt S) = (rt1, Ok req) →
      drive_open cfg now ids req rt1 = (rt2, r) →
      sys_step S (mkSystem rt2 (opened r (sy_drives S)) (sy_pauses S) (sy_cancels S))
  | step_drive i now d pc rep m S rt' d' r :
      sy_drives S !! i = Some (d, pc) → drive_step cfg now pc rep = Some m →
      m (sy_rt S, d) = ((rt', d'), r) →
      sys_step S (mkSystem rt' (<[i := (d', settled r)]> (sy_drives S)) (sy_pauses S) (sy_cancels S))
  | step_renew i now d pc S :
      sy_drives S !! i = Some (d, pc) → renewing pc = true →
      sys_step S (mkSystem (renew_tick cfg now d (sy_rt S)).1 (sy_drives S) (sy_pauses S) (sy_cancels S))
  | step_pause_start sid inv S rt' r :
      pause_start sid inv (sy_rt S) = (rt', r) →
      sys_step S (mkSystem rt' (sy_drives S) (opened ((λ pc, (sid, inv, pc)) <$> r) (sy_pauses S)) (sy_cancels S))
  | step_pause_lock j now sid inv i s a act S rt' r :
      sy_pauses S !! j = Some (sid, inv, PauseLock i s a) →
      rt_active_objs (sy_rt S) !! a = Some act → at_locked act = false →
      pause_locked now inv i s a (sy_rt S) = (rt', r) →
      sys_step S (mkSystem rt' (sy_drives S)
        (advanced j (sid, inv) r (sy_pauses S)) (sy_cancels S))
  | step_pause_reply j now sid inv i a reply S rt' r :
      sy_pauses S !! j = Some (sid, inv, PauseCancel i a) →
      pause_replied now sid inv i a reply (sy_rt S) = (rt', r) →
      sys_step S (mkSystem rt' (sy_drives S)
        (advanced j (sid, inv) r (sy_pauses S)) (sy_cancels S))
  | step_pause_finish j sid inv a act v S rt' r :
      sy_pauses S !! j = Some (sid, inv, PauseWait a) →
      rt_active_objs (sy_rt S) !! a = Some act → at_terminal_status act = Some v →
      pause_finish inv v (sy_rt S) = (rt', r) →
      sys_step S (mkSystem rt' (sy_drives S) (delete j (sy_pauses S)) (sy_cancels S))
  | step_cancel_start now hex sid inv S rt' r :
      cancel_start cfg now hex sid inv (sy_rt S) = (rt', r) →
      sys_step S (mkSystem rt' (sy_drives S) (sy_pauses S) (opened ((λ pc, (sid, inv, pc)) <$> r) (sy_cancels S)))
  | step_cancel_lock j now sid inv i a act S rt' r :
      sy_cancels S !! j = Some (sid, inv, CancelLock i a) →
      rt_active_objs (sy_rt S) !! a = Some act → at_locked act = false →
      cancel_locked now sid inv i a (sy_rt S) = (rt', r) →
      sys_step S (mkSystem rt' (sy_drives S) (sy_pauses S)
        (advanced j (sid, inv) r (sy_cancels S)))
  | step_cancel_reply j now sid inv i a reply S rt' r :
      sy_cancels S !! j = Some (sid, inv, CancelCancel i a) →
      cancel_replied now sid inv i a reply (sy_rt S) = (rt', r) →
      sys_step S (mkSystem rt' (sy_drives S) (sy_pauses S)
        (advanced j (sid, inv) r (sy_cancels S))).

Definition sys_steps : System → System → Prop := rtc sys_step.

Definition initial (ttl : Z) : System := mkSystem (mkRuntime (MemoryStore_init ttl) [] [] []) [] [] [].

(** ** The other components keep the store invariant *)

Lemma runtime_ignore {fl A} (m : rt_m A) : preserves (runtime_inv fl) m → preserves (runtime_inv fl) (ignore m).
Proof. intros Hm. unfold ignore. keeps. Qed.

Lemma store_exec_idem {fl} op : preserves (store_inv fl) (modify (exec_idem op)).
Proof.
  intros s (H1 & H2 & H3 & H4 & H5 & H6 & H7). pose proof (exec_idem_inv op s H4) as Hi. cbn.
  assert (∃ d, exec_idem op s = s <| st_idempotency := d |>) as [d Hd].
  { destruct op; cbn [exec_idem]; [rewrite reserve_eq|unfold accept|unfold complete|unfold replay|unfold release
      |unfold sweep_expired]; repeat case_match; cbn [fst]; unfold sweep_expired; cbn;
      solve [eexists; reflexivity | exists (st_idempotency s); by destruct s]. }
  rewrite Hd in *. by split_and!.
Qed.

Lemma store_interactions {fl A} (m : store_m A) :
  preserves interactions_inv m →
  (∀ s, ∃ a q, (m s).1 = s <| st_approvals := a |> <| st_input_requests := q |>) → preserves (store_inv fl) m.
Proof.
  intros Hm Hf s (H1 & H2 & H3 & H4 & H5 & H6 & H7). specialize (Hm s H5). destruct (Hf s) as (a & q & Heq).
  rewrite Heq in *. by split_and!.
Qed.

Lemma interactions_frame s : ∃ a q, s = s <| st_approvals := a |> <| st_input_requests := q |>.
Proof. exists (st_approvals s), (st_input_requests s). by destruct s. Qed.

Lemma close_pending_frame id t s :
  ∃ a q, (close_pending_interactions id t s).1 = s <| st_approvals := a |> <| st_input_requests := q |>.
Proof. unfold close_pending_interactions. by eexists _, _. Qed.

Lemma reconcile_loop_keeps {fl} clock ids s : store_inv fl s → store_inv fl (reconcile_loop clock ids s).
Proof.
  revert s. induction ids as [|id ids IH]; intros s Hs; cbn; [done|]. apply IH.
  destruct (invocation_at id s) as [i|]; [|done]. destruct (unanswered_status (i_status i)); [|done].
  apply (store_interactions (close_pending_interactions id (completed_or (i_completedAtMs i) clock))); [|intros; apply close_pending_frame|done].
  apply close_pending_inv.
Qed.

(** A frame: an operation that leaves every table of the invariant as it is. *)
Definition untouched (s s' : MemoryStore) : Prop :=
  st_session_objs s' = st_session_objs s ∧ st_sessions s' = st_sessions s ∧
  st_invocation_objs s' = st_invocation_objs s ∧ st_invocations s' = st_invocations s ∧
  st_turn_objs s' = st_turn_objs s ∧ st_turns s' = st_turns s ∧
  st_events_by_invocation s' = st_events_by_invocation s ∧ st_events_by_session s' = st_events_by_session s ∧
  st_next_event_number s' = st_next_event_number s ∧ st_idempotency s' = st_idempotency s ∧
  st_leases s' = st_leases s ∧ st_lease_tokens s' = st_lease_tokens s ∧
  st_approvals s' = st_approvals s ∧ st_input_requests s' = st_input_requests s.

Lemma store_untouched {fl} s s' : untouched s s' → store_inv fl s → store_inv fl s'.
Proof.
  intros (E1 & E2 & E3 & E4 & E5 & E6 & E7 & E8 & E9 & E10 & E11 & E12 & E13 & E14) (H1 & H2 & H3 & H4 & H5 & H6 & H7).
  unfold store_inv, objects_inv, log_inv, lease_inv, idem_inv, interactions_inv, sessions_inv, above, last_token,
    session_events, invocation_events in *.
  rewrite E1, E2, E3, E4, E5, E6, E7, E8, E9, E10, E11, E12, E13, E14.
  exact (conj H1 (conj H2 (conj H3 (conj H4 (conj H5 (conj H6 H7)))))).
Qed.

Lemma store_keeps_untouched {fl A} (m : store_m A) : (∀ s, untouched s (m s).1) → preserves (store_inv fl) m.
Proof. intros Hu s Hs. by eapply store_untouched. Qed.

Lemma run_sync_keeps {fl} c : preserves (runtime_inv fl) (run_sync c).
Proof.
  destruct c; cbn [run_sync].
  - unfold update_stored_policy. apply preserves_bind; [keeps|intros [l|]]; [apply runtime_ignore; keeps|keeps].
  - apply runtime_ignore, runtime_apply_state_delta.
  - apply runtime_delete_keeps.
  - apply runtime_ignore, runtime_reconcile.
  - apply (preserves_st (store_inv fl)), store_exec_idem.
  - apply runtime_ignore, (preserves_st (store_inv fl)), store_interactions; [apply put_approval_inv|].
    intros s. unfold put_approval. repeat case_match; cbn; first [by eexists _, _ | apply interactions_frame].
  - apply runtime_ignore, (preserves_st (store_inv fl)), store_interactions; [apply resolve_approval_inv|].
    intros s. unfold resolve_approval. repeat case_match; cbn; first [by eexists _, _ | apply interactions_frame].
  - apply runtime_ignore, (preserves_st (store_inv fl)), store_interactions; [apply put_input_request_inv|].
    intros s. unfold put_input_request. repeat case_match; cbn; first [by eexists _, _ | apply interactions_frame].
  - apply runtime_ignore, (preserves_st (store_inv fl)), store_interactions; [apply resolve_input_request_inv|].
    intros s. unfold resolve_input_request. repeat case_match; cbn; first [by eexists _, _ | apply interactions_frame].
  - apply (preserves_st (store_inv fl)). intros s Hs. by apply reconcile_loop_keeps.
  - apply runtime_ignore, (preserves_st (store_inv fl)), store_keeps_untouched. intros s.
    unfold acquire_workspace_lock. repeat case_match; by split_and!.
  - apply (preserves_st (store_inv fl)), store_keeps_untouched. intros s.
    unfold release_workspace_lock. repeat case_match; by split_and!.
  - apply runtime_ignore, (preserves_st (store_inv fl)), store_keeps_untouched. intros s. by split_and!.
  - apply runtime_ignore, (preserves_st (store_inv fl)), store_keeps_untouched. intros s. by split_and!.
  - apply runtime_ignore, (preserves_st (store_inv fl)), store_keeps_untouched. intros s. by split_and!.
  - apply runtime_ignore, (preserves_st (store_inv fl)), store_keeps_untouched. intros s. by split_and!.
  - apply runtime_ignore, (preserves_st (store_inv fl)), store_keeps_untouched. intros s.
    unfold acquire_quota. repeat case_match; by split_and!.
  - apply (preserves_st (store_inv fl)), store_keeps_untouched. intros s.
    unfold release_quota, modify. repeat case_match; by split_and!.
Qed.

(** ** Every step keeps the invariant *)

Lemma same_run_refl d : same_run d d.
Proof. by split_and!. Qed.

Lemma drive_enter_keeps {fl} now rt d :
  runtime_inv fl rt → driver_inv fl d (in_try cfg now (stay (drive_enter cfg now)) (rt, d)).1.
Proof.
  intros Hrt. apply driver_in_try; [apply driver_stay, driver_enter|]. split; [done|apply same_run_refl].
Qed.

Lemma drive_open_keeps {fl} now ids req rt :
  runtime_inv fl rt → runtime_inv fl (drive_open cfg now ids req rt).1.
Proof.
  intros Hrt. unfold drive_open. pose proof (runtime_drive_start cfg now ids req rt Hrt) as Hs.
  destruct (drive_start cfg now ids req rt) as [r1 [d|e]]; [|done]. cbn in Hs.
  destruct (drive_enter_keeps now r1 d Hs) as [Ht _].
  by destruct (in_try cfg now (stay (drive_enter cfg now)) (r1, d)) as [[r2 d2] [pc|e]].
Qed.

Lemma keeps_pair {fl A} (m : rt_m A) rt rt' r :
  preserves (runtime_inv fl) m → m rt = (rt', r) → runtime_inv fl rt → runtime_inv fl rt'.
Proof. intros Hm E Hrt. specialize (Hm rt Hrt). by rewrite E in Hm. Qed.

Lemma sys_step_inv {fl} S S' : sys_step S S' → runtime_inv fl (sy_rt S) → runtime_inv fl (sy_rt S').
Proof.
  destruct 1; intros Hrt; cbn [sy_rt].
  - by apply run_sync_keeps.
  - pose proof (drive_open_keeps now ids req _ Hrt) as Ho. by rewrite H in Ho.
  - eapply keeps_pair in H; [|apply runtime_continue|exact Hrt].
    pose proof (drive_open_keeps now ids req _ H) as Ho. by rewrite H0 in Ho.
  - destruct (driver_step cfg now pc rep m H0 (sy_rt S, d) (conj Hrt (same_run_refl d))) as [Ho _]. by rewrite H1 in Ho.
  - by apply runtime_renew_tick.
  - eapply keeps_pair; [apply runtime_pause_start|done|done].
  - eapply keeps_pair; [apply runtime_pause_locked|done|done].
  - eapply keeps_pair; [apply runtime_pause_replied|done|done].
  - eapply keeps_pair; [apply runtime_pause_finish|done|done].
  - eapply keeps_pair; [apply (runtime_cancel_start cfg)|done|done].
  - eapply keeps_pair; [apply runtime_cancel_locked|done|done].
  - eapply keeps_pair; [apply runtime_cancel_replied|done|done].
Qed.

Lemma sys_steps_inv {fl} S S' : sys_steps S S' → runtime_inv fl (sy_rt S) → runtime_inv fl (sy_rt S').
Proof. induction 1 as [|S1 S2 S3 Hs _ IH]; [done|]. intros Hi. by eapply IH, sys_step_inv. Qed.

(** ** Leases over time *)

Lemma refloor {fl} rt : runtime_inv fl rt → runtime_inv (floor_of (rt_store rt)) rt.
Proof. intros (H1 & H2 & H3 & H4 & H5 & H6 & _). split_and!; try done; apply above_self. Qed.

Lemma sys_step_tokens {fl} S S' key :
  sys_step S S' → runtime_inv fl (sy_rt S) → last_token key (rt_store (sy_rt S)) <= last_token key (rt_store (sy_rt S')).
Proof.
  intros Hs Hi. destruct (sys_step_inv S S' Hs (refloor _ Hi)) as (_ & _ & _ & _ & _ & _ & Ht & _). apply Ht.
Qed.

Lemma sys_steps_tokens {fl} S S' key :
  sys_steps S S' → runtime_inv fl (sy_rt S) → last_token key (rt_store (sy_rt S)) <= last_token key (rt_store (sy_rt S')).
Proof.
  intros Hs Hi. destruct (sys_steps_inv S S' Hs (refloor _ Hi)) as (_ & _ & _ & _ & _ & _ & Ht & _). apply Ht.
Qed.

(** What a started run holds: the session's next token. *)
Lemma drive_begin_locals now ids req sid k h t rt rt' d :
  drive_begin cfg now ids req sid k h t rt = (rt', Ok d) →
  d_req d = req ∧ d_session_id d = sid ∧ d_holder d = h ∧ d_token d = t.
Proof.
  unfold drive_begin. intros Hd. repeat (apply M_bind_Ok in Hd as (? & ? & _ & Hd); cbv beta zeta in Hd).
  unfold mret, M_ret in Hd. by simplify_eq.
Qed.

Lemma drive_start_token {fl} now ids req rt rt' d :
  runtime_inv fl rt → drive_start cfg now ids req rt = (rt', Ok d) →
  d_token d = last_token (d_key d) (rt_store rt) + 1 ∧ d_token d <= last_token (d_key d) (rt_store rt').
Proof.
  intros Hi. unfold drive_start. intros (lease & rt1 & Hc & Hb)%M_bind_Ok.
  pose proof (drive_begin_locals _ _ _ _ _ _ _ _ _ _ Hb) as (Hreq & Hsid & _ & Htok).
  assert (d_key d = (h_id (rq_app req), rq_user_id req, run_session_id ids req)) as Hkey.
  { unfold d_key, d_app. by rewrite Hreq, Hsid. }
  unfold catch, st in Hc. destruct (acquire_lease _ _ _ _ _) as [s1 [l|e]] eqn:Ea; [|by destruct e].
  injection Hc as <- <-. pose proof Ea as (Hl & Hs1 & _)%acquire_lease_Ok. rewrite <-Hkey in *.
  assert (runtime_inv fl (rt <| rt_store := s1 |>)) as Hi1.
  { pose proof (store_acquire_lease now (d_key d) ("run_" +:+ ri_holder ids) (cf_lease_ttl_ms cfg) _ Hi) as Ha.
    by rewrite Ea in Ha. }
  pose proof (runtime_drive_begin cfg now ids req (run_session_id ids req) (d_key d) ("run_" +:+ ri_holder ids)
    (l_token l) _ (refloor _ Hi1)) as Hf. rewrite Hb in Hf.
  destruct Hf as (_ & _ & _ & _ & _ & _ & Ht & _). specialize (Ht (d_key d)). cbn in Ht.
  assert (last_token (d_key d) s1 = last_token (d_key d) (rt_store rt) + 1) as Hlast.
  { rewrite Hs1. unfold last_token at 1. cbn. by rewrite dget_dset_eq. }
  rewrite Htok, Hl. cbn. split; [done|]. lia.
Qed.

Lemma drive_open_token {fl} now ids req rt rt' d pc :
  runtime_inv fl rt → drive_open cfg now ids req rt = (rt', Ok (d, pc)) →
  d_token d = last_token (d_key d) (rt_store rt) + 1 ∧ d_token d <= last_token (d_key d) (rt_store rt').
Proof.
  intros Hi. unfold drive_open. destruct (drive_start cfg now ids req rt) as [r1 [d1|e]] eqn:Es; [|done].
  pose proof (drive_start_token now ids req rt r1 d1 Hi Es) as [H1 H2].
  pose proof (runtime_drive_start cfg now ids req rt Hi) as Hi1. rewrite Es in Hi1.
  pose proof (drive_enter_keeps now r1 d1 (refloor _ Hi1)) as [(_ & _ & _ & _ & _ & _ & Ht & _) (E1 & E2 & E3 & E4 & _)].
  destruct (in_try cfg now (stay (drive_enter cfg now)) (r1, d1)) as [[r2 d2] [pc2|e]]; [|done].
  intros [= <- <- <-]. cbn in *. assert (d_key d2 = d_key d1) as -> by (unfold d_key, d_app; by rewrite E1, E2).
  rewrite E4. split; [done|]. specialize (Ht (d_key d1)). lia.
Qed.

Definition drives_inv (S : System) : Prop :=
  (∀ i d pc, sy_drives S !! i = Some (d, pc) → d_token d <= last_token (d_key d) (rt_store (sy_rt S))) ∧
  (∀ i j d1 d2 pc1 pc2, sy_drives S !! i = Some (d1, pc1) → sy_drives S !! j = Some (d2, pc2) →
     d_key d1 = d_key d2 → d_token d1 = d_token d2 → i = j).

Lemma drives_inv_same S S' :
  (∀ key, last_token key (rt_store (sy_rt S)) <= last_token key (rt_store (sy_rt S'))) →
  sy_drives S' = sy_drives S → drives_inv S → drives_inv S'.
Proof.
  intros Ht Hd [H1 H2]. split; rewrite Hd; [|done]. intros i d pc Hi. specialize (H1 i d pc Hi). specialize (Ht (d_key d)). lia.
Qed.

Lemma drives_inv_opened {fl} S S' now ids req rt1 r :
  (∀ key, last_token key (rt_store (sy_rt S)) <= last_token key (rt_store rt1)) →
  runtime_inv fl rt1 → drive_open cfg now ids req rt1 = (sy_rt S', r) → sy_drives S' = opened r (sy_drives S) →
  drives_inv S → drives_inv S'.
Proof.
  intros Ht Hi Ho Hd [H1 H2].
  assert (∀ key, last_token key (rt_store rt1) <= last_token key (rt_store (sy_rt S'))) as Ht'.
  { intros key. pose proof (drive_open_keeps now ids req rt1 (refloor _ Hi)) as (_ & _ & _ & _ & _ & _ & Hk & _).
    rewrite Ho in Hk. apply Hk. }
  destruct r as [[d pc]|e]; cbn in Hd.
  - destruct (drive_open_token _ _ _ _ _ _ _ Hi Ho) as [Htok Hle]. split; rewrite Hd.
    + intros i d' pc' [Hl|(_ & Hl)]%lookup_app_Some; [|by apply list_lookup_singleton_Some in Hl as [_ [= <- <-]]].
      specialize (H1 _ _ _ Hl). specialize (Ht (d_key d')). specialize (Ht' (d_key d')). lia.
    + assert (∀ i d' pc', sy_drives S !! i = Some (d', pc') → d_key d' = d_key d → d_token d' < d_token d) as Hlt.
      { intros i d' pc' Hl Hk. specialize (H1 _ _ _ Hl). rewrite Hk in H1. specialize (Ht (d_key d)). lia. }
      intros i j d1 d2 pc1 pc2 [Hi1|(Hge1 & Hi1)]%lookup_app_Some [Hj1|(Hge2 & Hj1)]%lookup_app_Some Hk Heq.
      * by eapply H2.
      * apply list_lookup_singleton_Some in Hj1 as [_ [= <- <-]]. specialize (Hlt _ _ _ Hi1 Hk). lia.
      * apply list_lookup_singleton_Some in Hi1 as [_ [= <- <-]]. specialize (Hlt _ _ _ Hj1 (eq_sym Hk)). lia.
      * apply list_lookup_singleton_Some in Hj1 as [? _]. apply list_lookup_singleton_Some in Hi1 as [? _]. lia.
  - eapply (drives_inv_same S); [|done|by split]. intros key. specialize (Ht key). specialize (Ht' key). lia.
Qed.

Lemma sys_step_drives {fl} S S' : sys_step S S' → runtime_inv fl (sy_rt S) → drives_inv S → drives_inv S'.
Proof.
  intros Hs Hi Hd. pose proof (λ key, sys_step_tokens S S' key Hs Hi) as Ht.
  destruct Hs as [|now ids req S rt' r Ho|now ids sid inv ins req S rt1 rt2 r Hc Ho|i now d pc rep m S rt' d' r Hl Hm E| | | | | | | |];
    try (eapply drives_inv_same; [exact Ht|done|exact Hd]).
  - eapply (drives_inv_opened S _ now ids req (sy_rt S)); [done|exact Hi|exact Ho|done|done].
  - eapply (drives_inv_opened S _ now ids req rt1); [|by eapply keeps_pair; [apply runtime_continue|exact Hc|exact Hi]
      |exact Ho|done|done].
    intros key. eapply keeps_pair in Hc; [|apply runtime_continue|exact (refloor _ Hi)].
    destruct Hc as (_ & _ & _ & _ & _ & _ & Hk & _). apply Hk.
  - destruct (driver_step cfg now pc rep m Hm (sy_rt S, d) (conj Hi (same_run_refl d))) as [_ Hsame].
    rewrite E in Hsame. destruct Hsame as (E1 & E2 & _ & E4 & _). cbn in E1, E2, E4.
    assert (d_key d' = d_key d) as Hk by (unfold d_key, d_app; by rewrite E1, E2).
    assert (∀ j x px, <[i:=(d', settled r)]> (sy_drives S) !! j = Some (x, px) →
              ∃ y py, sy_drives S !! j = Some (y, py) ∧ d_key x = d_key y ∧ d_token x = d_token y) as Hback.
    { intros j x px Hj. destruct (decide (i = j)) as [<-|Hne].
      - rewrite list_lookup_insert_eq in Hj by (by eapply lookup_lt_Some). injection Hj as <- <-. eauto.
      - rewrite list_lookup_insert_ne in Hj by done. eauto. }
    destruct Hd as [H1 H2]. split; cbn.
    + intros j x px Hj. destruct (Hback _ _ _ Hj) as (y & py & Hy & -> & ->). specialize (H1 _ _ _ Hy).
      specialize (Ht (d_key y)). cbn in Ht. lia.
    + intros j1 j2 x1 x2 p1 p2 Hj1 Hj2 Hk' Ht'. destruct (Hback _ _ _ Hj1) as (y1 & q1 & Hy1 & Ek1 & Et1).
      destruct (Hback _ _ _ Hj2) as (y2 & q2 & Hy2 & Ek2 & Et2). eapply H2; [exact Hy1|exact Hy2|congruence..].
Qed.

Definition sys_inv (S : System) : Prop := runtime_inv (floor_of (rt_store (sy_rt S))) (sy_rt S) ∧ drives_inv S.

Lemma sys_inv_initial ttl : sys_inv (initial ttl).
Proof. split; [apply store_inv_init|]. by split. Qed.

Lemma sys_inv_steps S S' : sys_steps S S' → sys_inv S → sys_inv S'.
Proof.
  induction 1 as [|S1 S2 S3 Hs _ IH]; [done|]. intros [Hi Hd]. apply IH. split; [|by eapply sys_step_drives].
  eapply refloor, sys_step_inv; [exact Hs|exact Hi].
Qed.

(** ** What holds under every scheduling *)

(** C2: Every reachable state is consistent.  Whatever runs, pauses, cancellations, continuations,
    policy mutations, deletions and store calls are interleaved, with any adapter replies:
    each stored session sits under its own key with a valid policy (the applied revision at
    most the desired one, equal revisions meaning equal policies) and a known control state
    that offers a resume only while paused or resuming; event ids are unique in a session;
    and an invocation's events carry the sequence numbers 0, 1, 2, ... *)
Theorem reachable_state_consistent ttl S :
  sys_steps (initial ttl) S →
  let s := rt_store (sy_rt S) in
  (∀ key r, session_at key s = Some r → session_key r = key ∧ session_policy_ok r ∧ control_ok r) ∧
  (∀ key, NoDup (e_eventId <$> session_events key s)) ∧
  (∀ key inv i e, invocation_events key inv s !! i = Some e → e_sequenceNumber e = Z.of_nat i).
Proof.
  intros Hs. destruct (sys_inv_steps _ _ Hs (sys_inv_initial ttl)) as [(Ho & (Hids & _ & Hd) & _ & _ & _ & Hss & _) _].
  split_and!.
  - intros key r (l & Hk & Hl)%bind_Some. destruct Ho as (_ & Hobj & _). destruct (Hobj _ _ Hk) as (r' & Hr' & Hkey).
    simplify_eq. split; [done|]. exact (sessions_inv_lookup _ _ _ Hss Hl).
  - intros key. eapply ids_below_NoDup, Hids.
  - intros key inv i e He. rewrite (Hd key inv i e He). lia.
Qed.

(** C3: A superseded lease is fenced for ever.  Once a session's token counter has passed a token,
    in every later state that token fails the lease check for every holder and clock, so a
    task that still holds it can commit no terminal, merge no state delta and record no
    native reference: each attempt raises the fencing error and changes nothing. *)
Theorem superseded_lease_is_fenced ttl S S' key token :
  sys_steps (initial ttl) S → token < last_token key (rt_store (sy_rt S)) → sys_steps S S' →
  ∀ now holder,
    lease_valid now key holder token (rt_store (sy_rt S')) = false ∧
    (∀ ev status app i t s merge,
       persist_terminal_event cfg now ev status app i t s key holder token merge (sy_rt S') =
       (sy_rt S', Raise LeaseFencingError)) ∧
    (∀ s ev, merge_actions now s ev key holder token (sy_rt S') = (sy_rt S', Raise LeaseFencingError)) ∧
    (∀ s ref, ref ≠ [] →
       store_native_session_ref now s ref key holder token (sy_rt S') = (sy_rt S', Raise LeaseFencingError)).
Proof.
  intros H1 Hlt H2 now holder. destruct (sys_inv_steps _ _ H1 (sys_inv_initial ttl)) as [Hi Hd].
  pose proof (sys_steps_tokens S S' key H2 Hi) as Ht.
  destruct (sys_inv_steps _ _ H2 (conj Hi Hd)) as [(_ & _ & Hl & _) _].
  assert (lease_valid now key holder token (rt_store (sy_rt S')) = false) as Hf
    by (apply stale_token_rejected; [done|lia]).
  assert (st (assert_lease now key holder token) (sy_rt S') = (sy_rt S', Raise LeaseFencingError)) as Ha.
  { unfold st, assert_lease. rewrite Hf. cbn. by destruct (sy_rt S'). }
  split_and!; [done|..].
  - intros. unfold persist_terminal_event, stage_terminal, mbind, M_bind. by rewrite Ha.
  - intros. unfold merge_actions, mbind, M_bind. by rewrite Ha.
  - intros s ref Hne. unfold store_native_session_ref, mbind, M_bind. destruct ref; [done|]. by rewrite Ha.
Qed.

(** C4: One writer per session.  In every reachable state at most one of a session's drivers holds
    a lease that the store accepts, whatever their clocks. *)
Theorem one_writer_per_session ttl S i j d1 d2 pc1 pc2 t1 t2 :
  sys_steps (initial ttl) S →
  sy_drives S !! i = Some (d1, pc1) → sy_drives S !! j = Some (d2, pc2) → d_key d1 = d_key d2 →
  lease_valid t1 (d_key d1) (d_holder d1) (d_token d1) (rt_store (sy_rt S)) = true →
  lease_valid t2 (d_key d2) (d_holder d2) (d_token d2) (rt_store (sy_rt S)) = true → i = j.
Proof.
  intros Hs Hi Hj Hk Hv1 Hv2. destruct (sys_inv_steps _ _ Hs (sys_inv_initial ttl)) as [(_ & _ & Hl & _) [_ Huniq]].
  eapply Huniq; [exact Hi|exact Hj|done|]. apply lease_valid_token in Hv1; [|done]. apply lease_valid_token in Hv2; [|done].
  rewrite Hk in Hv1. congruence.
Qed.

End system.
