(* ===== verification/Scenarios.v ===== *)
(** * Scenarios

    Concrete executions of the system.  [play] runs a script of actions; every script that
    plays is a sequence of system steps, so the theorems about reachable states apply to it,
    and what a script computes is what the modelled code does on that input. *)

From S2P Require Import Prelude Errors Dict PyVal Records Store Leases Idempotency SessionStore EventStore Redact.
From S2P Require Import Events SessionPolicy Sessions Driver SessionInv System.

#[local] Open Scope string_scope.
#[local] Open Scope list_scope.
#[local] Open Scope Z_scope.

(** ** Scripts *)

Inductive action :=
  | Sync (c : sync_call)
  | Run (now : Z) (ids : run_ids) (req : RunRequest)
  | Continue (now : Z) (ids : run_ids) (sid inv : string)
  | Reply (i : nat) (now : Z) (r : reply)
  | Renew (i : nat) (now : Z)
  | Pause (sid inv : string)
  | PauseGo (j : nat) (now : Z)
  | PauseAnswer (j : nat) (now : Z) (r : result string).

Section scripts.
Context {repr : PyRepr} {regex : RegexEngine} (cfg : RuntimeConfig).

Definition act (a : action) (S : System) : option System :=
  match a with
  | Sync c => Some (mkSystem (run_sync cfg c (sy_rt S)).1 (sy_drives S) (sy_pauses S) (sy_cancels S))
  | Run now ids req =>
      let (rt', r) := drive_open cfg now ids req (sy_rt S) in
      Some (mkSystem rt' (opened r (sy_drives S)) (sy_pauses S) (sy_cancels S))
  | Continue now ids sid inv =>
      match continue_request sid inv None (sy_rt S) with
      | (rt1, Ok req) =>
          let (rt2, r) := drive_open cfg now ids req rt1 in
          Some (mkSystem rt2 (opened r (sy_drives S)) (sy_pauses S) (sy_cancels S))
      | _ => None
      end
  | Reply i now rep =>
      match sy_drives S !! i with
      | Some (d, pc) =>
          match drive_step cfg now pc rep with
          | Some m =>
              match m (sy_rt S, d) with
              | ((rt', d'), r) =>
                  Some (mkSystem rt' (<[i := (d', settled r)]> (sy_drives S)) (sy_pauses S) (sy_cancels S))
              end
          | None => None
          end
      | None => None
      end
  | Renew i now =>
      match sy_drives S !! i with
      | Some (d, pc) =>
          if renewing pc
          then Some (mkSystem (renew_tick cfg now d (sy_rt S)).1 (sy_drives S) (sy_pauses S) (sy_cancels S))
          else None
      | None => None
      end
  | Pause sid inv =>
      let (rt', r) := pause_start sid inv (sy_rt S) in
      Some (mkSystem rt' (sy_drives S) (opened ((λ pc, (sid, inv, pc)) <$> r) (sy_pauses S)) (sy_cancels S))
  | PauseGo j now =>
      match sy_pauses S !! j with
      | Some (sid, inv, PauseLock i s a) =>
          match rt_active_objs (sy_rt S) !! a with
          | Some active =>
              if at_locked active then None
              else
                let (rt', r) := pause_locked now inv i s a (sy_rt S) in
                Some (mkSystem rt' (sy_drives S)
                  (advanced j (sid, inv) r (sy_pauses S))
                  (sy_cancels S))
          | None => None
          end
      | _ => None
      end
  | PauseAnswer j now rep =>
      match sy_pauses S !! j with
      | Some (sid, inv, PauseCancel i a) =>
          let (rt', r) := pause_replied now sid inv i a rep (sy_rt S) in
          Some (mkSystem rt' (sy_drives S)
            (advanced j (sid, inv) r (sy_pauses S))
            (sy_cancels S))
      | _ => None
      end
  end.

Fixpoint play (script : list action) (S : System) : option System :=
  match script with [] => Some S | a :: script' => act a S ≫= play script' end.

Lemma act_step a S S' : act a S = Some S' → sys_step cfg S S'.
Proof.
  destruct a; cbn [act]; intros Ha; repeat (case_match; try discriminate); simplify_eq.
  - apply step_sync.
  - by eapply step_run.
  - by eapply step_continue.
  - by eapply step_drive.
  - by eapply step_renew.
  - by eapply step_pause_start.
  - by eapply step_pause_lock.
  - by eapply step_pause_reply.
Qed.

Lemma play_steps script S S' : play script S = Some S' → sys_steps cfg S S'.
Proof.
  revert S. induction script as [|a script IH]; intros S; cbn; [intros [= ->]; apply rtc_refl|].
  intros (S1 & Ha & Hp)%bind_Some. eapply rtc_l; [by apply (act_step a)|by apply IH].
Qed.

Lemma play_app s1 s2 S : play (s1 ++ s2) S = play s1 S ≫= play s2.
Proof. revert S. induction s1 as [|a s1 IH]; intros S; cbn; [done|]. destruct (act a S); cbn; [apply IH|done]. Qed.

End scripts.

(** ** A small world *)

Module World.

#[export] Instance repr : PyRepr := λ _, "".
(** One pattern, the name of a secret field. *)
#[export] Instance regex : RegexEngine := {|
  pattern := string; re_sub _ _ text := text; re_search p text := bool_decide (p = text);
  inline_credential_sub text := text; TOKEN_PATTERNS := []; CREDENTIAL_FIELD := "apiKey"; ABSOLUTE_PATH_RE := "";
|}.

Definition cfg : RuntimeConfig := mkConfig 30000 10000 (float_of_Z 86400) "fake-adapter" "fake" false false.
Definition app : HarnessRecord := mkHarness "app" "app" "fake" "active" None "" None None None [] [] [] None None 1 0 0.
Definition key : SessionKey := ("app", "u", "s1").
Definition req : RunRequest := mkRunRequest app "u" [] (Some "s1") None [] [] None "p" None None.
Definition ids (n : string) : run_ids := mkRunIds n n n n.

Definition turn_event (ty : string) (delta : pydict) : HarnessEvent :=
  mkHarnessEvent ty "inv_1" "s1" "turn_1" "fake" [("role", PStr "model"); ("parts", PList [])]
    [("stateDelta", PDict delta)] None None.
Definition completed : HarnessEvent := turn_event "harness.turn.completed" [("status", PStr "completed")].
Definition progress : HarnessEvent := turn_event "harness.text.delta" [("step", PInt 1)].

(** A run up to its event stream. *)
Definition streaming : list action :=
  [Sync (CSaveHarness 0 app); Run 10 (ids "1") req; Reply 0 11 (RNativeRef []); Reply 0 12 (RHandle [])].
(** The end of a run whose terminal was streamed. *)
Definition ending : list action :=
  [Reply 0 20 (REvent completed); Reply 0 21 RNext; Reply 0 22 RStop; Reply 0 23 (RFinal "completed" None);
   Reply 0 24 RNext].

Definition session_now (S : System) : option SessionRecord := session_at key (rt_store (sy_rt S)).
Definition control_now (S : System) : option string := s_controlState <$> session_now S.

(** An uneventful run: the session is idle again, one terminal is logged, the lease is free. *)
Example plain_run :
  (λ S, (control_now S, e_type <$> session_events key (rt_store (sy_rt S)),
         dget key (st_leases (rt_store (sy_rt S))))) <$> play cfg (streaming ++ ending) (initial 1000) =
  Some (Some "idle", ["haas.turn.completed"], None).
Proof. vm_compute. reflexivity. Qed.

End World.

(** ** Witnesses for the theorems on reachable states *)

Module SystemWitnesses.
Import World.

Definition after_run : System := default (initial 1000) (play cfg (streaming ++ ending) (initial 1000)).

Lemma after_run_steps : sys_steps cfg (initial 1000) after_run.
Proof. apply (play_steps cfg (streaming ++ ending)). vm_compute. reflexivity. Qed.

Lemma reachable_state_consistent_witness :
  ∃ r, session_at key (rt_store (sy_rt after_run)) = Some r ∧ session_policy_ok r ∧ control_ok r.
Proof.
  destruct (reachable_state_consistent cfg 1000 after_run after_run_steps) as [Hs _].
  destruct (session_at key (rt_store (sy_rt after_run))) as [r|] eqn:E; [|vm_compute in E; discriminate E].
  exists r. destruct (Hs key r E) as (_ & Hp & Hc). by split_and!.
Defined.

(** A second run starts after the first one's lease ran out. *)
Definition overtaken : list action := streaming ++ [Run 50000 (ids "2") req].
Definition two_drivers : System := default (initial 1000) (play cfg overtaken (initial 1000)).

Lemma two_drivers_steps : sys_steps cfg (initial 1000) two_drivers.
Proof. apply (play_steps cfg overtaken). vm_compute. reflexivity. Qed.

Lemma superseded_lease_is_fenced_witness :
  lease_valid 50001 key "run_1" 1 (rt_store (sy_rt two_drivers)) = false.
Proof.
  refine (proj1 (superseded_lease_is_fenced cfg 1000 two_drivers two_drivers key 1 two_drivers_steps _
                   (rtc_refl _ _) 50001 "run_1")).
  vm_compute. reflexivity.
Defined.

Lemma one_writer_per_session_witness :
  ∃ d pc, sy_drives two_drivers !! 1%nat = Some (d, pc) ∧
    ∀ i d' pc', sy_drives two_drivers !! i = Some (d', pc') → d_key d' = d_key d →
      lease_valid 50001 (d_key d') (d_holder d') (d_token d') (rt_store (sy_rt two_drivers)) = true → i = 1%nat.
Proof.
  destruct (sy_drives two_drivers !! 1%nat) as [[d pc]|] eqn:E; [|vm_compute in E; discriminate E].
  exists d, pc. split; [reflexivity|]. intros i d' pc' Hi Hk Hv.
  apply (one_writer_per_session cfg 1000 two_drivers i 1%nat d' d pc' pc 50001 50001 two_drivers_steps Hi E Hk Hv).
  vm_compute in E. injection E as <- _. vm_compute. reflexivity.
Defined.

End SystemWitnesses.

(** ** A policy mutation during a run *)

Module PendingPolicy.
Import World.

Definition deny_network : pydict := [("network", PDict [("defaultAction", PStr "deny"); ("allow", PList [])])].
Definition mutate (now expected : Z) : action := Sync (CUpdatePolicy now now key expected deny_network).

(** The run of [plain_run] with a policy mutation while it streams. *)
Definition mutated_run : list action := streaming ++ [mutate 15 1] ++ ending.

(** A policy mutation during a run leaves the session running for ever.  The mutation replaces
    the stored session object, so the driver's terminal control state and state delta are
    written to an object that the terminal then discards in favour of the stored one: after
    the run has ended cleanly the revision is applied, but the control state is still
    [running] and the terminal's state delta is missing.  From there the next mutation stays
    pending with nobody to apply it, and every later run is refused as busy although no turn
    is running and no lease is held. *)
Theorem mutation_during_run_wedges_session :
  ∃ S S',
    play cfg mutated_run (initial 1000) = Some S ∧
    (λ r, (s_controlState r, s_state r, s_policyStatus r, s_appliedRevision r)) <$> session_now S =
      Some ("running", [], "applied", 2) ∧
    snd <$> sy_drives S = [Finished (Ok tt)] ∧
    play cfg [mutate 100000 2] S = Some S' ∧
    (λ r, (s_policyStatus r, s_appliedRevision r, s_desiredRevision r)) <$> session_now S' = Some ("pending", 2, 3) ∧
    dget key (st_leases (rt_store (sy_rt S'))) = None ∧
    (drive_open cfg 200000 (ids "2") req (sy_rt S')).2 = Raise (SessionBusyError "configuration_update_pending").
Proof. do 2 eexists. split_and!; try (vm_compute; reflexivity). Qed.

End PendingPolicy.

(** ** A pause the adapter refuses *)

Module RefusedPause.
Import World.

Definition refused : list action :=
  streaming ++ [Pause "s1" "inv_1"; PauseGo 0 15; PauseAnswer 0 16 (Ok "unsupported")].

(** A refused pause comes back.  The pause that the adapter does not support puts the stored
    session back to [running], but the driver still holds the object it marked [pausing];
    the next event with a state delta stores that object again, and the session reads
    [pausing] although no pause is in progress. *)
Theorem refused_pause_resurfaces :
  ∃ S S',
    play cfg refused (initial 1000) = Some S ∧ control_now S = Some "running" ∧ sy_pauses S = [] ∧
    play cfg [Reply 0 17 (REvent progress)] S = Some S' ∧ control_now S' = Some "pausing" ∧ sy_pauses S' = [].
Proof. do 2 eexists. split_and!; try (vm_compute; reflexivity). Qed.

End RefusedPause.
