(* ===== verification/Terminals.v ===== *)
(** * One terminal per run

    The driver commits at most one terminal event for its invocation, whatever the adapter
    sends: a replayed terminal is skipped, a failure after a committed terminal is swallowed,
    and a terminal whose commit failed has left no event behind. *)

From S2P Require Import Prelude Errors Dict PyVal Records Store Leases Interactions SessionStore EventStore Redact.
From S2P Require Import Events SessionPolicy Sessions Driver SessionInv System Scenarios.

#[local] Open Scope string_scope.
#[local] Open Scope list_scope.

(** ** Outcomes *)

(** [m] from a state in [P] ends in [Q] when it returns and in [E] when it raises. *)
Definition triple {S A} (P : S → Prop) (m : M S A) (Q : A → S → Prop) (E : S → Prop) : Prop :=
  ∀ s, P s → match m s with (s', Ok a) => Q a s' | (s', Raise _) => E s' end.

Lemma triple_bind {S A B} P (m : M S A) (f : A → M S B) Q R E :
  triple P m Q E → (∀ a, triple (Q a) (f a) R E) → triple P (m ≫= f) R E.
Proof.
  intros Hm Hf s Hs. unfold mbind, M_bind. specialize (Hm s Hs). destruct (m s) as [s1 [a|e]]; [by apply Hf|done].
Qed.

Lemma triple_preserves {S A} (I : S → Prop) (m : M S A) : preserves I m → triple I m (λ _, I) I.
Proof. intros Hm s Hs. specialize (Hm s Hs). by destruct (m s) as [s1 []]. Qed.

Lemma triple_inv {S A} (I : S → Prop) (m : M S A) : preserves I m → triple I m (λ _, I) (λ _, True).
Proof. intros Hm s Hs. specialize (Hm s Hs). by destruct (m s) as [s1 []]. Qed.

Lemma triple_weaken {S A} (P P' : S → Prop) (m : M S A) (Q Q' : A → S → Prop) (E E' : S → Prop) :
  triple P m Q E → (∀ s, P' s → P s) → (∀ a s, Q a s → Q' a s) → (∀ s, E s → E' s) → triple P' m Q' E'.
Proof.
  intros Hm HP HQ HE s Hs. specialize (Hm s (HP s Hs)). destruct (m s) as [s1 [a|e]]; [by apply HQ|by apply HE].
Qed.

Lemma triple_ret {S A} (P : S → Prop) (a : A) (Q : A → S → Prop) E : (∀ s, P s → Q a s) → triple P (mret a) Q E.
Proof. intros Hq s Hs. by apply Hq. Qed.

Lemma triple_any {S A} (m : M S A) : triple (λ _, True) m (λ _ _, True) (λ _, True).
Proof. intros s _. by destruct (m s) as [s1 []]. Qed.

Lemma preserves_and {S A} (I J : S → Prop) (m : M S A) :
  preserves I m → preserves J m → preserves (λ s, I s ∧ J s) m.
Proof. intros HI HJ s [Hi Hj]. split; [by apply HI|by apply HJ]. Qed.

(** ** Counting terminals *)

Definition TERMINAL_TYPES : list string :=
  ["haas.turn.completed"; "haas.turn.failed"; "haas.turn.incomplete"; "haas.turn.interrupted"; "haas.turn.cancelled"].

Definition is_terminal (e : CanonicalEventRecord) : bool := bool_decide (e_type e ∈ TERMINAL_TYPES).

Definition terminals (key : SessionKey) (inv : string) (s : MemoryStore) : nat :=
  length (keep is_terminal (invocation_events key inv s)).

(** The event log is left alone. *)
Definition logged (L : dict InvocationEventKey (list CanonicalEventRecord)) (s : MemoryStore) : Prop :=
  st_events_by_invocation s = L.

Definition rt_logged L (r : Runtime) : Prop := logged L (rt_store r).
Definition d_logged L (o : option CanonicalEventRecord) (s : Runtime * Drive) : Prop :=
  rt_logged L s.1 ∧ d_streamed s.2 = o.

Lemma logged_modify L f : (∀ s, st_events_by_invocation (f s) = st_events_by_invocation s) → preserves (logged L) (modify f).
Proof. intros Hf s Hs. unfold logged. cbn. by rewrite Hf. Qed.

Lemma logged_assert L now k h t : preserves (logged L) (assert_lease now k h t).
Proof. by intros s. Qed.
Lemma logged_release L k h t : preserves (logged L) (release_lease k h t).
Proof. intros s Hs. unfold release_lease. by repeat case_match. Qed.
Lemma logged_load_session L l : preserves (logged L) (load_session l).
Proof. intros s Hs. unfold load_session. by case_match. Qed.
Lemma logged_load_invocation L l : preserves (logged L) (load_invocation l).
Proof. intros s Hs. unfold load_invocation. by case_match. Qed.
Lemma logged_load_turn L l : preserves (logged L) (load_turn l).
Proof. intros s Hs. unfold load_turn. by case_match. Qed.
Lemma logged_assign_session L l f : preserves (logged L) (assign_session l f).
Proof. by apply logged_modify. Qed.
Lemma logged_assign_invocation L l f : preserves (logged L) (assign_invocation l f).
Proof. by apply logged_modify. Qed.
Lemma logged_assign_turn L l f : preserves (logged L) (assign_turn l f).
Proof. by apply logged_modify. Qed.
Lemma logged_get_session L k : preserves (logged L) (get_session k).
Proof. apply preserves_gets. Qed.
Lemma logged_put_session L now l : preserves (logged L) (put_session now l).
Proof. intros s Hs. rewrite put_session_eq. destruct (st_session_objs s !! l) as [r|]; [|done].
  by destruct (known_control_state (s_controlState r)). Qed.
Lemma logged_put_invocation L now l : preserves (logged L) (put_invocation now l).
Proof. intros s Hs. rewrite put_invocation_eq. destruct (st_invocation_objs s !! l) as [r|]; [|done].
  by destruct (unanswered_status (i_status r)). Qed.
Lemma logged_put_turn L l : preserves (logged L) (put_turn l).
Proof. intros s Hs. unfold put_turn, mbind, M_bind, load_turn, modify, mret, M_ret.
  by destruct (st_turn_objs s !! l). Qed.

Lemma logged_acquire L now k h ttl : preserves (logged L) (acquire_lease now k h ttl).
Proof. intros s Hs. unfold acquire_lease. by repeat case_match. Qed.
Lemma logged_alloc_session L r : preserves (logged L) (alloc_session r).
Proof. by intros s. Qed.
Lemma logged_alloc_invocation L r : preserves (logged L) (alloc_invocation r).
Proof. by intros s. Qed.
Lemma logged_alloc_turn L r : preserves (logged L) (alloc_turn r).
Proof. by intros s. Qed.

Create HintDb quiet.
#[export] Hint Resolve logged_acquire logged_alloc_session logged_alloc_invocation logged_alloc_turn : quiet.
#[export] Hint Resolve logged_assert logged_release logged_load_session logged_load_invocation logged_load_turn
  logged_assign_session logged_assign_invocation logged_assign_turn logged_get_session logged_put_session
  logged_put_invocation logged_put_turn : quiet.

Lemma d_logged_rt L o {A} (m : rt_m A) : preserves (rt_logged L) m → preserves (d_logged L o) (rt m).
Proof.
  intros Hm [r d] [Hr Hd]. unfold rt. specialize (Hm r Hr). revert Hm. cbn. destruct (m r). intros Hm. by split.
Qed.
Lemma d_logged_set_local L o f : (∀ d, d_streamed (f d) = d_streamed d) → preserves (d_logged L o) (set_local f).
Proof. intros Hf [r d] [Hr Hd]. split; [done|]. cbn. by rewrite Hf. Qed.
Lemma rt_logged_modify L f : (∀ r, rt_store (f r) = rt_store r) → preserves (rt_logged L) (modify f).
Proof. intros Hf r Hr. unfold rt_logged. cbn. by rewrite Hf. Qed.
Lemma rt_logged_assign_active L l f : preserves (rt_logged L) (assign_active l f).
Proof. by apply rt_logged_modify. Qed.
Lemma rt_logged_external L c : preserves (rt_logged L) (external c).
Proof. by apply rt_logged_modify. Qed.
#[export] Hint Resolve rt_logged_assign_active rt_logged_external : quiet.

Ltac quiet_step :=
  match goal with
  | |- preserves (rt_logged ?L) (st _) => apply (preserves_st (logged L))
  | |- preserves (d_logged _ _) (rt _) => apply d_logged_rt
  | |- preserves (d_logged _ _) (set_local _) => apply d_logged_set_local; done
  | |- preserves (rt_logged _) (modify _) => apply rt_logged_modify; done
  | |- preserves (rt_logged _) (set_terminal _ _) => apply rt_logged_assign_active
  | |- preserves _ (get_active _) => apply preserves_gets
  | |- preserves _ (local _) => apply preserves_gets
  | _ => keeps_step
  end.
Ltac quiet := repeat first [solve [eauto with quiet] | quiet_step].

Lemma logged_refresh L s k : preserves (logged L) (refresh_policy_state s k).
Proof. unfold refresh_policy_state. quiet. Qed.
#[export] Hint Resolve logged_refresh : quiet.

Lemma quiet_merge_state L l d : preserves (rt_logged L) (merge_state l d).
Proof. unfold merge_state. quiet. Qed.
Lemma quiet_require_session L a u i : preserves (rt_logged L) (require_session a u i).
Proof. unfold require_session. quiet. Qed.
#[export] Hint Resolve quiet_merge_state quiet_require_session : quiet.

Lemma quiet_stage L now ev status i t s k h tok m : preserves (rt_logged L) (stage_terminal now ev status i t s k h tok m).
Proof. unfold stage_terminal. quiet. Qed.
Lemma quiet_seal L now i t a status ev : preserves (rt_logged L) (seal_terminal now i t a status ev).
Proof. unfold seal_terminal. quiet. Qed.
Lemma quiet_merge_actions L now s e k h t : preserves (rt_logged L) (merge_actions now s e k h t).
Proof. unfold merge_actions. quiet. Qed.
Lemma quiet_store_native L now s n k h t : preserves (rt_logged L) (store_native_session_ref now s n k h t).
Proof. unfold store_native_session_ref. quiet. Qed.
#[export] Hint Resolve quiet_stage quiet_seal quiet_merge_actions quiet_store_native : quiet.

(** ** Appends *)

Lemma canonical_terminal ev : canonical_type (he_type ev) ∈ TERMINAL_TYPES → is_Some (terminal_status ev).
Proof.
  unfold canonical_type, terminal_status. destruct (dget (he_type ev) HARNESS_EVENT_TYPES) as [t|] eqn:E; cbn [default from_option];
    [|unfold TERMINAL_TYPES; set_solver].
  apply dget_Some_elem in E. intros Ht.
  assert ((he_type ev, t) ∈ keep (λ kv, bool_decide (kv.2 ∈ TERMINAL_TYPES)) HARNESS_EVENT_TYPES) as Hin.
  { apply elem_of_keep. split; [|done]. by apply bool_decide_eq_true. }
  assert (keep (λ kv, bool_decide (kv.2 ∈ TERMINAL_TYPES)) HARNESS_EVENT_TYPES =
    [("harness.turn.completed", "haas.turn.completed"); ("harness.turn.failed", "haas.turn.failed");
     ("harness.turn.incomplete", "haas.turn.incomplete"); ("harness.turn.interrupted", "haas.turn.interrupted");
     ("harness.turn.cancelled", "haas.turn.cancelled")]) as Hk by (vm_compute; reflexivity).
  rewrite Hk in Hin. clear Hk E Ht.
  repeat (apply elem_of_cons in Hin as [[= -> _]|Hin]; [by eexists|]). by apply not_elem_of_nil in Hin.
Qed.

Section terminals.
Context {repr : PyRepr} {regex : RegexEngine} (cfg : RuntimeConfig) (key : SessionKey) (inv : string).

Definition within (n : nat) (s : MemoryStore) : Prop := (terminals key inv s <= n)%nat.

Lemma within_logged n {A} (m : store_m A) : (∀ L, preserves (logged L) m) → preserves (within n) m.
Proof.
  intros Hm s Hs. specialize (Hm (st_events_by_invocation s) s eq_refl). unfold within, terminals, invocation_events.
  unfold logged in Hm. by rewrite Hm.
Qed.

Lemma append_event_terminals e s :
  terminals key inv (append_event e s).1 =
  (terminals key inv s + if decide (event_session_key e = key ∧ e_invocationId e = Some inv)
                         then if is_terminal e then 1 else 0 else 0)%nat.
Proof.
  unfold terminals. rewrite invocation_events_append, keep_app, length_app.
  repeat case_decide; cbn; try naive_solver. by destruct (is_terminal e).
Qed.

Lemma append_typed_quiet n now ty app user i sid turn hid aid author content actions haas :
  ty ∉ TERMINAL_TYPES →
  preserves (within n) (append_typed now ty app user i sid turn hid aid author content actions haas).
Proof.
  intros Hty s Hs. rewrite append_typed_eq. destruct (validate_typed_metadata ty haas); [|done].
  cbn [fst]. unfold within. rewrite append_event_terminals.
  change (terminals key inv (s <| st_next_event_number := (st_next_event_number s + 1)%N |>)) with (terminals key inv s).
  unfold is_terminal. cbn [e_type typed_event]. rewrite bool_decide_eq_false_2 by done. case_decide; unfold within in Hs; lia.
Qed.

Lemma append_typed_one n now ty app user i sid turn hid aid author content actions haas :
  triple (within n) (append_typed now ty app user i sid turn hid aid author content actions haas)
    (λ _, within (S n)) (within n).
Proof.
  intros s Hs. rewrite append_typed_eq. destruct (validate_typed_metadata ty haas); [|done].
  unfold within in *. rewrite append_event_terminals.
  change (terminals key inv (s <| st_next_event_number := (st_next_event_number s + 1)%N |>)) with (terminals key inv s).
  case_decide; [destruct (is_terminal _)|]; lia.
Qed.

Definition rt_within (n : nat) (r : Runtime) : Prop := within n (rt_store r).

Lemma rt_within_logged n {A} (m : rt_m A) : (∀ L, preserves (rt_logged L) m) → preserves (rt_within n) m.
Proof.
  intros Hm s Hs. specialize (Hm (st_events_by_invocation (rt_store s)) s eq_refl).
  unfold rt_within, within, terminals, invocation_events. unfold rt_logged, logged in Hm. by rewrite Hm.
Qed.

Lemma append_leased_quiet n now ev app i k h t :
  terminal_status ev = None → preserves (rt_within n) (append_leased cfg now ev app i k h t).
Proof.
  intros Hev. unfold append_leased. apply preserves_bind; [apply rt_within_logged; intros; quiet|intros _].
  apply preserves_bind; [apply rt_within_logged; intros; quiet|intros r].
  apply (preserves_st (within n)). unfold append_harness_event. apply preserves_bind; [apply preserves_lift|intros haas].
  apply append_typed_quiet. intros Ht%canonical_terminal. rewrite Hev in Ht. by destruct Ht.
Qed.

Lemma triple_st {A} P (m : store_m A) Q E :
  triple P m Q E → triple (λ r, P (rt_store r)) (st m) (λ a r, Q a (rt_store r)) (λ r, E (rt_store r)).
Proof. intros Hm r Hr. unfold st. specialize (Hm _ Hr). by destruct (m (rt_store r)) as [s1 []]. Qed.

Lemma append_leased_one n now ev app i k h t :
  triple (rt_within n) (append_leased cfg now ev app i k h t) (λ _, rt_within (S n)) (rt_within n).
Proof.
  unfold append_leased. eapply triple_bind; [apply triple_preserves, rt_within_logged; intros; quiet|intros ?].
  eapply triple_bind; [apply triple_preserves, rt_within_logged; intros; quiet|intros r].
  apply (triple_st (within n) _ (λ _, within (S n))). unfold append_harness_event.
  eapply triple_bind; [apply triple_preserves, preserves_lift|intros haas]. apply append_typed_one.
Qed.

(** ** Committing a terminal *)

(** The records a run works on exist. *)
Definition live (fl : floor) (i t : loc) : Prop := (i < fl_invocations fl)%nat ∧ (t < fl_turns fl)%nat.

Lemma put_invocation_live fl now i t r :
  live fl i t → runtime_inv fl r → ∃ r', st (put_invocation now i) r = (r', Ok i).
Proof.
  intros [Hi _] (_ & _ & _ & _ & _ & _ & _ & _ & Hl & _). unfold st. rewrite put_invocation_eq.
  destruct (lookup_lt_is_Some_2 (st_invocation_objs (rt_store r)) i) as [x ->]; [lia|].
  destruct (unanswered_status (i_status x)); by eexists.
Qed.

Lemma put_turn_live fl i t r : live fl i t → runtime_inv fl r → ∃ r', st (put_turn t) r = (r', Ok t).
Proof.
  intros [_ Ht] (_ & _ & _ & _ & _ & _ & _ & _ & _ & Hl). unfold st, put_turn, mbind, M_bind, load_turn.
  destruct (lookup_lt_is_Some_2 (st_turn_objs (rt_store r)) t) as [x ->]; [lia|]. by eexists.
Qed.

(** A step that returns and keeps the invariant, then the rest. *)
Lemma bind_total {A B} (I : Runtime → Prop) (m : rt_m A) (f : A → rt_m B) r :
  (∃ r1 a, m r = (r1, Ok a)) → preserves I m → I r →
  (∀ r1 a, I r1 → ∃ r2 b, f a r1 = (r2, Ok b)) → ∃ r2 b, (m ≫= f) r = (r2, Ok b).
Proof.
  intros (r1 & a & E) Hm Hr Hf. unfold mbind, M_bind. specialize (Hm r Hr). rewrite E in *. by apply Hf.
Qed.

(** Once the event is in the log, nothing can fail. *)
Lemma seal_total fl now i t a status ev r :
  live fl i t → runtime_inv fl r → ∃ r' u, seal_terminal now i t a status ev r = (r', Ok u).
Proof.
  intros Hl Hr. unfold seal_terminal.
  apply (bind_total (runtime_inv fl)); [by eexists _, _|keeps|done|]. intros r1 [] H1.
  apply (bind_total (runtime_inv fl)); [by eexists _, _|keeps|done|]. intros r2 [] H2.
  apply (bind_total (runtime_inv fl)); [destruct (put_invocation_live fl now i t r2 Hl H2) as [? ?]; eauto|keeps|done|].
  intros r3 l H3.
  apply (bind_total (runtime_inv fl)); [destruct (put_turn_live fl i t r3 Hl H3) as [? ?]; eauto|keeps|done|].
  intros r4 l' H4. destruct a; by eexists _, _.
Qed.

Definition kept (fl : floor) (n : nat) (r : Runtime) : Prop := runtime_inv fl r ∧ rt_within n r.

Lemma triple_and {S A} (P P' : S → Prop) (m : M S A) (Q Q' : A → S → Prop) (E E' : S → Prop) :
  triple P m Q E → triple P' m Q' E' →
  triple (λ s, P s ∧ P' s) m (λ a s, Q a s ∧ Q' a s) (λ s, E s ∧ E' s).
Proof. intros H1 H2 s [Hs Hs']. specialize (H1 s Hs). specialize (H2 s Hs'). by destruct (m s) as [s1 []]. Qed.

(** A terminal either goes in, or raises and leaves no event. *)
Lemma persist_terminal_once fl n now ev status app i t s k h tok m :
  live fl i t →
  triple (kept fl n) (persist_terminal_event cfg now ev status app i t s k h tok m)
    (λ _, kept fl (S n)) (kept fl n).
Proof.
  intros Hl. unfold persist_terminal_event. eapply triple_bind.
  { apply triple_preserves, preserves_and; [apply runtime_stage_terminal|]. apply rt_within_logged. intros; quiet. }
  intros [active session]. eapply (triple_bind _ _ _ (λ _, kept fl (S n))).
  { apply triple_and; [apply triple_preserves, runtime_append_leased|apply append_leased_one]. }
  intros e r [Hr Hw]. unfold mbind, M_bind. cbn [fst snd].
  destruct (seal_total fl now i t active status e r Hl Hr) as (r' & [] & E). rewrite E. cbn.
  split.
  - pose proof (runtime_seal_terminal now i t active status e r Hr) as H'. by rewrite E in H'.
  - pose proof (rt_within_logged (S n) _ (λ L, quiet_seal L now i t active status e) r Hw) as H'. by rewrite E in H'.
Qed.

Lemma persist_failure_once fl n now app i t s k h tok reason code b :
  live fl i t →
  triple (kept fl n) (persist_failure_terminal cfg now app i t s k h tok reason code b)
    (λ _, kept fl (S n)) (kept fl n).
Proof.
  intros Hl. unfold persist_failure_terminal.
  eapply triple_bind; [apply triple_preserves, preserves_and; [keeps|apply rt_within_logged; intros; quiet]|intros x].
  eapply triple_bind; [apply triple_preserves, preserves_and; [keeps|apply rt_within_logged; intros; quiet]|intros y].
  eapply triple_bind; [by apply persist_terminal_once|]. intros p. by apply triple_ret.
Qed.

(** ** The driver *)

(** The driver's invariant, with at most [n] terminals logged and the streamed terminal [o]. *)
Definition dkept (fl : floor) (d0 : Drive) (n : nat) (o : option CanonicalEventRecord) (s : Runtime * Drive) : Prop :=
  driver_inv fl d0 s ∧ rt_within n s.1 ∧ d_streamed s.2 = o.

Lemma dkept_quiet fl d0 n o {A} (m : drive_m A) :
  preserves (driver_inv fl d0) m → (∀ L, preserves (d_logged L o) m) → preserves (dkept fl d0 n o) m.
Proof.
  intros Hd Hq s (Hs & Hw & Ho). split; [by apply Hd|].
  destruct (Hq (st_events_by_invocation (rt_store s.1)) s (conj eq_refl Ho)) as [Hl Ho']. split; [|done].
  unfold rt_within, within, terminals, invocation_events. unfold rt_logged, logged in Hl. by rewrite Hl.
Qed.

Lemma dkept_rt fl d0 n o {A} (m : rt_m A) : preserves (kept fl n) m → preserves (dkept fl d0 n o) (rt m).
Proof.
  intros Hm [r d] ([Hr Hs] & Hw & Ho). unfold rt. specialize (Hm r (conj Hr Hw)). revert Hm. cbn.
  destruct (m r). intros [??]. by split_and!.
Qed.

Lemma dkept_le fl d0 n o s : dkept fl d0 n o s → dkept fl d0 (S n) o s.
Proof. intros (? & Hw & ?). split_and!; try done. unfold rt_within, within in *. lia. Qed.

Lemma triple_rt fl d0 n n' o {A} (m : rt_m A) :
  triple (kept fl n) m (λ _, kept fl n') (kept fl n) →
  triple (dkept fl d0 n o) (rt m) (λ _, dkept fl d0 n' o) (dkept fl d0 n o).
Proof.
  intros Hm [r d] ([Hr Hs] & Hw & Ho). unfold rt. specialize (Hm r (conj Hr Hw)).
  destruct (m r) as [r' [a|e]]; destruct Hm; by split_and!.
Qed.

(** The segments that write no event. *)
Ltac dquiet := apply dkept_quiet; [keeps|intros; quiet].

Lemma dkept_assert fl d0 n o now : preserves (dkept fl d0 n o) (assert_own_lease now).
Proof. apply dkept_quiet; [apply driver_assert_own|]. intros. unfold assert_own_lease. quiet. Qed.

Lemma dkept_local fl d0 n o {A} (f : Drive → A) : preserves (dkept fl d0 n o) (local f).
Proof. apply preserves_gets. Qed.

Lemma dkept_to_prepare fl d0 n o now : preserves (dkept fl d0 n o) (to_prepare now).
Proof. apply dkept_quiet; [apply driver_to_prepare|]. intros. unfold to_prepare, assert_own_lease. quiet. Qed.

Lemma dkept_after_prepare fl d0 n o now ref : preserves (dkept fl d0 n o) (after_prepare now ref).
Proof. apply dkept_quiet; [apply driver_after_prepare|]. intros. unfold after_prepare, assert_own_lease. quiet. Qed.

Lemma dkept_after_start fl d0 n o now opaque : preserves (dkept fl d0 n o) (after_start cfg now opaque).
Proof. apply dkept_quiet; [apply driver_after_start|]. intros. unfold after_start, assert_own_lease. quiet. Qed.

Lemma dkept_enter_finally fl d0 n o outcome : preserves (dkept fl d0 n o) (enter_finally cfg outcome).
Proof. apply dkept_quiet; [apply driver_enter_finally|]. intros. unfold enter_finally. quiet. Qed.

Lemma dkept_leave_finally fl d0 n o now outcome : preserves (dkept fl d0 n o) (leave_finally now outcome).
Proof. apply dkept_quiet; [apply driver_leave_finally|]. intros. unfold leave_finally, assert_own_lease. quiet. Qed.

Lemma dkept_finish_clean fl d0 n o : preserves (dkept fl d0 n o) finish_clean.
Proof. apply dkept_quiet; [apply driver_finish_clean|]. intros. unfold finish_clean. quiet. Qed.

Lemma dkept_publish fl d0 n o now outcomes : preserves (dkept fl d0 n o) (publish_artifacts cfg now outcomes).
Proof.
  induction outcomes as [|a outcomes IH]; cbn [publish_artifacts]; [apply preserves_ret|].
  apply preserves_bind; [apply dkept_local|intros d]. apply preserves_bind; [|intros; keeps].
  apply preserves_catch; [|intros []; keeps]. apply preserves_bind; [apply dkept_assert|intros _].
  destruct a; [keeps|]. apply preserves_bind; [dquiet|intros i]. apply preserves_bind; [dquiet|intros t].
  apply preserves_bind; [|intros; keeps]. apply dkept_rt, preserves_and; [keeps|].
  apply (preserves_st (within n)), append_typed_quiet. unfold TERMINAL_TYPES. set_solver.
Qed.

(** Nothing more will be committed: a terminal was streamed, or the body of [try] is over. *)
Definition over (pc : drive_pc) : bool :=
  match pc with AtYield _ ThenDone | AtYield _ (ThenRaise _) | AtRenew _ | Finished _ => true | _ => false end.
Definition closed (pc : drive_pc) (d : Drive) : bool := is_some (d_streamed d) || over pc.
(** The artifacts of a terminal are listed only while no terminal was streamed. *)
Definition awaiting_terminal (pc : drive_pc) : bool :=
  match pc with AtArtifacts _ _ | AtFinalArtifacts _ _ => true | _ => false end.
Definition placed (pc : drive_pc) (d : Drive) : Prop := awaiting_terminal pc = true → d_streamed d = None.

(** Where a segment that started with [n] terminals and no commitment may end. *)
Definition post (fl : floor) (d0 : Drive) (n : nat) (pc : drive_pc) (s : Runtime * Drive) : Prop :=
  driver_inv fl d0 s ∧ rt_within (if closed pc s.2 then S n else n) s.1 ∧ placed pc s.2.
Definition post_opt fl d0 n (o : option drive_pc) (s : Runtime * Drive) : Prop :=
  match o with Some pc => post fl d0 n pc s | None => driver_inv fl d0 s ∧ rt_within (S n) s.1 end.

Lemma rt_within_S n r : rt_within n r → rt_within (S n) r.
Proof. unfold rt_within, within. lia. Qed.

Lemma post_quiet fl d0 n pc s : dkept fl d0 n None s → post fl d0 n pc s.
Proof.
  intros (Hd & Hw & Ho). split; [done|]. split; [|by intros _].
  destruct (closed pc s.2); [by apply rt_within_S|done].
Qed.

Lemma post_over fl d0 n pc o s : over pc = true → dkept fl d0 (S n) o s → post fl d0 n pc s.
Proof.
  intros Hp (Hd & Hw & Ho). split; [done|]. unfold closed, placed. rewrite Hp, orb_true_r. split; [done|].
  by destruct pc.
Qed.

(** The driver's records are those it was opened with. *)
Lemma triple_local {A} fl d0 n o (f : Drive → drive_m A) Q E :
  (∀ d, same_run d0 d → d_streamed d = o → triple (dkept fl d0 n o) (f d) Q E) →
  triple (dkept fl d0 n o) (local (λ d, d) ≫= f) Q E.
Proof. intros Hf [r d] ([Hr Hd] & Hw & Ho). by apply (Hf d Hd Ho). Qed.

Lemma persist_own_once fl d0 n o now ev status :
  live fl (d_invocation d0) (d_turn d0) →
  triple (dkept fl d0 n o) (persist_own_terminal cfg now ev status) (λ _, dkept fl d0 (S n) o) (dkept fl d0 n o).
Proof.
  intros Hl. apply triple_local. intros d (_ & _ & _ & _ & Hi & Ht) _. rewrite Hi, Ht.
  eapply triple_bind; [by apply triple_rt, persist_terminal_once|intros p].
  intros [r d'] ([Hr Hs] & Hw & Ho). by split_and!.
Qed.

Lemma stream_terminal_once fl d0 n now ev status arts :
  live fl (d_invocation d0) (d_turn d0) →
  triple (dkept fl d0 n None) (stream_terminal cfg now ev status arts) (post fl d0 n) (dkept fl d0 n None).
Proof.
  intros Hl. unfold stream_terminal. apply triple_local. intros d Hd _.
  eapply triple_bind; [apply triple_preserves; dquiet|intros i].
  eapply triple_bind; [apply triple_preserves; dquiet|intros t].
  eapply triple_bind; [apply triple_preserves; dquiet|intros active]. cbv zeta.
  eapply triple_bind; [by apply persist_own_once|intros e].
  intros [r d'] ([Hr Hs] & Hw & Ho). by split_and!.
Qed.

Lemma final_terminal_once fl d0 n now ev status arts :
  live fl (d_invocation d0) (d_turn d0) →
  triple (dkept fl d0 n None) (final_terminal cfg now ev status arts) (post fl d0 n) (dkept fl d0 n None).
Proof.
  intros Hl. eapply triple_bind; [by apply persist_own_once|intros e]. apply triple_ret. intros s Hs.
  by eapply post_over.
Qed.

Lemma fail_turn_once fl d0 n now reason code b e :
  live fl (d_invocation d0) (d_turn d0) →
  triple (dkept fl d0 n None) (fail_turn cfg now reason code b e) (post fl d0 n) (dkept fl d0 (S n) None).
Proof.
  intros Hl. unfold fail_turn. apply triple_local. intros d (_ & _ & _ & _ & Hi & Ht) _. rewrite Hi, Ht.
  eapply triple_bind; [|intros ev].
  { eapply triple_weaken; [by apply triple_rt, persist_failure_once|done|intros ??; exact id|apply dkept_le]. }
  eapply triple_bind; [apply triple_preserves, dkept_quiet; [apply driver_rt, runtime_require_session|intros; quiet]|intros session].
  eapply triple_bind; [apply triple_preserves; dquiet|intros ?]. apply triple_ret. intros s Hs. by eapply post_over.
Qed.

Lemma append_leased_dkept fl d0 n o now ev app i k h t :
  terminal_status ev = None → preserves (dkept fl d0 n o) (rt (append_leased cfg now ev app i k h t)).
Proof. intros Hev. apply dkept_rt, preserves_and; [apply runtime_append_leased|by apply append_leased_quiet]. Qed.

Lemma dkept_merge_actions fl d0 n o now s e k h t : preserves (dkept fl d0 n o) (rt (merge_actions now s e k h t)).
Proof. apply dkept_quiet; [apply driver_rt, runtime_merge_actions|intros; quiet]. Qed.

(** An ordinary event: appended, its state delta merged, and yielded. *)
Lemma ordinary_event_dkept fl d0 n o now ev d :
  terminal_status ev = None →
  triple (dkept fl d0 n o)
    (e ← rt (append_leased cfg now ev (d_app d) (d_invocation d) (d_key d) (d_holder d) (d_token d));
     session ← rt (merge_actions now (d_session d) e (d_key d) (d_holder d) (d_token d));
     _ ← set_local (λ d, d <| d_session := session |>);
     mret (AtYield [e] ThenEvents))
    (λ pc s, dkept fl d0 n o s ∧ awaiting_terminal pc = false) (dkept fl d0 n o).
Proof.
  intros Hev. eapply triple_bind; [by apply triple_preserves, append_leased_dkept|intros e].
  eapply triple_bind; [apply triple_preserves, dkept_merge_actions|intros session].
  eapply triple_bind; [apply triple_preserves; dquiet|intros ?]. by apply triple_ret.
Qed.

Lemma after_event_once fl d0 n now ev :
  live fl (d_invocation d0) (d_turn d0) →
  triple (dkept fl d0 n None) (after_event cfg now ev) (post fl d0 n) (dkept fl d0 n None).
Proof.
  intros Hl. unfold after_event. eapply triple_bind; [apply triple_preserves, dkept_assert|intros ?].
  apply triple_local. intros d _ Ho. rewrite Ho. destruct (terminal_status ev) as [status|] eqn:E.
  - destruct (cf_artifacts cfg); [|by apply stream_terminal_once].
    eapply triple_bind; [apply triple_preserves, dkept_assert|intros ?]. apply triple_ret. intros s. apply post_quiet.
  - eapply triple_weaken; [by apply ordinary_event_dkept|done| |done]. intros pc s [Hs _]. by apply post_quiet.
Qed.

(** After a streamed terminal: further terminals are skipped. *)
Lemma after_event_streamed fl d0 n e0 now ev :
  triple (dkept fl d0 n (Some e0)) (after_event cfg now ev)
    (λ pc s, dkept fl d0 n (Some e0) s ∧ awaiting_terminal pc = false) (dkept fl d0 n (Some e0)).
Proof.
  unfold after_event. eapply triple_bind; [apply triple_preserves, dkept_assert|intros ?].
  apply triple_local. intros d _ Ho. rewrite Ho. destruct (terminal_status ev) as [status|] eqn:E.
  - by apply triple_ret.
  - by apply ordinary_event_dkept.
Qed.

Lemma after_finalize_once fl d0 n now status terminal :
  live fl (d_invocation d0) (d_turn d0) →
  triple (dkept fl d0 n None) (after_finalize cfg now status terminal) (post_opt fl d0 n) (dkept fl d0 n None).
Proof.
  intros Hl. unfold after_finalize. eapply triple_bind; [apply triple_preserves, dkept_assert|intros ?].
  apply triple_local. intros d _ Ho. rewrite Ho.
  eapply triple_bind; [apply triple_preserves; dquiet|intros i].
  eapply triple_bind; [apply triple_preserves; dquiet|intros t]. cbv zeta.
  destruct (cf_artifacts cfg).
  - eapply triple_bind; [apply triple_preserves, dkept_assert|intros ?]. apply triple_ret. intros s. apply post_quiet.
  - eapply triple_bind; [by apply final_terminal_once|intros pc]. by apply triple_ret.
Qed.

Lemma after_finalize_streamed fl d0 n e0 now status terminal :
  triple (dkept fl d0 n (Some e0)) (after_finalize cfg now status terminal)
    (λ o s, dkept fl d0 n (Some e0) s ∧ o = None) (dkept fl d0 n (Some e0)).
Proof.
  unfold after_finalize. eapply triple_bind; [apply triple_preserves, dkept_assert|intros ?].
  apply triple_local. intros d _ Ho. rewrite Ho.
  eapply triple_bind; [apply triple_preserves, dkept_finish_clean|intros ?]. by apply triple_ret.
Qed.

(** ** [except] and [finally] *)

Lemma handle_once fl d0 n now e :
  live fl (d_invocation d0) (d_turn d0) →
  triple (dkept fl d0 n None) (handle cfg now e) (post_opt fl d0 n) (dkept fl d0 (S n) None).
Proof.
  intros Hl. unfold handle. apply triple_local. intros d _ Ho.
  eapply triple_bind; [|intros i].
  { eapply triple_weaken; [apply triple_preserves; dquiet|intros s; exact id|intros ??; exact id|apply dkept_le]. }
  cbv zeta. rewrite Ho.
  assert (∀ reason code b e', triple (dkept fl d0 n None) (pc ← fail_turn cfg now reason code b e'; mret (Some pc))
            (post_opt fl d0 n) (dkept fl d0 (S n) None)) as Hf.
  { intros. eapply triple_bind; [by apply fail_turn_once|intros pc]. by apply triple_ret. }
  destruct e; try apply Hf. intros s Hs. by apply dkept_le.
Qed.

Lemma handle_streamed fl d0 n e0 now e :
  triple (dkept fl d0 n (Some e0)) (handle cfg now e)
    (λ o s, dkept fl d0 n (Some e0) s ∧ o = None) (dkept fl d0 n (Some e0)).
Proof.
  unfold handle. apply triple_local. intros d _ Ho. eapply triple_bind; [apply triple_preserves; dquiet|intros i].
  cbv zeta. rewrite Ho.
  assert (triple (dkept fl d0 n (Some e0)) (_ ← finish_clean; mret None : drive_m (option drive_pc))
            (λ o s, dkept fl d0 n (Some e0) s ∧ o = None) (dkept fl d0 n (Some e0))) as Hf.
  { eapply triple_bind; [apply triple_preserves, dkept_finish_clean|intros ?]. by apply triple_ret. }
  destruct e; try exact Hf. by intros s Hs.
Qed.

(** [finally] ends the body for good. *)
Lemma enter_finally_over fl d0 n o outcome s :
  dkept fl d0 n o s →
  dkept fl d0 n o (enter_finally cfg outcome s).1 ∧ over (settled (enter_finally cfg outcome s).2) = true.
Proof.
  intros Hs. split; [by apply dkept_enter_finally|].
  assert (triple (λ _, True) (enter_finally cfg outcome) (λ pc _, over pc = true) (λ _, True)) as Ht.
  { unfold enter_finally. do 6 (eapply (triple_bind _ _ _ (λ _ _, True)); [apply triple_any|intros ?]).
    by apply triple_ret. }
  specialize (Ht s I). destruct (enter_finally cfg outcome s) as [s' [pc|e]]; [exact Ht|done].
Qed.

Lemma leave_finally_over fl d0 n o now outcome s :
  dkept fl d0 n o s →
  dkept fl d0 n o (leave_finally now outcome s).1 ∧ over (settled (leave_finally now outcome s).2) = true.
Proof.
  intros Hs. split; [by apply dkept_leave_finally|].
  assert (triple (λ _, True) (leave_finally now outcome) (λ pc _, over pc = true) (λ _, True)) as Ht.
  { unfold leave_finally. do 5 (eapply (triple_bind _ _ _ (λ _ _, True)); [apply triple_any|intros ?]).
    by apply triple_ret. }
  specialize (Ht s I). destruct (leave_finally now outcome s) as [s' [pc|e]]; [exact Ht|done].
Qed.

Lemma dkept_forget fl d0 n s : driver_inv fl d0 s → rt_within n s.1 → dkept fl d0 n (d_streamed s.2) s.
Proof. by intros. Qed.

Lemma post_finally fl d0 n outcome s :
  driver_inv fl d0 s → rt_within (S n) s.1 →
  post fl d0 n (settled (enter_finally cfg outcome s).2) (enter_finally cfg outcome s).1.
Proof.
  intros Hd Hw. destruct (enter_finally_over fl d0 (S n) _ outcome s (dkept_forget _ _ _ _ Hd Hw)) as [Hk Ho].
  by eapply post_over.
Qed.

Lemma in_try_once fl d0 n now body :
  live fl (d_invocation d0) (d_turn d0) →
  triple (dkept fl d0 n None) body (post_opt fl d0 n) (dkept fl d0 n None) →
  ∀ s, dkept fl d0 n None s → post fl d0 n (settled (in_try cfg now body s).2) (in_try cfg now body s).1.
Proof.
  intros Hl Hb s Hs. unfold in_try. specialize (Hb s Hs). destruct (body s) as [s1 [[pc|]|e]]; [exact Hb| |].
  - destruct Hb. by apply post_finally.
  - pose proof (handle_once fl d0 n now e Hl s1 Hb) as Hh.
    destruct (handle cfg now e s1) as [s2 [[pc|]|e']]; [exact Hh| |].
    + destruct Hh. by apply post_finally.
    + destruct Hh as (? & ? & _). by apply post_finally.
Qed.

(** With a streamed terminal, nothing more is committed. *)
Definition done_with fl d0 n e0 (pc : drive_pc) (s : Runtime * Drive) : Prop :=
  dkept fl d0 n (Some e0) s ∧ awaiting_terminal pc = false.

Lemma over_not_awaiting pc : over pc = true → awaiting_terminal pc = false.
Proof. by destruct pc. Qed.

Lemma done_finally fl d0 n e0 outcome s :
  dkept fl d0 n (Some e0) s →
  done_with fl d0 n e0 (settled (enter_finally cfg outcome s).2) (enter_finally cfg outcome s).1.
Proof. intros Hs. destruct (enter_finally_over _ _ _ _ outcome _ Hs). split; [done|by apply over_not_awaiting]. Qed.

Lemma in_try_streamed fl d0 n e0 now body :
  triple (dkept fl d0 n (Some e0)) body
    (λ o s, match o with Some pc => done_with fl d0 n e0 pc s | None => dkept fl d0 n (Some e0) s end)
    (dkept fl d0 n (Some e0)) →
  ∀ s, dkept fl d0 n (Some e0) s →
    done_with fl d0 n e0 (settled (in_try cfg now body s).2) (in_try cfg now body s).1.
Proof.
  intros Hb s Hs. unfold in_try. specialize (Hb s Hs). destruct (body s) as [s1 [[pc|]|e]]; [exact Hb| |].
  - by apply done_finally.
  - pose proof (handle_streamed fl d0 n e0 now e s1 Hb) as Hh.
    destruct (handle cfg now e s1) as [s2 [[pc|]|e']]; [by destruct Hh| |].
    + destruct Hh. by apply done_finally.
    + by apply done_finally.
Qed.

(** ** One step *)

Lemma stay_triple P (m : drive_m drive_pc) Q E :
  triple P m Q E → triple P (stay m) (λ o s, match o with Some pc => Q pc s | None => False end) E.
Proof. intros Hm. unfold stay. eapply triple_bind; [exact Hm|intros pc]. by apply triple_ret. Qed.

Lemma in_try_stay_once fl d0 n now m :
  live fl (d_invocation d0) (d_turn d0) →
  triple (dkept fl d0 n None) m (post fl d0 n) (dkept fl d0 n None) →
  ∀ s, dkept fl d0 n None s → post fl d0 n (settled (in_try cfg now (stay m) s).2) (in_try cfg now (stay m) s).1.
Proof.
  intros Hl Hm. apply in_try_once; [done|]. eapply triple_weaken; [by apply stay_triple|done| |done]. by intros [].
Qed.

Lemma in_try_stay_streamed fl d0 n e0 now m :
  triple (dkept fl d0 n (Some e0)) m (done_with fl d0 n e0) (dkept fl d0 n (Some e0)) →
  ∀ s, dkept fl d0 n (Some e0) s →
    done_with fl d0 n e0 (settled (in_try cfg now (stay m) s).2) (in_try cfg now (stay m) s).1.
Proof.
  intros Hm. apply in_try_streamed. eapply triple_weaken; [by apply stay_triple|done| |done]. by intros [].
Qed.

Lemma quiet_post fl d0 n (m : drive_m drive_pc) :
  preserves (dkept fl d0 n None) m → triple (dkept fl d0 n None) m (post fl d0 n) (dkept fl d0 n None).
Proof. intros Hm. eapply triple_weaken; [by apply triple_preserves|done| |done]. intros pc s. apply post_quiet. Qed.

Lemma raise_triple {A} P (e : exn) (Q : A → Runtime * Drive → Prop) : triple P (raise e) Q P.
Proof. by intros s Hs. Qed.

Lemma publish_then fl d0 n o now outcomes (f : list CanonicalEventRecord → drive_m drive_pc) Q :
  (∀ l, triple (dkept fl d0 n o) (f l) Q (dkept fl d0 n o)) →
  triple (dkept fl d0 n o) (_ ← assert_own_lease now; l ← publish_artifacts cfg now outcomes; f l) Q (dkept fl d0 n o).
Proof.
  intros Hf. eapply triple_bind; [apply triple_preserves, dkept_assert|intros ?].
  eapply triple_bind; [apply triple_preserves, dkept_publish|exact Hf].
Qed.

Lemma step_open fl d0 n now pc rep m s :
  live fl (d_invocation d0) (d_turn d0) → over pc = false → drive_step cfg now pc rep = Some m →
  dkept fl d0 n None s → post fl d0 n (settled (m s).2) (m s).1.
Proof.
  intros Hl Hp Hm Hs.
  assert (∀ out, post fl d0 n (settled (enter_finally cfg out s).2) (enter_finally cfg out s).1) as Hfin.
  { intros out. destruct (dkept_le _ _ _ _ _ Hs) as (? & ? & _). by apply post_finally. }
  assert (∀ e, post fl d0 n (settled (in_try cfg now (raise e) s).2) (in_try cfg now (raise e) s).1) as Hraise.
  { intros e. apply in_try_once; [done|apply raise_triple|done]. }
  unfold drive_step in Hm.
  destruct pc as [|resume|request| |ev status| |ev status|evs next|out|out], rep; try discriminate Hm; try discriminate Hp;
    try (injection Hm as <-; first [apply Hfin | apply Hraise]);
    try solve [destruct next; try discriminate Hp; destruct evs as [|y1 [|y2 evs]]; try discriminate Hm;
               injection Hm as <-; first [apply Hfin | by apply post_quiet]].
  - injection Hm as <-. apply in_try_stay_once; [done| |done]. apply quiet_post.
    apply preserves_bind; [dquiet|intros _]. apply dkept_to_prepare.
  - injection Hm as <-. apply in_try_stay_once; [done| |done]. apply quiet_post, dkept_after_prepare.
  - injection Hm as <-. apply in_try_stay_once; [done| |done]. apply quiet_post, dkept_after_start.
  - injection Hm as <-. apply in_try_stay_once; [done| |done]. by apply after_event_once.
  - injection Hm as <-. apply in_try_stay_once; [done| |done]. apply quiet_post.
    apply preserves_bind; [apply dkept_assert|intros _; apply preserves_ret].
  - injection Hm as <-. apply in_try_stay_once; [done| |done]. apply publish_then. intros l. by apply stream_terminal_once.
  - injection Hm as <-. destruct e; try apply Hraise; (apply in_try_stay_once; [done| |done]; by apply stream_terminal_once).
  - injection Hm as <-. apply in_try_once; [done| |done]. by apply after_finalize_once.
  - injection Hm as <-. apply in_try_stay_once; [done| |done]. apply publish_then. intros l. by apply final_terminal_once.
  - injection Hm as <-. destruct e; try apply Hraise; (apply in_try_stay_once; [done| |done]; by apply final_terminal_once).
Qed.

Lemma step_streamed fl d0 n e0 now pc rep m s :
  awaiting_terminal pc = false → drive_step cfg now pc rep = Some m →
  dkept fl d0 n (Some e0) s → done_with fl d0 n e0 (settled (m s).2) (m s).1.
Proof.
  intros Hp Hm Hs.
  assert (∀ out, done_with fl d0 n e0 (settled (enter_finally cfg out s).2) (enter_finally cfg out s).1) as Hfin
    by (intros; by apply done_finally).
  assert (∀ e, done_with fl d0 n e0 (settled (in_try cfg now (raise e) s).2) (in_try cfg now (raise e) s).1) as Hraise.
  { intros e. apply in_try_streamed; [apply raise_triple|done]. }
  assert (∀ mm, preserves (dkept fl d0 n (Some e0)) mm → triple (λ _, True) mm (λ pc _, awaiting_terminal pc = false) (λ _, True) →
            done_with fl d0 n e0 (settled (in_try cfg now (stay mm) s).2) (in_try cfg now (stay mm) s).1) as Hquiet.
  { intros mm Hk Ha. apply in_try_stay_streamed; [|done].
    eapply triple_weaken; [apply triple_and; [apply triple_preserves, Hk|exact Ha]|done|done|by intros ? []]. }
  unfold drive_step in Hm.
  destruct pc as [|resume|request| |ev status| |ev status|evs next|out|out], rep; try discriminate Hm; try discriminate Hp;
    try (injection Hm as <-; first [apply Hfin | apply Hraise]);
    try solve [injection Hm as <-; destruct (leave_finally_over _ _ _ _ now out _ Hs); split; [done|by apply over_not_awaiting]];
    try solve [destruct next, evs as [|y1 [|y2 evs]]; try discriminate Hm; injection Hm as <-; try done; try apply Hfin;
               by apply (done_finally _ _ _ _ (Ok tt)), dkept_finish_clean].
  - injection Hm as <-. apply Hquiet; [apply preserves_bind; [dquiet|intros _]; apply dkept_to_prepare|].
    eapply triple_bind; [apply triple_any|intros ?]. unfold to_prepare.
    do 3 (eapply triple_bind; [apply triple_any|intros ?]). by apply triple_ret.
  - injection Hm as <-. apply Hquiet; [apply dkept_after_prepare|]. unfold after_prepare.
    do 8 (eapply triple_bind; [apply triple_any|intros ?]). by apply triple_ret.
  - injection Hm as <-. apply Hquiet; [apply dkept_after_start|]. unfold after_start.
    do 10 (eapply triple_bind; [apply triple_any|intros ?]). by apply triple_ret.
  - injection Hm as <-. apply in_try_stay_streamed; [apply after_event_streamed|done].
  - injection Hm as <-. apply Hquiet; [apply preserves_bind; [apply dkept_assert|intros _; apply preserves_ret]|].
    eapply triple_bind; [apply triple_any|intros ?]. by apply triple_ret.
  - injection Hm as <-. apply in_try_streamed; [|done].
    eapply triple_weaken; [apply after_finalize_streamed|done| |done]. by intros o s' [? ->].
Qed.

Lemma step_over fl d0 n now pc rep m s :
  over pc = true → drive_step cfg now pc rep = Some m → dkept fl d0 n None s →
  dkept fl d0 n None (m s).1 ∧ over (settled (m s).2) = true.
Proof.
  intros Hp Hm Hs. unfold drive_step in Hm.
  destruct pc as [|resume|request| |ev status| |ev status|evs next|out|out], rep; try discriminate Hm; try discriminate Hp;
    try (injection Hm as <-; first [by apply enter_finally_over | by apply leave_finally_over]).
  all: destruct next, evs as [|y1 [|y2 evs]]; try discriminate Hm; try discriminate Hp; injection Hm as <-; try done;
    try by apply enter_finally_over.
  all: by apply (enter_finally_over _ _ _ _ (Ok tt)), dkept_finish_clean.
Qed.

(** One segment from a suspended driver: what it adds, and what it may still add. *)
Definition budget (pc : drive_pc) (d : Drive) : nat := if closed pc d then 0 else 1.

Lemma step_budget fl now pc d rep m r r' d' res :
  runtime_inv fl r → live fl (d_invocation d) (d_turn d) → placed pc d →
  drive_step cfg now pc rep = Some m → m (r, d) = ((r', d'), res) →
  runtime_inv fl r' ∧ same_run d d' ∧ placed (settled res) d' ∧ (budget (settled res) d' <= budget pc d)%nat ∧
  (terminals key inv (rt_store r') + budget (settled res) d' <= terminals key inv (rt_store r) + budget pc d)%nat.
Proof.
  intros Hr Hl Hp Hm E. set (n := terminals key inv (rt_store r)).
  assert (dkept fl d n (d_streamed d) (r, d)) as Hk.
  { split; [split; [done|apply same_run_refl]|]. split; [|done]. unfold rt_within, within. cbn. lia. }
  unfold budget, closed. destruct (d_streamed d) as [e0|] eqn:Es; cbn [is_some orb].
  - assert (awaiting_terminal pc = false) as Ha.
    { destruct (awaiting_terminal pc) eqn:Ea; [|done]. specialize (Hp Ea). congruence. }
    pose proof (step_streamed fl d n e0 now pc rep m _ Ha Hm Hk) as [((Hr' & Hs') & Hw & Ho) Ha'].
    rewrite E in *. cbn in Hr', Hs', Hw, Ho, Ha'. unfold rt_within, within in Hw.
    rewrite Ho. cbn [is_some orb]. split_and!; try done; [|lia..]. intros ?. congruence.
  - destruct (over pc) eqn:Eo; cbn [orb].
    + pose proof (step_over fl d n now pc rep m _ Eo Hm Hk) as [((Hr' & Hs') & Hw & Ho) Ha'].
      rewrite E in *. cbn in Hr', Hs', Hw, Ho, Ha'. unfold rt_within, within in Hw.
      rewrite Ho, Ha'. cbn [is_some orb]. split_and!; try done; [|lia..]. intros Hx. apply over_not_awaiting in Ha'. congruence.
    + pose proof (step_open fl d n now pc rep m _ Hl Eo Hm Hk) as ((Hr' & Hs') & Hw & Hp').
      rewrite E in *. cbn in Hr', Hs', Hw, Hp'. unfold rt_within, within, closed in Hw. split_and!; try done;
        destruct (is_some (d_streamed d') || over (settled res)); lia.
Qed.

(** ** The start of a run *)

Lemma preserves_ex {A} (φ : floor → Prop) (m : rt_m A) :
  (∀ fl, preserves (runtime_inv fl) m) → preserves (λ r, ∃ fl, runtime_inv fl r ∧ φ fl) m.
Proof. intros Hm r (fl & Hr & Hf). exists fl. split; [by apply Hm|done]. Qed.

Lemma alloc_invocation_owned fl x :
  triple (runtime_inv fl) (st (alloc_invocation x)) (λ l r, ∃ fl', runtime_inv fl' r ∧ (l < fl_invocations fl')%nat)
    (λ _, True).
Proof.
  intros r Hr. pose proof (preserves_st (store_inv fl) _ (store_alloc_invocation x) r Hr) as Ha.
  cbn in *. eexists. split; [by eapply refloor|]. cbn. rewrite length_app. cbn. lia.
Qed.

Lemma alloc_turn_owned x i :
  triple (λ r, ∃ fl, runtime_inv fl r ∧ (i < fl_invocations fl)%nat) (st (alloc_turn x))
    (λ l r, ∃ fl', runtime_inv fl' r ∧ live fl' i l) (λ _, True).
Proof.
  intros r (fl & Hr & Hi). pose proof (preserves_st (store_inv fl) _ (store_alloc_turn x) r Hr) as Ha.
  pose proof Ha as (_ & _ & _ & _ & _ & _ & _ & _ & Hn & _). cbn in Ha, Hn |- *.
  eexists. split; [by eapply refloor|]. split; cbn; [lia|]. rewrite length_app. cbn. lia.
Qed.

(** The records of a run exist when its [try] begins, and no terminal was streamed. *)
Lemma drive_start_live fl now ids req :
  triple (runtime_inv fl) (drive_start cfg now ids req)
    (λ d r, d_streamed d = None ∧ ∃ fl', runtime_inv fl' r ∧ live fl' (d_invocation d) (d_turn d)) (λ _, True).
Proof.
  unfold drive_start. apply (triple_bind _ _ _ (λ _, runtime_inv fl)).
  { apply triple_inv. keeps. }
  intros lease. unfold drive_begin. apply (triple_bind _ _ _ (λ _, runtime_inv fl)).
  { apply triple_inv, runtime_admit_session. }
  intros session.
  do 3 (apply (triple_bind _ _ _ (λ _, runtime_inv fl));
    [apply triple_inv; keeps|intros ?]).
  eapply triple_bind; [apply alloc_invocation_owned|intros i]. eapply triple_bind; [apply alloc_turn_owned|intros t].
  do 5 (apply (triple_bind _ _ _ (λ _ r, ∃ fl', runtime_inv fl' r ∧ live fl' i t));
    [apply triple_inv, (preserves_ex (λ fl', live fl' i t)); intros; keeps|intros ?]).
  apply triple_ret. intros r Hr. by split.
Qed.

Lemma drive_start_quiet L now ids req : preserves (rt_logged L) (drive_start cfg now ids req).
Proof. unfold drive_start, drive_begin, admit_session, refuse_run. quiet. Qed.

Lemma drive_open_budget fl now ids req r r' d pc :
  runtime_inv fl r → drive_open cfg now ids req r = (r', Ok (d, pc)) →
  (∃ fl', runtime_inv fl' r' ∧ live fl' (d_invocation d) (d_turn d)) ∧ placed pc d ∧ (budget pc d <= 1)%nat ∧
  (terminals key inv (rt_store r') + budget pc d <= S (terminals key inv (rt_store r)))%nat.
Proof.
  intros Hr E. unfold drive_open in E. set (n := terminals key inv (rt_store r)).
  pose proof (drive_start_live fl now ids req r Hr) as Hl.
  pose proof (rt_within_logged n _ (λ L, drive_start_quiet L now ids req) r (Nat.le_refl _)) as Hw.
  destruct (drive_start cfg now ids req r) as [r1 [d1|e]]; [|discriminate E].
  destruct Hl as (Ho & fl1 & Hr1 & Hl).
  assert (dkept fl1 d1 n None (r1, d1)) as Hk by (split; [split; [done|apply same_run_refl]|done]).
  assert (triple (dkept fl1 d1 n None) (drive_enter cfg now) (post fl1 d1 n) (dkept fl1 d1 n None)) as Ht.
  { apply quiet_post. unfold drive_enter. destruct (cf_model_proxy cfg); [apply preserves_ret|apply dkept_to_prepare]. }
  pose proof (in_try_stay_once fl1 d1 n now _ Hl Ht _ Hk) as ((Hr2 & Hs2) & Hw2 & Hp2).
  destruct (in_try cfg now (stay (drive_enter cfg now)) (r1, d1)) as [[r2 d2] [pc2|e]]; [|discriminate E].
  injection E as <- <- <-. cbn in Hr2, Hs2, Hw2, Hp2. destruct Hs2 as (_ & _ & _ & _ & Ei & Et).
  split; [exists fl1; by rewrite Ei, Et|]. split; [done|].
  unfold budget. unfold rt_within, within in Hw2. destruct (closed pc2 d2); split; lia.
Qed.

(** ** A driver among others *)

(** The driver at index [i] from [S0] on, with the number of terminals its own segments have
    logged for the invocation; the steps of everything else come in between. *)
Inductive watched (i : nat) (S0 : System) : nat → System → Prop :=
  | watch_start : watched i S0 0 S0
  | watch_own n S now d pc rep m rt' d' r :
      watched i S0 n S → sy_drives S !! i = Some (d, pc) → drive_step cfg now pc rep = Some m →
      m (sy_rt S, d) = ((rt', d'), r) →
      watched i S0 (n + (terminals key inv (rt_store rt') - terminals key inv (rt_store (sy_rt S))))
        (mkSystem rt' (<[i := (d', settled r)]> (sy_drives S)) (sy_pauses S) (sy_cancels S))
  | watch_other n S S' :
      watched i S0 n S → sys_step cfg S S' → sy_drives S' !! i = sy_drives S !! i → watched i S0 n S'.

Lemma watched_budget i S0 n S d0 pc0 :
  watched i S0 n S → sy_drives S0 !! i = Some (d0, pc0) → placed pc0 d0 →
  (∃ fl, runtime_inv fl (sy_rt S0) ∧ live fl (d_invocation d0) (d_turn d0)) →
  ∃ d pc, sy_drives S !! i = Some (d, pc) ∧ placed pc d ∧ (n + budget pc d <= budget pc0 d0)%nat ∧
    ∃ fl, runtime_inv fl (sy_rt S) ∧ live fl (d_invocation d) (d_turn d).
Proof.
  intros Hw H0 Hp0 Hl0. induction Hw as [|n S now d pc rep m rt' d' r Hw IH Hi Hm E|n S S' Hw IH Hs Hi].
  - exists d0, pc0. by split_and!.
  - destruct IH as (d1 & pc1 & Hi' & Hp & Hb & fl & Hr & Hl). rewrite Hi in Hi'. injection Hi' as <- <-.
    destruct (step_budget fl now pc d rep m _ _ _ _ Hr Hl Hp Hm E) as (Hr' & (_ & _ & _ & _ & Ei & Et) & Hp' & Hb1 & Hb').
    exists d', (settled r). split; [cbn; apply list_lookup_insert_eq; by eapply lookup_lt_Some|]. split; [done|].
    split; [lia|]. exists fl. cbn. by rewrite Ei, Et.
  - destruct IH as (d & pc & Hi' & Hp & Hb & fl & Hr & Hl). exists d, pc. rewrite Hi. split_and!; try done.
    exists fl. split; [by eapply sys_step_inv|done].
Qed.

(** C1: A run logs at most one terminal event.  From any reachable state, whatever the adapter
    returns, raises or replays and whatever else is interleaved: the terminals that opening the run and
    all its later segments (streamed, final, or failure terminals) append for an invocation are at most one. *)
Theorem run_commits_at_most_one_terminal ttl S now ids req rt' d pc n S' :
  sys_steps cfg (initial ttl) S → drive_open cfg now ids req (sy_rt S) = (rt', Ok (d, pc)) →
  watched (length (sy_drives S)) (mkSystem rt' (sy_drives S ++ [(d, pc)]) (sy_pauses S) (sy_cancels S)) n S' →
  (terminals key inv (rt_store rt') - terminals key inv (rt_store (sy_rt S)) + n <= 1)%nat.
Proof.
  intros Hs Ho Hw. destruct (sys_inv_steps cfg _ _ Hs (sys_inv_initial ttl)) as [Hr _].
  destruct (drive_open_budget _ _ _ _ _ _ _ _ Hr Ho) as (Hl & Hp & Hb1 & Hb).
  eapply watched_budget in Hw as (d' & pc' & _ & _ & Hn & _); [|cbn; by apply list_lookup_middle|done|done]. lia.
Qed.
End terminals.

Module TerminalWitness.
Import World.

(** A driver's own segments, one per reply, with the terminals they log. *)
Fixpoint own_segments (i : nat) (replies : list (Z * reply)) (n : nat) (S : System) : option (nat * System) :=
  match replies with
  | [] => Some (n, S)
  | (now, rep) :: replies' =>
      '(d, pc) ← sy_drives S !! i;
      m ← drive_step cfg now pc rep;
      match m (sy_rt S, d) with
      | ((rt', d'), r) =>
          own_segments i replies'
            (n + (terminals key "inv_1" (rt_store rt') - terminals key "inv_1" (rt_store (sy_rt S))))
            (mkSystem rt' (<[i := (d', settled r)]> (sy_drives S)) (sy_pauses S) (sy_cancels S))
      end
  end.

Lemma own_segments_watched i S0 replies n S n' S' :
  watched cfg key "inv_1" i S0 n S → own_segments i replies n S = Some (n', S') → watched cfg key "inv_1" i S0 n' S'.
Proof.
  revert n S. induction replies as [|[now rep] replies IH]; intros n S Hw; cbn [own_segments]; [by intros [= -> ->]|].
  intros ([d pc] & Hd & (m & Hm & E)%bind_Some)%bind_Some.
  destruct (m (sy_rt S, d)) as [[rt' d'] r] eqn:Em. eapply IH; [|exact E]. by eapply watch_own.
Qed.

Definition before : System := default (initial 1000) (play cfg [Sync (CSaveHarness 0 app)] (initial 1000)).
#[local] Notation open_run := (drive_open cfg 10 (ids "1") req (sy_rt before)).

(** The adapter streams a terminal twice and then fails: one terminal is logged. *)
Definition replies : list (Z * reply) :=
  [(11, RNativeRef []); (12, RHandle []); (20, REvent completed); (21, RNext); (22, REvent completed);
   (23, RRaise (RuntimeError "stream broke")); (24, RNext)]%Z.

Lemma before_steps : sys_steps cfg (initial 1000) before.
Proof. apply (play_steps cfg [Sync (CSaveHarness 0 app)]). vm_compute. reflexivity. Qed.

Lemma before_quiet : sy_drives before = [] ∧ sy_pauses before = [] ∧ sy_cancels before = [].
Proof. split_and!; vm_compute; reflexivity. Qed.

Lemma one_logged :
  match open_run with
  | (rt', Ok (d, pc)) => fst <$> own_segments 0 replies 0 (mkSystem rt' [(d, pc)] [] [])
  | _ => None
  end = Some 1%nat.
Proof. vm_compute. reflexivity. Qed.

Lemma run_commits_at_most_one_terminal_witness :
  ∃ rt' d pc n S', open_run = (rt', Ok (d, pc)) ∧ own_segments 0 replies 0 (mkSystem rt' [(d, pc)] [] []) = Some (n, S') ∧
    n = 1%nat ∧ (terminals key "inv_1" (rt_store rt') - terminals key "inv_1" (rt_store (sy_rt before)) + n <= 1)%nat.
Proof.
  pose proof one_logged as H1. destruct open_run as [rt' [[d pc]|e]] eqn:E; [|discriminate H1].
  destruct (own_segments 0 replies 0 (mkSystem rt' [(d, pc)] [] [])) as [[n S']|] eqn:En; [|discriminate H1].
  exists rt', d, pc, n, S'. split; [reflexivity|]. split; [exact En|]. split; [by injection H1|].
  apply (run_commits_at_most_one_terminal cfg key "inv_1" 1000 before 10 (ids "1") req rt' d pc n S' before_steps E).
  destruct before_quiet as (-> & -> & ->). exact (own_segments_watched _ _ replies 0 _ _ _ (watch_start _ _ _ _ _) En).
Defined.

End TerminalWitness.
