(* ===== verification/Admit.v ===== *)
(** * Which runs are admitted (haas/sessions.py, the start of [SessionRuntime._drive])

    A run takes the session lease, looks at the stored session and either goes on or is
    refused.  A refusal gives the lease back; a first run whose policy is rejected does not. *)

From S2P Require Import Prelude Errors Dict PyVal Records Store Leases SessionStore Redact Events SessionPolicy.
From S2P Require Import Sessions Driver SessionInv System Scenarios.

#[local] Open Scope string_scope.
#[local] Open Scope list_scope.
#[local] Open Scope Z_scope.

Section admission.
Context {repr : PyRepr} {regex : RegexEngine} (cfg : RuntimeConfig).

(** Why a run on a stored session is refused, in words of the session alone. *)
Definition refusal (req : RunRequest) (session_id : string) (r : SessionRecord) : option exn :=
  if s_appliedRevision r <? s_desiredRevision r then Some (SessionBusyError "configuration_update_pending")
  else
    match rq_continued_from_invocation_id req with
    | None => if bool_decide (s_controlState r = "paused") then Some (ResumeRequiredError session_id) else None
    | Some source =>
        if bool_decide (s_controlState r = "paused" ∧ s_supportsResume r = true ∧ s_resumableInvocationId r = Some source)
        then None else Some (InvocationNotResumableError source)
    end.

Definition run_key (ids : run_ids) (req : RunRequest) : SessionKey :=
  (h_id (rq_app req), rq_user_id req, run_session_id ids req).
Definition run_holder (ids : run_ids) : string := "run_" +:+ ri_holder ids.

(** The lease is the caller's to take. *)
Definition lease_free (now : Z) (key : SessionKey) (s : MemoryStore) : Prop :=
  ∀ l, dget key (st_leases s) = Some l → l_expiresAtMs l <= now.

(** The store with the lease taken. *)
Definition taken (now : Z) (key : SessionKey) (holder : string) (s : MemoryStore) : MemoryStore :=
  (s <| st_lease_tokens := dset key (last_token key s + 1) (st_lease_tokens s) |>)
    <| st_leases := dset key (mkLease holder (now + cf_lease_ttl_ms cfg) (last_token key s + 1)) (st_leases s) |>.

Lemma acquire_free now key holder s :
  lease_free now key s →
  acquire_lease now key holder (cf_lease_ttl_ms cfg) s =
  (taken now key holder s, Ok (mkLease holder (now + cf_lease_ttl_ms cfg) (last_token key s + 1))).
Proof.
  intros Hf. unfold acquire_lease, taken, last_token. destruct (dget key (st_leases s)) as [l|] eqn:E; [|done].
  specialize (Hf l E). destruct (Z.ltb_spec now (l_expiresAtMs l)); [lia|done].
Qed.

Lemma acquire_busy now key holder s l :
  dget key (st_leases s) = Some l → now < l_expiresAtMs l → l_holder l ≠ holder →
  acquire_lease now key holder (cf_lease_ttl_ms cfg) s = (s, Raise (LeaseConflictError (l_holder l) (l_expiresAtMs l))).
Proof.
  intros E Hn Hh. unfold acquire_lease. rewrite E. destruct (Z.ltb_spec now (l_expiresAtMs l)); [|lia].
  by rewrite bool_decide_eq_false_2.
Qed.

(** Releasing what was just taken. *)
Lemma release_taken now key holder s :
  release_lease key holder (Some (last_token key s + 1)) (taken now key holder s) =
  ((taken now key holder s) <| st_leases := ddel key (st_leases (taken now key holder s)) |>, Ok tt).
Proof.
  unfold release_lease. cbn [taken st_leases]. unfold taken at 1. cbn. rewrite dget_dset_eq. cbn.
  rewrite bool_decide_eq_true_2 by done. rewrite Z.eqb_refl. done.
Qed.

Lemma drive_start_free now ids req rt :
  lease_free now (run_key ids req) (rt_store rt) →
  drive_start cfg now ids req rt =
  drive_begin cfg now ids req (run_session_id ids req) (run_key ids req) (run_holder ids)
    (last_token (run_key ids req) (rt_store rt) + 1)
    (rt <| rt_store := taken now (run_key ids req) (run_holder ids) (rt_store rt) |>).
Proof.
  intros Hf. unfold drive_start, catch, mbind, M_bind, st. fold (run_key ids req) (run_holder ids).
  by rewrite acquire_free.
Qed.

Lemma drive_begin_raises now ids req sid key holder token rt rt' e :
  admit_session now req sid key holder token rt = (rt', Raise e) →
  drive_begin cfg now ids req sid key holder token rt = (rt', Raise e).
Proof. intros E. unfold drive_begin, mbind at 1, M_bind at 1. by rewrite E. Qed.

Lemma drive_open_raises now ids req rt rt' e :
  drive_start cfg now ids req rt = (rt', Raise e) → drive_open cfg now ids req rt = (rt', Raise e).
Proof. intros E. unfold drive_open. by rewrite E. Qed.

(** A refusal releases the lease and raises. *)
Lemma refuse_released {A} key holder token e rt s' :
  release_lease key holder (Some token) (rt_store rt) = (s', Ok tt) →
  refuse_run key holder token e (A:=A) rt = (rt <| rt_store := s' |>, Raise e).
Proof. intros E. unfold refuse_run, mbind, M_bind, st. by rewrite E. Qed.

Lemma st_get {A} (f : MemoryStore → A) rt : st (gets f) rt = (rt, Ok (f (rt_store rt))).
Proof. by destruct rt. Qed.

Lemma st_eq {A} (m : store_m A) rt s s' res :
  m s = (s', res) → rt_store rt = s → st m rt = (rt <| rt_store := s' |>, res).
Proof. intros E <-. unfold st. by rewrite E. Qed.

Lemma st_load_session l r rt :
  st_session_objs (rt_store rt) !! l = Some r → st (load_session l) rt = (rt, Ok r).
Proof. intros E. unfold st, load_session. rewrite E. by destruct rt. Qed.

Lemma bind_eq {S A B} (m : M S A) (f : A → M S B) s s' a : m s = (s', Ok a) → (m ≫= f) s = f a s'.
Proof. intros E. unfold mbind, M_bind. by rewrite E. Qed.

Lemma bind_raises {S A B} (m : M S A) (f : A → M S B) s s' e : m s = (s', Raise e) → (m ≫= f) s = (s', Raise e).
Proof. intros E. unfold mbind, M_bind. by rewrite E. Qed.

Lemma admit_refused now req sid key holder token l r e rt s' :
  dget key (st_sessions (rt_store rt)) = Some l → st_session_objs (rt_store rt) !! l = Some r →
  release_lease key holder (Some token) (rt_store rt) = (s', Ok tt) → refusal req sid r = Some e →
  admit_session now req sid key holder token rt = (rt <| rt_store := s' |>, Raise e).
Proof.
  intros Hk Hl Hs Hr. unfold admit_session. erewrite bind_eq; [|apply st_get]. cbv beta. rewrite Hk.
  unfold refusal in Hr. destruct (s_appliedRevision r <? s_desiredRevision r) eqn:Ep.
  { injection Hr as <-. apply bind_raises. erewrite bind_eq by (by apply st_load_session). rewrite Ep. by apply refuse_released. }
  destruct (rq_continued_from_invocation_id req) as [src|] eqn:Ec; cbn [is_some negb].
  - erewrite bind_eq.
    2:{ erewrite bind_eq by (by apply st_load_session). by rewrite Ep, andb_false_r. }
    erewrite bind_eq by (by apply st_load_session). apply bind_raises.
    case_bool_decide as Hd; [discriminate Hr|]. injection Hr as <-.
    assert (negb (bool_decide (s_controlState r = "paused")) || negb (s_supportsResume r) ||
            negb (bool_decide (s_resumableInvocationId r = Some src)) = true) as ->.
    { repeat case_bool_decide; destruct (s_supportsResume r); try done. naive_solver. }
    by apply refuse_released.
  - case_bool_decide as Hd; [|discriminate Hr]. injection Hr as <-. apply bind_raises.
    erewrite bind_eq by (by apply st_load_session). rewrite Ep, bool_decide_eq_true_2 by done. by apply refuse_released.
Qed.

(** The session of an admitted run. *)
Definition admitted (req : RunRequest) (r : SessionRecord) : SessionRecord :=
  let r1 := match rq_continued_from_invocation_id req with
            | Some _ => r <| s_controlState := "resuming" |>
            | None => set_control "running" false None r
            end in
  match rq_effective_profile req, s_effectiveProfile r1 with
  | Some profile, None => r1 <| s_effectiveProfile := Some profile |>
  | _, _ => r1
  end.

Lemma admitted_key req r : session_key (admitted req r) = session_key r.
Proof. unfold admitted. by repeat case_match. Qed.

(** Two assignments to one object are one. *)
Lemma assign_assign {A} l f g (k : unit → rt_m A) rt :
  (_ ← st (assign_session l f); _ ← st (assign_session l g); k tt) rt =
  (_ ← st (assign_session l (g ∘ f)); k tt) rt.
Proof. unfold mbind, M_bind, st, assign_session, modify. cbn. by rewrite list_alter_alter_eq. Qed.

Lemma admit_accepted_eq now req sid key holder token l r rt :
  dget key (st_sessions (rt_store rt)) = Some l → st_session_objs (rt_store rt) !! l = Some r →
  refusal req sid r = None →
  admit_session now req sid key holder token rt =
  (_ ← st (assign_session l (admitted req)); st (put_session now l)) rt.
Proof.
  intros Hk Hl Hr. unfold admit_session. erewrite bind_eq; [|apply st_get]. cbv beta. rewrite Hk.
  unfold refusal in Hr. destruct (s_appliedRevision r <? s_desiredRevision r) eqn:Ep; [discriminate Hr|].
  erewrite bind_eq.
  2:{ erewrite bind_eq by (by apply st_load_session). rewrite Ep.
      destruct (rq_continued_from_invocation_id req); cbn [is_some negb]; [by rewrite andb_false_r|].
      case_bool_decide; [discriminate Hr|]. done. }
  erewrite bind_eq by (by apply st_load_session). unfold admitted.
  destruct (rq_continued_from_invocation_id req) as [src|].
  - case_bool_decide as Hd; [|discriminate Hr]. destruct Hd as (Hc & Hs & Hres).
    rewrite !bool_decide_eq_true_2, Hs by done. cbn [negb orb].
    destruct (rq_effective_profile req) as [profile|]; [|done].
    exact (assign_assign l _ _ (λ _, st (put_session now l)) rt).
  - destruct (rq_effective_profile req) as [profile|]; [|done].
    exact (assign_assign l _ _ (λ _, st (put_session now l)) rt).
Qed.

Lemma open_busy now ids req rt l :
  dget (run_key ids req) (st_leases (rt_store rt)) = Some l → now < l_expiresAtMs l → l_holder l ≠ run_holder ids →
  drive_open cfg now ids req rt = (rt, Raise (SessionBusyError (run_session_id ids req))).
Proof.
  intros E Hn Hh. apply drive_open_raises. unfold drive_start. apply bind_raises. unfold catch, st.
  fold (run_key ids req) (run_holder ids). rewrite (acquire_busy _ _ _ _ _ E Hn Hh). by destruct rt.
Qed.

Lemma admit_accepted now req sid key holder token l r rt :
  objects_inv (rt_store rt) → known_control_state (s_controlState (admitted req r)) = true →
  dget key (st_sessions (rt_store rt)) = Some l → st_session_objs (rt_store rt) !! l = Some r →
  refusal req sid r = None →
  ∃ rt' l', admit_session now req sid key holder token rt = (rt', Ok l') ∧
    session_at key (rt_store rt') = Some ((admitted req r) <| s_updatedAtMs := now |>) ∧
    st_leases (rt_store rt') = st_leases (rt_store rt).
Proof.
  intros Ho Hc Hk Hl Hr. rewrite (admit_accepted_eq _ _ _ _ _ _ _ _ _ Hk Hl Hr). erewrite bind_eq by reflexivity.
  pose proof (objects_inv_assign_session l (admitted req) (admitted_key req) _ Ho) as Ho'.
  set (s1 := (assign_session l (admitted req) (rt_store rt)).1) in *.
  assert (st_session_objs s1 !! l = Some (admitted req r)) as Hl' by (cbn; by rewrite list_lookup_alter_eq, Hl).
  assert (session_key r = key) as Hkey.
  { destruct Ho as (_ & Hobj & _). destruct (Hobj _ _ Hk) as (r' & Hr' & Hkr). congruence. }
  destruct (put_session now l s1) as [s2 res] eqn:E. pose proof E as E'. rewrite put_session_eq, Hl', Hc in E'.
  injection E' as Hs2 Hres. subst res.
  destruct (put_session_session_at _ _ _ _ _ Ho' E) as (r1 & Hr1 & _ & _ & Hat). rewrite Hl' in Hr1. injection Hr1 as <-.
  eexists _, _. split; [apply (st_eq _ _ _ _ _ E); reflexivity|]. cbn. split; [|by subst s2].
  rewrite Hat, admitted_key, Hkey. by case_decide.
Qed.

(** C32: A run on a stored session is decided by that session alone.  With the lease free, a run is
    refused exactly when a policy revision is pending, when the session is paused and the run
    is not a continuation, or when it continues an invocation the session does not offer;
    a refusal gives the lease back and changes nothing else but the token counter.  Otherwise the
    stored session becomes running (or resuming), a pinned profile is kept, and the lease
    is held with the new token.  While another holder's lease lasts, every run is refused as
    busy and nothing changes. *)
Theorem run_admission_decided {fl} now ids req rt r :
  runtime_inv fl rt → session_at (run_key ids req) (rt_store rt) = Some r →
  let key := run_key ids req in
  let token := last_token key (rt_store rt) + 1 in
  (∀ l, dget key (st_leases (rt_store rt)) = Some l → now < l_expiresAtMs l → l_holder l ≠ run_holder ids →
     drive_open cfg now ids req rt = (rt, Raise (SessionBusyError (run_session_id ids req)))) ∧
  (lease_free now key (rt_store rt) →
     match refusal req (run_session_id ids req) r with
     | Some e =>
         ∃ tokens leases,
           drive_open cfg now ids req rt =
             (rt <| rt_store := (rt_store rt) <| st_lease_tokens := tokens |> <| st_leases := leases |> |>, Raise e) ∧
           dget key leases = None ∧ ∀ k, k ≠ key → dget k leases = dget k (st_leases (rt_store rt))
     | None =>
         ∃ rt' l,
           admit_session now req (run_session_id ids req) key (run_holder ids) token
             (rt <| rt_store := taken now key (run_holder ids) (rt_store rt) |>) = (rt', Ok l) ∧
           session_at key (rt_store rt') = Some ((admitted req r) <| s_updatedAtMs := now |>) ∧
           dget key (st_leases (rt_store rt')) = Some (mkLease (run_holder ids) (now + cf_lease_ttl_ms cfg) token)
     end).
Proof.
  intros Hi (l & Hk & Hl)%bind_Some key token. split; [intros; by eapply open_busy|]. intros Hf.
  set (rt1 := rt <| rt_store := taken now key (run_holder ids) (rt_store rt) |>).
  destruct (refusal req (run_session_id ids req) r) as [e|] eqn:Er.
  - eexists _, _. split.
    + apply drive_open_raises. rewrite drive_start_free by done. apply drive_begin_raises.
      erewrite admit_refused; [|exact Hk|exact Hl|apply (release_taken now)|exact Er]. reflexivity.
    + cbn. split; [apply dget_ddel_eq|]. intros k Hne. by rewrite dget_ddel_ne, dget_dset_ne.
  - assert (known_control_state (s_controlState (admitted req r)) = true) as Hc.
    { unfold admitted. by repeat case_match. }
    destruct Hi as (Ho & _).
    destruct (admit_accepted now req (run_session_id ids req) key (run_holder ids) token l r rt1) as (rt' & l' & E & Hs & Hls);
      try done. exists rt', l'. split; [exact E|]. split; [exact Hs|]. rewrite Hls. cbn. apply dget_dset_eq.
Qed.

(** A first run whose policy is rejected keeps the lease.  The policy of a new session is validated
    after the lease is taken and outside the block that releases it: the caller gets the
    validation error, no session exists, and until the lease runs out every run on that
    session id is refused as busy. *)
Theorem rejected_first_run_keeps_lease now ids req rt e :
  lease_free now (run_key ids req) (rt_store rt) → dget (run_key ids req) (st_sessions (rt_store rt)) = None →
  initial_policy (rq_sandbox req) (rq_policy req) = Raise e →
  ∃ rt', drive_open cfg now ids req rt = (rt', Raise e) ∧
    session_at (run_key ids req) (rt_store rt') = None ∧
    ∀ now' ids' req', run_key ids' req' = run_key ids req → run_holder ids' ≠ run_holder ids →
      now' < now + cf_lease_ttl_ms cfg →
      drive_open cfg now' ids' req' rt' = (rt', Raise (SessionBusyError (run_session_id ids' req'))).
Proof.
  intros Hf Hk Hp. eexists. split_and!.
  - apply drive_open_raises. rewrite drive_start_free by done. apply drive_begin_raises. unfold admit_session.
    erewrite bind_eq; [|apply st_get]. cbv beta. change (st_sessions (rt_store (rt <| rt_store := _ |>))) with (st_sessions (rt_store rt)).
    rewrite Hk. apply bind_raises. erewrite bind_eq by reflexivity. apply bind_raises. unfold lift. by rewrite Hp.
  - unfold session_at. cbn. by rewrite Hk.
  - intros now' ids' req' Hk' Hh Hn. eapply open_busy; [cbn; rewrite Hk'; apply dget_dset_eq|cbn; lia|done].
Qed.
End admission.

Module AdmitWitnesses.
Import World SystemWitnesses.

(** The session of a finished run, asked for a new run and for a continuation. *)
Definition again (source : option string) : RunRequest :=
  mkRunRequest app "u" [] (Some "s1") None [] [] None "p" source None.

Lemma idle_session :
  match session_at key (rt_store (sy_rt after_run)), dget key (st_leases (rt_store (sy_rt after_run))) with
  | Some r, None => refusal (again None) "s1" r = None ∧
                    refusal (again (Some "inv_1")) "s1" r = Some (InvocationNotResumableError "inv_1")
  | _, _ => False
  end.
Proof. vm_compute. by split. Qed.

(** A reachable runtime whose session is idle and whose lease is free. *)
Lemma idle_runtime :
  ∃ fl rt r, runtime_inv fl rt ∧ session_at key (rt_store rt) = Some r ∧ lease_free 100 key (rt_store rt) ∧
    refusal (again None) "s1" r = None ∧
    refusal (again (Some "inv_1")) "s1" r = Some (InvocationNotResumableError "inv_1").
Proof.
  destruct (sys_inv_steps cfg _ _ after_run_steps (sys_inv_initial 1000)) as [Hi _].
  pose proof idle_session as Hs. revert Hi Hs. generalize (sy_rt after_run). intros rt Hi Hs.
  destruct (session_at key (rt_store rt)) as [r|] eqn:E; [|done].
  destruct (dget key (st_leases (rt_store rt))) as [l|] eqn:El; [done|]. destruct Hs as [Hnone Hsome].
  exists (floor_of (rt_store rt)), rt, r. split_and!; try done. intros l. by rewrite El.
Qed.

Lemma run_admission_decided_witness :
  ∃ rt, (drive_open cfg 100 (ids "2") (again (Some "inv_1")) rt).2 = Raise (InvocationNotResumableError "inv_1") ∧
  ∃ rt' l r, admit_session 100 (again None) "s1" key "run_2" (last_token key (rt_store rt) + 1)
     (rt <| rt_store := taken cfg 100 key "run_2" (rt_store rt) |>) = (rt', Ok l) ∧
     session_at key (rt_store rt') = Some r ∧ s_controlState r = "running".
Proof.
  destruct idle_runtime as (fl & rt & r & Hi & E & Hf & Hnone & Hsome). exists rt. split.
  - destruct (run_admission_decided cfg 100 (ids "2") (again (Some "inv_1")) _ r Hi E) as [_ Hd].
    specialize (Hd Hf). change (run_session_id (ids "2") (again (Some "inv_1"))) with "s1" in Hd. rewrite Hsome in Hd.
    destruct Hd as (tokens & leases & Ho & _). by rewrite Ho.
  - destruct (run_admission_decided cfg 100 (ids "2") (again None) _ r Hi E) as [_ Hd].
    specialize (Hd Hf). change (run_session_id (ids "2") (again None)) with "s1" in Hd. rewrite Hnone in Hd.
    destruct Hd as (rt' & l & Ho & Hl & _). exists rt', l, ((admitted (again None) r) <| s_updatedAtMs := 100 |>).
    split_and!; [exact Ho|exact Hl|reflexivity].
Defined.

(** A first run that asks for an unknown workspace mode. *)
Definition bad_req : RunRequest :=
  mkRunRequest app "u" [] (Some "s1") None [("mode", PStr "no-such-mode")] [] None "p" None None.

Lemma rejected_first_run_keeps_lease_witness :
  ∃ rt' e, drive_open cfg 0 (ids "1") bad_req (sy_rt (initial 1000)) = (rt', Raise e) ∧
    drive_open cfg 29999 (ids "2") req rt' = (rt', Raise (SessionBusyError "s1")).
Proof.
  destruct (initial_policy (rq_sandbox bad_req) (rq_policy bad_req)) as [p|e] eqn:E; [discriminate E|].
  destruct (rejected_first_run_keeps_lease cfg 0 (ids "1") bad_req (sy_rt (initial 1000)) e) as (rt' & Ho & _ & Hbusy);
    [by intros l|reflexivity|exact E|].
  exists rt', e. split; [exact Ho|]. apply (Hbusy 29999 (ids "2") req); [reflexivity|discriminate|reflexivity].
Defined.

End AdmitWitnesses.
